(* ===== verification/_CoqProject ===== *)
-Q . S2P
Prelude.v
Status.v
Util.v
Sys.v
ReferenceSodium.v
Arena.v
Model.v
ModelFacts.v
ModelInv.v
ModelProps.v
Cbor.v
CborGrammar.v
CborFacts.v
CborProps.v
Crypto.v
CryptoFacts.v
CryptoProps.v
Posix.v
Recovery.v
RecoveryFacts.v
RecoveryProps.v
Config.v
ConfigProps.v
ConfigGrammar.v
Fs.v
Secure.v
Store.v
StoreOps.v
FsFacts.v
StoreFacts.v
StoreReads.v
StoreSave.v
StoreNames.v
StorePrune.v
StoreCommit.v
StoreSession.v
StoreReopen.v
StoreCreate.v
StoreCopies.v
StoreExample.v
StoreProps.v
SecureProps.v
Ui.v
UiProps.v
Process.v
ProcessFacts.v
Clipboard.v
ClipboardFacts.v
ClipboardProps.v
ClipboardOwner.v
Rofi.v
Cli.v
Shell.v
Commands.v
Main.v
VaultKept.v
CliFacts.v
CliExample.v
CliProps.v
MainProps.v
Dialogue.v
CommandProps.v
MemoryProps.v
InitProps.v
RofiProps.v
ShellProps.v
Fuzz.v
FuzzProps.v
