(* ===== verification/Prelude.v ===== *)
(** * PVault: a verification library

    PVault is a password vault in C. A vault is a list of records held in a
    locked memory arena; on disk it is a fixed-size header (magic, algorithms,
    two key slots that wrap the same master key under a password and under a
    recovery key) followed by one authenticated ciphertext of the records in
    canonical CBOR. This library models the C sources as executable Rocq
    functions and proves what makes them correct.

    ** The parts of the program and the files that model them

    - [Prelude]: bytes and machine integers, lists addressed by offset, the
      little-endian integers of the header, hint databases and tactics.
    - [Status]: [include/pvault/pvault.h], [src/error.c] and the constants of
      [src/pvault_internal.h].
    - [Util]: [src/util.c]: UTF-8 validation, the sanitising of text for the
      terminal, size arithmetic, hexadecimal, substring search.
    - [Sys]: what the program calls and does not contain. The guarded
      allocator, page locking, the random generator and the clock are streams
      of outcomes ([sys]) consumed by a state monad [M]; the guarded blocks of a
      vault that are given to [sodium_free] are recorded in order; libsodium's
      hash, KDF and AEAD are the class [Sodium] with the laws [SodiumLaws].
      [ReferenceSodium] is an instance that satisfies the laws.
    - [Arena]: [src/arena.c]: the arena as its contents and its bump pointer.
    - [Model]: [src/model.c]: the vault and its operations. [ModelFacts] and
      [ModelInv] hold the lemmas and the invariant, [ModelProps] the theorems.
    - [Cbor]: [src/cbor_codec.c]: writer and reader. libcbor is the class
      [Libcbor] with the laws [LibcborLaws]. [CborGrammar] relates readers to
      the encodings they accept, [CborFacts] does so for fields, records and
      vaults, [CborProps] holds the theorems.
    - [Crypto]: [src/crypto.c]: header format, key slots, body encryption.
      [CryptoFacts], [CryptoProps].
    - [Posix]: open files as their contents and a schedule of interruptions,
      errors and short transfers; [stat]; the C locale's character classes.
    - [Recovery]: [src/recovery.c]: base 32, printed recovery keys and the
      recovery file. [RecoveryFacts], [RecoveryProps].
    - [Config]: [src/config.c]: locating, reading and parsing the configuration.
      [ConfigProps] has the lemmas about lines, loading and printing,
      [ConfigGrammar] the language of the file and the parser against it.
    - [Secure]: [src/secure.c] and [src/tty.c]: secret buffers, the password
      policy, the guard around signals and the terminal's echo, secret and plain
      lines from the terminal. What the user and the kernel do is a script.
      [SecureProps].
    - [Fs]: the kernel under the store, as far as the store relies on it:
      inodes, directories, what is visible and what is on the disk, the system
      calls in a state monad [W] over [M]. [FsFacts] has the weakest
      preconditions of the calls.
    - [Store] and [StoreOps]: [src/store.c]: reading, locking, atomic
      replacement and exclusive copies; then backups and their retention,
      saving, creating, opening, exporting, restoring, diagnosis. The lemmas
      follow the layers: [StoreFacts] (one new file), [StoreReads], [StoreSave]
      (snapshots and backups), [StoreNames] (names of backups), [StorePrune],
      [StoreCommit] ([save_locked]), [StoreSession] (the lock and
      [pv_store_save]), [StoreReopen] (opening what was saved), [StoreCreate]
      (creating a vault in a world where nothing fails), [StoreCopies] (exports
      and restores).
      [StoreExample] is a concrete vault file, [StoreProps] the theorems.

    - [Ui]: [src/ui.c]: the picker, with the guard around signals. ncurses is
      what it shows (a screen is the query and lines, one maybe in reverse video);
      keys, signals, sizes, the outcome of each call and what [newterm] makes of the
      signal handlers are a script. The open descriptors and streams of the terminal
      and the screens allocated are part of the state. [UiProps].
    - [Process]: a process as its system calls: a trace of calls and answers, the
      handlers and [errno], in a monad [K]; [fork] continues as the child or the
      parent as the answer says, and a computation returns, exits or becomes another
      program. [ProcessFacts] has the rules.
    - [Clipboard]: [src/clipboard.c]: starting the helper, the protocol between the
      command, the worker and the owner of the clipboard. [ClipboardFacts],
      [ClipboardProps]; [ClipboardOwner] reads a trace as operations on the table of
      descriptors of the process.
    - [Rofi]: the part of [src/cli.c] that makes system calls itself: whole
      buffers, the terminal, the external selector. [RofiProps].
    - [Cli]: the state of a run of the program and its monad [C]; the dialogue,
      forms and generated passwords of [src/cli.c]. [Shell]: [src/shell.c].
      [Commands]: the commands and the dispatch of [src/cli.c]. [Main]:
      [src/main.c]. [VaultKept] follows the memory of a vault through the store,
      [CliFacts] has the rules of [C], [Dialogue] what is typed. [CliProps],
      [ShellProps], [CommandProps], [MemoryProps], [InitProps] and [MainProps] hold
      the theorems, [CliExample] concrete runs.
    - [Fuzz]: the three harnesses of [fuzz/]: each decodes an input as it is, then
      builds a valid object, mixes pairs of the input's bytes into it and decodes
      that. [FuzzProps].

    The store calls [Cbor] and [Crypto] for the bytes of the file, [Model] and
    [Arena] for the vault it opens or saves, [Secure] for the buffers of
    credentials it consumes. The commands call the store, [Secure] and [Ui] for
    the dialogue, and [Rofi] and [Clipboard] for other programs; [Main] reads the
    configuration and calls the dispatch.

    ** Conventions

    A C function that changes objects through pointers is a function from their
    contents before to the status and their contents after. An output parameter
    that some path leaves untouched is an [option], [None] meaning untouched.
    Inputs the code tests against [NULL] are options where a caller can pass
    [NULL]; parameters that every caller passes as the address of an object are
    plain values. A pointer into the arena is an offset, a pointer to a record
    its index, an array and its count one list. Sizes are those of an LP64
    platform. Integers are [Z], with the conversions [u8], [u16], [u32], [u64]
    written where the C code converts.

    Loops that are structural in the source are structural here. Others have
    fuel: drawing an unused record identifier ([random_id], which ends when the
    random stream yields a fresh identifier, theorem
    [model_add_record_terminates]); libcbor's token loop (the length of the
    input, every token takes a byte); base 32 encoding (two characters for a
    byte); and the loops around [read] and [write] (the length of the schedule
    plus two). For these the theorems state that a result is returned. Loops
    that wait for a terminal recurse on the script of its answers; a script that
    ends first leaves the program waiting, which is the result [None], and
    [secret_can_be_entered] states when a result is returned. Loops around system
    calls ([Process.iter]) have one turn more than there are answers left, and
    every turn takes an answer; the session of the shell has one turn more than
    there are bytes of input ([shell_loop_ends]).

    ** Runs of the program

    The state of a run ([Cli.cli]) is the world of the store, the terminal, the
    process, what was printed, and scripts for the dialogues to come. A run has no
    result ([None]) when a script ends, or when the process is a child that ended
    or became another program. A vault that goes out of scope is recorded as it was
    when it was last used and at the end, with the guarded blocks that were freed in
    between. The recovery files are a map from paths to contents beside the world of
    the store. The two ends of a pipe are two processes with their own traces.

    ** The kernel of the store

    Every call may fail, with any error, at any time; transfers may be
    interrupted or short; each time a path is opened it may name another
    directory. Directory entries and contents are durable only after [fsync].
    The state remembers every file system it went through, so a statement about
    all of them is one about readers, and about crashes, between any two calls.
    Assumed: no other process changes the inodes and entries the program works
    on while an operation runs (the program takes a lock for this), a file that
    is open for reading is read as it was when it was opened, and the order in
    which [readdir] lists names is some listing of the directory ([HostLaws]).
    Statements that something succeeds are for a [calm] world, in which no call
    fails and paths keep their meaning.

    ** What the theorems show

    - [Util]: UTF-8 validation accepts exactly the encodings of scalar values;
      sanitised text is safe to print; hexadecimal round-trips; substring search
      and size arithmetic are exact.
    - [Arena]: blocks are disjoint, aligned and inside the arena over every
      sequence of operations; a copied slice reads back.
    - [ModelProps]: every reachable vault is well formed; adding, deleting,
      cloning and searching do what they say on every branch; deleting erases
      the secrets from memory. One theorem exhibits a defect of the search.
    - [CborProps]: encoding a well-formed vault succeeds and decoding gives it
      back; what the decoder accepts is the canonical encoding of its result.
    - [CryptoProps]: the header decoder accepts exactly the valid headers; the
      current password and recovery key open the master key after any sequence
      of changes, saves and reloads; bodies round-trip and are authentic.
    - [RecoveryProps]: printed keys are read back however they are retyped, and
      nothing else is accepted; the recovery file is complete or absent.
    - [ConfigProps], [ConfigGrammar]: the parser accepts exactly a grammar written
      without it, down to the sign and the wrap of numerals; bounds of the result,
      round trip, loading. One theorem exhibits a negative number that is accepted.
    - [StoreProps]: saving refines an atomic register, through every failure and
      crash; it keeps a backup of what it replaced, name and contents on the disk,
      and a well-formed session; what is saved opens again with the same password; restoring is an
      atomic replacement that keeps the replaced vault; exporting makes exact
      copies and touches nothing else; pruning removes exactly the surplus
      backups; names of backups parse exactly when they were formatted.
    - [SecureProps]: the password policy against a declarative description of
      the refused passwords; reading a secret restores handlers and echo, keeps
      nothing on failure, returns the typed line and can always be completed.

    - [UiProps]: every screen of the picker shows sanitised titles of live records
      that match, and what is returned is the row in reverse video when the terminal
      has rows for records; on every path what was opened is closed and the guarded
      signals are restored; a record can be found by typing.
    - [ClipboardProps]: a secret crosses the pipe only to an owner that is ready,
      whole and in order, and every descriptor of the job is closed once; it is
      accepted only under a timer, and the owner ends with the worker; only [xclip]
      is run, in a native X11 session; starting the helper leaks no descriptor; a
      copy can succeed.
    - [ClipboardOwner]: the owner's input is the pipe of the secret, its output goes
      nowhere, and it keeps no other descriptor of the worker.
    - [RofiProps]: the selector is sent the sanitised titles of live records with
      tokens, and its answer is what is selected.
    - [CliProps]: what is printed of a record depends on no secret and is safe to
      display; generated passwords; lists typed with commas.
    - [ShellProps]: the session is its turns and comes to an end.
    - [CommandProps]: [add] and [passwd] from the keyboard to the disk and back, in a
      world where no call fails: all or nothing; and a password can be changed.
    - [InitProps]: creating a vault replaces no file that was there; [init] from the
      keyboard succeeds in a world where nothing fails, and leaves a vault that opens
      with the password typed and a recovery file that holds its recovery key.
    - [MemoryProps]: over all commands: no vault is left in memory, and its guarded
      blocks are given back.
    - [MainProps]: over all commands: only writing
      commands write; redirected output is refused before anything is asked; the
      configuration is skipped only where it does not matter; failures are reported.
    - [FuzzProps]: what the harnesses decode. The seeds of the CBOR and recovery
      harnesses are accepted; the header that the header harness calls valid is
      refused for its KDF limits.

    ** What is not modelled

    The Wayland part of [src/clipboard.c] behind
    [PVAULT_EXPERIMENTAL_WAYLAND_CLIPBOARD], which is not compiled into the program
    (an [#error] keeps it out of installable targets), and the tests. Prompts are
    written to the terminal but only the answers are in the model. The fault
    injection that [src/store.c] contains for its tests is left out: the
    failures it forces are among those every call may have here. Clearing of
    local buffers before a return is not visible in a functional model, except
    where a buffer outlives the call (secret buffers, the arena, the vault). The
    strength of the cryptography is not a subject here: the laws of
    [SodiumLaws] state sizes and that decryption inverts encryption, and
    [SodiumTotal] that the primitives do not fail. *)

From Stdlib Require Export ZArith Lia.
From stdpp Require Export base tactics list numbers.

#[global] Open Scope Z_scope.

(** ** Bytes and machine integers

    A [uint8_t] is a [Z] in [0, 255], an array of bytes is a [list Z]; a C
    string is the list of its characters before the terminating NUL. *)

Definition is_byte (b : Z) : Prop := 0 <= b < 256.
Definition is_bytes (l : list Z) : Prop := Forall is_byte l.

Definition zlen {A} (l : list A) : Z := Z.of_nat (length l).

(** Conversions to the fixed-width unsigned types of the source. *)
Definition u8 (x : Z) : Z := x mod 256.
Definition u16 (x : Z) : Z := x mod 65536.
Definition u32 (x : Z) : Z := x mod 4294967296.
Definition u64 (x : Z) : Z := x mod 18446744073709551616.

Definition UINT8_MAX : Z := 255.
Definition UINT16_MAX : Z := 65535.
Definition UINT32_MAX : Z := 4294967295.
Definition UINT64_MAX : Z := 18446744073709551615.
Definition SIZE_MAX : Z := 18446744073709551615.
Definition INT64_MAX : Z := 9223372036854775807.
Definition PATH_MAX : Z := 4096.

(** [zsub l off n]: the [n] elements of [l] from index [off]
    ([memcpy] from [l + off]); [znth l i]: the element [l[i]]. *)
Definition zsub {A} (l : list A) (off n : Z) : list A :=
  take (Z.to_nat n) (drop (Z.to_nat off) l).
Definition znth (l : list Z) (i : Z) : Z := nth (Z.to_nat i) l 0.

(** [zwrite l off bs]: [l] after [memcpy(l + off, bs, length bs)]. *)
Definition zwrite {A} (l : list A) (off : Z) (bs : list A) : list A :=
  take (Z.to_nat off) l ++ bs ++ drop (Z.to_nat off + length bs) l.

Definition zeros (n : Z) : list Z := replicate (Z.to_nat n) 0.

(** The [aggregate |= data[i]] loops of the source. *)
Definition or_all (l : list Z) : Z := fold_left Z.lor l 0.

(** Lexicographic equality of byte arrays ([memcmp(..) == 0],
    [sodium_memcmp(..) == 0], [strcmp(..) == 0]). *)
Fixpoint bytes_eqb (a b : list Z) : bool :=
  match a, b with
  | [], [] => true
  | x :: a', y :: b' => (x =? y) && bytes_eqb a' b'
  | _, _ => false
  end.

(** ** Tactics and hint databases *)

Create HintDb pv.
Create Rewrite HintDb pv.

(** Splits on the conditionals of the goal, keeping the tests as equations. *)
Ltac split_if :=
  match goal with
  | |- context [if ?b then _ else _] => destruct b eqn:?
  end.

(** Splits on the conditionals of a hypothesis. *)
Ltac split_if_in H :=
  match type of H with
  | context [if ?b then _ else _] => destruct b eqn:?
  end.

(** ** Generic lemmas: lists *)

Lemma zlen_nonneg {A} (l : list A) : 0 <= zlen l.
Proof. unfold zlen. lia. Qed.

Lemma zlen_app {A} (l k : list A) : zlen (l ++ k) = zlen l + zlen k.
Proof. unfold zlen. rewrite length_app. lia. Qed.

Lemma zlen_cons {A} (x : A) l : zlen (x :: l) = 1 + zlen l.
Proof. unfold zlen. simpl. lia. Qed.

Lemma zlen_nil {A} : zlen (@nil A) = 0.
Proof. reflexivity. Qed.

Lemma zlen_map {A B} (f : A -> B) l : zlen (map f l) = zlen l.
Proof. unfold zlen. by rewrite length_map. Qed.

Lemma zlen_zeros n : 0 <= n -> zlen (zeros n) = n.
Proof. intros. unfold zlen, zeros. rewrite length_replicate. lia. Qed.

Lemma zlen_zsub {A} (l : list A) off n :
  0 <= off -> 0 <= n -> off + n <= zlen l -> zlen (zsub l off n) = n.
Proof.
  intros. unfold zlen, zsub in *. rewrite length_take, length_drop. lia.
Qed.

Lemma zlen_zwrite {A} (l : list A) off bs :
  0 <= off -> off + zlen bs <= zlen l -> zlen (zwrite l off bs) = zlen l.
Proof.
  intros. unfold zlen, zwrite in *.
  rewrite !length_app, length_take, length_drop. lia.
Qed.

#[export] Hint Rewrite @zlen_app @zlen_cons @zlen_nil @zlen_map : pv.

(** Normalises every [zlen] and closes linear goals. *)
Ltac zlia :=
  autorewrite with pv in *;
  repeat match goal with
  | |- context [zlen ?l] => lazymatch goal with
      | _ : 0 <= zlen l |- _ => fail | _ => pose proof (zlen_nonneg l) end
  | _ : context [zlen ?l] |- _ => lazymatch goal with
      | _ : 0 <= zlen l |- _ => fail | _ => pose proof (zlen_nonneg l) end
  end; lia.

Lemma zsub_0 {A} (l : list A) n : zsub l 0 n = take (Z.to_nat n) l.
Proof. unfold zsub. by rewrite drop_0. Qed.

Lemma zsub_all {A} (l : list A) : zsub l 0 (zlen l) = l.
Proof. unfold zsub, zlen. rewrite drop_0, firstn_all2; [done | lia]. Qed.

Lemma zsub_app_l {A} (l k : list A) off n :
  0 <= off -> 0 <= n -> off + n <= zlen l -> zsub (l ++ k) off n = zsub l off n.
Proof.
  intros. unfold zsub, zlen in *.
  rewrite drop_app_le by lia. rewrite take_app_le; [done |].
  rewrite length_drop. lia.
Qed.

Lemma zsub_app_r {A} (l k : list A) off n :
  zlen l <= off -> zsub (l ++ k) off n = zsub k (off - zlen l) n.
Proof.
  intros. unfold zsub, zlen in *. rewrite drop_app_ge by lia.
  do 2 f_equal. lia.
Qed.

Lemma zsub_app_mid {A} (l m k : list A) :
  zsub (l ++ m ++ k) (zlen l) (zlen m) = m.
Proof.
  rewrite zsub_app_r by lia. replace (zlen l - zlen l) with 0 by lia.
  rewrite zsub_app_l by zlia. apply zsub_all.
Qed.

Lemma zsub_nil_len {A} (l : list A) off : zsub l off 0 = [].
Proof. unfold zsub. by rewrite take_0. Qed.

(** Reading back what a [memcpy] stored, and what it left alone. *)
Lemma zsub_zwrite_same {A} (l : list A) off bs :
  0 <= off -> off + zlen bs <= zlen l -> zsub (zwrite l off bs) off (zlen bs) = bs.
Proof.
  intros. unfold zwrite.
  etrans; [| apply (zsub_app_mid (take (Z.to_nat off) l) bs)].
  f_equal. unfold zlen in *. rewrite length_take. lia.
Qed.

Lemma zsub_zwrite_below {A} (l : list A) off bs o n :
  0 <= o -> 0 <= n -> o + n <= off -> off <= zlen l ->
  zsub (zwrite l off bs) o n = zsub l o n.
Proof.
  intros. unfold zwrite. rewrite zsub_app_l; try lia.
  - unfold zsub, zlen in *. rewrite skipn_firstn_comm, take_take. f_equal. lia.
  - unfold zlen in *. rewrite length_take. lia.
Qed.

Lemma zsub_zwrite_above {A} (l : list A) off bs o n :
  0 <= off -> off + zlen bs <= o -> o <= zlen l ->
  zsub (zwrite l off bs) o n = zsub l o n.
Proof.
  intros. unfold zwrite. rewrite app_assoc.
  assert (E : zlen (take (Z.to_nat off) l ++ bs) = off + zlen bs).
  { rewrite zlen_app. unfold zlen in *. rewrite length_take. lia. }
  rewrite zsub_app_r by lia. unfold zsub. rewrite drop_drop. do 2 f_equal.
  rewrite E. unfold zlen in *. lia.
Qed.

Lemma bytes_eqb_eq a b : bytes_eqb a b = true <-> a = b.
Proof.
  revert b. induction a as [|x a IH]; intros [|y b]; simpl; try (split; congruence).
  rewrite andb_true_iff, Z.eqb_eq, IH. split; [intros [-> ->] | intros [= -> ->]]; auto.
Qed.

Lemma bytes_eqb_refl a : bytes_eqb a a = true.
Proof. by apply bytes_eqb_eq. Qed.

Lemma bytes_eqb_neq a b : bytes_eqb a b = false <-> a <> b.
Proof. rewrite <- not_true_iff_false, bytes_eqb_eq. done. Qed.

#[export] Hint Rewrite bytes_eqb_refl : pv.

Lemma is_bytes_app l k : is_bytes (l ++ k) <-> is_bytes l /\ is_bytes k.
Proof. apply Forall_app. Qed.

Lemma is_bytes_zsub l off n : is_bytes l -> is_bytes (zsub l off n).
Proof. intros. by apply Forall_take, Forall_drop. Qed.

Lemma is_bytes_zeros n : is_bytes (zeros n).
Proof. apply Forall_replicate. unfold is_byte. lia. Qed.

Lemma is_bytes_zwrite l off bs : is_bytes l -> is_bytes bs -> is_bytes (zwrite l off bs).
Proof.
  intros. unfold zwrite. repeat apply Forall_app_2; auto.
  - by apply Forall_take.
  - by apply Forall_drop.
Qed.

Lemma is_bytes_app_2 l k : is_bytes l -> is_bytes k -> is_bytes (l ++ k).
Proof. apply Forall_app_2. Qed.

Lemma is_bytes_cons b l : is_byte b -> is_bytes l -> is_bytes (b :: l).
Proof. by constructor. Qed.

Lemma is_bytes_nil : is_bytes [].
Proof. constructor. Qed.

Lemma is_byte_0 : is_byte 0.
Proof. unfold is_byte. lia. Qed.

Lemma is_bytes_take n l : is_bytes l -> is_bytes (take n l).
Proof. apply Forall_take. Qed.

Lemma is_bytes_drop n l : is_bytes l -> is_bytes (drop n l).
Proof. apply Forall_drop. Qed.

#[export] Hint Resolve is_bytes_zsub is_bytes_zeros is_bytes_zwrite is_bytes_app_2
  is_bytes_cons is_bytes_nil is_byte_0 is_bytes_take is_bytes_drop : pv.

(** ** Generic lemmas: bytes and bit operations *)

(** Checks a decidable property of a byte by running it on all 256 values. *)
Lemma byte_forall (P : Z -> bool) :
  forallb P (seqZ 0 256) = true -> forall b, is_byte b -> P b = true.
Proof.
  intros H b Hb. rewrite forallb_forall in H. apply H.
  apply list_elem_of_In, elem_of_seqZ. unfold is_byte in Hb. lia.
Qed.

Lemma lor_add a b k : 0 <= k -> 0 <= b < 2 ^ k -> Z.lor (a * 2 ^ k) b = a * 2 ^ k + b.
Proof.
  intros Hk Hb. symmetry. rewrite <- Z.lxor_lor; [apply Z.add_nocarry_lxor |];
    apply Z.bits_inj'; intros n Hn; rewrite Z.land_spec, Z.bits_0;
    rewrite <- Z.shiftl_mul_pow2, Z.shiftl_spec by lia;
    (destruct (Z.ltb_spec n k);
     [rewrite (Z.testbit_neg_r a) by lia; done |
      rewrite <- (Z.mod_small b (2 ^ k)), Z.mod_pow2_bits_high by lia;
      apply andb_false_r]).
Qed.

Lemma shiftl_lor_add a b k :
  0 <= k -> 0 <= b < 2 ^ k -> Z.lor (Z.shiftl a k) b = a * 2 ^ k + b.
Proof. intros. rewrite Z.shiftl_mul_pow2 by lia. by apply lor_add. Qed.

Lemma or_all_acc l acc : is_bytes l -> 0 <= acc ->
  fold_left Z.lor l acc = 0 <-> acc = 0 /\ Forall (eq 0) l.
Proof.
  revert acc. induction l as [|x l IH]; intros acc Hl Hacc; simpl.
  - split; [auto | by intros []].
  - inv Hl. unfold is_byte in *. rewrite IH; [| done |].
    + rewrite Z.lor_eq_0_iff, Forall_cons_iff. intuition congruence.
    + apply Z.lor_nonneg. lia.
Qed.

(** The aggregate is zero exactly for the all-zero array. *)
Lemma or_all_zero l : is_bytes l -> or_all l = 0 <-> Forall (eq 0) l.
Proof. intros. unfold or_all. rewrite or_all_acc by (auto; lia). intuition. Qed.

(** ** Little-endian integers ([put_uN_le]/[get_uN_le] and big-endian CBOR heads) *)

Fixpoint le_put (n : nat) (v : Z) : list Z :=
  match n with
  | O => []
  | S n' => u8 v :: le_put n' (Z.shiftr v 8)
  end.

Fixpoint le_get (l : list Z) : Z :=
  match l with
  | [] => 0
  | b :: l' => Z.lor b (Z.shiftl (le_get l') 8)
  end.

Lemma le_put_length n v : length (le_put n v) = n.
Proof. revert v. induction n; simpl; auto. Qed.

Lemma u8_byte v : is_byte (u8 v).
Proof. unfold is_byte, u8. apply Z.mod_pos_bound. lia. Qed.

Lemma u8_small v : is_byte v -> u8 v = v.
Proof. intros. apply Z.mod_small. done. Qed.

Lemma u32_small v : 0 <= v <= UINT32_MAX -> u32 v = v.
Proof. intros. apply Z.mod_small. unfold UINT32_MAX in *. lia. Qed.

Lemma u64_small v : 0 <= v <= UINT64_MAX -> u64 v = v.
Proof. intros. apply Z.mod_small. unfold UINT64_MAX in *. lia. Qed.

#[export] Hint Resolve u8_byte : pv.

Lemma le_put_bytes n v : is_bytes (le_put n v).
Proof. revert v. induction n; simpl; constructor; auto with pv. apply IHn. Qed.

Lemma le_get_cons b l : is_byte b -> le_get (b :: l) = b + 256 * le_get l.
Proof.
  intros. unfold is_byte in *. simpl. rewrite Z.lor_comm, shiftl_lor_add by lia.
  change (2 ^ 8) with 256. lia.
Qed.

Lemma le_get_nonneg l : is_bytes l -> 0 <= le_get l < 256 ^ zlen l.
Proof.
  induction 1 as [|b l Hb _ IH]; [unfold zlen; simpl; lia |].
  rewrite le_get_cons by done. rewrite zlen_cons.
  rewrite Z.pow_add_r by zlia. unfold is_byte in *. lia.
Qed.

Lemma le_get_put n v : 0 <= v < 256 ^ Z.of_nat n -> le_get (le_put n v) = v.
Proof.
  revert v. induction n as [|n IH]; intros v Hv; [simpl in *; lia |].
  cbn [le_put]. rewrite le_get_cons by auto with pv.
  rewrite Z.shiftr_div_pow2 by lia. change (2 ^ 8) with 256.
  rewrite IH.
  - unfold u8. pose proof (Z.div_mod v 256). lia.
  - rewrite Nat2Z.inj_succ, Z.pow_succ_r in Hv by lia.
    split; [apply Z.div_pos; lia | apply Z.div_lt_upper_bound; lia].
Qed.

Lemma le_put_get l : is_bytes l -> le_put (length l) (le_get l) = l.
Proof.
  induction 1 as [|b l Hb Hl IH]; [done |].
  cbn [length le_put]. rewrite le_get_cons by done. unfold is_byte in *.
  rewrite Z.shiftr_div_pow2 by lia. change (2 ^ 8) with 256.
  replace ((b + 256 * le_get l) / 256) with (le_get l) by (Z.div_mod_to_equations; lia).
  rewrite IH. f_equal. unfold u8. Z.div_mod_to_equations; lia.
Qed.

Lemma le_put_snoc n v : le_put (S n) v = le_put n v ++ [u8 (Z.shiftr v (Z.of_nat n * 8))].
Proof.
  revert v. induction n as [|n IH]; intros v; [done |].
  change (le_put (S (S n)) v) with (u8 v :: le_put (S n) (Z.shiftr v 8)). rewrite IH. simpl. do 3 f_equal.
  rewrite Z.shiftr_shiftr by lia. f_equal. f_equal. lia.
Qed.

Lemma le_put_map n v : le_put n v = map (fun i => u8 (Z.shiftr v (Z.of_nat i * 8))) (seq 0 n).
Proof. induction n as [|n IH]; [done |]. rewrite le_put_snoc, seq_S, map_app, <- IH. done. Qed.

Lemma le_get_snoc l b : le_get (l ++ [b]) = Z.lor (le_get l) (Z.shiftl b (zlen l * 8)).
Proof.
  induction l as [|x l IH]; [simpl; rewrite Z.shiftl_0_l, Z.lor_0_r; unfold zlen; by rewrite Z.shiftl_0_r |].
  cbn [app le_get]. rewrite IH, Z.shiftl_lor, Z.shiftl_shiftl, zlen_cons, Z.lor_assoc by zlia.
  do 2 f_equal. lia.
Qed.

(** Adjacent pieces of a list. *)
Lemma zsub_join {A} (l : list A) a n m :
  0 <= a -> 0 <= n -> 0 <= m -> zsub l a n ++ zsub l (a + n) m = zsub l a (n + m).
Proof.
  intros. unfold zsub. rewrite !Z2Nat.inj_add by lia. rewrite <- drop_drop.
  apply take_take_drop.
Qed.

#[export] Hint Resolve le_put_bytes : pv.
