(* ===== verification/Status.v ===== *)
(** * Status codes and format constants

    [include/pvault/pvault.h], [src/pvault_internal.h] and [src/error.c]: the
    status enumeration every fallible operation returns, its message and
    process exit code, and the size and format limits the components share. *)

From Stdlib Require Import String.
From S2P Require Import Prelude.

Inductive pv_status : Set :=
| PV_OK
| PV_ERR_USAGE
| PV_ERR_AUTH
| PV_ERR_IO
| PV_ERR_SECURE_MEMORY
| PV_ERR_LOCKED
| PV_ERR_EXTERNAL
| PV_ERR_FORMAT
| PV_ERR_LIMIT
| PV_ERR_NOT_FOUND
| PV_ERR_EXISTS
| PV_ERR_STATE
| PV_ERR_DURABILITY
| PV_ERR_NOMEM
| PV_ERR_UNSUPPORTED.

#[global] Instance pv_status_eq_dec : EqDecision pv_status.
Proof. solve_decision. Defined.

(** [status == PV_OK]. *)
Definition is_ok (s : pv_status) : bool :=
  match s with PV_OK => true | _ => false end.

Definition pv_status_string (status : pv_status) : string :=
  match status with
  | PV_OK => "success"
  | PV_ERR_USAGE => "invalid usage"
  | PV_ERR_AUTH => "authentication or integrity check failed"
  | PV_ERR_IO => "I/O error"
  | PV_ERR_SECURE_MEMORY => "secure memory unavailable"
  | PV_ERR_LOCKED => "vault is locked or busy"
  | PV_ERR_EXTERNAL => "external integration failed"
  | PV_ERR_FORMAT => "invalid vault format"
  | PV_ERR_LIMIT => "configured or format limit exceeded"
  | PV_ERR_NOT_FOUND => "record not found"
  | PV_ERR_EXISTS => "object already exists"
  | PV_ERR_STATE => "invalid state"
  | PV_ERR_DURABILITY => "update committed, but durability could not be confirmed"
  | PV_ERR_NOMEM => "out of memory"
  | PV_ERR_UNSUPPORTED => "unsupported or corrupted vault format version"
  end%string.

Definition pv_status_exit_code (status : pv_status) : Z :=
  match status with
  | PV_OK => 0
  | PV_ERR_USAGE => 2
  | PV_ERR_AUTH | PV_ERR_FORMAT | PV_ERR_UNSUPPORTED => 3
  | PV_ERR_IO | PV_ERR_DURABILITY => 4
  | PV_ERR_SECURE_MEMORY | PV_ERR_NOMEM | PV_ERR_LIMIT => 5
  | PV_ERR_LOCKED | PV_ERR_STATE => 6
  | PV_ERR_EXTERNAL => 7
  | PV_ERR_NOT_FOUND | PV_ERR_EXISTS => 1
  end.

(** ** Limits of [pvault.h] *)

Definition PV_VAULT_ID_BYTES : Z := 16.
Definition PV_RECORD_ID_BYTES : Z := 16.
Definition PV_DEVICE_ID_BYTES : Z := 16.
Definition PV_MAX_PLAINTEXT : Z := 2 * 1024 * 1024.
Definition PV_DEFAULT_CLIPBOARD_TTL : Z := 10.
Definition PV_DEFAULT_SESSION_TTL : Z := 300.
Definition PV_DEFAULT_BACKUP_RETENTION : Z := 20.

(** ** File-format constants of [pvault_internal.h] *)

Definition PV_MAGIC_LEN : Z := 8.
Definition PV_FILE_MAJOR : Z := 1.
Definition PV_FILE_MINOR : Z := 0.
Definition PV_FILE_HEADER_LEN : Z := 252.
Definition PV_KDF_ARGON2ID13 : Z := 1.
Definition PV_AEAD_XCHACHA20POLY1305 : Z := 1.
Definition PV_V1_PASSWORD_OPSLIMIT : Z := 3.
Definition PV_V1_PASSWORD_MEMLIMIT : Z := 268435456.
Definition PV_V1_PASSWORD_OPSLIMIT_MIN : Z := PV_V1_PASSWORD_OPSLIMIT.
Definition PV_V1_PASSWORD_OPSLIMIT_MAX : Z := 10.
Definition PV_V1_PASSWORD_MEMLIMIT_MIN : Z := PV_V1_PASSWORD_MEMLIMIT.
Definition PV_V1_PASSWORD_MEMLIMIT_MAX : Z := 1073741824.

(** libsodium's documented sizes for XChaCha20-Poly1305-IETF, Argon2id salts
    and BLAKE2b, which the [PV_*_BYTES] macros name. *)
Definition PV_WRAP_KEY_BYTES : Z := 32.
Definition PV_WRAP_NONCE_BYTES : Z := 24.
Definition PV_WRAP_TAG_BYTES : Z := 16.
Definition PV_WRAPPED_VMK_BYTES : Z := PV_WRAP_KEY_BYTES + PV_WRAP_TAG_BYTES.
Definition PV_BODY_KEY_BYTES : Z := 32.
Definition PV_BODY_TAG_BYTES : Z := 16.
Definition PV_SALT_BYTES : Z := 16.
Definition crypto_generichash_BYTES : Z := 32.
Definition PV_RECOVERY_KEY_BYTES : Z := 32.
Definition PV_RECOVERY_CHECKSUM_BYTES : Z := 5.
Definition PV_RECOVERY_TEXT_MAX : Z := 128.
Definition PV_ARENA_CAPACITY : Z := PV_MAX_PLAINTEXT.

Definition PV_RECORD_DELETED : Z := 1.
Definition PV_RECORD_FAVORITE : Z := 2.
Definition PV_FIELD_SECRET : Z := 1.

Definition PV_MAX_TITLE : Z := 1024.
Definition PV_MAX_USERNAME : Z := 4096.
Definition PV_MAX_PASSWORD : Z := 65536.
Definition PV_MAX_URL : Z := 8192.
Definition PV_MAX_NOTES : Z := 262144.
Definition PV_MAX_TAG : Z := 256.
Definition PV_MAX_FIELD_NAME : Z := 256.
Definition PV_MAX_FIELD_VALUE : Z := 65536.
Definition PV_MAX_COLLECTION_ITEMS : Z := 64.

(** ** Lemmas *)

Lemma is_ok_true s : is_ok s = true <-> s = PV_OK.
Proof. destruct s; simpl; split; congruence. Qed.

Lemma is_ok_false s : is_ok s = false <-> s <> PV_OK.
Proof. destruct s; simpl; split; congruence. Qed.
