(* ===== verification/Util.v ===== *)
(** * Text and integer utilities

    [src/util.c]: UTF-8 validation, sanitising of text for terminals, checked
    [size_t] arithmetic, hexadecimal, and byte-string comparison and search. *)

From S2P Require Import Prelude Status.

(** A [const] pointer and a length: [None] is [NULL], [Some bytes] the bytes
    readable at the pointer. It stands for [pv_view] and for a [pv_slice] that
    the function only reads. *)
Record pv_view := mk_view { v_data : option (list Z); v_len : Z }.

(** The bytes a view denotes. *)
Definition v_bytes (v : pv_view) : list Z :=
  match v_data v with
  | None => []
  | Some l => take (Z.to_nat (v_len v)) l
  end.

(** ** [pv_utf8_valid] *)

(** The [for (j = 0; j < continuation; ++j)] loop: the code point and the
    bytes after it, or [None] on a byte that is not a continuation. *)
Fixpoint utf8_continuation (j : nat) (codepoint : Z) (rest : list Z) : option (Z * list Z) :=
  match j with
  | O => Some (codepoint, rest)
  | S j' =>
      match rest with
      | [] => None
      | next :: rest' =>
          if negb (Z.land next 0xc0 =? 0x80) then None
          else utf8_continuation j'
                 (Z.lor (Z.shiftl codepoint 6) (Z.land next 0x3f)) rest'
      end
  end.

(** One iteration of the [while (i < len)] loop on the bytes [first :: rest]
    at index [i]: the bytes left after a valid character. *)
Definition utf8_step (first : Z) (rest : list Z) : option (list Z) :=
  if first <=? 0x7f then Some rest else
  let lead :=
    if (0xc2 <=? first) && (first <=? 0xdf) then Some (Z.land first 0x1f, 1)
    else if (0xe0 <=? first) && (first <=? 0xef) then Some (Z.land first 0x0f, 2)
    else if (0xf0 <=? first) && (first <=? 0xf4) then Some (Z.land first 0x07, 3)
    else None in
  match lead with
  | None => None
  | Some (codepoint, continuation) =>
      if zlen rest <? continuation then None else
      match utf8_continuation (Z.to_nat continuation) codepoint rest with
      | None => None
      | Some (codepoint, rest') =>
          if ((continuation =? 2) && (codepoint <? 0x800)) ||
             ((continuation =? 3) && (codepoint <? 0x10000)) ||
             (0x10ffff <? codepoint) ||
             ((0xd800 <=? codepoint) && (codepoint <=? 0xdfff))
          then None else Some rest'
      end
  end.

(** The loop, with one unit of fuel per input byte. *)
Fixpoint utf8_loop (fuel : nat) (rest : list Z) : bool :=
  match rest with
  | [] => true
  | first :: rest' =>
      match fuel with
      | O => false
      | S fuel' =>
          match utf8_step first rest' with
          | None => false
          | Some rest'' => utf8_loop fuel' rest''
          end
      end
  end.

Definition pv_utf8_valid (v : pv_view) : bool :=
  match v_data v with
  | None => v_len v =? 0
  | Some _ => utf8_loop (length (v_bytes v)) (v_bytes v)
  end.

(** ** Terminal-safe text *)

Definition display_codepoint_unsafe (codepoint : Z) : bool :=
  (codepoint <=? 0x1f) || ((0x7f <=? codepoint) && (codepoint <=? 0x9f)) ||
  (codepoint =? 0x061c) || ((0x200b <=? codepoint) && (codepoint <=? 0x200f)) ||
  ((0x2028 <=? codepoint) && (codepoint <=? 0x202e)) ||
  ((0x2060 <=? codepoint) && (codepoint <=? 0x2069)) || (codepoint =? 0xfeff).

(** The [for (i = 1; i < width; ++i)] loop over [data[1 ..]]. *)
Fixpoint decode_continuation (n : nat) (value : Z) (data : list Z) : option Z :=
  match n with
  | O => Some value
  | S n' =>
      match data with
      | [] => None
      | b :: data' =>
          if negb (Z.land b 0xc0 =? 0x80) then None
          else decode_continuation n' (Z.lor (Z.shiftl value 6) (Z.land b 0x3f)) data'
      end
  end.

(** The width of the character at [data], 0 when there is none, and the code
    point (the caller's initial 0 when the width is 0). *)
Definition decode_codepoint (data : list Z) : Z * Z :=
  match data with
  | [] => (0, 0)
  | b0 :: tail =>
      if b0 <=? 0x7f then (1, b0) else
      let lead :=
        if (0xc2 <=? b0) && (b0 <=? 0xdf) then Some (Z.land b0 0x1f, 2)
        else if (0xe0 <=? b0) && (b0 <=? 0xef) then Some (Z.land b0 0x0f, 3)
        else if (0xf0 <=? b0) && (b0 <=? 0xf4) then Some (Z.land b0 0x07, 4)
        else None in
      match lead with
      | None => (0, 0)
      | Some (value, width) =>
          if zlen data <? width then (0, 0) else
          match decode_continuation (Z.to_nat (width - 1)) value tail with
          | None => (0, 0)
          | Some value =>
              if ((width =? 3) && (value <? 0x800)) ||
                 ((width =? 4) && (value <? 0x10000)) ||
                 (0x10ffff <? value) ||
                 ((0xd800 <=? value) && (value <=? 0xdfff))
              then (0, 0) else (width, value)
          end
      end
  end.

(** The loop of [pv_text_sanitize]: what it stores at [output + output_position]
    for the input from [input_position] on. *)
Fixpoint sanitize_loop (fuel : nat) (data : list Z) : list Z :=
  match data with
  | [] => []
  | _ :: _ =>
      match fuel with
      | O => []
      | S fuel' =>
          let '(width, codepoint) := decode_codepoint data in
          if (width =? 0) || display_codepoint_unsafe codepoint then
            63 :: sanitize_loop fuel' (drop (Z.to_nat (if width =? 0 then 1 else width)) data)
          else
            take (Z.to_nat width) data ++ sanitize_loop fuel' (drop (Z.to_nat width) data)
      end
  end.

(** [None] when the arguments are refused; [output_null] is [output == NULL]. *)
Definition pv_text_sanitize (slice : pv_view) (output_null : bool) (capacity : Z)
  : option (list Z) :=
  if ((match v_data slice with None => true | _ => false end) && negb (v_len slice =? 0)) ||
     (output_null && negb (v_len slice =? 0)) || (capacity <? v_len slice)
  then None
  else Some (sanitize_loop (length (v_bytes slice)) (v_bytes slice)).

(** The loop of [pv_text_fprint]: [pending] holds the bytes from [safe_start]
    to [position], written out when an unsafe character or the end is reached. *)
Fixpoint fprint_loop (fuel : nat) (pending data : list Z) : list Z :=
  match data with
  | [] => pending
  | _ :: _ =>
      match fuel with
      | O => pending
      | S fuel' =>
          let '(width, codepoint) := decode_codepoint data in
          if (width =? 0) || display_codepoint_unsafe codepoint then
            pending ++ 63 ::
              fprint_loop fuel' [] (drop (Z.to_nat (if width =? 0 then 1 else width)) data)
          else
            fprint_loop fuel' (pending ++ take (Z.to_nat width) data) (drop (Z.to_nat width) data)
      end
  end.

(** The bytes [pv_text_fprint] writes to the stream. *)
Definition pv_text_fprint (slice : pv_view) : list Z :=
  match v_data slice with
  | None => []
  | Some _ => fprint_loop (length (v_bytes slice)) [] (v_bytes slice)
  end.

(** ** Checked [size_t] arithmetic *)

Definition pv_size_add (a b : Z) : option Z :=
  if SIZE_MAX - a <? b then None else Some (a + b).

Definition pv_size_mul (a b : Z) : option Z :=
  if negb (a =? 0) && (SIZE_MAX / a <? b) then None else Some (a * b).

(** [ts] is what [clock_gettime] stored, [None] when it failed. *)
Definition pv_now_ms (ts : option (Z * Z)) : Z :=
  match ts with
  | None => 0
  | Some (tv_sec, tv_nsec) => tv_sec * 1000 + tv_nsec / 1000000
  end.

(** ** Hexadecimal *)

(** ["0123456789abcdef"]. *)
Definition hex_alphabet : list Z :=
  [48; 49; 50; 51; 52; 53; 54; 55; 56; 57; 97; 98; 99; 100; 101; 102].

Definition hex_digits (b : Z) : list Z :=
  [znth hex_alphabet (Z.shiftr b 4); znth hex_alphabet (Z.land b 0x0f)].

(** The C string left in [output], [None] when [output] is not written. *)
Definition pv_hex_encode (input : option (list Z)) (output_len : Z) : option (list Z) :=
  if output_len =? 0 then None else
  match input with
  | None => Some []
  | Some input =>
      if (output_len - 1) / 2 <? zlen input then Some []
      else Some (concat (map hex_digits input))
  end.

Definition hex_value (c : Z) : Z :=
  if (48 <=? c) && (c <=? 57) then c - 48
  else if (97 <=? c) && (c <=? 102) then c - 97 + 10
  else if (65 <=? c) && (c <=? 70) then c - 65 + 10
  else -1.

Fixpoint hex_decode_loop (n : nat) (input : list Z) : option (list Z) :=
  match n with
  | O => Some []
  | S n' =>
      match input with
      | c0 :: c1 :: input' =>
          let high := hex_value c0 in
          let low := hex_value c1 in
          if (high <? 0) || (low <? 0) then None
          else
            match hex_decode_loop n' input' with
            | None => None
            | Some out => Some (Z.lor (u8 (Z.shiftl high 4)) (u8 low) :: out)
            end
      | _ => None
      end
  end.

Definition pv_hex_decode (input : list Z) (output_len : Z) : option (list Z) :=
  if negb (zlen input =? output_len * 2) then None
  else hex_decode_loop (Z.to_nat output_len) input.

(** ** Comparison and search *)

Definition ascii_fold (c : Z) : Z :=
  if (65 <=? c) && (c <=? 90) then c + (97 - 65) else c.

Definition fold_char (ascii_casefold : bool) (c : Z) : Z :=
  if ascii_casefold then ascii_fold c else c.

(** The inner loop of both functions: do the first [length text] bytes of
    [data] match [text]? *)
Fixpoint match_at (ascii_casefold : bool) (data text : list Z) : bool :=
  match text with
  | [] => true
  | rch :: text' =>
      match data with
      | [] => false
      | lch :: data' =>
          (fold_char ascii_casefold lch =? fold_char ascii_casefold rch) &&
          match_at ascii_casefold data' text'
      end
  end.

Definition pv_slice_equal_cstr (slice : pv_view) (text : option (list Z))
    (ascii_casefold : bool) : bool :=
  match text with
  | None => false
  | Some text =>
      if negb (v_len slice =? zlen text) then false
      else match_at ascii_casefold (v_bytes slice) text
  end.

(** The outer loop: [n] starting positions are left to try. *)
Fixpoint contains_loop (n : nat) (ascii_casefold : bool) (data text : list Z) : bool :=
  match n with
  | O => false
  | S n' =>
      if match_at ascii_casefold data text then true
      else contains_loop n' ascii_casefold (drop 1 data) text
  end.

Definition pv_slice_contains_cstr (slice : pv_view) (text : option (list Z))
    (ascii_casefold : bool) : bool :=
  match text with
  | None => false
  | Some text =>
      let needle_len := zlen text in
      if (needle_len =? 0) || (v_len slice <? needle_len) then false
      else contains_loop (Z.to_nat (v_len slice - needle_len + 1))
             ascii_casefold (v_bytes slice) text
  end.

(** ** Specification of UTF-8

    The encoding of a Unicode scalar value (RFC 3629), independent of the
    decoders above. *)

Definition scalar (cp : Z) : Prop := 0 <= cp < 0xd800 \/ 0xe000 <= cp < 0x110000.

Definition utf8_encode (cp : Z) : list Z :=
  if cp <? 0x80 then [cp]
  else if cp <? 0x800 then [0xc0 + cp / 64; 0x80 + cp mod 64]
  else if cp <? 0x10000 then
    [0xe0 + cp / 4096; 0x80 + (cp / 64) mod 64; 0x80 + cp mod 64]
  else
    [0xf0 + cp / 262144; 0x80 + (cp / 4096) mod 64; 0x80 + (cp / 64) mod 64;
     0x80 + cp mod 64].

(** The text whose code points are [cps]. *)
Definition utf8_text (cps : list Z) : list Z := concat (map utf8_encode cps).

(** ** Lemmas: lead and continuation bytes *)

Lemma continuation_test b :
  is_byte b -> (Z.land b 0xc0 =? 0x80) = (128 <=? b) && (b <? 192).
Proof.
  intros Hb. apply eqb_prop. revert b Hb.
  apply (byte_forall (fun b => eqb (Z.land b 0xc0 =? 0x80) ((128 <=? b) && (b <? 192)))).
  vm_compute. reflexivity.
Qed.

(** Masking off the tag bits of a byte in [lo, hi] subtracts [lo]. *)
Lemma mask_sub (lo hi mask : Z) :
  forallb (fun b => negb ((lo <=? b) && (b <=? hi)) || (Z.land b mask =? b - lo)) (seqZ 0 256) = true ->
  forall b, is_byte b -> lo <= b <= hi -> Z.land b mask = b - lo.
Proof.
  intros H b Hb ?. pose proof (byte_forall _ H b Hb) as Hm. clear H.
  cbv beta in Hm. lia.
Qed.

Lemma mask_cont b : is_byte b -> 128 <= b <= 191 -> Z.land b 0x3f = b - 128.
Proof. apply mask_sub. vm_compute. reflexivity. Qed.
Lemma mask_lead2 b : is_byte b -> 192 <= b <= 223 -> Z.land b 0x1f = b - 192.
Proof. apply mask_sub. vm_compute. reflexivity. Qed.
Lemma mask_lead3 b : is_byte b -> 224 <= b <= 239 -> Z.land b 0x0f = b - 224.
Proof. apply mask_sub. vm_compute. reflexivity. Qed.
Lemma mask_lead4 b : is_byte b -> 240 <= b <= 247 -> Z.land b 0x07 = b - 240.
Proof. apply mask_sub. vm_compute. reflexivity. Qed.

(** One step of both continuation loops on a continuation byte. *)
Lemma push_cont value b :
  is_byte b -> 128 <= b < 192 ->
  Z.lor (Z.shiftl value 6) (Z.land b 0x3f) = value * 64 + (b - 128).
Proof.
  intros. rewrite mask_cont by (auto; lia). rewrite shiftl_lor_add by lia. lia.
Qed.

Lemma decode_continuation_cons n value b data :
  is_byte b ->
  decode_continuation (S n) value (b :: data) =
  if (128 <=? b) && (b <? 192) then decode_continuation n (value * 64 + (b - 128)) data
  else None.
Proof.
  intros. cbn [decode_continuation]. rewrite continuation_test by done.
  destruct ((128 <=? b) && (b <? 192)) eqn:E; simpl; [| done].
  by rewrite push_cont by (auto; lia).
Qed.

(** ** Lemmas: the character decoder *)

(** The decoder after the lead byte: [width - 1] continuation bytes, then the
    overlong, range and surrogate checks. *)
Definition decode_tail (width value : Z) (tail : list Z) : Z * Z :=
  if 1 + zlen tail <? width then (0, 0) else
  match decode_continuation (Z.to_nat (width - 1)) value tail with
  | None => (0, 0)
  | Some value =>
      if ((width =? 3) && (value <? 0x800)) || ((width =? 4) && (value <? 0x10000)) ||
         (0x10ffff <? value) || ((0xd800 <=? value) && (value <=? 0xdfff))
      then (0, 0) else (width, value)
  end.

Lemma decode_codepoint_lead b0 tail :
  is_byte b0 ->
  decode_codepoint (b0 :: tail) =
  if b0 <=? 127 then (1, b0)
  else if (194 <=? b0) && (b0 <=? 223) then decode_tail 2 (b0 - 192) tail
  else if (224 <=? b0) && (b0 <=? 239) then decode_tail 3 (b0 - 224) tail
  else if (240 <=? b0) && (b0 <=? 244) then decode_tail 4 (b0 - 240) tail
  else (0, 0).
Proof.
  intros. unfold decode_codepoint, decode_tail. rewrite zlen_cons.
  repeat split_if; try done; try lia;
    rewrite ?mask_lead2, ?mask_lead3, ?mask_lead4 in * by (auto; lia);
    repeat split_if; try done; try lia; case_match; done.
Qed.

(** Decides the next conditional of the goal by arithmetic. *)
Ltac decide_if :=
  match goal with
  | |- context [if ?b then _ else _] =>
      first [ replace b with true by (symmetry; Z.div_mod_to_equations; lia)
            | replace b with false by (symmetry; Z.div_mod_to_equations; lia) ]
  end; cbv iota.

Lemma utf8_encode_bytes cp : scalar cp -> is_bytes (utf8_encode cp).
Proof.
  unfold scalar, utf8_encode, is_bytes, is_byte. intros.
  repeat split_if; repeat constructor; Z.div_mod_to_equations; lia.
Qed.

Lemma utf8_encode_len cp : 1 <= zlen (utf8_encode cp) <= 4.
Proof. unfold utf8_encode, zlen. repeat split_if; simpl; lia. Qed.

(** A valid encoding is decoded to its code point, whatever follows it. *)
Lemma decode_codepoint_complete cp rest :
  scalar cp -> decode_codepoint (utf8_encode cp ++ rest) = (zlen (utf8_encode cp), cp).
Proof.
  intros Hs. pose proof (utf8_encode_bytes cp Hs) as Hb. unfold scalar in Hs.
  pose proof (zlen_nonneg rest) as Hr.
  unfold utf8_encode in *. repeat split_if; unfold is_bytes in Hb;
    repeat match goal with H : Forall _ (_ :: _) |- _ => inv H end;
    cbn [app]; rewrite decode_codepoint_lead by done; repeat decide_if;
    try reflexivity; unfold decode_tail; rewrite ?zlen_cons; decide_if;
    change (Z.to_nat (2 - 1)) with 1%nat; change (Z.to_nat (3 - 1)) with 2%nat;
    change (Z.to_nat (4 - 1)) with 3%nat;
    repeat (rewrite decode_continuation_cons by done; decide_if);
    cbn [decode_continuation]; decide_if; f_equal; Z.div_mod_to_equations; lia.
Qed.

Lemma decode_tail_sound width value tail w cp :
  is_bytes tail -> decode_tail width value tail = (w, cp) -> w <> 0 ->
  w = width /\ decode_continuation (Z.to_nat (width - 1)) value tail = Some cp /\
  (width = 3 -> 0x800 <= cp) /\ (width = 4 -> 0x10000 <= cp) /\ cp <= 0x10ffff /\
  ~ (0xd800 <= cp <= 0xdfff).
Proof.
  intros Hb. unfold decode_tail. split_if; [congruence |].
  case_match; [| congruence]. split_if; intros [= <- <-] Hw; [done |].
  repeat split; auto; lia.
Qed.

(** What the decoder accepts is a valid encoding at the front of the input. *)
Lemma decode_codepoint_sound data w cp :
  is_bytes data -> decode_codepoint data = (w, cp) -> w <> 0 ->
  scalar cp /\ w = zlen (utf8_encode cp) /\ data = utf8_encode cp ++ drop (Z.to_nat w) data.
Proof.
  intros Hb. destruct data as [|b0 tail]; [simpl; congruence |].
  apply Forall_cons_iff in Hb as [Hb0 Hb]. rewrite decode_codepoint_lead by done.
  unfold is_byte in Hb0. repeat split_if; intros H Hw; try (simplify_eq; done).
  { simplify_eq. unfold scalar, utf8_encode. decide_if. repeat split; auto; lia. }
  all: apply decode_tail_sound in H as (-> & H & ? & ? & ? & ?); auto.
  all: unfold scalar, utf8_encode.
  all: change (Z.to_nat (2 - 1)) with 1%nat in H; change (Z.to_nat (3 - 1)) with 2%nat in H;
    change (Z.to_nat (4 - 1)) with 3%nat in H.
  all: repeat match type of H with decode_continuation (S _) _ ?l = _ =>
      destruct l; [discriminate H |]; apply Forall_cons_iff in Hb as [? Hb];
      rewrite decode_continuation_cons in H by done; split_if_in H; [| discriminate H] end.
  all: cbn [decode_continuation] in H; injection H as <-; repeat decide_if.
  all: repeat split; [lia | cbn [app]; change (Z.to_nat 2) with 2%nat; change (Z.to_nat 3) with 3%nat;
     change (Z.to_nat 4) with 4%nat; cbn [drop]; repeat f_equal; Z.div_mod_to_equations; lia].
Qed.

Lemma utf8_continuation_decode n cp rest :
  utf8_continuation n cp rest =
  match decode_continuation n cp rest with
  | None => None
  | Some v => Some (v, drop n rest)
  end.
Proof.
  revert cp rest. induction n as [|n IH]; intros cp rest; simpl; [by rewrite drop_0 |].
  destruct rest as [|b rest]; [done |]. split_if; [done |]. rewrite IH. by case_match.
Qed.

(** The validator's step and the display decoder agree. *)
Lemma utf8_step_decode first rest :
  utf8_step first rest =
  let '(w, _) := decode_codepoint (first :: rest) in
  if w =? 0 then None else Some (drop (Z.to_nat w - 1) rest).
Proof.
  unfold utf8_step, decode_codepoint. rewrite zlen_cons.
  destruct (first <=? 0x7f); [by rewrite drop_0 |].
  destruct ((0xc2 <=? first) && (first <=? 0xdf));
    [| destruct ((0xe0 <=? first) && (first <=? 0xef));
       [| destruct ((0xf0 <=? first) && (first <=? 0xf4)); [| done]]];
    cbv beta iota zeta; rewrite utf8_continuation_decode;
    (match goal with |- context [zlen rest <? ?c] =>
       destruct (zlen rest <? c) eqn:? end);
    (match goal with |- context [1 + zlen rest <? ?d] =>
       destruct (1 + zlen rest <? d) eqn:? end); try done; try lia;
    (match goal with |- context [decode_continuation ?n ?v ?r] =>
       change (decode_continuation _ _ r) with (decode_continuation n v r);
       destruct (decode_continuation n v r); [| done] end);
    cbn [orb andb Z.eqb Pos.eqb]; by split_if.
Qed.

Lemma decode_codepoint_width data w cp :
  decode_codepoint data = (w, cp) -> 0 <= w <= 4 /\ w <= zlen data.
Proof.
  destruct data as [|b0 tail]; simpl; [intros [= <- <-]; unfold zlen; simpl; lia |].
  pose proof (zlen_nonneg tail). rewrite zlen_cons.
  repeat split_if; repeat case_match; intros [= <- <-]; simplify_eq; lia.
Qed.

Lemma decode_codepoint_zero_no_scalar data cp0 cps :
  decode_codepoint data = (0, cp0) -> data <> [] -> Forall scalar cps -> data <> utf8_text cps.
Proof.
  intros Hd Hne Hs ->. destruct cps as [|c cps]; [done |]. apply Forall_cons_iff in Hs as [Hc Hs].
  change (utf8_text (c :: cps)) with (utf8_encode c ++ utf8_text cps) in Hd.
  rewrite decode_codepoint_complete in Hd by done. pose proof (utf8_encode_len c).
  injection Hd. lia.
Qed.

Lemma drop_utf8_encode c rest : drop (Z.to_nat (zlen (utf8_encode c))) (utf8_encode c ++ rest) = rest.
Proof. unfold zlen. rewrite Nat2Z.id. apply drop_app_length. Qed.

Lemma length_drop_width (data : list Z) w :
  data <> [] -> w <> 0 -> 0 <= w -> (length (drop (Z.to_nat w) data) < length data)%nat.
Proof. intros. rewrite length_drop. destruct data; [done |]. simpl. lia. Qed.

Lemma utf8_loop_spec fuel rest :
  is_bytes rest -> (length rest <= fuel)%nat ->
  utf8_loop fuel rest = true <-> exists cps, Forall scalar cps /\ rest = utf8_text cps.
Proof.
  revert rest. induction fuel as [|fuel IH]; intros rest Hb Hlen.
  { destruct rest; simpl in *; [| lia]. split; [| done]. intros _. by exists []. }
  destruct rest as [|first rest]; simpl in *.
  { split; [| done]. intros _. by exists []. }
  rewrite utf8_step_decode. destruct (decode_codepoint (first :: rest)) as [w cp] eqn:Hd.
  pose proof (decode_codepoint_width _ _ _ Hd) as [Hw _].
  destruct (Z.eqb_spec w 0) as [-> | Hw0].
  { split; [done |]. intros (cps & Hs & He). exfalso.
    by eapply decode_codepoint_zero_no_scalar. }
  pose proof (decode_codepoint_sound _ _ _ Hb Hd Hw0) as (Hc & Hwl & He).
  assert (Hdrop : drop (Z.to_nat w - 1) rest = drop (Z.to_nat w) (first :: rest)).
  { destruct (Z.to_nat w) eqn:E; [lia |]. simpl. f_equal. lia. }
  rewrite Hdrop, IH.
  - split; intros (cps & Hs & Hcps).
    + exists (cp :: cps). split; [by constructor |]. rewrite He, Hcps. done.
    + destruct cps as [|c cps]; [done |]. apply Forall_cons_iff in Hs as [Hc' Hs].
      change (utf8_text (c :: cps)) with (utf8_encode c ++ utf8_text cps) in Hcps.
      exists cps. split; [done |]. rewrite Hcps in Hd |- *.
      rewrite decode_codepoint_complete in Hd by done. injection Hd as <- <-.
      apply drop_utf8_encode.
  - by apply Forall_drop.
  - pose proof (length_drop_width (first :: rest) w ltac:(done) Hw0 ltac:(lia)) as Hl.
    change (length (first :: rest)) with (S (length rest)) in Hl. lia.
Qed.

(** ** Lemmas: sanitising *)

(** What the display functions print for one code point. *)
Definition display_char (cp : Z) : Z := if display_codepoint_unsafe cp then 63 else cp.

Definition displayable (cp : Z) : Prop := scalar cp /\ display_codepoint_unsafe cp = false.

Lemma displayable_question : displayable 63.
Proof. split; [unfold scalar; lia | done]. Qed.

Lemma sanitize_loop_step fuel data :
  data <> [] ->
  sanitize_loop (S fuel) data =
  let '(width, codepoint) := decode_codepoint data in
  if (width =? 0) || display_codepoint_unsafe codepoint then
    63 :: sanitize_loop fuel (drop (Z.to_nat (if width =? 0 then 1 else width)) data)
  else
    take (Z.to_nat width) data ++ sanitize_loop fuel (drop (Z.to_nat width) data).
Proof. by destruct data. Qed.

Lemma sanitize_loop_displayable fuel data :
  is_bytes data -> exists cps, Forall displayable cps /\ sanitize_loop fuel data = utf8_text cps.
Proof.
  revert data. induction fuel as [|fuel IH]; intros data Hb.
  { exists []. by destruct data. }
  destruct (decide (data = [])) as [-> | Hne]; [by exists [] |].
  rewrite sanitize_loop_step by done. destruct (decode_codepoint data) as [w cp] eqn:Hd.
  destruct ((w =? 0) || display_codepoint_unsafe cp) eqn:E.
  - destruct (IH (drop (Z.to_nat (if w =? 0 then 1 else w)) data)) as (cps & Hs & ->);
      [by apply Forall_drop |].
    exists (63 :: cps). split; [constructor; auto using displayable_question | done].
  - destruct (IH (drop (Z.to_nat w) data)) as (cps & Hs & ->); [by apply Forall_drop |].
    apply orb_false_iff in E as [Ew Eu]. apply Z.eqb_neq in Ew.
    pose proof (decode_codepoint_sound _ _ _ Hb Hd Ew) as (Hc & Hwl & He).
    exists (cp :: cps). split; [by constructor |].
    rewrite He at 1. rewrite Hwl. unfold zlen. rewrite Nat2Z.id, take_app_length. done.
Qed.

Lemma sanitize_loop_length fuel data :
  (length (sanitize_loop fuel data) <= length data)%nat.
Proof.
  revert data. induction fuel as [|fuel IH]; intros data; [destruct data; simpl; lia |].
  destruct (decide (data = [])) as [-> | Hne]; [done |].
  rewrite sanitize_loop_step by done. destruct (decode_codepoint data) as [w cp] eqn:Hd.
  pose proof (decode_codepoint_width _ _ _ Hd) as [Hw Hl]. unfold zlen in Hl.
  split_if.
  - assert (Hlt : (length (drop (Z.to_nat (if w =? 0 then 1 else w)%Z) data) < length data)%nat).
    { apply length_drop_width; [done | |]; split_if; lia. }
    specialize (IH (drop (Z.to_nat (if w =? 0 then 1 else w)) data)). simpl. lia.
  - specialize (IH (drop (Z.to_nat w) data)). rewrite length_app, length_take.
    rewrite length_drop in IH. lia.
Qed.

(** On valid text the sanitiser replaces exactly the unsafe characters. *)
Lemma sanitize_loop_text fuel cps :
  Forall scalar cps -> (length (utf8_text cps) <= fuel)%nat ->
  sanitize_loop fuel (utf8_text cps) = utf8_text (map display_char cps).
Proof.
  revert fuel. induction cps as [|c cps IH]; intros fuel Hs Hf; [by destruct fuel |].
  apply Forall_cons_iff in Hs as [Hc Hs].
  change (utf8_text (c :: cps)) with (utf8_encode c ++ utf8_text cps) in *.
  change (utf8_text (map display_char (c :: cps)))
    with (utf8_encode (display_char c) ++ utf8_text (map display_char cps)).
  pose proof (utf8_encode_len c) as Hlen. rewrite length_app in Hf. unfold zlen in Hlen.
  destruct fuel as [|fuel]; [lia |].
  rewrite sanitize_loop_step, decode_codepoint_complete; auto.
  2: { intros El. apply (f_equal length) in El. rewrite length_app in El. simpl in El. lia. }
  replace (zlen (utf8_encode c) =? 0) with false by (symmetry; unfold zlen; lia).
  unfold display_char at 1. cbn [orb]. destruct (display_codepoint_unsafe c);
    rewrite drop_utf8_encode, IH by (auto; lia); [done |].
  unfold zlen. by rewrite Nat2Z.id, take_app_length.
Qed.

Lemma fprint_loop_sanitize fuel pending data :
  fprint_loop fuel pending data = pending ++ sanitize_loop fuel data.
Proof.
  revert pending data. induction fuel as [|fuel IH]; intros pending data;
    destruct data as [|b data']; cbn [fprint_loop sanitize_loop]; rewrite ?app_nil_r; try done.
  destruct (decode_codepoint (b :: data')) as [w cp].
  destruct ((w =? 0) || display_codepoint_unsafe cp); rewrite IH.
  - done.
  - by rewrite app_assoc.
Qed.

(** ** Lemmas: hexadecimal *)

Lemma hex_digits_decode b :
  is_byte b ->
  exists c0 c1, hex_digits b = [c0; c1] /\ 0 <= hex_value c0 /\ 0 <= hex_value c1 /\
  Z.lor (u8 (Z.shiftl (hex_value c0) 4)) (u8 (hex_value c1)) = b.
Proof.
  intros Hb. exists (znth hex_alphabet (Z.shiftr b 4)), (znth hex_alphabet (Z.land b 0x0f)).
  split; [done |].
  pose proof (byte_forall (fun b =>
    let h := hex_value (znth hex_alphabet (Z.shiftr b 4)) in
    let l := hex_value (znth hex_alphabet (Z.land b 0x0f)) in
    (0 <=? h) && (0 <=? l) && (Z.lor (u8 (Z.shiftl h 4)) (u8 l) =? b))
    ltac:(vm_compute; reflexivity) b Hb) as H. cbv beta zeta in H. lia.
Qed.

Lemma hex_decode_loop_encode l :
  is_bytes l -> hex_decode_loop (length l) (concat (map hex_digits l)) = Some l.
Proof.
  induction 1 as [|b l Hb Hl IH]; [done |].
  destruct (hex_digits_decode b Hb) as (c0 & c1 & E & H0 & H1 & Hv).
  cbn [length map concat]. rewrite E. cbn [app hex_decode_loop].
  replace (hex_value c0 <? 0) with false by lia.
  replace (hex_value c1 <? 0) with false by lia. cbn [orb]. by rewrite IH, Hv.
Qed.

Lemma hex_concat_len l : zlen (concat (map hex_digits l)) = 2 * zlen l.
Proof.
  induction l as [|b l IH]; [done |]. cbn [map concat]. rewrite zlen_app, zlen_cons, IH.
  unfold hex_digits, zlen at 1. simpl. lia.
Qed.

(** Case-insensitive characterisation of one decoded byte. *)
Lemma hex_value_digits c0 c1 :
  is_byte c0 -> is_byte c1 -> 0 <= hex_value c0 -> 0 <= hex_value c1 ->
  let b := Z.lor (u8 (Z.shiftl (hex_value c0) 4)) (u8 (hex_value c1)) in
  is_byte b /\ hex_digits b = [ascii_fold c0; ascii_fold c1].
Proof.
  intros H0 H1 V0 V1. cbv zeta.
  pose proof (byte_forall (fun c => (hex_value c <? 0) ||
    ((hex_value c <=? 15) && (znth hex_alphabet (hex_value c) =? ascii_fold c)))
    ltac:(vm_compute; reflexivity)) as H.
  pose proof (H c0 H0) as A0. pose proof (H c1 H1) as A1. clear H. cbv beta in A0, A1.
  assert (0 <= hex_value c0 <= 15) by lia. assert (0 <= hex_value c1 <= 15) by lia.
  assert (E : Z.lor (u8 (Z.shiftl (hex_value c0) 4)) (u8 (hex_value c1)) =
              hex_value c0 * 16 + hex_value c1).
  { unfold u8. rewrite Z.shiftl_mul_pow2 by lia. change (2 ^ 4) with 16.
    rewrite !Z.mod_small by lia. change 16 with (2 ^ 4). apply lor_add; lia. }
  rewrite E. split; [unfold is_byte; lia |]. unfold hex_digits.
  rewrite Z.shiftr_div_pow2 by lia. change (2 ^ 4) with 16. change 0x0f with (Z.ones 4).
  rewrite Z.land_ones by lia. change (2 ^ 4) with 16.
  replace ((hex_value c0 * 16 + hex_value c1) / 16) with (hex_value c0)
    by (Z.div_mod_to_equations; lia).
  replace ((hex_value c0 * 16 + hex_value c1) mod 16) with (hex_value c1)
    by (Z.div_mod_to_equations; lia).
  repeat f_equal; lia.
Qed.

Lemma hex_decode_loop_sound n input out :
  is_bytes input -> hex_decode_loop n input = Some out -> zlen input = 2 * Z.of_nat n ->
  is_bytes out /\ length out = n /\ concat (map hex_digits out) = map ascii_fold input.
Proof.
  revert input out. induction n as [|n IH]; intros input out Hb Hd Hl.
  { injection Hd as <-. destruct input; [| zlia]. repeat split; constructor. }
  destruct input as [|c0 [|c1 input]]; try (exfalso; unfold zlen in Hl; simpl in Hl; lia).
  apply Forall_cons_iff in Hb as [H0 Hb]. apply Forall_cons_iff in Hb as [H1 Hb].
  cbn [hex_decode_loop] in Hd. split_if_in Hd; [done |].
  destruct (hex_decode_loop n input) as [out'|] eqn:E; [| done]. injection Hd as <-.
  destruct (IH input out' Hb E ltac:(zlia)) as (Hb' & Hn & Hc).
  destruct (hex_value_digits c0 c1 H0 H1 ltac:(lia) ltac:(lia)) as [Hbyte Hdig].
  split; [by constructor |]. split; [simpl; lia |].
  cbn [map concat]. rewrite Hdig, Hc. done.
Qed.

(** ** Lemmas: comparison and search *)

Lemma match_at_spec cf data text :
  match_at cf data text = true <->
  map (fold_char cf) (take (length text) data) = map (fold_char cf) text.
Proof.
  revert data. induction text as [|c text IH]; intros [|d data]; simpl; try (split; congruence).
  rewrite andb_true_iff, Z.eqb_eq, IH. split; [intros [-> ->]; done | intros [= -> ->]; done].
Qed.

Lemma contains_loop_spec n cf data text :
  contains_loop n cf data text = true <->
  exists i, (i < n)%nat /\ match_at cf (drop i data) text = true.
Proof.
  revert data. induction n as [|n IH]; intros data; cbn [contains_loop].
  { split; [done |]. intros (i & ? & _). lia. }
  split_if.
  - split; [| done]. intros _. exists 0%nat. rewrite drop_0. split; [lia | done].
  - rewrite IH. split; intros (i & Hi & Hm).
    + exists (S i). split; [lia |]. by rewrite drop_drop in Hm.
    + destruct i as [|i]; [rewrite drop_0 in Hm; congruence |].
      exists i. split; [lia |]. by rewrite drop_drop.
Qed.

(** ** Properties *)

(** A view that denotes readable memory: its length is that of its bytes. *)
Definition view_of (l : list Z) : pv_view := mk_view (Some l) (zlen l).

Lemma v_bytes_view_of l : v_bytes (view_of l) = l.
Proof. unfold v_bytes, view_of, zlen. simpl. rewrite Nat2Z.id. by apply firstn_all. Qed.

(** [pv_utf8_valid] accepts exactly the byte strings that are the UTF-8
    encoding of a sequence of Unicode scalar values: no overlong form, no
    surrogate, nothing above U+10FFFF, no truncated character. *)
Theorem utf8_valid_iff (l : list Z) (Hb : is_bytes l) :
  pv_utf8_valid (view_of l) = true <-> exists cps, Forall scalar cps /\ l = utf8_text cps.
Proof.
  unfold pv_utf8_valid. simpl. rewrite v_bytes_view_of. by apply utf8_loop_spec.
Qed.

Lemma utf8_valid_iff_witness :
  pv_utf8_valid (view_of [0xe2; 0x82; 0xac; 0x41]) = true <->
  exists cps, Forall scalar cps /\ [0xe2; 0x82; 0xac; 0x41] = utf8_text cps.
Proof. apply (utf8_valid_iff [0xe2; 0x82; 0xac; 0x41]). repeat constructor; done. Defined.

(** The sanitiser's output fits in the buffer the caller offered, is valid
    UTF-8, and no character of it is a control, bidirectional or invisible
    formatting character, whatever bytes the input holds. *)
Theorem text_sanitize_safe (l : list Z) (capacity : Z) (output : list Z)
    (Hb : is_bytes l) (Hrun : pv_text_sanitize (view_of l) false capacity = Some output) :
  zlen output <= capacity /\
  exists cps, Forall scalar cps /\ Forall (fun c => display_codepoint_unsafe c = false) cps /\
              output = utf8_text cps.
Proof.
  unfold pv_text_sanitize in Hrun. rewrite v_bytes_view_of in Hrun. simpl in Hrun.
  split_if_in Hrun; [done |]. injection Hrun as <-. split.
  - pose proof (sanitize_loop_length (length l) l). unfold zlen in *. lia.
  - destruct (sanitize_loop_displayable (length l) l Hb) as (cps & Hd & ->).
    exists cps. split_and!; [| | done]; (eapply Forall_impl; [| exact Hd]; by intros ? []).
Qed.

Lemma text_sanitize_safe_witness :
  let l := [0x41; 0x1b; 0xff; 0xc3; 0xa9] in
  zlen [0x41; 63; 63; 0xc3; 0xa9] <= 5 /\
  exists cps, Forall scalar cps /\ Forall (fun c => display_codepoint_unsafe c = false) cps /\
              [0x41; 63; 63; 0xc3; 0xa9] = utf8_text cps.
Proof.
  apply (text_sanitize_safe [0x41; 0x1b; 0xff; 0xc3; 0xa9] 5); [repeat constructor; done | reflexivity].
Defined.

(** On valid text the sanitiser keeps every displayable character in place
    and replaces every other one by a single question mark; in particular safe
    text is unchanged. *)
Theorem text_sanitize_text (cps : list Z) (capacity : Z)
    (Hs : Forall scalar cps) (Hcap : zlen (utf8_text cps) <= capacity) :
  pv_text_sanitize (view_of (utf8_text cps)) false capacity =
  Some (utf8_text (map display_char cps)).
Proof.
  unfold pv_text_sanitize. rewrite v_bytes_view_of. simpl.
  replace (capacity <? zlen (utf8_text cps)) with false by lia.
  f_equal. by apply sanitize_loop_text.
Qed.

Lemma text_sanitize_text_witness :
  pv_text_sanitize (view_of (utf8_text [0x41; 0x202e; 0x1f600])) false 8 =
  Some (utf8_text (map display_char [0x41; 0x202e; 0x1f600])).
Proof.
  apply text_sanitize_text; [| by vm_compute].
  repeat (constructor; [unfold scalar; lia |]). constructor.
Defined.

(** [pv_text_fprint], which writes runs of safe bytes directly, emits the
    same bytes as [pv_text_sanitize] stores, for every view and capacity the
    latter accepts. *)
Theorem text_fprint_sanitize (v : pv_view) (capacity : Z) (output : list Z)
    (Hrun : pv_text_sanitize v false capacity = Some output) :
  pv_text_fprint v = output.
Proof.
  unfold pv_text_sanitize in Hrun. split_if_in Hrun; [done |]. injection Hrun as <-.
  unfold pv_text_fprint. destruct v as [[l|] n]; simpl.
  - by rewrite fprint_loop_sanitize.
  - done.
Qed.

Lemma text_fprint_sanitize_witness :
  pv_text_fprint (view_of [0x41; 0x0a; 0x80; 0x42]) = [0x41; 63; 63; 0x42].
Proof. apply (text_fprint_sanitize _ 4). reflexivity. Defined.

(** Hexadecimal round trip: encoding into a buffer of at least
    [2 * length + 1] bytes and decoding gives the bytes back. *)
Theorem hex_roundtrip (l : list Z) (output_len : Z)
    (Hb : is_bytes l) (Hcap : 2 * zlen l + 1 <= output_len) :
  exists s, pv_hex_encode (Some l) output_len = Some s /\ pv_hex_decode s (zlen l) = Some l.
Proof.
  exists (concat (map hex_digits l)). pose proof (zlen_nonneg l). unfold pv_hex_encode, pv_hex_decode.
  replace (output_len =? 0) with false by lia.
  replace ((output_len - 1) / 2 <? zlen l) with false by (symmetry; Z.div_mod_to_equations; lia).
  split; [done |]. rewrite hex_concat_len. replace (2 * zlen l =? zlen l * 2) with true by lia.
  unfold zlen. simpl. rewrite Nat2Z.id. by apply hex_decode_loop_encode.
Qed.

Lemma hex_roundtrip_witness :
  exists s, pv_hex_encode (Some [0; 171; 255]) 7 = Some s /\ pv_hex_decode s 3 = Some [0; 171; 255].
Proof. apply (hex_roundtrip [0; 171; 255] 7); [repeat constructor; done | by vm_compute]. Defined.

(** [pv_hex_decode] accepts a string only when, lower-cased, it is the
    encoding of the [output_len] bytes it returns. *)
Theorem hex_decode_sound (input out : list Z) (output_len : Z)
    (Hb : is_bytes input) (Hn : 0 <= output_len) (Hrun : pv_hex_decode input output_len = Some out) :
  is_bytes out /\ zlen out = output_len /\
  pv_hex_encode (Some out) (2 * output_len + 1) = Some (map ascii_fold input).
Proof.
  unfold pv_hex_decode in Hrun. split_if_in Hrun; [done |].
  apply hex_decode_loop_sound in Hrun as (Ho & Hl & Hc); [| done | lia].
  assert (zlen out = output_len) by (unfold zlen; lia).
  split; [done |]. split; [done |]. unfold pv_hex_encode.
  replace (2 * output_len + 1 =? 0) with false by lia.
  replace ((2 * output_len + 1 - 1) / 2 <? zlen out) with false
    by (symmetry; Z.div_mod_to_equations; lia).
  by rewrite Hc.
Qed.

Lemma hex_decode_sound_witness :
  is_bytes [171; 12] /\ zlen [171; 12] = 2 /\
  pv_hex_encode (Some [171; 12]) 5 = Some (map ascii_fold [65; 98; 48; 67]).
Proof.
  apply (hex_decode_sound [65; 98; 48; 67] [171; 12] 2); [repeat constructor; done | lia | reflexivity].
Defined.

(** [pv_slice_contains_cstr] answers true exactly when the text is not
    empty and some position of the slice holds it, comparing ASCII letters
    without case when asked to. *)
Theorem slice_contains_iff (l text : list Z) (cf : bool) :
  pv_slice_contains_cstr (view_of l) (Some text) cf = true <->
  text <> [] /\ exists before mid after, l = before ++ mid ++ after /\
    map (fold_char cf) mid = map (fold_char cf) text.
Proof.
  unfold pv_slice_contains_cstr. rewrite v_bytes_view_of. simpl.
  pose proof (zlen_nonneg l). pose proof (zlen_nonneg text).
  split_if.
  - split; [done |]. intros (Hne & before & mid & after & -> & Hm). exfalso.
    assert (zlen mid = zlen text).
    { apply (f_equal length) in Hm. rewrite !length_map in Hm. unfold zlen. lia. }
    destruct text; [done |]. zlia.
  - rewrite contains_loop_spec. setoid_rewrite match_at_spec. split.
    + intros (i & Hi & Hm). split; [intros ->; simpl in *; unfold zlen in *; simpl in *; lia |].
      exists (take i l), (take (length text) (drop i l)), (drop (length text) (drop i l)).
      split; [by rewrite !take_drop | done].
    + intros (Hne & before & mid & after & -> & Hm). exists (length before).
      assert (Hl : length mid = length text).
      { apply (f_equal length) in Hm. by rewrite !length_map in Hm. }
      split; [rewrite !zlen_app in *; unfold zlen in *; lia |].
      rewrite drop_app_length, <- Hl, take_app_length. done.
Qed.

(** [pv_size_add] and [pv_size_mul] return the exact sum and product and
    refuse exactly when it does not fit in a [size_t]. *)
Theorem size_ops_exact (a b : Z) (Ha : 0 <= a <= SIZE_MAX) (Hb : 0 <= b <= SIZE_MAX) :
  pv_size_add a b = (if a + b <=? SIZE_MAX then Some (a + b) else None) /\
  pv_size_mul a b = (if a * b <=? SIZE_MAX then Some (a * b) else None).
Proof.
  unfold pv_size_add, pv_size_mul. split.
  - repeat split_if; auto; lia.
  - destruct (Z.eqb_spec a 0) as [-> | Hz]; [done |]. simpl.
    assert (Heq : (SIZE_MAX / a <? b) = (SIZE_MAX <? a * b)).
    { destruct (Z.ltb_spec SIZE_MAX (a * b)) as [Hlt | Hle].
      - apply Z.ltb_lt, Z.div_lt_upper_bound; lia.
      - apply Z.ltb_ge, Z.div_le_lower_bound; lia. }
    rewrite Heq. repeat split_if; auto; lia.
Qed.

Lemma size_ops_exact_witness :
  pv_size_add 3 4 = Some 7 /\ pv_size_mul 3 4 = Some 12.
Proof. apply (size_ops_exact 3 4); unfold SIZE_MAX; lia. Defined.
