(* ===== verification/Sys.v ===== *)
(** * The platform: outcomes of library calls the program cannot control

    libsodium's guarded allocator, page locking and protection, its random
    generator, and the system clock. They are not code of the program: their
    outcomes are arbitrary streams carried by the state [sys], one per kind of
    call, consumed in call order. A theorem about an operation holds for every
    stream, hence for every pattern of failures and every random value.

    The cryptographic functions of libsodium are an interface, the class
    [Sodium]; what the program relies on is the class [SodiumLaws]. *)

From S2P Require Import Prelude Status Util.

(** The two guarded blocks of a vault. *)
Inductive guarded_block := MASTER_KEY | ARENA.

Record sys := mk_sys {
  s_malloc : nat -> bool;     (** does the n-th [sodium_malloc]/[malloc] succeed *)
  s_mlock : nat -> bool;      (** does the n-th [sodium_mlock] succeed *)
  s_mprotect : nat -> bool;   (** does the n-th [sodium_mprotect_*] succeed *)
  s_rand : nat -> Z;          (** the bytes [randombytes_buf] will produce *)
  s_clock : nat -> option (Z * Z);  (** the results of [clock_gettime] *)
  s_freed : list guarded_block  (** the blocks of vaults given to [sodium_free], in order *)
}.

(** Computations over the platform. *)
Definition M (A : Type) : Type := sys -> A * sys.

#[global] Instance M_ret : MRet M := fun A x s => (x, s).
#[global] Instance M_bind : MBind M := fun A B f m s => let '(x, s') := m s in f x s'.

Definition skip {A} (n : nat) (f : nat -> A) : nat -> A := fun i => f (n + i)%nat.

Definition sodium_malloc : M bool := fun s =>
  (s_malloc s 0%nat,
   mk_sys (skip 1 (s_malloc s)) (s_mlock s) (s_mprotect s) (s_rand s) (s_clock s) (s_freed s)).

Definition sodium_mlock : M bool := fun s =>
  (s_mlock s 0%nat,
   mk_sys (s_malloc s) (skip 1 (s_mlock s)) (s_mprotect s) (s_rand s) (s_clock s) (s_freed s)).

Definition sodium_mprotect : M bool := fun s =>
  (s_mprotect s 0%nat,
   mk_sys (s_malloc s) (s_mlock s) (skip 1 (s_mprotect s)) (s_rand s) (s_clock s) (s_freed s)).

Definition randombytes_buf (n : Z) : M (list Z) := fun s =>
  (map (fun i => u8 (s_rand s i)) (seq 0 (Z.to_nat n)),
   mk_sys (s_malloc s) (s_mlock s) (s_mprotect s) (skip (Z.to_nat n) (s_rand s)) (s_clock s) (s_freed s)).

Definition now_ms : M Z := fun s =>
  (pv_now_ms (s_clock s 0%nat),
   mk_sys (s_malloc s) (s_mlock s) (s_mprotect s) (s_rand s) (skip 1 (s_clock s)) (s_freed s)).

(** A platform on which everything works; used to evaluate examples. *)
Definition sys_good (rand : nat -> Z) (clock : nat -> option (Z * Z)) : sys :=
  mk_sys (fun _ => true) (fun _ => true) (fun _ => true) rand clock [].

(** [sodium_free] of a block of a vault. *)
Definition sodium_free (block : guarded_block) : M unit := fun s =>
  (tt, mk_sys (s_malloc s) (s_mlock s) (s_mprotect s) (s_rand s) (s_clock s) (s_freed s ++ [block])).

(** ** libsodium's cryptographic functions *)

Class Sodium := {
  (** BLAKE2b over the concatenation of the updates; [None] on failure. *)
  crypto_generichash : list Z -> option (list Z);
  (** [crypto_pwhash password salt opslimit memlimit] (Argon2id). *)
  crypto_pwhash : list Z -> list Z -> Z -> Z -> option (list Z);
  (** [crypto_kdf_derive_from_key subkey_id context key]. *)
  crypto_kdf_derive : Z -> list Z -> list Z -> option (list Z);
  (** [aead_encrypt plaintext aad nonce key] (XChaCha20-Poly1305-IETF). *)
  aead_encrypt : list Z -> list Z -> list Z -> list Z -> option (list Z);
  (** [aead_decrypt ciphertext aad nonce key]; [None] when the tag is wrong. *)
  aead_decrypt : list Z -> list Z -> list Z -> list Z -> option (list Z)
}.

(** The documented behaviour the program relies on: output sizes, and that
    decryption inverts encryption and accepts nothing else. *)
Class SodiumLaws (S : Sodium) : Prop := {
  generichash_len : forall m h, crypto_generichash m = Some h ->
    zlen h = crypto_generichash_BYTES /\ is_bytes h;
  aead_len : forall m a n k c, aead_encrypt m a n k = Some c -> zlen c = zlen m + PV_WRAP_TAG_BYTES;
  aead_bytes : forall m a n k c, aead_encrypt m a n k = Some c -> is_bytes m -> is_bytes c;
  aead_plain_bytes : forall m a n k c, aead_decrypt c a n k = Some m -> is_bytes c -> is_bytes m;
  aead_correct : forall m a n k c, aead_encrypt m a n k = Some c -> aead_decrypt c a n k = Some m;
  aead_unique : forall m a n k c, aead_decrypt c a n k = Some m -> aead_encrypt m a n k = Some c
}.

(** ** Lemmas *)

Lemma randombytes_len n s : 0 <= n -> zlen (fst (randombytes_buf n s)) = n.
Proof. intros. unfold randombytes_buf, zlen. simpl. rewrite length_map, length_seq. lia. Qed.

Lemma randombytes_bytes n s : is_bytes (fst (randombytes_buf n s)).
Proof.
  unfold randombytes_buf. simpl. apply Forall_map, Forall_forall. intros. apply u8_byte.
Qed.

Lemma bind_run {A B} (m : M A) (f : A -> M B) s :
  (m ≫= f) s = let '(x, s') := m s in f x s'.
Proof. reflexivity. Qed.

(** Runs the next platform call of a computation in a hypothesis [H]. *)
Ltac run_bind H :=
  rewrite bind_run in H;
  match type of H with
  | context [let '(_, _) := ?m ?s in _] => let x := fresh "x" in let s' := fresh "s" in
      destruct (m s) as [x s'] eqn:?
  end.
