(* ===== verification/ReferenceSodium.v ===== *)
(** * An instance of the libsodium interface

    Executable functions with the sizes and laws of the class [SodiumLaws]: they
    show that the laws can hold and let examples be evaluated. They are not
    cryptographic functions. *)

From S2P Require Import Prelude Status Util Sys.

Definition toy_hash (seed : Z) (l : list Z) : Z := fold_left (fun acc b => (acc * 31 + b) mod 2305843009213693951) l seed.

Definition toy_tag (m a n k : list Z) : list Z := le_put 16 (toy_hash 7 (k ++ n ++ a ++ m)).

#[global] Instance toy_sodium : Sodium := {
  crypto_generichash m := Some (le_put 32 (toy_hash 5 m));
  crypto_pwhash p s o m := Some (le_put 32 (toy_hash (o + m) (p ++ s)));
  crypto_kdf_derive i c k := Some (le_put 32 (toy_hash i (c ++ k)));
  aead_encrypt m a n k := Some (m ++ toy_tag m a n k);
  aead_decrypt c a n k :=
    let m := take (length c - 16) c in
    if bytes_eqb c (m ++ toy_tag m a n k) then Some m else None
}.

Lemma toy_tag_length m a n k : length (toy_tag m a n k) = 16%nat.
Proof. apply le_put_length. Qed.

Lemma toy_tag_bytes m a n k : is_bytes (toy_tag m a n k).
Proof. apply le_put_bytes. Qed.

#[global] Instance toy_sodium_laws : SodiumLaws toy_sodium.
Proof.
  constructor; unfold crypto_generichash, aead_encrypt, aead_decrypt, toy_sodium; cbv zeta.
  - intros m h H. apply (inj Some) in H as <-. split; [unfold zlen; by rewrite le_put_length | apply le_put_bytes].
  - intros m a n k c H. apply (inj Some) in H as <-. rewrite zlen_app. unfold zlen at 2. by rewrite toy_tag_length.
  - intros m a n k c H Hb. apply (inj Some) in H as <-. apply is_bytes_app_2; [done | apply toy_tag_bytes].
  - intros m a n k c H Hb. split_if_in H; [| done]. apply (inj Some) in H as <-. by apply is_bytes_take.
  - intros m a n k c H. apply (inj Some) in H as <-. rewrite length_app, toy_tag_length.
    replace (length m + 16 - 16)%nat with (length m) by lia. by rewrite take_app_length, bytes_eqb_refl.
  - intros m a n k c H. destruct (bytes_eqb c _) eqn:E; [| done]. apply (inj Some) in H as <-. apply bytes_eqb_eq in E. by rewrite <- E.
Qed.
