(* ===== verification/Arena.v ===== *)
(** * The secure arena

    [src/arena.c]: a bump allocator over one guarded, locked block. A pointer
    into the arena is its byte offset from [base]. [a_mem] holds the bytes
    below [used]; the bytes from [used] to [capacity] are always zero ([init]
    and [reset] clear the block, and nothing is stored beyond [used]). *)

From S2P Require Import Prelude Status Util Sys.

Record pv_arena := mk_arena {
  a_base : bool;        (** [base != NULL] *)
  a_capacity : Z;
  a_used : Z;
  a_readonly : bool;
  a_mem : list Z
}.

(** [memset(arena, 0, sizeof( *arena))]. *)
Definition arena_zero : pv_arena := mk_arena false 0 0 false [].

(** A slice whose bytes live in an arena: offset (or [NULL]) and length. *)
Record pv_slice := mk_slice { s_data : option Z; s_len : Z }.

(** The view of a slice in the memory [mem]. *)
Definition slice_view (mem : list Z) (s : pv_slice) : pv_view :=
  mk_view (match s_data s with
           | None => None
           | Some off => Some (zsub mem off (s_len s))
           end) (s_len s).

Definition pv_arena_init (arena : pv_arena) (capacity : Z) : M (pv_status * pv_arena) :=
  if (capacity =? 0) || (PV_MAX_PLAINTEXT <? capacity) then mret (PV_ERR_USAGE, arena) else
  ok ← sodium_malloc;
  if negb ok then mret (PV_ERR_NOMEM, arena_zero) else
  locked ← sodium_mlock;
  if negb locked then _ ← sodium_free ARENA; mret (PV_ERR_SECURE_MEMORY, arena_zero) else
  mret (PV_OK, mk_arena true capacity 0 false []).

(** The offset of the block, [None] for [NULL], and the arena afterwards. *)
Definition pv_arena_alloc (arena : pv_arena) (size alignment : Z) : option Z * pv_arena :=
  if negb (a_base arena) || a_readonly arena || (size =? 0) ||
     (alignment =? 0) || negb (Z.land alignment (alignment - 1) =? 0)
  then (None, arena) else
  let mask := alignment - 1 in
  match pv_size_add (a_used arena) mask with
  | None => (None, arena)
  | Some sum =>
      let aligned := Z.land sum (Z.lnot mask) in
      match pv_size_add aligned size with
      | None => (None, arena)
      | Some end_ =>
          if a_capacity arena <? end_ then (None, arena)
          else (Some aligned,
                mk_arena (a_base arena) (a_capacity arena) end_ (a_readonly arena)
                  (a_mem arena ++ zeros (end_ - a_used arena)))
      end
  end.

(** [out] is the slice the caller passed; [data] the bytes readable at the
    source pointer. *)
Definition pv_arena_copy (arena : pv_arena) (out : pv_slice) (data : option (list Z))
    (len max_len : Z) : pv_status * pv_slice * pv_arena :=
  if ((match data with None => true | _ => false end) && negb (len =? 0)) || (max_len <? len)
  then (if max_len <? len then PV_ERR_LIMIT else PV_ERR_USAGE, out, arena) else
  let out := mk_slice None 0 in
  if len =? 0 then (PV_OK, out, arena) else
  match pv_arena_alloc arena (u64 (len + 1)) 1 with
  | (None, arena') => (PV_ERR_LIMIT, out, arena')
  | (Some destination, arena') =>
      let bytes := match data with None => [] | Some l => take (Z.to_nat len) l end in
      let mem := zwrite (zwrite (a_mem arena') destination bytes) (destination + len) [0] in
      (PV_OK, mk_slice (Some destination) len,
       mk_arena (a_base arena') (a_capacity arena') (a_used arena') (a_readonly arena') mem)
  end.

Definition pv_arena_set_readonly (arena : pv_arena) : M (pv_status * pv_arena) :=
  if negb (a_base arena) then mret (PV_ERR_USAGE, arena) else
  ok ← sodium_mprotect;
  if negb ok then mret (PV_ERR_SECURE_MEMORY, arena) else
  mret (PV_OK, mk_arena (a_base arena) (a_capacity arena) (a_used arena) true (a_mem arena)).

Definition pv_arena_set_readwrite (arena : pv_arena) : M (pv_status * pv_arena) :=
  if negb (a_base arena) then mret (PV_ERR_USAGE, arena) else
  ok ← sodium_mprotect;
  if negb ok then mret (PV_ERR_SECURE_MEMORY, arena) else
  mret (PV_OK, mk_arena (a_base arena) (a_capacity arena) (a_used arena) false (a_mem arena)).

Definition pv_arena_reset (arena : pv_arena) : M pv_arena :=
  if negb (a_base arena) then mret arena else
  r ← (if a_readonly arena then pv_arena_set_readwrite arena else mret (PV_OK, arena));
  mret (mk_arena (a_base (snd r)) (a_capacity (snd r)) 0 (a_readonly (snd r)) []).

Definition pv_arena_destroy (arena : pv_arena) : M pv_arena :=
  _ ← (if a_base arena then
         _ ← (if a_readonly arena then pv_arena_set_readwrite arena else mret (PV_OK, arena));
         sodium_free ARENA
       else mret tt);
  mret arena_zero.

(** ** Invariant *)

Record arena_wf (a : pv_arena) : Prop := {
  wf_mem : zlen (a_mem a) = a_used a;
  wf_bytes : is_bytes (a_mem a);
  wf_used : a_used a <= a_capacity a;
  wf_capacity : a_capacity a <= PV_MAX_PLAINTEXT
}.

(** The smallest multiple of [alignment] that is at least [n]. *)
Definition round_up (n alignment : Z) : Z := (n + (alignment - 1)) / alignment * alignment.

(** ** Lemmas *)

Lemma arena_wf_used_nonneg a : arena_wf a -> 0 <= a_used a.
Proof. intros [H _ _ _]. rewrite <- H. apply zlen_nonneg. Qed.

(** The test [(alignment & (alignment - 1)) == 0] accepts the powers of two. *)
Lemma land_pred_pow2 a : 0 < a -> Z.land a (a - 1) = 0 -> exists k, 0 <= k /\ a = 2 ^ k.
Proof.
  intros Ha Hl. pose proof (Z.log2_spec a Ha) as [Hlo Hhi]. pose proof (Z.log2_nonneg a).
  exists (Z.log2 a). split; [done |].
  destruct (Z.eq_dec a (2 ^ Z.log2 a)) as [|Hne]; [done | exfalso].
  assert (Hk : Z.log2 (a - 1) = Z.log2 a) by (apply Z.log2_unique; lia).
  assert (Hb : Z.testbit (Z.land a (a - 1)) (Z.log2 a) = true).
  { rewrite Z.land_spec, Z.bit_log2 by lia. rewrite <- Hk at 1. rewrite Z.bit_log2; [done |].
    assert (0 < 2 ^ Z.log2 a) by (apply Z.pow_pos_nonneg; lia). lia. }
  by rewrite Hl, Z.bits_0 in Hb.
Qed.

Lemma land_lnot_round n k :
  0 <= k -> Z.land (n + (2 ^ k - 1)) (Z.lnot (2 ^ k - 1)) = round_up n (2 ^ k).
Proof.
  intros. unfold round_up. replace (2 ^ k - 1) with (Z.ones k) by (rewrite Z.ones_equiv; lia).
  rewrite <- Z.ldiff_land, Z.ldiff_ones_r by lia.
  by rewrite Z.shiftl_mul_pow2, Z.shiftr_div_pow2 by lia.
Qed.

Lemma round_up_bounds n a : 0 < a -> n <= round_up n a < n + a /\ (a | round_up n a).
Proof.
  intros. unfold round_up. split; [| by exists ((n + (a - 1)) / a)].
  pose proof (Z.mod_pos_bound (n + (a - 1)) a). pose proof (Z.div_mod (n + (a - 1)) a). lia.
Qed.

(** The requests [pv_arena_alloc] grants. *)
Definition alloc_granted (a : pv_arena) (size alignment : Z) : bool :=
  a_base a && negb (a_readonly a) && (0 <? size) && (0 <? alignment) &&
  (Z.land alignment (alignment - 1) =? 0) &&
  (round_up (a_used a) alignment + size <=? a_capacity a).

Lemma arena_alloc_eq a size alignment :
  arena_wf a -> 0 <= size <= SIZE_MAX -> 0 <= alignment <= SIZE_MAX ->
  pv_arena_alloc a size alignment =
  if alloc_granted a size alignment then
    let off := round_up (a_used a) alignment in
    (Some off, mk_arena (a_base a) (a_capacity a) (off + size) (a_readonly a)
                 (a_mem a ++ zeros (off + size - a_used a)))
  else (None, a).
Proof.
  intros Hwf Hs Ha. pose proof (arena_wf_used_nonneg a Hwf). destruct Hwf as [_ _ Hu Hc].
  unfold pv_arena_alloc, alloc_granted. unfold PV_MAX_PLAINTEXT in Hc.
  destruct (a_base a); [| done]. destruct (a_readonly a); [done |]. cbn [negb orb andb].
  destruct (Z.eqb_spec size 0); [by replace (0 <? size) with false by lia |].
  destruct (Z.eqb_spec alignment 0).
  { subst. replace (0 <? size) with true by lia. done. }
  replace (0 <? size) with true by lia. replace (0 <? alignment) with true by lia.
  destruct (Z.eqb_spec (Z.land alignment (alignment - 1)) 0) as [Hl |]; [| done]. cbn [negb orb andb].
  destruct (land_pred_pow2 alignment ltac:(lia) Hl) as (k & Hk & ->).
  assert (k <= 63).
  { destruct (Z.le_gt_cases k 63); [done |]. assert (2 ^ 64 <= 2 ^ k) by (apply Z.pow_le_mono_r; lia).
    unfold SIZE_MAX in Ha. lia. }
  assert (2 ^ k <= 2 ^ 63) by (apply Z.pow_le_mono_r; lia). change (2 ^ 63) with 9223372036854775808 in *.
  pose proof (round_up_bounds (a_used a) (2 ^ k) ltac:(lia)) as [Hr _].
  unfold pv_size_add, SIZE_MAX in *. replace (_ <? 2 ^ k - 1) with false by lia. cbv iota.
  rewrite land_lnot_round by done.
  repeat split_if; try done; try lia.
Qed.

Lemma arena_alloc_wf a size alignment r a' :
  arena_wf a -> 0 <= size <= SIZE_MAX -> 0 <= alignment <= SIZE_MAX ->
  pv_arena_alloc a size alignment = (r, a') -> arena_wf a'.
Proof.
  intros Hwf Hs Ha. rewrite arena_alloc_eq by done. unfold alloc_granted.
  pose proof (arena_wf_used_nonneg a Hwf). destruct Hwf as [Hm Hb Hu Hc].
  split_if; intros [= <- <-]; [| done].
  pose proof (round_up_bounds (a_used a) alignment ltac:(lia)) as [Hr _].
  constructor; simpl; try lia.
  - rewrite zlen_app, zlen_zeros by lia. lia.
  - auto with pv.
Qed.

(** What a successful allocation returns: an aligned block above everything
    allocated so far, inside the arena, filled with zeros; the bytes below are
    untouched. *)
Lemma arena_alloc_some a size alignment off a' :
  arena_wf a -> 0 <= size <= SIZE_MAX -> 0 <= alignment <= SIZE_MAX ->
  pv_arena_alloc a size alignment = (Some off, a') ->
  a_used a <= off /\ (alignment | off) /\ a_used a' = off + size /\
  off + size <= a_capacity a /\ a_capacity a' = a_capacity a /\
  a_base a' = true /\ a_readonly a' = false /\
  zsub (a_mem a') off size = zeros size /\
  exists pad, a_mem a' = a_mem a ++ pad.
Proof.
  intros Hwf Hs Ha H. rewrite arena_alloc_eq in H by done.
  destruct (alloc_granted a size alignment) eqn:G; unfold alloc_granted in G; [| done].
  injection H as <- <-. pose proof (arena_wf_used_nonneg a Hwf). destruct Hwf as [Hm Hb Hu Hc].
  pose proof (round_up_bounds (a_used a) alignment ltac:(lia)) as [Hr Hd].
  repeat split; simpl; try done; try lia; try (destruct (a_base a), (a_readonly a); done).
  - rewrite zsub_app_r, Hm by lia. unfold zsub, zeros. rewrite drop_replicate, take_replicate.
    f_equal. lia.
  - by eexists.
Qed.

Lemma zsub_prefix {A} (mem pad : list A) off n :
  0 <= off -> 0 <= n -> off + n <= zlen mem -> zsub (mem ++ pad) off n = zsub mem off n.
Proof. intros. by apply zsub_app_l. Qed.

(** A slice lies in the used part of the arena. *)
Definition slice_ok (used : Z) (s : pv_slice) : Prop :=
  match s_data s with
  | None => s_len s = 0
  | Some off => 0 <= off /\ 0 < s_len s /\ off + s_len s <= used
  end.

Lemma zwrite_app {A} (m z bs : list A) :
  zwrite (m ++ z) (zlen m) bs = m ++ bs ++ drop (length bs) z.
Proof.
  unfold zwrite, zlen. rewrite Nat2Z.id, take_app_length. do 2 f_equal.
  rewrite <- drop_drop, drop_app_length. done.
Qed.

Lemma round_up_1 n : round_up n 1 = n.
Proof. unfold round_up. rewrite Z.div_1_r. lia. Qed.

(** Is there room for [len] bytes and their terminator? *)
Definition copy_fits (a : pv_arena) (len : Z) : bool :=
  a_base a && negb (a_readonly a) && (a_used a + len + 1 <=? a_capacity a).

(** One [pv_arena_copy] from readable memory: the bytes and a NUL are appended
    to the used part, or the arena is left as it was. *)
Lemma arena_copy_eq a out l len max_len :
  arena_wf a -> 0 <= len -> max_len < SIZE_MAX -> len <= zlen l ->
  pv_arena_copy a out (Some l) len max_len =
  if max_len <? len then (PV_ERR_LIMIT, out, a)
  else if len =? 0 then (PV_OK, mk_slice None 0, a)
  else if copy_fits a len then
    (PV_OK, mk_slice (Some (a_used a)) len,
     mk_arena (a_base a) (a_capacity a) (a_used a + len + 1) (a_readonly a)
       (a_mem a ++ take (Z.to_nat len) l ++ [0]))
  else (PV_ERR_LIMIT, mk_slice None 0, a).
Proof.
  intros Hwf Hlen Hmax Hl. unfold pv_arena_copy. cbn [andb orb].
  destruct (max_len <? len) eqn:?; [done |]. destruct (Z.eqb_spec len 0); [done |].
  assert (Hu64 : u64 (len + 1) = len + 1) by (unfold u64; apply Z.mod_small; unfold SIZE_MAX in *; lia).
  rewrite Hu64, arena_alloc_eq by (auto; unfold SIZE_MAX in *; lia).
  unfold alloc_granted, copy_fits. rewrite round_up_1.
  replace (0 <? len + 1) with true by lia. change (0 <? 1) with true.
  change (Z.land 1 (1 - 1) =? 0) with true. rewrite !andb_true_r, Z.add_assoc.
  split_if; [| done]. cbn [a_base a_capacity a_used a_readonly a_mem].
  assert (Hw : forall z bs, zwrite (a_mem a ++ z) (a_used a) bs = a_mem a ++ bs ++ drop (length bs) z)
    by (intros; rewrite <- (wf_mem a Hwf); apply zwrite_app).
  assert (Hb : length (take (Z.to_nat len) l) = Z.to_nat len)
    by (rewrite length_take; unfold zlen in *; lia).
  rewrite Hw, Hb. replace (a_used a + len) with (zlen (a_mem a ++ take (Z.to_nat len) l))
    by (rewrite zlen_app, (wf_mem a Hwf); unfold zlen; rewrite Hb; lia).
  rewrite app_assoc, zwrite_app, <- app_assoc. repeat f_equal.
  unfold zeros. rewrite !drop_replicate.
  rewrite zlen_app, (wf_mem a Hwf). unfold zlen. rewrite Hb.
  by replace (_ - _ - _)%nat with 0%nat by (simpl; lia).
Qed.

Lemma arena_copy_null a out len max_len :
  pv_arena_copy a out None len max_len =
  if max_len <? len then (PV_ERR_LIMIT, out, a)
  else if len =? 0 then (PV_OK, mk_slice None 0, a)
  else (PV_ERR_USAGE, out, a).
Proof. unfold pv_arena_copy. cbn [andb]. destruct (len =? 0), (max_len <? len); done. Qed.

(** What every copy leaves true of the arena. *)
Record arena_ext (a a' : pv_arena) : Prop := {
  ext_wf : arena_wf a';
  ext_base : a_base a' = a_base a;
  ext_capacity : a_capacity a' = a_capacity a;
  ext_readonly : a_readonly a' = a_readonly a;
  ext_used : a_used a <= a_used a';
  ext_mem : exists pad, a_mem a' = a_mem a ++ pad
}.

Lemma arena_ext_refl a : arena_wf a -> arena_ext a a.
Proof. intros. constructor; auto; [lia | exists []; by rewrite app_nil_r]. Qed.

Lemma arena_ext_trans a b c : arena_ext a b -> arena_ext b c -> arena_ext a c.
Proof.
  intros [? ? ? ? ? [p Hp]] [? ? ? ? ? [q Hq]]. constructor; try congruence; [lia |].
  exists (p ++ q). by rewrite Hq, Hp, app_assoc.
Qed.

Lemma arena_alloc_ext a size alignment r a' :
  arena_wf a -> 0 <= size <= SIZE_MAX -> 0 <= alignment <= SIZE_MAX ->
  pv_arena_alloc a size alignment = (r, a') -> arena_ext a a'.
Proof.
  intros Hwf Hs Ha H. pose proof (arena_alloc_wf _ _ _ _ _ Hwf Hs Ha H) as Hwf'.
  pose proof (arena_wf_used_nonneg a Hwf). rewrite arena_alloc_eq in H by done.
  unfold alloc_granted in H. split_if_in H; injection H as <- <-; [| by apply arena_ext_refl].
  pose proof (round_up_bounds (a_used a) alignment ltac:(lia)) as [Hr _].
  constructor; simpl; auto; [lia | by eexists].
Qed.

Lemma arena_copy_ext a out l len max_len st sl a' :
  arena_wf a -> 0 <= len -> max_len < SIZE_MAX -> len <= zlen l -> is_bytes l ->
  pv_arena_copy a out (Some l) len max_len = (st, sl, a') -> arena_ext a a'.
Proof.
  intros Hwf ? ? Hl Hb H. rewrite arena_copy_eq in H by done. unfold copy_fits in H.
  repeat split_if_in H; injection H as <- <- <-; try by apply arena_ext_refl.
  destruct Hwf as [Hm Hbm Hu Hc]. constructor; simpl; auto; [| lia | by eexists].
  constructor; simpl; try lia.
  - rewrite !zlen_app, Hm. unfold zlen at 1. rewrite length_take. unfold zlen in *. simpl. lia.
  - auto with pv.
Qed.

(** Slices keep their contents when the arena only grows. *)
Lemma slice_view_ext a a' s :
  arena_wf a -> arena_ext a a' -> slice_ok (a_used a) s ->
  slice_view (a_mem a') s = slice_view (a_mem a) s.
Proof.
  intros [Hm _ _ _] [_ _ _ _ _ [pad ->]] Hs. unfold slice_view, slice_ok in *.
  destruct (s_data s) as [off|]; [| done]. rewrite zsub_app_l by lia. done.
Qed.

Lemma slice_ok_mono u u' s : u <= u' -> slice_ok u s -> slice_ok u' s.
Proof. unfold slice_ok. destruct (s_data s); lia. Qed.

(** A copied slice denotes the source bytes. *)
Lemma arena_copy_view a out l len max_len sl a' :
  arena_wf a -> 0 <= len -> max_len < SIZE_MAX -> len <= zlen l ->
  pv_arena_copy a out (Some l) len max_len = (PV_OK, sl, a') ->
  slice_ok (a_used a') sl /\ s_len sl = len /\
  v_bytes (slice_view (a_mem a') sl) = take (Z.to_nat len) l /\
  (len = 0 \/ s_data sl = Some (a_used a)).
Proof.
  intros Hwf ? ? Hl H. pose proof (arena_wf_used_nonneg a Hwf).
  rewrite arena_copy_eq in H by done. repeat split_if_in H; try done; injection H as <- <-.
  - assert (len = 0) as -> by lia. unfold slice_ok, v_bytes. simpl. auto.
  - unfold slice_ok, v_bytes, slice_view. simpl. repeat split; try lia; [| by right].
    assert (Hb : zlen (take (Z.to_nat len) l) = len)
      by (unfold zlen in *; rewrite length_take; lia).
    assert (Hz : zsub (a_mem a ++ take (Z.to_nat len) l ++ [0]) (a_used a) len = take (Z.to_nat len) l).
    { etrans; [| apply (zsub_app_mid (a_mem a) (take (Z.to_nat len) l))].
      by rewrite Hb, (wf_mem a Hwf). }
    by rewrite Hz, take_take, Nat.min_id.
Qed.

(** ** The arena as a state machine

    The operations the components apply to one arena, as steps on the arena and
    on the list of blocks (offset and size, with the alignment asked for) handed
    out since it was last cleared. *)

Record block := mk_block { b_off : Z; b_size : Z; b_align : Z }.

Inductive arena_step : pv_arena * list block -> pv_arena * list block -> Prop :=
| step_alloc a bs size alignment off a' :
    0 <= size <= SIZE_MAX -> 0 <= alignment <= SIZE_MAX ->
    pv_arena_alloc a size alignment = (Some off, a') ->
    arena_step (a, bs) (a', bs ++ [mk_block off size alignment])
| step_alloc_fail a bs size alignment a' :
    0 <= size <= SIZE_MAX -> 0 <= alignment <= SIZE_MAX ->
    pv_arena_alloc a size alignment = (None, a') -> arena_step (a, bs) (a', bs)
| step_copy a bs out l len max_len sl a' off :
    0 <= len <= zlen l -> max_len < SIZE_MAX -> is_bytes l ->
    pv_arena_copy a out (Some l) len max_len = (PV_OK, sl, a') -> s_data sl = Some off ->
    arena_step (a, bs) (a', bs ++ [mk_block off (len + 1) 1])
| step_readonly a bs s st a' s' :
    pv_arena_set_readonly a s = (st, a', s') -> arena_step (a, bs) (a', bs)
| step_readwrite a bs s st a' s' :
    pv_arena_set_readwrite a s = (st, a', s') -> arena_step (a, bs) (a', bs)
| step_reset a bs s a' s' :
    pv_arena_reset a s = (a', s') -> a_base a = true -> arena_step (a, bs) (a', [])
| step_destroy a bs s a' s' :
    pv_arena_destroy a s = (a', s') -> arena_step (a, bs) (a', []).

(** Arenas reachable from a successful [pv_arena_init]. *)
Inductive arena_reachable : pv_arena -> list block -> Prop :=
| reach_init a0 capacity s a s' :
    0 <= capacity -> pv_arena_init a0 capacity s = ((PV_OK, a), s') -> arena_reachable a []
| reach_step a bs a' bs' :
    arena_reachable a bs -> arena_step (a, bs) (a', bs') -> arena_reachable a' bs'.

Definition blocks_disjoint (b1 b2 : block) : Prop :=
  b_off b1 + b_size b1 <= b_off b2 \/ b_off b2 + b_size b2 <= b_off b1.

(** Inside the used part, and at a multiple of the alignment. *)
Definition block_placed (used : Z) (b : block) : Prop :=
  0 <= b_off b /\ 0 < b_size b /\ b_off b + b_size b <= used /\ (b_align b | b_off b).

Record arena_inv (a : pv_arena) (bs : list block) : Prop := {
  inv_wf : arena_wf a;
  inv_inside : Forall (block_placed (a_used a)) bs;
  inv_disjoint : ForallOrdPairs blocks_disjoint bs
}.

Lemma ForallOrdPairs_snoc {A} (R : A -> A -> Prop) l x :
  ForallOrdPairs R l -> Forall (fun y => R y x) l -> ForallOrdPairs R (l ++ [x]).
Proof.
  induction 1 as [|y l Hy Hl IH]; intros Hx; simpl; [repeat constructor |].
  apply Forall_cons_iff in Hx as [Hyx Hx]. constructor; [| auto].
  apply Forall_app_2; [done |]. by constructor.
Qed.

(** A new block above everything allocated keeps the invariant. *)
Lemma arena_inv_snoc a a' bs off size alignment :
  arena_inv a bs -> arena_wf a' -> a_used a <= off -> 0 < size -> off + size = a_used a' -> (alignment | off) ->
  arena_inv a' (bs ++ [mk_block off size alignment]).
Proof.
  intros [Hwf Hin Hd] Hwf' Hoff Hs Hu Ha. pose proof (arena_wf_used_nonneg a Hwf).
  constructor; [done | |].
  - apply Forall_app_2; [| repeat constructor; simpl; auto; lia].
    eapply Forall_impl; [| exact Hin]. intros b (? & ? & ? & ?). split_and!; auto; lia.
  - apply ForallOrdPairs_snoc; [done |]. eapply Forall_impl; [| exact Hin].
    unfold blocks_disjoint, block_placed. simpl. intros. lia.
Qed.

Lemma arena_inv_same_mem a a' bs :
  arena_inv a bs -> a_mem a' = a_mem a -> a_used a' = a_used a ->
  a_capacity a' = a_capacity a -> arena_inv a' bs.
Proof.
  intros [[] ? ?] Hm Hu Hc. constructor; [constructor | |]; rewrite ?Hm, ?Hu, ?Hc; auto.
Qed.

Lemma arena_wf_empty b c r : 0 <= c <= PV_MAX_PLAINTEXT -> arena_wf (mk_arena b c 0 r []).
Proof. intros. constructor; simpl; try lia; auto with pv. Qed.

Lemma set_protection_same a s st a' s' :
  pv_arena_set_readonly a s = (st, a', s') \/ pv_arena_set_readwrite a s = (st, a', s') ->
  a_mem a' = a_mem a /\ a_used a' = a_used a /\ a_capacity a' = a_capacity a /\ a_base a' = a_base a.
Proof.
  unfold pv_arena_set_readonly, pv_arena_set_readwrite, mbind, M_bind, mret, M_ret.
  intros [H | H]; repeat split_if_in H; simpl in H; repeat split_if_in H; simplify_eq; done.
Qed.

Lemma alloc_step_inv a bs size alignment off a' :
  arena_inv a bs -> 0 <= size <= SIZE_MAX -> 0 <= alignment <= SIZE_MAX ->
  pv_arena_alloc a size alignment = (Some off, a') -> arena_inv a' (bs ++ [mk_block off size alignment]).
Proof.
  intros Hi Hs Ha H. pose proof (inv_wf _ _ Hi) as Hwf.
  pose proof (arena_alloc_wf _ _ _ _ _ Hwf Hs Ha H) as Hwf'.
  pose proof (arena_alloc_some _ _ _ _ _ Hwf Hs Ha H) as (Hu & Hal & Hu' & _).
  apply (arena_inv_snoc a); auto. rewrite arena_alloc_eq in H by done.
  unfold alloc_granted in H. split_if_in H; [lia | done].
Qed.

Lemma copy_step_inv a bs out l len max_len sl a' off :
  arena_inv a bs -> 0 <= len <= zlen l -> max_len < SIZE_MAX -> is_bytes l ->
  pv_arena_copy a out (Some l) len max_len = (PV_OK, sl, a') -> s_data sl = Some off ->
  arena_inv a' (bs ++ [mk_block off (len + 1) 1]).
Proof.
  intros Hi Hlen Hmax Hb H Hoff. pose proof (inv_wf _ _ Hi) as Hwf.
  pose proof (arena_copy_ext a out l len max_len _ _ _ Hwf ltac:(lia) Hmax ltac:(lia) Hb H) as [Hwf' _ _ _ _ _].
  rewrite arena_copy_eq in H by (auto; lia). repeat split_if_in H; simplify_eq/=.
  apply (arena_inv_snoc a); auto using Z.divide_1_l; simpl; lia.
Qed.

Lemma reset_step_inv a bs s a' s' :
  arena_inv a bs -> pv_arena_reset a s = (a', s') -> a_base a = true -> arena_inv a' [].
Proof.
  intros Hi H Hb. pose proof (inv_wf _ _ Hi) as Hwf. unfold pv_arena_reset in H.
  rewrite Hb in H. simpl in H. rewrite bind_run in H.
  destruct ((if a_readonly a then pv_arena_set_readwrite a else mret (PV_OK, a)) s)
    as [[st a1] s1] eqn:E.
  assert (a_capacity a1 = a_capacity a) as Hc.
  { destruct (a_readonly a); [| by injection E as <- <- <-].
    edestruct (set_protection_same a) as (_ & _ & ? & _); [right; eassumption | done]. }
  injection H as <- <-. constructor; [| constructor | constructor].
  pose proof (arena_wf_used_nonneg a Hwf). destruct Hwf. apply arena_wf_empty. simpl. lia.
Qed.

Lemma destroy_step_inv a s a' s' : pv_arena_destroy a s = (a', s') -> arena_inv a' [].
Proof.
  unfold pv_arena_destroy. rewrite bind_run. destruct (_ s) as [x s1]. intros [= <- <-].
  constructor; [apply arena_wf_empty; unfold PV_MAX_PLAINTEXT; lia | constructor | constructor].
Qed.

Lemma protection_step_inv a bs s st a' s' :
  arena_inv a bs ->
  pv_arena_set_readonly a s = (st, a', s') \/ pv_arena_set_readwrite a s = (st, a', s') ->
  arena_inv a' bs.
Proof.
  intros Hi H. apply set_protection_same in H as (? & ? & ? & _).
  by apply (arena_inv_same_mem a).
Qed.

Lemma arena_step_inv a bs a' bs' :
  arena_step (a, bs) (a', bs') -> arena_inv a bs -> arena_inv a' bs'.
Proof.
  intros Hstep Hi. inversion Hstep; subst;
    eauto using alloc_step_inv, copy_step_inv, reset_step_inv, destroy_step_inv, protection_step_inv.
  match goal with H : pv_arena_alloc _ _ _ = _ |- _ =>
    rewrite arena_alloc_eq in H by (auto; apply Hi); split_if_in H; [done |]; by injection H as <- end.
Qed.

Lemma arena_init_ok a0 capacity s a s' :
  0 <= capacity -> pv_arena_init a0 capacity s = ((PV_OK, a), s') ->
  a = mk_arena true capacity 0 false [] /\ 0 < capacity <= PV_MAX_PLAINTEXT.
Proof.
  unfold pv_arena_init, mbind, M_bind, mret, M_ret. intros ? H.
  repeat split_if_in H; simpl in H; repeat split_if_in H; simplify_eq/=. split; [done | lia].
Qed.

(** ** Properties *)

(** C40: blocks handed out by an arena since it was last cleared never overlap,
    lie inside its capacity (at most 2 MiB) at a multiple of the alignment that was
    asked for, and the arena stays well formed, whatever sequence of allocations,
    copies, protection changes, resets and failures led there. *)
Theorem arena_blocks_disjoint (a : pv_arena) (bs : list block) (Hr : arena_reachable a bs) :
  arena_wf a /\
  Forall (fun b => 0 <= b_off b /\ 0 < b_size b /\ b_off b + b_size b <= a_used a /\ (b_align b | b_off b)) bs /\
  ForallOrdPairs blocks_disjoint bs.
Proof.
  assert (Hi : arena_inv a bs); [| by destruct Hi].
  induction Hr as [a0 capacity s a s' Hc H | a bs a' bs' _ IH H].
  - destruct (arena_init_ok _ _ _ _ _ Hc H) as [-> Hb].
    constructor; [apply arena_wf_empty; lia | constructor | constructor].
  - by eapply arena_step_inv.
Qed.

Definition example_sys : sys := sys_good (fun i => Z.of_nat i) (fun _ => Some (1700000000, 0)).

Lemma arena_blocks_disjoint_witness :
  let a := mk_arena true 64 16 false (zeros 16) in
  arena_wf a /\
  Forall (fun b => 0 <= b_off b /\ 0 < b_size b /\ b_off b + b_size b <= a_used a /\ (b_align b | b_off b)) [mk_block 0 3 1; mk_block 8 8 8] /\
  ForallOrdPairs blocks_disjoint [mk_block 0 3 1; mk_block 8 8 8].
Proof.
  apply arena_blocks_disjoint.
  apply (reach_step (mk_arena true 64 3 false (zeros 3)) [mk_block 0 3 1]).
  - apply (reach_step (mk_arena true 64 0 false []) []).
    + apply (reach_init arena_zero 64 example_sys _ (snd (pv_arena_init arena_zero 64 example_sys)));
        [lia | reflexivity].
    + apply (step_alloc _ [] 3 1); [unfold SIZE_MAX; lia .. | reflexivity].
  - apply (step_alloc _ [mk_block 0 3 1] 8 8); [unfold SIZE_MAX; lia .. | reflexivity].
Defined.

(** [pv_arena_alloc] grants a request exactly when the arena is initialised
    and writable, the size is not zero, the alignment is a power of two, and
    the aligned block fits; then the block is aligned, starts at or above every
    byte in use, ends inside the capacity and is zeroed, and otherwise the
    arena is unchanged. *)
Theorem arena_alloc_exact (a : pv_arena) (size alignment : Z) (Hwf : arena_wf a)
    (Hs : 0 <= size <= SIZE_MAX) (Ha : 0 <= alignment <= SIZE_MAX) :
  match pv_arena_alloc a size alignment with
  | (Some off, a') =>
      alloc_granted a size alignment = true /\ (alignment | off) /\
      a_used a <= off /\ off + size <= a_capacity a /\ a_used a' = off + size /\
      zsub (a_mem a') off size = zeros size /\ zsub (a_mem a') 0 (a_used a) = a_mem a
  | (None, a') => alloc_granted a size alignment = false /\ a' = a
  end.
Proof.
  destruct (pv_arena_alloc a size alignment) as [[off|] a'] eqn:H.
  - pose proof H as Heq. rewrite arena_alloc_eq in Heq by done. split_if_in Heq; [| done].
    pose proof (arena_wf_used_nonneg a Hwf).
    apply arena_alloc_some in H as (? & ? & ? & ? & _ & _ & _ & ? & pad & Hp); auto.
    repeat (split; [done |]). rewrite Hp. rewrite zsub_app_l by (rewrite ?(wf_mem a Hwf); lia).
    rewrite <- (wf_mem a Hwf). apply zsub_all.
  - rewrite arena_alloc_eq in H by done. split_if_in H; [done | by injection H as <-].
Qed.

Lemma arena_alloc_exact_witness :
  let a := mk_arena true 64 3 false (zeros 3) in
  match pv_arena_alloc a 8 8 with
  | (Some off, a') =>
      alloc_granted a 8 8 = true /\ (8 | off) /\ a_used a <= off /\ off + 8 <= a_capacity a /\
      a_used a' = off + 8 /\ zsub (a_mem a') off 8 = zeros 8 /\ zsub (a_mem a') 0 (a_used a) = a_mem a
  | (None, a') => alloc_granted a 8 8 = false /\ a' = a
  end.
Proof.
  apply arena_alloc_exact; [| unfold SIZE_MAX; lia ..].
  constructor; simpl; [reflexivity | apply (is_bytes_zeros 3) | lia | unfold PV_MAX_PLAINTEXT; lia].
Defined.

(** A successful [pv_arena_copy] of [len > 0] bytes yields a slice that
    reads back as those bytes followed by a NUL, and every slice allocated
    before still reads as before. *)
Theorem arena_copy_roundtrip (a : pv_arena) (out sl old : pv_slice) (l : list Z)
    (len max_len : Z) (a' : pv_arena) (Hwf : arena_wf a) (Hb : is_bytes l)
    (Hlen : 0 < len <= zlen l) (Hmax : max_len < SIZE_MAX) (Hold : slice_ok (a_used a) old)
    (Hrun : pv_arena_copy a out (Some l) len max_len = (PV_OK, sl, a')) :
  v_bytes (slice_view (a_mem a') sl) = take (Z.to_nat len) l /\ s_len sl = len /\
  slice_ok (a_used a') sl /\
  zsub (a_mem a') (a_used a + len) 1 = [0] /\
  slice_view (a_mem a') old = slice_view (a_mem a) old.
Proof.
  pose proof (arena_copy_ext a out l len max_len _ _ _ Hwf ltac:(lia) Hmax ltac:(lia) Hb Hrun) as Hext.
  pose proof (arena_copy_view a out l len max_len _ _ Hwf ltac:(lia) Hmax ltac:(lia) Hrun) as (? & ? & ? & _).
  repeat (split; [done |]). split; [| by eapply slice_view_ext].
  rewrite arena_copy_eq in Hrun by (auto; lia). repeat split_if_in Hrun; try done; [lia |].
  injection Hrun as <- <-. simpl. rewrite app_assoc.
  assert (Hz : zlen (a_mem a ++ take (Z.to_nat len) l) = a_used a + len).
  { rewrite zlen_app, (wf_mem a Hwf). unfold zlen in *. rewrite length_take. lia. }
  rewrite zsub_app_r, Hz by lia. by replace (a_used a + len - (a_used a + len)) with 0 by lia.
Qed.

Lemma arena_copy_roundtrip_witness :
  let a := mk_arena true 64 2 false [7; 0] in
  let a' := mk_arena true 64 6 false [7; 0; 65; 66; 67; 0] in
  v_bytes (slice_view (a_mem a') (mk_slice (Some 2) 3)) = take (Z.to_nat 3) [65; 66; 67] /\
  s_len (mk_slice (Some 2) 3) = 3 /\ slice_ok (a_used a') (mk_slice (Some 2) 3) /\
  zsub (a_mem a') (a_used a + 3) 1 = [0] /\
  slice_view (a_mem a') (mk_slice (Some 0) 1) = slice_view (a_mem a) (mk_slice (Some 0) 1).
Proof.
  apply (arena_copy_roundtrip (mk_arena true 64 2 false [7; 0]) (mk_slice None 0)
           (mk_slice (Some 2) 3) (mk_slice (Some 0) 1) [65; 66; 67] 3 10).
  - constructor; simpl; [reflexivity | repeat constructor; done | lia | unfold PV_MAX_PLAINTEXT; lia].
  - repeat constructor; done.
  - unfold zlen. simpl. lia.
  - unfold SIZE_MAX. lia.
  - unfold slice_ok. simpl. lia.
  - reflexivity.
Defined.
