(* ===== verification/Model.v ===== *)
(** * The in-memory vault

    [src/model.c] with the structures of [src/pvault_internal.h]: records whose
    texts are slices of the vault's arena, and the operations that validate,
    add, find, delete and clone them.

    Records are parametric in how their texts are represented: a record of the
    vault holds arena slices ([pv_slice]), a record a function only reads holds
    views ([pv_view]), and the contents of a record are byte lists. An array
    field and its count ([urls]/[url_count], ...) are one list. A pointer to a
    record of a vault is its index in [v_records]. *)

From S2P Require Import Prelude Status Util Sys Arena.

Record pv_custom_field (S : Type) := mk_field {
  f_name : S;
  f_value : S;
  f_flags : Z
}.

Record pv_record (S : Type) := mk_record {
  r_id : list Z;
  r_revision : Z;
  r_created_ms : Z;
  r_updated_ms : Z;
  r_flags : Z;
  r_title : S;
  r_username : S;
  r_password : S;
  r_notes : S;
  r_urls : list S;
  r_tags : list S;
  r_fields : list (pv_custom_field S)
}.

Arguments mk_field {S}. Arguments f_name {S}. Arguments f_value {S}. Arguments f_flags {S}.
Arguments mk_record {S}. Arguments r_id {S}. Arguments r_revision {S}.
Arguments r_created_ms {S}. Arguments r_updated_ms {S}. Arguments r_flags {S}.
Arguments r_title {S}. Arguments r_username {S}. Arguments r_password {S}.
Arguments r_notes {S}. Arguments r_urls {S}. Arguments r_tags {S}. Arguments r_fields {S}.

Definition field_map {S T} (g : S -> T) (f : pv_custom_field S) : pv_custom_field T :=
  mk_field (g (f_name f)) (g (f_value f)) (f_flags f).

Definition record_map {S T} (g : S -> T) (r : pv_record S) : pv_record T :=
  mk_record (r_id r) (r_revision r) (r_created_ms r) (r_updated_ms r) (r_flags r)
    (g (r_title r)) (g (r_username r)) (g (r_password r)) (g (r_notes r))
    (map g (r_urls r)) (map g (r_tags r)) (map (field_map g) (r_fields r)).

Record pv_vault := mk_vault {
  v_arena : pv_arena;
  v_vault_id : list Z;
  v_device_id : list Z;
  v_generation : Z;
  v_created_ms : Z;
  v_updated_ms : Z;
  v_records : list (pv_record pv_slice);
  v_record_capacity : Z;
  v_vmk : option (list Z);
  v_source_hash : list Z;
  v_dirty : bool;
  v_path : list Z
}.

Definition vault_zero : pv_vault :=
  mk_vault arena_zero (zeros PV_VAULT_ID_BYTES) (zeros PV_DEVICE_ID_BYTES) 0 0 0 [] 0 None
    (zeros crypto_generichash_BYTES) false [].

Definition v_record_count (v : pv_vault) : Z := zlen (v_records v).

(** The record of the vault as its arena shows it. *)
Definition record_view (v : pv_vault) (r : pv_record pv_slice) : pv_record pv_view :=
  record_map (slice_view (a_mem (v_arena v))) r.

(** Sizes and alignments of the structures on the LP64 ABI of the target. *)
Definition sizeof_pv_slice : Z := 16.
Definition sizeof_pv_custom_field : Z := 40.
Definition sizeof_pv_record : Z := 160.
Definition alignof_ptr : Z := 8.

Definition PV_INITIAL_RECORD_CAPACITY : Z := 16.

(** Updates of single members of the vault. *)
Definition set_arena (v : pv_vault) (a : pv_arena) : pv_vault :=
  mk_vault a (v_vault_id v) (v_device_id v) (v_generation v) (v_created_ms v) (v_updated_ms v)
    (v_records v) (v_record_capacity v) (v_vmk v) (v_source_hash v) (v_dirty v) (v_path v).
Definition set_records (v : pv_vault) (rs : list (pv_record pv_slice)) (capacity : Z) : pv_vault :=
  mk_vault (v_arena v) (v_vault_id v) (v_device_id v) (v_generation v) (v_created_ms v)
    (v_updated_ms v) rs capacity (v_vmk v) (v_source_hash v) (v_dirty v) (v_path v).
Definition set_vmk (v : pv_vault) (vmk : option (list Z)) : pv_vault :=
  mk_vault (v_arena v) (v_vault_id v) (v_device_id v) (v_generation v) (v_created_ms v)
    (v_updated_ms v) (v_records v) (v_record_capacity v) vmk (v_source_hash v) (v_dirty v) (v_path v).
Definition set_dirty (v : pv_vault) (updated_ms : Z) (dirty : bool) : pv_vault :=
  mk_vault (v_arena v) (v_vault_id v) (v_device_id v) (v_generation v) (v_created_ms v)
    updated_ms (v_records v) (v_record_capacity v) (v_vmk v) (v_source_hash v) dirty (v_path v).
Definition set_times (v : pv_vault) (created_ms updated_ms : Z) (dirty : bool) : pv_vault :=
  mk_vault (v_arena v) (v_vault_id v) (v_device_id v) (v_generation v) created_ms
    updated_ms (v_records v) (v_record_capacity v) (v_vmk v) (v_source_hash v) dirty (v_path v).

(** ** Validation *)

Definition id_is_zero (id : list Z) : bool := or_all id =? 0.

Definition is_null {A} (p : option A) : bool := match p with None => true | Some _ => false end.

Definition text_slice_valid (slice : pv_view) (allow_empty : bool) : bool :=
  (negb (is_null (v_data slice)) || (v_len slice =? 0)) &&
  (allow_empty || (0 <? v_len slice)) && pv_utf8_valid slice.

(** The loops over [urls] and [tags]. *)
Fixpoint validate_texts (max_len : Z) (l : list pv_view) : pv_status :=
  match l with
  | [] => PV_OK
  | s :: l' =>
      if max_len <? v_len s then PV_ERR_LIMIT
      else if negb (text_slice_valid s true) then PV_ERR_FORMAT
      else validate_texts max_len l'
  end.

(** The loop over [fields]. *)
Fixpoint validate_fields (l : list (pv_custom_field pv_view)) : pv_status :=
  match l with
  | [] => PV_OK
  | field :: l' =>
      if (PV_MAX_FIELD_NAME <? v_len (f_name field)) || (PV_MAX_FIELD_VALUE <? v_len (f_value field))
      then PV_ERR_LIMIT
      else if negb (text_slice_valid (f_name field) false) ||
              (is_null (v_data (f_value field)) && negb (v_len (f_value field) =? 0)) ||
              negb (Z.land (f_flags field) (Z.lnot PV_FIELD_SECRET) =? 0)
      then PV_ERR_FORMAT
      else validate_fields l'
  end.

Definition validate_record_fields (record : pv_record pv_view) : pv_status :=
  if (PV_MAX_TITLE <? v_len (r_title record)) || (PV_MAX_USERNAME <? v_len (r_username record)) ||
     (PV_MAX_PASSWORD <? v_len (r_password record)) || (PV_MAX_NOTES <? v_len (r_notes record)) ||
     (PV_MAX_COLLECTION_ITEMS <? zlen (r_urls record)) ||
     (PV_MAX_COLLECTION_ITEMS <? zlen (r_tags record)) ||
     (PV_MAX_COLLECTION_ITEMS <? zlen (r_fields record))
  then PV_ERR_LIMIT else
  if (r_created_ms record <? 0) || (r_updated_ms record <? 0) ||
     negb (Z.land (r_flags record) (Z.lnot (Z.lor PV_RECORD_DELETED PV_RECORD_FAVORITE)) =? 0) ||
     negb (text_slice_valid (r_title record) false) ||
     negb (text_slice_valid (r_username record) true) ||
     (is_null (v_data (r_password record)) && negb (v_len (r_password record) =? 0)) ||
     negb (text_slice_valid (r_notes record) true)
  then PV_ERR_FORMAT else
  let status := validate_texts PV_MAX_URL (r_urls record) in
  if negb (is_ok status) then status else
  let status := validate_texts PV_MAX_TAG (r_tags record) in
  if negb (is_ok status) then status else
  validate_fields (r_fields record).

Definition pv_model_validate_record (record : pv_record pv_view) : pv_status :=
  let status := validate_record_fields record in
  if negb (is_ok status) then status
  else if (r_revision record =? 0) || id_is_zero (r_id record) then PV_ERR_FORMAT
  else PV_OK.

(** ** Initialisation and destruction *)

Definition pv_model_destroy (vault : pv_vault) : M pv_vault :=
  _ ← (match v_vmk vault with Some _ => sodium_free MASTER_KEY | None => mret tt end);
  _ ← pv_arena_destroy (v_arena vault);
  mret vault_zero.

Definition pv_model_init (vault : pv_vault) (path : list Z) : M (pv_status * pv_vault) :=
  if PATH_MAX <=? zlen path then mret (PV_ERR_USAGE, vault) else
  r ← pv_arena_init (v_arena vault_zero) PV_ARENA_CAPACITY;
  let vault := set_arena vault_zero (snd r) in
  if negb (is_ok (fst r)) then mret (fst r, vault) else
  ok ← sodium_malloc;
  if negb ok then a ← pv_arena_destroy (v_arena vault); mret (PV_ERR_NOMEM, set_arena vault a) else
  locked ← sodium_mlock;
  if negb locked then
    _ ← sodium_free MASTER_KEY;
    a ← pv_arena_destroy (v_arena vault); mret (PV_ERR_SECURE_MEMORY, set_arena vault a)
  else
  let vmk := Some (zeros PV_WRAP_KEY_BYTES) in
  match pv_arena_alloc (v_arena vault) (PV_INITIAL_RECORD_CAPACITY * sizeof_pv_record) alignof_ptr with
  | (None, a) => v ← pv_model_destroy (set_vmk (set_arena vault a) vmk); mret (PV_ERR_LIMIT, v)
  | (Some _, a) =>
      mret (PV_OK, mk_vault a (v_vault_id vault) (v_device_id vault) 0 0 0 []
                     PV_INITIAL_RECORD_CAPACITY vmk (v_source_hash vault) false path)
  end.

(** ** Adding records *)

Definition ensure_record_capacity (vault : pv_vault) : pv_status * pv_vault :=
  if v_record_count vault <? v_record_capacity vault then (PV_OK, vault) else
  if SIZE_MAX / 2 <=? v_record_capacity vault then (PV_ERR_LIMIT, vault) else
  let new_capacity := v_record_capacity vault * 2 in
  match pv_size_mul new_capacity sizeof_pv_record with
  | None => (PV_ERR_LIMIT, vault)
  | Some bytes =>
      match pv_arena_alloc (v_arena vault) bytes alignof_ptr with
      | (None, a) => (PV_ERR_LIMIT, set_arena vault a)
      | (Some _, a) => (PV_OK, set_records (set_arena vault a) (v_records vault) new_capacity)
      end
  end.

(** The loop of [copy_slices] over the freshly allocated [items]. *)
Fixpoint copy_slices_loop (arena : pv_arena) (source : list pv_view) (max_len : Z)
  : pv_status * list pv_slice * pv_arena :=
  match source with
  | [] => (PV_OK, [], arena)
  | s :: source' =>
      match pv_arena_copy arena (mk_slice None 0) (v_data s) (v_len s) max_len with
      | (PV_OK, item, arena') =>
          match copy_slices_loop arena' source' max_len with
          | (status, items, arena'') => (status, item :: items, arena'')
          end
      | (status, _, arena') => (status, [], arena')
      end
  end.

Definition copy_slices (arena : pv_arena) (source : list pv_view) (max_len : Z)
  : pv_status * list pv_slice * pv_arena :=
  let count := zlen source in
  if count =? 0 then (PV_OK, [], arena) else
  if PV_MAX_COLLECTION_ITEMS <? count then (PV_ERR_LIMIT, [], arena) else
  match pv_arena_alloc arena (count * sizeof_pv_slice) alignof_ptr with
  | (None, arena') => (PV_ERR_LIMIT, [], arena')
  | (Some _, arena') => copy_slices_loop arena' source max_len
  end.

Fixpoint copy_fields_loop (arena : pv_arena) (source : list (pv_custom_field pv_view))
  : pv_status * list (pv_custom_field pv_slice) * pv_arena :=
  match source with
  | [] => (PV_OK, [], arena)
  | f :: source' =>
      match pv_arena_copy arena (mk_slice None 0) (v_data (f_name f)) (v_len (f_name f))
              PV_MAX_FIELD_NAME with
      | (PV_OK, name, arena1) =>
          match pv_arena_copy arena1 (mk_slice None 0) (v_data (f_value f)) (v_len (f_value f))
                  PV_MAX_FIELD_VALUE with
          | (PV_OK, value, arena2) =>
              match copy_fields_loop arena2 source' with
              | (status, items, arena3) =>
                  (status, mk_field name value (f_flags f) :: items, arena3)
              end
          | (status, _, arena2) => (status, [], arena2)
          end
      | (status, _, arena1) => (status, [], arena1)
      end
  end.

Definition copy_fields (arena : pv_arena) (source : list (pv_custom_field pv_view))
  : pv_status * list (pv_custom_field pv_slice) * pv_arena :=
  let count := zlen source in
  if count =? 0 then (PV_OK, [], arena) else
  if PV_MAX_COLLECTION_ITEMS <? count then (PV_ERR_LIMIT, [], arena) else
  match pv_arena_alloc arena (count * sizeof_pv_custom_field) alignof_ptr with
  | (None, arena') => (PV_ERR_LIMIT, [], arena')
  | (Some _, arena') => copy_fields_loop arena' source
  end.

(** The index of the first record with this identifier. *)
Fixpoint find_id_loop (i : nat) (records : list (pv_record pv_slice)) (id : list Z) : option nat :=
  match records with
  | [] => None
  | r :: records' => if bytes_eqb (r_id r) id then Some i else find_id_loop (S i) records' id
  end.

Definition pv_model_find_id (vault : pv_vault) (id : list Z) : option nat :=
  find_id_loop 0 (v_records vault) id.

(** The [do ... while] loop that draws a fresh identifier: [None] when [fuel]
    draws were all zero or in use. *)
Fixpoint random_id (fuel : nat) (vault : pv_vault) : M (option (list Z)) :=
  match fuel with
  | O => mret None
  | S fuel' =>
      id ← randombytes_buf PV_RECORD_ID_BYTES;
      if id_is_zero id || negb (is_null (pv_model_find_id vault id))
      then random_id fuel' vault else mret (Some id)
  end.

(** [status = copy(...); if (status != PV_OK) return status;] and the rest. *)
Definition copy_then {X R} (copied : pv_status * X * pv_arena)
    (rest : X -> pv_arena -> pv_status * option R * pv_arena) : pv_status * option R * pv_arena :=
  match copied with
  | (status, x, arena) => if negb (is_ok status) then (status, None, arena) else rest x arena
  end.

Definition copy_text_to (arena : pv_arena) (text : pv_view) (max_len : Z)
  : pv_status * pv_slice * pv_arena :=
  pv_arena_copy arena (mk_slice None 0) (v_data text) (v_len text) max_len.

(** From the copy of the title on: the texts, then the arrays; the status, the
    complete record and the arena. *)
Definition copy_record (arena : pv_arena) (id : list Z) (now : Z) (source : pv_record pv_view)
  : pv_status * option (pv_record pv_slice) * pv_arena :=
  copy_then (copy_text_to arena (r_title source) PV_MAX_TITLE) (fun title arena =>
  if s_len title =? 0 then (PV_ERR_USAGE, None, arena) else
  copy_then (copy_text_to arena (r_username source) PV_MAX_USERNAME) (fun username arena =>
  copy_then (copy_text_to arena (r_password source) PV_MAX_PASSWORD) (fun password arena =>
  copy_then (copy_text_to arena (r_notes source) PV_MAX_NOTES) (fun notes arena =>
  copy_then (copy_slices arena (r_urls source) PV_MAX_URL) (fun urls arena =>
  copy_then (copy_slices arena (r_tags source) PV_MAX_TAG) (fun tags arena =>
  copy_then (copy_fields arena (r_fields source)) (fun fields arena =>
  (PV_OK,
   Some (mk_record id
     (if r_revision source =? 0 then 1 else r_revision source)
     (if (r_revision source =? 0) && (r_created_ms source =? 0) then now else r_created_ms source)
     (if (r_revision source =? 0) && (r_updated_ms source =? 0) then now else r_updated_ms source)
     (r_flags source) title username password notes urls tags fields),
   arena)))))))).

(** [None] when the identifier loop did not finish within [fuel] draws. *)
Definition pv_model_add_record (fuel : nat) (vault : pv_vault) (source : pv_record pv_view)
  : M (option (pv_status * pv_vault)) :=
  now ← now_ms;
  let status := validate_record_fields source in
  if negb (is_ok status) then mret (Some (status, vault)) else
  if negb (r_revision source =? 0) && id_is_zero (r_id source)
  then mret (Some (PV_ERR_FORMAT, vault)) else
  rw ← (if a_readonly (v_arena vault) then pv_arena_set_readwrite (v_arena vault)
        else mret (PV_OK, v_arena vault));
  let vault := set_arena vault (snd rw) in
  if negb (is_ok (fst rw)) then mret (Some (fst rw, vault)) else
  match ensure_record_capacity vault with
  | (status, vault) =>
  if negb (is_ok status) then mret (Some (status, vault)) else
  chosen ← (if id_is_zero (r_id source) then random_id fuel vault
            else mret (Some (r_id source)));
  match chosen with
  | None => mret None
  | Some id =>
  if negb (id_is_zero (r_id source)) && negb (is_null (pv_model_find_id vault id))
  then mret (Some (PV_ERR_EXISTS, vault)) else
  match copy_record (v_arena vault) id now source with
  | (status, Some record, a) =>
      let vault := set_arena vault a in
      mret (Some (status, set_dirty
        (set_records vault (v_records vault ++ [record]) (v_record_capacity vault)) now true))
  | (status, None, a) => mret (Some (status, set_arena vault a))
  end
  end
  end.

(** ** Searching *)

Definition record_matches (record : pv_record pv_view) (query : list Z) : bool :=
  pv_slice_contains_cstr (r_title record) (Some query) true ||
  pv_slice_contains_cstr (r_username record) (Some query) true ||
  existsb (fun u => pv_slice_contains_cstr u (Some query) true) (r_urls record) ||
  existsb (fun t => pv_slice_contains_cstr t (Some query) true) (r_tags record).

Definition is_deleted {S} (record : pv_record S) : bool :=
  negb (Z.land (r_flags record) PV_RECORD_DELETED =? 0).

(** The scan over the records from index [i] on. *)
Fixpoint find_scan (vault : pv_vault) (query : list Z) (i : nat)
    (records : list (pv_record pv_slice)) (first : option nat) (count : Z) : option nat * Z :=
  match records with
  | [] => (first, count)
  | record :: records' =>
      if is_deleted record || negb (record_matches (record_view vault record) query)
      then find_scan vault query (S i) records' first count
      else find_scan vault query (S i) records'
             (match first with None => Some i | Some _ => first end) (count + 1)
  end.

(** The record returned and the value stored in [*matches]. *)
Definition pv_model_find (vault : pv_vault) (query : option (list Z)) : option nat * Z :=
  match query with
  | None | Some [] => (None, 0)
  | Some query =>
      let by_id :=
        match pv_hex_decode query PV_RECORD_ID_BYTES with
        | None => None
        | Some id => pv_model_find_id vault id
        end in
      match by_id with
      | Some i =>
          match v_records vault !! i with
          | Some r =>
              if negb (is_deleted r) then (Some i, 1)
              else find_scan vault query 0 (v_records vault) (Some i) 0
          | None => (None, 0)
          end
      | None => find_scan vault query 0 (v_records vault) None 0
      end
  end.

(** ** Deleting *)

(** [sodium_memzero(slice.data, slice.len)]. *)
Definition wipe_slice (mem : list Z) (s : pv_slice) : list Z :=
  match s_data s with
  | None => mem
  | Some off => zwrite mem off (zeros (s_len s))
  end.

Definition wipe_slices (mem : list Z) (l : list pv_slice) : list Z := fold_left wipe_slice l mem.

(** The slices [pv_model_delete] clears, in its order. *)
Definition wiped_slices {S} (r : pv_record S) : list S :=
  r_username r :: r_password r :: r_notes r ::
  r_urls r ++ r_tags r ++ concat (map (fun f => [f_name f; f_value f]) (r_fields r)).

Definition tombstone (r : pv_record pv_slice) (now : Z) : pv_record pv_slice :=
  mk_record (r_id r) (r_revision r + 1) (r_created_ms r) now
    (Z.lor (r_flags r) PV_RECORD_DELETED)
    (r_title r) (mk_slice None 0) (mk_slice None 0) (mk_slice None 0) [] [] [].

(** [record] is the index of the record; the second component is the vault. *)
Definition pv_model_delete (vault : pv_vault) (record : option nat) : M (pv_status * pv_vault) :=
  match record with
  | None => mret (PV_ERR_USAGE, vault)
  | Some i =>
  match v_records vault !! i with
  | None => mret (PV_ERR_USAGE, vault)
  | Some r =>
  if is_deleted r then mret (PV_ERR_USAGE, vault) else
  if r_revision r =? UINT64_MAX then mret (PV_ERR_LIMIT, vault) else
  rw ← (if a_readonly (v_arena vault) then pv_arena_set_readwrite (v_arena vault)
        else mret (PV_OK, v_arena vault));
  let vault := set_arena vault (snd rw) in
  if negb (is_ok (fst rw)) then mret (fst rw, vault) else
  let a := v_arena vault in
  let a := mk_arena (a_base a) (a_capacity a) (a_used a) (a_readonly a)
             (wipe_slices (a_mem a) (wiped_slices r)) in
  now ← now_ms;
  mret (PV_OK, set_dirty
    (set_records (set_arena vault a) (<[i := tombstone r now]> (v_records vault))
       (v_record_capacity vault)) now true)
  end
  end.

(** ** Cloning *)

Fixpoint clone_loop (fuel : nat) (destination source : pv_vault)
    (records : list (pv_record pv_slice)) : M (option (pv_status * pv_vault)) :=
  match records with
  | [] => mret (Some (PV_OK, destination))
  | r :: records' =>
      added ← pv_model_add_record fuel destination (record_view source r);
      match added with
      | None => mret None
      | Some (status, destination) =>
          if negb (is_ok status) then
            v ← pv_model_destroy destination; mret (Some (status, v))
          else clone_loop fuel destination source records'
      end
  end.

Definition pv_model_clone (fuel : nat) (destination source : pv_vault)
  : M (option (pv_status * pv_vault)) :=
  r ← pv_model_init destination (v_path source);
  if negb (is_ok (fst r)) then mret (Some r) else
  let d := snd r in
  let d := mk_vault (v_arena d) (v_vault_id source) (v_device_id source) (v_generation source)
             (v_created_ms source) (v_updated_ms source) (v_records d) (v_record_capacity d)
             (v_vmk source) (v_source_hash source) (v_dirty d) (v_path d) in
  looped ← clone_loop fuel d source (v_records source);
  match looped with
  | None => mret None
  | Some (status, d) =>
      if negb (is_ok status) then mret (Some (status, d))
      else mret (Some (PV_OK, set_times d (v_created_ms source) (v_updated_ms source) (v_dirty source)))
  end.
