(* ===== verification/ModelFacts.v ===== *)
(** * Properties of the in-memory vault

    The invariant of [pv_vault], that the operations of [Model] preserve it,
    and what each of them does to the contents of the vault. *)

From S2P Require Import Prelude Status Util Sys Arena Model.

(** ** Contents *)

(** A pointer and length the caller may legally pass: the bytes are there. *)
Definition view_ok (v : pv_view) : Prop :=
  0 <= v_len v /\ forall l, v_data v = Some l -> is_bytes l /\ v_len v <= zlen l.

(** The bytes a slice denotes. *)
Definition content (a : pv_arena) (s : pv_slice) : list Z := v_bytes (slice_view (a_mem a) s).

(** Every slice of a record, in the order [pv_model_add_record] copies them. *)
Definition record_slices {S} (r : pv_record S) : list S := r_title r :: wiped_slices r.

(** The contents of a vault: its records as byte strings. *)
Definition record_contents (a : pv_arena) (r : pv_record pv_slice) : pv_record (list Z) :=
  record_map (content a) r.
Definition contents (v : pv_vault) : list (pv_record (list Z)) :=
  map (record_contents (v_arena v)) (v_records v).

Definition slice_disjoint (s t : pv_slice) : Prop :=
  match s_data s, s_data t with
  | Some o, Some p => o + s_len s <= p \/ p + s_len t <= o
  | _, _ => True
  end.

Definition slice_above (n : Z) (s : pv_slice) : Prop :=
  match s_data s with Some off => n <= off | None => True end.

(** [ss] were allocated between the states [a] and [a'] of the arena. *)
Record region (a a' : pv_arena) (ss : list pv_slice) : Prop := {
  rg_ok : Forall (slice_ok (a_used a')) ss;
  rg_above : Forall (slice_above (a_used a)) ss;
  rg_disjoint : ForallOrdPairs slice_disjoint ss
}.

(** ** Lemmas: regions *)

Lemma ForallOrdPairs_app {A} (R : A -> A -> Prop) l k :
  ForallOrdPairs R l -> ForallOrdPairs R k -> Forall (fun x => Forall (R x) k) l ->
  ForallOrdPairs R (l ++ k).
Proof.
  induction 1 as [|x l Hx Hl IH]; intros Hk Hlk; simpl; [done |].
  apply Forall_cons_iff in Hlk as [Hxk Hlk]. constructor; [| auto]. by apply Forall_app_2.
Qed.

Lemma slice_ok_above_disjoint n u s t :
  slice_ok n s -> slice_above n t -> slice_ok u t -> slice_disjoint s t.
Proof.
  unfold slice_ok, slice_above, slice_disjoint. destruct (s_data s), (s_data t); lia.
Qed.

Lemma Forall_slice_ok_mono u u' ss : u <= u' -> Forall (slice_ok u) ss -> Forall (slice_ok u') ss.
Proof. intros ?. apply Forall_impl. intros. by eapply slice_ok_mono. Qed.

Lemma Forall_slice_above_mono u u' ss :
  u' <= u -> Forall (slice_above u) ss -> Forall (slice_above u') ss.
Proof. intros ?. apply Forall_impl. unfold slice_above. intros s. destruct (s_data s); lia. Qed.

Lemma Forall_cross_disjoint n u ss ts :
  Forall (slice_ok n) ss -> Forall (slice_above n) ts -> Forall (slice_ok u) ts ->
  Forall (fun s => Forall (slice_disjoint s) ts) ss.
Proof.
  intros Hs Ha Ht. eapply Forall_impl; [| exact Hs]. intros s Hs'.
  rewrite Forall_forall in Ha, Ht |- *. intros t Hin.
  eapply slice_ok_above_disjoint; eauto.
Qed.

Lemma region_nil a a' : region a a' [].
Proof. repeat constructor. Qed.

Lemma region_app a b c ss ts :
  a_used a <= a_used b -> a_used b <= a_used c ->
  region a b ss -> region b c ts -> region a c (ss ++ ts).
Proof.
  intros Hab Hbc [Hs1 Hs2 Hs3] [Ht1 Ht2 Ht3]. constructor.
  - apply Forall_app_2; [by eapply Forall_slice_ok_mono | done].
  - apply Forall_app_2; [done | by eapply Forall_slice_above_mono].
  - apply ForallOrdPairs_app; auto. by eapply Forall_cross_disjoint.
Qed.

Lemma region_weaken a b c ss : a_used a <= a_used b -> region b c ss -> region a c ss.
Proof. intros ? [? ? ?]. constructor; auto. by eapply Forall_slice_above_mono. Qed.

Lemma content_ext a a' s :
  arena_wf a -> arena_ext a a' -> slice_ok (a_used a) s -> content a' s = content a s.
Proof. intros. unfold content. by erewrite slice_view_ext. Qed.

Lemma map_content_ext a a' ss :
  arena_wf a -> arena_ext a a' -> Forall (slice_ok (a_used a)) ss ->
  map (content a') ss = map (content a) ss.
Proof.
  intros Hwf Hext Hok. apply map_ext_Forall. eapply Forall_impl; [| exact Hok].
  intros. by apply content_ext.
Qed.

(** ** Lemmas: copying texts *)

Lemma copy_text a out v max_len st s a' :
  arena_wf a -> view_ok v -> max_len < SIZE_MAX ->
  pv_arena_copy a out (v_data v) (v_len v) max_len = (st, s, a') ->
  arena_ext a a' /\
  (st = PV_OK -> region a a' [s] /\ content a' s = v_bytes v /\ s_len s = v_len v /\ v_len v <= max_len).
Proof.
  intros Hwf [Hlen Hv] Hmax H. destruct (v_data v) as [l|] eqn:Hd.
  - destruct (Hv l eq_refl) as [Hb Hl]. split; [by eapply arena_copy_ext |]. intros ->.
    pose proof (arena_copy_view _ _ _ _ _ _ _ Hwf Hlen Hmax Hl H) as (Hok & Hsl & Hc & Ho).
    split; [| split; [unfold content, v_bytes in *; by rewrite Hc, Hd | split; [done |]]].
    + constructor; repeat constructor; auto. unfold slice_above, slice_ok in *.
      destruct Ho as [Ho | ->]; [| lia]. destruct (s_data s); [lia | done].
    + rewrite arena_copy_eq in H by done. split_if_in H; [done | lia].
  - rewrite arena_copy_null in H. repeat split_if_in H; injection H as <- <- <-;
      (split; [by apply arena_ext_refl | intros; try done]).
    split; [repeat constructor; done |]. unfold content, v_bytes. rewrite Hd. simpl.
    split; [done | lia].
Qed.

Lemma copy_slices_loop_spec a vs max_len st ss a' :
  arena_wf a -> Forall view_ok vs -> max_len < SIZE_MAX ->
  copy_slices_loop a vs max_len = (st, ss, a') ->
  arena_ext a a' /\
  (st = PV_OK -> region a a' ss /\ map (content a') ss = map v_bytes vs).
Proof.
  revert a ss a'. induction vs as [|v vs IH]; intros a ss a' Hwf Hvs Hmax H; simpl in H.
  { injection H as <- <- <-. split; [by apply arena_ext_refl |]. intros _.
    split; [apply region_nil | done]. }
  apply Forall_cons_iff in Hvs as [Hv Hvs].
  destruct (pv_arena_copy a _ (v_data v) (v_len v) max_len) as [[st1 s1] a1] eqn:H1.
  destruct (copy_text _ _ _ _ _ _ _ Hwf Hv Hmax H1) as [Hext Hok1].
  destruct (decide (st1 = PV_OK)) as [-> | Hne].
  2: { destruct st1; try done; injection H as <- <- <-; by split. }
  destruct (copy_slices_loop a1 vs max_len) as [[st2 ss2] a2] eqn:H2. injection H as <- <- <-.
  destruct (IH _ _ _ (ext_wf _ _ Hext) Hvs Hmax H2) as [Hext2 Hok2].
  split; [by eapply arena_ext_trans |]. intros ->.
  destruct (Hok1 eq_refl) as (Hr1 & Hc1 & _). destruct (Hok2 eq_refl) as [Hr2 Hc2].
  split; [apply (region_app a a1 a2 [s1] ss2); auto; [apply Hext | apply Hext2] |].
  simpl. rewrite Hc2. f_equal. rewrite <- Hc1. apply content_ext; auto; [apply Hext |].
  by destruct Hr1 as [[]%Forall_cons_iff _ _].
Qed.

Lemma collection_size_bound {A} (l : list A) size :
  zlen l <= PV_MAX_COLLECTION_ITEMS -> 0 <= size <= 40 -> 0 <= zlen l * size <= SIZE_MAX.
Proof. pose proof (zlen_nonneg l). unfold PV_MAX_COLLECTION_ITEMS, SIZE_MAX. nia. Qed.

Lemma alignof_ptr_bound : 0 <= alignof_ptr <= SIZE_MAX.
Proof. unfold alignof_ptr, SIZE_MAX. lia. Qed.

Lemma copy_slices_spec a vs max_len st ss a' :
  arena_wf a -> Forall view_ok vs -> max_len < SIZE_MAX ->
  copy_slices a vs max_len = (st, ss, a') ->
  arena_ext a a' /\
  (st = PV_OK -> region a a' ss /\ map (content a') ss = map v_bytes vs).
Proof.
  intros Hwf Hvs Hmax. unfold copy_slices. destruct (Z.eqb_spec (zlen vs) 0) as [Hz |].
  { intros [= <- <- <-]. split; [by apply arena_ext_refl |]. intros _.
    destruct vs; [| exfalso; zlia]. split; [apply region_nil | done]. }
  split_if; [intros [= <- <- <-]; split; [by apply arena_ext_refl | done] |].
  pose proof (collection_size_bound vs sizeof_pv_slice ltac:(lia) ltac:(unfold sizeof_pv_slice; lia)) as Hb.
  destruct (pv_arena_alloc a _ alignof_ptr) as [[off|] a1] eqn:H1; intros H;
    pose proof (arena_alloc_ext _ _ _ _ _ Hwf Hb alignof_ptr_bound H1) as Hext.
  - destruct (copy_slices_loop_spec _ _ _ _ _ _ (ext_wf _ _ Hext) Hvs Hmax H) as [Hext2 Hok].
    split; [by eapply arena_ext_trans |]. intros ->. destruct (Hok eq_refl) as [Hr Hc].
    split; [| done]. eapply region_weaken; [apply Hext | done].
  - injection H as <- <- <-. by split.
Qed.

Lemma max_name_bound : PV_MAX_FIELD_NAME < SIZE_MAX.
Proof. by vm_compute. Qed.
Lemma max_value_bound : PV_MAX_FIELD_VALUE < SIZE_MAX.
Proof. by vm_compute. Qed.

Lemma copy_fields_loop_spec a fs st gs a' :
  arena_wf a -> Forall (fun f => view_ok (f_name f) /\ view_ok (f_value f)) fs ->
  copy_fields_loop a fs = (st, gs, a') ->
  arena_ext a a' /\
  (st = PV_OK -> region a a' (concat (map (fun f => [f_name f; f_value f]) gs)) /\
     map (field_map (content a')) gs = map (field_map v_bytes) fs).
Proof.
  revert a gs a'. induction fs as [|f fs IH]; intros a gs a' Hwf Hfs H; simpl in H.
  { injection H as <- <- <-. split; [by apply arena_ext_refl |]. intros _.
    split; [apply region_nil | done]. }
  apply Forall_cons_iff in Hfs as [[Hn Hv] Hfs].
  destruct (pv_arena_copy a _ _ _ PV_MAX_FIELD_NAME) as [[st1 s1] a1] eqn:H1.
  destruct (copy_text _ _ _ _ _ _ _ Hwf Hn max_name_bound H1) as [Hext1 Hok1].
  destruct (decide (st1 = PV_OK)) as [-> | Hne].
  2: { destruct st1; try done; injection H as <- <- <-; by split. }
  destruct (pv_arena_copy a1 _ _ _ PV_MAX_FIELD_VALUE) as [[st2 s2] a2] eqn:H2.
  destruct (copy_text _ _ _ _ _ _ _ (ext_wf _ _ Hext1) Hv max_value_bound H2) as [Hext2 Hok2].
  destruct (decide (st2 = PV_OK)) as [-> | Hne].
  2: { destruct st2; try done; injection H as <- <- <-; split; try done; by eapply arena_ext_trans. }
  destruct (copy_fields_loop a2 fs) as [[st3 gs3] a3] eqn:H3. injection H as <- <- <-.
  destruct (IH _ _ _ (ext_wf _ _ Hext2) Hfs H3) as [Hext3 Hok3].
  pose proof (arena_ext_trans _ _ _ Hext2 Hext3) as Hext23.
  split; [by eapply arena_ext_trans |]. intros ->.
  destruct (Hok1 eq_refl) as (Hr1 & Hc1 & _). destruct (Hok2 eq_refl) as (Hr2 & Hc2 & _).
  destruct (Hok3 eq_refl) as [Hr3 Hc3].
  split.
  - apply (region_app a a1 a3 [s1]); auto; [apply Hext1 | apply Hext23 |].
    apply (region_app a1 a2 a3 [s2]); auto; [apply Hext2 | apply Hext3].
  - simpl. rewrite Hc3. f_equal. unfold field_map. simpl. f_equal.
    + rewrite <- Hc1. apply content_ext; auto; [apply Hext1 |].
      by destruct Hr1 as [[]%Forall_cons_iff _ _].
    + rewrite <- Hc2. apply content_ext; auto; [apply Hext2 |].
      by destruct Hr2 as [[]%Forall_cons_iff _ _].
Qed.

Lemma copy_fields_spec a fs st gs a' :
  arena_wf a -> Forall (fun f => view_ok (f_name f) /\ view_ok (f_value f)) fs ->
  copy_fields a fs = (st, gs, a') ->
  arena_ext a a' /\
  (st = PV_OK -> region a a' (concat (map (fun f => [f_name f; f_value f]) gs)) /\
     map (field_map (content a')) gs = map (field_map v_bytes) fs).
Proof.
  intros Hwf Hvs. unfold copy_fields. destruct (Z.eqb_spec (zlen fs) 0) as [Hz |].
  { intros [= <- <- <-]. split; [by apply arena_ext_refl |]. intros _.
    destruct fs; [| exfalso; zlia]. split; [apply region_nil | done]. }
  split_if; [intros [= <- <- <-]; split; [by apply arena_ext_refl | done] |].
  pose proof (collection_size_bound fs sizeof_pv_custom_field ltac:(lia) ltac:(unfold sizeof_pv_custom_field; lia)) as Hb.
  destruct (pv_arena_alloc a _ alignof_ptr) as [[off|] a1] eqn:H1; intros H;
    pose proof (arena_alloc_ext _ _ _ _ _ Hwf Hb alignof_ptr_bound H1) as Hext.
  - destruct (copy_fields_loop_spec _ _ _ _ _ (ext_wf _ _ Hext) Hvs H) as [Hext2 Hok].
    split; [by eapply arena_ext_trans |]. intros ->. destruct (Hok eq_refl) as [Hr Hc].
    split; [| done]. eapply region_weaken; [apply Hext | done].
  - injection H as <- <- <-. by split.
Qed.

(** ** Lemmas: copying a record *)

(** The scalar members [pv_model_add_record] gives the new record. *)
Definition stamped {S} (id : list Z) (now : Z) (r : pv_record S) : pv_record S :=
  mk_record id
    (if r_revision r =? 0 then 1 else r_revision r)
    (if (r_revision r =? 0) && (r_created_ms r =? 0) then now else r_created_ms r)
    (if (r_revision r =? 0) && (r_updated_ms r =? 0) then now else r_updated_ms r)
    (r_flags r) (r_title r) (r_username r) (r_password r) (r_notes r)
    (r_urls r) (r_tags r) (r_fields r).

Definition record_ok (r : pv_record pv_view) : Prop := Forall view_ok (record_slices r).

Lemma Forall_fields {S} (P : S -> Prop) (fs : list (pv_custom_field S)) :
  Forall P (concat (map (fun f => [f_name f; f_value f]) fs)) <->
  Forall (fun f => P (f_name f) /\ P (f_value f)) fs.
Proof.
  induction fs as [|f fs IH]; simpl; [split; constructor |].
  rewrite !Forall_cons_iff, IH. tauto.
Qed.

Lemma record_slices_Forall {S} (P : S -> Prop) (r : pv_record S) :
  Forall P (record_slices r) <->
  P (r_title r) /\ P (r_username r) /\ P (r_password r) /\ P (r_notes r) /\
  Forall P (r_urls r) /\ Forall P (r_tags r) /\
  Forall (fun f => P (f_name f) /\ P (f_value f)) (r_fields r).
Proof.
  unfold record_slices, wiped_slices. rewrite !Forall_cons_iff, !Forall_app, Forall_fields. tauto.
Qed.

Lemma max_text_bounds :
  PV_MAX_TITLE < SIZE_MAX /\ PV_MAX_USERNAME < SIZE_MAX /\ PV_MAX_PASSWORD < SIZE_MAX /\
  PV_MAX_NOTES < SIZE_MAX /\ PV_MAX_URL < SIZE_MAX /\ PV_MAX_TAG < SIZE_MAX.
Proof. by vm_compute. Qed.

(** The result of a copy that started in [a]: the arena only grew, and either
    it failed or the result has the property [Q]. *)
Definition copied {R} (a : pv_arena) (Q : R -> pv_arena -> Prop)
    (res : pv_status * option R * pv_arena) : Prop :=
  let '(st, r, a') := res in
  arena_ext a a' /\ match r with Some x => st = PV_OK /\ Q x a' | None => st <> PV_OK end.

Lemma copy_then_copied {X R} a (m : pv_status * X * pv_arena) k (Q : R -> pv_arena -> Prop) :
  (let '(st, x, a1) := m in
   arena_ext a a1 /\ (st = PV_OK -> copied a1 Q (k x a1))) ->
  copied a Q (copy_then m k).
Proof.
  destruct m as [[st x] a1]. intros [Hext Hk]. unfold copy_then.
  destruct (is_ok st) eqn:E; simpl.
  - apply is_ok_true in E. specialize (Hk E). destruct (k x a1) as [[st' r] a'].
    destruct Hk as [Hext' Hr]. split; [by eapply arena_ext_trans | done].
  - split; [done | by apply is_ok_false].
Qed.

(** One text of a record: copied, then the rest. *)
Lemma copy_text_then {R} a v max_len k (Q : R -> pv_arena -> Prop) :
  arena_wf a -> view_ok v -> max_len < SIZE_MAX ->
  (forall s a1, arena_ext a a1 -> region a a1 [s] -> content a1 s = v_bytes v ->
     s_len s = v_len v -> copied a1 Q (k s a1)) ->
  copied a Q (copy_then (copy_text_to a v max_len) k).
Proof.
  intros Hwf Hv Hmax Hk. apply copy_then_copied.
  destruct (copy_text_to a v max_len) as [[st s] a1] eqn:H. unfold copy_text_to in H.
  destruct (copy_text _ _ _ _ _ _ _ Hwf Hv Hmax H) as [Hext Hok]. split; [done |].
  intros ->. destruct (Hok eq_refl) as (? & ? & ? & _). auto.
Qed.

Lemma copy_slices_then {R} a vs max_len k (Q : R -> pv_arena -> Prop) :
  arena_wf a -> Forall view_ok vs -> max_len < SIZE_MAX ->
  (forall ss a1, arena_ext a a1 -> region a a1 ss -> map (content a1) ss = map v_bytes vs ->
     copied a1 Q (k ss a1)) ->
  copied a Q (copy_then (copy_slices a vs max_len) k).
Proof.
  intros Hwf Hv Hmax Hk. apply copy_then_copied.
  destruct (copy_slices a vs max_len) as [[st s] a1] eqn:H.
  destruct (copy_slices_spec _ _ _ _ _ _ Hwf Hv Hmax H) as [Hext Hok]. split; [done |].
  intros ->. destruct (Hok eq_refl) as (? & ?). auto.
Qed.

(** Extending the arena keeps regions and contents. *)
Lemma region_contents_ext a b c ss :
  arena_ext a b -> arena_ext b c -> region a b ss -> map (content c) ss = map (content b) ss.
Proof. intros Hab Hbc [Hok _ _]. apply map_content_ext; auto. apply Hab. Qed.

Lemma region_content_ext a b c s :
  arena_ext a b -> arena_ext b c -> region a b [s] -> content c s = content b s.
Proof.
  intros Hab Hbc Hr. pose proof (region_contents_ext a b c [s] Hab Hbc Hr) as H.
  by injection H.
Qed.

Lemma region_fields_ext a b c (gs : list (pv_custom_field pv_slice)) :
  arena_ext a b -> arena_ext b c -> region a b (concat (map (fun f => [f_name f; f_value f]) gs)) ->
  map (field_map (content c)) gs = map (field_map (content b)) gs.
Proof.
  intros Hab Hbc [Hok _ _]. rewrite Forall_fields in Hok. apply map_ext_Forall.
  eapply Forall_impl; [| exact Hok]. intros f [Hn Hv]. unfold field_map.
  by rewrite !(content_ext b c) by (auto; apply Hab).
Qed.

Lemma region_cons a b c s ss :
  arena_ext a b -> arena_ext b c -> region a b [s] -> region b c ss -> region a c (s :: ss).
Proof. intros [] []. by apply (region_app a b c [s]). Qed.

Lemma copy_record_spec a id now src :
  arena_wf a -> record_ok src ->
  copied a (fun rec a' => region a a' (record_slices rec) /\
              record_contents a' rec = stamped id now (record_map v_bytes src))
    (copy_record a id now src).
Proof.
  intros Hwf Hok. unfold record_ok in Hok. rewrite record_slices_Forall in Hok.
  destruct Hok as (Vt & Vu & Vp & Vn & Vurls & Vtags & Vfields).
  destruct max_text_bounds as (Bt & Bu & Bp & Bn & Burl & Btag). unfold copy_record.
  apply copy_text_then; auto. intros t a1 E1 R1 C1 _.
  split_if; [split; [apply arena_ext_refl, E1 | done] |].
  apply copy_text_then; auto; [apply E1 |]. intros u a2 E2 R2 C2 _.
  apply copy_text_then; auto; [apply E2 |]. intros p a3 E3 R3 C3 _.
  apply copy_text_then; auto; [apply E3 |]. intros n a4 E4 R4 C4 _.
  apply copy_slices_then; auto; [apply E4 |]. intros us a5 E5 R5 C5.
  apply copy_slices_then; auto; [apply E5 |]. intros ts a6 E6 R6 C6.
  apply copy_then_copied. destruct (copy_fields a6 (r_fields src)) as [[st gs] a7] eqn:H.
  destruct (copy_fields_spec _ _ _ _ _ (ext_wf _ _ E6) Vfields H) as [E7 Hf]. split; [done |].
  intros ->. destruct (Hf eq_refl) as [R7 C7]. split; [apply arena_ext_refl, E7 |]. split; [done |].
  pose proof (arena_ext_trans _ _ _ E6 E7) as E67. pose proof (arena_ext_trans _ _ _ E5 E67) as E57.
  pose proof (arena_ext_trans _ _ _ E4 E57) as E47. pose proof (arena_ext_trans _ _ _ E3 E47) as E37.
  pose proof (arena_ext_trans _ _ _ E2 E37) as E27. split.
  - unfold record_slices, wiped_slices. simpl.
    apply (region_cons a a1 a7); auto. apply (region_cons a1 a2 a7); auto.
    apply (region_cons a2 a3 a7); auto. apply (region_cons a3 a4 a7); auto.
    apply (region_app a4 a5 a7); [apply E5 | apply E67 | done |].
    apply (region_app a5 a6 a7); [apply E6 | apply E7 | done | done].
  - unfold record_contents, stamped, record_map. simpl. rewrite C7.
    rewrite (region_contents_ext a5 a6 a7 ts), (region_contents_ext a4 a5 a7 us) by done.
    rewrite (region_content_ext a a1 a7 t), (region_content_ext a1 a2 a7 u),
      (region_content_ext a2 a3 a7 p), (region_content_ext a3 a4 a7 n) by done.
    by rewrite C1, C2, C3, C4, C5, C6.
Qed.

(** ** Lemmas: validation depends on the contents only *)

(** A view whose length is that of the bytes it denotes (so [NULL] is empty). *)
Definition exact_view (v : pv_view) : Prop := v_len v = zlen (v_bytes v).

Lemma text_slice_valid_exact v b :
  exact_view v -> text_slice_valid v b = text_slice_valid (view_of (v_bytes v)) b.
Proof.
  unfold exact_view, text_slice_valid, pv_utf8_valid. rewrite v_bytes_view_of. intros H.
  change (v_len (view_of (v_bytes v))) with (zlen (v_bytes v)). rewrite <- H.
  unfold v_bytes in *. destruct (v_data v); simpl; [done |]. rewrite zlen_nil in H. by rewrite H.
Qed.

Lemma null_len_exact v :
  exact_view v -> is_null (v_data v) && negb (v_len v =? 0) = false.
Proof.
  unfold exact_view, v_bytes. destruct (v_data v); simpl; [done |]. rewrite zlen_nil. by intros ->.
Qed.

Lemma validate_texts_exact max_len l :
  Forall exact_view l -> validate_texts max_len l = validate_texts max_len (map view_of (map v_bytes l)).
Proof.
  induction 1 as [|v l Hv _ IH]; simpl; [done |].
  rewrite <- IH, text_slice_valid_exact, Hv by done. done.
Qed.

Lemma validate_fields_exact l :
  Forall (fun f => exact_view (f_name f) /\ exact_view (f_value f)) l ->
  validate_fields l = validate_fields (map (field_map view_of) (map (field_map v_bytes) l)).
Proof.
  induction 1 as [|f l [Hn Hv] _ IH]; simpl; [done |].
  rewrite <- IH, text_slice_valid_exact, null_len_exact, Hn, Hv by done. done.
Qed.

Lemma validate_record_exact r :
  Forall exact_view (record_slices r) ->
  validate_record_fields r = validate_record_fields (record_map view_of (record_map v_bytes r)).
Proof.
  rewrite record_slices_Forall. intros (Ht & Hu & Hp & Hn & Hurls & Htags & Hf).
  unfold validate_record_fields. simpl. rewrite !zlen_map.
  rewrite <- validate_texts_exact, <- validate_texts_exact, <- validate_fields_exact by done.
  rewrite (text_slice_valid_exact (r_title r)), (text_slice_valid_exact (r_username r)),
    (text_slice_valid_exact (r_notes r)), (null_len_exact (r_password r)) by done.
  by rewrite Ht, Hu, Hp, Hn.
Qed.

(** Validation accepts only exact views. *)
Lemma view_ok_exact v :
  view_ok v -> is_null (v_data v) && negb (v_len v =? 0) = false -> exact_view v.
Proof.
  unfold view_ok, exact_view, v_bytes. intros [Hl Hv] Hn. destruct (v_data v) as [l|]; simpl in *.
  - destruct (Hv l eq_refl) as [_ Hz]. unfold zlen in *. rewrite length_take. lia.
  - rewrite zlen_nil. lia.
Qed.

Lemma text_slice_valid_nonnull v b :
  text_slice_valid v b = true -> is_null (v_data v) && negb (v_len v =? 0) = false.
Proof. unfold text_slice_valid. destruct (v_data v); simpl; [done |]. destruct (v_len v =? 0); done. Qed.

Lemma validate_texts_ok max_len l :
  validate_texts max_len l = PV_OK ->
  Forall (fun v => v_len v <= max_len /\ text_slice_valid v true = true) l.
Proof.
  induction l as [|v l IH]; simpl; intros H; constructor.
  - repeat split_if_in H; try done. split; [lia |]. by destruct (text_slice_valid v true).
  - repeat split_if_in H; try done. auto.
Qed.

Lemma validate_fields_ok l :
  validate_fields l = PV_OK ->
  Forall (fun f => v_len (f_name f) <= PV_MAX_FIELD_NAME /\ v_len (f_value f) <= PV_MAX_FIELD_VALUE /\
    text_slice_valid (f_name f) false = true /\
    is_null (v_data (f_value f)) && negb (v_len (f_value f) =? 0) = false /\
    Z.land (f_flags f) (Z.lnot PV_FIELD_SECRET) = 0) l.
Proof.
  induction l as [|f l IH]; simpl; intros H; constructor.
  - repeat split_if_in H; try done. destruct (text_slice_valid (f_name f) false); [| done].
    destruct (is_null _ && _); [done |]. simpl in *. lia.
  - repeat split_if_in H; try done. auto.
Qed.

Lemma negb_is_ok_false s : negb (is_ok s) = false -> s = PV_OK.
Proof. destruct s; done. Qed.

(** What [validate_record_fields] guarantees. *)
Lemma validate_record_ok r :
  validate_record_fields r = PV_OK ->
  v_len (r_title r) <= PV_MAX_TITLE /\ v_len (r_username r) <= PV_MAX_USERNAME /\
  v_len (r_password r) <= PV_MAX_PASSWORD /\ v_len (r_notes r) <= PV_MAX_NOTES /\
  zlen (r_urls r) <= PV_MAX_COLLECTION_ITEMS /\ zlen (r_tags r) <= PV_MAX_COLLECTION_ITEMS /\
  zlen (r_fields r) <= PV_MAX_COLLECTION_ITEMS /\
  0 <= r_created_ms r /\ 0 <= r_updated_ms r /\
  Z.land (r_flags r) (Z.lnot (Z.lor PV_RECORD_DELETED PV_RECORD_FAVORITE)) = 0 /\
  text_slice_valid (r_title r) false = true /\ text_slice_valid (r_username r) true = true /\
  is_null (v_data (r_password r)) && negb (v_len (r_password r) =? 0) = false /\
  text_slice_valid (r_notes r) true = true /\
  validate_texts PV_MAX_URL (r_urls r) = PV_OK /\ validate_texts PV_MAX_TAG (r_tags r) = PV_OK /\
  validate_fields (r_fields r) = PV_OK.
Proof.
  unfold validate_record_fields. cbv zeta. intros H. do 2 (split_if_in H; [done |]).
  destruct (negb (is_ok (validate_texts PV_MAX_URL (r_urls r)))) eqn:E1; [by rewrite H in E1 |].
  destruct (negb (is_ok (validate_texts PV_MAX_TAG (r_tags r)))) eqn:E2; [by rewrite H in E2 |].
  apply negb_is_ok_false in E1, E2. rewrite !orb_false_iff, !negb_false_iff in *.
  destruct_and!. split_and!; auto; lia.
Qed.

Lemma validated_exact r :
  record_ok r -> validate_record_fields r = PV_OK -> Forall exact_view (record_slices r).
Proof.
  unfold record_ok. rewrite !record_slices_Forall. intros (Ht & Hu & Hp & Hn & Hurls & Htags & Hf) H.
  apply validate_record_ok in H as (_ & _ & _ & _ & _ & _ & _ & _ & _ & _ & Vt & Vu & Vp & Vn & Vurls & Vtags & Vf).
  apply validate_texts_ok in Vurls, Vtags. apply validate_fields_ok in Vf.
  split_and!; try (apply view_ok_exact; eauto using text_slice_valid_nonnull).
  - rewrite Forall_forall in *. intros v Hin. apply view_ok_exact; [auto |].
    eapply text_slice_valid_nonnull, (Vurls v Hin).
  - rewrite Forall_forall in *. intros v Hin. apply view_ok_exact; [auto |].
    eapply text_slice_valid_nonnull, (Vtags v Hin).
  - rewrite Forall_forall in *. intros f Hin. destruct (Hf f Hin), (Vf f Hin) as (_ & _ & Hname & Hval & _).
    split; apply view_ok_exact; auto. by eapply text_slice_valid_nonnull.
Qed.

Lemma slice_view_exact u mem s :
  slice_ok u s -> u <= zlen mem -> exact_view (slice_view mem s).
Proof.
  unfold slice_ok, exact_view, v_bytes, slice_view. intros H Hu. destruct (s_data s) as [off|]; simpl.
  - pose proof (zlen_zsub mem off (s_len s)) as Hz. unfold zlen in *. rewrite length_take. lia.
  - by rewrite zlen_nil.
Qed.

(** ** The space a record takes in an arena *)

Definition text_end (n : Z) (c : list Z) : Z := if zlen c =? 0 then n else n + zlen c + 1.
Definition texts_end (n : Z) (cs : list (list Z)) : Z := fold_left text_end cs n.
Definition array_end (n count size : Z) : Z :=
  if count =? 0 then n else round_up n alignof_ptr + count * size.
Definition fields_end (n : Z) (fs : list (pv_custom_field (list Z))) : Z :=
  texts_end n (concat (map (fun f => [f_name f; f_value f]) fs)).

(** The value of [used] after copying [c] into an arena that has [n] bytes in use. *)
Definition record_end (n : Z) (c : pv_record (list Z)) : Z :=
  let n := texts_end n [r_title c; r_username c; r_password c; r_notes c] in
  let n := texts_end (array_end n (zlen (r_urls c)) sizeof_pv_slice) (r_urls c) in
  let n := texts_end (array_end n (zlen (r_tags c)) sizeof_pv_slice) (r_tags c) in
  fields_end (array_end n (zlen (r_fields c)) sizeof_pv_custom_field) (r_fields c).

Lemma text_end_ge n c : n <= text_end n c.
Proof. unfold text_end. split_if; zlia. Qed.

Lemma texts_end_ge n cs : n <= texts_end n cs.
Proof.
  revert n. induction cs as [|c cs IH]; intros n; simpl; [done |].
  etrans; [apply (text_end_ge n c) | apply IH].
Qed.

Lemma array_end_ge n count size : 0 <= count -> 0 <= size -> n <= array_end n count size.
Proof.
  intros. unfold array_end. split_if; [done |].
  pose proof (round_up_bounds n alignof_ptr ltac:(by vm_compute)). nia.
Qed.

Lemma round_up_mono n m a : 0 < a -> n <= m -> round_up n a <= round_up m a.
Proof. intros. unfold round_up. apply Z.mul_le_mono_nonneg_r; [lia |]. apply Z.div_le_mono; lia. Qed.

Lemma text_end_mono n m c d : n <= m -> zlen c <= zlen d -> text_end n c <= text_end m d.
Proof. intros. unfold text_end. repeat split_if; zlia. Qed.

Lemma texts_end_mono n m cs : n <= m -> texts_end n cs <= texts_end m cs.
Proof.
  revert n m. induction cs as [|c cs IH]; intros n m H; simpl; [done |].
  apply IH, text_end_mono; lia.
Qed.

Lemma array_end_mono n m count size : n <= m -> array_end n count size <= array_end m count size.
Proof.
  intros. unfold array_end. split_if; [done |].
  pose proof (round_up_mono n m alignof_ptr ltac:(by vm_compute)). lia.
Qed.

Lemma record_end_mono n m c : n <= m -> record_end n c <= record_end m c.
Proof.
  intros. unfold record_end, fields_end.
  repeat first [apply texts_end_mono | apply array_end_mono]. done.
Qed.

(** The result of a copy into [a] as a function of the space it needs: it
    succeeds exactly when the end [n] is inside the capacity. *)
Definition sized {R} (a : pv_arena) (n : Z) (res : pv_status * option R * pv_arena) : Prop :=
  let '(st, r, a') := res in
  if n <=? a_capacity a then st = PV_OK /\ r <> None /\ a_used a' = n
  else r = None /\ st <> PV_OK.

Definition sized_copy {X} (a : pv_arena) (n : Z) (res : pv_status * X * pv_arena) : Prop :=
  let '(st, _, a') := res in
  if n <=? a_capacity a then st = PV_OK /\ a_used a' = n else st <> PV_OK.

Lemma copy_then_sized {X R} a n1 n (m : pv_status * X * pv_arena)
    (k : X -> pv_arena -> pv_status * option R * pv_arena) :
  sized_copy a n1 m -> n1 <= n ->
  (forall st x a1, m = (st, x, a1) -> st = PV_OK -> a_used a1 = n1 ->
     sized a n (k x a1)) ->
  sized a n (copy_then m k).
Proof.
  destruct m as [[st x] a1]. unfold sized_copy, copy_then. intros Hm Hn Hk.
  split_if_in Hm.
  - destruct Hm as [-> Hu]. simpl. by apply (Hk PV_OK).
  - assert (is_ok st = false) as E by (by apply is_ok_false). rewrite E. simpl.
    replace (n <=? a_capacity a) with false by lia. done.
Qed.

Definition writable (a : pv_arena) : Prop := a_base a = true /\ a_readonly a = false.

Lemma writable_ext a a' : arena_ext a a' -> writable a -> writable a'.
Proof. intros [] []. split; congruence. Qed.

Lemma copy_text_sized a v max_len :
  arena_wf a -> writable a -> view_ok v -> exact_view v -> v_len v <= max_len -> max_len < SIZE_MAX ->
  sized_copy a (text_end (a_used a) (v_bytes v)) (copy_text_to a v max_len).
Proof.
  intros Hwf [Hb Hr] [Hl Hv] Hx Hle Hmax. unfold copy_text_to, text_end, exact_view in *.
  rewrite <- Hx. pose proof (wf_used a Hwf). destruct (v_data v) as [l|] eqn:Hd.
  - destruct (Hv l eq_refl) as [_ Hz]. rewrite arena_copy_eq by done.
    replace (max_len <? v_len v) with false by lia. unfold copy_fits. rewrite Hb, Hr. simpl.
    destruct (Z.eqb_spec (v_len v) 0); unfold sized_copy;
      destruct (_ <=? a_capacity a) eqn:E; try lia; done.
  - unfold v_bytes in Hx. rewrite Hd, zlen_nil in Hx. rewrite arena_copy_null, Hx.
    replace (max_len <? 0) with false by lia. simpl. unfold sized_copy.
    destruct (_ <=? a_capacity a) eqn:E; [done | lia].
Qed.

Lemma copy_slices_loop_sized a vs max_len :
  arena_wf a -> writable a -> Forall view_ok vs -> Forall exact_view vs ->
  Forall (fun v => v_len v <= max_len) vs -> max_len < SIZE_MAX ->
  sized_copy a (texts_end (a_used a) (map v_bytes vs)) (copy_slices_loop a vs max_len).
Proof.
  revert a. induction vs as [|v vs IH]; intros a Hwf Hw Hok Hx Hle Hmax; simpl.
  { pose proof (wf_used a Hwf). destruct (_ <=? a_capacity a) eqn:E; [done | lia]. }
  apply Forall_cons_iff in Hok as [Hv Hok], Hx as [Hxv Hx], Hle as [Hlv Hle].
  pose proof (copy_text_sized a v max_len Hwf Hw Hv Hxv Hlv Hmax) as H1. unfold copy_text_to in H1.
  destruct (pv_arena_copy a _ _ _ max_len) as [[st1 s1] a1] eqn:E1.
  destruct (copy_text _ _ _ _ _ _ _ Hwf Hv Hmax E1) as [Hext _].
  pose proof (texts_end_ge (text_end (a_used a) (v_bytes v)) (map v_bytes vs)) as Hge.
  unfold texts_end in Hge. simpl in H1. split_if_in H1.
  - destruct H1 as [-> Hu]. specialize (IH a1 (ext_wf _ _ Hext) (writable_ext _ _ Hext Hw) Hok Hx Hle Hmax).
    rewrite Hu in IH. destruct (copy_slices_loop a1 vs max_len) as [[st2 ss] a2]. simpl in IH |- *.
    by rewrite <- (ext_capacity _ _ Hext).
  - destruct (decide (st1 = PV_OK)); [done |].
    destruct st1; try done; unfold texts_end; simpl; (split_if; [lia | done]).
Qed.

Lemma array_alloc_sized {A} a (l : list A) size :
  arena_wf a -> writable a -> 0 < zlen l <= PV_MAX_COLLECTION_ITEMS -> 0 < size <= 40 ->
  match pv_arena_alloc a (zlen l * size) alignof_ptr with
  | (Some _, a1) => array_end (a_used a) (zlen l) size <= a_capacity a /\
                    a_used a1 = array_end (a_used a) (zlen l) size /\ arena_ext a a1
  | (None, a1) => a_capacity a < array_end (a_used a) (zlen l) size /\ a1 = a
  end.
Proof.
  intros Hwf [Hb Hr] Hl Hs. pose proof (collection_size_bound l size ltac:(lia) ltac:(lia)) as Hsz.
  destruct (pv_arena_alloc a (zlen l * size) alignof_ptr) as [r a1] eqn:E.
  pose proof (arena_alloc_ext _ _ _ _ _ Hwf Hsz alignof_ptr_bound E) as Hext.
  rewrite arena_alloc_eq in E by (auto using alignof_ptr_bound). unfold alloc_granted, array_end in *.
  rewrite Hb, Hr in E. change (Z.land alignof_ptr (alignof_ptr - 1) =? 0) with true in E.
  change (0 <? alignof_ptr) with true in E. replace (0 <? zlen l * size) with true in E by nia.
  replace (zlen l =? 0) with false by lia. simpl in E.
  split_if_in E; injection E as <- <-; simpl; split_and!; auto; lia.
Qed.

Lemma copy_slices_sized a vs max_len :
  arena_wf a -> writable a -> Forall view_ok vs -> Forall exact_view vs ->
  Forall (fun v => v_len v <= max_len) vs -> max_len < SIZE_MAX ->
  zlen vs <= PV_MAX_COLLECTION_ITEMS ->
  sized_copy a (texts_end (array_end (a_used a) (zlen vs) sizeof_pv_slice) (map v_bytes vs))
    (copy_slices a vs max_len).
Proof.
  intros Hwf Hw Hok Hx Hle Hmax Hc. pose proof (zlen_nonneg vs). unfold copy_slices.
  destruct (Z.eqb_spec (zlen vs) 0) as [Hz |].
  { destruct vs; [| exfalso; zlia]. unfold array_end. rewrite Hz. simpl.
    pose proof (wf_used a Hwf). destruct (_ <=? a_capacity a) eqn:E; [done | lia]. }
  replace (PV_MAX_COLLECTION_ITEMS <? zlen vs) with false by lia.
  pose proof (array_alloc_sized a vs sizeof_pv_slice Hwf Hw ltac:(lia) ltac:(by vm_compute)) as Ha.
  destruct (pv_arena_alloc a _ alignof_ptr) as [[off|] a1].
  - destruct Ha as (_ & Hu & Hext). rewrite <- Hu.
    pose proof (copy_slices_loop_sized a1 vs max_len (ext_wf _ _ Hext) (writable_ext _ _ Hext Hw) Hok Hx Hle Hmax) as Hs.
    unfold sized_copy in *. destruct (copy_slices_loop a1 vs max_len) as [[? ?] ?].
    by rewrite <- (ext_capacity _ _ Hext).
  - destruct Ha as [Hlt ->]. simpl. pose proof (texts_end_ge (array_end (a_used a) (zlen vs) sizeof_pv_slice) (map v_bytes vs)).
    split_if; [lia | done].
Qed.

Lemma copy_fields_loop_sized a fs :
  arena_wf a -> writable a ->
  Forall (fun f => view_ok (f_name f) /\ view_ok (f_value f)) fs ->
  Forall (fun f => exact_view (f_name f) /\ exact_view (f_value f)) fs ->
  Forall (fun f => v_len (f_name f) <= PV_MAX_FIELD_NAME /\ v_len (f_value f) <= PV_MAX_FIELD_VALUE) fs ->
  sized_copy a (fields_end (a_used a) (map (field_map v_bytes) fs)) (copy_fields_loop a fs).
Proof.
  revert a. induction fs as [|f fs IH]; intros a Hwf Hw Hok Hx Hle; simpl.
  { unfold fields_end. simpl. pose proof (wf_used a Hwf). destruct (_ <=? a_capacity a) eqn:E; [done | lia]. }
  apply Forall_cons_iff in Hok as [[Hn Hv] Hok], Hx as [[Hxn Hxv] Hx], Hle as [[Hln Hlv] Hle].
  pose proof (copy_text_sized a _ _ Hwf Hw Hn Hxn Hln max_name_bound) as H1. unfold copy_text_to in H1.
  destruct (pv_arena_copy a _ _ _ PV_MAX_FIELD_NAME) as [[st1 s1] a1] eqn:E1.
  destruct (copy_text _ _ _ _ _ _ _ Hwf Hn max_name_bound E1) as [Hext1 _].
  change (fields_end (a_used a) (field_map v_bytes f :: map (field_map v_bytes) fs))
    with (fields_end (text_end (text_end (a_used a) (v_bytes (f_name f))) (v_bytes (f_value f)))
            (map (field_map v_bytes) fs)).
  pose proof (texts_end_ge (text_end (text_end (a_used a) (v_bytes (f_name f))) (v_bytes (f_value f)))
    (concat (map (fun f => [f_name f; f_value f]) (map (field_map v_bytes) fs)))) as Hge.
  pose proof (text_end_ge (text_end (a_used a) (v_bytes (f_name f))) (v_bytes (f_value f))) as Hge2.
  fold (fields_end (text_end (text_end (a_used a) (v_bytes (f_name f))) (v_bytes (f_value f)))
            (map (field_map v_bytes) fs)) in Hge. simpl in H1. split_if_in H1.
  2: { destruct (decide (st1 = PV_OK)); [done |]. destruct st1; try done; simpl; (split_if; [lia | done]). }
  destruct H1 as [-> Hu1].
  pose proof (copy_text_sized a1 _ _ (ext_wf _ _ Hext1) (writable_ext _ _ Hext1 Hw) Hv Hxv Hlv max_value_bound) as H2.
  unfold copy_text_to in H2. destruct (pv_arena_copy a1 _ _ _ PV_MAX_FIELD_VALUE) as [[st2 s2] a2] eqn:E2.
  destruct (copy_text _ _ _ _ _ _ _ (ext_wf _ _ Hext1) Hv max_value_bound E2) as [Hext2 _].
  rewrite Hu1 in H2. simpl in H2. rewrite (ext_capacity _ _ Hext1) in H2. split_if_in H2.
  2: { destruct (decide (st2 = PV_OK)); [done |]. destruct st2; try done; simpl; (split_if; [lia | done]). }
  destruct H2 as [-> Hu2]. pose proof (arena_ext_trans _ _ _ Hext1 Hext2) as Hext.
  specialize (IH a2 (ext_wf _ _ Hext) (writable_ext _ _ Hext Hw) Hok Hx Hle). rewrite Hu2 in IH.
  destruct (copy_fields_loop a2 fs) as [[st3 gs] a3]. simpl in IH |- *.
  by rewrite <- (ext_capacity _ _ Hext).
Qed.

Lemma copy_fields_sized a fs :
  arena_wf a -> writable a ->
  Forall (fun f => view_ok (f_name f) /\ view_ok (f_value f)) fs ->
  Forall (fun f => exact_view (f_name f) /\ exact_view (f_value f)) fs ->
  Forall (fun f => v_len (f_name f) <= PV_MAX_FIELD_NAME /\ v_len (f_value f) <= PV_MAX_FIELD_VALUE) fs ->
  zlen fs <= PV_MAX_COLLECTION_ITEMS ->
  sized_copy a (fields_end (array_end (a_used a) (zlen fs) sizeof_pv_custom_field)
                  (map (field_map v_bytes) fs)) (copy_fields a fs).
Proof.
  intros Hwf Hw Hok Hx Hle Hc. pose proof (zlen_nonneg fs). unfold copy_fields.
  destruct (Z.eqb_spec (zlen fs) 0) as [Hz |].
  { destruct fs; [| exfalso; zlia]. unfold array_end, fields_end. rewrite Hz. simpl.
    pose proof (wf_used a Hwf). destruct (_ <=? a_capacity a) eqn:E; [done | lia]. }
  replace (PV_MAX_COLLECTION_ITEMS <? zlen fs) with false by lia.
  pose proof (array_alloc_sized a fs sizeof_pv_custom_field Hwf Hw ltac:(lia) ltac:(by vm_compute)) as Ha.
  destruct (pv_arena_alloc a _ alignof_ptr) as [[off|] a1].
  - destruct Ha as (_ & Hu & Hext). rewrite <- Hu.
    pose proof (copy_fields_loop_sized a1 fs (ext_wf _ _ Hext) (writable_ext _ _ Hext Hw) Hok Hx Hle) as Hs.
    unfold sized_copy in *. destruct (copy_fields_loop a1 fs) as [[? ?] ?].
    by rewrite <- (ext_capacity _ _ Hext).
  - destruct Ha as [Hlt ->]. simpl. unfold fields_end.
    pose proof (texts_end_ge (array_end (a_used a) (zlen fs) sizeof_pv_custom_field)
      (concat (map (fun f => [f_name f; f_value f]) (map (field_map v_bytes) fs)))).
    split_if; [lia | done].
Qed.

(** One step of [copy_record]: the space of a text, then the rest. *)
Lemma copy_text_then_sized {R} a v max_len n (k : pv_slice -> pv_arena -> pv_status * option R * pv_arena) :
  arena_wf a -> writable a -> view_ok v -> exact_view v -> v_len v <= max_len -> max_len < SIZE_MAX ->
  text_end (a_used a) (v_bytes v) <= n ->
  (forall s a1, arena_ext a a1 -> s_len s = v_len v -> a_used a1 = text_end (a_used a) (v_bytes v) ->
     sized a1 n (k s a1)) ->
  sized a n (copy_then (copy_text_to a v max_len) k).
Proof.
  intros Hwf Hw Hv Hx Hle Hmax Hn Hk.
  eapply copy_then_sized; [by apply copy_text_sized | done |].
  intros st s a1 E -> Hu. unfold copy_text_to in E.
  destruct (copy_text _ _ _ _ _ _ _ Hwf Hv Hmax E) as [Hext Hok]. destruct (Hok eq_refl) as (_ & _ & Hs & _).
  specialize (Hk s a1 Hext Hs Hu). unfold sized in *. by rewrite <- (ext_capacity _ _ Hext).
Qed.

Lemma copy_slices_then_sized {R} a vs max_len n (k : list pv_slice -> pv_arena -> pv_status * option R * pv_arena) :
  arena_wf a -> writable a -> Forall view_ok vs -> Forall exact_view vs ->
  Forall (fun v => v_len v <= max_len) vs -> max_len < SIZE_MAX -> zlen vs <= PV_MAX_COLLECTION_ITEMS ->
  texts_end (array_end (a_used a) (zlen vs) sizeof_pv_slice) (map v_bytes vs) <= n ->
  (forall ss a1, arena_ext a a1 ->
     a_used a1 = texts_end (array_end (a_used a) (zlen vs) sizeof_pv_slice) (map v_bytes vs) ->
     sized a1 n (k ss a1)) ->
  sized a n (copy_then (copy_slices a vs max_len) k).
Proof.
  intros Hwf Hw Hv Hx Hle Hmax Hc Hn Hk.
  eapply copy_then_sized; [by apply copy_slices_sized | done |].
  intros st s a1 E -> Hu. destruct (copy_slices_spec _ _ _ _ _ _ Hwf Hv Hmax E) as [Hext _].
  specialize (Hk s a1 Hext Hu). unfold sized in *. by rewrite <- (ext_capacity _ _ Hext).
Qed.

Lemma array_texts_ge n count size cs :
  0 <= count -> 0 <= size -> n <= texts_end (array_end n count size) cs.
Proof. intros. etrans; [by apply (array_end_ge n count size) | apply texts_end_ge]. Qed.

(** [copy_record] succeeds exactly when the record fits. *)
Lemma copy_record_sized a id now src :
  arena_wf a -> writable a -> record_ok src -> validate_record_fields src = PV_OK ->
  sized a (record_end (a_used a) (record_map v_bytes src)) (copy_record a id now src).
Proof.
  intros Hwf Hw Hok Hval. pose proof (validated_exact _ Hok Hval) as Hx.
  unfold record_ok in Hok. rewrite record_slices_Forall in Hok, Hx.
  destruct Hok as (Vt & Vu & Vp & Vn & Vurls & Vtags & Vfields).
  destruct Hx as (Xt & Xu & Xp & Xn & Xurls & Xtags & Xfields).
  apply validate_record_ok in Hval as (Lt & Lu & Lp & Ln & Lurls & Ltags & Lf & _ & _ & _ & Tt & _ & _ & _ & Urls & Tags & Fs).
  apply validate_texts_ok in Urls, Tags. apply validate_fields_ok in Fs.
  destruct max_text_bounds as (Bt & Bu & Bp & Bn & Burl & Btag).
  assert (0 <= sizeof_pv_slice /\ 0 <= sizeof_pv_custom_field) as [S1 S2] by by vm_compute.
  pose proof (zlen_nonneg (r_urls src)). pose proof (zlen_nonneg (r_tags src)). pose proof (zlen_nonneg (r_fields src)).
  set (e1 := text_end (a_used a) (v_bytes (r_title src))).
  set (e2 := text_end e1 (v_bytes (r_username src))). set (e3 := text_end e2 (v_bytes (r_password src))).
  set (e4 := text_end e3 (v_bytes (r_notes src))).
  set (e5 := texts_end (array_end e4 (zlen (r_urls src)) sizeof_pv_slice) (map v_bytes (r_urls src))).
  set (e6 := texts_end (array_end e5 (zlen (r_tags src)) sizeof_pv_slice) (map v_bytes (r_tags src))).
  set (e7 := fields_end (array_end e6 (zlen (r_fields src)) sizeof_pv_custom_field)
               (map (field_map v_bytes) (r_fields src))).
  assert (record_end (a_used a) (record_map v_bytes src) = e7) as ->
    by (unfold record_end; simpl; by rewrite !zlen_map).
  assert (e1 <= e2 /\ e2 <= e3 /\ e3 <= e4) as (I1 & I2 & I3) by (split_and!; apply text_end_ge).
  assert (e4 <= e5 /\ e5 <= e6 /\ e6 <= e7) as (I4 & I5 & I6)
    by (split_and!; by apply array_texts_ge).
  unfold copy_record. apply copy_text_then_sized; auto; [fold e1; lia |]. fold e1. intros t a1 E1 Hl U1.
  assert (0 < s_len t) by (unfold text_slice_valid in Tt; destruct (v_data (r_title src)); simpl in Tt; lia).
  replace (s_len t =? 0) with false by lia.
  apply copy_text_then_sized; rewrite ?U1; auto; [apply E1 | by apply (writable_ext a) | fold e2; lia |].
  fold e2. intros u a2 E2 _ U2. pose proof (arena_ext_trans _ _ _ E1 E2) as E12.
  apply copy_text_then_sized; rewrite ?U2; auto; [apply E2 | by apply (writable_ext a) | fold e3; lia |].
  fold e3. intros p a3 E3 _ U3. pose proof (arena_ext_trans _ _ _ E12 E3) as E13.
  apply copy_text_then_sized; rewrite ?U3; auto; [apply E3 | by apply (writable_ext a) | fold e4; lia |].
  fold e4. intros m a4 E4 _ U4. pose proof (arena_ext_trans _ _ _ E13 E4) as E14.
  apply copy_slices_then_sized; rewrite ?U4; auto;
    [apply E4 | by apply (writable_ext a) | (eapply Forall_impl; [| exact Urls]; by intros ? []) | fold e5; lia |].
  fold e5. intros us a5 E5 U5. pose proof (arena_ext_trans _ _ _ E14 E5) as E15.
  apply copy_slices_then_sized; rewrite ?U5; auto;
    [apply E5 | by apply (writable_ext a) | (eapply Forall_impl; [| exact Tags]; by intros ? []) |].
  fold e6. intros ts a6 E6 U6. pose proof (arena_ext_trans _ _ _ E15 E6) as E16.
  eapply copy_then_sized; [apply copy_fields_sized; auto; [apply E6 | by apply (writable_ext a) |] | |].
  - eapply Forall_impl; [| exact Fs]. by intros ? (? & ? & _).
  - rewrite U6. fold e7. lia.
  - rewrite U6. fold e7. intros st gs a7 E -> U7. simpl.
    assert (e7 <= a_capacity a6).
    { pose proof (copy_fields_spec _ _ _ _ _ (ext_wf _ _ E6) Vfields E) as [E7 _].
      rewrite <- U7, <- (ext_capacity _ _ E7). apply (wf_used _ (ext_wf _ _ E7)). }
    replace (e7 <=? a_capacity a6) with true by lia. done.
Qed.

(** ** Destruction *)

Lemma arena_destroy_run a s : exists s', pv_arena_destroy a s = (arena_zero, s') /\ s_clock s' = s_clock s /\
  s_freed s' = s_freed s ++ if a_base a then [ARENA] else [].
Proof.
  unfold pv_arena_destroy. rewrite bind_run. destruct (a_base a) eqn:Eb; [| eexists; split_and!; [reflexivity | done | by rewrite app_nil_r]].
  rewrite bind_run. destruct (a_readonly a); [| by eexists].
  unfold pv_arena_set_readwrite. rewrite Eb. cbn [negb]. rewrite bind_run. unfold sodium_mprotect. cbv beta iota. split_if; by eexists.
Qed.

(** [pv_model_destroy] gives back every block the vault holds. *)
Definition vault_blocks (v : pv_vault) : list guarded_block :=
  (match v_vmk v with Some _ => [MASTER_KEY] | None => [] end) ++ (if a_base (v_arena v) then [ARENA] else []).

Lemma model_destroy_run v s : exists s', pv_model_destroy v s = (vault_zero, s') /\ s_freed s' = s_freed s ++ vault_blocks v.
Proof.
  unfold pv_model_destroy, vault_blocks. rewrite bind_run. destruct (v_vmk v).
  - unfold sodium_free at 1. rewrite bind_run. match goal with |- context [pv_arena_destroy ?a ?s] => destruct (arena_destroy_run a s) as (s2 & -> & _ & Hf) end.
    eexists. split; [reflexivity |]. rewrite Hf. cbn [s_freed]. by rewrite <- app_assoc.
  - unfold mret at 1, M_ret at 1. rewrite bind_run. destruct (arena_destroy_run (v_arena v) s) as (s2 & -> & _ & Hf). by eexists.
Qed.
