(* ===== verification/ModelInv.v ===== *)
(** * The invariant of the vault

    What every operation of [Model] preserves: the records' slices lie in the
    arena and never overlap, identifiers are unique, every record passes
    [pv_model_validate_record], and the contents still fit when they are
    copied into a fresh vault (so a save that decodes what it encoded, or a
    clone, cannot run out of space). *)

From S2P Require Import Prelude Status Util Sys Arena Model ModelFacts.

(** ** The space the contents of a vault take *)

(** [ensure_record_capacity] on [n] bytes in use, capacity [cap], [k] records. *)
Definition grow (n cap k : Z) : Z * Z :=
  if k <? cap then (n, cap)
  else (round_up n alignof_ptr + cap * 2 * sizeof_pv_record, cap * 2).

Definition place (st : Z * Z * Z) (c : pv_record (list Z)) : Z * Z * Z :=
  let '(n, cap, k) := st in
  let '(n', cap') := grow n cap k in (record_end n' c, cap', k + 1).

(** Bytes in use, capacity and count after adding [cs] to a fresh vault. *)
Definition layout (cs : list (pv_record (list Z))) : Z * Z * Z :=
  fold_left place cs (PV_INITIAL_RECORD_CAPACITY * sizeof_pv_record, PV_INITIAL_RECORD_CAPACITY, 0).

(** The vault uses at least the space a rebuild of [cs] needs; its record array
    may already have been doubled for the next record. *)
Definition layout_ok (cs : list (pv_record (list Z))) (used capacity : Z) : Prop :=
  let '(n, cap, k) := layout cs in
  (cap = capacity /\ n <= used) \/
  (snd (grow n cap k) = capacity /\ fst (grow n cap k) <= used).

(** ** The invariant *)

(** The ranges of the C types of the scalar members. *)
Record record_typed {S} (r : pv_record S) : Prop := {
  ty_id : zlen (r_id r) = PV_RECORD_ID_BYTES;
  ty_id_bytes : is_bytes (r_id r);
  ty_revision : 0 <= r_revision r <= UINT64_MAX;
  ty_created : r_created_ms r <= INT64_MAX;
  ty_updated : r_updated_ms r <= INT64_MAX
}.

(** A record a vault may hold. *)
Record valid_content (c : pv_record (list Z)) : Prop := {
  vc_typed : record_typed c;
  vc_bytes : Forall is_bytes (record_slices c);
  vc_valid : pv_model_validate_record (record_map view_of c) = PV_OK
}.

Definition vault_slices (v : pv_vault) : list pv_slice := concat (map record_slices (v_records v)).

Record vault_wf (v : pv_vault) : Prop := {
  vw_arena : arena_wf (v_arena v);
  vw_base : a_base (v_arena v) = true;
  vw_capacity : a_capacity (v_arena v) = PV_ARENA_CAPACITY;
  vw_slices : Forall (slice_ok (a_used (v_arena v))) (vault_slices v);
  vw_disjoint : ForallOrdPairs slice_disjoint (vault_slices v);
  vw_valid : Forall valid_content (contents v);
  vw_ids : NoDup (map r_id (v_records v));
  vw_layout : layout_ok (contents v) (a_used (v_arena v)) (v_record_capacity v)
}.

(** The part of a vault the record operations leave alone. *)
Definition same_meta (v v' : pv_vault) : Prop :=
  v_vault_id v' = v_vault_id v /\ v_device_id v' = v_device_id v /\
  v_generation v' = v_generation v /\ v_created_ms v' = v_created_ms v /\
  v_vmk v' = v_vmk v /\ v_source_hash v' = v_source_hash v /\ v_path v' = v_path v.

(** The clock shows a time after the epoch. *)
Definition clock_ok (s : sys) : Prop :=
  forall i, 0 <= pv_now_ms (s_clock s i) <= INT64_MAX.

(** ** Lemmas: layout *)

Lemma layout_snoc cs c : layout (cs ++ [c]) = place (layout cs) c.
Proof. unfold layout. by rewrite fold_left_app. Qed.

Lemma layout_count cs : snd (layout cs) = zlen cs.
Proof.
  induction cs as [|c cs IH] using rev_ind; [done |]. rewrite layout_snoc, zlen_app. unfold place.
  destruct (layout cs) as [[n cap] k]. simpl in IH. subst. by destruct (grow n cap (zlen cs)).
Qed.

Lemma record_end_ge n c : n <= record_end n c.
Proof.
  unfold record_end, fields_end.
  repeat (etrans; [| apply texts_end_ge]; etrans; [| apply array_end_ge; [apply zlen_nonneg | by vm_compute]]).
  apply texts_end_ge.
Qed.

Lemma grow_mono n m cap k : n <= m -> fst (grow n cap k) <= fst (grow m cap k).
Proof.
  intros. unfold grow. split_if; simpl; [done |].
  pose proof (round_up_mono n m alignof_ptr ltac:(by vm_compute)). lia.
Qed.

Lemma grow_cap n m cap k : snd (grow n cap k) = snd (grow m cap k).
Proof. unfold grow. by split_if. Qed.

(** Capacities are [16 * 2 ^ j]; the arrays abandoned by the doublings stay in
    the arena, so [n] also bounds the capacity. *)
Lemma layout_capacity cs :
  let '(n, cap, k) := layout cs in
  k <= cap /\ (exists j, 0 <= j /\ cap = 16 * 2 ^ j) /\ (cap * 2 - 16) * sizeof_pv_record <= n.
Proof.
  induction cs as [|c cs IH] using rev_ind.
  { simpl. split_and!; [done | by exists 0 | by vm_compute]. }
  rewrite layout_snoc. destruct (layout cs) as [[n cap] k]. destruct IH as (Hk & (j & Hj & ->) & Hn).
  unfold place, grow. split_if.
  - pose proof (record_end_ge n c). split_and!; [lia | by exists j | lia].
  - set (n' := round_up n alignof_ptr + _). pose proof (record_end_ge n' c).
    pose proof (round_up_bounds n alignof_ptr ltac:(by vm_compute)) as [Hr _].
    assert (0 < 2 ^ j) by (apply Z.pow_pos_nonneg; lia).
    split_and!; [lia | exists (j + 1); rewrite Z.pow_add_r by lia; split; lia |].
    unfold n', sizeof_pv_record in *. lia.
Qed.

(** A layout that fits the arena has at most 4096 records. *)
Lemma layout_fits_capacity cs :
  fst (fst (layout cs)) <= PV_ARENA_CAPACITY -> snd (fst (layout cs)) <= 4096 /\ zlen cs <= 4096.
Proof.
  pose proof (layout_capacity cs) as H. pose proof (layout_count cs) as Hc.
  destruct (layout cs) as [[n cap] k]. simpl in *. destruct H as (Hk & (j & Hj & ->) & Hn).
  unfold PV_ARENA_CAPACITY, sizeof_pv_record in *. intros Hfit.
  assert (j <= 8); [| assert (2 ^ j <= 2 ^ 8) by (apply Z.pow_le_mono_r; lia); change (2 ^ 8) with 256 in *; lia].
  destruct (Z.le_gt_cases j 8); [done |].
  assert (2 ^ 9 <= 2 ^ j) by (apply Z.pow_le_mono_r; lia). change (2 ^ 9) with 512 in *.
  revert Hfit. vm_compute (PV_MAX_PLAINTEXT). lia.
Qed.

Lemma layout_ok_used cs used used' cap : used <= used' -> layout_ok cs used cap -> layout_ok cs used' cap.
Proof. unfold layout_ok. destruct (layout cs) as [[n K] k]. intros. intuition lia. Qed.

Lemma layout_ok_fits cs used cap :
  layout_ok cs used cap -> used <= PV_ARENA_CAPACITY ->
  fst (fst (layout cs)) <= PV_ARENA_CAPACITY /\ zlen cs <= cap <= 8192.
Proof.
  intros H Hu. pose proof (layout_fits_capacity cs) as Hf. pose proof (layout_capacity cs) as Hcap.
  pose proof (layout_count cs) as Hc. unfold layout_ok in H.
  destruct (layout cs) as [[n K] k]. simpl in *. subst k.
  assert (n <= used).
  { destruct H as [[_ ?] | [_ Hg]]; [done |]. etrans; [| exact Hg]. unfold grow. split_if; simpl; [done |].
    pose proof (round_up_bounds n alignof_ptr ltac:(by vm_compute)) as [? _].
    destruct Hcap as (? & _). pose proof (zlen_nonneg cs). unfold sizeof_pv_record. lia. }
  destruct (Hf ltac:(lia)) as [HK _]. destruct Hcap as (Hk & _).
  split; [lia |]. pose proof (zlen_nonneg cs).
  destruct H as [[<- _] | [<- _]]; [lia |]. unfold grow. split_if; simpl; lia.
Qed.

(** The doubling the layout predicts is the one the vault performs. *)
Lemma grow_layout cs used cap :
  layout_ok cs used cap ->
  let '(n, K, k) := layout cs in
  snd (grow used cap k) = snd (grow n K k) /\ fst (grow n K k) <= fst (grow used cap k).
Proof.
  unfold layout_ok. pose proof (layout_capacity cs) as H. pose proof (layout_count cs) as Hc.
  destruct (layout cs) as [[n K] k]. simpl in Hc. subst k. pose proof (zlen_nonneg cs).
  destruct H as (Hk & (j & Hj & HK) & _). intros [[<- Hu] | [<- Hu]].
  - split; [apply grow_cap | by apply grow_mono].
  - assert (0 < 2 ^ j) by (apply Z.pow_pos_nonneg; lia).
    unfold grow in *. destruct (zlen cs <? K) eqn:E; simpl in *; [rewrite E; done |].
    replace (zlen cs <? K * 2) with true by lia. done.
Qed.

(** ** Lemmas: identifiers *)

Lemma find_id_loop_none i rs id : find_id_loop i rs id = None <-> ~ In id (map r_id rs).
Proof.
  revert i. induction rs as [|r rs IH]; intros i; simpl; [tauto |].
  destruct (bytes_eqb (r_id r) id) eqn:E.
  - apply bytes_eqb_eq in E. split; [done | intros H; exfalso; auto].
  - apply bytes_eqb_neq in E. rewrite IH. tauto.
Qed.

Lemma find_id_loop_some i rs id j :
  find_id_loop i rs id = Some j ->
  exists r, (i <= j)%nat /\ rs !! (j - i)%nat = Some r /\ r_id r = id /\
    forall k r', (k < j - i)%nat -> rs !! k = Some r' -> r_id r' <> id.
Proof.
  revert i. induction rs as [|r rs IH]; intros i; simpl; [done |].
  destruct (bytes_eqb (r_id r) id) eqn:E.
  - intros [= <-]. apply bytes_eqb_eq in E. exists r. rewrite Nat.sub_diag.
    split_and!; [lia | done | done | intros; lia].
  - apply bytes_eqb_neq in E. intros H. destruct (IH _ H) as (r' & Hle & Hl & Hid & Hmin).
    exists r'. replace (j - i)%nat with (S (j - S i)) by lia. split_and!; auto; [lia |].
    intros [|k] r'' Hk Hr; simpl in Hr; [by simplify_eq | eapply Hmin; [| done]; lia].
Qed.

Lemma id_is_zero_zeros id : is_bytes id -> id_is_zero id = true <-> Forall (eq 0) id.
Proof. intros. unfold id_is_zero. rewrite Z.eqb_eq. by apply or_all_zero. Qed.

Lemma random_id_ok fuel v s id s' :
  random_id fuel v s = (Some id, s') ->
  zlen id = PV_RECORD_ID_BYTES /\ is_bytes id /\ id_is_zero id = false /\
  pv_model_find_id v id = None /\ s_clock s' = s_clock s /\ s_mprotect s' = s_mprotect s.
Proof.
  revert s. induction fuel as [|fuel IH]; intros s; [done |]. cbn [random_id]. rewrite bind_run.
  pose proof (randombytes_len PV_RECORD_ID_BYTES s ltac:(by vm_compute)) as Hl.
  pose proof (randombytes_bytes PV_RECORD_ID_BYTES s) as Hb.
  destruct (randombytes_buf PV_RECORD_ID_BYTES s) as [x s1] eqn:E. simpl in Hl, Hb.
  assert (s_clock s1 = s_clock s /\ s_mprotect s1 = s_mprotect s) as [Hc Hm] by (by injection E as <- <-).
  split_if.
  - intros H. apply IH in H. by rewrite Hc, Hm in H.
  - intros [= <- <-]. apply orb_false_iff in Heqb as [Hz Hn].
    split_and!; auto. by destruct (pv_model_find_id v x).
Qed.

(** ** Lemmas: the steps of [pv_model_add_record] *)

Lemma ensure_capacity_spec v :
  arena_wf (v_arena v) -> writable (v_arena v) ->
  0 < v_record_capacity v <= 8192 ->
  let g := grow (a_used (v_arena v)) (v_record_capacity v) (v_record_count v) in
  let '(st, v') := ensure_record_capacity v in
  if fst g <=? a_capacity (v_arena v) then
    st = PV_OK /\ exists a', v' = set_records (set_arena v a') (v_records v) (snd g) /\
      arena_ext (v_arena v) a' /\ a_used a' = fst g
  else st = PV_ERR_LIMIT /\ v' = v.
Proof.
  intros Hwf [Hb Hr] Hcap g. unfold ensure_record_capacity, grow in *.
  destruct (v_record_count v <? v_record_capacity v).
  { subst g. simpl. pose proof (wf_used _ Hwf). destruct (_ <=? _) eqn:E; [| lia].
    split; [done |]. exists (v_arena v). split_and!; [by destruct v | by apply arena_ext_refl | done]. }
  subst g. simpl.
  replace (SIZE_MAX / 2 <=? v_record_capacity v) with false by (symmetry; apply Z.leb_gt; eapply Z.le_lt_trans; [apply Hcap | by vm_compute]).
  unfold pv_size_mul, sizeof_pv_record, SIZE_MAX. split_if; [exfalso; revert Heqb; clear - Hcap |].
  { intros H. apply andb_prop in H as [_ H2].
    pose proof (Z.div_le_lower_bound 18446744073709551615 (v_record_capacity v * 2) 160). lia. }
  set (bytes := v_record_capacity v * 2 * 160).
  assert (Hbytes : 0 <= bytes <= SIZE_MAX) by (unfold bytes, SIZE_MAX; lia).
  destruct (pv_arena_alloc (v_arena v) bytes alignof_ptr) as [r a1] eqn:E.
  pose proof (arena_alloc_ext _ _ _ _ _ Hwf Hbytes alignof_ptr_bound E) as Hext.
  rewrite arena_alloc_eq in E by (auto using alignof_ptr_bound). unfold alloc_granted in E.
  rewrite Hb, Hr in E. change (Z.land alignof_ptr (alignof_ptr - 1) =? 0) with true in E.
  change (0 <? alignof_ptr) with true in E. replace (0 <? bytes) with true in E by lia.
  cbn [andb negb] in E. split_if_in E; injection E as <- <-.
  - split; [done |]. eexists. split_and!; [done | done | done].
  - split; [done |]. by destruct v.
Qed.

(** The vault after its arena changed protection, grew, or took one record. *)
Lemma contents_ids v : map r_id (contents v) = map r_id (v_records v).
Proof. unfold contents. by rewrite map_map. Qed.

Lemma contents_ext v a' rs :
  arena_wf (v_arena v) -> arena_ext (v_arena v) a' ->
  Forall (slice_ok (a_used (v_arena v))) (concat (map record_slices rs)) ->
  map (record_contents a') rs = map (record_contents (v_arena v)) rs.
Proof.
  intros Hwf Hext Hok. apply Forall_concat in Hok. rewrite Forall_map in Hok.
  apply map_ext_Forall. eapply Forall_impl; [| exact Hok]. intros r Hr. cbv beta in Hr.
  rewrite record_slices_Forall in Hr. destruct Hr as (H1 & H2 & H3 & H4 & H5 & H6 & H7).
  unfold record_contents, record_map. rewrite !(content_ext _ a') by done.
  rewrite !(map_content_ext _ a') by done. f_equal. apply map_ext_Forall.
  eapply Forall_impl; [| exact H7]. intros f [? ?]. unfold field_map. by rewrite !(content_ext _ a') by done.
Qed.

Lemma vault_wf_protect v a' :
  vault_wf v -> a_mem a' = a_mem (v_arena v) -> a_used a' = a_used (v_arena v) ->
  a_capacity a' = a_capacity (v_arena v) -> a_base a' = a_base (v_arena v) ->
  vault_wf (set_arena v a') /\ contents (set_arena v a') = contents v.
Proof.
  intros [[] ? ? ? ? ? ? ?] Hm Hu Hc Hb.
  assert (Heq : contents (set_arena v a') = contents v).
  { unfold contents. simpl. apply map_ext. intros r. unfold record_contents, record_map, content. by rewrite Hm. }
  split; [| done]. constructor; rewrite ?Heq; simpl; rewrite ?Hu, ?Hb, ?Hc; auto.
  constructor; rewrite ?Hm, ?Hu, ?Hc; auto.
Qed.

Lemma vault_wf_grown v a' K :
  vault_wf v -> arena_ext (v_arena v) a' -> layout_ok (contents v) (a_used a') K ->
  vault_wf (set_records (set_arena v a') (v_records v) K) /\
  contents (set_records (set_arena v a') (v_records v) K) = contents v.
Proof.
  intros [] Hext HK. assert (Heq : contents (set_records (set_arena v a') (v_records v) K) = contents v).
  { unfold contents. simpl. by apply contents_ext. }
  split; [| done]. destruct Hext. constructor; rewrite ?Heq; simpl; auto; [congruence | congruence |].
  by apply (Forall_slice_ok_mono (a_used (v_arena v))).
Qed.

Lemma vault_wf_snoc v a' K rec :
  vault_wf v -> arena_ext (v_arena v) a' -> region (v_arena v) a' (record_slices rec) ->
  valid_content (record_contents a' rec) -> ~ In (r_id rec) (map r_id (v_records v)) ->
  layout_ok (contents v ++ [record_contents a' rec]) (a_used a') K ->
  let v' := set_records (set_arena v a') (v_records v ++ [rec]) K in
  vault_wf v' /\ contents v' = contents v ++ [record_contents a' rec].
Proof.
  intros [] Hext [Hok Habove Hdis] Hvalid Hfresh HK v'.
  assert (Heq : contents v' = contents v ++ [record_contents a' rec]).
  { unfold contents, v'. simpl. rewrite map_app. simpl. f_equal. by apply contents_ext. }
  split; [| done].
  assert (Hs : vault_slices v' = vault_slices v ++ record_slices rec)
    by (unfold vault_slices, v'; simpl; rewrite map_app, concat_app; simpl; by rewrite app_nil_r).
  pose proof (Forall_slice_ok_mono _ _ _ (ext_used _ _ Hext) vw_slices0) as Hold.
  constructor; rewrite ?Heq, ?Hs; simpl; auto.
  - apply Hext.
  - by rewrite (ext_base _ _ Hext).
  - by rewrite (ext_capacity _ _ Hext).
  - by apply Forall_app_2.
  - apply ForallOrdPairs_app; auto. by apply (Forall_cross_disjoint (a_used (v_arena v)) (a_used a')).
  - apply Forall_app_2; auto.
  - rewrite map_app. apply list.NoDup_app. split_and!; [done | | apply NoDup_singleton].
    intros x Hx Hx'. apply list_elem_of_singleton in Hx'. subst. by apply list_elem_of_In in Hx.
Qed.

Lemma vault_wf_dirty v t d : vault_wf v -> vault_wf (set_dirty v t d).
Proof. intros []. by constructor. Qed.

(** The contents of a validated source, stamped, may be stored. *)
Lemma view_ok_bytes v : view_ok v -> is_bytes (v_bytes v).
Proof.
  intros [_ H]. unfold v_bytes. destruct (v_data v) as [l|]; [| apply is_bytes_nil].
  apply is_bytes_take. by destruct (H l eq_refl).
Qed.

Lemma record_slices_map {S T} (g : S -> T) r : record_slices (record_map g r) = map g (record_slices r).
Proof.
  unfold record_slices, wiped_slices. simpl. rewrite !map_app, concat_map, !map_map. done.
Qed.

Lemma stamped_valid id now src :
  record_ok src -> record_typed src -> validate_record_fields src = PV_OK ->
  zlen id = PV_RECORD_ID_BYTES -> is_bytes id -> id_is_zero id = false -> 0 <= now <= INT64_MAX ->
  valid_content (stamped id now (record_map v_bytes src)).
Proof.
  intros Hok [Ti Tb Tr Tc Tu] Hval Hid Hidb Hz Hnow. pose proof (validated_exact _ Hok Hval) as Hx.
  pose proof (validate_record_ok _ Hval) as (_ & _ & _ & _ & _ & _ & _ & Hc & Hu & _).
  rewrite validate_record_exact in Hval by done. constructor.
  - constructor; simpl; auto; repeat split_if; try lia; by vm_compute.
  - change (record_slices (stamped id now (record_map v_bytes src))) with (record_slices (record_map v_bytes src)).
    rewrite record_slices_map, Forall_map. eapply Forall_impl; [apply view_ok_bytes | exact Hok].
  - unfold pv_model_validate_record.
    assert (validate_record_fields (record_map view_of (stamped id now (record_map v_bytes src))) = PV_OK) as ->.
    { etrans; [| exact Hval]. unfold validate_record_fields. simpl.
      match goal with |- (if ?b then _ else _) = _ => destruct b; [done |] end.
      do 2 match goal with |- context [(if ?b then now else ?x) <? 0] =>
        replace ((if b then now else x) <? 0) with (x <? 0) by (destruct b; lia) end. done. }
    simpl. rewrite Hz, orb_false_r.
    destruct (Z.eqb_spec (r_revision src) 0) as [Hr | Hr]; [done |].
    by replace (r_revision src =? 0) with false by lia.
Qed.

(** Making the arena writable: on success it is, and its bytes are the same. *)
Lemma ensure_writable a s st a' s' :
  a_base a = true ->
  (if a_readonly a then pv_arena_set_readwrite a else mret (PV_OK, a)) s = ((st, a'), s') ->
  a_mem a' = a_mem a /\ a_used a' = a_used a /\ a_capacity a' = a_capacity a /\ a_base a' = a_base a /\
  (st = PV_OK -> writable a') /\ s_clock s' = s_clock s /\ s_rand s' = s_rand s.
Proof.
  intros Hb H. unfold pv_arena_set_readwrite, mbind, M_bind, mret, M_ret, sodium_mprotect in H. rewrite Hb in H.
  unfold writable. destruct (a_readonly a) eqn:Hr; simpl in H; [split_if_in H|];
    simplify_eq/=; split_and!; auto; done.
Qed.

(** After [ensure_record_capacity]: there is a slot for the next record. *)
Definition has_slot (v : pv_vault) : Prop :=
  let '(n, K, k) := layout (contents v) in
  snd (grow n K k) = v_record_capacity v /\ fst (grow n K k) <= a_used (v_arena v).

Lemma has_slot_layout v : has_slot v -> layout_ok (contents v) (a_used (v_arena v)) (v_record_capacity v).
Proof. unfold has_slot, layout_ok. destruct (layout (contents v)) as [[n K] k]. by right. Qed.

Lemma zlen_contents v : zlen (contents v) = v_record_count v.
Proof. apply zlen_map. Qed.

Lemma vault_wf_capacity v : vault_wf v -> v_record_count v <= v_record_capacity v <= 8192.
Proof.
  intros []. rewrite <- zlen_contents. eapply layout_ok_fits; [done |].
  rewrite <- vw_capacity0. apply wf_used, vw_arena0.
Qed.

Lemma vault_wf_capacity_pos v : vault_wf v -> 0 < v_record_capacity v.
Proof.
  intros []. unfold layout_ok in *. pose proof (layout_capacity (contents v)) as H.
  destruct (layout (contents v)) as [[n K] k]. destruct H as (_ & (j & Hj & ->) & _).
  assert (0 < 2 ^ j) by (apply Z.pow_pos_nonneg; lia). unfold grow in *.
  destruct vw_layout0 as [[? _] | [? _]]; [lia |]. split_if_in H0; simpl in *; lia.
Qed.

Lemma ensure_capacity_wf v st v' :
  vault_wf v -> writable (v_arena v) -> ensure_record_capacity v = (st, v') ->
  (st = PV_OK /\ exists a' K, v' = set_records (set_arena v a') (v_records v) K /\ vault_wf v' /\
     contents v' = contents v /\ has_slot v' /\ writable (v_arena v')) \/
  (st <> PV_OK /\ v' = v).
Proof.
  intros Hwf Hw E. pose proof (vault_wf_capacity v Hwf). pose proof (vault_wf_capacity_pos v Hwf).
  pose proof (ensure_capacity_spec v (vw_arena v Hwf) Hw ltac:(lia)) as H1. rewrite E in H1. cbv zeta in H1.
  split_if_in H1; [left | right; by destruct H1 as [-> ->]].
  destruct H1 as (-> & a' & -> & Hext & Hu). split; [done |].
  pose proof (grow_layout _ _ _ (vw_layout v Hwf)) as Hg. pose proof (layout_count (contents v)) as Hc.
  assert (Hs : let '(n, K, k) := layout (contents v) in
    snd (grow n K k) = snd (grow (a_used (v_arena v)) (v_record_capacity v) (v_record_count v)) /\
    fst (grow n K k) <= a_used a').
  { destruct (layout (contents v)) as [[n K] k]. simpl in Hc. rewrite zlen_contents in Hc. subst k.
    destruct Hg as [Hg1 Hg2]. split; [done | lia]. }
  destruct (vault_wf_grown v a' (snd (grow (a_used (v_arena v)) (v_record_capacity v) (v_record_count v))) Hwf Hext)
    as [Hwf' Heq].
  { unfold layout_ok. destruct (layout (contents v)) as [[n K] k]. by right. }
  eexists _, _. split; [reflexivity |]. split_and!; auto; [| by apply (writable_ext (v_arena v))].
  unfold has_slot. by rewrite Heq.
Qed.

(** From [copy_record] on. *)
Lemma store_record v id now src :
  vault_wf v -> has_slot v -> record_ok src -> record_typed src ->
  validate_record_fields src = PV_OK -> 0 <= now <= INT64_MAX ->
  zlen id = PV_RECORD_ID_BYTES -> is_bytes id -> id_is_zero id = false ->
  pv_model_find_id v id = None -> writable (v_arena v) ->
  match copy_record (v_arena v) id now src with
  | (st, Some rec, a) =>
      let v' := set_records (set_arena v a) (v_records v ++ [rec]) (v_record_capacity v) in
      st = PV_OK /\ vault_wf v' /\ contents v' = contents v ++ [stamped id now (record_map v_bytes src)] /\
      a_used a = record_end (a_used (v_arena v)) (record_map v_bytes src) /\ writable a
  | (st, None, a) => st <> PV_OK /\ vault_wf (set_arena v a) /\ contents (set_arena v a) = contents v /\
      a_capacity (v_arena v) < record_end (a_used (v_arena v)) (record_map v_bytes src)
  end.
Proof.
  intros Hwf Hslot Hok Hty Hval Hnow Hid Hidb Hz Hfind Hw.
  pose proof (copy_record_spec (v_arena v) id now src (vw_arena v Hwf) Hok) as Hspec.
  pose proof (copy_record_sized (v_arena v) id now src (vw_arena v Hwf) Hw Hok Hval) as Hsize.
  destruct (copy_record (v_arena v) id now src) as [[st [rec|]] a]; destruct Hspec as [Hext Hr];
    unfold sized in Hsize.
  - destruct Hr as (-> & Hreg & Hcon). split; [done |].
    split_if_in Hsize; [| by destruct Hsize]. destruct Hsize as (_ & _ & Hu).
    destruct (vault_wf_snoc v a (v_record_capacity v) rec Hwf Hext Hreg) as [Hwf' Heq].
    + rewrite Hcon. by apply stamped_valid.
    + replace (r_id rec) with id by (by apply (f_equal r_id) in Hcon).
      by apply (find_id_loop_none 0).
    + rewrite Hcon. unfold layout_ok. rewrite layout_snoc. unfold has_slot in Hslot.
      destruct (layout (contents v)) as [[n K] k]. destruct Hslot as [Hs1 Hs2]. unfold place.
      destruct (grow n K k) as [n1 K1]. simpl in Hs1, Hs2. left. split; [done |].
      rewrite Hu. apply (record_end_mono n1 (a_used (v_arena v)) (record_map v_bytes src)), Hs2.
    + rewrite Heq, Hcon. split_and!; auto. by apply (writable_ext (v_arena v)).
  - split; [done |]. split_if_in Hsize; [by destruct Hsize as (_ & ? & _) |].
    destruct (vault_wf_grown v a (v_record_capacity v) Hwf Hext) as [? ?].
    { eapply layout_ok_used; [apply Hext | by apply has_slot_layout]. }
    split_and!; auto. lia.
Qed.

(** What one call of [pv_model_add_record] may do to a vault. *)
Record add_outcome (v : pv_vault) (src : pv_record pv_view) (now : Z) (st : pv_status) (v' : pv_vault) : Prop := {
  ao_wf : vault_wf v';
  ao_meta : same_meta v v';
  ao_ok : st = PV_OK -> exists id,
    contents v' = contents v ++ [stamped id now (record_map v_bytes src)] /\
    (id_is_zero (r_id src) = false -> id = r_id src) /\
    v_updated_ms v' = now /\ v_dirty v' = true;
  ao_err : st <> PV_OK ->
    contents v' = contents v /\ v_dirty v' = v_dirty v /\ v_updated_ms v' = v_updated_ms v
}.

Lemma add_outcome_err v src now st v' :
  st <> PV_OK -> vault_wf v' -> same_meta v v' -> contents v' = contents v ->
  v_dirty v' = v_dirty v -> v_updated_ms v' = v_updated_ms v -> add_outcome v src now st v'.
Proof. intros. constructor; auto. by intros. Qed.

Lemma choose_id fuel v (src : pv_record pv_view) s id s' :
  record_typed src ->
  (if id_is_zero (r_id src) then random_id fuel v else mret (Some (r_id src))) s = (Some id, s') ->
  zlen id = PV_RECORD_ID_BYTES /\ is_bytes id /\ id_is_zero id = false /\
  (id_is_zero (r_id src) = false -> id = r_id src) /\
  (negb (id_is_zero (r_id src)) && negb (is_null (pv_model_find_id v id)) = false ->
   pv_model_find_id v id = None) /\ s_clock s' = s_clock s.
Proof.
  intros [] H. split_if_in H.
  - apply random_id_ok in H as (? & ? & ? & ? & ? & _). by split_and!.
  - injection H as <- <-. split_and!; auto. simpl. by destruct (pv_model_find_id v (r_id src)).
Qed.

Lemma same_meta_refl v : same_meta v v.
Proof. unfold same_meta. by split_and!. Qed.

Lemma add_record_outcome fuel v src s st v' s' :
  vault_wf v -> record_ok src -> record_typed src -> clock_ok s ->
  pv_model_add_record fuel v src s = (Some (st, v'), s') ->
  add_outcome v src (pv_now_ms (s_clock s 0%nat)) st v' /\ s_clock s' = skip 1 (s_clock s).
Proof.
  intros Hwf Hok Hty Hclk H. unfold pv_model_add_record in H. run_bind H.
  injection Heqp as <- <-. set (now := pv_now_ms (s_clock s 0%nat)) in *.
  assert (Hnow : 0 <= now <= INT64_MAX) by apply Hclk. cbv zeta in H.
  destruct (is_ok (validate_record_fields src)) eqn:Hval; cbn [negb] in H.
  2: { injection H as <- <- <-. split; [| done]. apply add_outcome_err; auto using same_meta_refl.
       by apply is_ok_false. }
  apply is_ok_true in Hval. split_if_in H.
  { injection H as <- <- <-. split; [| done]. by apply add_outcome_err; auto using same_meta_refl. }
  run_bind H. destruct x as [st0 a0].
  destruct (ensure_writable _ _ _ _ _ (vw_base v Hwf) Heqp) as (Em & Eu & Ec & Eb & Ew & Es & _).
  destruct (vault_wf_protect v a0 Hwf Em Eu Ec Eb) as [Hwf0 Hc0]. simpl in H.
  destruct (is_ok st0) eqn:E0; cbn [negb] in H.
  2: { injection H as <- <- <-. split; [| done]. apply add_outcome_err; auto; try done. by apply is_ok_false. }
  apply is_ok_true in E0. specialize (Ew E0).
  destruct (ensure_record_capacity (set_arena v a0)) as [st1 v1] eqn:E1.
  destruct (ensure_capacity_wf _ _ _ Hwf0 Ew E1) as [(-> & a1 & K & -> & Hwf1 & Hc1 & Hslot & Hw1) | [Hne ->]].
  2: { apply is_ok_false in Hne as Hne'. rewrite Hne' in H. injection H as <- <- <-. split; [| done].
       by apply add_outcome_err. }
  cbn [is_ok negb] in H. rewrite Hc0 in Hc1. simpl in Hc1.
  set (v1 := set_records _ _ _) in *. run_bind H. destruct x as [id|]; [| done].
  destruct (choose_id _ _ _ _ _ _ Hty Heqp0) as (Hl & Hb & Hz & Hsrc & Hfind & Hs1).
  rewrite Es in Hs1. split_if_in H.
  { injection H as <- <- <-. split; [| done]. by apply add_outcome_err. }
  pose proof (store_record v1 id now src Hwf1 Hslot Hok Hty Hval Hnow Hl Hb Hz (Hfind eq_refl) Hw1) as Hst.
  destruct (copy_record (v_arena v1) id now src) as [[st2 [rec|]] a2]; injection H as <- <- <-;
    (split; [| done]).
  - destruct Hst as (-> & Hwf2 & Hc2 & _). constructor; [by apply vault_wf_dirty | done | | done].
    intros _. exists id. split_and!; auto. etrans; [exact Hc2 |]. by rewrite Hc1.
  - destruct Hst as (Hne & Hwf2 & Hc2 & _). apply add_outcome_err; auto; try done. by rewrite Hc2, Hc1.
Qed.

(** ** Lemmas: rebuilding a vault from its contents *)

(** A vault filled by additions only: its space is exactly the layout. *)
Record rebuilt (v : pv_vault) (cs : list (pv_record (list Z))) : Prop := {
  rb_wf : vault_wf v;
  rb_writable : writable (v_arena v);
  rb_contents : contents v = cs;
  rb_layout : layout cs = (a_used (v_arena v), v_record_capacity v, v_record_count v)
}.

Definition fits (cs : list (pv_record (list Z))) : Prop := fst (fst (layout cs)) <= PV_ARENA_CAPACITY.

Lemma place_ge st c : 0 <= snd (fst st) -> fst (fst st) <= fst (fst (place st c)).
Proof.
  destruct st as [[n K] k]. simpl. intros. unfold place.
  assert (n <= fst (grow n K k)).
  { unfold grow. split_if; simpl; [done |]. unfold sizeof_pv_record.
    pose proof (round_up_bounds n alignof_ptr ltac:(by vm_compute)). lia. }
  destruct (grow n K k) as [n1 K1]. simpl in *. pose proof (record_end_ge n1 c). lia.
Qed.

Lemma fits_prefix cs ds : fits (cs ++ ds) -> fits cs.
Proof.
  unfold fits. induction ds as [|d ds IH] using rev_ind; [by rewrite app_nil_r |].
  rewrite app_assoc, layout_snoc. intros H. apply IH. etrans; [| exact H]. apply place_ge.
  pose proof (layout_capacity (cs ++ ds)) as Hc. destruct (layout (cs ++ ds)) as [[n K] k]. simpl.
  destruct Hc as (_ & (j & Hj & ->) & _). assert (0 < 2 ^ j) by (apply Z.pow_pos_nonneg; lia). lia.
Qed.

Lemma vault_wf_fits v : vault_wf v -> fits (contents v) /\ zlen (contents v) <= 4096.
Proof.
  intros []. pose proof (wf_used _ vw_arena0).
  destruct (layout_ok_fits _ _ _ vw_layout0 ltac:(lia)) as [Hf _]. split; [done |].
  by apply layout_fits_capacity.
Qed.

Lemma stamped_existing {S} now (c : pv_record S) : r_revision c <> 0 -> stamped (r_id c) now c = c.
Proof.
  intros. unfold stamped. replace (r_revision c =? 0) with false by lia. by destruct c.
Qed.

Lemma valid_content_id c : valid_content c ->
  r_revision c <> 0 /\ id_is_zero (r_id c) = false /\ validate_record_fields (record_map view_of c) = PV_OK.
Proof.
  intros [_ _ H]. unfold pv_model_validate_record in H. simpl in H.
  destruct (is_ok (validate_record_fields (record_map view_of c))) eqn:E; simpl in H.
  - apply is_ok_true in E. split_if_in H; [done |]. apply orb_false_iff in Heqb as [? ?]. split_and!; auto. lia.
  - rewrite H in E. done.
Qed.

(** The source of an addition that holds the record [c]. *)
Record source_of (src : pv_record pv_view) (c : pv_record (list Z)) : Prop := {
  so_ok : record_ok src;
  so_exact : Forall exact_view (record_slices src);
  so_contents : record_map v_bytes src = c
}.

Lemma add_record_rebuilt fuel v cs src c s :
  rebuilt v cs -> source_of src c -> valid_content c -> ~ In (r_id c) (map r_id cs) -> fits (cs ++ [c]) ->
  clock_ok s ->
  exists v' s', pv_model_add_record fuel v src s = (Some (PV_OK, v'), s') /\
    rebuilt v' (cs ++ [c]) /\ same_meta v v' /\ s_clock s' = skip 1 (s_clock s) /\ s_mprotect s' = s_mprotect s.
Proof.
  intros [Hwf Hw Hcs Hlay] [Hok Hx Hc] Hvalid Hfresh Hfit Hclk.
  destruct (valid_content_id c Hvalid) as (Hrev & Hid & Hval).
  assert (Hval' : validate_record_fields src = PV_OK) by (rewrite validate_record_exact by done; by rewrite Hc).
  assert (Hsid : r_id src = r_id c) by (by rewrite <- Hc). assert (Hsrev : r_revision src = r_revision c) by (by rewrite <- Hc).
  assert (Hty : record_typed src) by (destruct (vc_typed c Hvalid); rewrite <- Hc in *; by constructor).
  unfold pv_model_add_record. rewrite bind_run. unfold now_ms at 1. cbv zeta.
  set (now := pv_now_ms (s_clock s 0%nat)). assert (Hnow : 0 <= now <= INT64_MAX) by apply Hclk.
  rewrite Hval', Hsid, Hsrev, Hid. cbn [is_ok negb]. rewrite andb_false_r.
  destruct Hw as [Hb Hr]. rewrite Hr, bind_run. unfold mret at 1, M_ret at 1. cbn [fst snd is_ok negb].
  replace (set_arena v (v_arena v)) with v by (by destruct v).
  pose proof (vault_wf_capacity v Hwf). pose proof (vault_wf_capacity_pos v Hwf).
  pose proof (ensure_capacity_spec v (vw_arena v Hwf) (conj Hb Hr) ltac:(lia)) as Hens.
  destruct (ensure_record_capacity v) as [st1 v1] eqn:E1. cbv zeta in Hens.
  unfold fits in Hfit. rewrite layout_snoc, Hlay in Hfit. unfold place in Hfit.
  destruct (grow (a_used (v_arena v)) (v_record_capacity v) (v_record_count v)) as [n1 K1] eqn:Eg.
  simpl in Hens, Hfit. pose proof (record_end_ge n1 c). rewrite (vw_capacity v Hwf) in Hens.
  split_if_in Hens; [| lia]. destruct Hens as (-> & a1 & Hv1 & Hext & Hu1).
  destruct (ensure_capacity_wf v _ _ Hwf (conj Hb Hr) E1) as [(_ & _ & _ & _ & Hwf1 & Hc1 & Hslot & Hw1) | [? _]]; [| done].
  cbn [is_ok negb]. rewrite bind_run. unfold mret at 1, M_ret at 1. cbv beta iota.
  assert (Hf1 : pv_model_find_id v1 (r_id c) = None).
  { apply (find_id_loop_none 0). rewrite <- contents_ids, Hc1, Hcs. done. }
  rewrite Hf1. simpl.
  pose proof (store_record v1 (r_id c) now src Hwf1 Hslot Hok Hty Hval' Hnow (ty_id c (vc_typed c Hvalid))
    (ty_id_bytes c (vc_typed c Hvalid)) Hid Hf1 Hw1) as Hst. rewrite Hc in Hst.
  assert (Hu : a_used (v_arena v1) = n1) by (by rewrite Hv1). rewrite Hu in Hst.
  destruct (copy_record (v_arena v1) (r_id c) now src) as [[st2 [rec|]] a2].
  2: { destruct Hst as (_ & _ & _ & Hlt). rewrite (vw_capacity v1 Hwf1) in Hlt. lia. }
  destruct Hst as (-> & Hwf2 & Hc2 & Hu2 & Hw2). eexists _, _. split; [reflexivity |].
  rewrite stamped_existing, Hc1, Hcs in Hc2 by done. split_and!; [| by rewrite Hv1 | done | done].
  constructor; [by apply vault_wf_dirty | done | done |].
  rewrite layout_snoc, Hlay. unfold place. rewrite Eg, Hv1. simpl. rewrite Hu2.
  unfold v_record_count. simpl. by rewrite zlen_app.
Qed.
