(* ===== verification/ModelProps.v ===== *)
(** * Properties of the vault operations

    Initialisation, adding, finding, deleting and cloning: that every reachable
    vault satisfies the invariant of [ModelInv], and what each operation does
    to the contents. *)

From S2P Require Import Prelude Status Util Sys Arena Model ModelFacts ModelInv.

(** ** Lemmas: initialisation *)

Lemma arena_init_sys a0 c s : s_clock (snd (pv_arena_init a0 c s)) = s_clock s.
Proof.
  unfold pv_arena_init. split_if; [done |]. rewrite bind_run. unfold sodium_malloc.
  split_if; [done |]. rewrite bind_run. unfold sodium_mlock. by split_if.
Qed.

(** The vault [pv_model_init] builds. *)
Definition fresh_vault (path : list Z) : pv_vault :=
  mk_vault (mk_arena true PV_ARENA_CAPACITY (PV_INITIAL_RECORD_CAPACITY * sizeof_pv_record) false
              (zeros (PV_INITIAL_RECORD_CAPACITY * sizeof_pv_record)))
    (zeros PV_VAULT_ID_BYTES) (zeros PV_DEVICE_ID_BYTES) 0 0 0 [] PV_INITIAL_RECORD_CAPACITY
    (Some (zeros PV_WRAP_KEY_BYTES)) (zeros crypto_generichash_BYTES) false path.

Lemma fresh_alloc :
  pv_arena_alloc (mk_arena true PV_ARENA_CAPACITY 0 false [])
    (PV_INITIAL_RECORD_CAPACITY * sizeof_pv_record) alignof_ptr =
  (Some 0, v_arena (fresh_vault [])).
Proof. by vm_compute. Qed.

Lemma model_init_ok v path s v' s' :
  pv_model_init v path s = ((PV_OK, v'), s') ->
  v' = fresh_vault path /\ zlen path < PATH_MAX /\ s_clock s' = s_clock s.
Proof.
  unfold pv_model_init. split_if; [done |]. rewrite bind_run.
  pose proof (arena_init_sys (v_arena vault_zero) PV_ARENA_CAPACITY s) as Hs.
  destruct (pv_arena_init (v_arena vault_zero) PV_ARENA_CAPACITY s) as [[st a] s1] eqn:E. cbn [fst snd] in *.
  destruct (is_ok st) eqn:Hst; cbn [negb]; [| intros [= -> _ _]; done].
  apply is_ok_true in Hst as ->. apply arena_init_ok in E as [-> _]; [| by vm_compute].
  rewrite bind_run. unfold sodium_malloc. cbv beta iota. split_if.
  { rewrite bind_run. destruct (arena_destroy_run (v_arena (set_arena vault_zero (mk_arena true PV_ARENA_CAPACITY 0 false []))) (mk_sys (skip 1 (s_malloc s1)) (s_mlock s1) (s_mprotect s1) (s_rand s1) (s_clock s1) (s_freed s1))) as (? & -> & _). done. }
  rewrite bind_run. unfold sodium_mlock. cbv beta iota. split_if.
  { rewrite bind_run. unfold sodium_free. cbv beta iota. rewrite bind_run. match goal with |- context [pv_arena_destroy ?a ?s] => destruct (arena_destroy_run a s) as (? & -> & _) end. done. }
  cbn [v_arena set_arena]. rewrite fresh_alloc. intros [= <- <-]. split_and!; [done | lia | done].
Qed.

Lemma fresh_rebuilt path : rebuilt (fresh_vault path) [].
Proof.
  constructor; try done. constructor; try done; try constructor; simpl.
  - by vm_compute.
  - apply is_bytes_zeros.
  - by vm_compute.
  - by vm_compute.
  - by split; [| vm_compute].
Qed.

Lemma layout_with_ids v gen vid did created updated vmk hash d p :
  vault_wf v ->
  vault_wf (mk_vault (v_arena v) vid did gen created updated (v_records v) (v_record_capacity v) vmk hash d p).
Proof. intros []. by constructor. Qed.

(** ** Lemmas: deleting *)

Lemma slice_disjoint_sym s t : slice_disjoint s t -> slice_disjoint t s.
Proof. unfold slice_disjoint. destruct (s_data s), (s_data t); tauto. Qed.

Lemma wipe_slice_len u mem s : slice_ok u s -> u <= zlen mem -> zlen (wipe_slice mem s) = zlen mem.
Proof.
  unfold slice_ok, wipe_slice. destruct (s_data s); [| done]. intros.
  apply zlen_zwrite; [lia |]. rewrite zlen_zeros by lia. lia.
Qed.

Lemma wipe_slice_view u mem s t :
  slice_ok u s -> slice_ok u t -> u <= zlen mem -> slice_disjoint s t ->
  slice_view (wipe_slice mem s) t = slice_view mem t.
Proof.
  unfold slice_ok, wipe_slice, slice_disjoint, slice_view. intros Hs Ht Hu Hd.
  destruct (s_data s) as [o|], (s_data t) as [p|]; try done. do 2 f_equal.
  destruct Hd as [Hd | Hd].
  - apply zsub_zwrite_above; rewrite ?zlen_zeros; lia.
  - apply zsub_zwrite_below; lia.
Qed.

Lemma wipe_slices_other u mem ss t :
  Forall (slice_ok u) ss -> slice_ok u t -> u <= zlen mem -> Forall (fun s => slice_disjoint s t) ss ->
  slice_view (wipe_slices mem ss) t = slice_view mem t.
Proof.
  unfold wipe_slices. revert mem. induction ss as [|s ss IH]; intros mem Hss Ht Hu Hd; simpl; [done |].
  apply Forall_cons_iff in Hss as [Hs Hss], Hd as [Hd Hds].
  rewrite IH; auto; [by eapply wipe_slice_view | by erewrite wipe_slice_len].
Qed.

Lemma wipe_slices_wf u mem ss :
  Forall (slice_ok u) ss -> u <= zlen mem -> is_bytes mem ->
  zlen (wipe_slices mem ss) = zlen mem /\ is_bytes (wipe_slices mem ss).
Proof.
  unfold wipe_slices. revert mem. induction ss as [|s ss IH]; intros mem Hss Hu Hb; simpl; [done |].
  apply Forall_cons_iff in Hss as [Hs Hss]. pose proof (wipe_slice_len u mem s Hs Hu) as Hl.
  destruct (IH (wipe_slice mem s)) as [H1 H2]; auto; [lia | | split; [lia | done]].
  unfold wipe_slice. destruct (s_data s); auto with pv.
Qed.

(** Every slice given to [sodium_memzero] reads as zeros afterwards. *)
Lemma wipe_slices_zero u mem ss :
  Forall (slice_ok u) ss -> u <= zlen mem -> ForallOrdPairs slice_disjoint ss ->
  Forall (fun s => v_bytes (slice_view (wipe_slices mem ss) s) = zeros (s_len s)) ss.
Proof.
  unfold wipe_slices. revert mem. induction ss as [|s ss IH]; intros mem Hss Hu Hd; constructor.
  - apply Forall_cons_iff in Hss as [Hs Hss]. inversion Hd as [|? ? Hsd Hd']; subst. simpl.
    fold (wipe_slices (wipe_slice mem s) ss).
    rewrite (wipe_slices_other u); auto; [| by erewrite wipe_slice_len
      | eapply Forall_impl; [| exact Hsd]; intros; by apply slice_disjoint_sym].
    unfold slice_ok, wipe_slice, slice_view, v_bytes in *. destruct (s_data s) as [o|]; simpl.
    + pose proof (zsub_zwrite_same mem o (zeros (s_len s))) as Hz. rewrite zlen_zeros in Hz by lia. rewrite Hz by lia.
      apply firstn_all2. unfold zeros. rewrite length_replicate. lia.
    + by rewrite Hs.
  - apply Forall_cons_iff in Hss as [Hs Hss]. inversion Hd; subst. simpl. apply IH; auto.
    by erewrite wipe_slice_len.
Qed.

Lemma ForallOrdPairs_app_inv {A} (R : A -> A -> Prop) l k :
  ForallOrdPairs R (l ++ k) ->
  ForallOrdPairs R l /\ ForallOrdPairs R k /\ Forall (fun x => Forall (R x) k) l.
Proof.
  induction l as [|x l IH]; simpl; intros H; [split_and!; [constructor | done | constructor] |].
  inversion H as [|? ? Hx Hl]; subst. apply Forall_app in Hx as [Hxl Hxk].
  destruct (IH Hl) as (? & ? & ?). split_and!; [by constructor | done | by constructor].
Qed.

Lemma ForallOrdPairs_cons_inv {A} (R : A -> A -> Prop) x l :
  ForallOrdPairs R (x :: l) -> Forall (R x) l /\ ForallOrdPairs R l.
Proof. intros H. by inversion H. Qed.

Lemma Forall_Forall_swap {A B} (R : A -> B -> Prop) l k :
  Forall (fun x => Forall (R x) k) l -> Forall (fun y => Forall (fun x => R x y) l) k.
Proof. rewrite !Forall_forall. intros H y Hy. rewrite Forall_forall. intros x Hx. specialize (H x Hx). rewrite Forall_forall in H. auto. Qed.

(** The record [pv_model_delete] leaves behind, as contents. *)
Definition tombstone_of (c : pv_record (list Z)) (now : Z) : pv_record (list Z) :=
  mk_record (r_id c) (r_revision c + 1) (r_created_ms c) now (Z.lor (r_flags c) PV_RECORD_DELETED)
    (r_title c) [] [] [] [] [] [].

Lemma tombstone_flags f :
  Z.land f (Z.lnot (Z.lor PV_RECORD_DELETED PV_RECORD_FAVORITE)) = 0 ->
  Z.land (Z.lor f PV_RECORD_DELETED) (Z.lnot (Z.lor PV_RECORD_DELETED PV_RECORD_FAVORITE)) = 0.
Proof. intros H. by rewrite Z.land_lor_distr_l, H. Qed.

Lemma tombstone_valid c now :
  valid_content c -> r_revision c <> UINT64_MAX -> 0 <= now <= INT64_MAX ->
  valid_content (tombstone_of c now).
Proof.
  intros Hv Hrev Hnow. destruct (valid_content_id c Hv) as (Hr & Hid & Hval).
  destruct Hv as [[Ti Tb Tr Tc Tu] Hb _]. constructor.
  - constructor; simpl; auto; lia.
  - apply record_slices_Forall in Hb as (Ht & _). apply record_slices_Forall. simpl.
    split_and!; auto using is_bytes_nil; constructor.
  - apply validate_record_ok in Hval as (Lt & _ & _ & _ & _ & _ & _ & Hc & _ & Hf & Vt & _). simpl in *.
    unfold pv_model_validate_record, validate_record_fields. simpl.
    apply tombstone_flags in Hf. rewrite Hf, Vt, Hid. change (zlen (@nil Z)) with 0.
    replace (PV_MAX_TITLE <? _) with false by lia. replace (r_created_ms c <? 0) with false by lia.
    replace (now <? 0) with false by lia. simpl. by replace (r_revision c + 1 =? 0) with false by lia.
Qed.

Lemma tombstone_end n c now : record_end n (tombstone_of c now) <= record_end n c.
Proof.
  unfold record_end, fields_end. simpl. unfold array_end at 1 2 3. simpl.
  change (text_end (text_end (text_end (text_end n (r_title c)) []) []) []) with (text_end n (r_title c)).
  repeat (etrans; [| apply texts_end_ge]; etrans; [| apply array_end_ge; [apply zlen_nonneg | by vm_compute]]).
  do 3 (etrans; [| apply text_end_ge]). done.
Qed.

(** Replacing a record by one that takes less space shrinks the layout. *)
Lemma layout_replace cs1 cs2 c d :
  (forall n, record_end n d <= record_end n c) ->
  let '(n, K, k) := layout (cs1 ++ c :: cs2) in
  let '(n', K', k') := layout (cs1 ++ d :: cs2) in n' <= n /\ K' = K /\ k' = k.
Proof.
  intros Hcd. induction cs2 as [|e cs2 IH] using rev_ind.
  - rewrite !layout_snoc. destruct (layout cs1) as [[n K] k]. unfold place.
    destruct (grow n K k) as [n1 K1]. split_and!; auto.
  - change (c :: cs2 ++ [e]) with ((c :: cs2) ++ [e]). change (d :: cs2 ++ [e]) with ((d :: cs2) ++ [e]).
    rewrite !app_assoc, !layout_snoc.
    destruct (layout (cs1 ++ c :: cs2)) as [[n K] k], (layout (cs1 ++ d :: cs2)) as [[n' K'] k'].
    destruct IH as (Hn & -> & ->). unfold place. pose proof (grow_mono n' n K k Hn). pose proof (grow_cap n' n K k).
    destruct (grow n K k), (grow n' K k). simpl in *. split_and!; auto. by apply record_end_mono.
Qed.

Lemma layout_ok_replace cs1 cs2 c d used cap :
  (forall n, record_end n d <= record_end n c) ->
  layout_ok (cs1 ++ c :: cs2) used cap -> layout_ok (cs1 ++ d :: cs2) used cap.
Proof.
  intros Hcd. pose proof (layout_replace cs1 cs2 c d Hcd) as H. unfold layout_ok.
  destruct (layout (cs1 ++ c :: cs2)) as [[n K] k], (layout (cs1 ++ d :: cs2)) as [[n' K'] k'].
  destruct H as (Hn & -> & ->). pose proof (grow_mono n' n K k Hn). pose proof (grow_cap n' n K k).
  intros [[? ?] | [? ?]]; [left | right]; split; try lia; congruence.
Qed.

(** Slices that are not wiped keep their contents; so do whole records. *)
Lemma record_contents_same a a' r :
  Forall (fun s => slice_view (a_mem a') s = slice_view (a_mem a) s) (record_slices r) ->
  record_contents a' r = record_contents a r.
Proof.
  intros H. unfold record_contents. rewrite record_slices_Forall in H.
  destruct H as (H1 & H2 & H3 & H4 & H5 & H6 & H7). unfold record_map, content.
  rewrite H1, H2, H3, H4. f_equal; apply map_ext_Forall;
    (eapply Forall_impl; [| eassumption]); [by intros s ->.. | intros f [Hn Hv]].
  unfold field_map. by rewrite Hn, Hv.
Qed.

Lemma map_contents_same a a' rs :
  Forall (fun s => slice_view (a_mem a') s = slice_view (a_mem a) s) (concat (map record_slices rs)) ->
  map (record_contents a') rs = map (record_contents a) rs.
Proof.
  intros H. apply Forall_concat in H. rewrite Forall_map in H. apply map_ext_Forall.
  eapply Forall_impl; [| exact H]. intros r. apply record_contents_same.
Qed.

(** The vault after the wipe and the update of the record [r] at index [i]. *)
Definition wiped_arena (a : pv_arena) (r : pv_record pv_slice) : pv_arena :=
  mk_arena (a_base a) (a_capacity a) (a_used a) (a_readonly a) (wipe_slices (a_mem a) (wiped_slices r)).

Definition delete_at (v : pv_vault) (i : nat) (r : pv_record pv_slice) (now : Z) : pv_vault :=
  set_records (set_arena v (wiped_arena (v_arena v) r)) (<[i := tombstone r now]> (v_records v))
    (v_record_capacity v).

Section deletion.
Context (v : pv_vault) (rs1 rs2 : list (pv_record pv_slice)) (r : pv_record pv_slice).
Context (Hwf : vault_wf v) (Hrs : v_records v = rs1 ++ r :: rs2).

Let slices1 := concat (map record_slices rs1).
Let slices2 := concat (map record_slices rs2).

Lemma deletion_slices : vault_slices v = slices1 ++ r_title r :: wiped_slices r ++ slices2.
Proof. unfold vault_slices. by rewrite Hrs, map_app, concat_app. Qed.

Lemma deletion_wiped_ok : Forall (slice_ok (a_used (v_arena v))) (wiped_slices r).
Proof.
  pose proof (vw_slices v Hwf) as H. rewrite deletion_slices in H.
  apply Forall_app in H as [_ H]. apply Forall_cons_iff in H as [_ H]. by apply Forall_app in H as [H _].
Qed.

Lemma deletion_wiped_disjoint : ForallOrdPairs slice_disjoint (wiped_slices r).
Proof.
  pose proof (vw_disjoint v Hwf) as H. rewrite deletion_slices in H.
  apply ForallOrdPairs_app_inv in H as (_ & H & _). apply ForallOrdPairs_cons_inv in H as [_ H'].
  by apply ForallOrdPairs_app_inv in H' as (H' & _ & _).
Qed.

(** The slices the deletion keeps are disjoint from the ones it wipes. *)
Lemma deletion_kept :
  Forall (fun t => slice_ok (a_used (v_arena v)) t /\ Forall (fun s => slice_disjoint s t) (wiped_slices r))
    (slices1 ++ r_title r :: slices2).
Proof.
  pose proof (vw_slices v Hwf) as Hs. pose proof (vw_disjoint v Hwf) as Hd. rewrite deletion_slices in Hs, Hd.
  apply Forall_app in Hs as [Hs1 Hs]. apply Forall_cons_iff in Hs as [Hst Hs]. apply Forall_app in Hs as [_ Hs2].
  apply ForallOrdPairs_app_inv in Hd as (_ & Hd & Hd1). apply ForallOrdPairs_cons_inv in Hd as [Htd Hd'].
  apply ForallOrdPairs_app_inv in Hd' as (_ & _ & Hd2). apply Forall_Forall_swap in Hd2.
  assert (Hsym : forall t l, Forall (slice_disjoint t) l -> Forall (fun s => slice_disjoint s t) l)
    by (intros t l H; eapply Forall_impl; [| exact H]; intros; by apply slice_disjoint_sym).
  apply Forall_app_2; [| constructor].
  - rewrite Forall_forall in Hs1, Hd1 |- *. intros t Hin. split; [auto |]. apply Hsym.
    specialize (Hd1 t Hin). apply Forall_cons_iff in Hd1 as [_ H]. by apply Forall_app in H as [H _].
  - split; [done |]. apply Hsym. by apply Forall_app in Htd as [H _].
  - rewrite Forall_forall in Hs2, Hd2 |- *. auto.
Qed.

Lemma deletion_used : a_used (v_arena v) <= zlen (a_mem (v_arena v)).
Proof. pose proof (wf_mem _ (vw_arena v Hwf)). lia. Qed.

Lemma deletion_views :
  Forall (fun t => slice_view (a_mem (wiped_arena (v_arena v) r)) t = slice_view (a_mem (v_arena v)) t)
    (slices1 ++ r_title r :: slices2).
Proof.
  eapply Forall_impl; [| exact deletion_kept]. intros t [Hok Hd].
  apply (wipe_slices_other (a_used (v_arena v))); auto using deletion_wiped_ok, deletion_used.
Qed.

Lemma deletion_contents now :
  contents (delete_at v (length rs1) r now) =
  map (record_contents (v_arena v)) rs1 ++ tombstone_of (record_contents (v_arena v) r) now ::
  map (record_contents (v_arena v)) rs2.
Proof.
  pose proof deletion_views as H. apply Forall_app in H as [H1 H]. apply Forall_cons_iff in H as [Ht H2].
  unfold contents, delete_at. simpl. rewrite Hrs, insert_app_r_alt, Nat.sub_diag by done. simpl.
  rewrite map_app. simpl. rewrite (map_contents_same (v_arena v) _ rs1), (map_contents_same (v_arena v) _ rs2) by done.
  unfold record_contents at 2, record_map, content. cbn [tombstone r_title]. by rewrite Ht.
Qed.

Lemma deletion_arena_wf : arena_wf (wiped_arena (v_arena v) r).
Proof.
  pose proof (vw_arena v Hwf) as [Hm Hb Hu Hc].
  destruct (wipe_slices_wf _ _ _ deletion_wiped_ok deletion_used Hb) as [Hl Hb'].
  constructor; auto. unfold wiped_arena. cbn [a_mem a_used]. congruence.
Qed.

Lemma deletion_wf now :
  r_revision r <> UINT64_MAX -> 0 <= now <= INT64_MAX -> vault_wf (delete_at v (length rs1) r now).
Proof.
  intros Hrev Hnow. pose proof deletion_kept as Hk.
  assert (Hold : contents v = map (record_contents (v_arena v)) rs1 ++ record_contents (v_arena v) r ::
    map (record_contents (v_arena v)) rs2) by (unfold contents; by rewrite Hrs, map_app).
  assert (Hins : v_records (delete_at v (length rs1) r now) = rs1 ++ tombstone r now :: rs2)
    by (simpl; rewrite Hrs, insert_app_r_alt, Nat.sub_diag by done; done).
  assert (Hsl : vault_slices (delete_at v (length rs1) r now) =
    slices1 ++ r_title r :: replicate 3 (mk_slice None 0) ++ slices2)
    by (unfold vault_slices; by rewrite Hins, map_app, concat_app).
  constructor; rewrite ?deletion_contents, ?Hsl, ?Hins.
  - apply deletion_arena_wf.
  - apply (vw_base v Hwf).
  - apply (vw_capacity v Hwf).
  - apply Forall_app in Hk as [H1 H]. apply Forall_cons_iff in H as [Ht H2].
    apply Forall_app_2; [eapply Forall_impl; [| exact H1]; by intros ? [] |].
    repeat (constructor; [done || apply Ht |]). eapply Forall_impl; [| exact H2]; by intros ? [].
  - pose proof (vw_disjoint v Hwf) as Hd. rewrite deletion_slices in Hd.
    apply ForallOrdPairs_app_inv in Hd as (Hd1 & Hd & Hx1). apply ForallOrdPairs_cons_inv in Hd as [Htd Hd'].
    apply ForallOrdPairs_app_inv in Hd' as (_ & Hd2 & _).
    assert (Hnull : forall l, Forall (slice_disjoint (mk_slice None 0)) l) by (intros l; by apply Forall_true).
    assert (Hnull' : forall t l, Forall (slice_disjoint t) l -> Forall (slice_disjoint t) (replicate 3 (mk_slice None 0) ++ l))
      by (intros t l H; apply Forall_app_2; [| done]; apply Forall_replicate; unfold slice_disjoint; by destruct (s_data t)).
    apply ForallOrdPairs_app; [done | |].
    + constructor; [apply Hnull'; by apply Forall_app in Htd as [_ ?] | simpl; repeat (constructor; [apply Hnull |]); done].
    + eapply Forall_impl; [| exact Hx1]. intros t Ht. apply Forall_cons_iff in Ht as [? Ht].
      constructor; [done |]. apply Hnull'. by apply Forall_app in Ht as [_ ?].
  - pose proof (vw_valid v Hwf) as Hv. rewrite Hold in Hv. apply Forall_app in Hv as [Hv1 Hv].
    apply Forall_cons_iff in Hv as [Hvr Hv2]. apply Forall_app_2; [done |]. constructor; [| done].
    by apply tombstone_valid.
  - pose proof (vw_ids v Hwf) as Hn. rewrite Hrs in Hn. by rewrite map_app in *.
  - pose proof (vw_layout v Hwf) as Hl. rewrite Hold in Hl. simpl.
    eapply layout_ok_replace; [| exact Hl]. intros. apply tombstone_end.
Qed.

End deletion.

Lemma delete_outcome v i s st v' s' :
  vault_wf v -> clock_ok s -> pv_model_delete v (Some i) s = ((st, v'), s') ->
  vault_wf v' /\ same_meta v v' /\
  (st = PV_OK -> exists r now, v_records v !! i = Some r /\
     contents v' = <[i := tombstone_of (record_contents (v_arena v) r) now]> (contents v) /\
     Forall (fun s => v_bytes (slice_view (a_mem (v_arena v')) s) = zeros (s_len s)) (wiped_slices r) /\
     v_updated_ms v' = now /\ v_dirty v' = true) /\
  (st <> PV_OK -> contents v' = contents v /\ v_dirty v' = v_dirty v).
Proof.
  intros Hwf Hclk H. unfold pv_model_delete in H. destruct (v_records v !! i) as [r|] eqn:Hi.
  2: { injection H as <- <- <-. by split_and!. }
  split_if_in H; [injection H as <- <- <-; by split_and! |].
  destruct (Z.eqb_spec (r_revision r) UINT64_MAX); [injection H as <- <- <-; by split_and! |].
  run_bind H. destruct x as [st0 a0]. cbn [fst snd] in H.
  destruct (ensure_writable _ _ _ _ _ (vw_base v Hwf) Heqp) as (Em & Eu & Ec & Eb & _ & Es & _).
  destruct (vault_wf_protect v a0 Hwf Em Eu Ec Eb) as [Hwf0 Hc0].
  destruct (is_ok st0) eqn:E0; cbn [negb] in H.
  2: { injection H as <- <- <-. apply is_ok_false in E0. by split_and!. }
  rewrite bind_run in H. unfold now_ms in H. rewrite Es in H. set (now := pv_now_ms _) in H.
  assert (Hnow : 0 <= now <= INT64_MAX) by apply Hclk. unfold mret, M_ret in H. cbv zeta in H.
  injection H as <- <- <-.
  apply list_elem_of_split_length in Hi as (rs1 & rs2 & Hrs & ->).
  pose proof (deletion_wf (set_arena v a0) rs1 rs2 r Hwf0 Hrs now n Hnow) as Hwf'.
  pose proof (deletion_contents (set_arena v a0) rs1 rs2 r Hwf0 Hrs now) as Hc'.
  split_and!; [by apply (vault_wf_dirty _ now true) in Hwf' | done | | done].
  intros _. exists r, now. split_and!; try done.
  - etrans; [exact Hc' |]. unfold contents. simpl. rewrite Hrs, map_app, insert_app_r_alt, length_map, Nat.sub_diag
      by (rewrite length_map; lia). simpl. unfold record_contents, record_map, content. simpl. by rewrite Em.
  - apply (wipe_slices_zero (a_used a0) (a_mem a0) (wiped_slices r)).
    + apply (deletion_wiped_ok (set_arena v a0) rs1 rs2 r Hwf0 Hrs).
    + apply (deletion_used (set_arena v a0) Hwf0).
    + apply (deletion_wiped_disjoint (set_arena v a0) rs1 rs2 r Hwf0 Hrs).
Qed.

(** ** Lemmas: cloning *)

Lemma slice_view_ok a s : arena_wf a -> slice_ok (a_used a) s -> view_ok (slice_view (a_mem a) s).
Proof.
  intros Hwf Hs. pose proof (wf_mem a Hwf). unfold view_ok, slice_view, slice_ok in *. simpl.
  destruct (s_data s) as [o|]; simpl; [| split; [lia | done]].
  split; [lia |]. intros l [= <-]. split; [apply is_bytes_zsub, Hwf |]. rewrite zlen_zsub; lia.
Qed.

Lemma record_view_source v r :
  vault_wf v -> In r (v_records v) -> source_of (record_view v r) (record_contents (v_arena v) r).
Proof.
  intros Hwf Hin. pose proof (vw_arena v Hwf) as Ha. pose proof (wf_mem _ Ha) as Hm.
  assert (Hok : Forall (slice_ok (a_used (v_arena v))) (record_slices r)).
  { pose proof (vw_slices v Hwf) as H. unfold vault_slices in H. apply Forall_concat in H. rewrite Forall_map, Forall_forall in H. auto. }
  constructor.
  - unfold record_ok, record_view. rewrite record_slices_map, Forall_map.
    eapply Forall_impl; [| exact Hok]. intros. by apply slice_view_ok.
  - unfold record_view. rewrite record_slices_map, Forall_map.
    eapply Forall_impl; [| exact Hok]. intros. eapply slice_view_exact; [done | lia].
  - unfold record_view, record_contents, record_map. simpl. rewrite !map_map. done.
Qed.

Lemma clock_ok_skip s s' : clock_ok s -> s_clock s' = skip 1 (s_clock s) -> clock_ok s'.
Proof. intros H E i. rewrite E. apply (H (S i)). Qed.

Lemma NoDup_snoc_fresh {A} (l k : list A) x : NoDup (l ++ x :: k) -> ~ In x l.
Proof.
  intros H Hin. apply list.NoDup_app in H as (_ & H & _). apply (H x); [by apply list_elem_of_In | left].
Qed.

(** Adding the records of a well-formed vault, one by one, to a vault that
    holds those before them. *)
Lemma clone_loop_run fuel src rs d cs s :
  vault_wf src -> rebuilt d cs -> Forall (fun r => In r (v_records src)) rs ->
  NoDup (map r_id (cs ++ map (record_contents (v_arena src)) rs)) ->
  fits (cs ++ map (record_contents (v_arena src)) rs) -> clock_ok s ->
  exists d' s', clone_loop fuel d src rs s = (Some (PV_OK, d'), s') /\
    rebuilt d' (cs ++ map (record_contents (v_arena src)) rs) /\ same_meta d d'.
Proof.
  intros Hsrc. revert d cs s. induction rs as [|r rs IH]; intros d cs s Hd Hrs Hnd Hfit Hclk; simpl in *.
  { eexists _, _. split; [reflexivity |]. rewrite app_nil_r. split; [done | apply same_meta_refl]. }
  apply Forall_cons_iff in Hrs as [Hr Hrs]. rewrite cons_middle, app_assoc in Hnd, Hfit.
  destruct (add_record_rebuilt fuel d cs (record_view src r) (record_contents (v_arena src) r) s)
    as (d1 & s1 & Hrun & Hd1 & Hm1 & Hs1 & _); auto.
  - by apply record_view_source.
  - pose proof (vw_valid src Hsrc) as Hv. unfold contents in Hv. rewrite Forall_map, Forall_forall in Hv. auto.
  - rewrite map_app, map_app, <- app_assoc in Hnd. by apply NoDup_snoc_fresh in Hnd.
  - by apply fits_prefix in Hfit.
  - rewrite bind_run, Hrun. simpl.
    destruct (IH d1 (cs ++ [record_contents (v_arena src) r]) s1 Hd1 Hrs Hnd Hfit (clock_ok_skip _ _ Hclk Hs1))
      as (d' & s' & Hloop & Hd' & Hm'). exists d', s'. rewrite <- app_assoc in Hd'. split_and!; auto.
    unfold same_meta in *. destruct_and!. split_and!; congruence.
Qed.

Lemma set_times_rebuilt v cs t u d : rebuilt v cs -> rebuilt (set_times v t u d) cs.
Proof. intros [[] ? ? ?]. by constructor. Qed.

Lemma clone_run fuel d src s v0 s0 :
  vault_wf src -> clock_ok s -> pv_model_init d (v_path src) s = ((PV_OK, v0), s0) ->
  exists v' s', pv_model_clone fuel d src s = (Some (PV_OK, v'), s') /\ rebuilt v' (contents src) /\
    v_vault_id v' = v_vault_id src /\ v_device_id v' = v_device_id src /\ v_generation v' = v_generation src /\
    v_created_ms v' = v_created_ms src /\ v_updated_ms v' = v_updated_ms src /\ v_vmk v' = v_vmk src /\
    v_source_hash v' = v_source_hash src /\ v_dirty v' = v_dirty src /\ v_path v' = v_path src.
Proof.
  intros Hsrc Hclk Hinit. unfold pv_model_clone. rewrite bind_run, Hinit.
  apply model_init_ok in Hinit as (-> & _ & Hs). cbn [fst snd is_ok negb]. cbv zeta. rewrite bind_run.
  set (d0 := mk_vault _ _ _ _ _ _ _ _ _ _ _ _).
  assert (Hd0 : rebuilt d0 []) by (destruct (fresh_rebuilt (v_path src)) as [[] ? ? ?]; by constructor).
  destruct (vault_wf_fits src Hsrc) as [Hfit _].
  destruct (clone_loop_run fuel src (v_records src) d0 [] s0 Hsrc Hd0) as (d' & s' & Hrun & Hd' & Hm); auto.
  - by apply Forall_forall.
  - simpl. fold (contents src). rewrite contents_ids. apply (vw_ids src Hsrc).
  - intros i. rewrite Hs. apply Hclk.
  - rewrite Hrun. cbn [is_ok negb]. eexists _, _. split; [reflexivity |].
    split; [by apply set_times_rebuilt |]. unfold same_meta in Hm. destruct_and!. by split_and!.
Qed.

(** ** Lemmas: searching *)

(** A record the text search reports. *)
Definition live_match (v : pv_vault) (query : list Z) (r : pv_record pv_slice) : bool :=
  negb (is_deleted r) && record_matches (record_view v r) query.

(** The index of the first element that satisfies [p]. *)
Definition first_index {A} (p : A -> bool) (l : list A) : option nat := fst <$> list_find (fun x => p x = true) l.

Lemma first_index_cons {A} (p : A -> bool) x l :
  first_index p (x :: l) = if p x then Some 0%nat else S <$> first_index p l.
Proof.
  unfold first_index. simpl. destruct (decide (p x = true)) as [-> | H]; [done |].
  apply not_true_is_false in H as ->. by destruct (list_find _ l) as [[? ?]|].
Qed.

Lemma find_scan_eq v query i rs first count :
  find_scan v query i rs first count =
  (match first with Some _ => first | None => Nat.add i <$> first_index (live_match v query) rs end,
   count + zlen (List.filter (live_match v query) rs)).
Proof.
  revert i first count. induction rs as [|r rs IH]; intros i first count.
  { simpl. rewrite Z.add_0_r. by destruct first. }
  rewrite first_index_cons. simpl.
  replace (is_deleted r || negb (record_matches (record_view v r) query)) with (negb (live_match v query r))
    by (unfold live_match; by destruct (is_deleted r), (record_matches _ _)).
  destruct (live_match v query r); simpl; rewrite IH.
  - rewrite zlen_cons. f_equal; [destruct first; simpl; f_equal; lia | lia].
  - destruct first; [done |]. f_equal. destruct (first_index _ rs); simpl; [f_equal; lia | done].
Qed.

Lemma find_scan_start v query rs :
  find_scan v query 0 rs None 0 =
  (first_index (live_match v query) rs, zlen (List.filter (live_match v query) rs)).
Proof. rewrite find_scan_eq. simpl. f_equal. by destruct (first_index (live_match v query) rs). Qed.

(** ** The vault as a state machine *)

Inductive vault_reachable : pv_vault -> Prop :=
| reach_init v0 path s v s' :
    pv_model_init v0 path s = ((PV_OK, v), s') -> vault_reachable v
| reach_add fuel v src s st v' s' :
    vault_reachable v -> record_ok src -> record_typed src -> clock_ok s ->
    pv_model_add_record fuel v src s = (Some (st, v'), s') -> vault_reachable v'
| reach_delete v i s st v' s' :
    vault_reachable v -> clock_ok s -> pv_model_delete v (Some i) s = ((st, v'), s') -> vault_reachable v'
| reach_readonly v s st a s' :
    vault_reachable v -> pv_arena_set_readonly (v_arena v) s = ((st, a), s') -> vault_reachable (set_arena v a)
| reach_readwrite v s st a s' :
    vault_reachable v -> pv_arena_set_readwrite (v_arena v) s = ((st, a), s') -> vault_reachable (set_arena v a)
| reach_clone fuel d v s v' s' :
    vault_reachable v -> clock_ok s -> pv_model_clone fuel d v s = (Some (PV_OK, v'), s') -> vault_reachable v'.

Lemma clone_ok_wf fuel d v s v' s' :
  vault_wf v -> clock_ok s -> pv_model_clone fuel d v s = (Some (PV_OK, v'), s') -> vault_wf v'.
Proof.
  intros Hwf Hclk H. destruct (pv_model_init d (v_path v) s) as [[st v0] s0] eqn:E.
  destruct (decide (st = PV_OK)) as [-> | Hne].
  - destruct (clone_run fuel d v s v0 s0 Hwf Hclk E) as (v1 & s1 & Hrun & [Hwf1 _ _ _] & _).
    rewrite Hrun in H. by injection H as <- _.
  - unfold pv_model_clone in H. rewrite bind_run, E in H. apply is_ok_false in Hne. simpl in H.
    rewrite Hne in H. simpl in H. by injection H as -> _ _.
Qed.

Lemma vault_reachable_inv v : vault_reachable v -> vault_wf v.
Proof.
  induction 1 as [v0 path s v s' H | fuel v src s st v' s' _ IH Hok Hty Hclk H | v i s st v' s' _ IH Hclk H
    | v s st a s' _ IH H | v s st a s' _ IH H | fuel d v s v' s' _ IH Hclk H].
  - apply model_init_ok in H as (-> & _ & _). apply fresh_rebuilt.
  - by destruct (add_record_outcome _ _ _ _ _ _ _ IH Hok Hty Hclk H) as [[] _].
  - by destruct (delete_outcome _ _ _ _ _ _ IH Hclk H).
  - destruct (set_protection_same _ _ _ _ _ (or_introl H)) as (? & ? & ? & ?). by apply vault_wf_protect.
  - destruct (set_protection_same _ _ _ _ _ (or_intror H)) as (? & ? & ? & ?). by apply vault_wf_protect.
  - by eapply clone_ok_wf.
Qed.

(** ** Properties *)

(** C18: in every vault reachable by initialising, adding, deleting, changing the
    arena's protection and cloning, under any failures of the platform, the
    records' slices lie inside the arena and never overlap, identifiers are
    unique and non-zero, every record passes [pv_model_validate_record], the
    contents fit a fresh vault, and there are at most 4096 records. *)
Theorem vault_reachable_wf (v : pv_vault) (Hr : vault_reachable v) :
  vault_wf v /\ fits (contents v) /\ v_record_count v <= 4096.
Proof.
  pose proof (vault_reachable_inv v Hr) as Hwf. split; [done |]. rewrite <- zlen_contents. by apply vault_wf_fits.
Qed.

(** C26: [pv_model_add_record] on a well-formed vault keeps the invariant; on
    success the contents are the old ones followed by a copy of the source
    record with the chosen identifier, which no other record has, and with
    revision and times filled in, and the vault is marked dirty; on any error
    (limit, format, duplicate identifier, no memory, protection) contents, dirty
    flag and modification time are unchanged. *)
Theorem model_add_record_spec (fuel : nat) (v : pv_vault) (src : pv_record pv_view) (s : sys)
    (st : pv_status) (v' : pv_vault) (s' : sys)
    (Hwf : vault_wf v) (Hok : record_ok src) (Hty : record_typed src) (Hclk : clock_ok s)
    (Hrun : pv_model_add_record fuel v src s = (Some (st, v'), s')) :
  let now := pv_now_ms (s_clock s 0%nat) in
  vault_wf v' /\ same_meta v v' /\
  (st = PV_OK -> exists id,
     contents v' = contents v ++ [stamped id now (record_map v_bytes src)] /\
     (id_is_zero (r_id src) = false -> id = r_id src) /\ ~ In id (map r_id (v_records v)) /\
     v_updated_ms v' = now /\ v_dirty v' = true) /\
  (st <> PV_OK -> contents v' = contents v /\ v_dirty v' = v_dirty v /\ v_updated_ms v' = v_updated_ms v).
Proof.
  destruct (add_record_outcome _ _ _ _ _ _ _ Hwf Hok Hty Hclk Hrun) as [[Hwf' Hm Hyes Hno] _].
  split_and!; auto. intros Hst. destruct (Hyes Hst) as (id & Hc & Hid & Hu & Hd). exists id. split_and!; auto.
  pose proof (vw_ids v' Hwf') as Hnd. rewrite <- contents_ids, Hc, map_app in Hnd. simpl in Hnd.
  apply NoDup_snoc_fresh in Hnd. by rewrite contents_ids in Hnd.
Qed.

Definition example_src : pv_record pv_view :=
  mk_record (zeros 16) 0 0 0 0 (view_of [109; 97; 105; 108]) (view_of [97]) (view_of [112; 119])
    (mk_view None 0) [view_of [120]] [] [mk_field (view_of [107]) (view_of [118]) 1].

Lemma view_of_ok l : is_bytes l -> view_ok (view_of l).
Proof. intros. split; [apply zlen_nonneg |]. simpl. intros ? [= <-]. split; [done | lia]. Qed.

Ltac example_view :=
  (apply view_of_ok; repeat constructor; by vm_compute) || (split; [by vm_compute | done]).

Lemma example_src_ok : record_ok example_src /\ record_typed example_src.
Proof.
  split.
  - apply record_slices_Forall. simpl. split_and!; [example_view .. | | |].
    + constructor; [example_view | constructor].
    + constructor.
    + constructor; [split; example_view | constructor].
  - constructor; simpl; try by vm_compute. apply is_bytes_zeros.
Qed.

Lemma example_clock : clock_ok example_sys.
Proof. intros i. by vm_compute. Qed.

Definition after_add (v : pv_vault) (src : pv_record pv_view) (s : sys) : pv_vault :=
  match fst (pv_model_add_record 1 v src s) with Some (_, v') => v' | None => v end.

Definition example_vault : pv_vault := after_add (fresh_vault [112]) example_src example_sys.

Lemma example_add_run :
  pv_model_add_record 1 (fresh_vault [112]) example_src example_sys =
  (Some (PV_OK, example_vault), snd (pv_model_add_record 1 (fresh_vault [112]) example_src example_sys)).
Proof. by vm_compute. Qed.

Lemma example_reachable : vault_reachable example_vault.
Proof.
  destruct example_src_ok as [Hok Hty]. eapply reach_add; [| exact Hok | exact Hty | exact example_clock | exact example_add_run].
  apply (reach_init vault_zero [112] example_sys _ (snd (pv_model_init vault_zero [112] example_sys))). by vm_compute.
Qed.

Lemma vault_reachable_wf_witness :
  vault_wf example_vault /\ fits (contents example_vault) /\ v_record_count example_vault <= 4096.
Proof. apply vault_reachable_wf, example_reachable. Defined.

Lemma model_add_record_spec_witness :
  let now := pv_now_ms (s_clock example_sys 0%nat) in
  vault_wf example_vault /\ same_meta (fresh_vault [112]) example_vault /\
  (PV_OK = PV_OK -> exists id,
     contents example_vault = contents (fresh_vault [112]) ++ [stamped id now (record_map v_bytes example_src)] /\
     (id_is_zero (r_id example_src) = false -> id = r_id example_src) /\
     ~ In id (map r_id (v_records (fresh_vault [112]))) /\
     v_updated_ms example_vault = now /\ v_dirty example_vault = true) /\
  (PV_OK <> PV_OK -> contents example_vault = contents (fresh_vault [112]) /\
     v_dirty example_vault = v_dirty (fresh_vault [112]) /\
     v_updated_ms example_vault = v_updated_ms (fresh_vault [112])).
Proof.
  exact (model_add_record_spec 1 (fresh_vault [112]) example_src example_sys PV_OK example_vault _
    (rb_wf _ _ (fresh_rebuilt [112])) (proj1 example_src_ok) (proj2 example_src_ok) example_clock example_add_run).
Defined.

(** The [k]-th identifier [randombytes_buf] will produce. *)
Definition nth_draw (s : sys) (k : nat) : list Z :=
  map (fun i => u8 (s_rand s (k * Z.to_nat PV_RECORD_ID_BYTES + i)%nat)) (seq 0 (Z.to_nat PV_RECORD_ID_BYTES)).

Lemma nth_draw_skip ma ml mp rand clk freed k :
  nth_draw (mk_sys ma ml mp (skip (Z.to_nat PV_RECORD_ID_BYTES) rand) clk freed) k =
  nth_draw (mk_sys ma ml mp rand clk freed) (S k).
Proof.
  unfold nth_draw. generalize (Z.to_nat PV_RECORD_ID_BYTES) as n. intros n. apply map_ext. intros i.
  cbn [s_rand]. unfold skip. do 2 f_equal. lia.
Qed.

Lemma randombytes_draw ma ml mp rand clk freed :
  randombytes_buf PV_RECORD_ID_BYTES (mk_sys ma ml mp rand clk freed) =
  (nth_draw (mk_sys ma ml mp rand clk freed) 0, mk_sys ma ml mp (skip (Z.to_nat PV_RECORD_ID_BYTES) rand) clk freed).
Proof.
  unfold randombytes_buf, nth_draw. generalize (Z.to_nat PV_RECORD_ID_BYTES) as n. intros n. by f_equal.
Qed.

Lemma random_id_S k v :
  random_id (S k) v =
  (id ← randombytes_buf PV_RECORD_ID_BYTES;
   if id_is_zero id || negb (is_null (pv_model_find_id v id)) then random_id k v else mret (Some id)).
Proof. done. Qed.

Lemma random_id_terminates k v s :
  id_is_zero (nth_draw s k) = false -> pv_model_find_id v (nth_draw s k) = None ->
  fst (random_id (S k) v s) <> None.
Proof.
  revert s. induction k as [|k IH]; intros [ma ml mp rand clk freed] Hz Hf; rewrite random_id_S, bind_run, randombytes_draw.
  - cbv beta iota. by rewrite Hz, Hf.
  - rewrite <- nth_draw_skip in Hz, Hf. cbv beta iota. split_if; [by apply IH | done].
Qed.

Lemma ensure_capacity_records v : v_records (snd (ensure_record_capacity v)) = v_records v.
Proof.
  unfold ensure_record_capacity. repeat split_if; try done. destruct (pv_size_mul _ _); [| done].
  by destruct (pv_arena_alloc _ _ _) as [[]].
Qed.

(** The identifier loop of [pv_model_add_record] ends: if the [k]-th draw of
    16 random bytes is non-zero and not in use, [k + 1] iterations suffice and
    the call returns. *)
Theorem model_add_record_terminates (k : nat) (v : pv_vault) (src : pv_record pv_view) (s : sys)
    (Hb : a_base (v_arena v) = true) (Hz : id_is_zero (nth_draw s k) = false)
    (Hf : pv_model_find_id v (nth_draw s k) = None) :
  fst (pv_model_add_record (S k) v src s) <> None.
Proof.
  unfold pv_model_add_record. rewrite bind_run. unfold now_ms at 1. cbv zeta. split_if; [done |]. split_if; [done |].
  rewrite bind_run. destruct (_ (mk_sys _ _ _ _ _ _)) as [[st0 a0] s1] eqn:E.
  destruct (ensure_writable _ _ _ _ _ Hb E) as (_ & _ & _ & _ & _ & _ & Hs). cbn [fst snd]. split_if; [done |].
  pose proof (ensure_capacity_records (set_arena v a0)) as Hr.
  destruct (ensure_record_capacity (set_arena v a0)) as [st1 v1]. cbn [fst snd] in Hr. split_if; [done |]. rewrite bind_run.
  assert (Hid : fst ((if id_is_zero (r_id src) then random_id (S k) v1 else mret (Some (r_id src))) s1) <> None).
  { destruct (id_is_zero (r_id src)); [| done]. apply random_id_terminates.
    - unfold nth_draw. by rewrite Hs.
    - unfold pv_model_find_id, nth_draw. by rewrite Hs, Hr. }
  destruct (_ s1) as [[id|] s2]; [| done]. split_if; [done |].
  by destruct (copy_record (v_arena v1) id _ src) as [[? [?|]] ?].
Qed.

Lemma model_add_record_terminates_witness :
  fst (pv_model_add_record 2 example_vault example_src example_sys) <> None.
Proof. apply (model_add_record_terminates 1 example_vault example_src example_sys); by vm_compute. Defined.

(** C33: [pv_model_delete] on a live record keeps the invariant, replaces the
    record by a tombstone that keeps identifier, title and creation time and
    has the next revision, leaves every other record as it was, and every
    wiped slice (username, password, notes, URLs, tags, fields) reads as zeros
    in the arena; when it fails nothing changes. *)
Theorem model_delete_wipes (v : pv_vault) (i : nat) (s : sys) (st : pv_status) (v' : pv_vault) (s' : sys)
    (Hwf : vault_wf v) (Hclk : clock_ok s) (Hrun : pv_model_delete v (Some i) s = ((st, v'), s')) :
  vault_wf v' /\ same_meta v v' /\
  (st = PV_OK -> exists r now, v_records v !! i = Some r /\
     contents v' = <[i := tombstone_of (record_contents (v_arena v) r) now]> (contents v) /\
     Forall (fun s => v_bytes (slice_view (a_mem (v_arena v')) s) = zeros (s_len s)) (wiped_slices r) /\
     v_updated_ms v' = now /\ v_dirty v' = true) /\
  (st <> PV_OK -> contents v' = contents v /\ v_dirty v' = v_dirty v).
Proof. by apply (delete_outcome v i s st v' s'). Qed.

Definition after_delete (v : pv_vault) (i : nat) (s : sys) : pv_vault := snd (fst (pv_model_delete v (Some i) s)).

Lemma example_delete_run :
  pv_model_delete example_vault (Some 0%nat) example_sys =
  ((PV_OK, after_delete example_vault 0 example_sys), snd (pv_model_delete example_vault (Some 0%nat) example_sys)).
Proof. by vm_compute. Qed.

Lemma model_delete_wipes_witness :
  let v := example_vault in let v' := after_delete example_vault 0 example_sys in
  vault_wf v' /\ same_meta v v' /\
  (PV_OK = PV_OK -> exists r now, v_records v !! 0%nat = Some r /\
     contents v' = <[0%nat := tombstone_of (record_contents (v_arena v) r) now]> (contents v) /\
     Forall (fun s => v_bytes (slice_view (a_mem (v_arena v')) s) = zeros (s_len s)) (wiped_slices r) /\
     v_updated_ms v' = now /\ v_dirty v' = true) /\
  (PV_OK <> PV_OK -> contents v' = contents v /\ v_dirty v' = v_dirty v).
Proof.
  exact (model_delete_wipes example_vault 0 example_sys PV_OK _ _
    (vault_reachable_inv _ example_reachable) example_clock example_delete_run).
Defined.

(** Cloning a well-formed vault never fails once the fresh vault could be
    allocated, draws no identifier (any fuel is enough) and yields a vault with
    the same records, metadata and key, again well formed. *)
Theorem model_clone_complete (fuel : nat) (d src v0 : pv_vault) (s s0 : sys)
    (Hwf : vault_wf src) (Hclk : clock_ok s) (Hinit : pv_model_init d (v_path src) s = ((PV_OK, v0), s0)) :
  exists v' s', pv_model_clone fuel d src s = (Some (PV_OK, v'), s') /\
    vault_wf v' /\ contents v' = contents src /\
    v_vault_id v' = v_vault_id src /\ v_device_id v' = v_device_id src /\ v_generation v' = v_generation src /\
    v_created_ms v' = v_created_ms src /\ v_updated_ms v' = v_updated_ms src /\ v_vmk v' = v_vmk src /\
    v_source_hash v' = v_source_hash src /\ v_dirty v' = v_dirty src /\ v_path v' = v_path src.
Proof.
  destruct (clone_run fuel d src s v0 s0 Hwf Hclk Hinit) as (v' & s' & Hrun & [Hwf' _ Hc _] & Hm).
  exists v', s'. auto.
Qed.

Lemma model_clone_complete_witness :
  exists v' s', pv_model_clone 0 vault_zero example_vault example_sys = (Some (PV_OK, v'), s') /\
    vault_wf v' /\ contents v' = contents example_vault /\
    v_vault_id v' = v_vault_id example_vault /\ v_device_id v' = v_device_id example_vault /\
    v_generation v' = v_generation example_vault /\
    v_created_ms v' = v_created_ms example_vault /\ v_updated_ms v' = v_updated_ms example_vault /\
    v_vmk v' = v_vmk example_vault /\ v_source_hash v' = v_source_hash example_vault /\
    v_dirty v' = v_dirty example_vault /\ v_path v' = v_path example_vault.
Proof.
  apply (model_clone_complete 0 vault_zero example_vault (fresh_vault [112]) example_sys
    (snd (pv_model_init vault_zero [112] example_sys)));
    [exact (vault_reachable_inv _ example_reachable) | exact example_clock | by vm_compute].
Defined.

Lemma find_id_first i rs id :
  find_id_loop i rs id = Nat.add i <$> first_index (fun r => bytes_eqb (r_id r) id) rs.
Proof.
  revert i. induction rs as [|r rs IH]; intros i; [done |]. rewrite first_index_cons. simpl.
  destruct (bytes_eqb (r_id r) id); simpl; [f_equal; lia |]. rewrite IH.
  destruct (first_index _ rs); simpl; [f_equal; lia | done].
Qed.

(** [pv_model_find] with a non-empty query: a query that is the hexadecimal
    identifier of a live record finds that record; a query that is no
    identifier of the vault finds the first live record whose title, username,
    a URL or a tag contains it, and reports the number of such records; a query
    that is the identifier of a deleted record returns the deleted record with
    the number of live text matches. *)
Theorem model_find_exact (v : pv_vault) (query : list Z) (Hq : query <> []) :
  pv_model_find v (Some query) =
  let count := zlen (List.filter (live_match v query) (v_records v)) in
  match pv_hex_decode query PV_RECORD_ID_BYTES with
  | Some id =>
      match first_index (fun r => bytes_eqb (r_id r) id) (v_records v) with
      | Some i => (Some i, if default false (is_deleted <$> v_records v !! i) then count else 1)
      | None => (first_index (live_match v query) (v_records v), count)
      end
  | None => (first_index (live_match v query) (v_records v), count)
  end.
Proof.
  destruct query as [|q query]; [done |]. unfold pv_model_find. set (qs := q :: query) in *. cbv zeta.
  destruct (pv_hex_decode qs PV_RECORD_ID_BYTES) as [id|]; [| apply find_scan_start].
  unfold pv_model_find_id. rewrite (find_id_first 0). destruct (first_index _ (v_records v)) as [i|] eqn:Hi.
  - simpl. assert (exists r, v_records v !! i = Some r) as [r Hr].
    { unfold first_index in Hi. destruct (list_find _ _) as [[j r]|] eqn:E; [| done]. simpl in Hi. injection Hi as ->.
      apply list_find_Some in E as [E _]. eauto. }
    rewrite Hr. simpl. destruct (is_deleted r); simpl; [| done]. by rewrite find_scan_eq.
  - apply find_scan_start.
Qed.

Lemma model_find_exact_witness :
  pv_model_find example_vault (Some [97; 105]) =
  let count := zlen (List.filter (live_match example_vault [97; 105]) (v_records example_vault)) in
  match pv_hex_decode [97; 105] PV_RECORD_ID_BYTES with
  | Some id =>
      match first_index (fun r => bytes_eqb (r_id r) id) (v_records example_vault) with
      | Some i => (Some i, if default false (is_deleted <$> v_records example_vault !! i) then count else 1)
      | None => (first_index (live_match example_vault [97; 105]) (v_records example_vault), count)
      end
  | None => (first_index (live_match example_vault [97; 105]) (v_records example_vault), count)
  end.
Proof. by apply (model_find_exact example_vault [97; 105]). Defined.

(** ["000102030405060708090a0b0c0d0e0f"], the identifier of the example record. *)
Definition example_query : list Z := concat (map hex_digits (map Z.of_nat (seq 0 16))).

(** A record whose title is the hexadecimal identifier of the first one. *)
Definition decoy_src : pv_record pv_view :=
  mk_record (replicate 16 7) 1 0 0 0 (view_of (example_query)) (mk_view None 0) (mk_view None 0)
    (mk_view None 0) [] [] [].

(** C39: The shell's lookup ([pv_model_find] with one match) can select a deleted
    record: in a reachable vault with a deleted record and a live record whose
    title contains the deleted one's identifier, the query of that identifier
    reports one match and returns the deleted record, not the live one. *)
Theorem model_find_deleted_record :
  exists v query, vault_reachable v /\
    pv_model_find v (Some query) = (Some 0%nat, 1) /\
    is_deleted <$> v_records v !! 0%nat = Some true /\
    live_match v query <$> v_records v !! 1%nat = Some true.
Proof.
  exists (after_add (after_delete example_vault 0 example_sys) decoy_src example_sys), (example_query).
  split; [| by vm_compute].
  eapply (reach_add 1 (after_delete example_vault 0 example_sys) decoy_src example_sys PV_OK).
  - eapply reach_delete; [exact example_reachable | exact example_clock | exact example_delete_run].
  - apply record_slices_Forall. simpl. split_and!; [example_view .. | constructor | constructor | constructor].
  - constructor; try by vm_compute. by apply Forall_replicate.
  - exact example_clock.
  - by vm_compute.
Qed.
