(* ===== verification/Cbor.v ===== *)
(** * The CBOR codec of the vault's plaintext

    [src/cbor_codec.c]: a bounded writer and a strict reader of the schema-1
    map, and the pass through libcbor's streaming decoder before it.

    The writer and reader are the C structures; every [reader_*] function
    returns the value it stores through its pointer ([None] for [false]) and
    the reader. [cbor_stream_decode] is libcbor's: an operation of the class
    [Libcbor]. *)

From S2P Require Import Prelude Status Util Sys Arena Model.

Definition PV_CBOR_SCHEMA_VERSION : Z := 1.

(** ** Writer *)

Record cbor_writer := mk_writer {
  w_data : list Z;     (** [data[0 .. len)] *)
  w_cap : Z;
  w_status : pv_status
}.

Definition w_len (w : cbor_writer) : Z := zlen (w_data w).

Definition writer_bytes (w : cbor_writer) (data : option (list Z)) (len : Z) : cbor_writer :=
  if negb (is_ok (w_status w)) then w else
  if len =? 0 then w else
  match data with
  | None => mk_writer (w_data w) (w_cap w) PV_ERR_FORMAT
  | Some bytes =>
      match pv_size_add (w_len w) len with
      | None => mk_writer (w_data w) (w_cap w) PV_ERR_LIMIT
      | Some end_ =>
          if w_cap w <? end_ then mk_writer (w_data w) (w_cap w) PV_ERR_LIMIT
          else mk_writer (w_data w ++ take (Z.to_nat len) bytes) (w_cap w) (w_status w)
      end
  end.

Definition writer_u8 (w : cbor_writer) (value : Z) : cbor_writer := writer_bytes w (Some [value]) 1.

(** [bytes[1 + i] = value >> ((width - 1 - i) * 8)] for [i < width]. *)
Definition be_bytes (width : nat) (value : Z) : list Z :=
  map (fun i => u8 (Z.shiftr value (Z.of_nat (width - 1 - i) * 8))) (seq 0 width).

Definition writer_type_value (w : cbor_writer) (major value : Z) : cbor_writer :=
  let lead := u8 (Z.shiftl major 5) in
  if value <? 24 then writer_u8 w (Z.lor lead (u8 value)) else
  if value <=? UINT8_MAX then writer_bytes w (Some [Z.lor lead 24; u8 value]) 2 else
  if value <=? UINT16_MAX then
    writer_bytes w (Some [Z.lor lead 25; u8 (Z.shiftr value 8); u8 value]) 3
  else if value <=? UINT32_MAX then writer_bytes w (Some (Z.lor lead 26 :: be_bytes 4 value)) 5
  else writer_bytes w (Some (Z.lor lead 27 :: be_bytes 8 value)) 9.

Definition writer_uint (w : cbor_writer) (value : Z) : cbor_writer := writer_type_value w 0 value.
Definition writer_map (w : cbor_writer) (count : Z) : cbor_writer := writer_type_value w 5 count.
Definition writer_array (w : cbor_writer) (count : Z) : cbor_writer := writer_type_value w 4 count.

Definition writer_blob (w : cbor_writer) (major : Z) (slice : pv_view) : cbor_writer :=
  writer_bytes (writer_type_value w major (v_len slice)) (v_data slice) (v_len slice).

Definition encode_field (w : cbor_writer) (field : pv_custom_field pv_view) : cbor_writer :=
  let w := writer_map w 3 in
  let w := writer_uint w 0 in
  let w := writer_blob w 3 (f_name field) in
  let w := writer_uint w 1 in
  let w := writer_blob w 2 (f_value field) in
  let w := writer_uint w 2 in
  writer_uint w (f_flags field).

Definition encode_texts (w : cbor_writer) (l : list pv_view) : cbor_writer :=
  fold_left (fun w s => writer_blob w 3 s) l w.

Definition encode_record (w : cbor_writer) (record : pv_record pv_view) : cbor_writer :=
  let id := mk_view (Some (r_id record)) PV_RECORD_ID_BYTES in
  let w := writer_map w 12 in
  let w := writer_uint w 0 in
  let w := writer_blob w 2 id in
  let w := writer_uint w 1 in
  let w := writer_uint w (r_revision record) in
  let w := writer_uint w 2 in
  let w := writer_uint w (u64 (r_created_ms record)) in
  let w := writer_uint w 3 in
  let w := writer_uint w (u64 (r_updated_ms record)) in
  let w := writer_uint w 4 in
  let w := writer_uint w (r_flags record) in
  let w := writer_uint w 5 in
  let w := writer_blob w 3 (r_title record) in
  let w := writer_uint w 6 in
  let w := writer_blob w 3 (r_username record) in
  let w := writer_uint w 7 in
  let w := writer_blob w 2 (r_password record) in
  let w := writer_uint w 8 in
  let w := writer_array w (zlen (r_urls record)) in
  let w := encode_texts w (r_urls record) in
  let w := writer_uint w 9 in
  let w := writer_blob w 3 (r_notes record) in
  let w := writer_uint w 10 in
  let w := writer_array w (zlen (r_tags record)) in
  let w := encode_texts w (r_tags record) in
  let w := writer_uint w 11 in
  let w := writer_array w (zlen (r_fields record)) in
  fold_left encode_field (r_fields record) w.

(** The loop that validates every record before anything is allocated. *)
Fixpoint validate_records (vault : pv_vault) (records : list (pv_record pv_slice)) : pv_status :=
  match records with
  | [] => PV_OK
  | r :: records' =>
      let status := pv_model_validate_record (record_view vault r) in
      if negb (is_ok status) then status else validate_records vault records'
  end.

(** From the initialised writer to the last record. *)
Definition encode_vault (w : cbor_writer) (vault : pv_vault) : cbor_writer :=
  let device_id := mk_view (Some (v_device_id vault)) PV_DEVICE_ID_BYTES in
  let w := writer_map w 6 in
  let w := writer_uint w 0 in
  let w := writer_uint w PV_CBOR_SCHEMA_VERSION in
  let w := writer_uint w 1 in
  let w := writer_uint w (v_generation vault) in
  let w := writer_uint w 2 in
  let w := writer_blob w 2 device_id in
  let w := writer_uint w 3 in
  let w := writer_uint w (u64 (v_created_ms vault)) in
  let w := writer_uint w 4 in
  let w := writer_uint w (u64 (v_updated_ms vault)) in
  let w := writer_uint w 5 in
  let w := writer_array w (v_record_count vault) in
  fold_left encode_record (map (record_view vault) (v_records vault)) w.

(** The status and the contents of [output] ([None] when [output->data] is
    [NULL]). *)
Definition pv_cbor_encode (vault : pv_vault) : M (pv_status * option (list Z)) :=
  if (v_created_ms vault <? 0) || (v_updated_ms vault <? 0) then mret (PV_ERR_USAGE, None) else
  if or_all (v_device_id vault) =? 0 then mret (PV_ERR_FORMAT, None) else
  let status := validate_records vault (v_records vault) in
  if negb (is_ok status) then mret (status, None) else
  allocated ← sodium_malloc;
  if negb allocated then mret (PV_ERR_SECURE_MEMORY, None) else
  locked ← sodium_mlock;
  if negb locked then mret (PV_ERR_SECURE_MEMORY, None) else
  let w := encode_vault (mk_writer [] PV_MAX_PLAINTEXT PV_OK) vault in
  if negb (is_ok (w_status w)) then mret (w_status w, None)
  else mret (PV_OK, Some (w_data w)).

(** ** Reader *)

Record cbor_reader := mk_reader {
  rd_data : list Z;
  rd_len : Z;
  rd_pos : Z;
  rd_status : pv_status
}.

(** Functions on a reader that return [bool]; [&&]/[||] chains of them stop at
    the first [false], as the bind does. *)
Definition RD (A : Type) : Type := cbor_reader -> option A * cbor_reader.

#[global] Instance RD_ret : MRet RD := fun A x r => (Some x, r).
#[global] Instance RD_bind : MBind RD := fun A B f m r =>
  match m r with
  | (None, r') => (None, r')
  | (Some x, r') => f x r'
  end.

Definition set_status (r : cbor_reader) (status : pv_status) : cbor_reader :=
  mk_reader (rd_data r) (rd_len r) (rd_pos r) status.
Definition set_pos (r : cbor_reader) (pos : Z) : cbor_reader :=
  mk_reader (rd_data r) (rd_len r) pos (rd_status r).

Definition reader_take : RD Z := fun r =>
  if negb (is_ok (rd_status r)) || (rd_len r <=? rd_pos r) then (None, set_status r PV_ERR_FORMAT)
  else (Some (znth (rd_data r) (rd_pos r)), set_pos r (rd_pos r + 1)).

(** [decoded = (decoded << 8) | data[pos++]], [width] times. *)
Definition be_get (bytes : list Z) : Z :=
  fold_left (fun decoded b => Z.lor (u64 (Z.shiftl decoded 8)) b) bytes 0.

Definition reader_value (expected_major : Z) : RD Z := fun r =>
  match reader_take r with
  | (None, r) => (None, set_status r PV_ERR_FORMAT)
  | (Some initial, r) =>
      if negb (Z.shiftr initial 5 =? expected_major) then (None, set_status r PV_ERR_FORMAT) else
      let additional := Z.land initial 0x1f in
      if additional <? 24 then (Some additional, r) else
      let width :=
        if additional =? 24 then Some 1
        else if additional =? 25 then Some 2
        else if additional =? 26 then Some 4
        else if additional =? 27 then Some 8
        else None in
      match width with
      | None => (None, set_status r PV_ERR_FORMAT)
      | Some width =>
          if rd_len r - rd_pos r <? width then (None, set_status r PV_ERR_FORMAT) else
          let decoded := be_get (zsub (rd_data r) (rd_pos r) width) in
          let r := set_pos r (rd_pos r + width) in
          if ((width =? 1) && (decoded <? 24)) || ((width =? 2) && (decoded <=? UINT8_MAX)) ||
             ((width =? 4) && (decoded <=? UINT16_MAX)) || ((width =? 8) && (decoded <=? UINT32_MAX))
          then (None, set_status r PV_ERR_FORMAT)
          else (Some decoded, r)
      end
  end.

Definition reader_expect_uint (expected : Z) : RD unit := fun r =>
  match reader_value 0 r with
  | (Some value, r) =>
      if negb (value =? expected) then (None, set_status r PV_ERR_FORMAT) else (Some tt, r)
  | (None, r) => (None, set_status r PV_ERR_FORMAT)
  end.

Definition reader_fail {A} (status : pv_status) : RD A := fun r =>
  (None, if is_ok (rd_status r) then set_status r status else r).

Definition bytes_all_zero (data : list Z) : bool := or_all data =? 0.

Definition reader_count (major maximum : Z) : RD Z := fun r =>
  match reader_value major r with
  | (None, r) => (None, r)
  | (Some value, r) =>
      if (maximum <? value) || (SIZE_MAX <? value) then (None, set_status r PV_ERR_LIMIT)
      else (Some value, r)
  end.

Definition reader_slice (major maximum : Z) : RD pv_view := fun r =>
  match reader_value major r with
  | (None, r) => (None, r)
  | (Some length, r) =>
      if maximum <? length then (None, set_status r PV_ERR_LIMIT) else
      if rd_len r - rd_pos r <? length then (None, set_status r PV_ERR_FORMAT) else
      let slice := mk_view (Some (zsub (rd_data r) (rd_pos r) length)) length in
      let r := set_pos r (rd_pos r + length) in
      if (major =? 3) && negb (pv_utf8_valid slice) then (None, set_status r PV_ERR_FORMAT)
      else (Some slice, r)
  end.

Definition decode_field : RD (pv_custom_field pv_view) :=
  map_count ← reader_count 5 3;
  if negb (map_count =? 3) then reader_fail PV_ERR_FORMAT else
  _ ← reader_expect_uint 0;
  name ← reader_slice 3 PV_MAX_FIELD_NAME;
  if v_len name =? 0 then reader_fail PV_ERR_FORMAT else
  _ ← reader_expect_uint 1;
  value ← reader_slice 2 PV_MAX_FIELD_VALUE;
  _ ← reader_expect_uint 2;
  flags ← reader_value 0;
  if (UINT32_MAX <? flags) || negb (Z.land flags (Z.lxor UINT64_MAX PV_FIELD_SECRET) =? 0)
  then reader_fail PV_ERR_FORMAT
  else mret (mk_field name value flags).

(** [for (i = 0; i < count; ++i) if (!p(reader, &items[i])) goto fail;] *)
Fixpoint reader_items {A} (p : RD A) (count : nat) : RD (list A) :=
  match count with
  | O => mret []
  | S count' => x ← p; l ← reader_items p count'; mret (x :: l)
  end.

(** [decode_record] up to the call of [pv_model_add_record]. *)
Definition decode_temporary : RD (pv_record pv_view) :=
  count ← reader_count 5 12;
  if negb (count =? 12) then reader_fail PV_ERR_FORMAT else
  _ ← reader_expect_uint 0;
  id ← reader_slice 2 PV_RECORD_ID_BYTES;
  if negb (v_len id =? PV_RECORD_ID_BYTES) || bytes_all_zero (v_bytes id)
  then reader_fail PV_ERR_FORMAT else
  _ ← reader_expect_uint 1;
  revision ← reader_value 0;
  if revision =? 0 then reader_fail PV_ERR_FORMAT else
  _ ← reader_expect_uint 2;
  created_ms ← reader_value 0;
  if INT64_MAX <? created_ms then reader_fail PV_ERR_FORMAT else
  _ ← reader_expect_uint 3;
  updated_ms ← reader_value 0;
  if INT64_MAX <? updated_ms then reader_fail PV_ERR_FORMAT else
  _ ← reader_expect_uint 4;
  flags ← reader_value 0;
  if (UINT32_MAX <? flags) ||
     negb (Z.land flags (Z.lxor UINT64_MAX (Z.lor PV_RECORD_DELETED PV_RECORD_FAVORITE)) =? 0)
  then reader_fail PV_ERR_FORMAT else
  _ ← reader_expect_uint 5;
  title ← reader_slice 3 PV_MAX_TITLE;
  if v_len title =? 0 then reader_fail PV_ERR_FORMAT else
  _ ← reader_expect_uint 6;
  username ← reader_slice 3 PV_MAX_USERNAME;
  _ ← reader_expect_uint 7;
  password ← reader_slice 2 PV_MAX_PASSWORD;
  _ ← reader_expect_uint 8;
  count ← reader_count 4 PV_MAX_COLLECTION_ITEMS;
  urls ← reader_items (reader_slice 3 PV_MAX_URL) (Z.to_nat count);
  _ ← reader_expect_uint 9;
  notes ← reader_slice 3 PV_MAX_NOTES;
  _ ← reader_expect_uint 10;
  count ← reader_count 4 PV_MAX_COLLECTION_ITEMS;
  tags ← reader_items (reader_slice 3 PV_MAX_TAG) (Z.to_nat count);
  _ ← reader_expect_uint 11;
  count ← reader_count 4 PV_MAX_COLLECTION_ITEMS;
  fields ← reader_items decode_field (Z.to_nat count);
  mret (mk_record (v_bytes id) revision created_ms updated_ms flags
          title username password notes urls tags fields).

(** The result ([true] on success), the reader and the vault; [None] when the
    identifier loop of [pv_model_add_record] ran out of [fuel]. *)
Definition decode_record (fuel : nat) (reader : cbor_reader) (vault : pv_vault)
  : M (option (bool * cbor_reader * pv_vault)) :=
  match decode_temporary reader with
  | (None, reader) => mret (Some (false, snd (reader_fail (A := unit) PV_ERR_FORMAT reader), vault))
  | (Some temporary, reader) =>
      added ← pv_model_add_record fuel vault temporary;
      match added with
      | None => mret None
      | Some (PV_OK, vault) => mret (Some (true, reader, vault))
      | Some (PV_ERR_EXISTS, vault) => mret (Some (false, set_status reader PV_ERR_FORMAT, vault))
      | Some (status, vault) => mret (Some (false, set_status reader status, vault))
      end
  end.

Fixpoint decode_records (fuel : nat) (count : nat) (reader : cbor_reader) (vault : pv_vault)
  : M (option (bool * cbor_reader * pv_vault)) :=
  match count with
  | O => mret (Some (true, reader, vault))
  | S count' =>
      decoded ← decode_record fuel reader vault;
      match decoded with
      | Some (true, reader, vault) => decode_records fuel count' reader vault
      | other => mret other
      end
  end.

(** ** libcbor *)

Inductive cbor_decoder_status := CBOR_DECODER_FINISHED | CBOR_DECODER_NEDATA | CBOR_DECODER_ERROR.

Class Libcbor := {
  (** The status and [read] of one call with [cbor_empty_callbacks]. *)
  cbor_stream_decode : list Z -> cbor_decoder_status * Z
}.

Section decoding.
Context `{Libcbor}.

(** The [while] loop on the bytes from [offset] on; every iteration consumes at
    least one, so the input length is enough fuel. *)
Fixpoint well_formed_loop (fuel : nat) (input : list Z) : bool :=
  match input with
  | [] => true
  | _ =>
      match fuel with
      | O => false
      | S fuel' =>
          match cbor_stream_decode input with
          | (CBOR_DECODER_FINISHED, read) =>
              if (read =? 0) || (zlen input <? read) then false
              else well_formed_loop fuel' (drop (Z.to_nat read) input)
          | _ => false
          end
      end
  end.

Definition libcbor_well_formed (input : list Z) : bool := well_formed_loop (length input) input.

Definition set_generation (v : pv_vault) (generation : Z) : pv_vault :=
  mk_vault (v_arena v) (v_vault_id v) (v_device_id v) generation (v_created_ms v) (v_updated_ms v)
    (v_records v) (v_record_capacity v) (v_vmk v) (v_source_hash v) (v_dirty v) (v_path v).
Definition set_device_id (v : pv_vault) (device_id : list Z) : pv_vault :=
  mk_vault (v_arena v) (v_vault_id v) device_id (v_generation v) (v_created_ms v) (v_updated_ms v)
    (v_records v) (v_record_capacity v) (v_vmk v) (v_source_hash v) (v_dirty v) (v_path v).

(** [if (!p(&reader)) return reader.status;] and the rest. *)
Definition read_or_return {A} (p : RD A) (reader : cbor_reader) (vault : pv_vault)
    (rest : A -> cbor_reader -> M (option (pv_status * pv_vault))) : M (option (pv_status * pv_vault)) :=
  match p reader with
  | (None, reader) => mret (Some (rd_status reader, vault))
  | (Some x, reader) => rest x reader
  end.

(** From the loop over the records on. *)
Definition decode_body (fuel : nat) (record_count created updated : Z) (reader : cbor_reader)
    (vault : pv_vault) : M (option (pv_status * pv_vault)) :=
  decoded ← decode_records fuel (Z.to_nat record_count) reader vault;
  match decoded with
  | None => mret None
  | Some (false, reader, vault) =>
      mret (Some (if is_ok (rd_status reader) then PV_ERR_FORMAT else rd_status reader, vault))
  | Some (true, reader, vault) =>
      if negb (rd_pos reader =? rd_len reader) then mret (Some (PV_ERR_FORMAT, vault)) else
      let vault := set_times vault created updated false in
      r ← pv_arena_set_readonly (v_arena vault);
      mret (Some (fst r, set_arena vault (snd r)))
  end.

Definition pv_cbor_decode (fuel : nat) (input : list Z) (vault : pv_vault)
  : M (option (pv_status * pv_vault)) :=
  if (zlen input =? 0) || (PV_MAX_PLAINTEXT <? zlen input) || negb (v_record_count vault =? 0)
  then mret (Some (PV_ERR_USAGE, vault)) else
  if negb (libcbor_well_formed input) then mret (Some (PV_ERR_FORMAT, vault)) else
  let reader := mk_reader input (zlen input) 0 PV_OK in
  read_or_return (reader_count 5 6) reader vault (fun map_count reader =>
  if negb (map_count =? 6) then mret (Some (PV_ERR_FORMAT, vault)) else
  read_or_return (_ ← reader_expect_uint 0; _ ← reader_expect_uint PV_CBOR_SCHEMA_VERSION;
                  _ ← reader_expect_uint 1; reader_value 0) reader vault (fun generation reader =>
  let vault := set_generation vault generation in
  read_or_return (_ ← reader_expect_uint 2; reader_slice 2 PV_DEVICE_ID_BYTES) reader vault
    (fun device_id reader =>
  if negb (v_len device_id =? PV_DEVICE_ID_BYTES) || bytes_all_zero (v_bytes device_id)
  then mret (Some (PV_ERR_FORMAT, vault)) else
  let vault := set_device_id vault (v_bytes device_id) in
  if or_all (v_device_id vault) =? 0 then mret (Some (PV_ERR_FORMAT, vault)) else
  read_or_return (_ ← reader_expect_uint 3; reader_value 0) reader vault (fun top_created reader =>
  if INT64_MAX <? top_created then mret (Some (PV_ERR_FORMAT, vault)) else
  read_or_return (_ ← reader_expect_uint 4; reader_value 0) reader vault (fun top_updated reader =>
  if INT64_MAX <? top_updated then mret (Some (PV_ERR_FORMAT, vault)) else
  read_or_return (_ ← reader_expect_uint 5; reader_count 4 (PV_MAX_PLAINTEXT / 64)) reader vault
    (fun record_count reader =>
  decode_body fuel record_count top_created top_updated reader vault)))))).

End decoding.
