(* ===== verification/CborGrammar.v ===== *)
(** * The grammar the CBOR reader recognises

    The reference encoding of data items (RFC 8949, shortest form), and for
    every function of the reader the relation between the value it returns and
    the bytes it consumes. A relation composes along the binds of the reader,
    in both directions: what is read was encoded so, and what is encoded so is
    read. *)

From S2P Require Import Prelude Status Util Sys Arena Model Cbor.

(** ** Reference encoding *)

Definition be_put (width : nat) (value : Z) : list Z := rev (le_put width value).

(** The head of a data item: major type and argument in the shortest form. *)
Definition cbor_head (major value : Z) : list Z :=
  if value <? 24 then [major * 32 + value]
  else if value <=? UINT8_MAX then major * 32 + 24 :: be_put 1 value
  else if value <=? UINT16_MAX then major * 32 + 25 :: be_put 2 value
  else if value <=? UINT32_MAX then major * 32 + 26 :: be_put 4 value
  else major * 32 + 27 :: be_put 8 value.

(** ** Lemmas: big-endian integers *)

Lemma be_put_length n v : length (be_put n v) = n.
Proof. unfold be_put. by rewrite length_rev, le_put_length. Qed.

Lemma be_put_bytes n v : is_bytes (be_put n v).
Proof. apply Forall_rev, le_put_bytes. Qed.

Lemma be_bytes_put n v : be_bytes n v = be_put n v.
Proof.
  unfold be_put. induction n as [|n IH]; [done |]. rewrite le_put_snoc, rev_app_distr, <- IH. simpl.
  unfold be_bytes. cbn [seq map]. f_equal; [do 3 f_equal; lia |].
  rewrite <- seq_shift, map_map. apply map_ext_in. intros i Hi. apply in_seq in Hi. do 4 f_equal. lia.
Qed.

Lemma be_get_le l : is_bytes l -> (length l <= 8)%nat -> be_get l = le_get (rev l).
Proof.
  unfold be_get. induction l as [|b l IH] using rev_ind; intros Hb Hl; [done |].
  rewrite is_bytes_app in Hb. destruct Hb as [Hb Hb1]. rewrite length_app in Hl. simpl in Hl.
  rewrite fold_left_app, rev_app_distr. cbn [fold_left app rev le_get]. rewrite IH by (auto; lia).
  rewrite Z.lor_comm. f_equal. unfold u64. apply Z.mod_small.
  pose proof (le_get_nonneg (rev l) (Forall_rev Hb)) as Hle. rewrite Z.shiftl_mul_pow2 by lia.
  assert (256 ^ zlen (rev l) <= 256 ^ 7) by (apply Z.pow_le_mono_r; unfold zlen; rewrite ?length_rev; lia).
  change (256 ^ 7) with 72057594037927936 in *. change (2 ^ 8) with 256. lia.
Qed.

Lemma be_get_put n v : (n <= 8)%nat -> 0 <= v < 256 ^ Z.of_nat n -> be_get (be_put n v) = v.
Proof.
  intros. rewrite be_get_le by (rewrite ?be_put_length; auto using be_put_bytes).
  unfold be_put. rewrite rev_involutive. by apply le_get_put.
Qed.

Lemma be_put_get l : is_bytes l -> (length l <= 8)%nat -> be_put (length l) (be_get l) = l.
Proof.
  intros Hb Hl. rewrite be_get_le by done. unfold be_put. rewrite <- (length_rev l), le_put_get.
  - apply rev_involutive.
  - by apply Forall_rev.
Qed.

Lemma be_get_bound l : is_bytes l -> (length l <= 8)%nat -> 0 <= be_get l < 256 ^ zlen l.
Proof.
  intros Hb Hl. rewrite be_get_le by done. pose proof (le_get_nonneg (rev l) (Forall_rev Hb)) as H.
  unfold zlen in *. by rewrite length_rev in H.
Qed.

(** ** Lemmas: heads *)

Lemma cbor_head_bytes m v : 0 <= m < 8 -> 0 <= v -> is_bytes (cbor_head m v).
Proof.
  intros. unfold cbor_head. repeat split_if;
    (apply is_bytes_cons; [unfold is_byte; lia | auto using be_put_bytes, is_bytes_nil]).
Qed.

Lemma cbor_head_length m v :
  zlen (cbor_head m v) =
  if v <? 24 then 1 else if v <=? UINT8_MAX then 2 else if v <=? UINT16_MAX then 3
  else if v <=? UINT32_MAX then 5 else 9.
Proof. unfold cbor_head. by repeat split_if. Qed.

Lemma cbor_head_length_le m v n : v <= n -> zlen (cbor_head m v) <= zlen (cbor_head m n).
Proof. intros. rewrite !cbor_head_length. unfold UINT8_MAX, UINT16_MAX, UINT32_MAX. repeat split_if; lia. Qed.

Lemma lead_byte m b : 0 <= m < 8 -> 0 <= b < 32 -> Z.lor (u8 (Z.shiftl m 5)) b = m * 32 + b.
Proof.
  intros. unfold u8. rewrite Z.shiftl_mul_pow2 by lia. change (2 ^ 5) with 32.
  rewrite Z.mod_small by lia. apply (lor_add m b 5); lia.
Qed.

(** ** The reader's state *)

Definition reader_wf (r : cbor_reader) : Prop :=
  rd_len r = zlen (rd_data r) /\ 0 <= rd_pos r <= rd_len r /\ is_bytes (rd_data r) /\ rd_status r = PV_OK.

(** The bytes not read yet, and the reader [n] bytes further. *)
Definition rest (r : cbor_reader) : list Z := drop (Z.to_nat (rd_pos r)) (rd_data r).
Definition adv (r : cbor_reader) (n : Z) : cbor_reader := set_pos r (rd_pos r + n).

Lemma rest_len r : reader_wf r -> zlen (rest r) = rd_len r - rd_pos r.
Proof. intros (Hl & Hp & _). unfold rest, zlen in *. rewrite length_drop. lia. Qed.

Lemma rest_bytes r : reader_wf r -> is_bytes (rest r).
Proof. intros (_ & _ & Hb & _). by apply is_bytes_drop. Qed.

Lemma rest_adv r n : reader_wf r -> 0 <= n -> rest (adv r n) = drop (Z.to_nat n) (rest r).
Proof. intros (_ & Hp & _) Hn. unfold rest, adv. simpl. rewrite drop_drop. f_equal. lia. Qed.

Lemma adv_wf r n : reader_wf r -> 0 <= n <= zlen (rest r) -> reader_wf (adv r n).
Proof.
  intros Hwf Hn. rewrite rest_len in Hn by done. destruct Hwf as (Hl & Hp & Hb & Hs).
  unfold reader_wf, adv. simpl. split_and!; auto; lia.
Qed.

Lemma adv_split r e tl : reader_wf r -> rest r = e ++ tl -> reader_wf (adv r (zlen e)) /\ rest (adv r (zlen e)) = tl.
Proof.
  intros Hwf Hr. split.
  - apply adv_wf; [done |]. rewrite Hr. zlia.
  - rewrite rest_adv, Hr by (auto; apply zlen_nonneg). unfold zlen. by rewrite Nat2Z.id, drop_app_length.
Qed.

Lemma adv_adv r n m : adv (adv r n) m = adv r (n + m).
Proof. unfold adv, set_pos. simpl. f_equal. lia. Qed.

Lemma adv_0 r : adv r 0 = r.
Proof. destruct r. unfold adv, set_pos. simpl. f_equal. lia. Qed.

(** ** Codecs *)

(** [p] returns [a] exactly on the inputs that start with an [e] related to
    [a], consumes that [e], and reports an error otherwise. *)
Record codec {A} (p : RD A) (R : A -> list Z -> Prop) : Prop := {
  codec_sound : forall r a r', reader_wf r -> p r = (Some a, r') ->
    exists e tl, R a e /\ rest r = e ++ tl /\ r' = adv r (zlen e);
  codec_complete : forall r a e tl, reader_wf r -> R a e -> rest r = e ++ tl ->
    p r = (Some a, adv r (zlen e));
  codec_error : forall r r', reader_wf r -> p r = (None, r') -> rd_status r' <> PV_OK
}.

Lemma codec_ext {A} (p : RD A) (R R' : A -> list Z -> Prop) :
  codec p R -> (forall a e, R a e <-> R' a e) -> codec p R'.
Proof.
  intros [Hs Hc He] HR. constructor; [| | done].
  - intros r a r' Hwf H. destruct (Hs r a r' Hwf H) as (e & tl & HRa & Hr). exists e, tl. by rewrite <- HR.
  - intros r a e tl Hwf H. rewrite <- HR in H. by apply Hc.
Qed.

Lemma codec_ret {A} (x : A) : codec (mret x) (fun a e => a = x /\ e = []).
Proof.
  constructor.
  - intros r a r' _ [= <- <-]. exists [], (rest r). split_and!; auto. by rewrite adv_0.
  - intros r a e tl _ [-> ->] _. by rewrite adv_0.
  - by intros.
Qed.

Lemma codec_bind {A B} (p : RD A) (k : A -> RD B) R S :
  codec p R -> (forall a, codec (k a) (S a)) ->
  codec (p ≫= k) (fun b e => exists a e1 e2, R a e1 /\ S a b e2 /\ e = e1 ++ e2).
Proof.
  intros [Ps Pc Pe] Hk. constructor.
  - intros r b r' Hwf H. unfold mbind, RD_bind in H. destruct (p r) as [[a|] r1] eqn:E; [| done].
    destruct (Ps r a r1 Hwf E) as (e1 & t1 & HR & Hr & ->). destruct (adv_split r e1 t1 Hwf Hr) as [Hwf1 Hr1].
    destruct (codec_sound _ _ (Hk a) _ _ _ Hwf1 H) as (e2 & t2 & HS & Hr2 & ->).
    exists (e1 ++ e2), t2. split_and!; [by exists a, e1, e2 | rewrite Hr, <- app_assoc; congruence |].
    by rewrite adv_adv, zlen_app.
  - intros r b e tl Hwf (a & e1 & e2 & HR & HS & ->) Hr. rewrite <- app_assoc in Hr.
    destruct (adv_split r e1 _ Hwf Hr) as [Hwf1 Hr1]. unfold mbind, RD_bind. rewrite (Pc r a e1 _ Hwf HR Hr).
    rewrite (codec_complete _ _ (Hk a) _ _ _ _ Hwf1 HS Hr1), adv_adv, zlen_app. done.
  - intros r r' Hwf H. unfold mbind, RD_bind in H. destruct (p r) as [[a|] r1] eqn:E.
    + destruct (Ps r a r1 Hwf E) as (e1 & t1 & HR & Hr & ->). destruct (adv_split r e1 t1 Hwf Hr) as [Hwf1 _].
      by apply (codec_error _ _ (Hk a) _ _ Hwf1 H).
    + injection H as <-. by apply (Pe r).
Qed.

Lemma codec_guard {A} (c : bool) status (p : RD A) R :
  status <> PV_OK -> codec p R -> codec (if c then reader_fail status else p) (fun a e => c = false /\ R a e).
Proof.
  intros Hst [Hs Hc He]. destruct c.
  - constructor.
    + by intros.
    + by intros r a e tl _ [? _].
    + intros r r' (_ & _ & _ & Hr) H. unfold reader_fail in H. injection H as <-. by rewrite Hr.
  - constructor; auto.
    + intros r a r' Hwf H. destruct (Hs r a r' Hwf H) as (e & tl & ? & ? & ?). exists e, tl. by split_and!.
    + intros r a e tl Hwf [_ HR]. by apply Hc.
Qed.

(** ** The reader's primitives *)

Lemma reader_take_eq r :
  reader_wf r ->
  reader_take r = match rest r with
                  | [] => (None, set_status r PV_ERR_FORMAT)
                  | b :: _ => (Some b, adv r 1)
                  end.
Proof.
  intros Hwf. pose proof (rest_len r Hwf) as Hl. destruct Hwf as (Hlen & Hp & Hb & Hs).
  unfold reader_take. rewrite Hs. cbn [is_ok negb orb]. unfold rest in *.
  destruct (drop (Z.to_nat (rd_pos r)) (rd_data r)) as [|b tl] eqn:E; autorewrite with pv in Hl.
  - by replace (rd_len r <=? rd_pos r) with true by lia.
  - pose proof (zlen_nonneg tl). replace (rd_len r <=? rd_pos r) with false by lia. f_equal. f_equal.
    unfold znth. assert (Hn : rd_data r !! Z.to_nat (rd_pos r) = Some b).
    { rewrite <- (Nat.add_0_r (Z.to_nat (rd_pos r))), <- lookup_drop, E. done. }
    by apply nth_lookup_Some.
Qed.

(** The argument of the head at the start of [l], and its length. *)
Definition head_width (additional : Z) : option Z :=
  if additional =? 24 then Some 1
  else if additional =? 25 then Some 2
  else if additional =? 26 then Some 4
  else if additional =? 27 then Some 8
  else None.

Definition head_minimal (width decoded : Z) : bool :=
  negb (((width =? 1) && (decoded <? 24)) || ((width =? 2) && (decoded <=? UINT8_MAX)) ||
        ((width =? 4) && (decoded <=? UINT16_MAX)) || ((width =? 8) && (decoded <=? UINT32_MAX))).

Definition head_parse (l : list Z) : option (Z * Z * Z) :=
  match l with
  | [] => None
  | initial :: tl =>
      let additional := Z.land initial 0x1f in
      if additional <? 24 then Some (Z.shiftr initial 5, additional, 1) else
      match head_width additional with
      | None => None
      | Some width =>
          if zlen tl <? width then None else
          let decoded := be_get (take (Z.to_nat width) tl) in
          if head_minimal width decoded then Some (Z.shiftr initial 5, decoded, 1 + width) else None
      end
  end.

Lemma reader_value_eq m r :
  reader_wf r ->
  match head_parse (rest r) with
  | Some (major, v, n) =>
      if major =? m then reader_value m r = (Some v, adv r n)
      else exists r', reader_value m r = (None, r') /\ rd_status r' = PV_ERR_FORMAT
  | None => exists r', reader_value m r = (None, r') /\ rd_status r' = PV_ERR_FORMAT
  end.
Proof.
  intros Hwf. unfold reader_value. rewrite reader_take_eq by done. unfold head_parse.
  destruct (rest r) as [|b tl] eqn:Hr; [by eexists |].
  destruct (adv_split r [b] tl Hwf Hr) as [Hwf1 Hr1]. change (zlen [b]) with 1 in Hwf1, Hr1.
  pose proof (rest_len _ Hwf1) as Hl1. rewrite Hr1 in Hl1.
  cbv zeta. fold (head_width (Z.land b 31)).
  destruct (Z.eqb_spec (Z.shiftr b 5) m) as [Hm | Hm]; cbn [negb].
  2: { destruct (head_width (Z.land b 31)); repeat split_if; try lia; by eexists. }
  assert (Hmb : (Z.shiftr b 5 =? m) = true) by lia.
  split_if; [by rewrite Hmb |]. destruct (head_width (Z.land b 31)) as [w|] eqn:Hw; [| by eexists].
  rewrite <- Hl1. destruct (zlen tl <? w) eqn:Ew; [by eexists |].
  assert (Hz : zsub (rd_data (adv r 1)) (rd_pos (adv r 1)) w = take (Z.to_nat w) tl)
    by (unfold zsub; fold (rest (adv r 1)); by rewrite Hr1).
  rewrite Hz. unfold head_minimal. destruct (_ || _); cbn [negb]; [by eexists |].
  rewrite Hmb. f_equal. apply adv_adv.
Qed.

Lemma head_byte m a : 0 <= m < 8 -> 0 <= a < 32 -> Z.shiftr (m * 32 + a) 5 = m /\ Z.land (m * 32 + a) 0x1f = a.
Proof.
  intros. rewrite Z.shiftr_div_pow2 by lia. change 0x1f with (Z.ones 5). rewrite Z.land_ones by lia.
  change (2 ^ 5) with 32. split; Z.div_mod_to_equations; lia.
Qed.

Lemma head_byte_inv b : is_byte b ->
  b = Z.shiftr b 5 * 32 + Z.land b 0x1f /\ 0 <= Z.shiftr b 5 < 8 /\ 0 <= Z.land b 0x1f < 32.
Proof.
  unfold is_byte. intros. rewrite Z.shiftr_div_pow2 by lia. change 0x1f with (Z.ones 5). rewrite Z.land_ones by lia.
  change (2 ^ 5) with 32. Z.div_mod_to_equations. lia.
Qed.

Lemma head_parse_wide m a w v tl :
  0 <= m < 8 -> head_width a = Some (Z.of_nat w) -> 24 <= a < 32 -> (w <= 8)%nat -> 0 <= v < 256 ^ Z.of_nat w ->
  head_minimal (Z.of_nat w) v = true ->
  head_parse ((m * 32 + a :: be_put w v) ++ tl) = Some (m, v, 1 + Z.of_nat w).
Proof.
  intros Hm Hw Ha Hw8 Hv Hmin. destruct (head_byte m a Hm ltac:(lia)) as [H1 H2]. simpl. rewrite H1, H2.
  replace (a <? 24) with false by lia. rewrite Hw, zlen_app. unfold zlen at 1. rewrite be_put_length.
  pose proof (zlen_nonneg tl). replace (_ <? Z.of_nat w) with false by lia.
  rewrite Nat2Z.id, take_app_le, firstn_all2, be_get_put by (rewrite ?be_put_length; done).
  by rewrite Hmin.
Qed.

Lemma head_parse_head m v tl :
  0 <= m < 8 -> 0 <= v <= UINT64_MAX -> head_parse (cbor_head m v ++ tl) = Some (m, v, zlen (cbor_head m v)).
Proof.
  intros Hm Hv. rewrite cbor_head_length. unfold cbor_head, UINT64_MAX, UINT32_MAX, UINT16_MAX, UINT8_MAX in *.
  destruct (v <? 24) eqn:E1.
  { destruct (head_byte m v Hm ltac:(lia)) as [H1 H2]. simpl. by rewrite H1, H2, E1. }
  repeat split_if;
    [apply (head_parse_wide m 24 1) | apply (head_parse_wide m 25 2)
     | apply (head_parse_wide m 26 4) | apply (head_parse_wide m 27 8)];
    try done; try lia; unfold head_minimal, UINT8_MAX, UINT16_MAX, UINT32_MAX; simpl; lia.
Qed.

Lemma head_parse_sound l m v n :
  is_bytes l -> head_parse l = Some (m, v, n) ->
  0 <= m < 8 /\ 0 <= v <= UINT64_MAX /\ n = zlen (cbor_head m v) /\ exists tl, l = cbor_head m v ++ tl.
Proof.
  intros Hb. destruct l as [|b tl]; [done |]. unfold head_parse. apply Forall_cons_iff in Hb as [Hb Htl].
  destruct (head_byte_inv b Hb) as (Heq & Hm & Ha). rewrite cbor_head_length. unfold cbor_head. split_if.
  { intros [= <- <- <-]. rewrite Heqb0. unfold UINT64_MAX. split_and!; try lia. exists tl. simpl. by rewrite <- Heq. }
  destruct (head_width (Z.land b 0x1f)) as [w|] eqn:Hw; [| done]. split_if; [done |]. split_if; [| done].
  intros [= <- <- <-].
  assert (Hw' : (w = 1 /\ Z.land b 31 = 24) \/ (w = 2 /\ Z.land b 31 = 25) \/ (w = 4 /\ Z.land b 31 = 26) \/ (w = 8 /\ Z.land b 31 = 27)).
  { unfold head_width in Hw. repeat split_if_in Hw; simplify_eq; lia. }
  set (ws := take (Z.to_nat w) tl) in *.
  assert (Hlen : length ws = Z.to_nat w) by (unfold ws, zlen in *; rewrite length_take; lia).
  assert (Hwb : is_bytes ws) by (by apply is_bytes_take).
  pose proof (be_get_bound ws Hwb ltac:(lia)) as Hbnd. pose proof (be_put_get ws Hwb ltac:(lia)) as Hput.
  assert (Hsplit : tl = ws ++ drop (Z.to_nat w) tl) by (symmetry; apply take_drop).
  set (tl' := drop (Z.to_nat w) tl) in *. clearbody ws tl'. subst tl.
  rewrite Hlen in Hput. replace (zlen ws) with w in Hbnd by (unfold zlen; lia).
  unfold head_minimal, UINT8_MAX, UINT16_MAX, UINT32_MAX, UINT64_MAX in *.
  destruct Hw' as [[-> Ha'] | [[-> Ha'] | [[-> Ha'] | [-> Ha']]]]; simpl in Heqb2, Hbnd;
    repeat split_if; try lia; (split_and!; try lia); exists tl';
    rewrite <- app_comm_cons; (apply (f_equal2 cons); [lia |]); apply (f_equal (fun l => l ++ tl')); symmetry; exact Hput.
Qed.

Lemma codec_value m : 0 <= m < 8 ->
  codec (reader_value m) (fun v e => 0 <= v <= UINT64_MAX /\ e = cbor_head m v).
Proof.
  intros Hm. constructor.
  - intros r v r' Hwf H. pose proof (reader_value_eq m r Hwf) as Heq.
    destruct (head_parse (rest r)) as [[[mj v'] n]|] eqn:E; [| destruct Heq as (? & Heq & _); congruence].
    destruct (Z.eqb_spec mj m) as [-> |]; [| destruct Heq as (? & Heq & _); congruence].
    rewrite Heq in H. injection H as <- <-.
    destruct (head_parse_sound _ _ _ _ (rest_bytes r Hwf) E) as (_ & Hv & -> & tl & Htl). by exists (cbor_head m v'), tl.
  - intros r v e tl Hwf [Hv ->] Hr. pose proof (reader_value_eq m r Hwf) as Heq.
    rewrite Hr, head_parse_head, Z.eqb_refl in Heq by done. done.
  - intros r r' Hwf H. pose proof (reader_value_eq m r Hwf) as Heq.
    destruct (head_parse (rest r)) as [[[mj v'] n]|]; [destruct (mj =? m) |]; rewrite H in Heq;
      try (destruct Heq as (? & [= <-] & Hs); by rewrite Hs); done.
Qed.

(** Post-processing of a value that may only refuse it. *)
Lemma codec_filter {A B} (p : RD A) (q : A -> option B) R (err : A -> cbor_reader -> cbor_reader)
    (f : RD B) :
  codec p R ->
  (forall r, f r = match p r with
             | (None, r1) => (None, r1)
             | (Some a, r1) => match q a with Some b => (Some b, r1) | None => (None, err a r1) end
             end) ->
  (forall a r, rd_status (err a r) <> PV_OK) ->
  codec f (fun b e => exists a, R a e /\ q a = Some b).
Proof.
  intros [Ps Pc Pe] Hf Herr. constructor.
  - intros r b r' Hwf H. rewrite Hf in H. destruct (p r) as [[a|] r1] eqn:E; [| done].
    destruct (q a) as [b'|] eqn:Eq; [| done]. injection H as <- <-.
    destruct (Ps r a r1 Hwf E) as (e & tl & HR & Hr & ->). exists e, tl. split_and!; eauto.
  - intros r b e tl Hwf (a & HR & Hq) Hr. by rewrite Hf, (Pc r a e tl Hwf HR Hr), Hq.
  - intros r r' Hwf H. rewrite Hf in H. destruct (p r) as [[a|] r1] eqn:E.
    + destruct (q a); [done |]. injection H as <-. apply Herr.
    + injection H as <-. by apply (Pe r).
Qed.

Lemma codec_expect n : 0 <= n <= UINT64_MAX -> codec (reader_expect_uint n) (fun _ e => e = cbor_head 0 n).
Proof.
  intros Hn. constructor.
  - intros r a r' Hwf H. unfold reader_expect_uint in H. destruct (reader_value 0 r) as [[v|] r1] eqn:E; [| done].
    destruct (Z.eqb_spec v n) as [-> |]; [| done]. injection H as <- <-.
    by destruct (codec_sound _ _ (codec_value 0 ltac:(lia)) _ _ _ Hwf E) as (e & tl & (_ & ->) & ? & ?); eauto.
  - intros r [] e tl Hwf -> Hr. unfold reader_expect_uint.
    by rewrite (codec_complete _ _ (codec_value 0 ltac:(lia)) r n _ tl Hwf (conj Hn eq_refl) Hr), Z.eqb_refl.
  - intros r r' Hwf H. unfold reader_expect_uint in H.
    destruct (reader_value 0 r) as [[v|] r1]; [destruct (v =? n); [done |] |]; by injection H as <-.
Qed.

Lemma codec_count m maximum : 0 <= m < 8 -> maximum <= UINT64_MAX ->
  codec (reader_count m maximum) (fun v e => 0 <= v <= maximum /\ e = cbor_head m v).
Proof.
  intros Hm Hmax. eapply codec_ext.
  - eapply (codec_filter (reader_value m) (fun v => if (maximum <? v) || (SIZE_MAX <? v) then None else Some v) _
             (fun _ r => set_status r PV_ERR_LIMIT)); [by apply codec_value | | done].
    intros r. unfold reader_count. destruct (reader_value m r) as [[v|] r1]; [| done]. by split_if.
  - intros v e. unfold SIZE_MAX, UINT64_MAX in *. split.
    + intros (v' & (Hv & ->) & Hq). split_if_in Hq; [done |]. injection Hq as <-. split; [lia | done].
    + intros (Hv & ->). exists v. split; [split; [lia | done] |]. split_if; [lia | done].
Qed.

(** The byte or text string a slice of the reader denotes. *)
Definition blob_ok (m maximum : Z) (l : list Z) : Prop :=
  is_bytes l /\ zlen l <= maximum /\ (m = 3 -> pv_utf8_valid (view_of l) = true).

Lemma codec_slice m maximum : 0 <= m < 8 -> maximum <= UINT64_MAX ->
  codec (reader_slice m maximum)
    (fun s e => exists l, s = view_of l /\ blob_ok m maximum l /\ e = cbor_head m (zlen l) ++ l).
Proof.
  intros Hm Hmax. pose proof (codec_value m Hm) as [Vs Vc Ve]. constructor.
  - intros r s r' Hwf H. unfold reader_slice in H. destruct (reader_value m r) as [[n|] r1] eqn:E; [| done].
    destruct (Vs _ _ _ Hwf E) as (e1 & tl & (Hn & ->) & Hr & ->). destruct (adv_split _ _ _ Hwf Hr) as [Hwf1 Hr1].
    pose proof (rest_len _ Hwf1) as Hl. rewrite Hr1 in Hl. do 2 (split_if_in H; [done |]). cbv zeta in H.
    split_if_in H; [done |]. injection H as <- <-. set (l := zsub _ _ n).
    assert (Hlt : l = take (Z.to_nat n) tl) by (change l with (take (Z.to_nat n) (rest (adv r (zlen (cbor_head m n))))); by rewrite Hr1).
    assert (Hll : zlen l = n) by (rewrite Hlt; unfold zlen in *; rewrite length_take; lia).
    exists (cbor_head m n ++ l), (drop (Z.to_nat n) tl). split_and!.
    + exists l. unfold view_of. rewrite Hll. split_and!; auto. unfold blob_ok. rewrite Hll. split_and!; [| lia |].
      * apply is_bytes_zsub, Hwf1.
      * intros ->. unfold view_of. rewrite Hll. apply negb_false_iff. exact Heqb1.
    + by rewrite Hr, <- app_assoc, Hlt, take_drop.
    + by rewrite zlen_app, Hll, <- adv_adv.
  - intros r s e tl Hwf (l & -> & (Hb & Hlen & Hu) & ->) Hr. rewrite <- app_assoc in Hr. unfold reader_slice.
    pose proof (zlen_nonneg l). rewrite (Vc r (zlen l) _ _ Hwf ltac:(split; [lia | done]) Hr).
    destruct (adv_split _ _ _ Hwf Hr) as [Hwf1 Hr1]. pose proof (rest_len _ Hwf1) as Hl. rewrite Hr1, zlen_app in Hl.
    pose proof (zlen_nonneg tl). replace (maximum <? zlen l) with false by lia.
    replace (_ <? zlen l) with false by lia. cbv zeta.
    assert (Hz : zsub (rd_data (adv r (zlen (cbor_head m (zlen l))))) (rd_pos (adv r (zlen (cbor_head m (zlen l))))) (zlen l) = l)
      by (change (zsub _ _ _) with (take (Z.to_nat (zlen l)) (rest (adv r (zlen (cbor_head m (zlen l))))));
          rewrite Hr1; unfold zlen; by rewrite Nat2Z.id, take_app_length).
    rewrite Hz. fold (view_of l). rewrite zlen_app, <- adv_adv.
    destruct (Z.eqb_spec m 3) as [-> |]; simpl; [by rewrite Hu | done].
  - intros r r' Hwf H. unfold reader_slice in H. destruct (reader_value m r) as [[n|] r1] eqn:E.
    + repeat split_if_in H; simplify_eq/=; done.
    + injection H as <-. by apply (Ve r).
Qed.

Lemma codec_items {A} (p : RD A) R n :
  codec p R ->
  codec (reader_items p n) (fun l e => length l = n /\ exists es, Forall2 R l es /\ e = concat es).
Proof.
  intros Hp. induction n as [|n IH]; cbn [reader_items].
  - eapply codec_ext; [apply codec_ret |]. intros l e. split.
    + intros [-> ->]. split; [done |]. exists []. by split; [constructor |].
    + intros [Hl (es & HF & ->)]. destruct l; [| done]. by inversion HF.
  - eapply codec_ext.
    { eapply codec_bind; [exact Hp |]. intros x. eapply codec_bind; [exact IH |]. intros l. apply codec_ret. }
    intros l e. split.
    + intros (x & e1 & e2 & HR & (l' & e3 & e4 & (Hl & es & HF & ->) & (-> & ->) & ->) & ->).
      simpl. split; [by rewrite Hl |]. exists (e1 :: es). split; [by constructor |]. by rewrite app_nil_r.
    + intros [Hl (es & HF & ->)]. destruct l as [|x l]; [done |]. injection Hl as Hl.
      inversion HF as [|? e1 ? es' HR HF']; subst. exists x, e1, (concat es'). split_and!; auto.
      exists l, (concat es'), []. split_and!; eauto. by rewrite app_nil_r.
Qed.
