(* ===== verification/CborFacts.v ===== *)
(** * Lemmas of the CBOR codec

    The reference encoding of fields, records and vaults; that the writer
    produces it, that the reader accepts exactly it, and how long it is. *)

From S2P Require Import Prelude Status Util Sys Arena Model ModelFacts ModelInv ModelProps Cbor CborGrammar.

(** ** Reference encoding *)

Definition enc_blob (m : Z) (l : list Z) : list Z := cbor_head m (zlen l) ++ l.

Definition enc_field (f : pv_custom_field (list Z)) : list Z :=
  cbor_head 5 3 ++ cbor_head 0 0 ++ enc_blob 3 (f_name f) ++ cbor_head 0 1 ++ enc_blob 2 (f_value f) ++
  cbor_head 0 2 ++ cbor_head 0 (f_flags f).

Definition enc_texts (l : list (list Z)) : list Z := cbor_head 4 (zlen l) ++ concat (map (enc_blob 3) l).

Definition enc_record (c : pv_record (list Z)) : list Z :=
  cbor_head 5 12 ++ cbor_head 0 0 ++ enc_blob 2 (r_id c) ++ cbor_head 0 1 ++ cbor_head 0 (r_revision c) ++
  cbor_head 0 2 ++ cbor_head 0 (r_created_ms c) ++ cbor_head 0 3 ++ cbor_head 0 (r_updated_ms c) ++
  cbor_head 0 4 ++ cbor_head 0 (r_flags c) ++ cbor_head 0 5 ++ enc_blob 3 (r_title c) ++
  cbor_head 0 6 ++ enc_blob 3 (r_username c) ++ cbor_head 0 7 ++ enc_blob 2 (r_password c) ++
  cbor_head 0 8 ++ enc_texts (r_urls c) ++ cbor_head 0 9 ++ enc_blob 3 (r_notes c) ++
  cbor_head 0 10 ++ enc_texts (r_tags c) ++
  cbor_head 0 11 ++ cbor_head 4 (zlen (r_fields c)) ++ concat (map enc_field (r_fields c)).

Definition enc_vault (generation created updated : Z) (device_id : list Z) (cs : list (pv_record (list Z))) : list Z :=
  cbor_head 5 6 ++ cbor_head 0 0 ++ cbor_head 0 PV_CBOR_SCHEMA_VERSION ++ cbor_head 0 1 ++ cbor_head 0 generation ++
  cbor_head 0 2 ++ enc_blob 2 device_id ++ cbor_head 0 3 ++ cbor_head 0 created ++
  cbor_head 0 4 ++ cbor_head 0 updated ++ cbor_head 0 5 ++ cbor_head 4 (zlen cs) ++ concat (map enc_record cs).

(** ** Lemmas: flag masks *)

Lemma land_lnot_ones f k : 0 <= k -> Z.land f (Z.lnot (Z.ones k)) = 0 <-> 0 <= f < 2 ^ k.
Proof.
  intros Hk. rewrite <- Z.ldiff_land, Z.ldiff_ones_r, Z.shiftl_mul_pow2, Z.shiftr_div_pow2 by done.
  assert (0 < 2 ^ k) by (apply Z.pow_pos_nonneg; lia). pose proof (Z.div_mod f (2 ^ k)). pose proof (Z.mod_pos_bound f (2 ^ k)).
  split; intros; [nia |]. by rewrite Z.div_small.
Qed.

Lemma land_u64_mask f m : 0 <= f <= UINT64_MAX ->
  Z.land f (Z.land UINT64_MAX (Z.lnot m)) = Z.land f (Z.lnot m).
Proof.
  intros. rewrite Z.land_assoc. f_equal. change UINT64_MAX with (Z.ones 64) in *. rewrite Z.land_ones by lia.
  apply Z.mod_small. change (Z.ones 64) with 18446744073709551615 in *. lia.
Qed.

Lemma record_flags_mask f : 0 <= f <= UINT64_MAX ->
  Z.land f (Z.lxor UINT64_MAX (Z.lor PV_RECORD_DELETED PV_RECORD_FAVORITE)) = 0 <-> 0 <= f < 4.
Proof.
  intros. change (Z.lxor UINT64_MAX _) with (Z.land UINT64_MAX (Z.lnot (Z.ones 2))).
  rewrite land_u64_mask by done. by apply land_lnot_ones.
Qed.

Lemma field_flags_mask f : 0 <= f <= UINT64_MAX ->
  Z.land f (Z.lxor UINT64_MAX PV_FIELD_SECRET) = 0 <-> 0 <= f < 2.
Proof.
  intros. change (Z.lxor UINT64_MAX _) with (Z.land UINT64_MAX (Z.lnot (Z.ones 1))).
  rewrite land_u64_mask by done. by apply land_lnot_ones.
Qed.

(** ** What the reader checks is what the model validates *)

Record field_ok (f : pv_custom_field (list Z)) : Prop := {
  fo_name : blob_ok 3 PV_MAX_FIELD_NAME (f_name f);
  fo_name_nonempty : f_name f <> [];
  fo_value : blob_ok 2 PV_MAX_FIELD_VALUE (f_value f);
  fo_flags : 0 <= f_flags f < 2
}.

Record content_ok (c : pv_record (list Z)) : Prop := {
  co_id : zlen (r_id c) = PV_RECORD_ID_BYTES;
  co_id_bytes : is_bytes (r_id c);
  co_id_nonzero : id_is_zero (r_id c) = false;
  co_revision : 0 < r_revision c <= UINT64_MAX;
  co_created : 0 <= r_created_ms c <= INT64_MAX;
  co_updated : 0 <= r_updated_ms c <= INT64_MAX;
  co_flags : 0 <= r_flags c < 4;
  co_title : blob_ok 3 PV_MAX_TITLE (r_title c);
  co_title_nonempty : r_title c <> [];
  co_username : blob_ok 3 PV_MAX_USERNAME (r_username c);
  co_password : blob_ok 2 PV_MAX_PASSWORD (r_password c);
  co_notes : blob_ok 3 PV_MAX_NOTES (r_notes c);
  co_url_count : zlen (r_urls c) <= PV_MAX_COLLECTION_ITEMS;
  co_urls : Forall (blob_ok 3 PV_MAX_URL) (r_urls c);
  co_tag_count : zlen (r_tags c) <= PV_MAX_COLLECTION_ITEMS;
  co_tags : Forall (blob_ok 3 PV_MAX_TAG) (r_tags c);
  co_field_count : zlen (r_fields c) <= PV_MAX_COLLECTION_ITEMS;
  co_fields : Forall field_ok (r_fields c)
}.

Lemma text_valid_view l b :
  text_slice_valid (view_of l) b = (b || (0 <? zlen l)) && pv_utf8_valid (view_of l).
Proof. done. Qed.

Lemma zlen_pos_iff {A} (l : list A) : 0 < zlen l <-> l <> [].
Proof. destruct l; split; by intros. Qed.

Lemma text_valid_nonempty l :
  text_slice_valid (view_of l) false = true <-> l <> [] /\ pv_utf8_valid (view_of l) = true.
Proof. rewrite text_valid_view, andb_true_iff. simpl. rewrite Z.ltb_lt, zlen_pos_iff. done. Qed.

Lemma blob_ok_text max l : blob_ok 3 max l <-> is_bytes l /\ zlen l <= max /\ text_slice_valid (view_of l) true = true.
Proof. unfold blob_ok. rewrite text_valid_view. simpl. tauto. Qed.

Lemma blob_ok_bytes max l : blob_ok 2 max l <-> is_bytes l /\ zlen l <= max.
Proof. unfold blob_ok. split; [tauto | intros []; split_and!; auto; lia]. Qed.

Lemma validate_texts_view max l :
  validate_texts max (map view_of l) = PV_OK <->
  Forall (fun x => zlen x <= max /\ text_slice_valid (view_of x) true = true) l.
Proof.
  induction l as [|x l IH]; simpl; [split; [constructor | done] |]. rewrite Forall_cons_iff, <- IH.
  destruct (Z.ltb_spec max (zlen x)); [split; [done | lia] |].
  destruct (text_slice_valid (view_of x) true); simpl; [| split; [done | by intros; destruct_and!]]. intuition lia.
Qed.

Lemma validate_fields_view l :
  validate_fields (map (field_map view_of) l) = PV_OK <->
  Forall (fun f => zlen (f_name f) <= PV_MAX_FIELD_NAME /\ zlen (f_value f) <= PV_MAX_FIELD_VALUE /\
            text_slice_valid (view_of (f_name f)) false = true /\ 0 <= f_flags f < 2) l.
Proof.
  induction l as [|f l IH]; simpl; [split; [constructor | done] |]. rewrite Forall_cons_iff, <- IH.
  change (Z.lnot PV_FIELD_SECRET) with (Z.lnot (Z.ones 1)).
  pose proof (land_lnot_ones (f_flags f) 1 ltac:(lia)) as Hf. change (2 ^ 1) with 2 in Hf.
  destruct (Z.ltb_spec PV_MAX_FIELD_NAME (zlen (f_name f))); [split; [done | lia] |].
  destruct (Z.ltb_spec PV_MAX_FIELD_VALUE (zlen (f_value f))); [split; [done | lia] |]. simpl.
  destruct (text_slice_valid (view_of (f_name f)) false); simpl; [| split; [done | by intros; destruct_and!]].
  destruct (Z.eqb_spec (Z.land (f_flags f) (Z.lnot (Z.ones 1))) 0); simpl; [| split; [done | tauto]].
  intuition lia.
Qed.

Lemma validate_record_view c :
  validate_record_fields (record_map view_of c) = PV_OK <->
  zlen (r_title c) <= PV_MAX_TITLE /\ zlen (r_username c) <= PV_MAX_USERNAME /\
  zlen (r_password c) <= PV_MAX_PASSWORD /\ zlen (r_notes c) <= PV_MAX_NOTES /\
  zlen (r_urls c) <= PV_MAX_COLLECTION_ITEMS /\ zlen (r_tags c) <= PV_MAX_COLLECTION_ITEMS /\
  zlen (r_fields c) <= PV_MAX_COLLECTION_ITEMS /\ 0 <= r_created_ms c /\ 0 <= r_updated_ms c /\
  0 <= r_flags c < 4 /\ text_slice_valid (view_of (r_title c)) false = true /\
  text_slice_valid (view_of (r_username c)) true = true /\ text_slice_valid (view_of (r_notes c)) true = true /\
  validate_texts PV_MAX_URL (map view_of (r_urls c)) = PV_OK /\
  validate_texts PV_MAX_TAG (map view_of (r_tags c)) = PV_OK /\
  validate_fields (map (field_map view_of) (r_fields c)) = PV_OK.
Proof.
  pose proof (land_lnot_ones (r_flags c) 2 ltac:(lia)) as Hf. change (2 ^ 2) with 4 in Hf. split.
  - intros H. apply validate_record_ok in H. simpl in H. rewrite !zlen_map in H.
    change (Z.lnot (Z.ones 2)) with (Z.lnot (Z.lor PV_RECORD_DELETED PV_RECORD_FAVORITE)) in Hf. tauto.
  - intros (H1 & H2 & H3 & H4 & H5 & H6 & H7 & H8 & H9 & H10 & H11 & H12 & H13 & H14 & H15 & H16).
    apply Hf in H10. change (Z.ones 2) with (Z.lor PV_RECORD_DELETED PV_RECORD_FAVORITE) in H10.
    unfold validate_record_fields. simpl. rewrite !zlen_map, H10, H11, H12, H13, H14, H15, H16.
    repeat match goal with |- context [?a <? ?b] => replace (a <? b) with false by lia end. done.
Qed.

Lemma Forall_and_iff {A} (P Q : A -> Prop) l : Forall (fun x => P x /\ Q x) l <-> Forall P l /\ Forall Q l.
Proof. rewrite !Forall_forall. firstorder. Qed.

Lemma valid_content_ok c : valid_content c <-> content_ok c.
Proof.
  split.
  - intros Hv. destruct (valid_content_id c Hv) as (Hrev & Hid & Hval). destruct Hv as [[] Hb _].
    apply validate_record_view in Hval as (H1 & H2 & H3 & H4 & H5 & H6 & H7 & H8 & H9 & H10 & H11 & H12 & H13 & H14 & H15 & H16).
    apply validate_texts_view in H14, H15. apply validate_fields_view in H16.
    apply record_slices_Forall in Hb as (B1 & B2 & B3 & B4 & B5 & B6 & B7).
    apply text_valid_nonempty in H11 as H11'. destruct H11' as [Ht1 Ht2].
    constructor; auto; try lia; try (apply blob_ok_text; by split_and!).
    + by apply blob_ok_bytes.
    + rewrite Forall_forall in *. intros x Hx. apply blob_ok_text. specialize (B5 x Hx). specialize (H14 x Hx). tauto.
    + rewrite Forall_forall in *. intros x Hx. apply blob_ok_text. specialize (B6 x Hx). specialize (H15 x Hx). tauto.
    + rewrite Forall_forall in *. intros f Hx. destruct (B7 f Hx), (H16 f Hx) as (? & ? & Hn & ?).
      apply text_valid_nonempty in Hn as [? ?]. constructor; auto; [by split_and! | by apply blob_ok_bytes].
  - intros []. constructor.
    + constructor; auto; lia.
    + apply record_slices_Forall. split_and!; auto; try (by destruct_and?; match goal with H : blob_ok _ _ ?x |- is_bytes ?x => apply H end);
        (eapply Forall_impl; [| eassumption]); intros ? [] ; try done. split; [by destruct fo_name0 | by destruct fo_value0].
    + unfold pv_model_validate_record. rewrite (proj2 (validate_record_view c)).
      * simpl. rewrite co_id_nonzero0. by replace (r_revision c =? 0) with false by lia.
      * apply blob_ok_text in co_username0, co_notes0. apply blob_ok_bytes in co_password0. destruct co_title0 as (? & ? & Hu).
        split_and!; try tauto; try lia.
        -- by apply text_valid_nonempty; auto.
        -- apply validate_texts_view. eapply Forall_impl; [| exact co_urls0]. intros x Hx. apply blob_ok_text in Hx. tauto.
        -- apply validate_texts_view. eapply Forall_impl; [| exact co_tags0]. intros x Hx. apply blob_ok_text in Hx. tauto.
        -- apply validate_fields_view. eapply Forall_impl; [| exact co_fields0]. intros f [(? & ? & Hn) ? Hv ?].
           apply blob_ok_bytes in Hv. split_and!; try tauto; try lia. apply text_valid_nonempty. auto.
Qed.

(** ** The reader *)

Lemma Forall2_image {X S} (f : X -> S) (P : X -> Prop) (g : X -> list Z) ss es :
  Forall2 (fun s e => exists x, s = f x /\ P x /\ e = g x) ss es <->
  exists xs, ss = map f xs /\ Forall P xs /\ es = map g xs.
Proof.
  split.
  - induction 1 as [|s e ss es (x & -> & HP & ->) _ (xs & -> & HF & ->)]; [by exists [] |].
    exists (x :: xs). by split_and!; [| constructor |].
  - intros (xs & -> & HF & ->). induction HF; simpl; constructor; eauto.
Qed.

Lemma codec_image_items {X S} (p : RD S) (f : X -> S) (P : X -> Prop) (g : X -> list Z) n :
  codec p (fun s e => exists x, s = f x /\ P x /\ e = g x) ->
  codec (reader_items p n)
    (fun l e => exists xs, l = map f xs /\ length xs = n /\ Forall P xs /\ e = concat (map g xs)).
Proof.
  intros Hp. eapply codec_ext; [by apply codec_items |]. intros l e. split.
  - intros [Hl (es & HF & ->)]. apply Forall2_image in HF as (xs & -> & HP & ->). rewrite length_map in Hl. by exists xs.
  - intros (xs & -> & Hl & HP & ->). split; [by rewrite length_map |]. exists (map g xs).
    split; [| done]. apply Forall2_image. by exists xs.
Qed.

(** Derives the relation of a reader function from its code. *)
Ltac codec_prim :=
  first [ apply codec_count; [lia | by vm_compute]
        | apply codec_expect; split; by vm_compute
        | apply codec_value; lia
        | apply codec_slice; [lia | by vm_compute]
        | eapply codec_image_items; first [eassumption | apply codec_slice; [lia | by vm_compute]] ].

Ltac codec_step :=
  first [ apply codec_ret
        | eapply codec_bind; [codec_prim | let x := fresh "x" in intros x]
        | eapply codec_guard; [done |]
        | codec_prim ].

Ltac codec_inv :=
  repeat match goal with
  | H : ex _ |- _ => destruct H
  | H : _ /\ _ |- _ => destruct H
  | H : negb _ = false |- _ => apply negb_false_iff in H
  | H : (_ =? _) = true |- _ => apply Z.eqb_eq in H
  | H : _ || _ = false |- _ => apply orb_false_iff in H
  end; subst.

(** Supplies the value the next bind returns and the bytes it consumes. *)
Ltac codec_give v tac := exists v; eexists _, _; split; [tac | split; [| reflexivity]].

Lemma decode_field_codec :
  codec decode_field (fun f e => exists g, f = field_map view_of g /\ field_ok g /\ e = enc_field g).
Proof.
  eapply codec_ext; [unfold decode_field; repeat codec_step |]. intros f e. cbv beta. split.
  - intros H. codec_inv.
    match goal with |- exists g, mk_field (view_of ?n) (view_of ?v) ?fl = _ /\ _ => exists (mk_field n v fl) end.
    split; [done |]. split; [| unfold enc_field, enc_blob; by rewrite <- !app_assoc, app_nil_r].
    constructor; simpl; auto.
    + intros ->. done.
    + apply field_flags_mask; [lia | done].
  - intros (g & -> & [Hn Hne Hv Hf] & ->). unfold enc_field.
    codec_give 3 ltac:(split; [lia | done]). split; [done |].
    codec_give tt ltac:(done).
    codec_give (view_of (f_name g)) ltac:(by exists (f_name g)).
    split; [change (v_len (view_of (f_name g))) with (zlen (f_name g)); apply zlen_pos_iff in Hne; lia |].
    codec_give tt ltac:(done).
    codec_give (view_of (f_value g)) ltac:(by exists (f_value g)).
    codec_give tt ltac:(done).
    exists (f_flags g). eexists _, []. split; [split; [unfold UINT64_MAX; lia | done] |]. split; [| by rewrite app_nil_r].
    split; [| done]. apply orb_false_iff. split; [unfold UINT32_MAX; lia |]. apply negb_false_iff, Z.eqb_eq.
    apply field_flags_mask; [unfold UINT64_MAX; lia | done].
Qed.

Lemma codec_items_fields n :
  codec (reader_items decode_field n)
    (fun l e => exists xs, l = map (field_map view_of) xs /\ length xs = n /\ Forall field_ok xs /\
                           e = concat (map enc_field xs)).
Proof. apply codec_image_items, decode_field_codec. Qed.

Lemma codec_items_texts max n : max <= UINT64_MAX ->
  codec (reader_items (reader_slice 3 max) n)
    (fun l e => exists xs, l = map view_of xs /\ length xs = n /\ Forall (blob_ok 3 max) xs /\
                           e = concat (map (enc_blob 3) xs)).
Proof. intros. by apply codec_image_items, codec_slice. Qed.

Ltac codec_prim ::=
  first [ apply codec_count; [lia | by vm_compute]
        | apply codec_expect; split; by vm_compute
        | apply codec_value; lia
        | apply codec_slice; [lia | by vm_compute]
        | apply codec_items_fields
        | apply codec_items_texts; by vm_compute ].

(** The counts read before the items are the lengths of the lists. *)
Ltac codec_counts :=
  repeat match goal with
  | H : length ?l = Z.to_nat ?n |- _ => assert (n = zlen l) by (unfold zlen; lia); clear H; subst n
  end.

Lemma decode_temporary_codec :
  codec decode_temporary (fun t e => exists c, t = record_map view_of c /\ content_ok c /\ e = enc_record c).
Proof.
  eapply codec_ext; [unfold decode_temporary; repeat codec_step |]. intros t e. cbv beta. split.
  - intros H. codec_inv. rewrite v_bytes_view_of in *. codec_counts.
    match goal with
    | |- exists c, mk_record ?id ?rev ?cr ?up ?fl (view_of ?ti) (view_of ?us) (view_of ?pw) (view_of ?no)
            (map view_of ?ur) (map view_of ?ta) (map (field_map view_of) ?fi) = _ /\ _ =>
        exists (mk_record id rev cr up fl ti us pw no ur ta fi)
    end. split; [done |].
    split.
    + constructor; simpl; auto; try lia.
      * by match goal with H : blob_ok 2 _ ?x |- is_bytes ?x => destruct H end.
      * apply record_flags_mask; [lia | done].
      * intros ->. done.
    + unfold enc_record, enc_blob, enc_texts. cbn [r_id r_revision r_created_ms r_updated_ms r_flags r_title
        r_username r_password r_notes r_urls r_tags r_fields]. by rewrite <- !app_assoc, app_nil_r.
  - intros (c & -> & [] & ->). pose proof (zlen_nonneg (r_urls c)). pose proof (zlen_nonneg (r_tags c)).
    pose proof (zlen_nonneg (r_fields c)).
    unfold enc_record, enc_texts. rewrite <- !app_assoc.
    assert (Hlen : forall A (l : list A), length l = Z.to_nat (zlen l)) by (intros; unfold zlen; lia).
    codec_give 12 ltac:(split; [lia | done]). split; [done |].
    codec_give tt ltac:(done).
    codec_give (view_of (r_id c)) ltac:(exists (r_id c); split; [done |]; split; [apply blob_ok_bytes; split; [done | lia] | done]).
    rewrite v_bytes_view_of. split.
    { apply orb_false_iff. split; [| done]. apply negb_false_iff, Z.eqb_eq, co_id0. }
    codec_give tt ltac:(done). codec_give (r_revision c) ltac:(split; [lia | done]). split; [lia |].
    codec_give tt ltac:(done). codec_give (r_created_ms c) ltac:(split; [unfold INT64_MAX, UINT64_MAX in *; lia | done]). split; [lia |].
    codec_give tt ltac:(done). codec_give (r_updated_ms c) ltac:(split; [unfold INT64_MAX, UINT64_MAX in *; lia | done]). split; [lia |].
    codec_give tt ltac:(done). codec_give (r_flags c) ltac:(split; [unfold UINT64_MAX; lia | done]). split.
    { apply orb_false_iff. split; [unfold UINT32_MAX; lia |]. apply negb_false_iff, Z.eqb_eq.
      apply record_flags_mask; [unfold UINT64_MAX; lia | done]. }
    codec_give tt ltac:(done). codec_give (view_of (r_title c)) ltac:(by exists (r_title c)).
    split; [change (v_len (view_of (r_title c))) with (zlen (r_title c)); apply zlen_pos_iff in co_title_nonempty0; lia |].
    codec_give tt ltac:(done). codec_give (view_of (r_username c)) ltac:(by exists (r_username c)).
    codec_give tt ltac:(done). codec_give (view_of (r_password c)) ltac:(by exists (r_password c)).
    codec_give tt ltac:(done). codec_give (zlen (r_urls c)) ltac:(split; [lia | done]).
    codec_give (map view_of (r_urls c)) ltac:(by exists (r_urls c)).
    codec_give tt ltac:(done). codec_give (view_of (r_notes c)) ltac:(by exists (r_notes c)).
    codec_give tt ltac:(done). codec_give (zlen (r_tags c)) ltac:(split; [lia | done]).
    codec_give (map view_of (r_tags c)) ltac:(by exists (r_tags c)).
    codec_give tt ltac:(done). codec_give (zlen (r_fields c)) ltac:(split; [lia | done]).
    exists (map (field_map view_of) (r_fields c)). eexists _, []. split; [by exists (r_fields c) |].
    split; [done | by rewrite app_nil_r].
Qed.

(** ** The writer *)

(** [w] is [w0] after writing [e]: all of it, or an error if it does not fit. *)
Definition emits (w0 : cbor_writer) (e : list Z) (w : cbor_writer) : Prop :=
  w_cap w = w_cap w0 /\
  if w_len w0 + zlen e <=? w_cap w0 then w = mk_writer (w_data w0 ++ e) (w_cap w0) PV_OK
  else w_status w = PV_ERR_LIMIT.

Section writer.
Context (w0 : cbor_writer) (Hcap : w_cap w0 <= PV_MAX_PLAINTEXT).

Lemma emits_start : w_status w0 = PV_OK -> w_len w0 <= w_cap w0 -> emits w0 [] w0.
Proof.
  intros Hs Hl. split; [done |]. rewrite zlen_nil, Z.add_0_r, app_nil_r. split_if; [| lia]. destruct w0. by simpl in Hs; subst.
Qed.

Lemma emits_bytes e w l :
  emits w0 e w -> zlen l <= SIZE_MAX / 2 -> emits w0 (e ++ l) (writer_bytes w (Some l) (zlen l)).
Proof.
  intros [Hc Hw] Hl. unfold emits. rewrite zlen_app. pose proof (zlen_nonneg l). pose proof (zlen_nonneg e).
  pose proof (zlen_nonneg (w_data w0)) as Hd. unfold writer_bytes.
  destruct (w_len w0 + zlen e <=? w_cap w0) eqn:E1.
  - subst w. cbn [is_ok w_status negb w_data w_cap]. destruct (Z.eqb_spec (zlen l) 0) as [Hz |].
    { destruct l; [| exfalso; zlia]. rewrite !app_nil_r, zlen_nil, !Z.add_0_r. split; [done |]. by rewrite E1. }
    unfold w_len in *. cbn [w_data]. rewrite zlen_app.
    assert (Hadd : pv_size_add (zlen (w_data w0) + zlen e) (zlen l) = Some (zlen (w_data w0) + zlen e + zlen l)).
    { unfold pv_size_add. replace (_ <? zlen l) with false; [done |]. symmetry. apply Z.ltb_ge.
      unfold PV_MAX_PLAINTEXT in *. change (SIZE_MAX / 2) with 9223372036854775807 in Hl. unfold SIZE_MAX. lia. }
    rewrite Hadd. cbn [w_cap]. rewrite Z.add_assoc. split_if; cbn [w_cap w_status].
    + split; [done |]. by replace (_ <=? w_cap w0) with false by lia.
    + split; [done |]. replace (_ <=? w_cap w0) with true by lia. unfold zlen at 1. rewrite Nat2Z.id, firstn_all.
      by rewrite app_assoc.
  - rewrite Hw. cbn [is_ok negb]. split; [done |]. by replace (_ <=? w_cap w0) with false by lia.
Qed.

Lemma emits_head e w m v :
  emits w0 e w -> 0 <= m < 8 -> 0 <= v <= UINT64_MAX -> emits w0 (e ++ cbor_head m v) (writer_type_value w m v).
Proof.
  intros Hw Hm Hv. unfold writer_type_value, cbor_head, writer_u8. cbv zeta. rewrite !be_bytes_put.
  destruct (v <? 24) eqn:E.
  { rewrite (u8_small v) by (unfold is_byte; lia). rewrite lead_byte by lia. by apply emits_bytes. }
  rewrite !lead_byte by lia. repeat split_if; by apply emits_bytes.
Qed.

Lemma emits_blob e w m v :
  emits w0 e w -> 0 <= m < 8 -> view_ok v -> exact_view v -> v_len v <= PV_MAX_PLAINTEXT ->
  emits w0 (e ++ enc_blob m (v_bytes v)) (writer_blob w m v).
Proof.
  intros Hw Hm [Hl0 Hok] Hx Hl. unfold writer_blob, enc_blob. rewrite app_assoc, <- Hx.
  assert (Hh : emits w0 (e ++ cbor_head m (v_len v)) (writer_type_value w m (v_len v))).
  { apply emits_head; auto. unfold PV_MAX_PLAINTEXT, UINT64_MAX in *. lia. }
  unfold exact_view in Hx. destruct (v_data v) as [l|] eqn:Hd.
  - assert (Hb : writer_bytes (writer_type_value w m (v_len v)) (Some l) (v_len v) =
                 writer_bytes (writer_type_value w m (v_len v)) (Some (v_bytes v)) (zlen (v_bytes v))).
    { rewrite <- Hx. unfold v_bytes. rewrite Hd. unfold writer_bytes. by rewrite take_take, Nat.min_id. }
    rewrite Hb. apply emits_bytes; [done |]. rewrite <- Hx. unfold PV_MAX_PLAINTEXT in *.
    change (SIZE_MAX / 2) with 9223372036854775807. lia.
  - assert (v_bytes v = []) as E by (unfold v_bytes; by rewrite Hd). rewrite E in *. rewrite zlen_nil in Hx.
    rewrite app_nil_r, Hx in *. unfold writer_bytes. by destruct (negb _).
Qed.

Definition text_ready (v : pv_view) : Prop := view_ok v /\ exact_view v /\ v_len v <= PV_MAX_PLAINTEXT.

Lemma emits_texts e w l :
  emits w0 e w -> Forall text_ready l -> emits w0 (e ++ concat (map (enc_blob 3) (map v_bytes l))) (encode_texts w l).
Proof.
  intros Hw Hl. unfold encode_texts. revert e w Hw. induction Hl as [|v l (? & ? & ?) _ IH]; intros e w Hw; simpl.
  - by rewrite app_nil_r.
  - rewrite app_assoc. apply IH. by apply emits_blob.
Qed.

Lemma emits_field e w f :
  emits w0 e w -> text_ready (f_name f) -> text_ready (f_value f) -> 0 <= f_flags f < 2 ->
  emits w0 (e ++ enc_field (field_map v_bytes f)) (encode_field w f).
Proof.
  intros Hw (? & ? & ?) (? & ? & ?) Hf. unfold encode_field, enc_field. cbv zeta. cbn [field_map f_name f_value f_flags].
  rewrite !app_assoc. repeat first [done | apply emits_head | apply emits_blob]; unfold UINT64_MAX; lia.
Qed.

Lemma emits_fields e w l :
  emits w0 e w -> Forall (fun f => text_ready (f_name f) /\ text_ready (f_value f) /\ 0 <= f_flags f < 2) l ->
  emits w0 (e ++ concat (map enc_field (map (field_map v_bytes) l))) (fold_left encode_field l w).
Proof.
  intros Hw Hl. revert e w Hw. induction Hl as [|f l (? & ? & ?) _ IH]; intros e w Hw; cbn [map concat fold_left].
  - by rewrite app_nil_r.
  - rewrite app_assoc. apply IH. by apply emits_field.
Qed.

End writer.

(** A record whose texts the writer can copy. *)
Record record_ready (r : pv_record pv_view) (c : pv_record (list Z)) : Prop := {
  rr_contents : record_map v_bytes r = c;
  rr_texts : Forall text_ready (record_slices r);
  rr_ok : content_ok c
}.

Lemma emits_record w0 e w r c :
  w_cap w0 <= PV_MAX_PLAINTEXT -> emits w0 e w -> record_ready r c ->
  emits w0 (e ++ enc_record c) (encode_record w r).
Proof.
  intros Hcap Hw [Hc Ht Hok]. subst c. apply record_slices_Forall in Ht as ((? & ? & ?) & (? & ? & ?) & (? & ? & ?) & (? & ? & ?) & Tu & Tt & Tf).
  destruct Hok. simpl in *. repeat rewrite zlen_map in *. unfold encode_record, enc_record, enc_texts. cbv zeta.
  cbn [record_map r_id r_revision r_created_ms r_updated_ms r_flags r_title r_username r_password r_notes
       r_urls r_tags r_fields]. rewrite !zlen_map, !app_assoc.
  assert (Hid : forall e w, emits w0 e w ->
    emits w0 (e ++ enc_blob 2 (r_id r)) (writer_blob w 2 (mk_view (Some (r_id r)) PV_RECORD_ID_BYTES))).
  { intros e' w' Hw'. assert (Hv : v_bytes (mk_view (Some (r_id r)) PV_RECORD_ID_BYTES) = r_id r).
    { unfold v_bytes. simpl. apply firstn_all2. unfold zlen in *. rewrite <- co_id0. lia. }
    rewrite <- Hv at 1. apply emits_blob; auto; [lia | | unfold exact_view; by rewrite Hv | by vm_compute].
    split; [by vm_compute |]. intros l [= <-]. simpl. split; [done | lia]. }
  unfold INT64_MAX, UINT64_MAX, PV_MAX_COLLECTION_ITEMS in *.
  pose proof (zlen_nonneg (r_urls r)). pose proof (zlen_nonneg (r_tags r)). pose proof (zlen_nonneg (r_fields r)).
  rewrite !u64_small by (unfold UINT64_MAX; lia).
  apply emits_fields; [done | | ].
  2: { rewrite Forall_map in co_fields0. rewrite Forall_forall in *. intros f Hin. destruct (Tf f Hin), (co_fields0 f Hin).
       by split_and!; try apply fo_flags0. }
  repeat first [done | apply Hid | apply emits_head | apply emits_blob | apply emits_texts]; unfold UINT64_MAX; lia.
Qed.

Lemma emits_records w0 e w rs cs :
  w_cap w0 <= PV_MAX_PLAINTEXT -> emits w0 e w -> Forall2 record_ready rs cs ->
  emits w0 (e ++ concat (map enc_record cs)) (fold_left encode_record rs w).
Proof.
  intros Hcap Hw Hl. revert e w Hw. induction Hl as [|r c rs cs Hr _ IH]; intros e w Hw; cbn [map concat fold_left].
  - by rewrite app_nil_r.
  - rewrite app_assoc. apply IH. by apply emits_record.
Qed.

(** A vault whose metadata is within the ranges of its C types. *)
Record meta_ok (v : pv_vault) : Prop := {
  mo_generation : 0 <= v_generation v <= UINT64_MAX;
  mo_created : 0 <= v_created_ms v <= INT64_MAX;
  mo_updated : 0 <= v_updated_ms v <= INT64_MAX;
  mo_device : zlen (v_device_id v) = PV_DEVICE_ID_BYTES;
  mo_device_bytes : is_bytes (v_device_id v);
  mo_device_nonzero : or_all (v_device_id v) <> 0
}.

Definition encoding (v : pv_vault) : list Z :=
  enc_vault (v_generation v) (v_created_ms v) (v_updated_ms v) (v_device_id v) (contents v).

Lemma vault_record_ready v r :
  vault_wf v -> In r (v_records v) -> record_ready (record_view v r) (record_contents (v_arena v) r).
Proof.
  intros Hwf Hin. destruct (record_view_source v r Hwf Hin) as [Hok Hx Hc].
  assert (Hval : valid_content (record_contents (v_arena v) r)).
  { pose proof (vw_valid v Hwf) as H. unfold contents in H. rewrite Forall_map, Forall_forall in H. auto. }
  constructor; [done | | by apply valid_content_ok].
  pose proof (vw_slices v Hwf) as Hs. unfold vault_slices in Hs. apply Forall_concat in Hs.
  rewrite Forall_map, Forall_forall in Hs. specialize (Hs r Hin).
  unfold record_view in *. rewrite record_slices_map, Forall_map in *. unfold record_ok in Hok.
  rewrite record_slices_map, Forall_map in Hok.
  pose proof (wf_used _ (vw_arena v Hwf)). pose proof (vw_capacity v Hwf).
  rewrite Forall_forall in *. intros s Hin'. split_and!; auto. specialize (Hs s Hin'). unfold slice_ok in Hs.
  unfold PV_ARENA_CAPACITY, PV_MAX_PLAINTEXT in *. simpl. destruct (s_data s); lia.
Qed.

Lemma emits_vault v w0 :
  vault_wf v -> meta_ok v -> w_status w0 = PV_OK -> w_len w0 <= w_cap w0 -> w_cap w0 <= PV_MAX_PLAINTEXT ->
  emits w0 (encoding v) (encode_vault w0 v).
Proof.
  intros Hwf [] Hs Hl Hcap. unfold encoding, enc_vault, encode_vault. cbv zeta. rewrite !app_assoc, zlen_contents.
  unfold INT64_MAX, UINT64_MAX in *. rewrite !u64_small by (unfold UINT64_MAX; lia).
  apply emits_records; [done | | ].
  - assert (Hd : v_bytes (mk_view (Some (v_device_id v)) PV_DEVICE_ID_BYTES) = v_device_id v).
    { unfold v_bytes. simpl. apply firstn_all2. unfold zlen in *. rewrite <- mo_device0. lia. }
    rewrite <- Hd at 1. pose proof (emits_start w0 Hcap Hs Hl) as H0. rewrite <- (app_nil_l (cbor_head 5 6)).
    pose proof (vault_wf_fits v Hwf) as [_ Hn]. rewrite zlen_contents in Hn. pose proof (zlen_nonneg (v_records v)).
    unfold v_record_count in *. unfold PV_DEVICE_ID_BYTES in *.
    repeat first [done | apply emits_head | apply emits_blob]; unfold UINT64_MAX, PV_CBOR_SCHEMA_VERSION; try lia.
    + split; [simpl; lia |]. intros l [= <-]. simpl. split; [done | lia].
    + unfold exact_view. by rewrite Hd.
  - unfold contents. assert (Hin : Forall (fun r => In r (v_records v)) (v_records v)) by by apply Forall_forall.
    revert Hin. generalize (v_records v) at 2 3 4. induction l as [|r l IH]; intros Hin; [constructor |].
    apply Forall_cons_iff in Hin as [Hr Hin]. constructor; [by apply vault_record_ready | auto].
Qed.

Lemma validate_records_ok v rs :
  vault_wf v -> Forall (fun r => In r (v_records v)) rs -> validate_records v rs = PV_OK.
Proof.
  intros Hwf. induction 1 as [|r rs Hr _ IH]; [done |]. simpl.
  destruct (record_view_source v r Hwf Hr) as [_ Hx Hc].
  assert (Hval : valid_content (record_contents (v_arena v) r)).
  { pose proof (vw_valid v Hwf) as H. unfold contents in H. rewrite Forall_map, Forall_forall in H. auto. }
  assert (pv_model_validate_record (record_view v r) = PV_OK) as ->; [| done].
  etrans; [| exact (vc_valid _ Hval)]. unfold pv_model_validate_record.
  rewrite (validate_record_exact (record_view v r)) by done. by rewrite Hc.
Qed.

(** ** The size of an encoding

    Everything the encoding adds to a text is smaller than what the arena
    spends on it (terminator, slice, field, record slot), so the contents of a
    vault always fit the plaintext buffer. *)

Definition text_space (l : list Z) : Z := if zlen l =? 0 then 0 else zlen l + 1.
Definition texts_space (ls : list (list Z)) : Z := fold_right (fun l n => text_space l + n) 0 ls.
Definition field_texts (fs : list (pv_custom_field (list Z))) : list (list Z) :=
  concat (map (fun f => [f_name f; f_value f]) fs).
Definition record_space (c : pv_record (list Z)) : Z :=
  texts_space [r_title c; r_username c; r_password c; r_notes c] +
  16 * zlen (r_urls c) + texts_space (r_urls c) + 16 * zlen (r_tags c) + texts_space (r_tags c) +
  40 * zlen (r_fields c) + texts_space (field_texts (r_fields c)).
Definition records_space (cs : list (pv_record (list Z))) : Z := fold_right (fun c n => record_space c + n) 0 cs.

Lemma text_end_space n l : text_end n l = n + text_space l.
Proof. unfold text_end, text_space. split_if; lia. Qed.

Lemma texts_end_space n ls : texts_end n ls = n + texts_space ls.
Proof.
  revert n. induction ls as [|l ls IH]; intros n; simpl; [lia |]. fold (texts_end (text_end n l) ls).
  rewrite IH, text_end_space. lia.
Qed.

Lemma array_end_space n count size : 0 <= count -> n + size * count <= array_end n count size.
Proof.
  intros. unfold array_end. split_if; [nia |]. pose proof (round_up_bounds n alignof_ptr ltac:(by vm_compute)). lia.
Qed.

Lemma record_end_space n c : n + record_space c <= record_end n c.
Proof.
  unfold record_end, fields_end, record_space. fold (field_texts (r_fields c)). rewrite !texts_end_space.
  set (n1 := n + texts_space [_; _; _; _]).
  pose proof (array_end_space n1 (zlen (r_urls c)) 16 (zlen_nonneg _)).
  set (n2 := array_end n1 _ _ + _).
  pose proof (array_end_space n2 (zlen (r_tags c)) 16 (zlen_nonneg _)).
  set (n3 := array_end n2 _ _ + _).
  pose proof (array_end_space n3 (zlen (r_fields c)) 40 (zlen_nonneg _)).
  unfold sizeof_pv_slice, sizeof_pv_custom_field in *. lia.
Qed.

Lemma records_space_app cs ds : records_space (cs ++ ds) = records_space cs + records_space ds.
Proof. induction cs as [|c cs IH]; simpl; [lia |]. fold (records_space (cs ++ ds)) (records_space cs). lia. Qed.

Lemma layout_space cs :
  let '(n, cap, _) := layout cs in (cap * 2 - 16) * 160 + records_space cs <= n /\ 16 <= cap /\ zlen cs <= cap.
Proof.
  induction cs as [|c cs IH] using rev_ind; [by vm_compute |].
  rewrite layout_snoc, zlen_app. pose proof (layout_count cs) as Hk. destruct (layout cs) as [[n cap] k]. simpl in Hk. subst k.
  destruct IH as (Hn & Hc & Hl). unfold place, grow. rewrite records_space_app. simpl.
  change (zlen [c]) with 1. split_if.
  - pose proof (record_end_space n c). split_and!; lia.
  - set (n' := round_up n alignof_ptr + _). pose proof (record_end_space n' c).
    pose proof (round_up_bounds n alignof_ptr ltac:(by vm_compute)) as [Hr _].
    unfold n', sizeof_pv_record in *. split_and!; lia.
Qed.

Lemma head_small m v : 0 <= v < 24 -> zlen (cbor_head m v) = 1.
Proof. intros. rewrite cbor_head_length. by replace (v <? 24) with true by lia. Qed.

(** The heads of the map keys and counts of the schema take one byte. *)
Ltac key_sizes :=
  repeat match goal with
  | |- context [zlen (cbor_head ?m (Zpos ?p))] => change (zlen (cbor_head m (Zpos p))) with 1
  | |- context [zlen (cbor_head ?m 0)] => change (zlen (cbor_head m 0)) with 1
  end.

Lemma enc_blob_size m l : zlen l <= PV_MAX_PLAINTEXT -> zlen (enc_blob m l) <= text_space l + 4.
Proof.
  intros. unfold enc_blob, text_space. rewrite zlen_app, cbor_head_length. pose proof (zlen_nonneg l).
  unfold PV_MAX_PLAINTEXT, UINT8_MAX, UINT16_MAX, UINT32_MAX in *. repeat split_if; lia.
Qed.

Lemma enc_blobs_size m max ls : max <= PV_MAX_PLAINTEXT -> Forall (blob_ok m max) ls ->
  zlen (concat (map (enc_blob m) ls)) <= texts_space ls + 4 * zlen ls.
Proof.
  intros Hmax. induction 1 as [|l ls (_ & Hl & _) _ IH]; [by vm_compute |]. cbn [map concat texts_space fold_right].
  fold (texts_space ls). rewrite zlen_app, zlen_cons. pose proof (enc_blob_size m l ltac:(lia)). lia.
Qed.

Lemma enc_fields_size fs : Forall field_ok fs ->
  zlen (concat (map enc_field fs)) <= texts_space (field_texts fs) + 13 * zlen fs.
Proof.
  induction 1 as [|f fs [(_ & Hn & _) _ (_ & Hv & _) Hf] _ IH]; [by vm_compute |].
  change (field_texts (f :: fs)) with ([f_name f; f_value f] ++ field_texts fs).
  cbn [map concat app texts_space fold_right]. fold (texts_space (field_texts fs)).
  unfold enc_field at 1. rewrite !zlen_app, zlen_cons.
  key_sizes. rewrite (head_small 0 (f_flags f)) by lia. unfold PV_MAX_FIELD_NAME, PV_MAX_FIELD_VALUE in *.
  pose proof (enc_blob_size 3 (f_name f) ltac:(unfold PV_MAX_PLAINTEXT; lia)).
  pose proof (enc_blob_size 2 (f_value f) ltac:(unfold PV_MAX_PLAINTEXT; lia)). lia.
Qed.

Lemma head_count m n : n <= 64 -> zlen (cbor_head m n) <= 2.
Proof. intros. rewrite cbor_head_length. unfold UINT8_MAX. repeat split_if; lia. Qed.

Lemma head_any m n : zlen (cbor_head m n) <= 9.
Proof. rewrite cbor_head_length. repeat split_if; lia. Qed.

Lemma enc_record_size c : content_ok c -> zlen (enc_record c) <= record_space c + 80.
Proof.
  intros []. unfold enc_record, enc_texts, record_space. rewrite !zlen_app.
  key_sizes. rewrite (head_small 0 (r_flags c)) by lia.
  pose proof (head_any 0 (r_revision c)). pose proof (head_any 0 (r_created_ms c)). pose proof (head_any 0 (r_updated_ms c)).
  pose proof (head_count 4 _ co_url_count0). pose proof (head_count 4 _ co_tag_count0). pose proof (head_count 4 _ co_field_count0).
  destruct co_title0 as (_ & ? & _), co_username0 as (_ & ? & _), co_password0 as (_ & ? & _), co_notes0 as (_ & ? & _).
  pose proof (enc_blobs_size 3 PV_MAX_URL (r_urls c) ltac:(by vm_compute) co_urls0). pose proof (enc_blobs_size 3 PV_MAX_TAG (r_tags c) ltac:(by vm_compute) co_tags0).
  pose proof (enc_fields_size _ co_fields0).
  assert (zlen (enc_blob 2 (r_id c)) = 17) by (unfold enc_blob; rewrite zlen_app, co_id0; by vm_compute).
  unfold PV_MAX_TITLE, PV_MAX_USERNAME, PV_MAX_PASSWORD, PV_MAX_NOTES in *.
  pose proof (enc_blob_size 3 (r_title c) ltac:(unfold PV_MAX_PLAINTEXT; lia)).
  pose proof (enc_blob_size 3 (r_username c) ltac:(unfold PV_MAX_PLAINTEXT; lia)).
  pose proof (enc_blob_size 2 (r_password c) ltac:(unfold PV_MAX_PLAINTEXT; lia)).
  pose proof (enc_blob_size 3 (r_notes c) ltac:(unfold PV_MAX_PLAINTEXT; lia)).
  pose proof (zlen_nonneg (r_urls c)). pose proof (zlen_nonneg (r_tags c)). pose proof (zlen_nonneg (r_fields c)).
  cbn [texts_space fold_right]. fold (texts_space (r_urls c)). lia.
Qed.

Lemma enc_records_size cs : Forall content_ok cs ->
  zlen (concat (map enc_record cs)) <= records_space cs + 80 * zlen cs.
Proof.
  induction 1 as [|c cs Hc _ IH]; [by vm_compute |]. cbn [map concat records_space fold_right]. fold (records_space cs).
  rewrite zlen_app, zlen_cons. pose proof (enc_record_size c Hc). lia.
Qed.

Lemma encoding_size v : vault_wf v -> meta_ok v -> 0 < zlen (encoding v) /\ zlen (encoding v) + 4 <= PV_MAX_PLAINTEXT.
Proof.
  intros Hwf []. assert (Hok : Forall content_ok (contents v)).
  { eapply Forall_impl; [| exact (vw_valid v Hwf)]. intros c. apply valid_content_ok. }
  destruct (vault_wf_fits v Hwf) as [Hfit Hn]. pose proof (layout_space (contents v)) as Hlay. unfold fits in Hfit.
  destruct (layout (contents v)) as [[n cap] k]. destruct Hlay as (Hs & Hc & Hl). simpl in Hfit.
  pose proof (enc_records_size _ Hok). unfold encoding, enc_vault. rewrite !zlen_app.
  assert (zlen (enc_blob 2 (v_device_id v)) = 17) by (unfold enc_blob; rewrite zlen_app, mo_device0; by vm_compute).
  unfold PV_CBOR_SCHEMA_VERSION. key_sizes.
  pose proof (head_any 0 (v_generation v)). pose proof (head_any 0 (v_created_ms v)). pose proof (head_any 0 (v_updated_ms v)).
  pose proof (head_any 4 (zlen (contents v))). pose proof (zlen_nonneg (concat (map enc_record (contents v)))).
  repeat match goal with |- context [zlen (cbor_head ?m ?x)] => lazymatch goal with
    | _ : 0 <= zlen (cbor_head m x) |- _ => fail | _ => pose proof (zlen_nonneg (cbor_head m x)) end end.
  unfold PV_ARENA_CAPACITY in *. lia.
Qed.
