(* ===== verification/CborProps.v ===== *)
(** * Properties of the CBOR codec

    Saving and loading: every vault that satisfies the invariant has an
    encoding, decoding it into a fresh vault gives the same vault back, and the
    decoder accepts no other byte string for it. *)

From S2P Require Import Prelude Status Util Sys Arena Model ModelFacts ModelInv ModelProps Cbor CborGrammar CborFacts.

(** libcbor's streaming decoder, as its API documents it: one call consumes
    the head of an integer, array or map, or a whole definite-length string. *)
Class LibcborLaws `(L : Libcbor) : Prop := {
  stream_head : forall m v tl, m = 0 \/ m = 4 \/ m = 5 -> 0 <= v <= UINT64_MAX ->
    cbor_stream_decode (cbor_head m v ++ tl) = (CBOR_DECODER_FINISHED, zlen (cbor_head m v));
  stream_blob : forall m l tl, m = 2 \/ m = 3 -> zlen l <= UINT64_MAX ->
    cbor_stream_decode (enc_blob m l ++ tl) = (CBOR_DECODER_FINISHED, zlen (enc_blob m l))
}.

(** ** Lemmas: the pass through libcbor *)

Section laws.
Context `{L : Libcbor} {Laws : LibcborLaws L}.

Inductive tokens : list Z -> Prop :=
| tokens_nil : tokens []
| tokens_head m v e : m = 0 \/ m = 4 \/ m = 5 -> 0 <= v <= UINT64_MAX -> tokens e -> tokens (cbor_head m v ++ e)
| tokens_blob m l e : m = 2 \/ m = 3 -> zlen l <= UINT64_MAX -> tokens e -> tokens (enc_blob m l ++ e).

Lemma cbor_head_pos m v : 0 < zlen (cbor_head m v).
Proof. rewrite cbor_head_length. repeat split_if; lia. Qed.

Lemma well_formed_step fuel item e :
  0 < zlen item -> cbor_stream_decode (item ++ e) = (CBOR_DECODER_FINISHED, zlen item) ->
  well_formed_loop (S fuel) (item ++ e) = well_formed_loop fuel e.
Proof.
  intros Hpos Hdec. destruct (item ++ e) as [|b l] eqn:E; [destruct item; [done | discriminate] |].
  cbn [well_formed_loop]. rewrite Hdec, <- E, zlen_app. pose proof (zlen_nonneg e).
  replace ((zlen item =? 0) || (zlen item + zlen e <? zlen item)) with false by lia.
  unfold zlen at 1. by rewrite Nat2Z.id, drop_app_length.
Qed.

Lemma well_formed_tokens e fuel : tokens e -> (length e <= fuel)%nat -> well_formed_loop fuel e = true.
Proof.
  intros He. revert fuel.
  induction He as [|m v e Hm Hv _ IH | m l e Hm Hl _ IH]; intros fuel Hf; [by destruct fuel | |].
  - pose proof (cbor_head_pos m v) as Hp. rewrite length_app in Hf. unfold zlen in Hp.
    destruct fuel as [|fuel]; [lia |]. rewrite well_formed_step; [apply IH; lia | done | by apply stream_head].
  - assert (Hp : 0 < zlen (enc_blob m l)) by (unfold enc_blob; rewrite zlen_app; pose proof (cbor_head_pos m (zlen l)); zlia).
    rewrite length_app in Hf. unfold zlen in Hp. destruct fuel as [|fuel]; [lia |].
    rewrite well_formed_step; [apply IH; lia | done | by apply stream_blob].
Qed.

Lemma tokens_app e1 e2 : tokens e1 -> tokens e2 -> tokens (e1 ++ e2).
Proof. induction 1; intros; simpl; rewrite <- ?app_assoc; [done | apply tokens_head; auto | apply tokens_blob; auto]. Qed.

Lemma tokens_head1 m v : m = 0 \/ m = 4 \/ m = 5 -> 0 <= v <= UINT64_MAX -> tokens (cbor_head m v).
Proof. intros. rewrite <- (app_nil_r (cbor_head m v)). by apply tokens_head; [| | constructor]. Qed.

Lemma tokens_blob1 m max l : m = 2 \/ m = 3 -> max <= UINT64_MAX -> blob_ok m max l -> tokens (enc_blob m l).
Proof.
  intros Hm Hmax (_ & Hl & _). rewrite <- (app_nil_r (enc_blob m l)). apply tokens_blob; [done | lia | constructor].
Qed.

Lemma tokens_concat ls : Forall tokens ls -> tokens (concat ls).
Proof. induction 1; simpl; [constructor | by apply tokens_app]. Qed.

Ltac tokens_items :=
  first [ assumption
        | eapply tokens_blob1; [lia | | eassumption]; by vm_compute
        | apply tokens_head1; [lia |];
          unfold PV_CBOR_SCHEMA_VERSION, PV_MAX_COLLECTION_ITEMS, INT64_MAX, UINT64_MAX in *; lia
        | apply tokens_app; [tokens_items | tokens_items]
        | idtac ].

Lemma tokens_field f : field_ok f -> tokens (enc_field f).
Proof.
  intros []. unfold enc_field. tokens_items.
Qed.

Lemma tokens_texts max ls : max <= UINT64_MAX -> zlen ls <= PV_MAX_COLLECTION_ITEMS -> Forall (blob_ok 3 max) ls -> tokens (enc_texts ls).
Proof.
  intros Hmax Hn Hl. pose proof (zlen_nonneg ls). apply tokens_app.
  - apply tokens_head1; [lia |]. unfold PV_MAX_COLLECTION_ITEMS, UINT64_MAX in *. lia.
  - apply tokens_concat. rewrite Forall_map. eapply Forall_impl; [| exact Hl]. intros l Hb.
    eapply tokens_blob1; [| | exact Hb]; [lia | done].
Qed.

Lemma tokens_record c : content_ok c -> tokens (enc_record c).
Proof.
  intros []. pose proof (zlen_nonneg (r_fields c)). unfold enc_record.
  assert (blob_ok 2 PV_RECORD_ID_BYTES (r_id c)) by (apply blob_ok_bytes; split; [done | lia]).
  assert (tokens (enc_texts (r_urls c))) by (apply (tokens_texts PV_MAX_URL); auto; by vm_compute).
  assert (tokens (enc_texts (r_tags c))) by (apply (tokens_texts PV_MAX_TAG); auto; by vm_compute).
  tokens_items.
  apply tokens_concat. rewrite Forall_map. eapply Forall_impl; [| eassumption]. apply tokens_field.
Qed.

Lemma tokens_vault g c u d cs :
  0 <= g <= UINT64_MAX -> 0 <= c <= INT64_MAX -> 0 <= u <= INT64_MAX -> is_bytes d -> zlen d = PV_DEVICE_ID_BYTES ->
  zlen cs <= UINT64_MAX -> Forall content_ok cs -> tokens (enc_vault g c u d cs).
Proof.
  intros Hg Hc Hu Hdb Hd Hn Hcs. pose proof (zlen_nonneg cs). unfold enc_vault.
  assert (blob_ok 2 PV_DEVICE_ID_BYTES d) by (apply blob_ok_bytes; split; [done | lia]).
  tokens_items. apply tokens_concat. rewrite Forall_map. eapply Forall_impl; [| exact Hcs]. apply tokens_record.
Qed.

End laws.

(** ** Lemmas: decoding records *)

Lemma source_of_view c : valid_content c -> source_of (record_map view_of c) c.
Proof.
  intros [_ Hb _]. constructor.
  - unfold record_ok. rewrite record_slices_map, Forall_map. eapply Forall_impl; [| exact Hb]. apply view_of_ok.
  - rewrite record_slices_map, Forall_map. apply Forall_true. intros l. unfold exact_view. by rewrite v_bytes_view_of.
  - destruct c. unfold record_map. simpl. rewrite !map_map, !v_bytes_view_of.
    assert (Hid : forall l, map (fun x => v_bytes (view_of x)) l = l)
      by (intros l; etrans; [| apply map_id]; apply map_ext; intros; apply v_bytes_view_of).
    rewrite !Hid. f_equal. etrans; [| apply map_id]. apply map_ext. intros f. unfold field_map. simpl.
    rewrite !v_bytes_view_of. by destruct f.
Qed.

Lemma view_typed {T} (g : list Z -> T) c : record_typed c -> record_typed (record_map g c).
Proof. intros []. by constructor. Qed.

(** Decoding the encodings of valid records into a vault they fit. *)
Lemma decode_records_run fuel ds : forall r d cs tl s,
  reader_wf r -> rest r = concat (map enc_record ds) ++ tl -> rebuilt d cs -> Forall content_ok ds ->
  NoDup (map r_id (cs ++ ds)) -> fits (cs ++ ds) -> clock_ok s ->
  exists d' s', decode_records fuel (length ds) r d s =
      (Some (true, adv r (zlen (concat (map enc_record ds))), d'), s') /\
    rebuilt d' (cs ++ ds) /\ same_meta d d' /\ s_mprotect s' = s_mprotect s.
Proof.
  induction ds as [|c ds IH]; intros r d cs tl s Hr Hrest Hd Hok Hnd Hfit Hclk.
  { exists d, s. rewrite app_nil_r, adv_0. split_and!; auto using same_meta_refl. }
  apply Forall_cons_iff in Hok as [Hc Hok]. rewrite cons_middle, app_assoc in Hnd, Hfit.
  cbn [map concat] in Hrest. rewrite <- app_assoc in Hrest.
  cbn [length decode_records]. rewrite bind_run. unfold decode_record.
  rewrite (codec_complete _ _ decode_temporary_codec r (record_map view_of c) (enc_record c) _ Hr) by (eauto).
  apply valid_content_ok in Hc. destruct (adv_split _ _ _ Hr Hrest) as [Hr1 Hrest1].
  destruct (add_record_rebuilt fuel d cs (record_map view_of c) c s Hd (source_of_view c Hc) Hc)
    as (d1 & s1 & Hrun & Hd1 & Hm1 & Hs1 & Hp1); auto.
  { rewrite map_app, map_app, <- app_assoc in Hnd. by apply NoDup_snoc_fresh in Hnd. }
  { by apply fits_prefix in Hfit. }
  rewrite bind_run, Hrun. unfold mret, M_ret. cbv beta iota.
  destruct (IH _ d1 (cs ++ [c]) tl s1 Hr1 Hrest1 Hd1 Hok Hnd Hfit (clock_ok_skip _ _ Hclk Hs1))
    as (d' & s' & Hrun' & Hd' & Hm' & Hp'). exists d', s'. rewrite Hrun', adv_adv. cbn [map concat].
  rewrite zlen_app, cons_middle, app_assoc. split_and!; auto; [| congruence]. unfold same_meta in *. destruct_and!. split_and!; congruence.
Qed.

(** Whatever the bytes, the vault stays well formed; on success they were
    encodings of the records added. *)
Lemma decode_record_outcome fuel r v s b r' v' s' :
  reader_wf r -> vault_wf v -> clock_ok s ->
  decode_record fuel r v s = (Some (b, r', v'), s') ->
  vault_wf v' /\ same_meta v v' /\
  (b = true -> exists c tl, content_ok c /\ rest r = enc_record c ++ tl /\ r' = adv r (zlen (enc_record c)) /\
     contents v' = contents v ++ [c] /\ s_clock s' = skip 1 (s_clock s)) /\
  (b = false -> rd_status r' <> PV_OK).
Proof.
  intros Hr Hv Hclk H. unfold decode_record in H. destruct (decode_temporary r) as [[t|] r1] eqn:E.
  - destruct (codec_sound _ _ decode_temporary_codec _ _ _ Hr E) as (e & tl & (c & -> & Hc & ->) & Hrest & ->).
    apply valid_content_ok in Hc as Hvc. destruct (source_of_view c Hvc) as [Hok _ Hcon].
    rewrite bind_run in H. destruct (pv_model_add_record fuel v (record_map view_of c) s) as [[[st v1]|] s1] eqn:Ea; [| done].
    destruct (add_record_outcome _ _ _ _ _ _ _ Hv Hok (view_typed _ _ (vc_typed c Hvc)) Hclk Ea) as [[Hwf Hm Hyes Hno] Hs].
    destruct (decide (st = PV_OK)) as [-> | Hne].
    + injection H as <- <- <- <-. split_and!; auto; try done. intros _. exists c, tl. split_and!; auto.
      destruct (Hyes eq_refl) as (id & Hcv & Hid & _). rewrite Hcon in Hcv.
      destruct (valid_content_id c Hvc) as (Hrev & Hz & _). rewrite (Hid Hz) in Hcv. simpl in Hcv.
      by rewrite stamped_existing in Hcv.
    + destruct st; try done; injection H as <- <- <- <-; split_and!; auto; done.
  - injection H as <- <- <- <-. split_and!; auto using same_meta_refl; try done. intros _.
    pose proof (codec_error _ _ decode_temporary_codec _ _ Hr E) as Hs. simpl.
    apply is_ok_false in Hs as Hs'. by rewrite Hs'.
Qed.

Lemma decode_records_outcome fuel n : forall r v s b r' v' s',
  reader_wf r -> vault_wf v -> clock_ok s ->
  decode_records fuel n r v s = (Some (b, r', v'), s') ->
  vault_wf v' /\ same_meta v v' /\
  (b = true -> exists ds tl, length ds = n /\ Forall content_ok ds /\ rest r = concat (map enc_record ds) ++ tl /\
     r' = adv r (zlen (concat (map enc_record ds))) /\ contents v' = contents v ++ ds) /\
  (b = false -> rd_status r' <> PV_OK).
Proof.
  induction n as [|n IH]; intros r v s b r' v' s' Hr Hv Hclk H; cbn [decode_records] in H.
  { injection H as <- <- <- <-. split_and!; auto using same_meta_refl; try done. intros _. exists [], (rest r).
    rewrite app_nil_r, adv_0. by split_and!. }
  rewrite bind_run in H. destruct (decode_record fuel r v s) as [[[[b1 r1] v1]|] s1] eqn:E; [| done].
  destruct (decode_record_outcome _ _ _ _ _ _ _ _ Hr Hv Hclk E) as (Hwf & Hm & Hyes & Hno).
  destruct b1; [| injection H as <- <- <- <-; by split_and!].
  destruct (Hyes eq_refl) as (c & tl & Hc & Hrest & -> & Hcv & Hs).
  destruct (adv_split _ _ _ Hr Hrest) as [Hr1 Hrest1].
  destruct (IH _ _ _ _ _ _ _ Hr1 Hwf (clock_ok_skip _ _ Hclk Hs) H) as (Hwf' & Hm' & Hyes' & Hno').
  split_and!; auto.
  - unfold same_meta in *. destruct_and!. split_and!; congruence.
  - intros Hb. destruct (Hyes' Hb) as (ds & tl' & Hl & Hok & Hrest' & -> & Hcv').
    exists (c :: ds), tl'. cbn [map concat length]. rewrite zlen_app, adv_adv. split_and!; auto.
    + rewrite Hrest, <- app_assoc. congruence.
    + by rewrite Hcv', Hcv, <- app_assoc.
Qed.

(** ** Lemmas: the whole plaintext *)

Lemma set_generation_rebuilt v cs g : rebuilt v cs -> rebuilt (set_generation v g) cs.
Proof. intros [[] ? ? ?]. by constructor. Qed.

Lemma set_device_id_rebuilt v cs d : rebuilt v cs -> rebuilt (set_device_id v d) cs.
Proof. intros [[] ? ? ?]. by constructor. Qed.

Lemma set_generation_wf v g : vault_wf v -> vault_wf (set_generation v g).
Proof. intros []. by constructor. Qed.

Lemma set_device_id_wf v d : vault_wf v -> vault_wf (set_device_id v d).
Proof. intros []. by constructor. Qed.

(** The metadata items: a key, then an integer. *)
Lemma codec_keyed_value k : 0 <= k <= UINT64_MAX ->
  codec (_ ← reader_expect_uint k; reader_value 0)
    (fun v e => 0 <= v <= UINT64_MAX /\ e = cbor_head 0 k ++ cbor_head 0 v).
Proof.
  intros Hk. eapply codec_ext.
  - eapply codec_bind; [by apply codec_expect | intros; apply codec_value; lia].
  - intros v e. split; [intros ([] & e1 & e2 & -> & (Hv & ->) & ->); done |].
    intros (Hv & ->). by exists tt, (cbor_head 0 k), (cbor_head 0 v).
Qed.

Lemma codec_keyed_count k m max : 0 <= k <= UINT64_MAX -> 0 <= m < 8 -> max <= UINT64_MAX ->
  codec (_ ← reader_expect_uint k; reader_count m max)
    (fun v e => 0 <= v <= max /\ e = cbor_head 0 k ++ cbor_head m v).
Proof.
  intros Hk Hm Hmax. eapply codec_ext.
  - eapply codec_bind; [by apply codec_expect | intros; by apply codec_count].
  - intros v e. split; [intros ([] & e1 & e2 & -> & (Hv & ->) & ->); done |].
    intros (Hv & ->). by exists tt, (cbor_head 0 k), (cbor_head m v).
Qed.

Lemma codec_keyed_blob k max : 0 <= k <= UINT64_MAX -> max <= UINT64_MAX ->
  codec (_ ← reader_expect_uint k; reader_slice 2 max)
    (fun s e => exists l, s = view_of l /\ blob_ok 2 max l /\ e = cbor_head 0 k ++ enc_blob 2 l).
Proof.
  intros Hk Hmax. eapply codec_ext.
  - eapply codec_bind; [by apply codec_expect | intros; apply codec_slice; [lia | done]].
  - intros v e. split; [intros ([] & e1 & e2 & -> & (l & -> & Hl & ->) & ->); by exists l |].
    intros (l & -> & Hl & ->). exists tt, (cbor_head 0 k), (enc_blob 2 l). split_and!; auto. by exists l.
Qed.

Lemma codec_version :
  codec (_ ← reader_expect_uint 0; _ ← reader_expect_uint PV_CBOR_SCHEMA_VERSION; _ ← reader_expect_uint 1; reader_value 0)
    (fun g e => 0 <= g <= UINT64_MAX /\
       e = cbor_head 0 0 ++ cbor_head 0 PV_CBOR_SCHEMA_VERSION ++ cbor_head 0 1 ++ cbor_head 0 g).
Proof.
  eapply codec_ext.
  - do 2 (eapply codec_bind; [apply codec_expect; split; by vm_compute | intros]).
    apply codec_keyed_value. split; by vm_compute.
  - intros g e. cbv beta. split.
    + intros (_ & e1 & e2 & -> & (_ & e3 & e4 & -> & (Hg & ->) & ->) & ->). done.
    + intros (Hg & ->). exists tt. eexists _, _. split; [done |]. split; [| done].
      exists tt. eexists _, _. split; [done |]. by split.
Qed.

Section decode.
Context `{L : Libcbor} {Laws : LibcborLaws L}.

Lemma fresh_reader l : is_bytes l -> reader_wf (mk_reader l (zlen l) 0 PV_OK) /\ rest (mk_reader l (zlen l) 0 PV_OK) = l.
Proof. intros. pose proof (zlen_nonneg l). split; [unfold reader_wf; simpl; split_and!; auto; lia | done]. Qed.

Lemma reader_done r : reader_wf r -> rest r = [] -> (rd_pos r =? rd_len r) = true.
Proof. intros Hr He. pose proof (rest_len r Hr) as H. rewrite He, zlen_nil in H. lia. Qed.

Lemma decode_body_run fuel cs r cr up d s :
  reader_wf r -> rest r = concat (map enc_record cs) -> rebuilt d [] -> Forall content_ok cs ->
  NoDup (map r_id cs) -> fits cs -> clock_ok s ->
  exists v' s', decode_body fuel (zlen cs) cr up r d s =
      (Some (if s_mprotect s 0%nat then PV_OK else PV_ERR_SECURE_MEMORY, v'), s') /\
    vault_wf v' /\ contents v' = cs /\ v_generation v' = v_generation d /\ v_device_id v' = v_device_id d /\
    v_created_ms v' = cr /\ v_updated_ms v' = up /\ v_dirty v' = false /\
    a_readonly (v_arena v') = s_mprotect s 0%nat /\
    v_vault_id v' = v_vault_id d /\ v_vmk v' = v_vmk d /\ v_source_hash v' = v_source_hash d /\ v_path v' = v_path d.
Proof.
  intros Hr Hrest Hd Hok Hnd Hfit Hclk. rewrite <- (app_nil_r (concat _)) in Hrest.
  destruct (decode_records_run fuel cs r d [] [] s Hr Hrest Hd Hok Hnd Hfit Hclk) as (d' & s' & Hrun & Hd' & Hm & Hp).
  unfold decode_body. rewrite bind_run. replace (Z.to_nat (zlen cs)) with (length cs) by (unfold zlen; lia). rewrite Hrun.
  destruct (adv_split _ _ _ Hr Hrest) as [Hr' Hrest']. rewrite (reader_done _ Hr' Hrest'). cbn [negb]. cbv zeta.
  destruct Hd' as [Hwf [Hbase Hro] Hc _]. unfold same_meta in Hm. destruct Hm as (M1 & M2 & M3 & M4 & M5 & M6 & M7).
  rewrite bind_run. unfold pv_arena_set_readonly. cbn [v_arena set_times]. rewrite Hbase. cbn [negb].
  rewrite bind_run. unfold sodium_mprotect. rewrite Hp.
  assert (Hwf' : vault_wf (set_times d' cr up false)) by (destruct Hwf; by constructor).
  destruct (s_mprotect s 0%nat); cbn [negb]; unfold mret, M_ret; cbn [fst snd]; eexists _, _; (split; [reflexivity |]).
  - destruct (vault_wf_protect _ (mk_arena true (a_capacity (v_arena d')) (a_used (v_arena d')) true (a_mem (v_arena d'))) Hwf')
      as [W C]; try done.
  - destruct (vault_wf_protect _ (v_arena d') Hwf') as [W C]; try done.
Qed.

Lemma read_step {A} (p : RD A) R r a e tl :
  codec p R -> reader_wf r -> R a e -> rest r = e ++ tl ->
  exists r', (forall v k, read_or_return p r v k = k a r') /\ reader_wf r' /\ rest r' = tl.
Proof.
  intros Hp Hr HR Hrest. exists (adv r (zlen e)). destruct (adv_split _ _ _ Hr Hrest) as [Hr' Hrest'].
  split_and!; auto. intros v k. unfold read_or_return. by rewrite (codec_complete _ _ Hp r a e tl Hr HR Hrest).
Qed.

Lemma decode_run fuel g cr up dev cs d s :
  let input := enc_vault g cr up dev cs in
  0 <= g <= UINT64_MAX -> 0 <= cr <= INT64_MAX -> 0 <= up <= INT64_MAX ->
  is_bytes dev -> zlen dev = PV_DEVICE_ID_BYTES -> or_all dev <> 0 ->
  Forall content_ok cs -> NoDup (map r_id cs) -> fits cs ->
  is_bytes input -> 0 < zlen input <= PV_MAX_PLAINTEXT -> rebuilt d [] -> clock_ok s ->
  exists v' s', pv_cbor_decode fuel input d s =
      (Some (if s_mprotect s 0%nat then PV_OK else PV_ERR_SECURE_MEMORY, v'), s') /\
    vault_wf v' /\ contents v' = cs /\ v_generation v' = g /\ v_device_id v' = dev /\
    v_created_ms v' = cr /\ v_updated_ms v' = up /\ v_dirty v' = false /\
    a_readonly (v_arena v') = s_mprotect s 0%nat /\
    v_vault_id v' = v_vault_id d /\ v_vmk v' = v_vmk d /\ v_source_hash v' = v_source_hash d /\ v_path v' = v_path d.
Proof.
  intros input Hg Hcr Hup Hdb Hdl Hdz Hok Hnd Hfit Hb Hlen Hd Hclk.
  pose proof (layout_fits_capacity cs Hfit) as [_ Hn]. pose proof (zlen_nonneg cs).
  unfold pv_cbor_decode. replace (v_record_count d) with 0 by (rewrite <- zlen_contents, (rb_contents d [] Hd); done).
  replace ((zlen input =? 0) || (PV_MAX_PLAINTEXT <? zlen input) || negb (0 =? 0)) with false by lia.
  assert (Hwell : libcbor_well_formed input = true).
  { apply well_formed_tokens; [| done]. apply tokens_vault; auto. unfold UINT64_MAX. lia. }
  rewrite Hwell. cbn [negb]. cbv zeta. destruct (fresh_reader input Hb) as [Hr Hrest].
  set (r0 := mk_reader input (zlen input) 0 PV_OK) in *. clearbody r0. unfold input, enc_vault in Hrest.
  edestruct @read_step with (r := r0) (a := 6) as (r1 & E1 & Hr1 & Hrest1);
    [apply (codec_count 5 6); first [lia | by vm_compute] | exact Hr | by split | exact Hrest |]. rewrite E1; clear E1. cbn [Z.eqb negb]. cbv beta.
  edestruct @read_step with (r := r1) (a := g) as (r2 & E2 & Hr2 & Hrest2);
    [exact codec_version | exact Hr1 | by split | rewrite Hrest1, <- !app_assoc; reflexivity |]. rewrite E2; clear E2. cbv beta zeta.
  edestruct @read_step with (r := r2) (a := (view_of dev)) as (r3 & E3 & Hr3 & Hrest3);
    [apply (codec_keyed_blob 2 PV_DEVICE_ID_BYTES); by vm_compute | exact Hr2
    | exists dev; split_and!; [done | apply blob_ok_bytes; split; [done | lia] | reflexivity]
    | rewrite Hrest2, <- !app_assoc; reflexivity |]. rewrite E3; clear E3. cbv beta zeta.
  rewrite v_bytes_view_of. unfold bytes_all_zero. cbn [view_of v_len v_device_id set_device_id].
  rewrite Hdl. cbn [Z.eqb negb orb]. replace (or_all dev =? 0) with false by lia. cbn [orb negb].
  change (negb (PV_DEVICE_ID_BYTES =? PV_DEVICE_ID_BYTES)) with false. cbn [orb].
  edestruct @read_step with (r := r3) (a := cr) as (r4 & E4 & Hr4 & Hrest4);
    [apply (codec_keyed_value 3); by vm_compute | exact Hr3 | split; [| reflexivity]; unfold INT64_MAX, UINT64_MAX in *; lia
    | rewrite Hrest3, <- !app_assoc; reflexivity |]. rewrite E4; clear E4. cbv beta. replace (INT64_MAX <? cr) with false by lia.
  edestruct @read_step with (r := r4) (a := up) as (r5 & E5 & Hr5 & Hrest5);
    [apply (codec_keyed_value 4); by vm_compute | exact Hr4 | split; [| reflexivity]; unfold INT64_MAX, UINT64_MAX in *; lia
    | rewrite Hrest4, <- !app_assoc; reflexivity |]. rewrite E5; clear E5. cbv beta. replace (INT64_MAX <? up) with false by lia.
  edestruct @read_step with (r := r5) (a := (zlen cs)) as (r6 & E6 & Hr6 & Hrest6);
    [apply (codec_keyed_count 5 4 (PV_MAX_PLAINTEXT / 64)); by vm_compute | exact Hr5
    | split; [| reflexivity]; change (PV_MAX_PLAINTEXT / 64) with 32768; lia
    | rewrite Hrest5, <- !app_assoc; reflexivity |]. rewrite E6; clear E6. cbv beta.
  apply (decode_body_run fuel cs r6 cr up (set_device_id (set_generation d g) dev) s); auto.
  by apply set_device_id_rebuilt, set_generation_rebuilt.
Qed.

End decode.

(** ** Lemmas: what was decoded was encoded *)

Lemma read_or_return_inv {A} (p : RD A) R r v k s st v' s' :
  codec p R -> reader_wf r -> read_or_return p r v k s = (Some (st, v'), s') ->
  (st <> PV_OK /\ v' = v) \/
  exists a e tl r', R a e /\ rest r = e ++ tl /\ reader_wf r' /\ rest r' = tl /\ k a r' s = (Some (st, v'), s').
Proof.
  intros Hp Hr H. unfold read_or_return in H. destruct (p r) as [[a|] r1] eqn:E.
  - right. destruct (codec_sound _ _ Hp _ _ _ Hr E) as (e & tl & HR & Hrest & ->).
    destruct (adv_split _ _ _ Hr Hrest) as [Hr1 Hrest1]. exists a, e, tl, (adv r (zlen e)). by split_and!.
  - left. injection H as <- <- <-. split; [by apply (codec_error _ _ Hp r) | done].
Qed.

(** The outcome of a call that started with the empty vault [d]. *)
Definition decoded_as (d : pv_vault) (created updated : Z) (rest_ : list Z) (st : pv_status) (v' : pv_vault) : Prop :=
  vault_wf v' /\
  (st = PV_OK -> Forall content_ok (contents v') /\ rest_ = concat (map enc_record (contents v')) /\
     v_generation v' = v_generation d /\ v_device_id v' = v_device_id d /\ v_created_ms v' = created /\
     v_updated_ms v' = updated /\ v_dirty v' = false /\ a_readonly (v_arena v') = true).

Lemma decode_body_inv fuel n cr up r d s st v' s' :
  reader_wf r -> vault_wf d -> contents d = [] -> clock_ok s -> 0 <= n ->
  decode_body fuel n cr up r d s = (Some (st, v'), s') ->
  decoded_as d cr up (rest r) st v' /\ (st = PV_OK -> zlen (contents v') = n).
Proof.
  intros Hr Hd Hcd Hclk Hn H. unfold decode_body in H. rewrite bind_run in H.
  destruct (decode_records fuel (Z.to_nat n) r d s) as [[[[b r1] v1]|] s1] eqn:E; [| done].
  destruct (decode_records_outcome _ _ _ _ _ _ _ _ _ Hr Hd Hclk E) as (Hwf & Hm & Hyes & Hno).
  destruct b.
  2: { injection H as <- <- <-. assert (Hs := Hno eq_refl). apply is_ok_false in Hs as Hs'. rewrite Hs'.
       split; [split; [done | done] | done]. }
  destruct (Hyes eq_refl) as (ds & tl & Hl & Hok & Hrest & -> & Hc). rewrite Hcd in Hc. simpl in Hc.
  destruct (adv_split _ _ _ Hr Hrest) as [Hr1 Hrest1]. destruct (negb _) eqn:Ep.
  { injection H as <- <- <-. split; [split; [done | done] | done]. }
  assert (tl = []) as ->.
  { pose proof (rest_len _ Hr1) as Hz. rewrite Hrest1 in Hz. apply negb_false_iff in Ep.
    destruct tl; [done | exfalso; zlia]. }
  rewrite app_nil_r in Hrest. cbv zeta in H. run_bind H. destruct x as [st1 a1]. unfold mret, M_ret in H. cbn [fst snd] in H.
  injection H as <- <- <-. destruct (set_protection_same _ _ _ _ _ (or_introl Heqp)) as (Em & Eu & Ec & Eb).
  assert (Hwf' : vault_wf (set_times v1 cr up false)) by (destruct Hwf; by constructor).
  destruct (vault_wf_protect _ a1 Hwf' Em Eu Ec Eb) as [W C].
  assert (Hcv : contents (set_arena (set_times v1 cr up false) a1) = ds) by (etrans; [exact C | exact Hc]).
  unfold same_meta in Hm. destruct Hm as (M1 & M2 & M3 & M4 & M5 & M6 & M7).
  split; [split; [done |] |]; rewrite Hcv; intros ->; [split_and!; auto |].
  - unfold pv_arena_set_readonly in Heqp. rewrite (vw_base _ Hwf') in Heqp. cbn [negb] in Heqp.
    rewrite bind_run in Heqp. unfold sodium_mprotect in Heqp. split_if_in Heqp; unfold mret, M_ret in Heqp; by simplify_eq.
  - unfold zlen. lia.
Qed.

Section canonical.
Context `{L : Libcbor}.

Lemma decode_inv fuel input d s st v' s' :
  is_bytes input -> vault_wf d -> clock_ok s ->
  pv_cbor_decode fuel input d s = (Some (st, v'), s') ->
  vault_wf v' /\
  (st = PV_OK -> input = encoding v' /\ meta_ok v' /\ v_dirty v' = false /\ a_readonly (v_arena v') = true).
Proof.
  intros Hb Hd Hclk H. unfold pv_cbor_decode in H. split_if_in H; [injection H as <- <- <-; done |].
  rewrite !orb_false_iff, negb_false_iff in Heqb. destruct Heqb as (_ & Hcnt).
  assert (Hcd : contents d = []).
  { apply Z.eqb_eq in Hcnt. rewrite <- zlen_contents in Hcnt. destruct (contents d); [done | exfalso; zlia]. }
  split_if_in H; [injection H as <- <- <-; done |]. cbv zeta in H.
  destruct (fresh_reader input Hb) as [Hr0 Hrest0]. set (r0 := mk_reader input _ _ _) in *. clearbody r0.
  assert (Hfail : forall v : pv_vault, vault_wf v -> forall st, st <> PV_OK -> vault_wf v /\
    (st = PV_OK -> input = encoding v /\ meta_ok v /\ v_dirty v = false /\ a_readonly (v_arena v) = true)) by (intros; done).
  apply (read_or_return_inv _ _ _ _ _ _ _ _ _ (codec_count 5 6 ltac:(lia) ltac:(by vm_compute)) Hr0) in H.
  destruct H as [[? ->] | (n6 & e0 & t0 & r1 & (_ & ->) & Hrest1 & Hr1 & Hrest1' & H)]; [by apply Hfail |].
  destruct (Z.eqb_spec n6 6) as [-> |]; cbn [negb] in H; [| injection H as <- <- <-; by apply Hfail].
  apply (read_or_return_inv _ _ _ _ _ _ _ _ _ codec_version Hr1) in H.
  destruct H as [[? ->] | (g & e1 & t1 & r2 & (Hg & ->) & Hrest2 & Hr2 & Hrest2' & H)]; [by apply Hfail |].
  pose proof (set_generation_wf d g Hd) as Hd1.
  apply (read_or_return_inv _ _ _ _ _ _ _ _ _ (codec_keyed_blob 2 PV_DEVICE_ID_BYTES ltac:(by vm_compute) ltac:(by vm_compute)) Hr2) in H.
  destruct H as [[? ->] | (? & e2 & t2 & r3 & (dev & -> & Hdev & ->) & Hrest3 & Hr3 & Hrest3' & H)]; [by apply Hfail |].
  rewrite v_bytes_view_of in H. cbn [view_of v_len] in H. split_if_in H; [injection H as <- <- <-; by apply Hfail |].
  apply orb_false_iff in Heqb0 as [Hdl _]. apply negb_false_iff, Z.eqb_eq in Hdl.
  pose proof (set_device_id_wf _ dev Hd1) as Hd2. cbn [v_device_id set_device_id] in H.
  destruct (Z.eqb_spec (or_all dev) 0) as [| Hdz]; [injection H as <- <- <-; by apply Hfail |].
  apply (read_or_return_inv _ _ _ _ _ _ _ _ _ (codec_keyed_value 3 ltac:(by vm_compute)) Hr3) in H.
  destruct H as [[? ->] | (cr & e3 & t3 & r4 & (Hcr & ->) & Hrest4 & Hr4 & Hrest4' & H)]; [by apply Hfail |].
  destruct (INT64_MAX <? cr) eqn:Ecr; [injection H as <- <- <-; by apply Hfail |].
  apply (read_or_return_inv _ _ _ _ _ _ _ _ _ (codec_keyed_value 4 ltac:(by vm_compute)) Hr4) in H.
  destruct H as [[? ->] | (up & e4 & t4 & r5 & (Hup & ->) & Hrest5 & Hr5 & Hrest5' & H)]; [by apply Hfail |].
  destruct (INT64_MAX <? up) eqn:Eup; [injection H as <- <- <-; by apply Hfail |].
  apply (read_or_return_inv _ _ _ _ _ _ _ _ _ (codec_keyed_count 5 4 (PV_MAX_PLAINTEXT / 64) ltac:(by vm_compute) ltac:(lia) ltac:(by vm_compute)) Hr5) in H.
  destruct H as [[? ->] | (n & e5 & t5 & r6 & (Hn & ->) & Hrest6 & Hr6 & Hrest6' & H)]; [by apply Hfail |].
  apply decode_body_inv in H as [[Hwf Hyes] Hlen]; auto; [| lia]. split; [done |]. intros Hst.
  destruct (Hyes Hst) as (Hok & Hcat & Eg & Ed & Ecr' & Eup' & Edirty & Ero). simpl in Eg, Ed.
  specialize (Hlen Hst). split_and!; auto.
  - rewrite <- Hrest0, Hrest1, <- Hrest1', Hrest2, <- Hrest2', Hrest3, <- Hrest3', Hrest4, <- Hrest4', Hrest5, <- Hrest5',
      Hrest6, <- Hrest6', Hcat. unfold encoding, enc_vault. rewrite Eg, Ed, Ecr', Eup', Hlen. by rewrite <- !app_assoc.
  - destruct Hdev as (Hdb & _). constructor; rewrite ?Eg, ?Ed, ?Ecr', ?Eup'; auto; lia.
Qed.

End canonical.

(** ** Lemmas: encodings are byte strings *)

Lemma is_bytes_concat ls : Forall is_bytes ls -> is_bytes (concat ls).
Proof. induction 1; simpl; auto with pv. Qed.

Lemma enc_blob_bytes m l : 0 <= m < 8 -> is_bytes l -> is_bytes (enc_blob m l).
Proof. intros. apply is_bytes_app_2; [apply cbor_head_bytes; auto; apply zlen_nonneg | done]. Qed.

Ltac bytes_items :=
  first [ assumption
        | apply enc_blob_bytes; [lia | first [assumption | match goal with H : blob_ok _ _ ?x |- is_bytes ?x => apply H end]]
        | apply cbor_head_bytes; [lia | first [apply zlen_nonneg | unfold PV_CBOR_SCHEMA_VERSION; lia]]
        | apply is_bytes_app_2; [bytes_items | bytes_items]
        | idtac ].

Lemma enc_field_bytes f : field_ok f -> is_bytes (enc_field f).
Proof. intros []. unfold enc_field. bytes_items. Qed.

Lemma enc_texts_bytes max ls : Forall (blob_ok 3 max) ls -> is_bytes (enc_texts ls).
Proof.
  intros Hl. unfold enc_texts. bytes_items. apply is_bytes_concat. rewrite Forall_map.
  eapply Forall_impl; [| exact Hl]. intros l [? _]. apply enc_blob_bytes; [lia | done].
Qed.

Lemma enc_record_bytes c : content_ok c -> is_bytes (enc_record c).
Proof.
  intros Hc. pose proof (enc_texts_bytes _ _ (co_urls c Hc)). pose proof (enc_texts_bytes _ _ (co_tags c Hc)). destruct Hc.
  unfold enc_record. bytes_items. apply is_bytes_concat. rewrite Forall_map.
  eapply Forall_impl; [| eassumption]. apply enc_field_bytes.
Qed.

Lemma vault_contents_ok v : vault_wf v -> Forall content_ok (contents v).
Proof. intros []. eapply Forall_impl; [| eassumption]. intros c. apply valid_content_ok. Qed.

Lemma encoding_bytes v : vault_wf v -> meta_ok v -> is_bytes (encoding v).
Proof.
  intros Hwf []. unfold encoding, enc_vault. bytes_items. apply is_bytes_concat. rewrite Forall_map.
  eapply Forall_impl; [| exact (vault_contents_ok v Hwf)]. apply enc_record_bytes.
Qed.

Lemma encode_run v s :
  vault_wf v -> meta_ok v ->
  fst (pv_cbor_encode v s) =
  if s_malloc s 0%nat && s_mlock s 0%nat then (PV_OK, Some (encoding v)) else (PV_ERR_SECURE_MEMORY, None).
Proof.
  intros Hwf Hm. pose proof Hm as [Hg Hc Hu Hd Hdb Hdz]. unfold pv_cbor_encode.
  replace (v_created_ms v <? 0) with false by lia. replace (v_updated_ms v <? 0) with false by lia. cbn [orb].
  replace (or_all (v_device_id v) =? 0) with false by lia. rewrite validate_records_ok by (auto; by apply Forall_forall).
  cbn [is_ok negb]. cbv zeta. rewrite bind_run. unfold sodium_malloc. destruct (s_malloc s 0%nat); [| done].
  cbn [negb andb]. rewrite bind_run. unfold sodium_mlock. cbn [s_mlock]. destruct (s_mlock s 0%nat); [| done]. cbn [negb].
  destruct (emits_vault v (mk_writer [] PV_MAX_PLAINTEXT PV_OK) Hwf Hm) as [_ He]; try done.
  pose proof (encoding_size v Hwf Hm) as Hsz. change (w_len _) with 0 in He. cbn [w_cap w_data] in He.
  replace (0 + zlen (encoding v) <=? PV_MAX_PLAINTEXT) with true in He by lia. rewrite He. done.
Qed.

(** ** Properties *)

(** [pv_cbor_encode] of a well-formed vault never fails for lack of space:
    when the plaintext buffer can be allocated and locked, it returns [PV_OK]
    and the shortest-form CBOR encoding of the vault, which also leaves room
    for the four-byte length that [pv_crypto_encrypt_body] prepends within
    [PV_MAX_PLAINTEXT]. *)
Theorem cbor_encode_total (v : pv_vault) (s : sys) (Hwf : vault_wf v) (Hm : meta_ok v)
    (Hmalloc : s_malloc s 0%nat = true) (Hmlock : s_mlock s 0%nat = true) :
  fst (pv_cbor_encode v s) = (PV_OK, Some (encoding v)) /\
  0 < zlen (encoding v) /\ zlen (encoding v) + 4 <= PV_MAX_PLAINTEXT.
Proof. split; [by rewrite encode_run, Hmalloc, Hmlock | by apply encoding_size]. Qed.

(** C16: saving and loading gives the vault back: decoding, into a freshly
    initialised vault, what [pv_cbor_encode] produced for a well-formed vault
    succeeds (whatever the random generator and with any fuel) and yields the
    same records, generation, device identifier and times, not dirty, in a
    read-only arena, and well formed again. *)
Theorem cbor_roundtrip `{L : Libcbor} (Laws : LibcborLaws L) (fuel : nat) (v d0 d : pv_vault)
    (bytes path : list Z) (s0 s1 s2 s3 s : sys)
    (Hwf : vault_wf v) (Hm : meta_ok v)
    (Henc : pv_cbor_encode v s0 = ((PV_OK, Some bytes), s1))
    (Hinit : pv_model_init d0 path s2 = ((PV_OK, d), s3))
    (Hclk : clock_ok s) (Hprot : s_mprotect s 0%nat = true) :
  exists v' s', pv_cbor_decode fuel bytes d s = (Some (PV_OK, v'), s') /\
    vault_wf v' /\ contents v' = contents v /\ v_generation v' = v_generation v /\
    v_device_id v' = v_device_id v /\ v_created_ms v' = v_created_ms v /\ v_updated_ms v' = v_updated_ms v /\
    v_dirty v' = false /\ a_readonly (v_arena v') = true.
Proof.
  assert (bytes = encoding v) as ->.
  { pose proof (encode_run v s0 Hwf Hm) as Hrun. rewrite Henc in Hrun. cbn [fst] in Hrun.
    by destruct (s_malloc s0 0%nat && s_mlock s0 0%nat); injection Hrun. }
  pose proof (encoding_bytes v Hwf Hm).
  assert (0 < zlen (encoding v) <= PV_MAX_PLAINTEXT) by (pose proof (encoding_size v Hwf Hm); lia).
  apply model_init_ok in Hinit as (-> & _ & _). destruct Hm as [Hg Hc Hu Hd Hdb Hdz].
  destruct (vault_wf_fits v Hwf) as [Hfit _].
  destruct (decode_run fuel (v_generation v) (v_created_ms v) (v_updated_ms v) (v_device_id v) (contents v) (fresh_vault path) s)
    as (v' & s' & Hrun & Hwf' & Hc' & Hg' & Hd' & Hcr & Hup & Hdi & Hro & _); auto using vault_contents_ok, fresh_rebuilt.
  - rewrite contents_ids. apply (vw_ids v Hwf).
  - rewrite Hprot in *. exists v', s'. by split_and!.
Qed.

(** libcbor's decoder for the items of this schema. *)
#[global] Instance reference_libcbor : Libcbor := {
  cbor_stream_decode input :=
    match head_parse input with
    | Some (m, v, n) =>
        if (m =? 0) || (m =? 4) || (m =? 5) then (CBOR_DECODER_FINISHED, n)
        else if (m =? 2) || (m =? 3) then
          if n + v <=? zlen input then (CBOR_DECODER_FINISHED, n + v) else (CBOR_DECODER_NEDATA, 0)
        else (CBOR_DECODER_ERROR, 0)
    | None => (CBOR_DECODER_ERROR, 0)
    end
}.

#[global] Instance reference_libcbor_laws : LibcborLaws reference_libcbor.
Proof.
  constructor; intros m x tl Hm Hx; cbn [cbor_stream_decode reference_libcbor].
  - rewrite head_parse_head by (auto; lia). by replace ((m =? 0) || (m =? 4) || (m =? 5)) with true by lia.
  - pose proof (zlen_nonneg x). unfold enc_blob. rewrite <- app_assoc, head_parse_head by (auto; lia).
    replace ((m =? 0) || (m =? 4) || (m =? 5)) with false by lia.
    replace ((m =? 2) || (m =? 3)) with true by lia. rewrite !zlen_app. pose proof (zlen_nonneg tl).
    by replace (_ <=? _) with true by lia.
Qed.

Definition saved_vault : pv_vault := set_device_id example_vault (replicate 16 3).

Lemma saved_vault_ok : vault_wf saved_vault /\ meta_ok saved_vault.
Proof.
  split; [apply set_device_id_wf, vault_reachable_inv, example_reachable |].
  constructor; try (split; by vm_compute); try by vm_compute. by apply Forall_replicate.
Qed.

Lemma cbor_encode_total_witness :
  fst (pv_cbor_encode saved_vault example_sys) = (PV_OK, Some (encoding saved_vault)) /\
  0 < zlen (encoding saved_vault) /\ zlen (encoding saved_vault) + 4 <= PV_MAX_PLAINTEXT.
Proof. destruct saved_vault_ok. by apply (cbor_encode_total saved_vault example_sys). Defined.

Lemma cbor_roundtrip_witness :
  exists v' s', pv_cbor_decode 0 (encoding saved_vault) (fresh_vault []) example_sys = (Some (PV_OK, v'), s') /\
    vault_wf v' /\ contents v' = contents saved_vault /\ v_generation v' = v_generation saved_vault /\
    v_device_id v' = v_device_id saved_vault /\ v_created_ms v' = v_created_ms saved_vault /\
    v_updated_ms v' = v_updated_ms saved_vault /\ v_dirty v' = false /\ a_readonly (v_arena v') = true.
Proof.
  destruct saved_vault_ok.
  apply (cbor_roundtrip reference_libcbor_laws 0 saved_vault vault_zero (fresh_vault []) (encoding saved_vault) []
    example_sys (snd (pv_cbor_encode saved_vault example_sys)) example_sys (snd (pv_model_init vault_zero [] example_sys)));
    [done | done | by vm_compute | by vm_compute | exact example_clock | done].
Defined.

(** C24: the decoder accepts only what the encoder writes: whatever libcbor says
    of it, if [pv_cbor_decode] returns [PV_OK] on an input then the input is,
    byte for byte, the encoding of the resulting vault, whose metadata is in
    range; and after any outcome the vault is well formed. *)
Theorem cbor_decode_canonical `{L : Libcbor} (fuel : nat) (input : list Z) (d : pv_vault) (s : sys)
    (st : pv_status) (v' : pv_vault) (s' : sys)
    (Hb : is_bytes input) (Hd : vault_wf d) (Hclk : clock_ok s)
    (Hrun : pv_cbor_decode fuel input d s = (Some (st, v'), s')) :
  vault_wf v' /\
  (st = PV_OK -> input = encoding v' /\ meta_ok v' /\ v_dirty v' = false /\ a_readonly (v_arena v') = true).
Proof. by apply (decode_inv fuel input d s st v' s'). Qed.

Definition reloaded : option (pv_status * pv_vault) * sys :=
  pv_cbor_decode 0 (encoding saved_vault) (fresh_vault []) example_sys.

Definition reloaded_vault : pv_vault :=
  match fst reloaded with Some (_, v) => v | None => vault_zero end.

Lemma cbor_decode_canonical_witness :
  vault_wf reloaded_vault /\
  (PV_OK = PV_OK -> encoding saved_vault = encoding reloaded_vault /\ meta_ok reloaded_vault /\
     v_dirty reloaded_vault = false /\ a_readonly (v_arena reloaded_vault) = true).
Proof.
  destruct saved_vault_ok as [Hwf Hm].
  apply (cbor_decode_canonical 0 (encoding saved_vault) (fresh_vault []) example_sys PV_OK reloaded_vault (snd reloaded));
    [by apply encoding_bytes | apply fresh_rebuilt | exact example_clock | by vm_compute].
Defined.
