(* ===== verification/Crypto.v ===== *)
(** * Headers, key slots and the encrypted body

    [src/crypto.c]: the 252-byte file header, the key slots that wrap the vault
    master key under a password and under the recovery key, and the padded,
    authenticated body. The primitives are libsodium's: the class [Sodium].

    Byte arrays of fixed size are lists of that length. Buffers for keys come
    from [sodium_malloc] and [sodium_mlock], which may fail. *)

From S2P Require Import Prelude Status Util Sys.

Record pv_keyslot_password := mk_pslot {
  ps_opslimit : Z;
  ps_memlimit : Z;
  ps_salt : list Z;
  ps_nonce : list Z;
  ps_wrapped_vmk : list Z
}.

Record pv_keyslot_recovery := mk_rslot {
  rs_nonce : list Z;
  rs_wrapped_vmk : list Z
}.

Record pv_file_header := mk_header {
  h_magic : list Z;
  h_major : Z;
  h_minor : Z;
  h_header_len : Z;
  h_flags : Z;
  h_vault_id : list Z;
  h_kdf_id : Z;
  h_wrap_aead_id : Z;
  h_body_aead_id : Z;
  h_slot_count : Z;
  h_password_slot : pv_keyslot_password;
  h_recovery_slot : pv_keyslot_recovery;
  h_body_nonce : list Z;
  h_body_ciphertext_len : Z
}.

(** [sodium_memzero(header, sizeof( *header))]. *)
Definition header_zero : pv_file_header :=
  mk_header (zeros PV_MAGIC_LEN) 0 0 0 0 (zeros PV_VAULT_ID_BYTES) 0 0 0 0
    (mk_pslot 0 0 (zeros PV_SALT_BYTES) (zeros PV_WRAP_NONCE_BYTES) (zeros PV_WRAPPED_VMK_BYTES))
    (mk_rslot (zeros PV_WRAP_NONCE_BYTES) (zeros PV_WRAPPED_VMK_BYTES))
    (zeros PV_WRAP_NONCE_BYTES) 0.

(** ['P', 'V', 'L', 'T', 0x0d, 0x0a, 0x1a, 0x0a], ["PVBODY01"], ["PVRECV01"]. *)
Definition pv_magic : list Z := [80; 86; 76; 84; 0x0d; 0x0a; 0x1a; 0x0a].
Definition body_kdf_context : list Z := [80; 86; 66; 79; 68; 89; 48; 49].
Definition recovery_kdf_context : list Z := [80; 86; 82; 69; 67; 86; 48; 49].

Definition PV_PASSWORD_AAD_LEN : Z := 76.
Definition PV_RECOVERY_AAD_LEN : Z := 44.
Definition crypto_pwhash_PASSWD_MAX : Z := 4294967295.

(** ** Little-endian integers *)

Definition put_u16_le (value : Z) : list Z := [u8 value; u8 (Z.shiftr value 8)].
Definition put_u32_le (value : Z) : list Z :=
  map (fun i => u8 (Z.shiftr value (Z.of_nat i * 8))) (seq 0 4).
Definition put_u64_le (value : Z) : list Z :=
  map (fun i => u8 (Z.shiftr value (Z.of_nat i * 8))) (seq 0 8).

Definition get_u16_le (input : list Z) : Z :=
  Z.lor (znth input 0) (u16 (Z.shiftl (znth input 1) 8)).
Definition get_u32_le (input : list Z) : Z :=
  fold_left (fun value i => Z.lor value (u32 (Z.shiftl (znth input (Z.of_nat i)) (Z.of_nat i * 8)))) (seq 0 4) 0.
Definition get_u64_le (input : list Z) : Z :=
  fold_left (fun value i => Z.lor value (u64 (Z.shiftl (znth input (Z.of_nat i)) (Z.of_nat i * 8)))) (seq 0 8) 0.

(** ** The header *)

(** [output] is the caller's buffer of [PV_FILE_HEADER_LEN] bytes. *)
Definition pv_header_encode (header : pv_file_header) (output : list Z) : list Z :=
  let p := h_password_slot header in
  let r := h_recovery_slot header in
  let output := zwrite output 0 (h_magic header) in
  let output := zwrite output 8 (put_u16_le (h_major header)) in
  let output := zwrite output 10 (put_u16_le (h_minor header)) in
  let output := zwrite output 12 (put_u32_le (h_header_len header)) in
  let output := zwrite output 16 (put_u32_le (h_flags header)) in
  let output := zwrite output 20 (h_vault_id header) in
  let output := zwrite output 36 (put_u16_le (h_kdf_id header)) in
  let output := zwrite output 38 (put_u16_le (h_wrap_aead_id header)) in
  let output := zwrite output 40 (put_u16_le (h_body_aead_id header)) in
  let output := zwrite output 42 (put_u16_le (h_slot_count header)) in
  let output := zwrite output 44 (put_u64_le (ps_opslimit p)) in
  let output := zwrite output 52 (put_u64_le (ps_memlimit p)) in
  let output := zwrite output 60 (ps_salt p) in
  let output := zwrite output 76 (ps_nonce p) in
  let output := zwrite output 100 (ps_wrapped_vmk p) in
  let output := zwrite output 148 (rs_nonce r) in
  let output := zwrite output 172 (rs_wrapped_vmk r) in
  let output := zwrite output 220 (h_body_nonce header) in
  zwrite output 244 (put_u64_le (h_body_ciphertext_len header)).

(** The assignments of [pv_header_decode]. *)
Definition header_read (input : list Z) : pv_file_header :=
  mk_header (zsub input 0 PV_MAGIC_LEN)
    (get_u16_le (zsub input 8 2)) (get_u16_le (zsub input 10 2))
    (get_u32_le (zsub input 12 4)) (get_u32_le (zsub input 16 4))
    (zsub input 20 PV_VAULT_ID_BYTES)
    (get_u16_le (zsub input 36 2)) (get_u16_le (zsub input 38 2))
    (get_u16_le (zsub input 40 2)) (get_u16_le (zsub input 42 2))
    (mk_pslot (get_u64_le (zsub input 44 8)) (get_u64_le (zsub input 52 8))
       (zsub input 60 PV_SALT_BYTES) (zsub input 76 PV_WRAP_NONCE_BYTES)
       (zsub input 100 PV_WRAPPED_VMK_BYTES))
    (mk_rslot (zsub input 148 PV_WRAP_NONCE_BYTES) (zsub input 172 PV_WRAPPED_VMK_BYTES))
    (zsub input 220 PV_WRAP_NONCE_BYTES)
    (get_u64_le (zsub input 244 8)).

Definition pv_header_decode (input : list Z) : pv_status * pv_file_header :=
  let header := header_read input in
  let id_aggregate := or_all (h_vault_id header) in
  let maximum_ciphertext := PV_MAX_PLAINTEXT + PV_BODY_TAG_BYTES in
  if negb (bytes_eqb (h_magic header) pv_magic) then (PV_ERR_FORMAT, header_zero) else
  if negb (h_major header =? PV_FILE_MAJOR) || negb (h_minor header =? PV_FILE_MINOR)
  then (PV_ERR_UNSUPPORTED, header_zero) else
  if (id_aggregate =? 0) || negb (h_header_len header =? PV_FILE_HEADER_LEN) ||
     negb (h_flags header =? 0) || negb (h_kdf_id header =? PV_KDF_ARGON2ID13) ||
     negb (h_wrap_aead_id header =? PV_AEAD_XCHACHA20POLY1305) ||
     negb (h_body_aead_id header =? PV_AEAD_XCHACHA20POLY1305) ||
     negb (h_slot_count header =? 2) ||
     (ps_opslimit (h_password_slot header) <? PV_V1_PASSWORD_OPSLIMIT_MIN) ||
     (PV_V1_PASSWORD_OPSLIMIT_MAX <? ps_opslimit (h_password_slot header)) ||
     (ps_memlimit (h_password_slot header) <? PV_V1_PASSWORD_MEMLIMIT_MIN) ||
     (PV_V1_PASSWORD_MEMLIMIT_MAX <? ps_memlimit (h_password_slot header)) ||
     (h_body_ciphertext_len header <? 4096 + PV_BODY_TAG_BYTES) ||
     negb ((h_body_ciphertext_len header - PV_BODY_TAG_BYTES) mod 4096 =? 0) ||
     (maximum_ciphertext <? h_body_ciphertext_len header)
  then (PV_ERR_FORMAT, header_zero) else
  (PV_OK, header).

(** Assignments to members of the header. *)
Definition set_password_slot (h : pv_file_header) (p : pv_keyslot_password) : pv_file_header :=
  mk_header (h_magic h) (h_major h) (h_minor h) (h_header_len h) (h_flags h) (h_vault_id h)
    (h_kdf_id h) (h_wrap_aead_id h) (h_body_aead_id h) (h_slot_count h) p (h_recovery_slot h)
    (h_body_nonce h) (h_body_ciphertext_len h).
Definition set_recovery_slot (h : pv_file_header) (r : pv_keyslot_recovery) : pv_file_header :=
  mk_header (h_magic h) (h_major h) (h_minor h) (h_header_len h) (h_flags h) (h_vault_id h)
    (h_kdf_id h) (h_wrap_aead_id h) (h_body_aead_id h) (h_slot_count h) (h_password_slot h) r
    (h_body_nonce h) (h_body_ciphertext_len h).
Definition set_body (h : pv_file_header) (nonce : list Z) (ciphertext_len : Z) : pv_file_header :=
  mk_header (h_magic h) (h_major h) (h_minor h) (h_header_len h) (h_flags h) (h_vault_id h)
    (h_kdf_id h) (h_wrap_aead_id h) (h_body_aead_id h) (h_slot_count h) (h_password_slot h)
    (h_recovery_slot h) nonce ciphertext_len.

(** The serialized header in a local buffer of the given initial contents. *)
Definition serialized_header (h : pv_file_header) : list Z := pv_header_encode h (zeros PV_FILE_HEADER_LEN).

Section crypto.
Context `{Sodium}.

(** ** Keys *)

Definition secure_key_alloc : M pv_status :=
  ok ← sodium_malloc;
  if negb ok then mret PV_ERR_NOMEM else
  locked ← sodium_mlock;
  mret (if negb locked then PV_ERR_SECURE_MEMORY else PV_OK).

(** The status and the derived key. *)
Definition password_key (slot : pv_keyslot_password) (password : list Z) : pv_status * list Z :=
  if (zlen password =? 0) || (crypto_pwhash_PASSWD_MAX <? zlen password) ||
     (ps_opslimit slot <? PV_V1_PASSWORD_OPSLIMIT_MIN) || (PV_V1_PASSWORD_OPSLIMIT_MAX <? ps_opslimit slot) ||
     (ps_memlimit slot <? PV_V1_PASSWORD_MEMLIMIT_MIN) || (PV_V1_PASSWORD_MEMLIMIT_MAX <? ps_memlimit slot)
  then (PV_ERR_AUTH, zeros PV_WRAP_KEY_BYTES) else
  match crypto_pwhash password (ps_salt slot) (ps_opslimit slot) (ps_memlimit slot) with
  | None => (PV_ERR_SECURE_MEMORY, zeros PV_WRAP_KEY_BYTES)
  | Some key => (PV_OK, key)
  end.

Definition recovery_wrap_key (recovery_key : list Z) : pv_status * list Z :=
  match crypto_kdf_derive 0 recovery_kdf_context recovery_key with
  | None => (PV_ERR_STATE, zeros PV_WRAP_KEY_BYTES)
  | Some key => (PV_OK, key)
  end.

Definition body_key (vmk : list Z) : pv_status * list Z :=
  match crypto_kdf_derive 1 body_kdf_context vmk with
  | None => (PV_ERR_STATE, zeros PV_BODY_KEY_BYTES)
  | Some key => (PV_OK, key)
  end.

(** The status and the wrapped key, [wrapped] when nothing was stored. *)
Definition wrap_vmk (aad nonce key vmk wrapped : list Z) : pv_status * list Z :=
  match aead_encrypt vmk aad nonce key with
  | None => (PV_ERR_STATE, wrapped)
  | Some c => if negb (zlen c =? PV_WRAPPED_VMK_BYTES) then (PV_ERR_STATE, c) else (PV_OK, c)
  end.

Definition unwrap_vmk (aad nonce key wrapped : list Z) : pv_status * list Z :=
  match aead_decrypt wrapped aad nonce key with
  | None => (PV_ERR_AUTH, zeros PV_WRAP_KEY_BYTES)
  | Some vmk =>
      if negb (zlen vmk =? PV_WRAP_KEY_BYTES) then (PV_ERR_AUTH, zeros PV_WRAP_KEY_BYTES) else (PV_OK, vmk)
  end.

(** ** Key slots *)

Definition pv_crypto_rewrap_password (header : pv_file_header) (new_password vmk : list Z)
  : M (pv_status * pv_file_header) :=
  salt ← randombytes_buf PV_SALT_BYTES;
  nonce ← randombytes_buf PV_WRAP_NONCE_BYTES;
  let slot := mk_pslot PV_V1_PASSWORD_OPSLIMIT PV_V1_PASSWORD_MEMLIMIT salt nonce
                (ps_wrapped_vmk (h_password_slot header)) in
  let header := set_password_slot header slot in
  status ← secure_key_alloc;
  if negb (is_ok status) then mret (status, header) else
  let '(status, key) := password_key slot new_password in
  if negb (is_ok status) then mret (status, header) else
  let serialized := serialized_header header in
  let '(status, wrapped) :=
    wrap_vmk (zsub serialized 0 PV_PASSWORD_AAD_LEN) nonce key vmk (ps_wrapped_vmk slot) in
  mret (status, set_password_slot header
    (mk_pslot (ps_opslimit slot) (ps_memlimit slot) (ps_salt slot) (ps_nonce slot) wrapped)).

Definition pv_crypto_rewrap_recovery (header : pv_file_header) (recovery_key vmk : list Z)
  : M (pv_status * pv_file_header) :=
  nonce ← randombytes_buf PV_WRAP_NONCE_BYTES;
  let slot := mk_rslot nonce (rs_wrapped_vmk (h_recovery_slot header)) in
  let header := set_recovery_slot header slot in
  status ← secure_key_alloc;
  if negb (is_ok status) then mret (status, header) else
  let '(status, key) := recovery_wrap_key recovery_key in
  if negb (is_ok status) then mret (status, header) else
  let serialized := serialized_header header in
  let '(status, wrapped) :=
    wrap_vmk (zsub serialized 0 PV_RECOVERY_AAD_LEN) nonce key vmk (rs_wrapped_vmk slot) in
  mret (status, set_recovery_slot header (mk_rslot (rs_nonce slot) wrapped)).

(** [header] supplies the requested identifier, zero for a random one. *)
Definition pv_crypto_create_header (header : pv_file_header) (password recovery_key vmk : list Z)
  : M (pv_status * pv_file_header) :=
  let requested_id := h_vault_id header in
  let has_requested_id := existsb (fun b => negb (b =? 0)) requested_id in
  vault_id ← (if has_requested_id then mret requested_id else randombytes_buf PV_VAULT_ID_BYTES);
  let header :=
    mk_header pv_magic PV_FILE_MAJOR PV_FILE_MINOR PV_FILE_HEADER_LEN 0 vault_id PV_KDF_ARGON2ID13
      PV_AEAD_XCHACHA20POLY1305 PV_AEAD_XCHACHA20POLY1305 2 (h_password_slot header_zero)
      (h_recovery_slot header_zero) (h_body_nonce header_zero) 0 in
  r ← pv_crypto_rewrap_password header password vmk;
  if negb (is_ok (fst r)) then mret r else
  pv_crypto_rewrap_recovery (snd r) recovery_key vmk.

(** The status and the contents of [vmk] afterwards. *)
Definition pv_crypto_unlock_password (header : pv_file_header) (password vmk : list Z)
  : M (pv_status * list Z) :=
  status ← secure_key_alloc;
  if negb (is_ok status) then mret (status, vmk) else
  let '(status, key) := password_key (h_password_slot header) password in
  if negb (is_ok status) then mret (status, vmk) else
  let serialized := serialized_header header in
  mret (unwrap_vmk (zsub serialized 0 PV_PASSWORD_AAD_LEN) (ps_nonce (h_password_slot header)) key
          (ps_wrapped_vmk (h_password_slot header))).

Definition pv_crypto_unlock_recovery (header : pv_file_header) (recovery_key vmk : list Z)
  : M (pv_status * list Z) :=
  status ← secure_key_alloc;
  if negb (is_ok status) then mret (status, vmk) else
  let '(status, key) := recovery_wrap_key recovery_key in
  if negb (is_ok status) then mret (status, vmk) else
  let serialized := serialized_header header in
  mret (unwrap_vmk (zsub serialized 0 PV_RECOVERY_AAD_LEN) (rs_nonce (h_recovery_slot header)) key
          (rs_wrapped_vmk (h_recovery_slot header))).

(** ** The body *)

(** The status, the header and the ciphertext ([None] when [data] is [NULL]). *)
Definition pv_crypto_encrypt_body (header : pv_file_header) (vmk plaintext : list Z)
  : M (pv_status * pv_file_header * option (list Z)) :=
  let plaintext_len := zlen plaintext in
  if plaintext_len =? 0 then mret (PV_ERR_USAGE, header, None) else
  match pv_size_add plaintext_len 4 with
  | None => mret (PV_ERR_LIMIT, header, None)
  | Some raw_len =>
  if PV_MAX_PLAINTEXT <? raw_len then mret (PV_ERR_LIMIT, header, None) else
  let padded_len := Z.land (raw_len + 4095) (Z.lnot 4095) in
  if (padded_len =? 0) || (PV_MAX_PLAINTEXT <? padded_len) then mret (PV_ERR_LIMIT, header, None) else
  status ← secure_key_alloc;
  if negb (is_ok status) then mret (status, header, None) else
  let '(status, key) := body_key vmk in
  if negb (is_ok status) then mret (status, header, None) else
  padded_ok ← sodium_malloc;
  data_ok ← sodium_malloc;
  locked ← (if padded_ok && data_ok then sodium_mlock else mret false);
  if negb locked then mret (PV_ERR_SECURE_MEMORY, header, None) else
  padding ← (if raw_len <? padded_len then randombytes_buf (padded_len - raw_len) else mret []);
  let padded := put_u32_le (u32 plaintext_len) ++ plaintext ++ padding in
  nonce ← randombytes_buf PV_WRAP_NONCE_BYTES;
  let header := set_body header nonce (padded_len + PV_BODY_TAG_BYTES) in
  let serialized := serialized_header header in
  match aead_encrypt padded serialized nonce key with
  | None => mret (PV_ERR_STATE, header, None)
  | Some c =>
      if negb (zlen c =? h_body_ciphertext_len header) then mret (PV_ERR_STATE, header, None)
      else mret (PV_OK, header, Some c)
  end
  end.

(** The status and the contents of [plaintext] ([None] when [data] is [NULL]). *)
Definition pv_crypto_decrypt_body (header : pv_file_header) (vmk ciphertext : list Z)
  : M (pv_status * option (list Z)) :=
  let ciphertext_len := zlen ciphertext in
  if negb (ciphertext_len =? h_body_ciphertext_len header) || (ciphertext_len <? 4096 + PV_BODY_TAG_BYTES) ||
     negb ((ciphertext_len - PV_BODY_TAG_BYTES) mod 4096 =? 0)
  then mret (PV_ERR_FORMAT, None) else
  status ← secure_key_alloc;
  if negb (is_ok status) then mret (status, None) else
  let '(status, key) := body_key vmk in
  let serialized := serialized_header header in
  data_ok ← sodium_malloc;
  locked ← (if is_ok status && data_ok then sodium_mlock else mret false);
  if negb locked then mret (if is_ok status then PV_ERR_SECURE_MEMORY else status, None) else
  match aead_decrypt ciphertext serialized (h_body_nonce header) key with
  | None => mret (PV_ERR_AUTH, None)
  | Some padded =>
      let decoded_len := zlen padded in
      if (decoded_len <? 4) || (PV_MAX_PLAINTEXT <? decoded_len) || negb (decoded_len mod 4096 =? 0)
      then mret (PV_ERR_FORMAT, None) else
      let content_len := get_u32_le padded in
      if (decoded_len - 4 <? content_len) || (content_len =? 0) then mret (PV_ERR_FORMAT, None)
      else mret (PV_OK, Some (zsub padded 4 content_len))
  end.

End crypto.
