(* ===== verification/CryptoFacts.v ===== *)
(** * Lemmas of headers and key slots

    The layout of the serialized header, and what each key-slot operation does
    to the parts of it that the slots authenticate. *)

From S2P Require Import Prelude Status Util Sys Crypto.

(** ** Little-endian integers *)

Lemma put_u16_put v : put_u16_le v = le_put 2 v.
Proof. done. Qed.
Lemma put_u32_put v : put_u32_le v = le_put 4 v.
Proof. unfold put_u32_le. by rewrite le_put_map. Qed.
Lemma put_u64_put v : put_u64_le v = le_put 8 v.
Proof. unfold put_u64_le. by rewrite le_put_map. Qed.

Lemma zlen_le_put n v : zlen (le_put n v) = Z.of_nat n.
Proof. unfold zlen. by rewrite le_put_length. Qed.

(** The loops that assemble an integer of [n] bytes at width [W]. *)
Lemma get_loop (W : Z -> Z) n l :
  (forall x i, is_byte x -> (i < n)%nat -> W (Z.shiftl x (Z.of_nat i * 8)) = Z.shiftl x (Z.of_nat i * 8)) ->
  is_bytes l -> (n <= length l)%nat ->
  fold_left (fun value i => Z.lor value (W (Z.shiftl (znth l (Z.of_nat i)) (Z.of_nat i * 8)))) (seq 0 n) 0 =
  le_get (take n l).
Proof.
  intros HW Hb. induction n as [|n IH]; intros Hn; [done |]. rewrite seq_S, fold_left_app. cbn [fold_left Nat.add].
  rewrite IH by (intros; try apply HW; auto; lia).
  destruct (lookup_lt_is_Some_2 l n ltac:(lia)) as [x Hx].
  rewrite (take_S_r l n x Hx), le_get_snoc. f_equal. unfold zlen. rewrite length_take, Nat.min_l by lia.
  assert (znth l (Z.of_nat n) = x) as -> by (unfold znth; rewrite Nat2Z.id; by apply nth_lookup_Some).
  apply HW; [| lia]. eapply Forall_lookup_1; [exact Hb | done].
Qed.

Lemma shiftl_byte_bound x i n : is_byte x -> (i < n)%nat -> 0 <= Z.shiftl x (Z.of_nat i * 8) < 2 ^ (Z.of_nat n * 8).
Proof.
  unfold is_byte. intros Hx Hi. rewrite Z.shiftl_mul_pow2 by lia.
  assert (0 < 2 ^ (Z.of_nat i * 8)) by (apply Z.pow_pos_nonneg; lia).
  assert (2 ^ (Z.of_nat i * 8) * 2 ^ 8 <= 2 ^ (Z.of_nat n * 8))
    by (rewrite <- Z.pow_add_r by lia; apply Z.pow_le_mono_r; lia).
  change (2 ^ 8) with 256 in *. nia.
Qed.

Lemma get_u16_get l : is_bytes l -> (2 <= length l)%nat -> get_u16_le l = le_get (take 2 l).
Proof.
  intros Hb Hl. destruct l as [|x [|y l]]; [simpl in Hl; lia .. |]. unfold get_u16_le, znth. simpl.
  apply Forall_cons_iff in Hb as [Hx Hb]. apply Forall_cons_iff in Hb as [Hy _].
  rewrite Z.shiftl_0_l, Z.lor_0_r. f_equal. unfold u16. apply Z.mod_small.
  exact (shiftl_byte_bound y 1 2 Hy ltac:(lia)).
Qed.

Lemma get_u32_get l : is_bytes l -> (4 <= length l)%nat -> get_u32_le l = le_get (take 4 l).
Proof.
  intros. apply (get_loop u32); auto. intros x i Hx Hi. apply Z.mod_small. exact (shiftl_byte_bound x i 4 Hx Hi).
Qed.

Lemma get_u64_get l : is_bytes l -> (8 <= length l)%nat -> get_u64_le l = le_get (take 8 l).
Proof.
  intros. apply (get_loop u64); auto. intros x i Hx Hi. apply Z.mod_small. exact (shiftl_byte_bound x i 8 Hx Hi).
Qed.

(** ** The layout of the header *)

(** Sizes of the arrays and ranges of the integers of the C structure. *)
Record header_typed (h : pv_file_header) : Prop := {
  ht_magic : zlen (h_magic h) = 8 /\ is_bytes (h_magic h);
  ht_major : 0 <= h_major h < 65536;
  ht_minor : 0 <= h_minor h < 65536;
  ht_header_len : 0 <= h_header_len h < 4294967296;
  ht_flags : 0 <= h_flags h < 4294967296;
  ht_vault_id : zlen (h_vault_id h) = 16 /\ is_bytes (h_vault_id h);
  ht_kdf_id : 0 <= h_kdf_id h < 65536;
  ht_wrap_id : 0 <= h_wrap_aead_id h < 65536;
  ht_body_id : 0 <= h_body_aead_id h < 65536;
  ht_slot_count : 0 <= h_slot_count h < 65536;
  ht_opslimit : 0 <= ps_opslimit (h_password_slot h) <= UINT64_MAX;
  ht_memlimit : 0 <= ps_memlimit (h_password_slot h) <= UINT64_MAX;
  ht_salt : zlen (ps_salt (h_password_slot h)) = 16 /\ is_bytes (ps_salt (h_password_slot h));
  ht_pnonce : zlen (ps_nonce (h_password_slot h)) = 24 /\ is_bytes (ps_nonce (h_password_slot h));
  ht_pwrapped : zlen (ps_wrapped_vmk (h_password_slot h)) = 48 /\ is_bytes (ps_wrapped_vmk (h_password_slot h));
  ht_rnonce : zlen (rs_nonce (h_recovery_slot h)) = 24 /\ is_bytes (rs_nonce (h_recovery_slot h));
  ht_rwrapped : zlen (rs_wrapped_vmk (h_recovery_slot h)) = 48 /\ is_bytes (rs_wrapped_vmk (h_recovery_slot h));
  ht_body_nonce : zlen (h_body_nonce h) = 24 /\ is_bytes (h_body_nonce h);
  ht_body_len : 0 <= h_body_ciphertext_len h <= UINT64_MAX
}.

(** Bytes 0-43, authenticated by the recovery slot; 44-75, authenticated with
    them by the password slot; the rest. *)
Definition identity_bytes (h : pv_file_header) : list Z :=
  h_magic h ++ le_put 2 (h_major h) ++ le_put 2 (h_minor h) ++ le_put 4 (h_header_len h) ++
  le_put 4 (h_flags h) ++ h_vault_id h ++ le_put 2 (h_kdf_id h) ++ le_put 2 (h_wrap_aead_id h) ++
  le_put 2 (h_body_aead_id h) ++ le_put 2 (h_slot_count h).
Definition kdf_bytes (p : pv_keyslot_password) : list Z :=
  le_put 8 (ps_opslimit p) ++ le_put 8 (ps_memlimit p) ++ ps_salt p.
Definition slot_bytes (h : pv_file_header) : list Z :=
  ps_nonce (h_password_slot h) ++ ps_wrapped_vmk (h_password_slot h) ++
  rs_nonce (h_recovery_slot h) ++ rs_wrapped_vmk (h_recovery_slot h) ++
  h_body_nonce h ++ le_put 8 (h_body_ciphertext_len h).
Definition header_bytes (h : pv_file_header) : list Z :=
  identity_bytes h ++ kdf_bytes (h_password_slot h) ++ slot_bytes h.

(** A [memcpy] just behind what is already written. *)
Lemma zwrite_next {A} (pre old bs : list A) off :
  off = zlen pre -> zwrite (pre ++ old) off bs = (pre ++ bs) ++ drop (length bs) old.
Proof.
  intros ->. unfold zwrite, zlen. rewrite Nat2Z.id, take_app_length, <- drop_drop, drop_app_length. by rewrite app_assoc.
Qed.

Ltac header_lengths :=
  repeat rewrite zlen_app; repeat rewrite zlen_le_put;
  repeat match goal with H : zlen ?x = _ |- context [zlen ?x] => rewrite H end.

Lemma identity_len h : header_typed h -> zlen (identity_bytes h) = 44.
Proof. intros []. destruct_and!. unfold identity_bytes. header_lengths. done. Qed.

Lemma kdf_len h : header_typed h -> zlen (kdf_bytes (h_password_slot h)) = 32.
Proof. intros []. destruct_and!. unfold kdf_bytes. header_lengths. done. Qed.

Lemma header_len h : header_typed h -> zlen (header_bytes h) = 252.
Proof.
  intros Ht. unfold header_bytes. rewrite !zlen_app, identity_len, kdf_len by done. destruct Ht. destruct_and!.
  unfold slot_bytes. header_lengths. done.
Qed.

Lemma header_encode_eq h out :
  header_typed h -> zlen out = PV_FILE_HEADER_LEN -> pv_header_encode h out = header_bytes h.
Proof.
  intros Ht Hout. pose proof (header_len h Ht) as Hlen. destruct Ht. destruct_and!. unfold pv_header_encode. cbv zeta.
  rewrite (put_u16_put (h_major h)), (put_u16_put (h_minor h)), (put_u32_put (h_header_len h)), (put_u32_put (h_flags h)),
    (put_u16_put (h_kdf_id h)), (put_u16_put (h_wrap_aead_id h)), (put_u16_put (h_body_aead_id h)),
    (put_u16_put (h_slot_count h)), (put_u64_put (ps_opslimit _)), (put_u64_put (ps_memlimit _)),
    (put_u64_put (h_body_ciphertext_len h)), <- (app_nil_l out).
  do 19 (rewrite zwrite_next; [| rewrite ?zlen_nil; header_lengths; reflexivity]).
  rewrite !drop_drop. rewrite drop_ge.
  - rewrite app_nil_r. unfold header_bytes, identity_bytes, kdf_bytes, slot_bytes. by rewrite app_nil_l, <- !app_assoc.
  - unfold PV_FILE_HEADER_LEN, zlen in *. rewrite !le_put_length. lia.
Qed.

(** Reading a field back from the serialized header. *)
Lemma zsub_skip {A} (x l : list A) off n k : zlen x = k -> k <= off -> zsub (x ++ l) off n = zsub l (off - k) n.
Proof. intros <- H. by apply zsub_app_r. Qed.

Lemma zsub_take {A} (x l : list A) off n : zlen x = n -> off = 0 -> zsub (x ++ l) off n = x.
Proof. intros <- ->. rewrite zsub_app_l by zlia. apply zsub_all. Qed.

Ltac field_len := first [eassumption | apply zlen_le_put].
Ltac read_field :=
  repeat (erewrite zsub_skip; [| field_len | lia]);
  first [rewrite zsub_take; [| field_len | lia] | idtac].

Lemma le_get_put_take n v : 0 <= v < 256 ^ Z.of_nat n -> le_get (take n (le_put n v)) = v.
Proof. intros. rewrite firstn_all2 by (rewrite le_put_length; lia). by apply le_get_put. Qed.

Lemma get_u16_put v : 0 <= v < 65536 -> get_u16_le (le_put 2 v) = v.
Proof. intros. rewrite get_u16_get by (auto with pv; rewrite le_put_length; lia). by apply (le_get_put_take 2). Qed.
Lemma get_u32_put v : 0 <= v < 4294967296 -> get_u32_le (le_put 4 v) = v.
Proof. intros. rewrite get_u32_get by (auto with pv; rewrite le_put_length; lia). by apply (le_get_put_take 4). Qed.
Lemma get_u64_put v : 0 <= v <= UINT64_MAX -> get_u64_le (le_put 8 v) = v.
Proof.
  intros. rewrite get_u64_get by (auto with pv; rewrite le_put_length; lia). apply (le_get_put_take 8).
  unfold UINT64_MAX in *. change (256 ^ Z.of_nat 8) with 18446744073709551616. lia.
Qed.

Lemma header_read_bytes h : header_typed h -> header_read (header_bytes h) = h.
Proof.
  intros []. destruct_and!. unfold header_bytes, identity_bytes, kdf_bytes, slot_bytes. repeat rewrite <- app_assoc.
  unfold header_read. set (l := h_magic h ++ _).
  assert (E0 : zsub l 0 PV_MAGIC_LEN = h_magic h) by (unfold l; by read_field).
  assert (E1 : zsub l 8 2 = le_put 2 (h_major h)) by (unfold l; by read_field).
  assert (E2 : zsub l 10 2 = le_put 2 (h_minor h)) by (unfold l; by read_field).
  assert (E3 : zsub l 12 4 = le_put 4 (h_header_len h)) by (unfold l; by read_field).
  assert (E4 : zsub l 16 4 = le_put 4 (h_flags h)) by (unfold l; by read_field).
  assert (E5 : zsub l 20 PV_VAULT_ID_BYTES = h_vault_id h) by (unfold l; by read_field).
  assert (E6 : zsub l 36 2 = le_put 2 (h_kdf_id h)) by (unfold l; by read_field).
  assert (E7 : zsub l 38 2 = le_put 2 (h_wrap_aead_id h)) by (unfold l; by read_field).
  assert (E8 : zsub l 40 2 = le_put 2 (h_body_aead_id h)) by (unfold l; by read_field).
  assert (E9 : zsub l 42 2 = le_put 2 (h_slot_count h)) by (unfold l; by read_field).
  assert (E10 : zsub l 44 8 = le_put 8 (ps_opslimit (h_password_slot h))) by (unfold l; by read_field).
  assert (E11 : zsub l 52 8 = le_put 8 (ps_memlimit (h_password_slot h))) by (unfold l; by read_field).
  assert (E12 : zsub l 60 PV_SALT_BYTES = ps_salt (h_password_slot h)) by (unfold l; by read_field).
  assert (E13 : zsub l 76 PV_WRAP_NONCE_BYTES = ps_nonce (h_password_slot h)) by (unfold l; by read_field).
  assert (E14 : zsub l 100 PV_WRAPPED_VMK_BYTES = ps_wrapped_vmk (h_password_slot h)) by (unfold l; by read_field).
  assert (E15 : zsub l 148 PV_WRAP_NONCE_BYTES = rs_nonce (h_recovery_slot h)) by (unfold l; by read_field).
  assert (E16 : zsub l 172 PV_WRAPPED_VMK_BYTES = rs_wrapped_vmk (h_recovery_slot h)) by (unfold l; by read_field).
  assert (E17 : zsub l 220 PV_WRAP_NONCE_BYTES = h_body_nonce h) by (unfold l; by read_field).
  assert (E18 : zsub l 244 8 = le_put 8 (h_body_ciphertext_len h)).
  { unfold l. read_field. replace (zsub _ _ 8) with (zsub (le_put 8 (h_body_ciphertext_len h)) 0 (zlen (le_put 8 (h_body_ciphertext_len h)))).
    - apply zsub_all.
    - rewrite zlen_le_put. by f_equal. }
  rewrite E0, E1, E2, E3, E4, E5, E6, E7, E8, E9, E10, E11, E12, E13, E14, E15, E16, E17, E18.
  rewrite !get_u16_put, !get_u32_put, !get_u64_put by done. by destruct h as [? ? ? ? ? ? ? ? ? ? [] [] ? ?].
Qed.

Lemma le_put_get_n n l : zlen l = Z.of_nat n -> is_bytes l -> le_put n (le_get (take n l)) = l.
Proof.
  intros Hl Hb. unfold zlen in Hl. assert (length l = n) as <- by lia. rewrite firstn_all. by apply le_put_get.
Qed.

Lemma le_get_range n l : zlen l = Z.of_nat n -> is_bytes l -> 0 <= le_get (take n l) < 256 ^ Z.of_nat n.
Proof.
  intros Hl Hb. unfold zlen in Hl. assert (length l = n) as <- by lia. rewrite firstn_all.
  pose proof (le_get_nonneg l Hb) as H. by unfold zlen in H.
Qed.

Section reading.
Context (input : list Z) (Hlen : zlen input = 252) (Hb : is_bytes input).

Lemma piece_len a n : 0 <= a -> 0 <= n -> a + n <= 252 -> zlen (zsub input a n) = n.
Proof. intros. apply zlen_zsub; lia. Qed.

Lemma piece_bytes a n : is_bytes (zsub input a n).
Proof. auto with pv. Qed.

Lemma piece_u16 a : 0 <= a -> a + 2 <= 252 ->
  le_put 2 (get_u16_le (zsub input a 2)) = zsub input a 2 /\ 0 <= get_u16_le (zsub input a 2) < 65536.
Proof.
  intros. pose proof (piece_len a 2) as Hl. rewrite get_u16_get by (auto using piece_bytes; unfold zlen in Hl; lia).
  split; [apply le_put_get_n | apply (le_get_range 2)]; auto using piece_bytes; lia.
Qed.

Lemma piece_u32 a : 0 <= a -> a + 4 <= 252 ->
  le_put 4 (get_u32_le (zsub input a 4)) = zsub input a 4 /\ 0 <= get_u32_le (zsub input a 4) < 4294967296.
Proof.
  intros. pose proof (piece_len a 4) as Hl. rewrite get_u32_get by (auto using piece_bytes; unfold zlen in Hl; lia).
  split; [apply le_put_get_n | apply (le_get_range 4)]; auto using piece_bytes; lia.
Qed.

Lemma piece_u64 a : 0 <= a -> a + 8 <= 252 ->
  le_put 8 (get_u64_le (zsub input a 8)) = zsub input a 8 /\ 0 <= get_u64_le (zsub input a 8) <= UINT64_MAX.
Proof.
  intros. pose proof (piece_len a 8) as Hl. rewrite get_u64_get by (auto using piece_bytes; unfold zlen in Hl; lia).
  split; [apply le_put_get_n; auto using piece_bytes; lia |].
  pose proof (le_get_range 8 (zsub input a 8) ltac:(lia) (piece_bytes _ _)) as Hr.
  change (256 ^ Z.of_nat 8) with 18446744073709551616 in Hr. unfold UINT64_MAX. lia.
Qed.

Lemma header_read_typed : header_typed (header_read input).
Proof.
  constructor; cbn [header_read h_magic h_major h_minor h_header_len h_flags h_vault_id h_kdf_id h_wrap_aead_id
    h_body_aead_id h_slot_count h_password_slot h_recovery_slot h_body_nonce h_body_ciphertext_len
    ps_opslimit ps_memlimit ps_salt ps_nonce ps_wrapped_vmk rs_nonce rs_wrapped_vmk];
  match goal with
  | |- _ /\ is_bytes _ => split; [apply piece_len; by vm_compute | apply piece_bytes]
  | |- context [get_u16_le] => apply piece_u16; lia
  | |- context [get_u32_le] => apply piece_u32; lia
  | |- context [get_u64_le] => apply piece_u64; lia
  end.
Qed.

(** Joins the last two pieces of a list of adjacent ones. *)
Lemma piece_join a n m k : 0 <= a -> 0 <= n -> 0 <= m -> k = a + n -> zsub input a n ++ zsub input k m = zsub input a (n + m).
Proof. intros ? ? ? ->. by apply zsub_join. Qed.

Lemma header_bytes_read : header_bytes (header_read input) = input.
Proof.
  unfold header_bytes, identity_bytes, kdf_bytes, slot_bytes, header_read. cbn [h_magic h_major h_minor h_header_len h_flags
    h_vault_id h_kdf_id h_wrap_aead_id h_body_aead_id h_slot_count h_password_slot h_recovery_slot h_body_nonce
    h_body_ciphertext_len ps_opslimit ps_memlimit ps_salt ps_nonce ps_wrapped_vmk rs_nonce rs_wrapped_vmk].
  rewrite !(fun a H1 H2 => proj1 (piece_u16 a H1 H2)) by lia. rewrite !(fun a H1 H2 => proj1 (piece_u32 a H1 H2)) by lia. rewrite !(fun a H1 H2 => proj1 (piece_u64 a H1 H2)) by lia.
  repeat rewrite <- app_assoc. repeat (rewrite piece_join by (by vm_compute)).
  etrans; [| apply zsub_all]. by rewrite Hlen.
Qed.

End reading.

(** ** What the header must satisfy to be accepted *)

Record identity_ok (h : pv_file_header) : Prop := {
  io_typed : header_typed h;
  io_magic : h_magic h = pv_magic;
  io_major : h_major h = PV_FILE_MAJOR;
  io_minor : h_minor h = PV_FILE_MINOR;
  io_header_len : h_header_len h = PV_FILE_HEADER_LEN;
  io_flags : h_flags h = 0;
  io_vault_id : or_all (h_vault_id h) <> 0;
  io_kdf_id : h_kdf_id h = PV_KDF_ARGON2ID13;
  io_wrap_id : h_wrap_aead_id h = PV_AEAD_XCHACHA20POLY1305;
  io_body_id : h_body_aead_id h = PV_AEAD_XCHACHA20POLY1305;
  io_slot_count : h_slot_count h = 2;
  io_opslimit : PV_V1_PASSWORD_OPSLIMIT_MIN <= ps_opslimit (h_password_slot h) <= PV_V1_PASSWORD_OPSLIMIT_MAX;
  io_memlimit : PV_V1_PASSWORD_MEMLIMIT_MIN <= ps_memlimit (h_password_slot h) <= PV_V1_PASSWORD_MEMLIMIT_MAX
}.

Definition body_len_ok (n : Z) : Prop :=
  4096 + PV_BODY_TAG_BYTES <= n <= PV_MAX_PLAINTEXT + PV_BODY_TAG_BYTES /\ (n - PV_BODY_TAG_BYTES) mod 4096 = 0.

Definition header_valid (h : pv_file_header) : Prop := identity_ok h /\ body_len_ok (h_body_ciphertext_len h).

Lemma header_decode_ok input h :
  zlen input = PV_FILE_HEADER_LEN -> is_bytes input ->
  pv_header_decode input = (PV_OK, h) <-> h = header_read input /\ header_valid h.
Proof.
  intros Hl Hb. pose proof (header_read_typed input Hl Hb) as Ht. unfold pv_header_decode. cbv zeta.
  set (g := header_read input) in *. clearbody g. split.
  - intros H. do 3 (split_if_in H; [done |]). injection H as <-. split; [done |].
    rewrite !orb_false_iff, !negb_false_iff in *. destruct_and!. rewrite ?Z.eqb_eq, ?bytes_eqb_eq in *.
    split; [constructor; auto; try lia | split; [lia | done]].
  - intros [-> [[] [Hn Hm]]]. rewrite io_magic0, bytes_eqb_refl, io_major0, io_minor0, io_header_len0, io_flags0,
      io_kdf_id0, io_wrap_id0, io_body_id0, io_slot_count0, Hm.
    replace (or_all (h_vault_id g) =? 0) with false by lia.
    repeat match goal with |- context [?a <? ?b] => replace (a <? b) with false by lia end. done.
Qed.

Lemma header_decode_error input st h :
  pv_header_decode input = (st, h) -> st <> PV_OK -> h = header_zero.
Proof. unfold pv_header_decode. cbv zeta. intros H Hne. repeat split_if_in H; injection H as <- <-; done. Qed.

(** ** The authenticated prefixes *)

Lemma serialized_eq h : header_typed h -> serialized_header h = header_bytes h.
Proof. intros Ht. exact (header_encode_eq h (zeros PV_FILE_HEADER_LEN) Ht (zlen_zeros 252 ltac:(lia))). Qed.

Lemma recovery_aad h : header_typed h -> zsub (serialized_header h) 0 PV_RECOVERY_AAD_LEN = identity_bytes h.
Proof.
  intros Ht. rewrite serialized_eq by done. unfold header_bytes.
  apply (zsub_take (identity_bytes h)); [by rewrite identity_len | done].
Qed.

Lemma password_aad h : header_typed h ->
  zsub (serialized_header h) 0 PV_PASSWORD_AAD_LEN = identity_bytes h ++ kdf_bytes (h_password_slot h).
Proof.
  intros Ht. rewrite serialized_eq by done. unfold header_bytes. rewrite app_assoc.
  apply (zsub_take (identity_bytes h ++ kdf_bytes (h_password_slot h))); [| done].
  by rewrite zlen_app, identity_len, kdf_len.
Qed.

Lemma set_password_slot_typed h p :
  header_typed h -> 0 <= ps_opslimit p <= UINT64_MAX -> 0 <= ps_memlimit p <= UINT64_MAX ->
  zlen (ps_salt p) = 16 /\ is_bytes (ps_salt p) -> zlen (ps_nonce p) = 24 /\ is_bytes (ps_nonce p) ->
  zlen (ps_wrapped_vmk p) = 48 /\ is_bytes (ps_wrapped_vmk p) -> header_typed (set_password_slot h p).
Proof. intros []. by constructor. Qed.

Lemma set_recovery_slot_typed h r :
  header_typed h -> zlen (rs_nonce r) = 24 /\ is_bytes (rs_nonce r) ->
  zlen (rs_wrapped_vmk r) = 48 /\ is_bytes (rs_wrapped_vmk r) -> header_typed (set_recovery_slot h r).
Proof. intros []. by constructor. Qed.

Lemma set_body_typed h n l :
  header_typed h -> zlen n = 24 /\ is_bytes n -> 0 <= l <= UINT64_MAX -> header_typed (set_body h n l).
Proof. intros []. by constructor. Qed.

(** The platform can allocate and lock the next key buffer. *)
Definition alloc_ok (s : sys) : Prop := s_malloc s 0%nat = true /\ s_mlock s 0%nat = true.

Lemma secure_key_alloc_ok s : alloc_ok s -> fst (secure_key_alloc s) = PV_OK.
Proof. intros [Ha Hl]. unfold secure_key_alloc. rewrite bind_run. unfold sodium_malloc. rewrite Ha. simpl. unfold mbind, M_bind, sodium_mlock. simpl. by rewrite Hl. Qed.

Lemma randombytes_typed n s x s' : 0 <= n -> randombytes_buf n s = (x, s') -> zlen x = n /\ is_bytes x.
Proof. intros Hn H. pose proof (randombytes_len n s Hn). pose proof (randombytes_bytes n s). rewrite H in *. done. Qed.

(** ** Key slots *)

Section slots.
Context `{S : Sodium} {Laws : SodiumLaws S}.

(** The slot holds [vmk] wrapped under the password (the recovery key), and is
    bound to the authenticated prefix of this header. *)
Definition password_opens (h : pv_file_header) (password vmk : list Z) : Prop :=
  exists key, password_key (h_password_slot h) password = (PV_OK, key) /\
    aead_encrypt vmk (identity_bytes h ++ kdf_bytes (h_password_slot h)) (ps_nonce (h_password_slot h)) key =
      Some (ps_wrapped_vmk (h_password_slot h)).

Definition recovery_opens (h : pv_file_header) (recovery_key vmk : list Z) : Prop :=
  exists key, recovery_wrap_key recovery_key = (PV_OK, key) /\
    aead_encrypt vmk (identity_bytes h) (rs_nonce (h_recovery_slot h)) key = Some (rs_wrapped_vmk (h_recovery_slot h)).

Lemma unwrap_correct aad nonce key vmk wrapped :
  aead_encrypt vmk aad nonce key = Some wrapped -> zlen vmk = PV_WRAP_KEY_BYTES ->
  unwrap_vmk aad nonce key wrapped = (PV_OK, vmk).
Proof. intros He Hl. unfold unwrap_vmk. by rewrite (aead_correct _ _ _ _ _ He), Hl. Qed.

Lemma unlock_password_opens h password vmk v s :
  header_typed h -> zlen vmk = PV_WRAP_KEY_BYTES -> alloc_ok s -> password_opens h password vmk ->
  fst (pv_crypto_unlock_password h password v s) = (PV_OK, vmk).
Proof.
  intros Ht Hl Hs (key & Hk & He). unfold pv_crypto_unlock_password. rewrite bind_run.
  pose proof (secure_key_alloc_ok s Hs) as Ha. destruct (secure_key_alloc s) as [st s1]. simpl in Ha. subst st.
  cbn [is_ok negb]. rewrite Hk. cbn [is_ok negb]. cbv zeta. rewrite password_aad by done. simpl. by apply unwrap_correct.
Qed.

Lemma unlock_recovery_opens h recovery_key vmk v s :
  header_typed h -> zlen vmk = PV_WRAP_KEY_BYTES -> alloc_ok s -> recovery_opens h recovery_key vmk ->
  fst (pv_crypto_unlock_recovery h recovery_key v s) = (PV_OK, vmk).
Proof.
  intros Ht Hl Hs (key & Hk & He). unfold pv_crypto_unlock_recovery. rewrite bind_run.
  pose proof (secure_key_alloc_ok s Hs) as Ha. destruct (secure_key_alloc s) as [st s1]. simpl in Ha. subst st.
  cbn [is_ok negb]. rewrite Hk. cbn [is_ok negb]. cbv zeta. rewrite recovery_aad by done. simpl. by apply unwrap_correct.
Qed.

(** What a successful unlock proves about the slot. *)
Lemma unwrap_sound aad nonce key wrapped vmk :
  unwrap_vmk aad nonce key wrapped = (PV_OK, vmk) ->
  aead_encrypt vmk aad nonce key = Some wrapped /\ zlen vmk = PV_WRAP_KEY_BYTES.
Proof.
  unfold unwrap_vmk. destruct (aead_decrypt wrapped aad nonce key) as [m|] eqn:E; [| done].
  split_if; [done |]. intros [= <-]. apply negb_false_iff, Z.eqb_eq in Heqb. split; [by apply aead_unique | done].
Qed.

Lemma unlock_password_sound h password v s vmk s' :
  header_typed h -> pv_crypto_unlock_password h password v s = ((PV_OK, vmk), s') ->
  password_opens h password vmk /\ zlen vmk = PV_WRAP_KEY_BYTES.
Proof.
  intros Ht H. unfold pv_crypto_unlock_password in H. run_bind H. destruct (is_ok x) eqn:Ex; cbn [negb] in H; [| by injection H as -> _ _].
  destruct (password_key (h_password_slot h) password) as [st key] eqn:Hk.
  destruct (is_ok st) eqn:Est; cbn [negb] in H; [| by injection H as -> _ _]. apply is_ok_true in Est as ->.
  cbv zeta in H. rewrite password_aad in H by done. unfold mret, M_ret in H. injection H as H _.
  apply unwrap_sound in H as [He Hl]. split; [by exists key | done].
Qed.

Lemma wrap_ok aad nonce key vmk old c :
  wrap_vmk aad nonce key vmk old = (PV_OK, c) -> is_bytes vmk ->
  aead_encrypt vmk aad nonce key = Some c /\ zlen c = PV_WRAPPED_VMK_BYTES /\ is_bytes c.
Proof.
  unfold wrap_vmk. destruct (aead_encrypt vmk aad nonce key) as [m|] eqn:E; [| done]. split_if; [done |].
  intros [= <-] Hb. apply negb_false_iff, Z.eqb_eq in Heqb. split_and!; auto. by eapply aead_bytes.
Qed.

End slots.

Lemma header_bytes_bytes h : header_typed h -> is_bytes (header_bytes h).
Proof.
  intros []. destruct_and!. unfold header_bytes, identity_bytes, kdf_bytes, slot_bytes. repeat apply is_bytes_app_2; auto with pv.
Qed.
