(* ===== verification/CryptoProps.v ===== *)
(** * Properties of headers, key slots and the body

    The header format round-trips and is accepted exactly; whatever sequence of
    password changes, recovery-key changes and saves a vault goes through, its
    current password and recovery key open the same master key; and the body
    decrypts to what was encrypted, and to nothing else. *)

From S2P Require Import Prelude Status Util Sys ReferenceSodium Arena Crypto CryptoFacts.

Section operations.
Context `{S : Sodium} {Laws : SodiumLaws S}.

(** ** Lemmas: the key-slot operations *)

Lemma rewrap_password_ok h password vmk s h' s' :
  header_typed h -> is_bytes vmk ->
  pv_crypto_rewrap_password h password vmk s = ((PV_OK, h'), s') ->
  exists p, h' = set_password_slot h p /\ header_typed h' /\ password_opens h' password vmk /\
    ps_opslimit p = PV_V1_PASSWORD_OPSLIMIT /\ ps_memlimit p = PV_V1_PASSWORD_MEMLIMIT.
Proof.
  intros Ht Hb H. unfold pv_crypto_rewrap_password in H. run_bind H. rename x into salt. run_bind H. rename x into nonce.
  apply randombytes_typed in Heqp as [Hsl Hsb]; [| by vm_compute]. apply randombytes_typed in Heqp0 as [Hnl Hnb]; [| by vm_compute].
  cbv zeta in H. set (slot := mk_pslot _ _ salt nonce _) in H. run_bind H.
  destruct (is_ok x) eqn:Ex; cbn [negb] in H; [| by injection H as -> _ _].
  destruct (password_key slot password) as [st key] eqn:Hk.
  destruct (is_ok st) eqn:Est; cbn [negb] in H; [| by injection H as -> _ _]. apply is_ok_true in Est as ->.
  assert (Hts : header_typed (set_password_slot h slot)).
  { apply set_password_slot_typed; try done. apply (ht_pwrapped h Ht). }
  rewrite password_aad in H by done.
  destruct (wrap_vmk _ nonce key vmk _) as [st w] eqn:Hw. unfold mret, M_ret in H. injection H as -> <- <-.
  apply wrap_ok in Hw as (He & Hwl & Hwb); [| done].
  exists (mk_pslot PV_V1_PASSWORD_OPSLIMIT PV_V1_PASSWORD_MEMLIMIT salt nonce w). split_and!; try done.
  - by apply set_password_slot_typed.
  - exists key. split; [exact Hk | exact He].
Qed.

Lemma rewrap_recovery_ok h recovery_key vmk s h' s' :
  header_typed h -> is_bytes vmk ->
  pv_crypto_rewrap_recovery h recovery_key vmk s = ((PV_OK, h'), s') ->
  exists r, h' = set_recovery_slot h r /\ header_typed h' /\ recovery_opens h' recovery_key vmk.
Proof.
  intros Ht Hb H. unfold pv_crypto_rewrap_recovery in H. run_bind H. rename x into nonce.
  apply randombytes_typed in Heqp as [Hnl Hnb]; [| by vm_compute].
  cbv zeta in H. set (slot := mk_rslot nonce _) in H. run_bind H.
  destruct (is_ok x) eqn:Ex; cbn [negb] in H; [| by injection H as -> _ _].
  destruct (recovery_wrap_key recovery_key) as [st key] eqn:Hk.
  destruct (is_ok st) eqn:Est; cbn [negb] in H; [| by injection H as -> _ _]. apply is_ok_true in Est as ->.
  assert (Hts : header_typed (set_recovery_slot h slot)).
  { apply set_recovery_slot_typed; try done. apply (ht_rwrapped h Ht). }
  rewrite recovery_aad in H by done.
  destruct (wrap_vmk _ nonce key vmk _) as [st w] eqn:Hw. unfold mret, M_ret in H. injection H as -> <- <-.
  apply wrap_ok in Hw as (He & Hwl & Hwb); [| done].
  exists (mk_rslot nonce w). split_and!; try done.
  - by apply set_recovery_slot_typed.
  - exists key. split; [exact Hk | exact He].
Qed.

(** ** Lemmas: the body *)

Lemma land_lnot_4095 n : Z.land (n + 4095) (Z.lnot 4095) = round_up n 4096.
Proof. exact (land_lnot_round n 12 ltac:(lia)). Qed.

Lemma padded_bounds n : 0 < n <= PV_MAX_PLAINTEXT ->
  n <= round_up n 4096 < n + 4096 /\ 4096 <= round_up n 4096 <= PV_MAX_PLAINTEXT /\ (round_up n 4096) mod 4096 = 0.
Proof.
  intros Hn. destruct (round_up_bounds n 4096 ltac:(lia)) as [Hr [k Hk]]. rewrite Hk in *.
  unfold PV_MAX_PLAINTEXT in *. split_and!; try lia. by apply Z.mod_mul.
Qed.

(** The body of a successful encryption. *)
Lemma encrypt_body_ok h vmk plaintext s h' c s' :
  is_bytes plaintext ->
  pv_crypto_encrypt_body h vmk plaintext s = ((PV_OK, h', Some c), s') ->
  0 < zlen plaintext /\ zlen plaintext + 4 <= PV_MAX_PLAINTEXT /\
  exists nonce padding key,
    let n := round_up (zlen plaintext + 4) 4096 in
    h' = set_body h nonce (n + PV_BODY_TAG_BYTES) /\ zlen nonce = 24 /\ is_bytes nonce /\
    zlen padding = n - (zlen plaintext + 4) /\ is_bytes padding /\ body_key vmk = (PV_OK, key) /\
    aead_encrypt (le_put 4 (zlen plaintext) ++ plaintext ++ padding) (serialized_header h') nonce key = Some c.
Proof.
  intros Hb H. unfold pv_crypto_encrypt_body in H. pose proof (zlen_nonneg plaintext). cbv zeta in H.
  destruct (Z.eqb_spec (zlen plaintext) 0); [done |]. unfold pv_size_add in H.
  destruct (SIZE_MAX - zlen plaintext <? 4); [done |]. destruct (Z.ltb_spec PV_MAX_PLAINTEXT (zlen plaintext + 4)); [done |].
  rewrite land_lnot_4095 in H. destruct (padded_bounds (zlen plaintext + 4) ltac:(lia)) as (Hp1 & Hp2 & Hp3).
  set (n0 := round_up (zlen plaintext + 4) 4096) in *. split_if_in H; [done |].
  run_bind H. destruct (is_ok x) eqn:Ex; cbn [negb] in H; [| by injection H as -> _ _].
  destruct (body_key vmk) as [st key] eqn:Hk. destruct (is_ok st) eqn:Est; cbn [negb] in H; [| by injection H as -> _ _].
  apply is_ok_true in Est as ->. do 3 run_bind H. destruct x2; cbn [negb] in H; [| done].
  rewrite bind_run in H. destruct ((if zlen plaintext + 4 <? n0 then randombytes_buf (n0 - (zlen plaintext + 4)) else mret []) s3)
    as [padding s4] eqn:Hpad.
  assert (Hpl : zlen padding = n0 - (zlen plaintext + 4) /\ is_bytes padding).
  { destruct (Z.ltb_spec (zlen plaintext + 4) n0); [apply randombytes_typed in Hpad; [done | lia] |].
    injection Hpad as <- _. rewrite zlen_nil. split; [lia | apply is_bytes_nil]. }
  run_bind H. apply randombytes_typed in Heqp3 as [Hnl Hnb]; [| by vm_compute].
  set (h1 := set_body h x2 (n0 + PV_BODY_TAG_BYTES)) in *.
  destruct (aead_encrypt _ (serialized_header h1) x2 key) as [c'|] eqn:He; [| done]. split_if_in H; [done |].
  unfold mret, M_ret in H. injection H as <- <- <-. split_and!; [lia | lia |].
  exists x2, padding, key. cbv zeta. fold n0. split_and!; try done; try apply Hpl.
  assert (put_u32_le (u32 (zlen plaintext)) = le_put 4 (zlen plaintext)) as Hput.
  { rewrite u32_small by (unfold PV_MAX_PLAINTEXT, UINT32_MAX in *; lia). apply put_u32_put. }
  rewrite <- Hput. exact He.
Qed.

(** Memory can always be had and locked. *)
Definition memory_good (s : sys) : Prop := forall i, s_malloc s i = true /\ s_mlock s i = true.

Lemma malloc_good s : memory_good s -> exists s', sodium_malloc s = (true, s') /\ memory_good s'.
Proof. intros Hs. unfold sodium_malloc. rewrite (proj1 (Hs 0%nat)). eexists. split; [done |]. intros i. split; [apply (Hs (1 + i)%nat) | apply Hs]. Qed.

Lemma mlock_good s : memory_good s -> exists s', sodium_mlock s = (true, s') /\ memory_good s'.
Proof. intros Hs. unfold sodium_mlock. rewrite (proj2 (Hs 0%nat)). eexists. split; [done |]. intros i. split; [apply Hs | apply (Hs (1 + i)%nat)]. Qed.

(** An encryption succeeds when memory can be had and the primitives do not fail. *)
Lemma encrypt_runs h vmk p s : memory_good s ->
  is_Some (crypto_kdf_derive 1 body_kdf_context vmk) -> (forall m a n k, is_Some (aead_encrypt m a n k)) ->
  0 < zlen p -> zlen p + 4 <= PV_MAX_PLAINTEXT -> exists h' c s', pv_crypto_encrypt_body h vmk p s = ((PV_OK, h', Some c), s').
Proof.
  intros H0 [key Hkey] Haead Hpos Hmax. unfold pv_crypto_encrypt_body. cbv zeta. replace (zlen p =? 0) with false by lia. unfold pv_size_add.
  replace (SIZE_MAX - zlen p <? 4) with false by (unfold SIZE_MAX, UINT64_MAX, PV_MAX_PLAINTEXT in *; lia).
  replace (PV_MAX_PLAINTEXT <? zlen p + 4) with false by lia. rewrite land_lnot_4095.
  destruct (padded_bounds (zlen p + 4) ltac:(lia)) as (Hp1 & Hp2 & _). set (n0 := round_up _ _) in *.
  replace ((n0 =? 0) || (PV_MAX_PLAINTEXT <? n0)) with false by lia.
  unfold secure_key_alloc. rewrite !bind_run. destruct (malloc_good s H0) as (s1 & -> & H1). cbn [negb]. rewrite bind_run. destruct (mlock_good s1 H1) as (s2 & -> & H2).
  cbn [negb mret M_ret is_ok]. unfold body_key. rewrite Hkey. cbn [is_ok negb]. rewrite bind_run. destruct (malloc_good s2 H2) as (s3 & -> & H3). rewrite bind_run.
  destruct (malloc_good s3 H3) as (s4' & -> & H4). cbn [andb]. rewrite bind_run. destruct (mlock_good s4' H4) as (s5' & -> & _). cbn [negb].
  rewrite bind_run. match goal with |- context [let '(_, _) := ?m ?t in _] => destruct (m t) as [padding s4] eqn:Epad end.
  assert (zlen padding = n0 - (zlen p + 4)) as Hpad.
  { destruct (Z.ltb_spec (zlen p + 4) n0); [apply randombytes_typed in Epad as [? _]; [done | lia] |]. injection Epad as <- _. rewrite zlen_nil. lia. }
  rewrite bind_run. destruct (randombytes_buf PV_WRAP_NONCE_BYTES s4) as [nonce s5].
  match goal with |- context [aead_encrypt ?m ?a ?n ?k] => destruct (Haead m a n k) as [c Ec] end. rewrite Ec.
  apply aead_len in Ec. rewrite !zlen_app, put_u32_put, zlen_le_put, Hpad in Ec. cbn [h_body_ciphertext_len set_body].
  replace (zlen c =? n0 + PV_BODY_TAG_BYTES) with true by (unfold PV_BODY_TAG_BYTES, PV_WRAP_TAG_BYTES in *; lia). by eexists _, _, _.
Qed.

(** Decryption with the key and header of an authentic body. *)
Lemma decrypt_body_authentic h vmk plaintext padding key c s :
  is_bytes plaintext -> is_bytes padding -> 0 < zlen plaintext ->
  4 + zlen plaintext + zlen padding <= PV_MAX_PLAINTEXT -> (4 + zlen plaintext + zlen padding) mod 4096 = 0 ->
  h_body_ciphertext_len h = zlen c -> body_key vmk = (PV_OK, key) ->
  aead_encrypt (le_put 4 (zlen plaintext) ++ plaintext ++ padding) (serialized_header h) (h_body_nonce h) key = Some c ->
  alloc_ok s -> s_malloc s 1%nat = true -> s_mlock s 1%nat = true ->
  fst (pv_crypto_decrypt_body h vmk c s) = (PV_OK, Some plaintext).
Proof.
  intros Hb Hpb Hpos Hmax Hmod Hlen Hk He [Ha Hl] Ha1 Hl1. set (padded := le_put 4 (zlen plaintext) ++ plaintext ++ padding) in *.
  assert (Hpl : zlen padded = 4 + zlen plaintext + zlen padding) by (unfold padded; rewrite !zlen_app, zlen_le_put; lia).
  pose proof (zlen_nonneg padding). pose proof (aead_len _ _ _ _ _ He) as Hc. rewrite Hpl in Hc. unfold PV_WRAP_TAG_BYTES in Hc.
  unfold pv_crypto_decrypt_body. cbv zeta. rewrite Hlen, Z.eqb_refl. cbn [negb orb]. unfold PV_BODY_TAG_BYTES.
  assert (4096 <= 4 + zlen plaintext + zlen padding) by (pose proof (Z.div_mod (4 + zlen plaintext + zlen padding) 4096); lia).
  replace (zlen c <? 4096 + 16) with false by lia. replace (zlen c - 16) with (4 + zlen plaintext + zlen padding) by lia.
  rewrite Hmod. cbn [Z.eqb negb orb]. rewrite bind_run. unfold secure_key_alloc. rewrite bind_run. unfold sodium_malloc at 1. rewrite Ha.
  cbn [negb]. rewrite bind_run. unfold sodium_mlock at 1. cbn [s_mlock]. rewrite Hl. unfold mret at 1, M_ret at 1. cbn [is_ok negb].
  rewrite Hk, bind_run. unfold sodium_malloc at 1. cbn [s_malloc skip]. unfold skip at 1. cbn [Nat.add]. rewrite Ha1.
  cbn [is_ok andb]. rewrite bind_run. unfold sodium_mlock at 1. cbn [s_mlock]. unfold skip at 1. cbn [Nat.add]. rewrite Hl1. cbn [negb].
  rewrite (aead_correct _ _ _ _ _ He), Hpl.
  replace (4 + zlen plaintext + zlen padding <? 4) with false by lia.
  replace (PV_MAX_PLAINTEXT <? _) with false by lia. rewrite Hmod. cbn [Z.eqb negb orb].
  assert (Hpbytes : is_bytes padded) by (unfold padded; auto with pv).
  assert (Hget : get_u32_le padded = zlen plaintext).
  { rewrite get_u32_get by (auto; unfold zlen in *; lia). unfold padded.
    rewrite take_app_le, firstn_all2 by (rewrite le_put_length; lia). apply le_get_put.
    change (256 ^ Z.of_nat 4) with 4294967296. unfold PV_MAX_PLAINTEXT in *. lia. }
  rewrite Hget. replace (_ <? zlen plaintext) with false by lia. replace (zlen plaintext =? 0) with false by lia. cbn [orb].
  unfold mret, M_ret. cbn [fst]. do 2 f_equal. unfold padded.
  rewrite (zsub_skip _ _ _ _ 4) by (rewrite ?zlen_le_put; lia). by apply zsub_take.
Qed.

(** What a successful decryption proves: the ciphertext is the authentic
    encryption, under this header, of the plaintext returned. *)
Lemma decrypt_body_sound h vmk c s plaintext s' :
  is_bytes c -> pv_crypto_decrypt_body h vmk c s = ((PV_OK, Some plaintext), s') ->
  zlen c = h_body_ciphertext_len h /\ 0 < zlen plaintext <= PV_MAX_PLAINTEXT - 4 /\ is_bytes plaintext /\
  exists key padding, body_key vmk = (PV_OK, key) /\
    aead_encrypt (le_put 4 (zlen plaintext) ++ plaintext ++ padding) (serialized_header h) (h_body_nonce h) key = Some c.
Proof.
  intros Hb H. unfold pv_crypto_decrypt_body in H. cbv zeta in H. split_if_in H; [done |].
  run_bind H. destruct (is_ok x) eqn:Ex; cbn [negb] in H; [| by injection H as -> _ _].
  destruct (body_key vmk) as [st key] eqn:Hk. do 2 run_bind H.
  destruct (is_ok st) eqn:Est; cbn [andb] in Heqp1.
  2: { injection Heqp1 as <- <-. cbn [negb] in H. by injection H as -> _. }
  apply is_ok_true in Est as ->. destruct x1; cbn [negb] in H; [| done].
  destruct (aead_decrypt c (serialized_header h) (h_body_nonce h) key) as [padded|] eqn:He; [| done].
  pose proof (aead_plain_bytes _ _ _ _ _ He Hb) as Hpb. apply aead_unique in He.
  split_if_in H; [done |]. split_if_in H; [done |]. unfold mret, M_ret in H. injection H as <- <-.
  rewrite !orb_false_iff in *. destruct_and!.
  assert (Hl4 : (4 <= length padded)%nat) by (unfold zlen in *; lia). pose proof (get_u32_get padded Hpb Hl4) as Hg.
  assert (Hlen4 : zlen (take 4 padded) = 4) by (unfold zlen; rewrite length_take; lia).
  pose proof (le_get_nonneg (take 4 padded) (is_bytes_take 4 _ Hpb)) as Hr. rewrite Hlen4, <- Hg in Hr.
  set (n := get_u32_le padded) in *. assert (Hzl : zlen (zsub padded 4 n) = n) by (apply zlen_zsub; lia).
  rewrite Hzl. split_and!; [lia | lia | lia | auto with pv |]. exists key, (drop (Z.to_nat (4 + n)) padded). split; [done |].
  rewrite <- He. f_equal. rewrite Hg.
  assert (Hput : le_put 4 (le_get (take 4 padded)) = take 4 padded).
  { replace 4%nat with (length (take 4 padded)) at 1 by (rewrite length_take; lia). apply le_put_get, is_bytes_take, Hpb. }
  rewrite Hput. rewrite <- Hg. fold n. unfold zsub. change (Z.to_nat 4) with 4%nat.
  rewrite Z2Nat.inj_add by lia. change (Z.to_nat 4) with 4%nat. rewrite <- drop_drop, take_drop, take_drop. done.
Qed.

(** ** The life of a header *)

(** Headers a vault with master key [vmk] can have, with its current password
    and recovery key: created, re-wrapped, saved and read back. *)
Inductive lifecycle (vmk : list Z) : pv_file_header -> list Z -> list Z -> Prop :=
| life_create h0 password recovery_key s h s' :
    zlen (h_vault_id h0) = 16 -> is_bytes (h_vault_id h0) ->
    pv_crypto_create_header h0 password recovery_key vmk s = ((PV_OK, h), s') ->
    or_all (h_vault_id h) <> 0 ->
    lifecycle vmk h password recovery_key
| life_password h password recovery_key password' s h' s' :
    lifecycle vmk h password recovery_key ->
    pv_crypto_rewrap_password h password' vmk s = ((PV_OK, h'), s') ->
    lifecycle vmk h' password' recovery_key
| life_recovery h password recovery_key recovery_key' s h' s' :
    lifecycle vmk h password recovery_key ->
    pv_crypto_rewrap_recovery h recovery_key' vmk s = ((PV_OK, h'), s') ->
    lifecycle vmk h' password recovery_key'
| life_save h password recovery_key plaintext s h' c s' :
    lifecycle vmk h password recovery_key -> is_bytes plaintext ->
    pv_crypto_encrypt_body h vmk plaintext s = ((PV_OK, h', Some c), s') ->
    lifecycle vmk h' password recovery_key
| life_reload h password recovery_key h' :
    lifecycle vmk h password recovery_key ->
    pv_header_decode (serialized_header h) = (PV_OK, h') ->
    lifecycle vmk h' password recovery_key.

Lemma header_zero_typed : header_typed header_zero.
Proof. constructor; cbn; try (split; [by vm_compute | apply is_bytes_zeros]); unfold UINT64_MAX; lia. Qed.

Lemma identity_password h p :
  identity_ok h -> header_typed (set_password_slot h p) -> ps_opslimit p = PV_V1_PASSWORD_OPSLIMIT ->
  ps_memlimit p = PV_V1_PASSWORD_MEMLIMIT -> identity_ok (set_password_slot h p).
Proof. intros [] Ht Ho Hm. constructor; cbn; auto; rewrite ?Ho, ?Hm; by vm_compute. Qed.

Lemma identity_recovery h r : identity_ok h -> header_typed (set_recovery_slot h r) -> identity_ok (set_recovery_slot h r).
Proof. intros [] Ht. by constructor. Qed.

Lemma identity_body h n l : identity_ok h -> header_typed (set_body h n l) -> identity_ok (set_body h n l).
Proof. intros [] Ht. by constructor. Qed.

Lemma create_header_ok h0 password recovery_key vmk s h s' :
  zlen (h_vault_id h0) = 16 -> is_bytes (h_vault_id h0) -> is_bytes vmk ->
  pv_crypto_create_header h0 password recovery_key vmk s = ((PV_OK, h), s') -> or_all (h_vault_id h) <> 0 ->
  identity_ok h /\ password_opens h password vmk /\ recovery_opens h recovery_key vmk.
Proof.
  intros Hid Hidb Hb H Hz. unfold pv_crypto_create_header in H. cbv zeta in H. run_bind H. rename x into vid.
  assert (Hv : zlen vid = 16 /\ is_bytes vid).
  { split_if_in Heqp; [by injection Heqp as <- <- | by apply randombytes_typed in Heqp]. }
  set (h1 := mk_header pv_magic _ _ _ _ vid _ _ _ _ _ _ _ _) in *.
  assert (Ht1 : header_typed h1).
  { destruct header_zero_typed. constructor; auto; try by vm_compute. split; [done | repeat constructor; by vm_compute]. }
  run_bind H. destruct x as [st h2]. cbn [fst snd] in H. destruct (is_ok st) eqn:Est; cbn [negb] in H; [| by injection H as -> _ _].
  apply is_ok_true in Est as ->. apply rewrap_password_ok in Heqp0 as (p & -> & Ht2 & Hpo & Ho & Hm); auto.
  apply rewrap_recovery_ok in H as (r & -> & Ht3 & Hro); auto. split_and!; [| exact Hpo | exact Hro].
  constructor; cbn; auto; rewrite ?Ho, ?Hm; by vm_compute.
Qed.

Lemma lifecycle_inv vmk h password recovery_key :
  is_bytes vmk -> lifecycle vmk h password recovery_key ->
  identity_ok h /\ password_opens h password vmk /\ recovery_opens h recovery_key vmk.
Proof.
  intros Hb. induction 1 as [h0 pw rk s h s' Hid Hidb H Hz | h pw rk pw' s h' s' _ IH H | h pw rk rk' s h' s' _ IH H
    | h pw rk pt s h' c s' _ IH Hpt H | h pw rk h' _ IH H].
  - by eapply create_header_ok.
  - destruct IH as (Hi & Hp & Hr). apply rewrap_password_ok in H as (p & -> & Ht & Ho & Hops & Hmem); auto; [| apply Hi].
    split_and!; [by apply identity_password | exact Ho | exact Hr].
  - destruct IH as (Hi & Hp & Hr). apply rewrap_recovery_ok in H as (r & -> & Ht & Ho); auto; [| apply Hi].
    split_and!; [by apply identity_recovery | exact Hp | exact Ho].
  - destruct IH as (Hi & Hp & Hr). apply encrypt_body_ok in H as (Hpos & Hmax & n & pad & key & Heq); auto.
    cbv zeta in Heq. destruct Heq as (-> & Hn & Hnb & _). destruct (padded_bounds (zlen pt + 4) ltac:(lia)) as (? & ? & ?).
    split_and!; [| exact Hp | exact Hr]. apply identity_body; [done |].
    apply set_body_typed; [apply Hi | done |]. unfold PV_MAX_PLAINTEXT, PV_BODY_TAG_BYTES, UINT64_MAX in *. lia.
  - destruct IH as (Hi & Hp & Hr). pose proof (io_typed h Hi) as Ht. rewrite serialized_eq in H by done.
    apply header_decode_ok in H as [-> _]; [| by apply header_len |].
    + by rewrite header_read_bytes.
    + by apply header_bytes_bytes.
Qed.

End operations.

(** ** Properties *)

(** C25: [pv_header_decode] on 252 bytes accepts exactly the encodings of valid
    headers (magic, version 1.0, known algorithms, bounded KDF cost, body length
    a positive multiple of 4096 plus the tag, at most 2 MiB of plaintext, non-zero
    vault identifier) and returns that header; when it refuses, the header is
    cleared. *)
Theorem header_codec_exact (input out : list Z) (Hl : zlen input = PV_FILE_HEADER_LEN) (Hb : is_bytes input)
    (Hout : zlen out = PV_FILE_HEADER_LEN) :
  match pv_header_decode input with
  | (PV_OK, h) => header_valid h /\ pv_header_encode h out = input
  | (_, h) => h = header_zero /\ forall h', header_valid h' -> pv_header_encode h' out <> input
  end.
Proof.
  destruct (pv_header_decode input) as [st h] eqn:E. destruct (decide (st = PV_OK)) as [-> | Hne].
  - apply header_decode_ok in E as [-> Hv]; [| done | done]. split; [done |].
    rewrite header_encode_eq by (auto; apply Hv). by apply header_bytes_read.
  - assert (h = header_zero /\ forall h', header_valid h' -> pv_header_encode h' out <> input); [| by destruct st].
    split; [by eapply header_decode_error |]. intros h' Hv Heq. pose proof (io_typed h' (proj1 Hv)) as Ht.
    rewrite header_encode_eq in Heq by done.
    assert (Hd : pv_header_decode input = (PV_OK, h')).
    { apply header_decode_ok; auto. split; [| done]. by rewrite <- Heq, header_read_bytes. }
    rewrite E in Hd. by injection Hd as -> _.
Qed.

Definition example_vmk : list Z := replicate 32 9.
Definition example_created : (pv_status * pv_file_header) * sys :=
  pv_crypto_create_header header_zero [112; 119] (replicate 32 5) example_vmk example_sys.
Definition example_saved : (pv_status * pv_file_header * option (list Z)) * sys :=
  pv_crypto_encrypt_body (snd (fst example_created)) example_vmk [1; 2; 3] example_sys.
Definition example_header : pv_file_header := snd (fst (fst example_saved)).
Definition example_ciphertext : list Z := default [] (snd (fst example_saved)).

Lemma example_created_run :
  pv_crypto_create_header header_zero [112; 119] (replicate 32 5) example_vmk example_sys =
  ((PV_OK, snd (fst example_created)), snd example_created).
Proof. by vm_compute. Qed.

Lemma example_saved_run :
  pv_crypto_encrypt_body (snd (fst example_created)) example_vmk [1; 2; 3] example_sys =
  ((PV_OK, example_header, Some example_ciphertext), snd example_saved).
Proof.
  destruct (encrypt_runs (snd (fst example_created)) example_vmk [1; 2; 3] example_sys) as (h & c & s & E); [done | by eexists | by eexists | done | done |].
  unfold example_header, example_ciphertext, example_saved. by rewrite E.
Qed.

Lemma example_created_life : lifecycle example_vmk (snd (fst example_created)) [112; 119] (replicate 32 5).
Proof.
  apply (life_create example_vmk header_zero _ _ example_sys _ (snd example_created)).
  - by vm_compute.
  - apply is_bytes_zeros.
  - exact example_created_run.
  - by vm_compute.
Qed.

Lemma example_life : lifecycle example_vmk example_header [112; 119] (replicate 32 5).
Proof.
  apply (life_save example_vmk (snd (fst example_created)) _ _ [1; 2; 3] example_sys _ example_ciphertext (snd example_saved)).
  - exact example_created_life.
  - repeat constructor; by vm_compute.
  - exact example_saved_run.
Qed.

Lemma example_header_typed : header_typed example_header.
Proof. eapply io_typed, (lifecycle_inv example_vmk); [by apply Forall_replicate | exact example_life]. Qed.

Lemma header_codec_exact_witness :
  match pv_header_decode (serialized_header example_header) with
  | (PV_OK, h) => header_valid h /\ pv_header_encode h (zeros 252) = serialized_header example_header
  | (_, h) => h = header_zero /\ forall h', header_valid h' -> pv_header_encode h' (zeros 252) <> serialized_header example_header
  end.
Proof.
  pose proof example_header_typed. apply (header_codec_exact (serialized_header example_header) (zeros 252)); [| | by vm_compute].
  - rewrite serialized_eq by done. by apply header_len.
  - rewrite serialized_eq by done. by apply header_bytes_bytes.
Defined.

(** C17: whatever sequence of password changes, recovery-key changes, saves and
    reloads of its header a vault goes through since its creation, the current
    password unlocks its master key and so does the current recovery key. *)
Theorem keys_survive_lifecycle `{S : Sodium} {Laws : SodiumLaws S}
    (vmk password recovery_key v : list Z) (h : pv_file_header) (s : sys)
    (Hb : is_bytes vmk) (Hl : zlen vmk = PV_WRAP_KEY_BYTES) (H : lifecycle vmk h password recovery_key) (Hs : alloc_ok s) :
  fst (pv_crypto_unlock_password h password v s) = (PV_OK, vmk) /\
  fst (pv_crypto_unlock_recovery h recovery_key v s) = (PV_OK, vmk).
Proof.
  destruct (lifecycle_inv vmk h password recovery_key Hb H) as (Hi & Hp & Hr). split.
  - by apply unlock_password_opens; [apply Hi | ..].
  - by apply unlock_recovery_opens; [apply Hi | ..].
Qed.

Lemma keys_survive_lifecycle_witness :
  fst (pv_crypto_unlock_password example_header [112; 119] [] example_sys) = (PV_OK, example_vmk) /\
  fst (pv_crypto_unlock_recovery example_header (replicate 32 5) [] example_sys) = (PV_OK, example_vmk).
Proof.
  apply (keys_survive_lifecycle example_vmk); [by apply Forall_replicate | by vm_compute | exact example_life | by vm_compute].
Defined.

(** An encrypted body under the header that goes with it. *)
Lemma encrypted_body_opens `{S : Sodium} {Laws : SodiumLaws S}
    (vmk password recovery_key plaintext c : list Z) (h h' : pv_file_header) (s1 s1' s2 : sys)
    (Hb : is_bytes vmk) (Hp : is_bytes plaintext) (H : lifecycle vmk h password recovery_key)
    (He : pv_crypto_encrypt_body h vmk plaintext s1 = ((PV_OK, h', Some c), s1'))
    (Hs : alloc_ok s2) (Hm : s_malloc s2 1%nat = true) (Hk : s_mlock s2 1%nat = true) :
  pv_header_decode (serialized_header h') = (PV_OK, h') /\
  zlen c = h_body_ciphertext_len h' /\
  fst (pv_crypto_decrypt_body h' vmk c s2) = (PV_OK, Some plaintext).
Proof.
  assert (Hi : identity_ok h') by exact (proj1 (lifecycle_inv _ _ _ _ Hb (life_save _ _ _ _ _ _ _ _ _ H Hp He))).
  apply encrypt_body_ok in He as (Hpos & Hmax & n & pad & key & Heq); [| done]. cbv zeta in Heq.
  destruct Heq as (-> & Hnl & Hnb & Hpl & Hpb & Hkey & Henc).
  destruct (padded_bounds (zlen plaintext + 4) ltac:(lia)) as (Hr1 & Hr2 & Hr3).
  pose proof (aead_len _ _ _ _ _ Henc) as Hc. rewrite !zlen_app, zlen_le_put, Hpl in Hc.
  set (r := round_up _ _) in *. unfold PV_WRAP_TAG_BYTES in Hc. split_and!.
  - pose proof (io_typed _ Hi) as Ht. rewrite serialized_eq by done. apply header_decode_ok; [by apply header_len | by apply header_bytes_bytes |].
    rewrite header_read_bytes by done. split; [done | split; [done |]].
    cbn [h_body_ciphertext_len set_body]. unfold body_len_ok, PV_BODY_TAG_BYTES. split; [lia |].
    by replace (r + 16 - 16) with r by lia.
  - cbn [h_body_ciphertext_len set_body]. unfold PV_BODY_TAG_BYTES. lia.
  - apply (decrypt_body_authentic _ vmk plaintext pad key); auto; cbn [h_body_ciphertext_len h_body_nonce set_body];
      unfold PV_BODY_TAG_BYTES; try lia.
    + by replace (4 + zlen plaintext + zlen pad) with r by lia.
Qed.

(** A saved body reopens: after [pv_crypto_encrypt_body] succeeds on a header
    of the vault, the header written to disk parses back to the same header, and
    decrypting the ciphertext under it returns the plaintext, whatever the
    random padding and nonce were. *)
Theorem body_roundtrip `{S : Sodium} {Laws : SodiumLaws S}
    (vmk password recovery_key plaintext c : list Z) (h h' : pv_file_header) (s1 s1' s2 : sys)
    (Hb : is_bytes vmk) (Hp : is_bytes plaintext) (H : lifecycle vmk h password recovery_key)
    (He : pv_crypto_encrypt_body h vmk plaintext s1 = ((PV_OK, h', Some c), s1'))
    (Hs : alloc_ok s2) (Hm : s_malloc s2 1%nat = true) (Hk : s_mlock s2 1%nat = true) :
  pv_header_decode (serialized_header h') = (PV_OK, h') /\
  zlen c = h_body_ciphertext_len h' /\
  fst (pv_crypto_decrypt_body h' vmk c s2) = (PV_OK, Some plaintext).
Proof. by eapply encrypted_body_opens. Qed.

Lemma body_roundtrip_witness :
  pv_header_decode (serialized_header example_header) = (PV_OK, example_header) /\
  zlen example_ciphertext = h_body_ciphertext_len example_header /\
  fst (pv_crypto_decrypt_body example_header example_vmk example_ciphertext example_sys) = (PV_OK, Some [1; 2; 3]).
Proof.
  apply (body_roundtrip example_vmk [112; 119] (replicate 32 5) [1; 2; 3] example_ciphertext
           (snd (fst example_created)) example_header example_sys (snd example_saved) example_sys).
  - by apply Forall_replicate.
  - repeat constructor; by vm_compute.
  - exact example_created_life.
  - exact example_saved_run.
  - by vm_compute.
  - reflexivity.
  - reflexivity.
Defined.

(** A body that [pv_crypto_decrypt_body] accepts is authentic: the ciphertext
    is the encryption, under the body key of this master key, with this very
    header as associated data, of the length-prefixed plaintext returned. A body
    moved under another header or altered is never accepted. *)
Theorem body_authentic `{S : Sodium} {Laws : SodiumLaws S}
    (h : pv_file_header) (vmk c plaintext : list Z) (s s' : sys) (Hb : is_bytes c)
    (H : pv_crypto_decrypt_body h vmk c s = ((PV_OK, Some plaintext), s')) :
  zlen c = h_body_ciphertext_len h /\ 0 < zlen plaintext <= PV_MAX_PLAINTEXT - 4 /\ is_bytes plaintext /\
  exists key padding, body_key vmk = (PV_OK, key) /\
    aead_encrypt (le_put 4 (zlen plaintext) ++ plaintext ++ padding) (serialized_header h) (h_body_nonce h) key = Some c.
Proof. by eapply decrypt_body_sound. Qed.

Lemma example_ciphertext_bytes : is_bytes example_ciphertext.
Proof.
  pose proof example_saved_run as E. apply encrypt_body_ok in E as (_ & _ & n & pad & key & _ & _ & _ & _ & Hpad & _ & E); [| repeat constructor; by vm_compute].
  apply aead_bytes in E; [done |]. apply is_bytes_app_2; [apply le_put_bytes |]. apply is_bytes_app_2; [repeat constructor; by vm_compute | done].
Qed.

Lemma example_opened_run :
  pv_crypto_decrypt_body example_header example_vmk example_ciphertext example_sys =
  ((PV_OK, Some [1; 2; 3]), snd (pv_crypto_decrypt_body example_header example_vmk example_ciphertext example_sys)).
Proof.
  destruct (encrypted_body_opens example_vmk [112; 119] (replicate 32 5) [1; 2; 3] example_ciphertext (snd (fst example_created)) example_header example_sys (snd example_saved) example_sys)
    as (_ & _ & E); [by apply Forall_replicate | repeat constructor; by vm_compute | exact example_created_life | exact example_saved_run | done | done | done |].
  destruct (pv_crypto_decrypt_body _ _ _ _) as [r s]. cbn [fst snd] in *. by rewrite E.
Qed.

Lemma example_unlocked_run :
  pv_crypto_unlock_password example_header [112; 119] [] example_sys =
  ((PV_OK, example_vmk), snd (pv_crypto_unlock_password example_header [112; 119] [] example_sys)).
Proof.
  destruct (lifecycle_inv example_vmk example_header [112; 119] (replicate 32 5)) as (_ & Hp & _); [by apply Forall_replicate | exact example_life |].
  pose proof (unlock_password_opens example_header [112; 119] example_vmk [] example_sys example_header_typed ltac:(done) ltac:(done) Hp) as E.
  destruct (pv_crypto_unlock_password _ _ _ _) as [r s]. cbn [fst snd] in *. by rewrite E.
Qed.

Lemma body_authentic_witness :
  zlen example_ciphertext = h_body_ciphertext_len example_header /\ 0 < zlen [1; 2; 3] <= PV_MAX_PLAINTEXT - 4 /\
  is_bytes [1; 2; 3] /\
  exists key padding, body_key example_vmk = (PV_OK, key) /\
    aead_encrypt (le_put 4 (zlen [1; 2; 3]) ++ [1; 2; 3] ++ padding) (serialized_header example_header)
      (h_body_nonce example_header) key = Some example_ciphertext.
Proof.
  apply (body_authentic example_header example_vmk example_ciphertext [1; 2; 3] example_sys
           (snd (pv_crypto_decrypt_body example_header example_vmk example_ciphertext example_sys))).
  - exact example_ciphertext_bytes.
  - exact example_opened_run.
Defined.

(** When [pv_crypto_unlock_password] succeeds, the key it returns is the one
    wrapped in the password slot under the key derived from this password and
    the slot's own cost parameters and salt, with the identity and KDF parts of
    the header authenticated; hence two keys unlocked by one password are equal. *)
Theorem unlock_password_authentic `{S : Sodium} {Laws : SodiumLaws S}
    (h : pv_file_header) (password v vmk : list Z) (s s' : sys) (Ht : header_typed h)
    (H : pv_crypto_unlock_password h password v s = ((PV_OK, vmk), s')) :
  zlen vmk = PV_WRAP_KEY_BYTES /\ password_opens h password vmk /\
  forall v2 s2 vmk2 s2', pv_crypto_unlock_password h password v2 s2 = ((PV_OK, vmk2), s2') -> vmk2 = vmk.
Proof.
  apply unlock_password_sound in H as [Hp Hl]; [| done]. split_and!; [done | done |].
  intros v2 s2 vmk2 s2' H2. apply unlock_password_sound in H2 as [Hp2 _]; [| done].
  destruct Hp as (k & Hk & He), Hp2 as (k2 & Hk2 & He2). rewrite Hk in Hk2. injection Hk2 as <-.
  apply aead_correct in He, He2. rewrite He in He2. by injection He2.
Qed.

Lemma unlock_password_authentic_witness :
  zlen example_vmk = PV_WRAP_KEY_BYTES /\ password_opens example_header [112; 119] example_vmk /\
  forall v2 s2 vmk2 s2', pv_crypto_unlock_password example_header [112; 119] v2 s2 = ((PV_OK, vmk2), s2') -> vmk2 = example_vmk.
Proof.
  apply (unlock_password_authentic example_header [112; 119] [] example_vmk example_sys
           (snd (pv_crypto_unlock_password example_header [112; 119] [] example_sys))).
  - exact example_header_typed.
  - exact example_unlocked_run.
Defined.
