(* ===== verification/Posix.v ===== *)
(** * Files as the program sees them

    The kernel is not code of the program. What it answers to a system call is
    an input of the model: the [stat] it reports, whether [open], [fsync] or
    [close] fail, and, for [read] and [write], a schedule of interruptions,
    errors and short transfers. A schedule is a finite list of events, one per
    call; once it is used up every call transfers all it can. Theorems hold for
    every schedule. *)

From Stdlib Require Ascii String.
From S2P Require Import Prelude Status Util.
Export String.StringSyntax.

(** The fields of [struct stat] the program reads. *)
Record stat := mk_stat {
  st_dev : Z;
  st_ino : Z;
  st_mode : Z;
  st_uid : Z;
  st_nlink : Z;
  st_size : Z;
  st_mtim : Z * Z;
  st_ctim : Z * Z
}.

(** [S_ISREG], [S_ISDIR]: the file type in [st_mode & 0170000]. *)
Definition S_ISREG (mode : Z) : bool := Z.land mode 61440 =? 32768.
Definition S_ISDIR (mode : Z) : bool := Z.land mode 61440 =? 16384.

(** [mode & 07777], the access bits, and the masks [0077] and [0022]. *)
Definition access_bits (mode : Z) : Z := Z.land mode 4095.
Definition group_other_bits (mode : Z) : Z := Z.land mode 63.
Definition foreign_write_bits (mode : Z) : Z := Z.land mode 18.

(** One answer of the kernel to [read] or [write]. *)
Inductive io_event :=
| E_intr          (** fails with [EINTR] *)
| E_err           (** fails with another error *)
| E_zero          (** transfers nothing *)
| E_upto (k : nat). (** transfers at most [k + 1] bytes *)

Inductive io_result :=
| Interrupted
| Failed
| Transferred (bytes : list Z).

(** An open file being read: the bytes not read yet and the schedule. *)
Record reader_fd := mk_rfd { r_data : list Z; r_sched : list io_event }.

Definition read (fd : reader_fd) (n : Z) : io_result * reader_fd :=
  match r_sched fd with
  | [] => (Transferred (zsub (r_data fd) 0 n), mk_rfd (drop (Z.to_nat n) (r_data fd)) [])
  | E_intr :: s => (Interrupted, mk_rfd (r_data fd) s)
  | E_err :: s => (Failed, mk_rfd (r_data fd) s)
  | E_zero :: s => (Transferred [], mk_rfd (r_data fd) s)
  | E_upto k :: s =>
      let m := Z.min n (Z.of_nat k + 1) in
      (Transferred (zsub (r_data fd) 0 m), mk_rfd (drop (Z.to_nat m) (r_data fd)) s)
  end.

(** The loop that fills a buffer of [max] bytes until the end of the file,
    restarting interrupted calls: the status, the bytes and the descriptor. Each
    turn is one call; [None] when there is not [fuel] for all of them. *)
Fixpoint fill_loop (max : Z) (fuel : nat) (fd : reader_fd) (content : list Z) : option (pv_status * list Z * reader_fd) :=
  match fuel with
  | O => None
  | S fuel =>
      if zlen content <? max then
        match read fd (max - zlen content) with
        | (Interrupted, fd) => fill_loop max fuel fd content
        | (Failed, fd) => Some (PV_ERR_IO, content, fd)
        | (Transferred [], fd) => Some (PV_OK, content, fd)
        | (Transferred bytes, fd) => fill_loop max fuel fd (content ++ bytes)
        end
      else Some (PV_OK, content, fd)
  end.

(** An open file being written: the bytes it holds and the schedule. *)
Record writer_fd := mk_wfd { w_data : list Z; w_sched : list io_event }.

Definition write (fd : writer_fd) (data : list Z) : io_result * writer_fd :=
  let put m s := (Transferred (zsub data 0 m), mk_wfd (w_data fd ++ zsub data 0 m) s) in
  match w_sched fd with
  | [] => put (zlen data) []
  | E_intr :: s => (Interrupted, mk_wfd (w_data fd) s)
  | E_err :: s => (Failed, mk_wfd (w_data fd) s)
  | E_zero :: s => put 0 s
  | E_upto k :: s => put (Z.min (zlen data) (Z.of_nat k + 1)) s
  end.

(** The answers to the calls on a directory opened by path. *)
Record dir_io := mk_dir_io {
  d_open : bool;
  d_stat : option stat;
  d_fsync : bool;
  d_close : bool
}.

(** ** Characters ([<ctype.h>] in the C locale, [<strings.h>]) *)

Definition isspace (c : Z) : bool := ((9 <=? c) && (c <=? 13)) || (c =? 32).
Definition toupper (c : Z) : Z := if (97 <=? c) && (c <=? 122) then c - 32 else c.
Definition tolower (c : Z) : Z := if (65 <=? c) && (c <=? 90) then c + 32 else c.

(** [strncasecmp(s, t, n) == 0] for [n] no longer than the C string [t]. *)
Definition strncasecmp_eq (s t : list Z) (n : Z) : bool :=
  bytes_eqb (map tolower (zsub s 0 n)) (map tolower (zsub t 0 n)).

(** The characters of a C string: bytes other than NUL. *)
Definition is_char (c : Z) : Prop := 0 < c < 256.
Definition is_cstr (s : list Z) : Prop := Forall is_char s.

(** The characters of a string literal. *)
Definition cstr (s : String.string) : list Z :=
  map (fun a => Z.of_N (Ascii.N_of_ascii a)) (String.list_ascii_of_string s).
Arguments cstr s%_string_scope.

(** The index of the first [c] in [l] ([strchr], [memchr]). *)
Fixpoint find_char (l : list Z) (c : Z) : option Z :=
  match l with
  | [] => None
  | x :: l' => if x =? c then Some 0 else option_map (Z.add 1) (find_char l' c)
  end.

(** ** Printed numbers *)

Fixpoint decimal_loop (fuel : nat) (n : Z) (acc : list Z) : list Z :=
  match fuel with
  | O => acc
  | S fuel => let acc := (48 + n mod 10) :: acc in if n <? 10 then acc else decimal_loop fuel (n / 10) acc
  end.

(** The decimal digits of [n]; twenty are enough for a 64-bit number. *)
Definition decimal (n : Z) : list Z := decimal_loop 20 n [].

(** ** Lemmas *)

Lemma find_char_Some l c i : find_char l c = Some i ->
  0 <= i < zlen l /\ znth l i = c /\ Forall (fun x => x <> c) (take (Z.to_nat i) l).
Proof.
  revert i. induction l as [| x l IH]; intros i H; simpl in H; [done |].
  rewrite zlen_cons. pose proof (zlen_nonneg l). destruct (Z.eqb_spec x c) as [-> | Hne].
  - injection H as <-. split_and!; try lia; [done | constructor].
  - destruct (find_char l c) as [j |] eqn:E; [| done]. injection H as <-. destruct (IH j eq_refl) as (Hj & Hn & Ht).
    unfold znth in *. replace (Z.to_nat (1 + j)) with (S (Z.to_nat j)) by lia. split_and!; try lia; [done |].
    by constructor.
Qed.

Lemma find_char_None l c : find_char l c = None <-> Forall (fun x => x <> c) l.
Proof.
  induction l as [| x l IH]; simpl; [split; [constructor | done] |].
  rewrite Forall_cons_iff. destruct (Z.eqb_spec x c) as [-> | Hne]; [split; [done | by intros []] |].
  rewrite <- IH. destruct (find_char l c); simpl; split; try done. by intros [].
Qed.

Lemma find_char_app_r l k c : Forall (fun x => x <> c) l ->
  find_char (l ++ c :: k) c = Some (zlen l).
Proof.
  induction 1 as [| x l Hx _ IH]; simpl; [by rewrite Z.eqb_refl |].
  destruct (Z.eqb_spec x c); [done |]. rewrite IH, zlen_cons. done.
Qed.

Lemma is_cstr_bytes s : is_cstr s -> is_bytes s.
Proof. apply Forall_impl. unfold is_char, is_byte. lia. Qed.

(** ** Lemmas: schedules *)

(** No call fails or transfers nothing: only interruptions and short transfers. *)
Definition benign (sched : list io_event) : Prop := Forall (fun e => e <> E_err /\ e <> E_zero) sched.

(** The outcome of the loop: it ends within the limit; without failures it stops
    when the buffer is full or the file at its end, and loses nothing. *)
Definition filled (max : Z) (fd : reader_fd) (content : list Z) (r : option (pv_status * list Z * reader_fd)) : Prop :=
  exists st content' fd', r = Some (st, content', fd') /\ zlen content' <= max /\ (st = PV_OK \/ st = PV_ERR_IO) /\
    (benign (r_sched fd) -> st = PV_OK /\ content' ++ r_data fd' = content ++ r_data fd /\
       (zlen content' = max \/ r_data fd' = []) /\ benign (r_sched fd')).

Lemma filled_skip max e s data content r :
  filled max (mk_rfd data s) content r -> filled max (mk_rfd data (e :: s)) content r.
Proof.
  intros (st & c' & fd' & -> & Hl & Hst & Hb). exists st, c', fd'. split_and!; auto. cbn [r_sched r_data] in *.
  intros Hn. apply Forall_cons_iff in Hn as [_ Hn]. by apply Hb.
Qed.

(** A transfer of at most [m] bytes followed by a good rest of the loop. *)
Lemma filled_transfer max m data s content fuel :
  0 < m <= max - zlen content ->
  (drop (Z.to_nat m) data <> [] \/ zsub data 0 m <> [] ->
   filled max (mk_rfd (drop (Z.to_nat m) data) s) (content ++ zsub data 0 m)
     (fill_loop max fuel (mk_rfd (drop (Z.to_nat m) data) s) (content ++ zsub data 0 m))) ->
  filled max (mk_rfd data s) content
    (match zsub data 0 m with
     | [] => Some (PV_OK, content, mk_rfd (drop (Z.to_nat m) data) s)
     | _ :: _ => fill_loop max fuel (mk_rfd (drop (Z.to_nat m) data) s) (content ++ zsub data 0 m)
     end).
Proof.
  intros Hm H. destruct (zsub data 0 m) as [| b bytes] eqn:E.
  - assert (data = []) as ->.
    { rewrite zsub_0 in E. destruct data; [done |]. by replace (Z.to_nat m) with (S (Z.to_nat (m - 1))) in E by lia. }
    exists PV_OK, content, (mk_rfd [] s). rewrite drop_nil. split_and!; [done | lia | by left |]. eauto.
  - rewrite <- E in *. destruct H as (st & c' & fd' & -> & Hl & Hst & Hb); [right; by rewrite E |].
    exists st, c', fd'. split_and!; auto. cbn [r_sched r_data] in *. intros Hn. destruct (Hb Hn) as (-> & Heq & Hend & Hs).
    split_and!; auto. by rewrite Heq, <- app_assoc, zsub_0, take_drop.
Qed.

Lemma fill_loop_end max fuel data content :
  zlen content = max \/ data = [] -> zlen content <= max -> filled max (mk_rfd data []) content (fill_loop max (S fuel) (mk_rfd data []) content).
Proof.
  intros Hend Hl. cbn [fill_loop]. destruct (Z.ltb_spec (zlen content) max).
  - destruct Hend as [? | ->]; [lia |]. unfold read. cbn [r_sched r_data]. rewrite zsub_0, take_nil, drop_nil.
    exists PV_OK, content, (mk_rfd [] []). split_and!; [done | lia | by left |]. eauto.
  - exists PV_OK, content, (mk_rfd data []). split_and!; [done | lia | by left |]. intros. split_and!; auto.
Qed.

Lemma fill_loop_spec max fuel fd content :
  zlen content <= max -> (length (r_sched fd) + 2 <= fuel)%nat -> filled max fd content (fill_loop max fuel fd content).
Proof.
  revert fuel content. destruct fd as [data s]. revert data. cbn [r_sched].
  induction s as [| e s IH]; intros data fuel content Hc Hf; cbn [length] in Hf; destruct fuel as [| fuel]; try lia; cbn [fill_loop];
    (destruct (Z.ltb_spec (zlen content) max) as [Hlt | Hge];
     [| eexists PV_OK, content, _; split_and!; [reflexivity | lia | by left |]; intros; split_and!; auto; left; lia]).
  - apply filled_transfer; [lia |]. intros _. cbn [r_data]. destruct fuel as [| fuel]; [lia |]. apply fill_loop_end.
    + destruct (decide (max - zlen content <= zlen data)); [left; rewrite zlen_app, zlen_zsub; lia | right].
      apply drop_ge. unfold zlen in *. lia.
    + rewrite zlen_app. unfold zlen, zsub in *. rewrite length_take, length_drop. lia.
  - unfold read. cbn [r_sched r_data]. destruct e as [| | | k]; cbv zeta.
    + apply filled_skip, IH; [done | lia].
    + eexists PV_ERR_IO, content, _. split_and!; [reflexivity | lia | by right |]. intros Hn. apply Forall_cons_iff in Hn as [[? _] _]. done.
    + eexists PV_OK, content, _. split_and!; [reflexivity | lia | by left |]. intros Hn. apply Forall_cons_iff in Hn as [[_ ?] _]. done.
    + apply filled_skip, filled_transfer; [lia |]. intros _. apply IH; [| lia].
      rewrite zlen_app. unfold zlen, zsub in *. rewrite length_take, length_drop. lia.
Qed.

(** From an empty buffer: what is read is the file, up to the limit. *)
Lemma fill_file_spec max fd : 0 <= max ->
  exists st content fd', fill_loop max (2 + length (r_sched fd)) fd [] = Some (st, content, fd') /\ zlen content <= max /\
    (st = PV_OK \/ st = PV_ERR_IO) /\
    (benign (r_sched fd) -> st = PV_OK /\ content = zsub (r_data fd) 0 max /\
       (zlen content = max \/ r_data fd' = []) /\ content ++ r_data fd' = r_data fd /\ benign (r_sched fd')).
Proof.
  intros Hm. destruct (fill_loop_spec max (2 + length (r_sched fd)) fd []) as (st & c & fd' & H & Hl & Hst & Hb); [done | lia |].
  exists st, c, fd'. split_and!; auto. intros Hn. destruct (Hb Hn) as (-> & Heq & Hend & Hs). rewrite app_nil_l in Heq.
  split_and!; auto. rewrite <- Heq. destruct Hend as [Hend | Hend].
  - rewrite <- Hend. rewrite zsub_app_l, zsub_all; [done | lia | lia | lia].
  - rewrite Hend, app_nil_r, zsub_0. symmetry. apply firstn_all2. unfold zlen in *. lia.
Qed.
