(* ===== verification/Recovery.v ===== *)
(** * Recovery keys

    [src/recovery.c]: the printable form of a recovery key (Crockford base 32
    with a checksum bound to the vault), and the file that holds it. Characters
    are classified as in the C locale. *)

From S2P Require Import Prelude Status Util Sys Posix.

Definition crockford_alphabet : list Z := cstr "0123456789ABCDEFGHJKMNPQRSTVWXYZ".

Definition PV_RECOVERY_FILE_MAX : Z := 1024.

(** Whether the block was obtained. *)
Definition recovery_secure_alloc : M bool :=
  ok ← sodium_malloc;
  if negb ok then mret false else sodium_mlock.

(** ** Base 32 *)

(** One iteration of the encoding loop: the input left, the buffer, the number
    of pending bits and the character written; [None] when [cap] is reached. *)
Definition base32_step (input : list Z) (buffer bits out_pos cap : Z) : option (list Z * Z * Z * Z) :=
  let '(input, buffer, bits) :=
    match input with
    | b :: input' =>
        if bits <? 5 then (input', Z.lor (u32 (Z.shiftl buffer 8)) b, bits + 8) else (input, buffer, bits)
    | [] => (input, buffer, bits)
    end in
  let '(buffer, bits) := if bits <? 5 then (u32 (Z.shiftl buffer (5 - bits)), 5) else (buffer, bits) in
  if cap <=? out_pos + 1 then None else
  let bits := bits - 5 in
  let c := znth crockford_alphabet (Z.land (Z.shiftr buffer bits) 31) in
  let buffer := if bits =? 0 then 0 else Z.land buffer (Z.shiftl 1 bits - 1) in
  Some (input, buffer, bits, c).

Fixpoint base32_encode_loop (fuel : nat) (input : list Z) (buffer bits cap : Z) (output : list Z) : list Z :=
  match fuel with
  | O => []
  | S fuel =>
      if (0 <? zlen input) || (0 <? bits) then
        match base32_step input buffer bits (zlen output) cap with
        | None => []
        | Some (input, buffer, bits, c) => base32_encode_loop fuel input buffer bits cap (output ++ [c])
        end
      else output
  end.

(** The characters written, none when the function returns [0]. Each iteration
    writes a character, and a byte gives at most two. *)
Definition base32_encode (input : list Z) (cap : Z) : list Z :=
  base32_encode_loop (S (2 * length input)) input 0 0 cap [].

(** [strchr] also finds the terminating NUL. *)
Definition crockford_value (c : Z) : Z :=
  let upper := toupper c in
  if upper =? 79 then 0
  else if (upper =? 73) || (upper =? 76) then 1
  else default (-1) (find_char (crockford_alphabet ++ [0]) upper).

Fixpoint base32_decode_loop (input : list Z) (buffer bits output_len : Z) (output : list Z) : option (list Z) :=
  match input with
  | [] => if (zlen output =? output_len) && ((bits =? 0) || (buffer =? 0)) then Some output else None
  | c :: input =>
      let value := crockford_value c in
      if value <? 0 then None else
      let buffer := Z.lor (u32 (Z.shiftl buffer 5)) value in
      let bits := bits + 5 in
      if 8 <=? bits then
        let bits := bits - 8 in
        if output_len <=? zlen output then None else
        let output := output ++ [u8 (Z.shiftr buffer bits)] in
        let buffer := if bits =? 0 then 0 else Z.land buffer (Z.shiftl 1 bits - 1) in
        base32_decode_loop input buffer bits output_len output
      else base32_decode_loop input buffer bits output_len output
  end.

(** The bytes decoded, [None] when the function returns [false]. *)
Definition base32_decode (input : list Z) (output_len : Z) : option (list Z) :=
  base32_decode_loop input 0 0 output_len [].

(** ** The printable key *)

(** The loop that groups the characters by five. *)
Fixpoint group_loop (raw : list Z) (i : Z) : list Z :=
  match raw with
  | [] => []
  | c :: raw => (if (0 <? i) && (i mod 5 =? 0) then [45; c] else [c]) ++ group_loop raw (i + 1)
  end.

(** The loop of [pv_recovery_decode] that drops separators: the characters kept,
    [None] when there are 80 or more. *)
Fixpoint normalize_loop (cursor normalized : list Z) : option (list Z) :=
  match cursor with
  | [] => Some normalized
  | c :: cursor =>
      if negb (c =? 45) && negb (isspace c) then
        if 80 <=? zlen normalized + 1 then None
        else normalize_loop cursor (normalized ++ [toupper c])
      else normalize_loop cursor normalized
  end.

Fixpoint skip_spaces (cursor : list Z) : list Z :=
  match cursor with
  | c :: cursor' => if isspace c then skip_spaces cursor' else cursor
  | [] => []
  end.

Section keys.
Context `{S : Sodium}.

(** The status and, when it is [PV_OK], the checksum. *)
Definition recovery_checksum (vault_id key : list Z) : M (pv_status * list Z) :=
  workspace ← recovery_secure_alloc;
  if negb workspace then mret (PV_ERR_SECURE_MEMORY, []) else
  mret match crypto_generichash (vault_id ++ key) with
       | None => (PV_ERR_STATE, [])
       | Some digest => (PV_OK, zsub digest 0 PV_RECOVERY_CHECKSUM_BYTES)
       end.

(** The status and the string left in [encoded], [None] when it is not touched. *)
Definition pv_recovery_encode (vault_id key : list Z) (encoded_len : Z) : M (pv_status * option (list Z)) :=
  if encoded_len <? 16 then mret (PV_ERR_USAGE, None) else
  material_ok ← recovery_secure_alloc;
  raw_ok ← recovery_secure_alloc;
  if negb material_ok || negb raw_ok then mret (PV_ERR_SECURE_MEMORY, Some []) else
  checksum ← recovery_checksum vault_id key;
  if negb (is_ok (fst checksum)) then mret (fst checksum, Some []) else
  let raw := base32_encode (key ++ snd checksum) 80 in
  let raw_len := zlen raw in
  if raw_len =? 0 then mret (PV_ERR_LIMIT, Some []) else
  if encoded_len <=? 5 + raw_len + raw_len / 5 then mret (PV_ERR_LIMIT, Some []) else
  mret (PV_OK, Some (cstr "PV1R-" ++ group_loop raw 0)).

(** The status, the key drawn and the string left in [encoded]. *)
Definition pv_recovery_generate (vault_id : list Z) (encoded_len : Z)
  : M (pv_status * list Z * option (list Z)) :=
  key ← randombytes_buf PV_RECOVERY_KEY_BYTES;
  r ← pv_recovery_encode vault_id key encoded_len;
  mret (fst r, key, snd r).

(** The status and the contents of [key] afterwards. *)
Definition pv_recovery_decode (encoded vault_id : list Z) : M (pv_status * list Z) :=
  let key := zeros PV_RECOVERY_KEY_BYTES in
  let cursor := skip_spaces encoded in
  if negb (strncasecmp_eq cursor (cstr "PV1R") 4) then mret (PV_ERR_AUTH, key) else
  normalized_ok ← recovery_secure_alloc;
  material_ok ← recovery_secure_alloc;
  if negb normalized_ok || negb material_ok then mret (PV_ERR_SECURE_MEMORY, key) else
  match normalize_loop (drop 4 cursor) [] with
  | None => mret (PV_ERR_AUTH, key)
  | Some normalized =>
      match base32_decode normalized (PV_RECOVERY_KEY_BYTES + PV_RECOVERY_CHECKSUM_BYTES) with
      | None => mret (PV_ERR_AUTH, key)
      | Some material =>
          let found := zsub material 0 PV_RECOVERY_KEY_BYTES in
          expected ← recovery_checksum vault_id found;
          if negb (is_ok (fst expected)) ||
             negb (bytes_eqb (snd expected) (zsub material PV_RECOVERY_KEY_BYTES PV_RECOVERY_CHECKSUM_BYTES))
          then mret (PV_ERR_AUTH, key)
          else mret (PV_OK, found)
      end
  end.

End keys.

(** ** The recovery file *)

Fixpoint write_all_loop (fuel : nat) (fd : writer_fd) (data : list Z) : option (pv_status * writer_fd) :=
  match fuel with
  | O => None
  | S fuel =>
      if zlen data =? 0 then Some (PV_OK, fd) else
      match write fd data with
      | (Interrupted, fd) => write_all_loop fuel fd data
      | (Failed, fd) => Some (PV_ERR_IO, fd)
      | (Transferred bytes, fd) =>
          if zlen bytes <=? 0 then Some (PV_ERR_IO, fd)
          else write_all_loop fuel fd (drop (length bytes) data)
      end
  end.

(** Every call uses up an event of the schedule, and two calls are enough after
    its end. *)
Definition write_all (fd : writer_fd) (data : list Z) : option (pv_status * writer_fd) :=
  write_all_loop (2 + length (w_sched fd)) fd data.

(** The path is handed to the kernel by way of [dirname]; [io] is its answer. *)
Definition fsync_parent_path (euid : Z) (path : list Z) (io : dir_io) : pv_status :=
  if PATH_MAX <=? zlen path then PV_ERR_LIMIT else
  let bad_stat :=
    match d_stat io with
    | None => true
    | Some info =>
        negb (S_ISDIR (st_mode info)) || negb (st_uid info =? euid) || negb (foreign_write_bits (st_mode info) =? 0)
    end in
  let status := if negb (d_open io) || bad_stat || negb (d_fsync io) then PV_ERR_IO else PV_OK in
  if d_open io && negb (d_close io) && is_ok status then PV_ERR_IO else status.

(** The answers to the system calls of [pv_recovery_write_file]. *)
Record write_file_io := mk_write_file_io {
  wf_parent_before : dir_io;
  wf_open : bool;             (** [open] does not fail for another reason than [EEXIST] *)
  wf_sched : list io_event;
  wf_fsync : bool;
  wf_close : bool;
  wf_parent_after : dir_io;
  wf_unlink : bool
}.

Definition recovery_file_content (id_hex encoded : list Z) : list Z :=
  cstr "PVault recovery key v1" ++ [10] ++ cstr "Vault: " ++ id_hex ++ [10; 10] ++ encoded ++ [10; 10] ++
  cstr "Keep this file offline and separate from the vault." ++ [10].

(** [file] is the file at [path], before and after the call. *)
Definition pv_recovery_write_file (euid : Z) (io : write_file_io) (path encoded vault_id : list Z)
    (file : option (list Z)) : M (option (pv_status * option (list Z))) :=
  let unlinked (content : list Z) : option (list Z) := if wf_unlink io then None else Some content in
  let status := fsync_parent_path euid path (wf_parent_before io) in
  if negb (is_ok status) then mret (Some (status, file)) else
  content_ok ← recovery_secure_alloc;
  if negb content_ok then mret (Some (PV_ERR_SECURE_MEMORY, file)) else
  if negb (wf_open io) then mret (Some (PV_ERR_IO, file)) else
  match file with
  | Some _ => mret (Some (PV_ERR_EXISTS, file))
  | None =>
      let id_hex := default [] (pv_hex_encode (Some vault_id) (PV_VAULT_ID_BYTES * 2 + 1)) in
      let content := recovery_file_content id_hex encoded in
      if 512 <=? zlen content then mret (Some (PV_ERR_LIMIT, unlinked [])) else
      mret match write_all (mk_wfd [] (wf_sched io)) content with
           | None => None
           | Some (status, fd) =>
               let status := if is_ok status && negb (wf_fsync io) then PV_ERR_IO else status in
               let status := if negb (wf_close io) && is_ok status then PV_ERR_IO else status in
               let status := if is_ok status then fsync_parent_path euid path (wf_parent_after io) else status in
               Some (status, if is_ok status then Some (w_data fd) else unlinked (w_data fd))
           end
  end.

(** The answers to the system calls of [pv_recovery_read_file]. *)
Record read_file_io := mk_read_file_io {
  rf_open : bool;
  rf_stat : option stat;
  rf_fd : reader_fd;
  rf_close : bool
}.

(** The position of the end of the line. *)
Definition line_of (rest : list Z) : list Z :=
  match find_char rest 10 with
  | None => rest
  | Some n => zsub rest 0 n
  end.

Definition strip_cr (line : list Z) : list Z :=
  if (0 <? zlen line) && (znth line (zlen line - 1) =? 13) then zsub line 0 (zlen line - 1) else line.

(** The loop over the lines: the status and the key found. *)
Fixpoint find_key_loop (fuel : nat) (rest : list Z) (encoded_len : Z) : pv_status * list Z :=
  match fuel with
  | O => (PV_ERR_FORMAT, [])
  | S fuel =>
      if zlen rest <=? 0 then (PV_ERR_FORMAT, []) else
      let whole := line_of rest in
      let line := strip_cr whole in
      if (4 <=? zlen line) && strncasecmp_eq line (cstr "PV1R") 4 then
        if encoded_len <=? zlen line then (PV_ERR_LIMIT, []) else (PV_OK, line)
      else find_key_loop fuel (drop (length whole + 1) rest) encoded_len
  end.

(** The status and the string left in [encoded], [None] when it is not touched. *)
Definition pv_recovery_read_file (euid : Z) (io : read_file_io) (encoded_len : Z)
  : M (option (pv_status * option (list Z))) :=
  if encoded_len =? 0 then mret (Some (PV_ERR_USAGE, None)) else
  content_ok ← recovery_secure_alloc;
  if negb content_ok then mret (Some (PV_ERR_SECURE_MEMORY, Some [])) else
  if negb (rf_open io) then mret (Some (PV_ERR_IO, Some [])) else
  let bad_stat :=
    match rf_stat io with
    | None => true
    | Some info =>
        negb (S_ISREG (st_mode info)) || negb (st_uid info =? euid) || negb (st_nlink info =? 1) ||
        negb (group_other_bits (st_mode info) =? 0)
    end in
  if bad_stat then mret (Some (PV_ERR_IO, Some [])) else
  mret match fill_loop (PV_RECOVERY_FILE_MAX + 1) (2 + length (r_sched (rf_fd io))) (rf_fd io) [] with
       | None => None
       | Some (status, content, _) =>
           if negb (is_ok status) then Some (status, Some []) else
           if PV_RECOVERY_FILE_MAX <? zlen content then Some (PV_ERR_LIMIT, Some []) else
           let '(status, encoded) := find_key_loop (S (length content)) content encoded_len in
           Some (if negb (rf_close io) && is_ok status then PV_ERR_IO else status, Some encoded)
       end.
