(* ===== verification/RecoveryFacts.v ===== *)
(** * Lemmas on recovery keys

    Base 32 is specified on bit strings: the digits of an encoding spell the
    bits of the bytes, most significant first, then fewer than five zero bits. *)

From S2P Require Import Prelude Status Util Sys Posix Recovery.

(** ** Bits of integers, most significant first *)

Fixpoint to_bits (n : nat) (v : Z) : list bool :=
  match n with
  | O => []
  | S n => Z.testbit v (Z.of_nat n) :: to_bits n v
  end.

Definition bits_of (l : list Z) : list bool := concat (map (to_bits 8) l).
Definition digit_bits (l : list Z) : list bool := concat (map (to_bits 5) l).

Lemma to_bits_length n v : length (to_bits n v) = n.
Proof. induction n; simpl; auto. Qed.

Lemma to_bits_ext n v w :
  (forall i, 0 <= i < Z.of_nat n -> Z.testbit v i = Z.testbit w i) -> to_bits n v = to_bits n w.
Proof. induction n as [| n IH]; intros H; [done |]. simpl. rewrite H, IH; [done | intros; apply H; lia | lia]. Qed.

Lemma to_bits_inv n v w i :
  to_bits n v = to_bits n w -> 0 <= i < Z.of_nat n -> Z.testbit v i = Z.testbit w i.
Proof.
  induction n as [| n IH]; intros H Hi; [lia |]. simpl in H. injection H as H1 H2.
  destruct (decide (i = Z.of_nat n)) as [-> | Hne]; [done | apply IH; [done | lia]].
Qed.

Lemma testbit_above v n i : 0 <= v < 2 ^ n -> n <= i -> 0 <= n -> Z.testbit v i = false.
Proof. intros Hv Hi Hn. rewrite <- (Z.mod_small v (2 ^ n)) by done. apply Z.mod_pow2_bits_high. lia. Qed.

Lemma to_bits_inj n v w :
  0 <= v < 2 ^ Z.of_nat n -> 0 <= w < 2 ^ Z.of_nat n -> to_bits n v = to_bits n w -> v = w.
Proof.
  intros Hv Hw H. apply Z.bits_inj'. intros i Hi. destruct (decide (i < Z.of_nat n)).
  - apply (to_bits_inv n); [done | lia].
  - rewrite !(testbit_above _ (Z.of_nat n)) by lia. done.
Qed.

Lemma to_bits_app a b v : to_bits (a + b) v = to_bits a (Z.shiftr v (Z.of_nat b)) ++ to_bits b v.
Proof.
  induction a as [| a IH]; [done |]. simpl. rewrite IH, Z.shiftr_spec by lia. do 2 f_equal. lia.
Qed.

Lemma to_bits_0 n : to_bits n 0 = replicate n false.
Proof. induction n as [| n IH]; simpl; [done |]. by rewrite Z.bits_0, IH. Qed.

Lemma to_bits_mask n v : to_bits n (Z.land v (Z.shiftl 1 (Z.of_nat n) - 1)) = to_bits n v.
Proof.
  apply to_bits_ext. intros i Hi. rewrite Z.shiftl_1_l, Z.sub_1_r, <- Z.ones_equiv, Z.land_ones by lia.
  apply Z.mod_pow2_bits_low. lia.
Qed.

(** Appending the low bits [d] to [v]. *)
Lemma to_bits_push n k v d :
  0 <= d < 2 ^ Z.of_nat k -> to_bits (n + k) (Z.lor (Z.shiftl v (Z.of_nat k)) d) = to_bits n v ++ to_bits k d.
Proof.
  intros Hd. rewrite to_bits_app. f_equal.
  - apply to_bits_ext. intros i Hi. rewrite Z.shiftr_spec, Z.lor_spec, Z.shiftl_spec by lia.
    rewrite (testbit_above d (Z.of_nat k)) by lia. rewrite orb_false_r. f_equal. lia.
  - apply to_bits_ext. intros i Hi. rewrite Z.lor_spec, Z.shiftl_spec by lia. by rewrite Z.testbit_neg_r by lia.
Qed.

Lemma push_bound n k v d :
  0 <= n -> 0 <= k -> 0 <= v < 2 ^ n -> 0 <= d < 2 ^ k -> 0 <= Z.lor (Z.shiftl v k) d < 2 ^ (n + k).
Proof.
  intros Hn Hk Hv Hd. rewrite shiftl_lor_add by lia. rewrite Z.pow_add_r by lia.
  assert (v * 2 ^ k <= (2 ^ n - 1) * 2 ^ k) by (apply Z.mul_le_mono_nonneg_r; lia). lia.
Qed.

Lemma shiftr_bound v a b : 0 <= a -> 0 <= b -> 0 <= v < 2 ^ (a + b) -> 0 <= Z.shiftr v b < 2 ^ a.
Proof.
  intros Ha Hb Hv. rewrite Z.shiftr_div_pow2 by lia. rewrite Z.pow_add_r in Hv by lia.
  split; [apply Z.div_pos; lia | apply Z.div_lt_upper_bound; lia].
Qed.

Lemma mask_bound v n : 0 <= n -> 0 <= Z.land v (Z.shiftl 1 n - 1) < 2 ^ n.
Proof.
  intros Hn. rewrite Z.shiftl_1_l, Z.sub_1_r, <- Z.ones_equiv, Z.land_ones by lia.
  apply Z.mod_pos_bound. lia.
Qed.

(** ** Bits of byte strings *)

Lemma bits_of_length l : length (bits_of l) = (8 * length l)%nat.
Proof. unfold bits_of. induction l as [| b l IH]; [done |]. cbn [map concat length]. rewrite length_app, IH, to_bits_length. lia. Qed.

Lemma digit_bits_length l : length (digit_bits l) = (5 * length l)%nat.
Proof. unfold digit_bits. induction l as [| b l IH]; [done |]. cbn [map concat length]. rewrite length_app, IH, to_bits_length. lia. Qed.

Lemma bits_of_snoc l b : bits_of (l ++ [b]) = bits_of l ++ to_bits 8 b.
Proof. unfold bits_of. rewrite map_app, concat_app. simpl. done. Qed.

Definition is_digit (d : Z) : Prop := 0 <= d < 32.

Lemma concat_bits_inj n (l k : list Z) :
  Forall (fun v => 0 <= v < 2 ^ Z.of_nat n) l -> Forall (fun v => 0 <= v < 2 ^ Z.of_nat n) k ->
  length l = length k -> concat (map (to_bits n) l) = concat (map (to_bits n) k) -> l = k.
Proof.
  intros Hl. revert k. induction Hl as [| v l Hv _ IH]; intros k Hk Hlen Heq; destruct k as [| w k]; try done.
  apply Forall_cons_iff in Hk as [Hw Hk]. simpl in Heq. apply app_inj_1 in Heq as [H1 H2]; [| by rewrite !to_bits_length].
  f_equal; [by eapply to_bits_inj | apply IH; auto].
Qed.

Lemma bits_of_inj l k : is_bytes l -> is_bytes k -> length l = length k -> bits_of l = bits_of k -> l = k.
Proof. apply (concat_bits_inj 8). Qed.

Lemma digit_bits_inj l k :
  Forall is_digit l -> Forall is_digit k -> length l = length k -> digit_bits l = digit_bits k -> l = k.
Proof. apply (concat_bits_inj 5). Qed.

(** ** The encoder *)

(** What the buffer becomes after its top bits are taken. *)
Definition buffer_rest (buffer bits : Z) : Z := if bits =? 0 then 0 else Z.land buffer (Z.shiftl 1 bits - 1).

Lemma buffer_rest_bits n v : to_bits n (buffer_rest v (Z.of_nat n)) = to_bits n v.
Proof.
  unfold buffer_rest. destruct (Z.eqb_spec (Z.of_nat n) 0); [by replace n with 0%nat by lia |]. apply to_bits_mask.
Qed.

Lemma buffer_rest_bound v n : 0 <= n -> 0 <= buffer_rest v n < 2 ^ n.
Proof.
  intros Hn. unfold buffer_rest. destruct (Z.eqb_spec n 0) as [-> |]; [simpl; lia |]. by apply mask_bound.
Qed.

(** Taking the five top bits of the buffer. *)
Lemma take_digit n B (Hn : (5 <= n)%nat) (HB : 0 <= B < 2 ^ Z.of_nat n) :
  let bits := Z.of_nat n - 5 in
  let d := Z.land (Z.shiftr B bits) 31 in
  is_digit d /\ to_bits n B = to_bits 5 d ++ to_bits (n - 5) (buffer_rest B bits).
Proof.
  cbv zeta. replace (Z.of_nat n - 5) with (Z.of_nat (n - 5)) by lia.
  pose proof (shiftr_bound B 5 (Z.of_nat (n - 5))) as Hs.
  replace (5 + Z.of_nat (n - 5)) with (Z.of_nat n) in Hs by lia. specialize (Hs ltac:(lia) ltac:(lia) HB).
  assert (Hd : Z.land (Z.shiftr B (Z.of_nat (n - 5))) 31 = Z.shiftr B (Z.of_nat (n - 5))).
  { change 31 with (Z.ones 5). rewrite Z.land_ones by lia. by apply Z.mod_small. }
  rewrite Hd. split; [exact Hs |]. rewrite buffer_rest_bits.
  replace (to_bits n B) with (to_bits (5 + (n - 5)) B) by (f_equal; lia). apply to_bits_app.
Qed.

Lemma u32_shiftl v n k : 0 <= n -> 0 <= k -> n + k <= 32 -> 0 <= v < 2 ^ n -> u32 (Z.shiftl v k) = Z.shiftl v k.
Proof.
  intros Hn Hk Hnk Hv. apply u32_small. rewrite Z.shiftl_mul_pow2 by lia. unfold UINT32_MAX.
  assert (v * 2 ^ k < 2 ^ n * 2 ^ k) by (apply Z.mul_lt_mono_pos_r; lia). rewrite <- Z.pow_add_r in * by lia.
  pose proof (Z.pow_le_mono_r 2 (n + k) 32 ltac:(lia) Hnk). change (2 ^ 32) with 4294967296 in *. lia.
Qed.

(** The state of the loop: [n] pending bits in the buffer. *)
Definition pending (n : nat) (buffer : Z) : Prop := (n <= 7)%nat /\ 0 <= buffer < 2 ^ Z.of_nat n.

Lemma base32_step_spec input n buffer out_pos cap :
  is_bytes input -> pending n buffer -> out_pos + 1 < cap ->
  exists input' n' buffer' d k,
    base32_step input buffer (Z.of_nat n) out_pos cap =
      Some (input', buffer', Z.of_nat n', znth crockford_alphabet d) /\
    is_bytes input' /\ pending n' buffer' /\ is_digit d /\ (k <= 5)%nat /\
    (k = 5 <-> n = 0 /\ input = [])%nat /\ (k = 0 \/ (n' = 0 /\ input' = []))%nat /\
    to_bits 5 d ++ to_bits n' buffer' ++ bits_of input' = to_bits n buffer ++ bits_of input ++ replicate k false.
Proof.
  intros Hb [Hn HB] Hcap. unfold base32_step. destruct (Z.ltb_spec (Z.of_nat n) 5) as [Hlt | Hge].
  - destruct input as [| b input].
    + replace (Z.of_nat n <? 5) with true by lia. replace (cap <=? out_pos + 1) with false by lia.
      rewrite (u32_shiftl buffer (Z.of_nat n)) by lia.
      assert (HB5 : 0 <= Z.shiftl buffer (5 - Z.of_nat n) < 2 ^ Z.of_nat 5).
      { pose proof (push_bound (Z.of_nat n) (5 - Z.of_nat n) buffer 0) as H. rewrite Z.lor_0_r in H.
        replace (Z.of_nat n + (5 - Z.of_nat n)) with 5 in H by lia. apply H; lia. }
      destruct (take_digit 5 _ ltac:(lia) HB5) as [Hd Ht]. cbv zeta in Hd, Ht. change (Z.of_nat 5 - 5) with 0 in Hd, Ht.
      eexists [], 0%nat, 0, _, (5 - n)%nat. split; [reflexivity |]. refine (conj _ (conj _ (conj Hd (conj _ (conj _ (conj _ _)))))); [constructor | split; simpl; lia | lia | | by right |].
      { split; [intros; split; [lia | done] | intros []; lia]. }
      change (to_bits 0 0) with (@nil bool). cbn [app]. rewrite app_nil_r.
      change (to_bits (5 - 5) _) with (@nil bool) in Ht. rewrite app_nil_r in Ht. change (5 - 5) with 0. rewrite <- Ht.
      replace (to_bits 5 (Z.shiftl buffer (5 - Z.of_nat n)))
        with (to_bits (n + (5 - n)) (Z.lor (Z.shiftl buffer (Z.of_nat (5 - n))) 0)).
      { rewrite to_bits_push by lia. by rewrite to_bits_0. }
      rewrite Z.lor_0_r. f_equal; [lia | f_equal; lia].
    + inv Hb. rename H1 into Hb1. rename H2 into Hb2. replace (Z.of_nat n + 8 <? 5) with false by lia.
      replace (cap <=? out_pos + 1) with false by lia. rewrite (u32_shiftl buffer (Z.of_nat n)) by lia.
      assert (HB8 : 0 <= Z.lor (Z.shiftl buffer 8) b < 2 ^ Z.of_nat (n + 8)).
      { replace (Z.of_nat (n + 8)) with (Z.of_nat n + 8) by lia. apply push_bound; auto; lia. }
      destruct (take_digit (n + 8) _ ltac:(lia) HB8) as [Hd Ht]. cbv zeta in Hd, Ht.
      replace (Z.of_nat (n + 8) - 5) with (Z.of_nat (n + 3)) in Hd, Ht by lia.
      replace (Z.of_nat n + 8 - 5) with (Z.of_nat (n + 3)) by lia.
      eexists input, (n + 3)%nat, _, _, 0%nat. split; [reflexivity |].
      refine (conj _ (conj _ (conj Hd (conj _ (conj _ (conj _ _)))))); [done | split; [lia | apply buffer_rest_bound; lia] | lia | | by left |].
      { split; [lia | by intros []]. }
      replace (n + 8 - 5)%nat with (n + 3)%nat in Ht by lia. fold (buffer_rest (Z.lor (Z.shiftl buffer 8) b) (Z.of_nat (n + 3))).
      pose proof (to_bits_push n 8 buffer b Hb1) as Hp. change (Z.of_nat 8) with 8 in Hp. rewrite app_assoc, <- Ht, Hp.
      cbn [replicate]. rewrite app_nil_r, <- app_assoc. done.
  - replace (match input with [] => (input, buffer, Z.of_nat n) | _ :: _ => (input, buffer, Z.of_nat n) end)
      with (input, buffer, Z.of_nat n) by (by destruct input).
    replace (Z.of_nat n <? 5) with false by lia. replace (cap <=? out_pos + 1) with false by lia.
    destruct (take_digit n _ ltac:(lia) HB) as [Hd Ht]. cbv zeta in Hd, Ht.
    replace (Z.of_nat n - 5) with (Z.of_nat (n - 5)) in * by lia.
    eexists input, (n - 5)%nat, _, _, 0%nat. split; [reflexivity |].
    refine (conj _ (conj _ (conj Hd (conj _ (conj _ (conj _ _)))))); [done | split; [lia | apply buffer_rest_bound; lia] | lia | | by left |].
    { split; [lia | intros []; lia]. }
    fold (buffer_rest buffer (Z.of_nat (n - 5))). rewrite app_assoc, <- Ht. cbn [replicate]. by rewrite app_nil_r.
Qed.

Lemma bits_of_nil_inv l : bits_of l = [] -> l = [].
Proof. intros H. apply (f_equal length) in H. rewrite bits_of_length in H. destruct l; [done | simpl in H; lia]. Qed.

Lemma encode_loop_spec fuel input n buffer cap output :
  is_bytes input -> pending n buffer ->
  Z.of_nat n + 8 * zlen input <= 5 * (Z.of_nat fuel - 1) ->
  Z.of_nat n + 8 * zlen input <= 5 * (cap - 1 - zlen output) ->
  exists ds k,
    base32_encode_loop fuel input buffer (Z.of_nat n) cap output = output ++ map (znth crockford_alphabet) ds /\
    Forall is_digit ds /\ (k < 5)%nat /\
    digit_bits ds = to_bits n buffer ++ bits_of input ++ replicate k false.
Proof.
  revert input n buffer output. induction fuel as [| fuel IH]; intros input n buffer output Hb Hp Hf Hc; [zlia |].
  cbn [base32_encode_loop]. destruct ((0 <? zlen input) || (0 <? Z.of_nat n)) eqn:E.
  - destruct (base32_step_spec input n buffer (zlen output) cap Hb Hp ltac:(zlia))
      as (input' & n' & buffer' & d & k & -> & Hb' & Hp' & Hd & Hk5 & Hk & Hk0 & Heq).
    assert (k <> 5)%nat by (intros ->; destruct Hk as [Hk _]; destruct (Hk eq_refl) as [-> ->]; done).
    assert (Htot : Z.of_nat n' + 8 * zlen input' = Z.of_nat n + 8 * zlen input + Z.of_nat k - 5).
    { apply (f_equal length) in Heq. rewrite !length_app, !bits_of_length, !to_bits_length, length_replicate in Heq. unfold zlen. lia. }
    assert (Hle : Z.of_nat n' + 8 * zlen input' <= 5 * (Z.of_nat fuel - 1) /\
                  Z.of_nat n' + 8 * zlen input' <= 5 * (cap - 1 - zlen (output ++ [znth crockford_alphabet d]))).
    { rewrite zlen_app, zlen_cons, zlen_nil. destruct Hk0 as [-> | [-> ->]]; [lia |]. change (zlen (@nil Z)) with 0. zlia. }
    destruct (IH input' n' buffer' (output ++ [znth crockford_alphabet d]) Hb' Hp' (proj1 Hle) (proj2 Hle))
      as (ds & k' & -> & Hds & Hk' & Hbits).
    exists (d :: ds), (k + k')%nat. split; [by rewrite <- app_assoc |]. split; [by constructor |].
    assert (Hall : digit_bits (d :: ds) = to_bits n buffer ++ bits_of input ++ replicate (k + k') false).
    { unfold digit_bits in *. cbn [map concat]. rewrite Hbits, replicate_add.
      rewrite !app_assoc, <- (app_assoc (to_bits 5 d)), <- !app_assoc, (app_assoc (to_bits n' buffer')), app_assoc, Heq.
      by rewrite <- !app_assoc. }
    split; [| exact Hall]. destruct Hk0 as [-> | [-> ->]]; [lia |]. cbn [bits_of map concat app to_bits] in Hbits.
    apply (f_equal length) in Hbits. rewrite digit_bits_length, length_replicate in Hbits. lia.
  - assert (zlen input = 0 /\ n = 0%nat) as [Hl ->] by zlia. destruct input; [| zlia].
    exists [], 0%nat. rewrite app_nil_r. split_and!; [done | constructor | lia | done].
Qed.

(** The encoding of a byte string that fits. *)
Lemma base32_encode_spec input cap :
  is_bytes input -> 8 * zlen input <= 5 * (cap - 1) ->
  exists ds k, base32_encode input cap = map (znth crockford_alphabet) ds /\
    Forall is_digit ds /\ (k < 5)%nat /\ digit_bits ds = bits_of input ++ replicate k false.
Proof.
  intros Hb Hc. destruct (encode_loop_spec (S (2 * length input)) input 0 0 cap []) as (ds & k & H); auto.
  - split; simpl; lia.
  - unfold zlen. lia.
  - change (zlen (@nil Z)) with 0. lia.
  - by exists ds, k.
Qed.

(** ** The decoder *)

Lemma crockford_value_digit c : is_char c -> crockford_value c = -1 \/ is_digit (crockford_value c).
Proof.
  intros Hc.
  assert (H : forallb (fun c => (c =? 0) || (crockford_value c =? -1) ||
    ((0 <=? crockford_value c) && (crockford_value c <? 32))) (seqZ 0 256) = true) by by vm_compute.
  pose proof (byte_forall _ H c) as Hb. unfold is_char, is_byte, is_digit in *. specialize (Hb ltac:(lia)).
  rewrite !orb_true_iff in Hb. lia.
Qed.

Lemma crockford_value_alphabet d : is_digit d -> crockford_value (znth crockford_alphabet d) = d.
Proof.
  intros Hd. assert (H : forallb (fun d => (32 <=? d) || (crockford_value (znth crockford_alphabet d) =? d)) (seqZ 0 256) = true) by by vm_compute.
  pose proof (byte_forall _ H d) as Hb. unfold is_digit, is_byte in *. specialize (Hb ltac:(lia)).
  rewrite orb_true_iff in Hb. lia.
Qed.

Lemma base32_decode_loop_iff input n buffer output_len output m :
  is_cstr input -> pending n buffer -> is_bytes output ->
  base32_decode_loop input buffer (Z.of_nat n) output_len output = Some m <->
  Forall is_digit (map crockford_value input) /\ is_bytes m /\ zlen m = output_len /\
  exists k, (k < 8)%nat /\
    bits_of output ++ to_bits n buffer ++ digit_bits (map crockford_value input) = bits_of m ++ replicate k false.
Proof.
  intros Hs. revert n buffer output. induction Hs as [| c input Hc Hs IH]; intros n buffer output [Hn HB] Ho; cbn [base32_decode_loop map].
  - unfold digit_bits. cbn [map concat]. rewrite app_nil_r. split.
    + intros H. split_if_in H; [| done]. injection H as <-. rewrite andb_true_iff, orb_true_iff in *.
      split_and!; [constructor | done | lia |]. exists n. split; [lia |]. f_equal.
      destruct Heqb as [_ [H0 | H0]]; [by replace n with 0%nat by lia |]. by replace buffer with 0 by lia; rewrite to_bits_0.
    + intros (_ & Hm & Hl & k & Hk & Heq). pose proof (f_equal length Heq) as Hlen.
      rewrite !length_app, !bits_of_length, to_bits_length, length_replicate in Hlen.
      apply app_inj_1 in Heq as [H1 H2]; [| rewrite !bits_of_length; lia].
      apply bits_of_inj in H1; [subst m | done | done | lia]. assert (k = n) as -> by lia.
      rewrite <- to_bits_0 in H2. apply to_bits_inj in H2; [| done | lia]. subst buffer. replace (zlen output =? output_len) with true by lia.
      by rewrite orb_true_r.
  - destruct (crockford_value_digit c Hc) as [Hv | Hv].
    + rewrite Hv. simpl. split; [done |]. intros (H & _). inv H. unfold is_digit in *. lia.
    + set (d := crockford_value c) in *. replace (d <? 0) with false by (unfold is_digit in *; lia).
      rewrite (u32_shiftl buffer (Z.of_nat n)) by lia. set (B := Z.lor (Z.shiftl buffer 5) d).
      assert (HB5 : 0 <= B < 2 ^ Z.of_nat (n + 5)).
      { replace (Z.of_nat (n + 5)) with (Z.of_nat n + 5) by lia. apply push_bound; auto; lia. }
      pose proof (to_bits_push n 5 buffer d Hv) as Hpush. change (Z.of_nat 5) with 5 in Hpush. fold B in Hpush.
      assert (Hsplit : forall X, bits_of output ++ to_bits n buffer ++ digit_bits (d :: X) =
                       bits_of output ++ to_bits (n + 5) B ++ digit_bits X).
      { intros X. rewrite Hpush. unfold digit_bits. cbn [map concat]. by rewrite <- !app_assoc. }
      rewrite Hsplit. rewrite Forall_cons_iff. destruct (Z.leb_spec 8 (Z.of_nat n + 5)).
      * destruct (Z.leb_spec output_len (zlen output)).
        { split; [done |]. intros (_ & Hm & Hl & k & Hk & Heq). apply (f_equal length) in Heq.
          rewrite !length_app, !bits_of_length, to_bits_length, length_replicate in Heq. unfold zlen in *. lia. }
        replace (Z.of_nat n + 5 - 8) with (Z.of_nat (n - 3)) by lia. fold (buffer_rest B (Z.of_nat (n - 3))).
        pose proof (shiftr_bound B 8 (Z.of_nat (n - 3)) ltac:(lia) ltac:(lia)) as Hsb.
        replace (8 + Z.of_nat (n - 3)) with (Z.of_nat (n + 5)) in Hsb by lia. specialize (Hsb HB5).
        rewrite u8_small by exact Hsb. rewrite IH; [| split; [lia | apply buffer_rest_bound; lia] |].
        2: { apply is_bytes_app_2; [done |]. apply is_bytes_cons; [exact Hsb | apply is_bytes_nil]. }
        assert (Hb8 : to_bits (n + 5) B = to_bits 8 (Z.shiftr B (Z.of_nat (n - 3))) ++ to_bits (n - 3) B).
        { replace (n + 5)%nat with (8 + (n - 3))%nat by lia. apply to_bits_app. }
        rewrite bits_of_snoc, buffer_rest_bits, Hb8, <- !app_assoc. intuition.
      * replace (Z.of_nat n + 5) with (Z.of_nat (n + 5)) by lia. rewrite IH; [| split; [lia | done] | done]. intuition.
Qed.

Lemma base32_decode_iff input output_len m :
  is_cstr input ->
  base32_decode input output_len = Some m <->
  Forall is_digit (map crockford_value input) /\ is_bytes m /\ zlen m = output_len /\
  exists k, (k < 8)%nat /\ digit_bits (map crockford_value input) = bits_of m ++ replicate k false.
Proof.
  intros Hs. apply (base32_decode_loop_iff input 0 0 output_len []); [done | split; simpl; lia | apply is_bytes_nil].
Qed.
