(* ===== verification/RecoveryProps.v ===== *)
(** * Properties of recovery keys

    A printed recovery key is read back, however it is retyped; the decoder
    accepts exactly the texts that spell a key with its checksum for this vault;
    and the recovery file is written whole or not at all, and read back. *)

From S2P Require Import Prelude Status Util Sys ReferenceSodium Arena Posix Recovery RecoveryFacts.

(** ** The text a user may type *)

Definition separator (c : Z) : bool := (c =? 45) || isspace c.

(** The characters of a key: what follows the prefix, separators dropped. *)
Definition recovery_payload (encoded : list Z) : option (list Z) :=
  let cursor := skip_spaces encoded in
  if strncasecmp_eq cursor (cstr "PV1R") 4
  then Some (List.filter (fun c => negb (separator c)) (drop 4 cursor)) else None.

(** The digits a text spells, whatever its case, grouping and spacing. *)
Definition recovery_digits (encoded : list Z) : option (list Z) :=
  map crockford_value <$> recovery_payload encoded.

(** ** Lemmas: allocation *)

Definition allocs_ok (n : nat) (s : sys) : Prop :=
  forall i, (i < n)%nat -> s_malloc s i = true /\ s_mlock s i = true.

Lemma secure_alloc_ok n s : allocs_ok (S n) s ->
  exists s', recovery_secure_alloc s = (true, s') /\ allocs_ok n s'.
Proof.
  intros H. destruct (H 0%nat ltac:(lia)) as [H1 H2]. unfold recovery_secure_alloc. rewrite bind_run.
  unfold sodium_malloc. rewrite H1. cbn [negb]. unfold sodium_mlock. cbn [s_mlock]. rewrite H2.
  eexists. split; [done |]. intros i Hi. cbn [s_malloc s_mlock]. apply (H (S i)). lia.
Qed.

(** ** Lemmas: the text *)

Lemma toupper_value c : is_char c -> crockford_value (toupper c) = crockford_value c.
Proof.
  intros Hc. assert (H : forallb (fun c => crockford_value (toupper c) =? crockford_value c) (seqZ 0 256) = true) by by vm_compute.
  pose proof (byte_forall _ H c) as Hb. unfold is_char, is_byte in *. specialize (Hb ltac:(lia)). lia.
Qed.

Lemma toupper_char c : is_char c -> is_char (toupper c).
Proof. unfold is_char, toupper. intros. split_if; lia. Qed.

Lemma toupper_values l : is_cstr l -> map crockford_value (map toupper l) = map crockford_value l.
Proof. induction 1 as [| c l Hc _ IH]; [done |]. cbn [map]. by rewrite toupper_value, IH. Qed.

Lemma toupper_cstr l : is_cstr l -> is_cstr (map toupper l).
Proof. induction 1; simpl; constructor; auto using toupper_char. Qed.

Lemma filter_cstr f l : is_cstr l -> is_cstr (List.filter f l).
Proof. induction 1; simpl; [constructor |]. split_if; [by constructor | done]. Qed.

Lemma skip_spaces_cstr l : is_cstr l -> is_cstr (skip_spaces l).
Proof. induction 1 as [| c l Hc Hl IH]; simpl; [constructor |]. split_if; [done | by constructor]. Qed.

Lemma normalize_loop_eq cursor acc : zlen acc <= 79 ->
  let kept := List.filter (fun c => negb (separator c)) cursor in
  normalize_loop cursor acc = if zlen acc + zlen kept <=? 79 then Some (acc ++ map toupper kept) else None.
Proof.
  cbv zeta. revert acc. induction cursor as [| c cursor IH]; intros acc Hacc; cbn [normalize_loop List.filter].
  - change (zlen (@nil Z)) with 0. replace (zlen acc + 0 <=? 79) with true by lia. by rewrite app_nil_r.
  - replace (negb (separator c)) with (negb (c =? 45) && negb (isspace c)) by (unfold separator; by rewrite negb_orb). destruct (negb (c =? 45) && negb (isspace c)); [| by apply IH].
    rewrite zlen_cons. set (kept := List.filter _ cursor) in *. pose proof (zlen_nonneg kept).
    destruct (Z.leb_spec 80 (zlen acc + 1)); [by replace (zlen acc + (1 + zlen kept) <=? 79) with false by lia |].
    rewrite IH by (rewrite zlen_app, zlen_cons; change (zlen (@nil Z)) with 0; lia).
    rewrite zlen_app, zlen_cons. change (zlen (@nil Z)) with 0.
    replace (zlen acc + (1 + 0) + zlen kept) with (zlen acc + (1 + zlen kept)) by lia. cbn [map]. by rewrite <- app_assoc.
Qed.

(** The alphabet has no separators and the grouping only adds separators. *)
Lemma alphabet_char d : is_digit d ->
  is_char (znth crockford_alphabet d) /\ separator (znth crockford_alphabet d) = false.
Proof.
  intros Hd. assert (H : forallb (fun d => (32 <=? d) || ((0 <? znth crockford_alphabet d) && (znth crockford_alphabet d <? 256)
    && negb (separator (znth crockford_alphabet d)))) (seqZ 0 256) = true) by by vm_compute.
  pose proof (byte_forall _ H d) as Hb. unfold is_digit, is_byte, is_char in *. specialize (Hb ltac:(lia)).
  rewrite orb_true_iff, !andb_true_iff, negb_true_iff in Hb. destruct Hb as [? | [[? ?] ?]]; [lia | split; [lia | done]].
Qed.

Lemma group_loop_filter raw i : Forall (fun c => separator c = false) raw ->
  List.filter (fun c => negb (separator c)) (group_loop raw i) = raw.
Proof.
  intros H. revert i. induction H as [| c raw Hc _ IH]; intros i; [done |]. cbn [group_loop].
  rewrite List.filter_app, IH. split_if; simpl; by rewrite Hc.
Qed.

Lemma group_loop_len raw i : 0 <= i ->
  zlen (group_loop raw i) = zlen raw + (Z.max 0 ((i + zlen raw - 1) / 5) - Z.max 0 ((i - 1) / 5)).
Proof.
  revert i. induction raw as [| c raw IH]; intros i Hi; cbn [group_loop].
  - change (zlen (@nil Z)) with 0. rewrite Z.add_0_r. lia.
  - rewrite zlen_app, IH, zlen_cons by lia. pose proof (zlen_nonneg raw).
    replace (i + 1 + zlen raw - 1) with (i + (1 + zlen raw) - 1) by lia.
    assert (zlen (if (0 <? i) && (i mod 5 =? 0) then [45; c] else [c]) =
            1 + (Z.max 0 ((i + 1 - 1) / 5) - Z.max 0 ((i - 1) / 5))); [| lia].
    replace (i + 1 - 1) with i by lia.
    destruct (Z.ltb_spec 0 i), (Z.eqb_spec (i mod 5) 0); cbn [andb]; rewrite ?zlen_cons; change (zlen (@nil Z)) with 0;
      Z.div_mod_to_equations; lia.
Qed.

Lemma recovery_payload_printed raw :
  Forall (fun c => separator c = false) raw ->
  recovery_payload (cstr "PV1R-" ++ group_loop raw 0) = Some raw.
Proof.
  intros H. unfold recovery_payload. change (cstr "PV1R-") with [80; 86; 49; 82; 45].
  change (skip_spaces ([80; 86; 49; 82; 45] ++ group_loop raw 0)) with ([80; 86; 49; 82; 45] ++ group_loop raw 0).
  change (strncasecmp_eq ([80; 86; 49; 82; 45] ++ group_loop raw 0) (cstr "PV1R") 4) with true.
  change (drop 4 ([80; 86; 49; 82; 45] ++ group_loop raw 0)) with (45 :: group_loop raw 0).
  cbn [List.filter]. change (negb (separator 45)) with false. by rewrite group_loop_filter.
Qed.

(** Bytes and the digits that spell them. *)
Lemma spelled_unique ds m k :
  zlen m = 37 -> digit_bits ds = bits_of m ++ replicate k false -> (k < 8)%nat -> length ds = 60%nat /\ k = 4%nat.
Proof.
  intros Hm H Hk. apply (f_equal length) in H. rewrite digit_bits_length, length_app, bits_of_length, length_replicate in H.
  unfold zlen in *. lia.
Qed.

(** The digits of the printed form of 37 bytes. *)
Lemma base32_digits m : is_bytes m -> zlen m = 37 ->
  exists ds, base32_encode m 80 = map (znth crockford_alphabet) ds /\ map crockford_value (base32_encode m 80) = ds /\
    Forall is_digit ds /\ length ds = 60%nat /\ digit_bits ds = bits_of m ++ replicate 4 false.
Proof.
  intros Hb Hm. destruct (base32_encode_spec m 80 Hb ltac:(lia)) as (ds & k & He & Hd & Hk & Hbits).
  destruct (spelled_unique ds m k Hm Hbits ltac:(lia)) as [Hl ->]. exists ds. split_and!; auto.
  rewrite He, map_map. clear -Hd. induction Hd as [| d ds Hd _ IH]; [done |]. cbn [map]. by rewrite crockford_value_alphabet, IH.
Qed.

(** The decoder accepts exactly the spellings of 37 bytes. *)
Lemma base32_decode_37 input m :
  is_cstr input -> is_bytes m -> zlen m = 37 ->
  base32_decode input 37 = Some m <-> map crockford_value input = map crockford_value (base32_encode m 80).
Proof.
  intros Hs Hb Hm. destruct (base32_digits m Hb Hm) as (ds & He & Hv & Hd & Hl & Hbits). rewrite Hv, base32_decode_iff by done. split.
  - intros (Hf & _ & _ & k & Hk & Heq). destruct (spelled_unique _ m k Hm Heq Hk) as [Hl' ->].
    apply digit_bits_inj; auto; [by rewrite Hl, Hl' | by rewrite Heq, Hbits].
  - intros ->. split_and!; auto. exists 4%nat. split; [lia | done].
Qed.

(** ** Lemmas: the operations *)

Section keys.
Context `{S : Sodium} {Laws : SodiumLaws S}.

(** The text spells the key and its checksum for this vault. *)
Definition recovery_spells (encoded vault_id key : list Z) : Prop :=
  zlen key = PV_RECOVERY_KEY_BYTES /\ is_bytes key /\
  exists digest, crypto_generichash (vault_id ++ key) = Some digest /\
    recovery_digits encoded =
      Some (map crockford_value (base32_encode (key ++ zsub digest 0 PV_RECOVERY_CHECKSUM_BYTES) 80)).

Lemma checksum_run vault_id key s : allocs_ok 1 s ->
  fst (recovery_checksum vault_id key s) =
    match crypto_generichash (vault_id ++ key) with
    | None => (PV_ERR_STATE, [])
    | Some digest => (PV_OK, zsub digest 0 PV_RECOVERY_CHECKSUM_BYTES)
    end.
Proof.
  intros H. destruct (secure_alloc_ok _ _ H) as (s' & E & _). unfold recovery_checksum. by rewrite bind_run, E.
Qed.

Lemma recovery_decode_run encoded vault_id s : allocs_ok 3 s ->
  fst (pv_recovery_decode encoded vault_id s) =
  let auth := (PV_ERR_AUTH, zeros PV_RECOVERY_KEY_BYTES) in
  match recovery_payload encoded with
  | None => auth
  | Some payload =>
      if 79 <? zlen payload then auth else
      match base32_decode (map toupper payload) 37 with
      | None => auth
      | Some m =>
          match crypto_generichash (vault_id ++ zsub m 0 32) with
          | None => auth
          | Some digest => if bytes_eqb (zsub digest 0 5) (zsub m 32 5) then (PV_OK, zsub m 0 32) else auth
          end
      end
  end.
Proof.
  intros Hs. unfold pv_recovery_decode, recovery_payload. cbv zeta. set (cursor := skip_spaces encoded).
  destruct (strncasecmp_eq cursor (cstr "PV1R") 4); cbn [negb]; [| done].
  destruct (secure_alloc_ok _ _ Hs) as (s1 & E1 & Hs1). rewrite bind_run, E1.
  destruct (secure_alloc_ok _ _ Hs1) as (s2 & E2 & Hs2). rewrite bind_run, E2. cbn [negb orb].
  rewrite normalize_loop_eq by done. change (zlen (@nil Z)) with 0. rewrite Z.add_0_l, app_nil_l.
  set (payload := List.filter _ _). rewrite Z.leb_antisym. destruct (79 <? zlen payload); cbn [negb]; [done |].
  change (PV_RECOVERY_KEY_BYTES + PV_RECOVERY_CHECKSUM_BYTES) with 37.
  destruct (base32_decode (map toupper payload) 37) as [m |]; [| done].
  rewrite bind_run. pose proof (checksum_run vault_id (zsub m 0 PV_RECOVERY_KEY_BYTES) s2 Hs2) as Hc.
  destruct (recovery_checksum _ _ s2) as [r s3]. cbn [fst] in Hc. subst r.
  change PV_RECOVERY_KEY_BYTES with 32. change PV_RECOVERY_CHECKSUM_BYTES with 5.
  destruct (crypto_generichash _); [| done]. cbn [fst snd is_ok negb orb]. by destruct (bytes_eqb _ _).
Qed.

Lemma payload_cstr encoded payload :
  is_cstr encoded -> recovery_payload encoded = Some payload -> is_cstr payload.
Proof.
  intros H Hp. unfold recovery_payload in Hp. split_if_in Hp; [| done]. injection Hp as <-.
  by apply filter_cstr, Forall_drop, skip_spaces_cstr.
Qed.

Lemma checksummed (digest key : list Z) : zlen key = 32 -> zlen digest = 32 -> zlen (key ++ zsub digest 0 5) = 37.
Proof. intros Hk Hd. rewrite zlen_app, zlen_zsub; lia. Qed.

Lemma decode_spells encoded vault_id key s : allocs_ok 3 s -> is_cstr encoded ->
  fst (pv_recovery_decode encoded vault_id s) = (PV_OK, key) -> recovery_spells encoded vault_id key.
Proof.
  intros Hs Hc H. rewrite recovery_decode_run in H by done. cbv zeta in H. unfold recovery_spells, recovery_digits.
  destruct (recovery_payload encoded) as [payload |] eqn:Hp; [| done]. pose proof (payload_cstr _ _ Hc Hp) as Hpc.
  split_if_in H; [done |]. destruct (base32_decode _ 37) as [m |] eqn:Hd; [| done].
  pose proof Hd as Hd'. apply base32_decode_iff in Hd' as (_ & Hmb & Hml & _); [| by apply toupper_cstr].
  destruct (crypto_generichash _) as [digest |] eqn:Hh; [| done]. split_if_in H; [| done]. injection H as <-.
  apply bytes_eqb_eq in Heqb0. change PV_RECOVERY_KEY_BYTES with 32. change PV_RECOVERY_CHECKSUM_BYTES with 5.
  split; [apply zlen_zsub; lia |]. split; [by apply is_bytes_zsub |]. exists digest. split; [done |].
  rewrite Heqb0. rewrite zsub_join by lia. change (32 + 5) with 37. rewrite <- Hml, zsub_all. cbn [fmap option_fmap option_map].
  f_equal. apply base32_decode_37 in Hd; [by rewrite toupper_values in Hd | by apply toupper_cstr | done | done].
Qed.

Lemma spells_decode encoded vault_id key s : allocs_ok 3 s -> is_cstr encoded ->
  recovery_spells encoded vault_id key -> fst (pv_recovery_decode encoded vault_id s) = (PV_OK, key).
Proof.
  intros Hs Hc (Hl & Hb & digest & Hh & Hd). change PV_RECOVERY_KEY_BYTES with 32 in Hl. rewrite recovery_decode_run by done. cbv zeta. unfold recovery_digits in Hd.
  destruct (recovery_payload encoded) as [payload |] eqn:Hp; [| done]. pose proof (payload_cstr _ _ Hc Hp) as Hpc.
  apply (inj Some) in Hd. destruct (generichash_len _ _ Hh) as [Hdl Hdb].
  change PV_RECOVERY_CHECKSUM_BYTES with 5 in Hd. pose proof (checksummed digest key Hl Hdl) as Hm.
  set (m := key ++ zsub digest 0 5) in *. assert (Hmb : is_bytes m) by (unfold m; auto with pv).
  assert (Hlen : length payload = 60%nat).
  { destruct (base32_digits m Hmb Hm) as (ds & _ & Hv & _ & Hl60 & _). rewrite Hv in Hd.
    apply (f_equal length) in Hd. rewrite length_map in Hd. lia. }
  replace (79 <? zlen payload) with false by (unfold zlen; lia).
  assert (base32_decode (map toupper payload) 37 = Some m) as ->.
  { apply base32_decode_37; auto; [by apply toupper_cstr | by rewrite toupper_values]. }
  assert (zsub m 0 32 = key) as -> by (unfold m; rewrite zsub_app_l by lia; rewrite <- Hl; apply zsub_all).
  assert (zsub m 32 5 = zsub digest 0 5) as ->.
  { unfold m. rewrite zsub_app_r by lia. rewrite Hl. change (32 - 32) with 0.
    unfold zsub. rewrite drop_0. by rewrite take_take. }
  by rewrite Hh, bytes_eqb_refl.
Qed.

Lemma recovery_encode_run vault_id key digest encoded_len s :
  allocs_ok 3 s -> is_bytes key -> zlen key = PV_RECOVERY_KEY_BYTES -> 78 <= encoded_len ->
  crypto_generichash (vault_id ++ key) = Some digest ->
  let raw := base32_encode (key ++ zsub digest 0 PV_RECOVERY_CHECKSUM_BYTES) 80 in
  fst (pv_recovery_encode vault_id key encoded_len s) = (PV_OK, Some (cstr "PV1R-" ++ group_loop raw 0)) /\
  zlen raw = 60 /\ Forall is_char raw /\ Forall (fun c => separator c = false) raw.
Proof.
  intros Hs Hb Hl Hcap Hh. destruct (generichash_len _ _ Hh) as [Hdl Hdb].
  assert (Hmb : is_bytes (key ++ zsub digest 0 5)) by auto with pv.
  destruct (base32_digits _ Hmb (checksummed digest key Hl Hdl)) as (ds & He & _ & Hd & Hl60 & _).
  change PV_RECOVERY_CHECKSUM_BYTES with 5. cbv zeta. set (raw := base32_encode _ 80) in *.
  assert (Hrl : zlen raw = 60) by (rewrite He, zlen_map; unfold zlen; lia). split.
  - unfold pv_recovery_encode. replace (encoded_len <? 16) with false by lia.
    destruct (secure_alloc_ok _ _ Hs) as (s1 & E1 & Hs1). rewrite bind_run, E1.
    destruct (secure_alloc_ok _ _ Hs1) as (s2 & E2 & Hs2). rewrite bind_run, E2. cbn [negb orb].
    rewrite bind_run. pose proof (checksum_run vault_id key s2 Hs2) as Hc. rewrite Hh in Hc.
    destruct (recovery_checksum _ _ s2) as [r s3]. cbn [fst] in Hc. subst r. cbn [fst snd is_ok negb].
    change PV_RECOVERY_CHECKSUM_BYTES with 5. fold raw. cbv zeta. rewrite Hrl. change (60 =? 0) with false. change (60 / 5) with 12.
    by replace (encoded_len <=? 5 + 60 + 12) with false by lia.
  - split; [done |]. rewrite He. split; apply Forall_map; (eapply Forall_impl; [| exact Hd]); intros d Hdg; by apply alphabet_char.
Qed.

End keys.

(** ** Lemmas: schedules of transfers *)

Lemma zsub_prefix_drop (data : list Z) m : 0 <= m <= zlen data ->
  zlen (zsub data 0 m) = m /\ zsub data 0 m ++ drop (length (zsub data 0 m)) data = data.
Proof.
  intros Hm. assert (Hl : zlen (zsub data 0 m) = m) by (apply zlen_zsub; lia). split; [done |].
  replace (length (zsub data 0 m)) with (Z.to_nat m) by (unfold zlen in Hl; lia). rewrite zsub_0. apply take_drop.
Qed.

Lemma write_all_loop_spec fuel fd data :
  (length (w_sched fd) + 2 <= fuel)%nat \/ (data = [] /\ 1 <= fuel)%nat ->
  exists st fd' w rest, write_all_loop fuel fd data = Some (st, fd') /\
    data = w ++ rest /\ w_data fd' = w_data fd ++ w /\
    ((st = PV_OK /\ rest = []) \/ (st = PV_ERR_IO /\ ~ benign (w_sched fd))).
Proof.
  revert fd data. induction fuel as [| fuel IH]; intros fd data Hf; [exfalso; lia |]. cbn [write_all_loop].
  pose proof (zlen_nonneg data). destruct (Z.eqb_spec (zlen data) 0) as [H0 | H0].
  { exists PV_OK, fd, [], []. assert (data = []) as -> by (destruct data; [done | zlia]). split_and!; [done | done | by rewrite app_nil_r | by left]. }
  destruct Hf as [Hf | [-> _]]; [| done].
  assert (Hput : forall m s, 0 < m <= zlen data -> (length s + 2 <= fuel)%nat \/ (drop (length (zsub data 0 m)) data = [] /\ 1 <= fuel)%nat ->
    exists st fd' w rest,
      (if zlen (zsub data 0 m) <=? 0 then Some (PV_ERR_IO, mk_wfd (w_data fd ++ zsub data 0 m) s)
       else write_all_loop fuel (mk_wfd (w_data fd ++ zsub data 0 m) s) (drop (length (zsub data 0 m)) data)) = Some (st, fd') /\
      data = w ++ rest /\ w_data fd' = w_data fd ++ w /\
      ((st = PV_OK /\ rest = []) \/ (st = PV_ERR_IO /\ ~ benign s))).
  { intros m s Hm Hfuel. destruct (zsub_prefix_drop data m ltac:(lia)) as [Hl Hd]. rewrite Hl.
    replace (m <=? 0) with false by lia.
    destruct (IH (mk_wfd (w_data fd ++ zsub data 0 m) s) _ Hfuel) as (st & fd' & w & rest & -> & Hw & Hdata & Hst).
    exists st, fd', (zsub data 0 m ++ w), rest. split_and!; [done | by rewrite <- app_assoc, <- Hw | by rewrite Hdata; cbn [w_data]; rewrite <- app_assoc | done]. }
  unfold write. cbv zeta. destruct (w_sched fd) as [| [| | | k] s]; cbn [length] in Hf.
  - destruct (Hput (zlen data) [] ltac:(lia)) as (st & fd' & w & rest & -> & ?); [| by exists st, fd', w, rest].
    right. split; [| lia]. rewrite zsub_all. by apply drop_all.
  - destruct (IH (mk_wfd (w_data fd) s) data) as (st & fd' & w & rest & -> & Hw & Hdata & Hst); [left; simpl; lia |].
    exists st, fd', w, rest. split_and!; auto. destruct Hst as [? | [? Hb]]; [by left | right]. split; [done |]. intros Hn. apply Hb. by apply Forall_cons_iff in Hn as [_ Hn].
  - exists PV_ERR_IO, (mk_wfd (w_data fd) s), [], data. split_and!; [done | done | by rewrite app_nil_r |]. right. split; [done |].
    intros Hn. apply Forall_cons_iff in Hn as [[? _] _]. done.
  - rewrite zsub_0. simpl (take _ _). change (zlen (@nil Z)) with 0. change (0 <=? 0) with true.
    eexists PV_ERR_IO, _, [], data. split_and!; [reflexivity | done | done |]. right. split; [done |].
    intros Hn. apply Forall_cons_iff in Hn as [[_ ?] _]. done.
  - destruct (Hput (Z.min (zlen data) (Z.of_nat k + 1)) s ltac:(lia) ltac:(left; lia)) as (st & fd' & w & rest & -> & Hw & Hdata & Hst).
    exists st, fd', w, rest. split_and!; auto. destruct Hst as [? | [? Hb]]; [by left | right]. split; [done |]. intros Hn. apply Hb. by apply Forall_cons_iff in Hn as [_ Hn].
Qed.

Lemma write_all_spec fd data :
  exists st fd' w rest, write_all fd data = Some (st, fd') /\
    data = w ++ rest /\ w_data fd' = w_data fd ++ w /\
    ((st = PV_OK /\ rest = []) \/ (st = PV_ERR_IO /\ ~ benign (w_sched fd))).
Proof. apply write_all_loop_spec. left. lia. Qed.

(** ** Lemmas: the lines of the file *)

Definition no_newline (l : list Z) : Prop := Forall (fun x => x <> 10) l.

Lemma line_of_newline l rest : no_newline l -> line_of (l ++ 10 :: rest) = l.
Proof.
  intros H. unfold line_of. rewrite find_char_app_r by done. rewrite zsub_app_l, zsub_all; [done | lia | apply zlen_nonneg | lia].
Qed.

Lemma strip_cr_prefix line n : 0 <= n < zlen line -> zsub (strip_cr line) 0 n = zsub line 0 n.
Proof.
  intros Hn. unfold strip_cr. split_if; [| done]. rewrite !zsub_0, take_take. f_equal. lia.
Qed.

Lemma find_key_skip fuel line rest encoded_len :
  no_newline line -> (zlen line < 4 \/ (5 <= zlen line /\ strncasecmp_eq line (cstr "PV1R") 4 = false)) ->
  find_key_loop (S fuel) (line ++ 10 :: rest) encoded_len = find_key_loop fuel rest encoded_len.
Proof.
  intros Hn Hk. cbn [find_key_loop]. replace (zlen (line ++ 10 :: rest) <=? 0) with false by zlia.
  rewrite line_of_newline by done.
  assert (Hc : (4 <=? zlen (strip_cr line)) && strncasecmp_eq (strip_cr line) (cstr "PV1R") 4 = false).
  { destruct Hk as [Hk | [Hl Hk]].
    - assert (zlen (strip_cr line) <= zlen line); [| by replace (4 <=? zlen (strip_cr line)) with false by lia].
      unfold strip_cr. split_if; [| lia]. unfold zlen, zsub. rewrite length_take, length_drop. lia.
    - unfold strncasecmp_eq in *. rewrite strip_cr_prefix by lia. by rewrite Hk, andb_false_r. }
  rewrite Hc. f_equal. rewrite drop_app_ge by lia. by replace (length line + 1 - length line)%nat with 1%nat by lia.
Qed.

Lemma find_key_hit fuel line rest encoded_len :
  no_newline line -> 4 <= zlen line < encoded_len -> strncasecmp_eq line (cstr "PV1R") 4 = true ->
  znth line (zlen line - 1) <> 13 ->
  find_key_loop (S fuel) (line ++ 10 :: rest) encoded_len = (PV_OK, line).
Proof.
  intros Hn Hl Hp Hcr. cbn [find_key_loop]. replace (zlen (line ++ 10 :: rest) <=? 0) with false by zlia.
  rewrite line_of_newline by done. assert (strip_cr line = line) as ->.
  { unfold strip_cr. destruct (Z.eqb_spec (znth line (zlen line - 1)) 13); [done |]. by rewrite andb_false_r. }
  rewrite Hp. replace (4 <=? zlen line) with true by lia. by replace (encoded_len <=? zlen line) with false by lia.
Qed.

Lemma hex_no_newline l : is_bytes l -> no_newline (concat (map hex_digits l)).
Proof.
  assert (H : forallb (fun b => forallb (fun c => negb (c =? 10)) (hex_digits b)) (seqZ 0 256) = true) by by vm_compute.
  induction 1 as [| b l Hb _ IH]; [constructor |]. simpl. pose proof (byte_forall _ H b Hb) as Hd. simpl in Hd.
  rewrite !andb_true_iff, !negb_true_iff in Hd. constructor; [lia |]. constructor; [lia | exact IH].
Qed.

Lemma find_key_file id_hex encoded encoded_len fuel :
  no_newline id_hex -> no_newline encoded -> 4 <= zlen encoded < encoded_len ->
  strncasecmp_eq encoded (cstr "PV1R") 4 = true -> znth encoded (zlen encoded - 1) <> 13 ->
  find_key_loop (S (S (S (S fuel)))) (recovery_file_content id_hex encoded) encoded_len = (PV_OK, encoded).
Proof.
  intros Hi He Hl Hp Hcr. unfold recovery_file_content.
  change ([10] ++ cstr "Vault: " ++ id_hex ++ [10; 10] ++ encoded ++ [10; 10] ++ ?r) with
    (10 :: cstr "Vault: " ++ id_hex ++ [10; 10] ++ encoded ++ [10; 10] ++ r).
  rewrite find_key_skip; [| repeat constructor; done | right; split; by vm_compute].
  rewrite (app_assoc (cstr "Vault: ")).
  change ([10; 10] ++ encoded ++ ?r) with (10 :: [] ++ 10 :: encoded ++ r).
  rewrite find_key_skip.
  - rewrite find_key_skip; [| constructor | left; by vm_compute].
    change ([10; 10] ++ ?r) with (10 :: 10 :: r). by apply find_key_hit.
  - apply Forall_app_2; [repeat constructor; done | done].
  - right. rewrite zlen_app. pose proof (zlen_nonneg id_hex). split; [change (zlen (cstr "Vault: ")) with 7; lia |].
    unfold strncasecmp_eq. rewrite zsub_app_l by (try lia; by vm_compute). by vm_compute.
Qed.

(** ** Properties *)

(** C29: [pv_recovery_decode] returns a key exactly when the text, after leading
    spaces and the prefix, spells in base 32 (in any case and grouping, with O for
    0 and I or L for 1) the 32 bytes of the key followed by its 5-byte checksum
    for this vault; any other text is refused as unauthentic and the key is
    left zero. *)
Theorem recovery_decode_exact `{S : Sodium} {Laws : SodiumLaws S}
    (encoded vault_id : list Z) (s : sys) (Hs : allocs_ok 3 s) (Hc : is_cstr encoded) :
  (forall key, fst (pv_recovery_decode encoded vault_id s) = (PV_OK, key) <-> recovery_spells encoded vault_id key) /\
  ((forall key, ~ recovery_spells encoded vault_id key) ->
   fst (pv_recovery_decode encoded vault_id s) = (PV_ERR_AUTH, zeros PV_RECOVERY_KEY_BYTES)).
Proof.
  assert (Hiff : forall key, fst (pv_recovery_decode encoded vault_id s) = (PV_OK, key) <-> recovery_spells encoded vault_id key).
  { intros key. split; [by apply decode_spells | by apply spells_decode]. }
  split; [exact Hiff |]. intros Hno.
  assert (Hcase : forall r, fst (pv_recovery_decode encoded vault_id s) = r ->
    r = (PV_ERR_AUTH, zeros PV_RECOVERY_KEY_BYTES) \/ exists key, r = (PV_OK, key)).
  { intros r <-. rewrite recovery_decode_run by done. cbv zeta. repeat (case_match; eauto). }
  destruct (Hcase _ eq_refl) as [H | [key H]]; [done |]. by apply Hiff, Hno in H.
Qed.

(** A printed recovery key is read back: [pv_recovery_encode] succeeds in a
    buffer of 78 bytes, prints 76 characters, and every text that spells the same
    digits (re-grouped, in lower case, with O, I or L for the digits they look
    like) decodes to the key. *)
Theorem recovery_roundtrip `{S : Sodium} {Laws : SodiumLaws S}
    (vault_id key digest : list Z) (encoded_len : Z) (s1 s2 : sys)
    (Hb : is_bytes key) (Hl : zlen key = PV_RECOVERY_KEY_BYTES) (Hcap : 78 <= encoded_len)
    (Hh : crypto_generichash (vault_id ++ key) = Some digest) (Hs1 : allocs_ok 3 s1) (Hs2 : allocs_ok 3 s2) :
  exists encoded, fst (pv_recovery_encode vault_id key encoded_len s1) = (PV_OK, Some encoded) /\ zlen encoded = 76 /\
    forall retyped, is_cstr retyped -> recovery_digits retyped = recovery_digits encoded ->
      fst (pv_recovery_decode retyped vault_id s2) = (PV_OK, key).
Proof.
  destruct (recovery_encode_run vault_id key digest encoded_len s1 Hs1 Hb Hl Hcap Hh) as (He & Hr & Hrc & Hsep).
  set (raw := base32_encode _ 80) in *. exists (cstr "PV1R-" ++ group_loop raw 0). split_and!; [done | |].
  - rewrite zlen_app, group_loop_len, Hr by lia. by vm_compute.
  - intros retyped Hc Hd. apply spells_decode; [done | done |]. split; [done |]. split; [done |]. exists digest. split; [done |].
    rewrite Hd. unfold recovery_digits. by rewrite recovery_payload_printed.
Qed.

(** ** Examples *)

Definition example_id : list Z := replicate 16 7.
Definition example_key : list Z := replicate 32 200.

(** The key of the example, in lower case and without groups. *)
Definition example_typed : list Z := cstr "  pv1r s34chj68s34chj68s34chj68s34chj68s34chj68s34chj68s3-43w82-wgEO0".

Lemma example_allocs n : allocs_ok n example_sys.
Proof. by intros i _. Qed.

Lemma example_typed_cstr : is_cstr example_typed.
Proof. repeat constructor. Qed.

Lemma recovery_decode_exact_witness :
  (forall key, fst (pv_recovery_decode example_typed example_id example_sys) = (PV_OK, key) <->
     recovery_spells example_typed example_id key) /\
  ((forall key, ~ recovery_spells example_typed example_id key) ->
   fst (pv_recovery_decode example_typed example_id example_sys) = (PV_ERR_AUTH, zeros PV_RECOVERY_KEY_BYTES)).
Proof. apply (recovery_decode_exact example_typed example_id example_sys); [apply example_allocs | exact example_typed_cstr]. Defined.

Example example_typed_ok : fst (pv_recovery_decode example_typed example_id example_sys) = (PV_OK, example_key).
Proof. by vm_compute. Qed.

Lemma recovery_roundtrip_witness :
  exists encoded, fst (pv_recovery_encode example_id example_key 128 example_sys) = (PV_OK, Some encoded) /\ zlen encoded = 76 /\
    forall retyped, is_cstr retyped -> recovery_digits retyped = recovery_digits encoded ->
      fst (pv_recovery_decode retyped example_id example_sys) = (PV_OK, example_key).
Proof.
  apply (recovery_roundtrip example_id example_key (le_put 32 (toy_hash 5 (example_id ++ example_key))) 128 example_sys example_sys).
  - by apply Forall_replicate.
  - reflexivity.
  - by vm_compute.
  - reflexivity.
  - apply example_allocs.
  - apply example_allocs.
Defined.

(** ** Properties of the recovery file *)

(** Characters a printed key may contain. *)
Definition printable_key (c : Z) : Prop := is_char c /\ c <> 10 /\ c <> 13.

Lemma alphabet_printable d : is_digit d -> printable_key (znth crockford_alphabet d).
Proof.
  intros Hd. destruct (alphabet_char d Hd) as [Hc Hs]. split; [done |]. unfold separator in Hs. rewrite orb_false_iff in Hs.
  destruct Hs as [_ Hs]. split; intros E; by rewrite E in Hs.
Qed.

Lemma group_loop_forall (P : Z -> Prop) raw i : P 45 -> Forall P raw -> Forall P (group_loop raw i).
Proof.
  intros Hd H. revert i. induction H as [| c raw Hc _ IH]; intros i; cbn [group_loop]; [constructor |].
  apply Forall_app_2; [split_if; repeat constructor; auto | apply IH].
Qed.

Lemma znth_forall (P : Z -> Prop) l i : Forall P l -> 0 <= i < zlen l -> P (znth l i).
Proof. intros H Hi. rewrite List.Forall_forall in H. apply H, nth_In. unfold zlen in Hi. lia. Qed.

Section files.
Context `{S : Sodium} {Laws : SodiumLaws S}.

Lemma encode_inv vault_id key encoded_len s encoded s' :
  is_bytes key -> zlen key = PV_RECOVERY_KEY_BYTES ->
  pv_recovery_encode vault_id key encoded_len s = ((PV_OK, Some encoded), s') ->
  recovery_spells encoded vault_id key /\ Forall printable_key encoded /\ zlen encoded = 76 /\
  strncasecmp_eq encoded (cstr "PV1R") 4 = true.
Proof.
  intros Hb Hl H. unfold pv_recovery_encode in H. split_if_in H; [done |]. do 2 run_bind H. split_if_in H; [done |].
  run_bind H. destruct x1 as [st ck]. cbn [fst snd] in H. destruct (is_ok st) eqn:Est; cbn [negb] in H; [| by injection H as -> _ _].
  apply is_ok_true in Est as ->. unfold recovery_checksum in Heqp1. run_bind Heqp1. split_if_in Heqp1; [done |].
  destruct (crypto_generichash (vault_id ++ key)) as [digest |] eqn:Hh; [| done]. injection Heqp1 as <- _.
  destruct (generichash_len _ _ Hh) as [Hdl Hdb]. assert (Hmb : is_bytes (key ++ zsub digest 0 5)) by auto with pv.
  destruct (base32_digits _ Hmb (checksummed digest key Hl Hdl)) as (ds & He & _ & Hd & Hl60 & _).
  change PV_RECOVERY_CHECKSUM_BYTES with 5 in H. cbv zeta in H. set (raw := base32_encode _ 80) in *.
  do 2 (split_if_in H; [done |]). unfold mret, M_ret in H. injection H as <- _.
  assert (Hrl : zlen raw = 60) by (rewrite He, zlen_map; unfold zlen; lia).
  assert (Hsep : Forall (fun c => separator c = false) raw).
  { rewrite He. apply Forall_map. eapply Forall_impl; [| exact Hd]. intros d Hdg. by apply alphabet_char. }
  assert (Hpr : Forall printable_key raw).
  { rewrite He. apply Forall_map. eapply Forall_impl; [| exact Hd]. apply alphabet_printable. }
  split_and!.
  - split; [done |]. split; [done |]. exists digest. split; [done |].
    exact (f_equal (fmap (map crockford_value)) (recovery_payload_printed raw Hsep)).
  - change (Forall printable_key (cstr "PV1R-" ++ group_loop raw 0)). apply Forall_app_2; [repeat constructor; done |].
    apply group_loop_forall; [done | done].
  - change (zlen (cstr "PV1R-" ++ group_loop raw 0) = 76). rewrite zlen_app, group_loop_len, Hrl by lia. by vm_compute.
  - reflexivity.
Qed.

End files.

(** The answers of a system on which the file is private to its owner. *)
Definition private_file (euid : Z) (info : stat) : Prop :=
  S_ISREG (st_mode info) = true /\ st_uid info = euid /\ st_nlink info = 1 /\ group_other_bits (st_mode info) = 0.

Lemma write_file_ok euid io path encoded vault_id file s file' s' :
  is_bytes vault_id -> zlen vault_id = PV_VAULT_ID_BYTES ->
  pv_recovery_write_file euid io path encoded vault_id file s = (Some (PV_OK, file'), s') ->
  file = None /\ file' = Some (recovery_file_content (concat (map hex_digits vault_id)) encoded) /\
  zlen (recovery_file_content (concat (map hex_digits vault_id)) encoded) < 512.
Proof.
  intros Hb Hl H. unfold pv_recovery_write_file in H. cbv zeta in H. split_if_in H; [injection H as H _ _; by rewrite H in Heqb |].
  run_bind H. do 2 (split_if_in H; [done |]). destruct file; [done |]. unfold pv_hex_encode in H.
  change (PV_VAULT_ID_BYTES * 2 + 1) with 33 in H. rewrite Hl in H. change (33 =? 0) with false in H.
  change ((33 - 1) / 2 <? PV_VAULT_ID_BYTES) with false in H. cbn [default] in H.
  set (content := recovery_file_content _ encoded) in *. split_if_in H; [done |].
  destruct (write_all_spec (mk_wfd [] (wf_sched io)) content) as (st & fd & w & rest & E & Hw & Hd & Hst).
  rewrite E in H. unfold mret, M_ret in H. injection H as H Hf _. cbn [w_data] in Hd.
  assert (st = PV_OK) as ->.
  { destruct Hst as [[-> _] | [-> _]]; [done |]. cbn [is_ok andb] in H. rewrite andb_false_r in H. done. }
  destruct Hst as [[_ ->] | [? _]]; [| done]. rewrite app_nil_r in Hw. subst w.
  split_and!; [done | | lia]. rewrite <- Hf, H, Hd. done.
Qed.

Lemma read_file_ok euid io info content encoded encoded_len s :
  allocs_ok 1 s -> rf_open io = true -> rf_close io = true -> rf_stat io = Some info -> private_file euid info ->
  benign (r_sched (rf_fd io)) -> r_data (rf_fd io) = content -> zlen content <= PV_RECOVERY_FILE_MAX -> 0 < encoded_len ->
  find_key_loop (S (length content)) content encoded_len = (PV_OK, encoded) ->
  fst (pv_recovery_read_file euid io encoded_len s) = Some (PV_OK, Some encoded).
Proof.
  intros Hs Ho Hc Hi (H1 & H2 & H3 & H4) Hb Hd Hl Hcap Hk. unfold pv_recovery_read_file.
  replace (encoded_len =? 0) with false by lia. destruct (secure_alloc_ok _ _ Hs) as (s' & E & _). rewrite bind_run, E.
  rewrite Ho, Hi, H1, H2, H3, H4, !Z.eqb_refl. cbn [negb orb]. change (1 =? 1) with true. cbn [negb].
  destruct (fill_file_spec (PV_RECOVERY_FILE_MAX + 1) (rf_fd io) ltac:(by vm_compute)) as (st & c & fd & -> & _ & _ & Hok).
  destruct (Hok Hb) as (-> & -> & _). rewrite Hd. cbn [is_ok negb]. change PV_RECOVERY_FILE_MAX with 1024 in *.
  assert (zsub content 0 (1024 + 1) = content) as -> by (rewrite zsub_0; apply firstn_all2; unfold zlen in *; lia).
  replace (1024 <? zlen content) with false by lia. rewrite Hk, Hc. done.
Qed.

Lemma recovery_content_fuel id_hex encoded fuel :
  exists k, S (length (recovery_file_content id_hex encoded) + fuel) = S (S (S (S k))).
Proof.
  exists (length (recovery_file_content id_hex encoded) + fuel - 3)%nat.
  assert (3 <= length (recovery_file_content id_hex encoded))%nat; [| lia].
  unfold recovery_file_content. rewrite length_app. change (length (cstr "PVault recovery key v1")) with 22%nat. lia.
Qed.

(** C30: the recovery file restores the key: when [pv_recovery_encode] printed a
    key and [pv_recovery_write_file] stored it, whatever interruptions and short
    writes occurred, [pv_recovery_read_file] on that file (private to its owner,
    read with any interruptions and short reads) returns the printed text and
    [pv_recovery_decode] turns it into the key. *)
Theorem recovery_file_roundtrip `{S : Sodium} {Laws : SodiumLaws S}
    (euid : Z) (vault_id key encoded path content : list Z) (wio : write_file_io) (rio : read_file_io) (info : stat)
    (s1 s1' s2 s2' s3 s4 : sys)
    (Hk : is_bytes key) (Hkl : zlen key = PV_RECOVERY_KEY_BYTES) (Hi : is_bytes vault_id) (Hil : zlen vault_id = PV_VAULT_ID_BYTES)
    (He : pv_recovery_encode vault_id key PV_RECOVERY_TEXT_MAX s1 = ((PV_OK, Some encoded), s1'))
    (Hw : pv_recovery_write_file euid wio path encoded vault_id None s2 = (Some (PV_OK, Some content), s2'))
    (Ho : rf_open rio = true) (Hc : rf_close rio = true) (Hst : rf_stat rio = Some info) (Hp : private_file euid info)
    (Hd : r_data (rf_fd rio) = content) (Hb : benign (r_sched (rf_fd rio))) (Hs3 : allocs_ok 1 s3) (Hs4 : allocs_ok 3 s4) :
  fst (pv_recovery_read_file euid rio PV_RECOVERY_TEXT_MAX s3) = Some (PV_OK, Some encoded) /\
  fst (pv_recovery_decode encoded vault_id s4) = (PV_OK, key).
Proof.
  apply encode_inv in He as (Hsp & Hpr & Hl & Hpre); [| done | done].
  apply write_file_ok in Hw as (_ & Hf & Hlen); [| done | done]. apply (inj Some) in Hf. split.
  - apply (read_file_ok euid rio info content); auto; [rewrite Hf; unfold PV_RECOVERY_FILE_MAX; lia | by vm_compute |].
    rewrite Hf. destruct (recovery_content_fuel (concat (map hex_digits vault_id)) encoded 0) as [k Hfuel].
    rewrite Nat.add_0_r in Hfuel. rewrite Hfuel. apply find_key_file; [by apply hex_no_newline | | | done |].
    + eapply Forall_impl; [| exact Hpr]. by intros c (_ & ? & _).
    + rewrite Hl. by vm_compute.
    + eapply (znth_forall printable_key); [done | lia].
  - apply spells_decode; [done | | done]. eapply Forall_impl; [| exact Hpr]. by intros c [? _].
Qed.

(** [pv_recovery_write_file] always ends and never touches a file that is
    already there; it reports success only when the file is new and holds the
    complete text; and when it fails after creating the file, the file is removed
    (if the kernel lets it), so no partial key file is left behind. *)
Theorem recovery_write_file_safe (euid : Z) (io : write_file_io) (path encoded vault_id : list Z) (file : option (list Z)) (s : sys)
    (Hb : is_bytes vault_id) (Hl : zlen vault_id = PV_VAULT_ID_BYTES) :
  exists st file' s', pv_recovery_write_file euid io path encoded vault_id file s = (Some (st, file'), s') /\
    (forall old, file = Some old -> st <> PV_OK /\ file' = Some old) /\
    (st = PV_OK -> file' = Some (recovery_file_content (concat (map hex_digits vault_id)) encoded)) /\
    (st <> PV_OK -> wf_unlink io = true -> file' = file).
Proof.
  destruct (pv_recovery_write_file euid io path encoded vault_id file s) as [r s'] eqn:E.
  assert (Hr : exists st file', r = Some (st, file') /\ (forall old, file = Some old -> file' = Some old) /\
               (st <> PV_OK -> wf_unlink io = true -> file' = file)).
  { unfold pv_recovery_write_file in E. cbv zeta in E. split_if_in E; [injection E as <- _; eauto 6 |].
    run_bind E. do 2 (split_if_in E; [injection E as <- _; eauto 6 |]). destruct file; [injection E as <- _; eauto 6 |].
    set (content := recovery_file_content _ encoded) in *. split_if_in E.
    { injection E as <- _. eexists _, _. split_and!; [done | done |]. intros _ Hu. by rewrite Hu. }
    destruct (write_all_spec (mk_wfd [] (wf_sched io)) content) as (st & fd & w & rest & Ew & _). rewrite Ew in E.
    injection E as <- _. eexists _, _. split_and!; [done | done |]. intros Hne Hu. rewrite Hu.
    set (st' := if is_ok _ then _ else _) in *. destruct (is_ok st') eqn:Eo; [by apply is_ok_true in Eo | done]. }
  destruct Hr as (st & file' & -> & Hold & Hfail). exists st, file', s'. split_and!; [done | | | done].
  - intros old ->. split; [| by apply Hold]. intros ->. by apply write_file_ok in E as (? & _).
  - intros ->. by apply write_file_ok in E as (_ & -> & _).
Qed.

Definition example_encoded : list Z := default [] (snd (fst (pv_recovery_encode example_id example_key PV_RECOVERY_TEXT_MAX example_sys))).
Definition example_dir_stat : stat := mk_stat 1 2 (16384 + 448) 1000 2 4096 (0, 0) (0, 0).
Definition example_file_stat : stat := mk_stat 1 3 (32768 + 384) 1000 1 212 (0, 0) (0, 0).
Definition example_dir_io : dir_io := mk_dir_io true (Some example_dir_stat) true true.
Definition example_wio : write_file_io :=
  mk_write_file_io example_dir_io true [E_intr; E_upto 20; E_intr; E_upto 3] true true example_dir_io true.
Definition example_content : list Z := recovery_file_content (concat (map hex_digits example_id)) example_encoded.
Definition example_rio : read_file_io :=
  mk_read_file_io true (Some example_file_stat) (mk_rfd example_content [E_upto 30; E_intr; E_upto 0]) true.

Lemma recovery_write_file_safe_witness :
  exists st file' s', pv_recovery_write_file 1000 example_wio (cstr "/k") example_encoded example_id None example_sys = (Some (st, file'), s') /\
    (forall old, None = Some old -> st <> PV_OK /\ file' = Some old) /\
    (st = PV_OK -> file' = Some example_content) /\
    (st <> PV_OK -> wf_unlink example_wio = true -> file' = None).
Proof.
  apply (recovery_write_file_safe 1000 example_wio (cstr "/k") example_encoded example_id None example_sys);
    [by apply Forall_replicate | reflexivity].
Defined.

Lemma recovery_file_roundtrip_witness :
  fst (pv_recovery_read_file 1000 example_rio PV_RECOVERY_TEXT_MAX example_sys) = Some (PV_OK, Some example_encoded) /\
  fst (pv_recovery_decode example_encoded example_id example_sys) = (PV_OK, example_key).
Proof.
  apply (recovery_file_roundtrip 1000 example_id example_key example_encoded (cstr "/k") example_content example_wio example_rio
    example_file_stat example_sys (snd (pv_recovery_encode example_id example_key PV_RECOVERY_TEXT_MAX example_sys))
    example_sys (snd (pv_recovery_write_file 1000 example_wio (cstr "/k") example_encoded example_id None example_sys))
    example_sys example_sys); try reflexivity.
  - by apply Forall_replicate.
  - by apply Forall_replicate.
  - by vm_compute.
  - repeat constructor; done.
  - apply example_allocs.
  - apply example_allocs.
Defined.
