(* ===== verification/Config.v ===== *)
(** * The configuration file

    [src/config.c]: where the file is, how it is opened and read, and how its
    lines are parsed. A string is the list of its characters before the NUL. The
    environment is the function [getenv]. The kernel's answers are the record
    [config_io]. *)

From S2P Require Import Prelude Status Util Sys Posix.

Definition PV_CONFIG_MAX_BYTES : Z := 64 * 1024.
Definition PV_CONFIG_MAX_LINE : Z := PATH_MAX + 128.

(** [enum pv_config_key]. *)
Definition PV_CONFIG_KEY_VAULT_PATH : Z := 1.
Definition PV_CONFIG_KEY_CLIPBOARD_TTL : Z := 2.
Definition PV_CONFIG_KEY_SESSION_TTL : Z := 4.
Definition PV_CONFIG_KEY_BACKUP_RETENTION : Z := 8.
Definition PV_CONFIG_KEY_PICKER : Z := 16.

Record pv_config := mk_config {
  vault_path : list Z;
  clipboard_ttl : Z;
  session_ttl : Z;
  backup_retention : Z;
  picker_rofi : bool
}.

Definition config_zero : pv_config := mk_config [] 0 0 0 false.

Definition set_vault_path (c : pv_config) (v : list Z) : pv_config :=
  mk_config v (clipboard_ttl c) (session_ttl c) (backup_retention c) (picker_rofi c).
Definition set_clipboard_ttl (c : pv_config) (v : Z) : pv_config :=
  mk_config (vault_path c) v (session_ttl c) (backup_retention c) (picker_rofi c).
Definition set_session_ttl (c : pv_config) (v : Z) : pv_config :=
  mk_config (vault_path c) (clipboard_ttl c) v (backup_retention c) (picker_rofi c).
Definition set_backup_retention (c : pv_config) (v : Z) : pv_config :=
  mk_config (vault_path c) (clipboard_ttl c) (session_ttl c) v (picker_rofi c).
Definition set_picker_rofi (c : pv_config) (v : bool) : pv_config :=
  mk_config (vault_path c) (clipboard_ttl c) (session_ttl c) (backup_retention c) v.

Definition starts_with_slash (s : list Z) : bool := znth s 0 =? 47.

(** ** Paths and defaults *)

(** [snprintf(out, out_len, "%s...")]: the string left in [out] and the status. *)
Definition print_path (text : list Z) (out_len : Z) : pv_status * list Z :=
  (if out_len <=? zlen text then PV_ERR_LIMIT else PV_OK, zsub text 0 (out_len - 1)).

(** The status and the string left in [out]. *)
Definition xdg_path (getenv : list Z -> option (list Z)) (out : list Z) (out_len : Z) (env_name suffix : list Z)
  : pv_status * list Z :=
  let from_home :=
    match getenv (cstr "HOME") with
    | None => (PV_ERR_STATE, out)
    | Some home =>
        if negb (starts_with_slash home) then (PV_ERR_STATE, out)
        else if bytes_eqb env_name (cstr "XDG_DATA_HOME")
        then print_path (home ++ cstr "/.local/share/" ++ suffix) out_len
        else print_path (home ++ cstr "/.config/" ++ suffix) out_len
    end in
  match getenv env_name with
  | Some base => if starts_with_slash base then print_path (base ++ [47] ++ suffix) out_len else from_home
  | None => from_home
  end.

Definition pv_config_defaults (getenv : list Z -> option (list Z)) : pv_status * pv_config :=
  let '(status, path) := xdg_path getenv [] PATH_MAX (cstr "XDG_DATA_HOME") (cstr "pvault/vault.pvlt") in
  let config := set_vault_path config_zero path in
  if negb (is_ok status) then (status, config) else
  (PV_OK, mk_config path PV_DEFAULT_CLIPBOARD_TTL PV_DEFAULT_SESSION_TTL PV_DEFAULT_BACKUP_RETENTION false).

(** ** Text *)

Definition ascii_space (c : Z) : bool :=
  (c =? 32) || (c =? 9) || (c =? 10) || (c =? 13) || (c =? 12) || (c =? 11).

Fixpoint skip_ascii_space (text : list Z) : list Z :=
  match text with
  | c :: text' => if ascii_space c then skip_ascii_space text' else text
  | [] => []
  end.

(** The second loop stops at the first character of the text. *)
Definition trim (text : list Z) : list Z :=
  match skip_ascii_space text with
  | [] => []
  | c :: rest => c :: rev (skip_ascii_space (rev rest))
  end.

(** ** Numbers: [strtoul] in base 10 *)

(** The value of the leading digits and what follows them. *)
Fixpoint strtoul_digits (text : list Z) (acc : Z) : Z * list Z :=
  match text with
  | c :: text' => if (48 <=? c) && (c <=? 57) then strtoul_digits text' (acc * 10 + (c - 48)) else (acc, text)
  | [] => (acc, [])
  end.

Definition strtoul_sign (text : list Z) : bool * list Z :=
  match text with
  | c :: text' => if c =? 45 then (true, text') else if c =? 43 then (false, text') else (false, text)
  | [] => (false, [])
  end.

(** The result, whether [errno] is set, and the text from [end] on. Without
    digits [end] is the start of the text. *)
Definition strtoul (text : list Z) : Z * bool * list Z :=
  let '(negative, digits) := strtoul_sign (skip_ascii_space text) in
  let '(value, rest) := strtoul_digits digits 0 in
  if zlen rest =? zlen digits then (0, false, text) else
  if UINT64_MAX <? value then (UINT64_MAX, true, rest) else
  (if negative then u64 (- value) else value, false, rest).

(** The status and the new contents of [out]. *)
Definition parse_unsigned (value : list Z) (min max out : Z) : pv_status * Z :=
  let '(parsed, failed, rest) := strtoul value in
  if failed || (zlen rest =? zlen value) || negb (zlen rest =? 0) || (parsed <? min) || (max <? parsed)
  then (PV_ERR_FORMAT, out)
  else (PV_OK, parsed).

(** ** Opening and reading the file *)

Inductive open_result :=
| Opened
| NoEntry      (** fails with [ENOENT] *)
| OpenFailed.

Record config_io := mk_config_io {
  ci_dir_open : open_result;
  ci_dir_stat : option stat;
  ci_dir_close : bool;
  ci_open : open_result;
  ci_stat : option stat;
  ci_fd : reader_fd;
  ci_stat_after : option stat;
  ci_close : bool
}.

Definition validate_config_parent (euid : Z) (info : option stat) : pv_status :=
  match info with
  | None => PV_ERR_IO
  | Some info =>
      if negb (S_ISDIR (st_mode info)) || negb (st_uid info =? euid) || negb (foreign_write_bits (st_mode info) =? 0)
      then PV_ERR_IO else PV_OK
  end.

(** The status and, when it is [PV_OK], the file information. *)
Definition validate_config_file (euid : Z) (info : option stat) : pv_status * option stat :=
  match info with
  | None => (PV_ERR_IO, None)
  | Some info =>
      if negb (S_ISREG (st_mode info)) || negb (st_uid info =? euid) || negb (st_nlink info =? 1) ||
         (negb (access_bits (st_mode info) =? 256) && negb (access_bits (st_mode info) =? 384))
      then (PV_ERR_IO, Some info)
      else if (st_size info <? 0) || (PV_CONFIG_MAX_BYTES <? st_size info) then (PV_ERR_LIMIT, Some info)
      else (PV_OK, Some info)
  end.

(** The position of the last ['/'] ([strrchr]). *)
Definition last_slash (path : list Z) : option Z :=
  option_map (fun i => zlen path - 1 - i) (find_char (rev path) 47).

(** The status and the information on the file when it is present and open. *)
Definition open_config_file (euid : Z) (io : config_io) (path : list Z) : pv_status * option stat :=
  match last_slash path with
  | None => (PV_ERR_STATE, None)
  | Some slash =>
      if zlen path =? slash + 1 then (PV_ERR_STATE, None) else
      let directory_len := if slash =? 0 then 1 else slash in
      if PATH_MAX <=? directory_len then (PV_ERR_LIMIT, None) else
      match ci_dir_open io with
      | NoEntry => (PV_OK, None)
      | OpenFailed => (PV_ERR_IO, None)
      | Opened =>
          let status := validate_config_parent euid (ci_dir_stat io) in
          if negb (is_ok status) then (status, None) else
          match ci_open io with
          | NoEntry => (PV_OK, None)
          | OpenFailed => (PV_ERR_IO, None)
          | Opened =>
              let '(status, info) := validate_config_file euid (ci_stat io) in
              let status := if negb (ci_dir_close io) && is_ok status then PV_ERR_IO else status in
              if negb (is_ok status) then (status, None) else (PV_OK, info)
          end
      end
  end.

(** The [do ... while] around the read of one more byte. *)
Fixpoint read_extra_loop (fuel : nat) (fd : reader_fd) : option pv_status :=
  match fuel with
  | O => None
  | S fuel =>
      match read fd 1 with
      | (Interrupted, fd) => read_extra_loop fuel fd
      | (Failed, _) => Some PV_ERR_IO
      | (Transferred [], _) => Some PV_OK
      | (Transferred _, _) => Some PV_ERR_LIMIT
      end
  end.

Definition pair_eqb (a b : Z * Z) : bool := (fst a =? fst b) && (snd a =? snd b).

(** The file did not change while it was read. *)
Definition stat_changed (initial final : stat) (used : Z) : bool :=
  negb (st_dev final =? st_dev initial) || negb (st_ino final =? st_ino initial) ||
  negb (st_uid final =? st_uid initial) || negb (st_nlink final =? st_nlink initial) ||
  negb (access_bits (st_mode final) =? access_bits (st_mode initial)) ||
  (st_size final <? 0) || negb (st_size final =? st_size initial) || negb (st_size final =? used) ||
  negb (pair_eqb (st_mtim final) (st_mtim initial)) || negb (pair_eqb (st_ctim final) (st_ctim initial)).

(** The status and the content when it is [PV_OK]; every event of the schedule
    is one call, and two calls are enough after its end. *)
Definition read_config_file (io : config_io) (initial_info : stat) : M (option (pv_status * list Z)) :=
  ok ← sodium_malloc;
  if negb ok then mret (Some (PV_ERR_NOMEM, [])) else
  mret
    match fill_loop PV_CONFIG_MAX_BYTES (2 + length (r_sched (ci_fd io))) (ci_fd io) [] with
    | None => None
    | Some (status, content, fd) =>
        match (if is_ok status && (zlen content =? PV_CONFIG_MAX_BYTES)
               then read_extra_loop (1 + length (r_sched fd)) fd else Some status) with
        | None => None
        | Some status =>
            let status :=
              if is_ok status then
                match ci_stat_after io with
                | None => PV_ERR_IO
                | Some final => if stat_changed initial_info final (zlen content) then PV_ERR_IO else PV_OK
                end
              else status in
            let status :=
              if is_ok status && (match find_char content 0 with Some _ => true | None => false end)
              then PV_ERR_FORMAT else status in
            if negb (is_ok status) then Some (status, []) else Some (PV_OK, content)
        end
    end.

(** ** Lines *)

(** The status and the new [seen]. *)
Definition mark_key (seen key : Z) : pv_status * Z :=
  if negb (Z.land seen key =? 0) then (PV_ERR_FORMAT, seen) else (PV_OK, Z.lor seen key).

(** The status, the configuration and [seen] after the line. *)
Definition parse_config_line (config : pv_config) (line : list Z) (seen : Z) : pv_status * pv_config * Z :=
  let key := trim line in
  if (znth key 0 =? 0) || (znth key 0 =? 35) then (PV_OK, config, seen) else
  match find_char key 61 with
  | None => (PV_ERR_FORMAT, config, seen)
  | Some equals =>
      let value := trim (drop (Z.to_nat (equals + 1)) key) in
      let key := trim (zsub key 0 equals) in
      let number key_bit min max old set :=
        let '(status, seen) := mark_key seen key_bit in
        if is_ok status then
          let '(status, v) := parse_unsigned value min max old in (status, set v, seen)
        else (status, config, seen) in
      if bytes_eqb key (cstr "vault_path") then
        let '(status, seen) := mark_key seen PV_CONFIG_KEY_VAULT_PATH in
        if negb (is_ok status) || negb (starts_with_slash value) || (PATH_MAX <=? zlen value)
        then (PV_ERR_FORMAT, config, seen)
        else (PV_OK, set_vault_path config value, seen)
      else if bytes_eqb key (cstr "clipboard_ttl_seconds") then
        number PV_CONFIG_KEY_CLIPBOARD_TTL 1 300 (clipboard_ttl config) (set_clipboard_ttl config)
      else if bytes_eqb key (cstr "session_idle_seconds") then
        number PV_CONFIG_KEY_SESSION_TTL 30 86400 (session_ttl config) (set_session_ttl config)
      else if bytes_eqb key (cstr "backup_retention") then
        number PV_CONFIG_KEY_BACKUP_RETENTION 1 1000 (backup_retention config) (set_backup_retention config)
      else if bytes_eqb key (cstr "picker") then
        let '(status, seen) := mark_key seen PV_CONFIG_KEY_PICKER in
        if negb (is_ok status) then (status, config, seen)
        else if bytes_eqb value (cstr "internal") then (PV_OK, set_picker_rofi config false, seen)
        else if bytes_eqb value (cstr "rofi") then (PV_OK, set_picker_rofi config true, seen)
        else (PV_ERR_FORMAT, config, seen)
      else (PV_ERR_FORMAT, config, seen)
  end.

(** Each turn of the loop consumes at least a character. *)
Fixpoint parse_config_loop (fuel : nat) (config : pv_config) (cursor : list Z) (seen : Z) : option (pv_status * pv_config) :=
  match fuel with
  | O => None
  | S fuel =>
      if 0 <? zlen cursor then
        let newline := find_char cursor 10 in
        let line_len := default (zlen cursor) newline in
        if PV_CONFIG_MAX_LINE <? line_len then Some (PV_ERR_LIMIT, config) else
        let '(status, config, seen) := parse_config_line config (zsub cursor 0 line_len) seen in
        if negb (is_ok status) then Some (status, config) else
        parse_config_loop fuel config
          (match newline with Some n => drop (Z.to_nat (n + 1)) cursor | None => [] end) seen
      else Some (PV_OK, config)
  end.

Definition parse_config (config : pv_config) (content : list Z) : option (pv_status * pv_config) :=
  parse_config_loop (S (length content)) config content 0.

(** The status and the contents of [config] afterwards. *)
Definition pv_config_load (getenv : list Z -> option (list Z)) (euid : Z) (io : config_io) (config : pv_config)
  : M (option (pv_status * pv_config)) :=
  let '(status, candidate) := pv_config_defaults getenv in
  let '(status, path) :=
    if is_ok status then xdg_path getenv [] PATH_MAX (cstr "XDG_CONFIG_HOME") (cstr "pvault/config") else (status, []) in
  let '(status, present) := if is_ok status then open_config_file euid io path else (status, None) in
  read ← (match present with
          | Some info => if is_ok status then read_config_file io info else mret (Some (status, []))
          | None => mret (Some (status, []))
          end);
  mret
    match read with
    | None => None
    | Some (status, content) =>
        let fd_open := match present with Some _ => true | None => false end in
        let status := if fd_open && negb (ci_close io) && is_ok status then PV_ERR_IO else status in
        match (if is_ok status && fd_open then parse_config candidate content else Some (status, candidate)) with
        | None => None
        | Some (status, candidate) => Some (status, if is_ok status then candidate else config)
        end
    end.
