(* ===== verification/ConfigProps.v ===== *)
(** * Properties of the configuration

    The parser is compared with a declarative reading of the file: its lines,
    each blank, a comment or one setting, no setting given twice, applied to the
    defaults in any order. *)

From S2P Require Import Prelude Status Util Sys Arena Posix Config.

(** ** The meaning of a configuration file *)

Inductive setting :=
| Set_vault_path (path : list Z)
| Set_clipboard_ttl (n : Z)
| Set_session_ttl (n : Z)
| Set_backup_retention (n : Z)
| Set_picker (rofi : bool).

Definition setting_key (s : setting) : Z :=
  match s with
  | Set_vault_path _ => PV_CONFIG_KEY_VAULT_PATH
  | Set_clipboard_ttl _ => PV_CONFIG_KEY_CLIPBOARD_TTL
  | Set_session_ttl _ => PV_CONFIG_KEY_SESSION_TTL
  | Set_backup_retention _ => PV_CONFIG_KEY_BACKUP_RETENTION
  | Set_picker _ => PV_CONFIG_KEY_PICKER
  end.

Definition apply_setting (c : pv_config) (s : setting) : pv_config :=
  match s with
  | Set_vault_path p => set_vault_path c p
  | Set_clipboard_ttl n => set_clipboard_ttl c n
  | Set_session_ttl n => set_session_ttl c n
  | Set_backup_retention n => set_backup_retention c n
  | Set_picker b => set_picker_rofi c b
  end.

(** The values a setting may have. *)
Definition setting_ok (s : setting) : Prop :=
  match s with
  | Set_vault_path p => starts_with_slash p = true /\ zlen p < PATH_MAX
  | Set_clipboard_ttl n => 1 <= n <= 300
  | Set_session_ttl n => 30 <= n <= 86400
  | Set_backup_retention n => 1 <= n <= 1000
  | Set_picker _ => True
  end.

(** The number a text denotes for [parse_unsigned], if it is within bounds. *)
Definition number_of (value : list Z) (min max : Z) (k : Z -> setting) : option setting :=
  match parse_unsigned value min max 0 with
  | (PV_OK, v) => Some (k v)
  | _ => None
  end.

(** The setting [name = value]. *)
Definition setting_of (name value : list Z) : option setting :=
  if bytes_eqb name (cstr "vault_path") then
    if starts_with_slash value && (zlen value <? PATH_MAX) then Some (Set_vault_path value) else None
  else if bytes_eqb name (cstr "clipboard_ttl_seconds") then number_of value 1 300 Set_clipboard_ttl
  else if bytes_eqb name (cstr "session_idle_seconds") then number_of value 30 86400 Set_session_ttl
  else if bytes_eqb name (cstr "backup_retention") then number_of value 1 1000 Set_backup_retention
  else if bytes_eqb name (cstr "picker") then
    if bytes_eqb value (cstr "internal") then Some (Set_picker false)
    else if bytes_eqb value (cstr "rofi") then Some (Set_picker true) else None
  else None.

(** What a line says: nothing, or one setting; [None] when it is malformed. *)
Definition line_setting (line : list Z) : option (option setting) :=
  let text := trim line in
  if (znth text 0 =? 0) || (znth text 0 =? 35) then Some None else
  match find_char text 61 with
  | None => None
  | Some equals => Some <$> setting_of (trim (zsub text 0 equals)) (trim (drop (Z.to_nat (equals + 1)) text))
  end.

(** The lines of a text; a final newline does not start a line. *)
Fixpoint lines (content : list Z) : list (list Z) :=
  match content with
  | [] => []
  | c :: rest =>
      if c =? 10 then [] :: lines rest
      else match lines rest with
           | [] => [[c]]
           | line :: more => (c :: line) :: more
           end
  end.

(** The file means the settings, in the order of its lines. *)
Inductive means : list (list Z) -> list setting -> Prop :=
| means_nil : means [] []
| means_blank line more ss :
    zlen line <= PV_CONFIG_MAX_LINE -> line_setting line = Some None -> means more ss -> means (line :: more) ss
| means_setting line more s ss :
    zlen line <= PV_CONFIG_MAX_LINE -> line_setting line = Some (Some s) -> means more ss -> means (line :: more) (s :: ss).

Definition apply_settings (c : pv_config) (ss : list setting) : pv_config := fold_left apply_setting ss c.

(** ** Lemmas: one line *)

Lemma parse_unsigned_out value min max out v :
  parse_unsigned value min max out = (PV_OK, v) <-> parse_unsigned value min max 0 = (PV_OK, v).
Proof. unfold parse_unsigned. destruct (strtoul value) as [[p f] r]. split_if; done. Qed.

Lemma parse_unsigned_bounds value min max out v :
  parse_unsigned value min max out = (PV_OK, v) -> min <= v <= max.
Proof.
  unfold parse_unsigned. destruct (strtoul value) as [[p f] r]. intros H. split_if_in H; [done |]. injection H as <-.
  rewrite !orb_false_iff in *. lia.
Qed.

Lemma number_of_iff value min max k s :
  number_of value min max k = Some s <-> exists v, parse_unsigned value min max 0 = (PV_OK, v) /\ s = k v.
Proof.
  unfold number_of. destruct (parse_unsigned value min max 0) as [st v]. split.
  - intros H. destruct st; try done. injection H as <-. eauto.
  - intros (v' & [= -> ->] & ->). done.
Qed.

Lemma setting_of_ok name value s : setting_of name value = Some s -> setting_ok s.
Proof.
  unfold setting_of. intros H.
  repeat match type of H with
  | (if ?b then _ else _) = _ => destruct b eqn:?
  end; try done;
  try (apply number_of_iff in H as (v & Hv & ->); by apply parse_unsigned_bounds in Hv); injection H as <-; try done.
  rewrite andb_true_iff in *. simpl. split; [tauto | lia].
Qed.

Lemma line_setting_ok line s : line_setting line = Some (Some s) -> setting_ok s.
Proof.
  unfold line_setting. cbv zeta. intros H. split_if_in H; [done |]. destruct (find_char _ 61); [| done].
  destruct (setting_of _ _) eqn:E; [| done]. injection H as <-. by eapply setting_of_ok.
Qed.

(** The outcome of a setting on a configuration where [seen] are set. *)
Definition line_effect (config : pv_config) (seen : Z) (o : option setting) (c : pv_config) (seen' : Z) : Prop :=
  exists s, o = Some s /\ Z.land seen (setting_key s) = 0 /\ c = apply_setting config s /\ seen' = Z.lor seen (setting_key s).

Lemma mark_key_ok seen key seen' :
  mark_key seen key = (PV_OK, seen') <-> Z.land seen key = 0 /\ seen' = Z.lor seen key.
Proof.
  unfold mark_key. destruct (Z.eqb_spec (Z.land seen key) 0); simpl; (split; [intros [= <-] | intros [? ->]]); done.
Qed.

Lemma number_branch config value seen key min max old set k c seen' :
  (forall v, set v = apply_setting config (k v)) -> (forall v, setting_key (k v) = key) ->
  (let '(status, seen1) := mark_key seen key in
   if is_ok status then let '(st, v) := parse_unsigned value min max old in (st, set v, seen1)
   else (status, config, seen1)) = (PV_OK, c, seen') <->
  line_effect config seen (number_of value min max k) c seen'.
Proof.
  intros Hset Hk. destruct (mark_key seen key) as [st seen1] eqn:Em. split.
  - intros H. destruct (is_ok st) eqn:Es; [| by injection H as ->]. apply is_ok_true in Es as ->.
    apply mark_key_ok in Em as [Hl ->]. destruct (parse_unsigned value min max old) as [st v] eqn:Ep. injection H as -> <- <-.
    apply parse_unsigned_out in Ep. exists (k v). rewrite Hk, Hset. split_and!; try done. apply number_of_iff. eauto.
  - intros (s & Hn & Hl & -> & ->). apply number_of_iff in Hn as (v & Hp & ->). rewrite Hk in *.
    assert (st = PV_OK /\ seen1 = Z.lor seen key) as [-> ->].
    { rewrite (proj2 (mark_key_ok seen key (Z.lor seen key)) (conj Hl eq_refl)) in Em. by injection Em as <- <-. }
    cbn [is_ok]. apply (parse_unsigned_out _ _ _ old) in Hp. by rewrite Hp, Hset.
Qed.

Lemma path_branch config value seen c seen' :
  (let '(status, seen1) := mark_key seen PV_CONFIG_KEY_VAULT_PATH in
   if negb (is_ok status) || negb (starts_with_slash value) || (PATH_MAX <=? zlen value)
   then (PV_ERR_FORMAT, config, seen1) else (PV_OK, set_vault_path config value, seen1)) = (PV_OK, c, seen') <->
  line_effect config seen
    (if starts_with_slash value && (zlen value <? PATH_MAX) then Some (Set_vault_path value) else None) c seen'.
Proof.
  rewrite Z.ltb_antisym. unfold mark_key, line_effect.
  destruct (starts_with_slash value), (PATH_MAX <=? zlen value), (Z.eqb_spec (Z.land seen PV_CONFIG_KEY_VAULT_PATH) 0); simpl;
    (split; [intros H; try done; injection H as <- <-; eauto 6 | intros (s & Hs & Hl & -> & ->); try done; by injection Hs as <-]).
Qed.

Lemma picker_branch config value seen c seen' :
  (let '(status, seen1) := mark_key seen PV_CONFIG_KEY_PICKER in
   if negb (is_ok status) then (status, config, seen1)
   else if bytes_eqb value (cstr "internal") then (PV_OK, set_picker_rofi config false, seen1)
   else if bytes_eqb value (cstr "rofi") then (PV_OK, set_picker_rofi config true, seen1)
   else (PV_ERR_FORMAT, config, seen1)) = (PV_OK, c, seen') <->
  line_effect config seen
    (if bytes_eqb value (cstr "internal") then Some (Set_picker false)
     else if bytes_eqb value (cstr "rofi") then Some (Set_picker true) else None) c seen'.
Proof.
  unfold mark_key, line_effect.
  destruct (bytes_eqb value (cstr "internal")), (bytes_eqb value (cstr "rofi")), (Z.eqb_spec (Z.land seen PV_CONFIG_KEY_PICKER) 0); simpl;
    (split; [intros H; try done; injection H as <- <-; eauto 6 | intros (s & Hs & Hl & -> & ->); try done; by injection Hs as <-]).
Qed.

(** A line is accepted exactly when it says nothing or gives a setting not seen yet. *)
Lemma parse_config_line_iff config line seen c seen' :
  parse_config_line config line seen = (PV_OK, c, seen') <->
  match line_setting line with
  | None => False
  | Some None => c = config /\ seen' = seen
  | Some o => line_effect config seen o c seen'
  end.
Proof.
  unfold parse_config_line, line_setting. cbv zeta. destruct ((znth (trim line) 0 =? 0) || (znth (trim line) 0 =? 35)).
  { split; [by intros [= <- <-] | by intros [-> ->]]. }
  destruct (find_char (trim line) 61) as [equals |]; [| done].
  set (value := trim (drop _ _)). set (name := trim (zsub _ _ _)).
  assert (Hbranch : forall o, line_effect config seen o c seen' <->
    match Some <$> o with None => False | Some None => c = config /\ seen' = seen | Some o => line_effect config seen o c seen' end).
  { intros [s |]; simpl; [done |]. split; [by intros (s & ? & _) | done]. }
  rewrite <- Hbranch. unfold setting_of.
  destruct (bytes_eqb name (cstr "vault_path")); [apply path_branch |].
  do 3 (destruct (bytes_eqb name _); [by apply number_branch |]).
  destruct (bytes_eqb name (cstr "picker")); [apply picker_branch |].
  split; [done | by intros (s & ? & _)].
Qed.

(** ** Lemmas: the lines *)

Definition rest_of (cursor : list Z) : list Z :=
  match find_char cursor 10 with Some n => drop (Z.to_nat (n + 1)) cursor | None => [] end.

Lemma lines_unfold cursor : cursor <> [] ->
  lines cursor = zsub cursor 0 (default (zlen cursor) (find_char cursor 10)) :: lines (rest_of cursor).
Proof.
  unfold rest_of. induction cursor as [| c cursor IH]; intros Hne; [done |]. cbn [lines find_char].
  destruct (Z.eqb_spec c 10) as [-> | Hc]; [by rewrite zsub_0 |].
  destruct cursor as [| c2 cursor]; [done |]. rewrite IH by done. set (l := c2 :: cursor) in *. clearbody l.
  destruct (find_char l 10) as [n |] eqn:E; cbn [option_map default from_option id].
  - apply find_char_Some in E as (Hn & _ & _). rewrite !zsub_0. replace (Z.to_nat (1 + n)) with (S (Z.to_nat n)) by lia.
    replace (Z.to_nat (1 + n + 1)) with (S (Z.to_nat (n + 1))) by lia. done.
  - by rewrite !zsub_all.
Qed.

Lemma rest_of_shorter cursor : cursor <> [] -> (length (rest_of cursor) < length cursor)%nat.
Proof.
  intros Hne. unfold rest_of. destruct (find_char cursor 10) as [n |] eqn:E.
  - apply find_char_Some in E as (Hn & _ & _). rewrite length_drop. unfold zlen in *. lia.
  - destruct cursor; [done | simpl; lia].
Qed.

(** The settings are pairwise distinct and not among the bits of [seen]. *)
Fixpoint fresh (seen : Z) (ss : list setting) : Prop :=
  match ss with
  | [] => True
  | s :: ss => Z.land seen (setting_key s) = 0 /\ fresh (Z.lor seen (setting_key s)) ss
  end.

Lemma parse_loop_iff fuel config cursor seen c :
  (length cursor < fuel)%nat ->
  parse_config_loop fuel config cursor seen = Some (PV_OK, c) <->
  exists ss, means (lines cursor) ss /\ fresh seen ss /\ c = apply_settings config ss.
Proof.
  revert config cursor seen. induction fuel as [| fuel IH]; intros config cursor seen Hf; [lia |]. cbn [parse_config_loop].
  destruct (Z.ltb_spec 0 (zlen cursor)) as [Hpos | Hz].
  2: { assert (cursor = []) as -> by (destruct cursor; [done | zlia]). cbn [lines]. split.
       - intros [= ->]. exists []. split_and!; [constructor | done | done].
       - intros (ss & Hm & _ & ->). inv Hm. done. }
  assert (Hne : cursor <> []) by (by intros ->). rewrite (lines_unfold cursor Hne).
  pose proof (rest_of_shorter cursor Hne) as Hrest. fold (rest_of cursor). cbv zeta.
  assert (Hlen : zlen (zsub cursor 0 (default (zlen cursor) (find_char cursor 10))) = default (zlen cursor) (find_char cursor 10)).
  { apply zlen_zsub; [lia | |]; destruct (find_char cursor 10) eqn:E; cbn [default from_option id]; try lia;
      apply find_char_Some in E as (? & _ & _); lia. }
  set (line := zsub cursor 0 _) in *. rewrite <- Hlen. destruct (Z.ltb_spec PV_CONFIG_MAX_LINE (zlen line)) as [Hlong | Hok].
  { split; [done |]. intros (ss & Hm & _). inv Hm; lia. }
  destruct (parse_config_line config line seen) as [[st config'] seen'] eqn:E.
  destruct (is_ok st) eqn:Est; cbn [negb].
  - apply is_ok_true in Est as ->. apply parse_config_line_iff in E. rewrite IH by lia.
    destruct (line_setting line) as [[s |] |] eqn:El; [| | done].
    + destruct E as (s' & [= <-] & Hl & -> & ->). split.
      * intros (ss & Hm & Hfr & ->). exists (s :: ss). split_and!; [by apply means_setting | by split | done].
      * intros (ss & Hm & Hfr & ->). inversion Hm as [| ? ? ? _ Hb Hm' | ? ? t ? _ Hb Hm']; subst; rewrite El in Hb; [done |].
        injection Hb as <-. destruct Hfr as [_ Hfr]. eauto.
    + destruct E as [-> ->]. split.
      * intros (ss & Hm & Hfr & ->). exists ss. split_and!; [by apply means_blank | done | done].
      * intros (ss & Hm & Hfr & ->). inversion Hm as [| ? ? ? _ Hb Hm' | ? ? t ? _ Hb Hm']; subst; rewrite El in Hb; [eauto | done].
  - split; [intros [= -> _]; done |]. intros (ss & Hm & Hfr & ->). exfalso.
    assert (Hacc : exists c2 seen2, parse_config_line config line seen = (PV_OK, c2, seen2)).
    { inv Hm; [exists config, seen | destruct Hfr as [Hl _]; exists (apply_setting config s), (Z.lor seen (setting_key s))];
        apply parse_config_line_iff; match goal with H : line_setting line = _ |- _ => rewrite H end; [done |]. by exists s. }
    destruct Hacc as (c2 & seen2 & Hacc). rewrite Hacc in E. by injection E as <- _ _.
Qed.

Lemma parse_loop_total fuel config cursor seen :
  (length cursor < fuel)%nat -> exists st c, parse_config_loop fuel config cursor seen = Some (st, c).
Proof.
  revert config cursor seen. induction fuel as [| fuel IH]; intros config cursor seen Hf; [lia |]. cbn [parse_config_loop].
  destruct (Z.ltb_spec 0 (zlen cursor)) as [Hpos | Hz]; [| eauto]. assert (Hne : cursor <> []) by (by intros ->).
  pose proof (rest_of_shorter cursor Hne). cbv zeta. split_if; [eauto |].
  destruct (parse_config_line _ _ seen) as [[st c] seen']. split_if; [eauto |]. apply IH. fold (rest_of cursor). lia.
Qed.

(** ** Lemmas: distinct settings *)

Lemma keys_disjoint s t : Z.land (setting_key s) (setting_key t) = 0 <-> setting_key s <> setting_key t.
Proof. destruct s, t; cbn; split; done. Qed.

Lemma fresh_iff seen ss :
  fresh seen ss <-> Forall (fun s => Z.land seen (setting_key s) = 0) ss /\ NoDup (map setting_key ss).
Proof.
  revert seen. induction ss as [| s ss IH]; intros seen; cbn [fresh map]; [split; [repeat constructor | done] |].
  rewrite IH, list.NoDup_cons, Forall_cons_iff, list_elem_of_In, in_map_iff.
  assert (Hlor : Forall (fun t => Z.land (Z.lor seen (setting_key s)) (setting_key t) = 0) ss <->
    Forall (fun t => Z.land seen (setting_key t) = 0) ss /\ ~ exists t, setting_key t = setting_key s /\ In t ss).
  { rewrite !List.Forall_forall. split.
    - intros H. split; [| intros (t & Hk & Hin)]; [intros t Hin | ]; specialize (H t Hin); rewrite Z.land_lor_distr_l, Z.lor_eq_0_iff in H;
        [apply H |]. destruct H as [_ H]. by apply keys_disjoint in H.
    - intros [H1 H2] t Hin. rewrite Z.land_lor_distr_l, Z.lor_eq_0_iff. split; [by apply H1 |]. apply keys_disjoint. intros E.
      apply H2. by exists t. }
  rewrite Hlor. tauto.
Qed.

Lemma apply_comm c s t :
  setting_key s <> setting_key t -> apply_setting (apply_setting c s) t = apply_setting (apply_setting c t) s.
Proof. by destruct s, t. Qed.

Lemma apply_settings_perm c ss ts :
  Permutation ss ts -> NoDup (map setting_key ss) -> apply_settings c ss = apply_settings c ts.
Proof.
  intros Hp. revert c. unfold apply_settings. induction Hp as [| s ss ts Hp IH | s t ss | ss ts us Hp1 IH1 Hp2 IH2]; intros c Hn.
  - done.
  - cbn. apply IH. by inv Hn.
  - cbn. f_equal. apply apply_comm. cbn [map] in Hn. rewrite list.NoDup_cons in Hn. destruct Hn as [Hn _]. intros E. apply Hn. rewrite E. apply list_elem_of_here.
  - rewrite IH1 by done. apply IH2. by rewrite <- (Permutation_map setting_key Hp1).
Qed.

(** ** Lemmas: reading the file *)

Lemma read_extra_total fd fuel : (length (r_sched fd) < fuel)%nat ->
  exists st, read_extra_loop fuel fd = Some st /\ (benign (r_sched fd) -> r_data fd = [] -> st = PV_OK).
Proof.
  revert fd. induction fuel as [| fuel IH]; intros [data s] Hf; [lia |]. cbn [read_extra_loop]. unfold read. cbn [r_sched r_data] in *.
  destruct s as [| [| | | k] s]; cbn [length] in Hf.
  - destruct data; eexists; (split; [reflexivity | done]).
  - destruct (IH (mk_rfd data s)) as (st & -> & Hb); [simpl; lia |]. exists st. split; [done |]. cbn [r_sched r_data] in Hb.
    intros Hn Hd. apply Forall_cons_iff in Hn as [_ Hn]. auto.
  - eexists. split; [reflexivity |]. intros Hn. apply Forall_cons_iff in Hn as [[? _] _]. done.
  - eexists. split; [reflexivity | done].
  - cbv zeta. destruct (zsub data 0 _) eqn:E; eexists; (split; [reflexivity |]); [done |]. intros _ ->. rewrite zsub_0, take_nil in E. done.
Qed.

(** The content of a file that does not change while it is read. *)
Lemma read_config_file_spec io info s :
  exists st content s', read_config_file io info s = (Some (st, content), s') /\
    (st = PV_OK -> Forall (fun c => c <> 0) content /\ zlen content = st_size info) /\
    (s_malloc s 0%nat = true -> benign (r_sched (ci_fd io)) -> ci_stat_after io = Some info ->
     st_size info = zlen (r_data (ci_fd io)) -> zlen (r_data (ci_fd io)) <= PV_CONFIG_MAX_BYTES ->
     Forall (fun c => c <> 0) (r_data (ci_fd io)) -> st = PV_OK /\ content = r_data (ci_fd io)).
Proof.
  unfold read_config_file. rewrite bind_run. destruct (sodium_malloc s) as [ok s1] eqn:Em.
  assert (Hm : s_malloc s 0%nat = ok) by (unfold sodium_malloc in Em; by injection Em).
  destruct ok; cbn [negb]; [| eexists _, _, _; split; [reflexivity | split; [done |]]; rewrite Hm; done].
  destruct (fill_file_spec PV_CONFIG_MAX_BYTES (ci_fd io) ltac:(by vm_compute)) as (st & content & fd & -> & Hl & Hst & Hb).
  assert (Hextra : exists st2, (if is_ok st && (zlen content =? PV_CONFIG_MAX_BYTES)
      then read_extra_loop (1 + length (r_sched fd)) fd else Some st) = Some st2 /\
      (benign (r_sched (ci_fd io)) -> zlen (r_data (ci_fd io)) <= PV_CONFIG_MAX_BYTES -> st2 = PV_OK /\ content = r_data (ci_fd io))).
  { destruct (is_ok st && (zlen content =? PV_CONFIG_MAX_BYTES)) eqn:Ef.
    - destruct (read_extra_total fd (1 + length (r_sched fd)) ltac:(lia)) as (st2 & -> & He). exists st2. split; [done |].
      intros Hn Hlen. destruct (Hb Hn) as (_ & _ & Hend & Heq & Hs).
      assert (r_data fd = []) as Hnil.
      { apply (f_equal zlen) in Heq. rewrite zlen_app in Heq. rewrite andb_true_iff in Ef.
        assert (zlen (r_data fd) <= 0) as Hz by lia. destruct (r_data fd); [done | rewrite zlen_cons in Hz; pose proof (zlen_nonneg l); lia]. }
      split; [by apply He |]. by rewrite <- Heq, Hnil, app_nil_r.
    - exists st. split; [done |]. intros Hn Hlen. destruct (Hb Hn) as (-> & _ & Hend & Heq & _). split; [done |].
      destruct Hend as [Hend | Hend]; [by rewrite Hend, Z.eqb_refl in Ef |]. by rewrite <- Heq, Hend, app_nil_r. }
  destruct Hextra as (st2 & -> & Hok). set (st3 := if is_ok st2 then _ else _). set (st4 := if is_ok st3 && _ then _ else _).
  exists st4, (if is_ok st4 then content else []), s1. split; [| split].
  - unfold mret, M_ret. destruct (is_ok st4) eqn:E4; cbn [negb]; [apply is_ok_true in E4 as ->|]; done.
  - intros E4. rewrite E4. cbn [is_ok]. unfold st4 in E4. destruct (find_char content 0) eqn:Ef.
    { destruct (is_ok st3) eqn:E3; cbn [andb] in E4; [done |]. by rewrite E4 in E3. }
    split; [by apply find_char_None |]. rewrite andb_false_r in E4. unfold st3 in E4. destruct (is_ok st2) eqn:E2; [| by rewrite E4 in E2].
    destruct (ci_stat_after io) as [final |]; [| done]. destruct (stat_changed info final (zlen content)) eqn:Es; [done |].
    unfold stat_changed in Es. rewrite !orb_false_iff, !negb_false_iff in Es. lia.
  - intros _ Hn Ha Hsize Hlen Hz. destruct (Hok Hn Hlen) as [-> ->]. assert (st3 = PV_OK) as E3.
    { unfold st3. cbn [is_ok]. rewrite Ha. unfold stat_changed, pair_eqb. rewrite Hsize, !Z.eqb_refl. cbn [negb orb andb].
      by replace (zlen (r_data (ci_fd io)) <? 0) with false by zlia. }
    unfold st4. rewrite E3. rewrite (proj2 (find_char_None _ 0) Hz). done.
Qed.

(** ** Lemmas: loading *)

(** The bounds the rest of the program relies on. *)
Definition config_ok (c : pv_config) : Prop :=
  starts_with_slash (vault_path c) = true /\ zlen (vault_path c) < PATH_MAX /\
  1 <= clipboard_ttl c <= 300 /\ 30 <= session_ttl c <= 86400 /\ 1 <= backup_retention c <= 1000.

Lemma apply_setting_ok c s : config_ok c -> setting_ok s -> config_ok (apply_setting c s).
Proof. unfold config_ok. destruct s; simpl; tauto. Qed.

Lemma means_ok ls ss : means ls ss -> Forall setting_ok ss.
Proof. induction 1; [constructor | done |]. constructor; [by eapply line_setting_ok | done]. Qed.

Lemma apply_settings_ok c ss : config_ok c -> Forall setting_ok ss -> config_ok (apply_settings c ss).
Proof. intros Hc Hs. revert c Hc. induction Hs as [| s ss Hs _ IH]; intros c Hc; [done |]. by apply IH, apply_setting_ok. Qed.

Lemma starts_with_slash_app s t : starts_with_slash s = true -> starts_with_slash (s ++ t) = true.
Proof. unfold starts_with_slash, znth. by destruct s. Qed.

Lemma print_path_ok text out_len out :
  print_path text out_len = (PV_OK, out) -> out = text /\ zlen text < out_len.
Proof.
  unfold print_path. intros H. split_if_in H; [done |]. injection H as <-. split; [| lia].
  rewrite zsub_0. apply firstn_all2. unfold zlen in *. lia.
Qed.

Lemma xdg_path_ok getenv out out_len name suffix path :
  xdg_path getenv out out_len name suffix = (PV_OK, path) -> starts_with_slash path = true /\ zlen path < out_len.
Proof.
  unfold xdg_path. cbv zeta. intros H.
  repeat match type of H with
  | match ?x with _ => _ end = _ => destruct x eqn:?; try done
  end; apply print_path_ok in H as [-> Hl]; (split; [| done]); apply starts_with_slash_app; try done;
  rewrite negb_false_iff in *; done.
Qed.

Lemma defaults_ok getenv c : pv_config_defaults getenv = (PV_OK, c) -> config_ok c.
Proof.
  unfold pv_config_defaults. destruct (xdg_path _ _ _ _ _) as [st path] eqn:E. intros H.
  destruct (is_ok st) eqn:Est; cbn [negb] in H; [| by injection H as -> _]. apply is_ok_true in Est as ->. injection H as <-.
  apply xdg_path_ok in E as [Hs Hl]. unfold config_ok. cbn. split_and!; try done; by vm_compute.
Qed.

Lemma parse_config_iff config content c :
  parse_config config content = Some (PV_OK, c) <->
  exists ss, means (lines content) ss /\ NoDup (map setting_key ss) /\ c = apply_settings config ss.
Proof.
  unfold parse_config. rewrite parse_loop_iff by lia. split; intros (ss & Hm & Hf & ->); exists ss; split_and!; auto.
  - by apply fresh_iff in Hf as [_ Hf].
  - apply fresh_iff. split; [| done]. apply Forall_forall. intros s _. apply Z.land_0_l.
Qed.

(** ** Properties *)

(** [pv_config_load] always returns, whatever the environment, the file and
    the kernel answer: on failure the caller's configuration is untouched, and on
    success the vault path is absolute and fits, and the timeouts and the backup
    retention are within their documented bounds. *)
Theorem config_load_safe (getenv : list Z -> option (list Z)) (euid : Z) (io : config_io) (config : pv_config) (s : sys) :
  exists st c s', pv_config_load getenv euid io config s = (Some (st, c), s') /\
    (st <> PV_OK -> c = config) /\ (st = PV_OK -> config_ok c).
Proof.
  unfold pv_config_load. destruct (pv_config_defaults getenv) as [st0 cand] eqn:Ed.
  destruct (if is_ok st0 then _ else _) as [st1 path] eqn:E1.
  destruct (if is_ok st1 then open_config_file euid io path else (st1, None)) as [st2 present] eqn:E2. rewrite bind_run.
  assert (Hread : exists st3 content s', match present with
      | Some info => if is_ok st2 then read_config_file io info else mret (Some (st2, []))
      | None => mret (Some (st2, [])) end s = (Some (st3, content), s') /\ (st3 = PV_OK -> st2 = PV_OK)).
  { destruct present as [info |]; [| by eexists _, _, _]. destruct (is_ok st2) eqn:Es; [| by eexists _, _, _].
    destruct (read_config_file_spec io info s) as (st3 & content & s' & -> & _). apply is_ok_true in Es. eauto. }
  destruct Hread as (st3 & content & s' & -> & Hst3).
  assert (Hcand : st2 = PV_OK -> config_ok cand).
  { intros ->. destruct (is_ok st1) eqn:Es1; [| by injection E2 as -> _]. destruct (is_ok st0) eqn:Es0; [| injection E1 as <- _; by rewrite Es0 in Es1].
    apply is_ok_true in Es0 as ->. by eapply defaults_ok. }
  set (st4 := if _ && is_ok st3 then PV_ERR_IO else st3).
  assert (Hst4 : st4 = PV_OK -> st3 = PV_OK) by (unfold st4; by split_if).
  destruct (is_ok st4 && _) eqn:Ep.
  - apply andb_true_iff in Ep as [Ep _]. apply is_ok_true in Ep. destruct (parse_loop_total (S (length content)) cand content 0 ltac:(lia)) as (st5 & c5 & Hp).
    fold (parse_config cand content) in Hp.
    unfold mret, M_ret. rewrite Hp. exists st5, (if is_ok st5 then c5 else config), s'. split_and!; [done | |].
    + intros Hne. destruct (is_ok st5) eqn:Es; [by apply is_ok_true in Es | done].
    + intros ->. cbn [is_ok]. apply parse_config_iff in Hp as (ss & Hm & _ & ->). apply apply_settings_ok; [auto | by eapply means_ok].
  - unfold mret, M_ret. eexists _, _, _. split_and!; [reflexivity | |]; [intros Hne; destruct (is_ok st4) eqn:Es; [by apply is_ok_true in Es | done] |].
    intros E4. rewrite E4. cbn [is_ok]. auto.
Qed.

(** ** A printed configuration *)


Definition config_line (name value : list Z) : list Z := name ++ 61 :: value ++ [10].

Definition print_config (c : pv_config) : list Z :=
  config_line (cstr "vault_path") (vault_path c) ++
  config_line (cstr "clipboard_ttl_seconds") (decimal (clipboard_ttl c)) ++
  config_line (cstr "session_idle_seconds") (decimal (session_ttl c)) ++
  config_line (cstr "backup_retention") (decimal (backup_retention c)) ++
  config_line (cstr "picker") (if picker_rofi c then cstr "rofi" else cstr "internal").

Lemma decimal_loop_value fuel n acc :
  0 <= n < 10 ^ Z.of_nat fuel -> strtoul_digits (decimal_loop fuel n acc) 0 = strtoul_digits acc n.
Proof.
  revert n acc. induction fuel as [| fuel IH]; intros n acc Hn; [simpl in Hn; by replace n with 0 by lia |]. cbn [decimal_loop]. cbv zeta.
  pose proof (Z.mod_pos_bound n 10 ltac:(lia)). destruct (Z.ltb_spec n 10).
  - rewrite Z.mod_small by lia. cbn [strtoul_digits]. replace ((48 <=? 48 + n) && (48 + n <=? 57)) with true by lia.
    f_equal. lia.
  - rewrite IH.
    + cbn [strtoul_digits]. replace ((48 <=? 48 + n mod 10) && (48 + n mod 10 <=? 57)) with true by lia.
      f_equal. pose proof (Z.div_mod n 10). lia.
    + rewrite Nat2Z.inj_succ, Z.pow_succ_r in Hn by lia. split; [apply Z.div_pos; lia | apply Z.div_lt_upper_bound; lia].
Qed.

Definition is_decimal (c : Z) : Prop := 48 <= c <= 57.

Lemma decimal_loop_digits fuel n acc : 0 <= n -> Forall is_decimal acc -> Forall is_decimal (decimal_loop fuel n acc).
Proof.
  revert n acc. induction fuel as [| fuel IH]; intros n acc Hn Ha; [done |]. cbn [decimal_loop]. cbv zeta.
  pose proof (Z.mod_pos_bound n 10 ltac:(lia)). assert (Forall is_decimal ((48 + n mod 10) :: acc)) by (constructor; [unfold is_decimal; lia | done]).
  split_if; [done |]. apply IH; [apply Z.div_pos; lia | done].
Qed.

Lemma decimal_loop_cons fuel n acc : acc <> [] \/ (0 < fuel)%nat -> decimal_loop fuel n acc <> [].
Proof.
  revert n acc. induction fuel as [| fuel IH]; intros n acc H; [destruct H; [done | lia] |]. cbn [decimal_loop]. cbv zeta.
  split_if; [done |]. apply IH. by left.
Qed.

(** Texts without surrounding spaces. *)
Definition solid (l : list Z) : Prop :=
  l <> [] /\ ascii_space (znth l 0) = false /\ ascii_space (znth l (zlen l - 1)) = false.

Lemma znth_last (l : list Z) d : znth (l ++ [d]) (zlen (l ++ [d]) - 1) = d.
Proof.
  unfold znth, zlen. rewrite length_app. cbn [length]. replace (Z.to_nat (Z.of_nat (length l + 1) - 1)) with (length l) by lia.
  rewrite app_nth2 by lia. by rewrite Nat.sub_diag.
Qed.

Lemma trim_solid l : solid l -> trim l = l.
Proof.
  intros (Hne & Hf & Hl). destruct l as [| c l]; [done |]. unfold trim. cbn [skip_ascii_space]. change (znth (c :: l) 0) with c in Hf.
  rewrite Hf. destruct l as [| d l _] using rev_ind; [done |]. rewrite app_comm_cons, znth_last in Hl.
  rewrite rev_app_distr. cbn [rev app skip_ascii_space]. rewrite Hl. cbn [rev]. by rewrite rev_involutive.
Qed.

Lemma solid_join (name value : list Z) : solid name -> solid value -> solid (name ++ 61 :: value).
Proof.
  intros (Hn & Hf & _) (Hv & _ & Hl). split; [by destruct name |]. split; [by destruct name |].
  destruct value as [| d value _] using rev_ind; [done |]. rewrite znth_last in Hl. by rewrite app_comm_cons, app_assoc, znth_last.
Qed.

Lemma decimal_solid l : l <> [] -> Forall is_decimal l -> solid l.
Proof.
  intros Hne Hd. assert (Hs : forall i, 0 <= i < zlen l -> ascii_space (znth l i) = false).
  { intros i Hi. rewrite List.Forall_forall in Hd. assert (is_decimal (znth l i)) as Hc by (apply Hd, nth_In; unfold zlen in Hi; lia).
    unfold is_decimal in Hc. unfold ascii_space. lia. }
  assert (0 < zlen l) by (destruct l; [done | zlia]). split_and!; [done | apply Hs; lia | apply Hs; lia].
Qed.

Lemma strtoul_digits_decimal l acc : Forall is_decimal l -> snd (strtoul_digits l acc) = [].
Proof.
  intros H. revert acc. induction H as [| c l Hc _ IH]; intros acc; [done |]. cbn [strtoul_digits]. unfold is_decimal in Hc.
  by replace ((48 <=? c) && (c <=? 57)) with true by lia.
Qed.

Lemma parse_decimal n min max out : 0 <= min -> min <= n <= max -> max < 10 ^ 19 -> parse_unsigned (decimal n) min max out = (PV_OK, n).
Proof.
  intros Hmin Hn Hmax. change (10 ^ 19) with 10000000000000000000 in Hmax.
  assert (Hd : Forall is_decimal (decimal n)) by (apply decimal_loop_digits; [lia | constructor]).
  assert (Hne : decimal n <> []) by (apply decimal_loop_cons; right; lia).
  assert (Hv : strtoul_digits (decimal n) 0 = (n, [])).
  { unfold decimal. rewrite decimal_loop_value; [done |]. change (10 ^ Z.of_nat 20) with 100000000000000000000. lia. }
  destruct (decimal n) as [| c l] eqn:E; [done |]. apply Forall_cons_iff in Hd as [Hc _]. unfold is_decimal in Hc.
  unfold parse_unsigned, strtoul. cbn [skip_ascii_space]. replace (ascii_space c) with false by (unfold ascii_space; lia).
  cbn [strtoul_sign]. replace (c =? 45) with false by lia. replace (c =? 43) with false by lia. rewrite Hv.
  rewrite zlen_cons. change (zlen (@nil Z)) with 0. pose proof (zlen_nonneg l). replace (0 =? 1 + zlen l) with false by lia.
  replace (UINT64_MAX <? n) with false by (unfold UINT64_MAX; lia). change (zlen (@nil Z)) with 0. replace (0 =? 1 + zlen l) with false by lia.
  cbn [orb]. change (0 =? 0) with true. cbn [negb orb]. replace (n <? min) with false by lia. by replace (max <? n) with false by lia.
Qed.

Lemma line_setting_printed name value :
  solid name -> solid value -> Forall (fun c => c <> 61) name -> znth name 0 <> 0 -> znth name 0 <> 35 ->
  line_setting (name ++ 61 :: value) = Some <$> setting_of name value.
Proof.
  intros Hn Hv Heq H0 H35. unfold line_setting. cbv zeta. rewrite trim_solid by (by apply solid_join).
  assert (znth (name ++ 61 :: value) 0 = znth name 0) as -> by (destruct Hn as (? & _); by destruct name).
  replace (znth name 0 =? 0) with false by lia. replace (znth name 0 =? 35) with false by lia. cbn [orb].
  rewrite find_char_app_r by done. rewrite zsub_app_l, zsub_all by (try lia; apply zlen_nonneg). rewrite (trim_solid name) by done.
  do 2 f_equal. rewrite <- (trim_solid value) at 2 by done. f_equal. unfold zlen.
  replace (Z.to_nat (Z.of_nat (length name) + 1)) with (length name + 1)%nat by lia. rewrite <- drop_drop, drop_app_length. done.
Qed.

Lemma lines_printed name value rest :
  Forall (fun c => c <> 10) name -> Forall (fun c => c <> 10) value ->
  lines (config_line name value ++ rest) = (name ++ 61 :: value) :: lines rest.
Proof.
  intros Hn Hv. assert (H : forall l, Forall (fun c => c <> 10) l -> lines (l ++ 10 :: rest) = l :: lines rest).
  { induction 1 as [| c l Hc _ IH]; [done |]. cbn [app lines]. destruct (Z.eqb_spec c 10); [done |]. by rewrite IH. }
  unfold config_line. rewrite <- app_assoc, <- app_comm_cons, <- app_assoc, app_comm_cons, app_assoc. apply H.
  apply Forall_app_2; [done |]. by constructor.
Qed.

Lemma decimal_loop_length fuel n acc : (length (decimal_loop fuel n acc) <= fuel + length acc)%nat.
Proof.
  revert n acc. induction fuel as [| fuel IH]; intros n acc; [done |]. cbn [decimal_loop]. cbv zeta.
  split_if; [simpl; lia |]. etrans; [apply IH |]. simpl. lia.
Qed.

(** Names and numbers of a printed line. *)
Definition plain_name (name : list Z) : Prop :=
  solid name /\ Forall (fun c => c <> 61) name /\ znth name 0 <> 0 /\ znth name 0 <> 35 /\ Forall (fun c => c <> 10) name /\ zlen name <= 100.

(** One printed line, then the rest. *)
Lemma means_printed name value rest s ss :
  plain_name name -> solid value -> Forall (fun c => c <> 10) value -> zlen value <= PATH_MAX ->
  setting_of name value = Some s -> means (lines rest) ss -> means (lines (config_line name value ++ rest)) (s :: ss).
Proof.
  intros (Hs & Heq & H0 & H35 & Hnl & Hlen) Hv Hvn Hvl Hset Hm. rewrite lines_printed by done. apply means_setting; [| | done].
  - rewrite zlen_app, zlen_cons. unfold PV_CONFIG_MAX_LINE, PATH_MAX in *. lia.
  - rewrite line_setting_printed by done. by rewrite Hset.
Qed.

Lemma decimal_value n : 0 <= n -> solid (decimal n) /\ Forall (fun c => c <> 10) (decimal n) /\ zlen (decimal n) <= PATH_MAX.
Proof.
  intros Hn. assert (Hd : Forall is_decimal (decimal n)) by (apply decimal_loop_digits; [lia | constructor]). split_and!.
  - apply decimal_solid; [| done]. apply decimal_loop_cons. right. lia.
  - eapply Forall_impl; [| exact Hd]. unfold is_decimal. simpl. lia.
  - pose proof (decimal_loop_length 20 n []) as H. fold (decimal n) in H. unfold zlen, PATH_MAX. simpl in H. lia.
Qed.

Lemma number_printed n min max k : 0 <= min -> min <= n <= max -> max < 10 ^ 19 -> number_of (decimal n) min max k = Some (k n).
Proof. intros. unfold number_of. by rewrite parse_decimal. Qed.

Lemma setting_clipboard v : setting_of (cstr "clipboard_ttl_seconds") v = number_of v 1 300 Set_clipboard_ttl.
Proof. reflexivity. Qed.

Lemma setting_session v : setting_of (cstr "session_idle_seconds") v = number_of v 30 86400 Set_session_ttl.
Proof. reflexivity. Qed.

Lemma setting_retention v : setting_of (cstr "backup_retention") v = number_of v 1 1000 Set_backup_retention.
Proof. reflexivity. Qed.

Ltac plain := repeat split; try (by vm_compute); repeat constructor; done.

(** A configuration within its bounds, printed in the documented format, is
    read back exactly, whatever the configuration it is applied to; the path must
    not contain a newline or end with a space. *)
Theorem config_roundtrip (c base : pv_config) (Hok : config_ok c)
    (Hnl : Forall (fun x => x <> 10) (vault_path c))
    (Hsp : ascii_space (znth (vault_path c) (zlen (vault_path c) - 1)) = false) :
  parse_config base (print_config c) = Some (PV_OK, c).
Proof.
  destruct Hok as (Hs & Hl & Hc & Hss & Hb). apply parse_config_iff.
  exists [Set_vault_path (vault_path c); Set_clipboard_ttl (clipboard_ttl c); Set_session_ttl (session_ttl c);
     Set_backup_retention (backup_retention c); Set_picker (picker_rofi c)]. split_and!.
  - assert (Hpath : solid (vault_path c)).
    { unfold starts_with_slash in Hs. split_and!; [by intros E; rewrite E in Hs | | done]. apply Z.eqb_eq in Hs. by rewrite Hs. }
    unfold print_config. apply means_printed; [plain | done | done | lia | |].
    { cbn. unfold setting_of. change (bytes_eqb (cstr "vault_path") (cstr "vault_path")) with true. rewrite Hs. by replace (zlen (vault_path c) <? PATH_MAX) with true by lia. }
    destruct (decimal_value (clipboard_ttl c)) as (? & ? & ?); [lia |]. destruct (decimal_value (session_ttl c)) as (? & ? & ?); [lia |].
    destruct (decimal_value (backup_retention c)) as (? & ? & ?); [lia |].
    apply means_printed; [plain | assumption | assumption | assumption | rewrite setting_clipboard; apply number_printed; lia |].
    apply means_printed; [plain | assumption | assumption | assumption | rewrite setting_session; apply number_printed; lia |].
    apply means_printed; [plain | assumption | assumption | assumption | rewrite setting_retention; apply number_printed; lia |].
    rewrite <- (app_nil_r (config_line _ _)). apply means_printed; [plain | | | | | constructor]; destruct (picker_rofi c); try plain; by vm_compute.
  - repeat constructor; cbn; rewrite ?list_elem_of_In; simpl; by intuition.
  - by destruct c.
Qed.

Definition example_config : pv_config := mk_config (cstr "/srv/my vault.pvlt") 15 600 7 true.

Lemma config_roundtrip_witness : parse_config config_zero (print_config example_config) = Some (PV_OK, example_config).
Proof.
  apply (config_roundtrip example_config config_zero).
  - unfold config_ok. split_and!; by vm_compute.
  - repeat constructor; done.
  - reflexivity.
Defined.

(** Loading reads the file: when the file is private, stays the same while it
    is read and holds no NUL byte, [pv_config_load] returns the defaults with the
    settings of the file applied, whatever interruptions and short reads occur. *)
Theorem config_load_reads (getenv : list Z -> option (list Z)) (euid : Z) (io : config_io) (config d : pv_config)
    (path : list Z) (info : stat) (ss : list setting) (s : sys)
    (Hd : pv_config_defaults getenv = (PV_OK, d))
    (Hx : xdg_path getenv [] PATH_MAX (cstr "XDG_CONFIG_HOME") (cstr "pvault/config") = (PV_OK, path))
    (Ho : open_config_file euid io path = (PV_OK, Some info))
    (Hm : s_malloc s 0%nat = true) (Hb : benign (r_sched (ci_fd io))) (Ha : ci_stat_after io = Some info)
    (Hsize : st_size info = zlen (r_data (ci_fd io))) (Hlen : zlen (r_data (ci_fd io)) <= PV_CONFIG_MAX_BYTES)
    (Hz : Forall (fun c => c <> 0) (r_data (ci_fd io))) (Hc : ci_close io = true)
    (Hmeans : means (lines (r_data (ci_fd io))) ss) (Hnd : NoDup (map setting_key ss)) :
  fst (pv_config_load getenv euid io config s) = Some (PV_OK, apply_settings d ss).
Proof.
  unfold pv_config_load. rewrite Hd. cbn [is_ok]. rewrite Hx. cbn [is_ok]. rewrite Ho, bind_run. cbn [is_ok].
  destruct (read_config_file_spec io info s) as (st & content & s' & -> & _ & Hok).
  destruct (Hok Hm Hb Ha Hsize Hlen Hz) as [-> ->]. cbn [is_ok]. rewrite Hc. cbn [negb andb].
  assert (parse_config d (r_data (ci_fd io)) = Some (PV_OK, apply_settings d ss)) as -> by (apply parse_config_iff; eauto).
  done.
Qed.

Definition example_getenv (name : list Z) : option (list Z) :=
  if bytes_eqb name (cstr "HOME") then Some (cstr "/home/ana") else None.
Definition example_config_text : list Z := cstr "# mine" ++ [10] ++ cstr " session_idle_seconds = 60 ".
Definition example_config_stat : stat := mk_stat 1 9 (32768 + 384) 1000 1 (zlen example_config_text) (5, 0) (5, 0).
Definition example_config_io : config_io :=
  mk_config_io Opened (Some (mk_stat 1 2 (16384 + 448) 1000 2 4096 (0, 0) (0, 0))) true Opened (Some example_config_stat)
    (mk_rfd example_config_text [E_intr; E_upto 4]) (Some example_config_stat) true.

Lemma config_load_reads_witness :
  fst (pv_config_load example_getenv 1000 example_config_io config_zero example_sys) =
  Some (PV_OK, apply_settings (snd (pv_config_defaults example_getenv)) [Set_session_ttl 60]).
Proof.
  apply (config_load_reads example_getenv 1000 example_config_io config_zero (snd (pv_config_defaults example_getenv))
    (cstr "/home/ana/.config/pvault/config") example_config_stat [Set_session_ttl 60] example_sys); try reflexivity.
  - repeat constructor; done.
  - by vm_compute.
  - repeat constructor; done.
  - apply means_blank; [by vm_compute | reflexivity |]. apply means_setting; [by vm_compute | reflexivity | constructor].
  - repeat constructor. apply not_elem_of_nil.
Defined.
