(* ===== verification/ConfigGrammar.v ===== *)
(** * The grammar of the configuration file

    What a configuration file may contain, written without the parser: lines, blanks,
    names and values, and numerals with their sign, their digits and the wrap of
    [strtoul]. The parser of [src/config.c] accepts exactly this language. *)

From S2P Require Import Prelude Status Util Sys Arena Posix Config ConfigProps.

(** ** Texts *)

(** Space, tab, newline, vertical tab, form feed, carriage return. *)
Definition blank (c : Z) : Prop := c = 32 \/ 9 <= c <= 13.

(** A text neither begins nor ends with a blank. *)
Definition edged (core : list Z) : Prop := (forall c, head core = Some c -> ~ blank c) /\ (forall c, head (rev core) = Some c -> ~ blank c).

(** [text] is [core] between blanks. *)
Definition padded (text core : list Z) : Prop :=
  exists before after, text = before ++ core ++ after /\ Forall blank before /\ Forall blank after /\ edged core.

(** The number that digits write. *)
Definition digits_value (digits : list Z) : Z := fold_left (fun n c => n * 10 + (c - 48)) digits 0.

(** The number a text writes: decimal digits with an optional sign, of at most 64 bits;
    with a minus sign it is the opposite modulo [2^64]. *)
Inductive numeral (text : list Z) (n : Z) : Prop :=
| numeral_plus sign digits : text = sign ++ digits -> sign = [] \/ sign = [43] -> digits <> [] -> Forall is_decimal digits ->
    n = digits_value digits -> n < 2 ^ 64 -> numeral text n
| numeral_minus digits : text = 45 :: digits -> digits <> [] -> Forall is_decimal digits ->
    digits_value digits < 2 ^ 64 -> n = (- digits_value digits) mod 2 ^ 64 -> numeral text n.

(** ** Lines *)

(** The settings: an absolute path that fits, numbers within their bounds, one of two
    words. *)
Inductive writes (name value : list Z) : setting -> Prop :=
| writes_path : name = cstr "vault_path" -> head value = Some 47 -> zlen value < PATH_MAX -> writes name value (Set_vault_path value)
| writes_clipboard n : name = cstr "clipboard_ttl_seconds" -> numeral value n -> 1 <= n <= 300 -> writes name value (Set_clipboard_ttl n)
| writes_session n : name = cstr "session_idle_seconds" -> numeral value n -> 30 <= n <= 86400 -> writes name value (Set_session_ttl n)
| writes_retention n : name = cstr "backup_retention" -> numeral value n -> 1 <= n <= 1000 -> writes name value (Set_backup_retention n)
| writes_internal : name = cstr "picker" -> value = cstr "internal" -> writes name value (Set_picker false)
| writes_rofi : name = cstr "picker" -> value = cstr "rofi" -> writes name value (Set_picker true).

(** A line with a setting: a name and a value around the first equals sign. *)
Definition line_sets (line : list Z) (s : setting) : Prop :=
  exists left right name value, line = left ++ 61 :: right /\ Forall (fun c => c <> 61) left /\ padded left name /\ padded right value /\ writes name value s.

(** A blank line, or a comment. *)
Definition line_silent (line : list Z) : Prop := exists core, padded line core /\ (core = [] \/ head core = Some 35).

(** The lines of a file and the settings they make, in order. *)
Inductive file_sets : list (list Z) -> list setting -> Prop :=
| file_end : file_sets [] []
| file_silent line more ss : zlen line <= 4224 -> line_silent line -> file_sets more ss -> file_sets (line :: more) ss
| file_setting line more s ss : zlen line <= 4224 -> line_sets line s -> file_sets more ss -> file_sets (line :: more) (s :: ss).

(** ** Trimming *)

Lemma ascii_space_blank c : ascii_space c = true <-> blank c.
Proof. unfold ascii_space, blank. lia. Qed.

Lemma ascii_space_not c : ascii_space c = false <-> ~ blank c.
Proof. unfold ascii_space, blank. lia. Qed.

Lemma skip_blanks_app a l : Forall blank a -> skip_ascii_space (a ++ l) = skip_ascii_space l.
Proof. induction 1 as [| c a Hc _ IH]; [done |]. cbn [app skip_ascii_space]. by rewrite (proj2 (ascii_space_blank c) Hc). Qed.

Lemma skip_edge l : (forall c, head l = Some c -> ~ blank c) -> skip_ascii_space l = l.
Proof. destruct l as [| c l]; [done |]. intros H. cbn. by rewrite (proj2 (ascii_space_not c) (H c eq_refl)). Qed.

Lemma skip_split l : exists a, l = a ++ skip_ascii_space l /\ Forall blank a /\ (forall c, head (skip_ascii_space l) = Some c -> ~ blank c).
Proof.
  induction l as [| c l (a & E & Ha & Hh)]; [by exists [] |]. cbn [skip_ascii_space]. destruct (ascii_space c) eqn:Ec.
  - exists (c :: a). split_and!; [by rewrite E at 1 | constructor; [by apply ascii_space_blank | done] | done].
  - exists []. split_and!; [done | constructor |]. intros d [= <-]. by apply ascii_space_not.
Qed.

Lemma padded_trim text core : padded text core -> trim text = core.
Proof.
  intros (a & b & -> & Ha & Hb & Hh & Hl). unfold trim. rewrite skip_blanks_app by done. destruct core as [| c core].
  - cbn [app]. rewrite <- (app_nil_r b), skip_blanks_app by done. done.
  - rewrite skip_edge by (intros d [= <-]; by apply Hh). cbn [app]. rewrite rev_app_distr, skip_blanks_app by (by apply Forall_rev).
    f_equal. rewrite skip_edge; [apply rev_involutive |]. destruct core as [| d core _] using rev_ind; [done |]. rewrite rev_app_distr. cbn. intros x [= <-].
    apply Hl. by rewrite app_comm_cons, rev_app_distr.
Qed.

Lemma trim_padded text : padded text (trim text).
Proof.
  destruct (skip_split text) as (a & E & Ha & Hh). cut (exists core, padded text core); [intros [core Hc]; by rewrite (padded_trim _ _ Hc) |].
  destruct (skip_ascii_space text) as [| c rest] eqn:Es; [exists [], a, []; rewrite E; by split_and! |].
  destruct (skip_split (rev rest)) as (b & E' & Hb & Hl). exists (c :: rev (skip_ascii_space (rev rest))), a, (rev b).
  split_and!; [rewrite E; f_equal; cbn [app]; f_equal; rewrite <- rev_app_distr, <- E'; by rewrite rev_involutive | done | by apply Forall_rev |].
  split; [intros d [= <-]; by apply Hh |]. intros d Hd. cbn [rev] in Hd. rewrite rev_involutive in Hd.
  destruct (skip_ascii_space (rev rest)) as [| e k]; injection Hd as <-; [by apply Hh | by apply Hl].
Qed.

Lemma trim_iff text core : trim text = core <-> padded text core.
Proof. split; [intros <-; apply trim_padded | apply padded_trim]. Qed.

(** ** Numerals *)

Lemma strtoul_digits_split text acc : exists digits rest, text = digits ++ rest /\ Forall is_decimal digits /\ (forall c, head rest = Some c -> ~ is_decimal c) /\
  strtoul_digits text acc = (fold_left (fun n c => n * 10 + (c - 48)) digits acc, rest).
Proof.
  revert acc. induction text as [| c text IH]; intros acc; cbn [strtoul_digits]; [exists [], []; by split_and! |].
  destruct ((48 <=? c) && (c <=? 57)) eqn:E.
  - destruct (IH (acc * 10 + (c - 48))) as (digits & rest & -> & Hd & Hr & ->). exists (c :: digits), rest. split_and!; [done | constructor; [unfold is_decimal; lia | done] | done | done].
  - exists [], (c :: text). split_and!; [done | constructor | | done]. intros d [= <-]. unfold is_decimal. lia.
Qed.

(** All of a text of digits is read. *)
Lemma strtoul_digits_whole digits : Forall is_decimal digits -> strtoul_digits digits 0 = (digits_value digits, []).
Proof.
  intros Hd. destruct (strtoul_digits_split digits 0) as (ds & rest & E & _ & Hr & ->). destruct rest as [| c rest]; [by rewrite app_nil_r in E; subst |].
  exfalso. apply (Hr c eq_refl). subst. apply Forall_app in Hd as [_ Hd]. by apply Forall_cons_1 in Hd as [Hc _].
Qed.

Lemma digits_value_nonneg digits : Forall is_decimal digits -> 0 <= digits_value digits.
Proof.
  unfold digits_value. assert (H : forall acc, 0 <= acc -> Forall is_decimal digits -> 0 <= fold_left (fun n c => n * 10 + (c - 48)) digits acc); [| intros; by apply H].
  induction digits as [| c digits IH]; intros acc Ha Hd; [done |]. apply Forall_cons_1 in Hd as [Hc Hd]. unfold is_decimal in Hc. apply IH; [lia | done].
Qed.

(** [strtoul] of a text that starts with no blank. *)
Lemma strtoul_whole text n : (forall c, head text = Some c -> ~ blank c) ->
  strtoul text = (n, false, []) /\ text <> [] <-> numeral text n.
Proof.
  intros Hh. unfold strtoul. rewrite skip_edge by done. split.
  - intros [E Hne]. destruct (strtoul_sign text) as [negative digits] eqn:Es.
    destruct (strtoul_digits_split digits 0) as (ds & rest & Ed & Hd & _ & Hsp). rewrite Hsp in E. fold (digits_value ds) in E.
    split_if_in E; [by injection E as _ Ht | split_if_in E; [done |]]. injection E as E ->. rewrite app_nil_r in Ed. subst ds.
    assert (Hds : digits <> []) by (intros ->; done). assert (Hb : digits_value digits < 2 ^ 64) by (unfold UINT64_MAX in *; lia).
    unfold strtoul_sign in Es. destruct text as [| c text]; [done |]. destruct (Z.eqb_spec c 45) as [-> |]; [injection Es as <- <-; by eapply numeral_minus |].
    destruct (Z.eqb_spec c 43) as [-> |]; injection Es as <- <-; [apply numeral_plus with [43] text; auto; lia | apply numeral_plus with [] (c :: text); auto; lia].
  - assert (Hlen : forall digits : list Z, digits <> [] -> (zlen (@nil Z) =? zlen digits) = false) by (intros [| d ds] ?; [done |]; rewrite zlen_cons, zlen_nil; pose proof (zlen_nonneg ds); lia).
    intros [sign digits -> Hs Hd Hdec Hn Hlt | digits -> Hd Hdec Hlt Hn].
    + assert (Hsign : strtoul_sign (sign ++ digits) = (false, digits)).
      { destruct Hs as [-> | ->]; [| done]. destruct digits as [| c digits]; [done |]. apply Forall_cons_1 in Hdec as [Hc _]. unfold is_decimal in Hc. cbn.
        rewrite (proj2 (Z.eqb_neq c 45)), (proj2 (Z.eqb_neq c 43)) by lia. done. }
      rewrite Hsign, strtoul_digits_whole by done. rewrite Hlen by done. rewrite (proj2 (Z.ltb_ge _ _)) by (unfold UINT64_MAX; lia). split; [by subst |]. by destruct Hs as [-> | ->].
    + cbn [strtoul_sign]. rewrite Z.eqb_refl, strtoul_digits_whole by done. rewrite Hlen by done. rewrite (proj2 (Z.ltb_ge _ _)) by (unfold UINT64_MAX; lia). by subst.
Qed.

Lemma parse_unsigned_numeral value min max n : (forall c, head value = Some c -> ~ blank c) ->
  parse_unsigned value min max 0 = (PV_OK, n) <-> numeral value n /\ min <= n <= max.
Proof.
  intros Hh. rewrite <- strtoul_whole by done. unfold parse_unsigned. destruct (strtoul value) as [[parsed failed] rest]. split.
  - intros E. split_if_in E; [done |]. injection E as ->. rewrite !orb_false_iff in *. destruct_and!. rewrite negb_false_iff, Z.eqb_eq in *.
    assert (rest = []) as -> by (destruct rest as [| d ds]; [done | rewrite zlen_cons in *; pose proof (zlen_nonneg ds); lia]). split_and!; [by subst | | lia..]. intros ->. done.
  - intros [[[= -> -> ->] Hne] Hb]. rewrite zlen_nil. destruct value as [| c value]; [done |]. rewrite zlen_cons. pose proof (zlen_nonneg value).
    rewrite (proj2 (Z.eqb_neq 0 (1 + zlen value))), (proj2 (Z.ltb_ge n min)), (proj2 (Z.ltb_ge max n)) by lia. done.
Qed.

(** ** Settings and lines *)

Lemma number_of_numeral value min max k s : (forall c, head value = Some c -> ~ blank c) ->
  number_of value min max k = Some s <-> exists n, numeral value n /\ min <= n <= max /\ s = k n.
Proof.
  intros Hh. rewrite number_of_iff. split; intros (n & H); exists n; [destruct H as [H ->]; apply parse_unsigned_numeral in H; tauto |].
  destruct H as (Hn & Hb & ->). split; [by apply parse_unsigned_numeral | done].
Qed.

Lemma setting_of_writes name value s : (forall c, head value = Some c -> ~ blank c) -> setting_of name value = Some s <-> writes name value s.
Proof.
  intros Hh. split.
  - unfold setting_of. intros E.
    destruct (bytes_eqb name (cstr "vault_path")) eqn:E1.
    { apply bytes_eqb_eq in E1. split_if_in E; [| done]. injection E as <-. rewrite andb_true_iff, Z.ltb_lt in *. destruct_and!. apply writes_path; [done | | done].
      destruct value as [| c value]; [done |]. cbn. f_equal. by apply Z.eqb_eq. }
    destruct (bytes_eqb name (cstr "clipboard_ttl_seconds")) eqn:E2.
    { apply bytes_eqb_eq in E2. apply number_of_numeral in E as (n & Hn & Hb & ->); [| done]. by apply writes_clipboard. }
    destruct (bytes_eqb name (cstr "session_idle_seconds")) eqn:E3.
    { apply bytes_eqb_eq in E3. apply number_of_numeral in E as (n & Hn & Hb & ->); [| done]. by apply writes_session. }
    destruct (bytes_eqb name (cstr "backup_retention")) eqn:E4.
    { apply bytes_eqb_eq in E4. apply number_of_numeral in E as (n & Hn & Hb & ->); [| done]. by apply writes_retention. }
    destruct (bytes_eqb name (cstr "picker")) eqn:E5; [| done]. apply bytes_eqb_eq in E5.
    destruct (bytes_eqb value (cstr "internal")) eqn:E6; [injection E as <-; apply bytes_eqb_eq in E6; by apply writes_internal |].
    destruct (bytes_eqb value (cstr "rofi")) eqn:E7; [injection E as <-; apply bytes_eqb_eq in E7; by apply writes_rofi | done].
  - intros [-> Hp Hl | n -> Hn Hb | n -> Hn Hb | n -> Hn Hb | -> -> | -> ->]; [| rewrite setting_clipboard | rewrite setting_session | rewrite setting_retention | done | done];
      [| apply number_of_numeral; eauto..]. unfold setting_of. change (bytes_eqb (cstr "vault_path") (cstr "vault_path")) with true. cbv iota.
    destruct value as [| c value]; [done |]. injection Hp as ->. change (starts_with_slash (47 :: value)) with true. rewrite (proj2 (Z.ltb_lt _ _) Hl). done.
Qed.

(** Padding a side of a padded text. *)
Lemma padded_left a text core : Forall blank a -> padded text core -> padded (a ++ text) core.
Proof. intros Ha (b & c & -> & Hb & Hc & He). exists (a ++ b), c. split_and!; [by rewrite app_assoc | by apply Forall_app | done | done]. Qed.

Lemma padded_right a text core : Forall blank a -> padded text core -> padded (text ++ a) core.
Proof. intros Ha (b & c & -> & Hb & Hc & He). exists b, (c ++ a). split_and!; [by rewrite <- !app_assoc | done | by apply Forall_app | done]. Qed.

Lemma blank_not_equals a : Forall blank a -> Forall (fun c => c <> 61) a.
Proof. apply Forall_impl. unfold blank. lia. Qed.

Lemma writes_nonempty name value s : writes name value s -> name <> [] /\ value <> [] /\ forall c, head name = Some c -> c <> 35 /\ c <> 0.
Proof.
  assert (Hnum : forall n, numeral value n -> value <> []) by (intros n [sign digits -> [-> | ->] ? | ? ->]; done).
  intros [-> Hp Hl | n -> Hn Hb | n -> Hn Hb | n -> Hn Hb | -> -> | -> ->]; (split_and!; [done | | by intros c [= <-]]); eauto. by intros ->.
Qed.

(** The text of a line with a setting. *)
Lemma padded_join left right name value : padded left name -> padded right value -> name <> [] -> value <> [] ->
  exists left' right', padded (left ++ 61 :: right) (left' ++ 61 :: right') /\ padded left' name /\ padded right' value /\
    (Forall (fun c => c <> 61) left -> Forall (fun c => c <> 61) left') /\ head left' = head name.
Proof.
  intros (a & b & -> & Ha & Hb & He) (a' & b' & -> & Ha' & Hb' & He') Hn Hv. exists (name ++ b), (a' ++ value). split_and!.
  - exists a, b'. split_and!; [by rewrite <- !app_assoc; cbn [app]; rewrite <- !app_assoc | done | done |]. split.
    + intros c Hc. apply (proj1 He). destruct name; [done |]. exact Hc.
    + intros c Hc. apply (proj2 He'). rewrite !rev_app_distr in Hc. cbn [rev] in Hc. rewrite rev_app_distr, <- !app_assoc in Hc. destruct value as [| v value _] using rev_ind; [done |].
      rewrite rev_app_distr in Hc |- *. exact Hc.
  - exists [], b. by split_and!.
  - exists a', []. rewrite app_nil_r. by split_and!.
  - intros H. apply Forall_app in H as [_ H]. done.
  - by destruct name.
Qed.

Lemma line_setting_sets line s : line_setting line = Some (Some s) <-> line_sets line s.
Proof.
  unfold line_setting. cbv zeta. split.
  - intros E. split_if_in E; [done |]. destruct (find_char (trim line) 61) as [i |] eqn:Ei; [| done]. destruct (find_char_Some _ _ _ Ei) as (Hi & Hnth & Hfirst).
    destruct (trim_padded line) as (a & b & Hline & Ha & Hb & _). set (text := trim line) in *. clearbody text.
    assert (Htext : text = take (Z.to_nat i) text ++ 61 :: drop (Z.to_nat (i + 1)) text).
    { rewrite <- (take_drop (Z.to_nat i) text) at 1. f_equal. unfold znth, zlen in *. destruct (lookup_lt_is_Some_2 text (Z.to_nat i)) as [c Hc]; [lia |].
      rewrite (drop_S text c) by done. rewrite (nth_lookup_Some text (Z.to_nat i) 0 c) in Hnth by done. subst c. by replace (Z.to_nat (i + 1)) with (S (Z.to_nat i)) by lia. }
    destruct (setting_of _ _) as [s' |] eqn:Es; [| done]. injection E as <-. unfold zsub in Es. rewrite drop_0 in Es.
    set (n := take (Z.to_nat i) text) in *. set (v := drop (Z.to_nat (i + 1)) text) in *. exists (a ++ n), (v ++ b), (trim n), (trim v).
    split_and!; [rewrite Hline, Htext; by rewrite <- !app_assoc | apply Forall_app; split; [by apply blank_not_equals | done] | apply padded_left; [done | apply trim_padded] |
      apply padded_right; [done | apply trim_padded] |]. apply setting_of_writes; [| done]. by destruct (trim_padded v) as (? & ? & _ & _ & _ & [? _]).
  - intros (left & right & name & value & -> & Hne & Hl & Hr & Hw). destruct (writes_nonempty _ _ _ Hw) as (Hn & Hv & Hhead).
    destruct (padded_join _ _ _ _ Hl Hr Hn Hv) as (left' & right' & Hp & Hl' & Hr' & Hne' & Hh). rewrite (padded_trim _ _ Hp). specialize (Hne' Hne).
    assert (Hz : znth (left' ++ 61 :: right') 0 <> 0 /\ znth (left' ++ 61 :: right') 0 <> 35).
    { destruct name as [| c name]; [done |]. destruct left' as [| c' left']; [done |]. injection Hh as ->. destruct (Hhead c eq_refl). done. }
    rewrite (proj2 (Z.eqb_neq _ 0)), (proj2 (Z.eqb_neq _ 35)) by tauto. cbn [orb]. rewrite find_char_app_r by done.
    rewrite zsub_app_l, zsub_all by (try lia; apply zlen_nonneg). rewrite (padded_trim _ _ Hl').
    assert (drop (Z.to_nat (zlen left' + 1)) (left' ++ 61 :: right') = right') as ->.
    { unfold zlen. replace (Z.to_nat (Z.of_nat (length left') + 1)) with (length left' + 1)%nat by lia. rewrite <- drop_drop, drop_app_length. done. }
    rewrite (padded_trim _ _ Hr'). apply setting_of_writes in Hw as ->; [done |]. by destruct Hr' as (? & ? & _ & _ & _ & [? _]).
Qed.

Lemma line_setting_silent line : Forall (fun c => c <> 0) line -> line_setting line = Some None <-> line_silent line.
Proof.
  intros Hz. unfold line_setting, line_silent. cbv zeta. split.
  - intros E. exists (trim line). split; [apply trim_padded |]. destruct (trim_padded line) as (a & b & Hl & _). destruct (trim line) as [| c core]; [by left | right].
    split_if_in E; [| destruct (find_char _ _); [destruct (setting_of _ _); done | done]]. change (znth (c :: core) 0) with c in *. rewrite Hl in Hz. apply Forall_app in Hz as [_ Hz].
    cbn [app] in Hz. apply Forall_cons_1 in Hz as [Hc _]. cbn. f_equal. lia.
  - intros (core & Hp & Hc). rewrite (padded_trim _ _ Hp). destruct Hc as [-> | Hc]; [done |]. destruct core as [| c core]; [done |]. injection Hc as ->. done.
Qed.

Lemma lines_no_nul content : Forall (fun c => c <> 0) content -> Forall (Forall (fun c => c <> 0)) (lines content).
Proof.
  induction 1 as [| c content Hc _ IH]; cbn [lines]; [constructor |]. split_if; [by constructor |].
  destruct (lines content) as [| line more]; [by repeat constructor |]. apply Forall_cons_1 in IH as [Hl Hm]. constructor; [by constructor | done].
Qed.

Lemma means_file_sets ls ss : Forall (Forall (fun c => c <> 0)) ls -> means ls ss <-> file_sets ls ss.
Proof.
  intros Hz. split; intros H; induction H as [| line more ss Hl Hs H IH | line more s ss Hl Hs H IH]; try constructor; apply Forall_cons_1 in Hz as [Hz Hz'];
    first [done | by apply line_setting_silent | by apply line_setting_sets | by apply IH].
Qed.

(** ** Properties *)

(** C36: a configuration file without NUL bytes is accepted exactly when every line, of
    at most 4224 characters, is blank, a comment or a setting, and no setting is given
    twice; the result is the starting configuration with these settings applied, in
    whatever order, and the parser always ends. A setting is a known name and a value
    around an equals sign, with blanks allowed around both: an absolute path that fits,
    one of the two words, or a decimal numeral of at most 64 bits, with an optional sign,
    whose number is within the bounds of the setting; a minus sign is accepted and means
    the opposite modulo [2^64], which the documented ranges do not mention. *)
Theorem config_parse_exact (config c : pv_config) (content : list Z) : Forall (fun x => x <> 0) content ->
  (parse_config config content = Some (PV_OK, c) <->
   exists ss, file_sets (lines content) ss /\ NoDup (map setting_key ss) /\ forall ts, Permutation ss ts -> c = apply_settings config ts) /\
  exists st c', parse_config config content = Some (st, c').
Proof.
  intros Hz. pose proof (fun ss => means_file_sets _ ss (lines_no_nul content Hz)) as Hm. split; [| apply parse_loop_total; lia].
  rewrite parse_config_iff. split.
  - intros (ss & Hs & Hn & ->). exists ss. split_and!; [by apply Hm | done |]. intros ts Hp. by apply apply_settings_perm.
  - intros (ss & Hs & Hn & Hall). exists ss. split_and!; [by apply Hm | done | auto].
Qed.

Lemma config_parse_exact_witness : exists ss, file_sets (lines example_config_text) ss /\ NoDup (map setting_key ss) /\
  forall ts, Permutation ss ts -> set_session_ttl config_zero 60 = apply_settings config_zero ts.
Proof.
  apply (proj1 (proj1 (config_parse_exact config_zero (set_session_ttl config_zero 60) example_config_text ltac:(repeat constructor; done)))). reflexivity.
Defined.

(** A negative number is accepted when it wraps into the bounds: this line sets the
    session timeout to 30 seconds instead of being refused as out of the documented
    range. *)
Theorem config_negative_accepted (base : pv_config) :
  parse_config base (cstr "session_idle_seconds=-18446744073709551586") = Some (PV_OK, set_session_ttl base 30).
Proof. reflexivity. Qed.
