(* ===== verification/Fs.v ===== *)
(** * The file system under the store

    The kernel is not code of the program. This file states what its system
    calls do, as far as the store relies on it: directories map names to inodes,
    an inode has a mode, an owner, a link count and contents, and both directory
    entries and contents reach the disk only with [fsync]. Every call may fail;
    whether it does, and with which [errno], is a stream in the state, like the
    interruptions and short transfers of each open file and the directory a path
    resolves to each time it is opened. A call that fails changes nothing.

    The state remembers every file system it went through ([w_hist]), so that
    theorems can speak of what a reader, or the disk after a crash, may see at
    any moment. *)

From stdpp Require Import gmap.
From S2P Require Import Prelude Status Util Sys Posix.

(** The values the store tells apart; [EIO] stands for every other one. *)
Inductive errno := EIO | EEXIST | ENOENT | ENOSYS | EWOULDBLOCK.

#[global] Instance errno_eq_dec : EqDecision errno.
Proof. solve_decision. Defined.

Record inode := mk_inode {
  i_mode : Z;
  i_uid : Z;
  i_nlink : Z;
  i_data : list Z;
  i_safe : bool     (** the contents have reached the disk *)
}.

Record fs := mk_fs {
  f_inodes : gmap Z inode;
  f_dirs : gmap Z (gmap (list Z) Z);     (** the entries processes see *)
  f_durable : gmap Z (gmap (list Z) Z)   (** the entries on the disk *)
}.

(** The answers of the kernel that are not determined by the file system. *)
Record kernel := mk_kernel {
  k_fail : nat -> option errno;          (** does the n-th call fail *)
  k_sched : nat -> list io_event;        (** transfers on the n-th opened file *)
  k_path : nat -> list Z -> option Z;    (** the directory a path names, the n-th time it is opened *)
  k_name : nat -> list Z -> option (Z * list Z)  (** the directory and last name of a path *)
}.

Record world := mk_world {
  w_sys : sys;
  w_kernel : kernel;
  w_fs : fs;
  w_next : Z;                            (** the next free inode number *)
  w_hist : list fs                       (** the file systems so far, latest first *)
}.

(** What does not change while the program runs. *)
Class Host := {
  geteuid : Z;
  umask : Z;
  device : Z;
  readdir_order : gmap (list Z) Z -> list (list Z)
}.

(** ** The monad *)

Definition W (A : Type) : Type := world -> A * world.

#[global] Instance W_ret : MRet W := fun A x w => (x, w).
#[global] Instance W_bind : MBind W := fun A B f m w => let '(x, w') := m w in f x w'.

(** A computation on the platform of [Sys]. *)
Definition lift {A} (m : M A) : W A := fun w =>
  let '(x, s) := m (w_sys w) in (x, mk_world s (w_kernel w) (w_fs w) (w_next w) (w_hist w)).

Definition get_fs : W fs := fun w => (w_fs w, w).

Definition put_fs (f : fs) : W unit := fun w =>
  (tt, mk_world (w_sys w) (w_kernel w) f (w_next w) (f :: w_hist w)).

(** The failure of the next call, if any. *)
Definition call : W (option errno) := fun w =>
  let k := w_kernel w in
  (k_fail k 0%nat,
   mk_world (w_sys w) (mk_kernel (skip 1 (k_fail k)) (k_sched k) (k_path k) (k_name k)) (w_fs w) (w_next w) (w_hist w)).

Definition next_sched : W (list io_event) := fun w =>
  let k := w_kernel w in
  (k_sched k 0%nat,
   mk_world (w_sys w) (mk_kernel (k_fail k) (skip 1 (k_sched k)) (k_path k) (k_name k)) (w_fs w) (w_next w) (w_hist w)).

Definition next_path (path : list Z) : W (option Z) := fun w =>
  let k := w_kernel w in
  (k_path k 0%nat path,
   mk_world (w_sys w) (mk_kernel (k_fail k) (k_sched k) (skip 1 (k_path k)) (k_name k)) (w_fs w) (w_next w) (w_hist w)).

Definition next_name (path : list Z) : W (option (Z * list Z)) := fun w =>
  let k := w_kernel w in
  (k_name k 0%nat path,
   mk_world (w_sys w) (mk_kernel (k_fail k) (k_sched k) (k_path k) (skip 1 (k_name k))) (w_fs w) (w_next w) (w_hist w)).

Definition new_inode : W Z := fun w =>
  (w_next w, mk_world (w_sys w) (w_kernel w) (w_fs w) (w_next w + 1) (w_hist w)).

(** ** The file system *)

Definition entries (f : fs) (d : Z) : gmap (list Z) Z := default ∅ (f_dirs f !! d).
Definition entry (f : fs) (d : Z) (name : list Z) : option Z := entries f d !! name.
Definition durable_entry (f : fs) (d : Z) (name : list Z) : option Z := default ∅ (f_durable f !! d) !! name.

Definition set_inode (f : fs) (i : Z) (n : inode) : fs :=
  mk_fs (<[i := n]> (f_inodes f)) (f_dirs f) (f_durable f).
Definition set_entries (f : fs) (d : Z) (es : gmap (list Z) Z) : fs :=
  mk_fs (f_inodes f) (<[d := es]> (f_dirs f)) (f_durable f).

(** [S_ISLNK]. *)
Definition S_ISLNK (mode : Z) : bool := Z.land mode 61440 =? 40960.

(** One link less. *)
Definition drop_link (f : fs) (i : Z) : fs :=
  match f_inodes f !! i with
  | Some n => set_inode f i (mk_inode (i_mode n) (i_uid n) (i_nlink n - 1) (i_data n) (i_safe n))
  | None => f
  end.

Section calls.
Context `{Host}.

Definition stat_of (i : Z) (n : inode) : stat :=
  mk_stat device i (i_mode n) (i_uid n) (i_nlink n) (zlen (i_data n)) (0, 0) (0, 0).

(** ** System calls *)

(** [open(path, O_RDONLY | O_DIRECTORY | ...)]: the directory. *)
Definition open_directory (path : list Z) : W (option Z) :=
  e ← call;
  d ← next_path path;
  mret (match e with Some _ => None | None => d end).

(** [fstat] on an open file or directory. *)
Definition fstat (i : Z) : W (option stat) :=
  e ← call;
  f ← get_fs;
  mret (match e with Some _ => None | None => stat_of i <$> f_inodes f !! i end).

(** [fstatat(d, name, AT_SYMLINK_NOFOLLOW)]. *)
Definition fstatat (d : Z) (name : list Z) : W (stat + errno) :=
  e ← call;
  f ← get_fs;
  mret match e with
       | Some e => inr e
       | None =>
           match entry f d name with
           | None => inr ENOENT
           | Some i => match f_inodes f !! i with Some n => inl (stat_of i n) | None => inr EIO end
           end
       end.

(** A file open for reading or for writing. *)
Record rfile := mk_rfile { in_ino : Z; in_fd : reader_fd }.
Record wfile := mk_wfile { out_ino : Z; out_fd : writer_fd }.

(** [openat(d, name, O_RDONLY | O_NOFOLLOW | ...)]. *)
Definition openat_read (d : Z) (name : list Z) : W (option rfile) :=
  e ← call;
  sched ← next_sched;
  f ← get_fs;
  mret match e, entry f d name with
       | None, Some i =>
           match f_inodes f !! i with
           | Some n => if S_ISLNK (i_mode n) then None else Some (mk_rfile i (mk_rfd (i_data n) sched))
           | None => None
           end
       | _, _ => None
       end.

(** [openat(d, name, O_WRONLY | O_CREAT | O_EXCL | ..., 0600)]. *)
Definition openat_excl (d : Z) (name : list Z) : W (wfile + errno) :=
  e ← call;
  sched ← next_sched;
  f ← get_fs;
  match e, entry f d name with
  | Some e, _ => mret (inr e)
  | None, Some _ => mret (inr EEXIST)
  | None, None =>
      i ← new_inode;
      let n := mk_inode (Z.lor 32768 (Z.land 384 (Z.lnot umask))) geteuid 1 [] false in
      _ ← put_fs (set_entries (set_inode f i n) d (<[name := i]> (entries f d)));
      mret (inl (mk_wfile i (mk_wfd [] sched)))
  end.

(** [openat(d, name, O_RDWR | O_CREAT | O_NOFOLLOW | ..., 0600)]: the inode. *)
Definition openat_create (d : Z) (name : list Z) : W (option Z) :=
  e ← call;
  f ← get_fs;
  match e, entry f d name with
  | Some _, _ => mret None
  | None, Some i =>
      mret match f_inodes f !! i with
           | Some n => if S_ISLNK (i_mode n) then None else Some i
           | None => None
           end
  | None, None =>
      i ← new_inode;
      let n := mk_inode (Z.lor 32768 (Z.land 384 (Z.lnot umask))) geteuid 1 [] false in
      _ ← put_fs (set_entries (set_inode f i n) d (<[name := i]> (entries f d)));
      mret (Some i)
  end.

(** [openat(d, name, O_RDONLY | O_DIRECTORY | O_NOFOLLOW | ...)]. *)
Definition openat_directory (d : Z) (name : list Z) : W (option Z) :=
  e ← call;
  f ← get_fs;
  mret match e, entry f d name with
       | None, Some i =>
           match f_inodes f !! i with
           | Some n => if S_ISDIR (i_mode n) then Some i else None
           | None => None
           end
       | _, _ => None
       end.

(** [mkdirat(d, name, 0700)]: [None] on success. *)
Definition mkdirat (d : Z) (name : list Z) : W (option errno) :=
  e ← call;
  f ← get_fs;
  match e, entry f d name with
  | Some e, _ => mret (Some e)
  | None, Some _ => mret (Some EEXIST)
  | None, None =>
      i ← new_inode;
      let n := mk_inode (Z.lor 16384 (Z.land 448 (Z.lnot umask))) geteuid 2 [] false in
      let f := set_entries (set_inode f i n) d (<[name := i]> (entries f d)) in
      _ ← put_fs (mk_fs (f_inodes f) (<[i := ∅]> (f_dirs f)) (f_durable f));
      mret None
  end.

(** [mkdir(path, 0700)], in a directory that exists, and [lstat(path)]. *)
Definition mkdir (path : list Z) : W (option errno) :=
  at_name ← next_name path;
  f ← get_fs;
  match at_name with
  | Some (d, name) => match f_inodes f !! d with Some _ => mkdirat d name | None => mret (Some ENOENT) end
  | None => mret (Some ENOENT)
  end.

Definition lstat (path : list Z) : W (stat + errno) :=
  at_name ← next_name path;
  match at_name with
  | Some (d, name) => fstatat d name
  | None => mret (inr ENOENT)
  end.

(** The contents written through a descriptor so far. *)
Definition sync_contents (file : wfile) : W unit :=
  f ← get_fs;
  match f_inodes f !! out_ino file with
  | Some n => put_fs (set_inode f (out_ino file)
                (mk_inode (i_mode n) (i_uid n) (i_nlink n) (w_data (out_fd file)) false))
  | None => mret tt
  end.

(** [write]. *)
Definition write_file (file : wfile) (data : list Z) : W (io_result * wfile) :=
  let '(result, fd) := write (out_fd file) data in
  let file := mk_wfile (out_ino file) fd in
  match result with
  | Transferred _ => _ ← sync_contents file; mret (result, file)
  | _ => mret (result, file)
  end.

(** [fchmod]. *)
Definition fchmod (i mode : Z) : W bool :=
  e ← call;
  f ← get_fs;
  match e, f_inodes f !! i with
  | None, Some n =>
      _ ← put_fs (set_inode f i
            (mk_inode (Z.lor (Z.land (i_mode n) 61440) mode) (i_uid n) (i_nlink n) (i_data n) (i_safe n)));
      mret true
  | _, _ => mret false
  end.

(** [fsync] on a file. *)
Definition fsync_file (i : Z) : W bool :=
  e ← call;
  f ← get_fs;
  match e, f_inodes f !! i with
  | None, Some n =>
      _ ← put_fs (set_inode f i (mk_inode (i_mode n) (i_uid n) (i_nlink n) (i_data n) true));
      mret true
  | _, _ => mret false
  end.

(** [fsync] on a directory. *)
Definition fsync_directory (d : Z) : W bool :=
  e ← call;
  f ← get_fs;
  match e with
  | None => _ ← put_fs (mk_fs (f_inodes f) (f_dirs f) (<[d := entries f d]> (f_durable f))); mret true
  | Some _ => mret false
  end.

Definition close : W bool :=
  e ← call;
  mret (match e with Some _ => false | None => true end).

(** [unlinkat(d, name, 0)]. *)
Definition unlinkat (d : Z) (name : list Z) : W bool :=
  e ← call;
  f ← get_fs;
  match e, entry f d name with
  | None, Some i => _ ← put_fs (drop_link (set_entries f d (delete name (entries f d))) i); mret true
  | _, _ => mret false
  end.

(** The effect of renaming [old] to [new] in [d]. *)
Definition rename_fs (f : fs) (d : Z) (old new : list Z) (i : Z) : fs :=
  let es := <[new := i]> (delete old (entries f d)) in
  match entry f d new with
  | Some j => if decide (j = i) then f else drop_link (set_entries f d es) j
  | None => set_entries f d es
  end.

(** [renameat2(d, old, d, new, flags)] or [renameat]: [None] on success. *)
Definition renameat2 (d : Z) (old new : list Z) (no_replace : bool) : W (option errno) :=
  e ← call;
  f ← get_fs;
  match e, entry f d old with
  | Some e, _ => mret (Some e)
  | None, None => mret (Some ENOENT)
  | None, Some i =>
      match entry f d new, no_replace with
      | Some _, true => mret (Some EEXIST)
      | _, _ => _ ← put_fs (rename_fs f d old new i); mret None
      end
  end.

(** [flock(fd, LOCK_EX | LOCK_NB)]: another process may hold the lock. *)
Definition flock : W (option errno) := call.

(** The names [readdir] will yield from a new stream on the directory. *)
Definition opendir (d : Z) : W (option (list (list Z))) :=
  e ← call;
  f ← get_fs;
  mret (match e with Some _ => None | None => Some (readdir_order (entries f d)) end).

End calls.
