(* ===== verification/Secure.v ===== *)
(** * Secret buffers, the password policy and secret input

    [src/secure.c] and [src/tty.c]. A terminal session is a state: the attributes
    of the terminal, the dispositions of the five guarded signals, the flag the
    signal handler sets, the signals raised again and the number of open
    descriptors. What the user and the kernel do is a script, one answer per
    [poll] and [read], each with the signal that arrives with it. A script that
    ends before the line does leaves the program waiting: the result is [None]. *)

From S2P Require Import Prelude Status Util Sys Posix Config.

(** ** Buffers *)

Record pv_buffer := mk_buffer {
  b_data : option (list Z);
  b_len : Z;
  b_secure : bool
}.

Definition buffer_zero : pv_buffer := mk_buffer None 0 false.

(** The freed buffer; [None] is the null pointer. *)
Definition pv_buffer_secure_free (buffer : option pv_buffer) : option pv_buffer :=
  match buffer with
  | None => None
  | Some _ => Some buffer_zero
  end.

Definition PV_SECRET_INPUT_MAX : Z := 1024.
Definition PV_MASTER_PASSWORD_MIN_BYTES : Z := 16.

Definition pv_secure_buffer_alloc (buffer : pv_buffer) (length : Z) : M (pv_status * pv_buffer) :=
  if (length =? 0) || (PV_MAX_PLAINTEXT <? length) then mret (PV_ERR_USAGE, buffer) else
  ok ← sodium_malloc;
  if negb ok then mret (PV_ERR_NOMEM, mk_buffer None length true) else
  locked ← sodium_mlock;
  if negb locked then mret (PV_ERR_SECURE_MEMORY, buffer_zero) else
  mret (PV_OK, mk_buffer (Some (zeros length)) length true).

Definition allocate_secret (secret : pv_buffer) : M (pv_status * pv_buffer) :=
  r ← pv_secure_buffer_alloc secret (PV_SECRET_INPUT_MAX + 1);
  let '(status, secret) := r in
  mret (status, if is_ok status then mk_buffer (b_data secret) 0 (b_secure secret) else secret).

(** ** The password policy

    A loop that stops at the first difference is [forallb] over the indices it
    visits, one that stops at the first success [existsb]. *)

Definition ascii_lower (byte : Z) : Z := if (65 <=? byte) && (byte <=? 90) then byte + (97 - 65) else byte.

Definition password_equals_ascii_casefold (password candidate : list Z) : bool :=
  if negb (zlen password =? zlen candidate) then false else
  let difference :=
    fold_left (fun difference index =>
      Z.lor difference (Z.lxor (ascii_lower (znth password index)) (ascii_lower (znth candidate index))))
      (seqZ 0 (zlen password)) 0 in
  difference =? 0.

Definition password_follows_cycle (password cycle : list Z) : bool :=
  existsb (fun offset =>
    forallb (fun index => ascii_lower (znth password index) =? ascii_lower (znth cycle ((offset + index) mod zlen cycle)))
      (seqZ 0 (zlen password)))
    (seqZ 0 (zlen cycle)).

Definition cycles : list (list Z) :=
  [cstr "0123456789"; cstr "9876543210"; cstr "abcdefghijklmnopqrstuvwxyz"; cstr "zyxwvutsrqponmlkjihgfedcba";
   cstr "qwertyuiopasdfghjklzxcvbnm"; cstr "mnbvcxzlkjhgfdsapoiuytrewq"].

Definition password_is_full_sequence (password : list Z) : bool :=
  let step := znth password 1 - znth password 0 in
  let arithmetic :=
    (2 <=? zlen password) && ((step =? 1) || (step =? -1)) &&
    forallb (fun index => znth password index - znth password (index - 1) =? step) (seqZ 2 (zlen password - 2)) in
  arithmetic || existsb (password_follows_cycle password) cycles.

Definition password_is_periodic (password : list Z) : bool :=
  existsb (fun period =>
    forallb (fun index => znth password index =? znth password (index mod period)) (seqZ period (zlen password - period)))
    (seqZ 1 (zlen password / 2)).

Definition common_passwords : list (list Z) :=
  [cstr "correcthorsebatterystaple"; cstr "correct horse battery staple"; cstr "passwordpassword";
   cstr "password12345678"; cstr "password123456789"; cstr "letmeinletmeinletmein"; cstr "adminadminadminadmin";
   cstr "qwertyqwertyqwerty"; cstr "iloveyouiloveyou"; cstr "thisisnotasecurepassword"].

(** [None] is the null pointer. *)
Definition pv_master_password_is_acceptable (password : option (list Z)) : bool :=
  match password with
  | None => false
  | Some password =>
      if (zlen password <? PV_MASTER_PASSWORD_MIN_BYTES) || password_is_full_sequence password ||
         password_is_periodic password
      then false
      else negb (existsb (password_equals_ascii_casefold password) common_passwords)
  end.

(** ** The terminal *)

(** [SIGINT], [SIGTERM], [SIGHUP], [SIGQUIT], [SIGTSTP] on Linux. *)
Definition pv_secret_signals : list Z := [2; 15; 1; 3; 20].

(** What a signal does: the disposition installed here, or another one. *)
Inductive disposition := Secret_handler | Other (d : Z).

Record terminal := mk_terminal {
  t_lflag : Z;                          (** [c_lflag] of the terminal *)
  t_handlers : Z -> disposition;        (** by signal number *)
  t_interrupted : Z;                    (** [pv_secret_interrupted] *)
  t_raised : list Z;                    (** the signals raised by the program, latest first *)
  t_open : Z                            (** descriptors of the terminal open *)
}.

Inductive poll_answer := P_ready | P_timeout | P_intr | P_error.
Inductive read_answer := R_byte (b : Z) | R_end | R_intr | R_error.
Inductive attr_answer := A_done | A_intr | A_error.

(** The answers of the kernel and the user. A signal number of [0] is no signal;
    a [tcsetattr] beyond the end of its list is done. *)
Record script := mk_script {
  i_open : bool;                        (** [open("/dev/tty")] *)
  i_getattr : bool;                     (** [tcgetattr] *)
  i_sigaction : Z -> bool;              (** is the signal number accepted *)
  i_setattr : list attr_answer;
  i_signal : Z;                         (** a signal before the first prompt *)
  i_print : list bool;                  (** the [dprintf] of each prompt *)
  i_poll : list (Z * poll_answer);
  i_read : list (Z * read_answer);
  i_late : Z                            (** a signal after the last line *)
}.

(** [secret_signal_handler], run when a signal arrives. *)
Definition secret_signal_handler (interrupted signal_number : Z) : Z :=
  if interrupted =? 0 then signal_number else interrupted.

(** A signal arrives, [0] for none. *)
Definition deliver (signal_number interrupted : Z) : Z :=
  if signal_number =? 0 then interrupted else secret_signal_handler interrupted signal_number.

Definition set_handler (handlers : Z -> disposition) (signal_number : Z) (d : disposition) : Z -> disposition :=
  fun n => if n =? signal_number then d else handlers n.

(** The handlers and the previous dispositions, the latest first; the calls that
    restore them cannot fail, having the numbers of calls that succeeded. *)
Definition restore_loop (previous : list (Z * disposition)) (handlers : Z -> disposition) : Z -> disposition :=
  fold_left (fun handlers p => set_handler handlers (fst p) (snd p)) previous handlers.

Fixpoint install_loop (accepted : Z -> bool) (signals : list Z) (previous : list (Z * disposition))
    (handlers : Z -> disposition) : bool * list (Z * disposition) * (Z -> disposition) :=
  match signals with
  | [] => (true, previous, handlers)
  | n :: signals =>
      if accepted n
      then install_loop accepted signals ((n, handlers n) :: previous) (set_handler handlers n Secret_handler)
      else (false, [], restore_loop previous handlers)
  end.

(** The result, the previous dispositions and the terminal; [sigemptyset] does
    not fail. *)
Definition secret_signal_guard_install (accepted : Z -> bool) (t : terminal) : bool * list (Z * disposition) * terminal :=
  let '(ok, previous, handlers) := install_loop accepted pv_secret_signals [] (t_handlers t) in
  (ok, previous, mk_terminal (t_lflag t) handlers 0 (t_raised t) (t_open t)).

Definition secret_signal_guard_restore (previous : list (Z * disposition)) (t : terminal) : terminal :=
  mk_terminal (t_lflag t) (restore_loop previous (t_handlers t)) (t_interrupted t) (t_raised t) (t_open t).

(** Success, the answers left and the terminal. *)
Fixpoint tcsetattr_nointr (answers : list attr_answer) (lflag : Z) (t : terminal)
  : bool * list attr_answer * terminal :=
  let set := mk_terminal lflag (t_handlers t) (t_interrupted t) (t_raised t) (t_open t) in
  match answers with
  | [] => (true, [], set)
  | A_done :: answers => (true, answers, set)
  | A_intr :: answers => tcsetattr_nointr answers lflag t
  | A_error :: answers => (false, answers, t)
  end.

(** ** Reading a secret *)

(** What the loop works on: the handler's flag and the answers left. *)
Record line_state := mk_line {
  l_interrupted : Z;
  l_poll : list (Z * poll_answer);
  l_read : list (Z * read_answer)
}.

(** The [read] with its retries: the answer that ends them. *)
Fixpoint read_byte (interrupted : Z) (answers : list (Z * read_answer))
  : option (read_answer * Z * list (Z * read_answer)) :=
  match answers with
  | [] => None
  | (signal_number, a) :: answers =>
      let interrupted := deliver signal_number interrupted in
      match a with
      | R_intr => if interrupted =? 0 then read_byte interrupted answers else Some (a, interrupted, answers)
      | _ => Some (a, interrupted, answers)
      end
  end.

(** The loop over the characters: [None] while it waits, otherwise whether the
    end of the line was reached, the bytes stored and whether more came. The
    first argument tells that [poll] is being retried, without the check of the
    flag that starts a turn. *)
Fixpoint secret_loop (retry : bool) (interrupted : Z) (polls : list (Z * poll_answer))
    (reads : list (Z * read_answer)) (data : list Z) (overflow : bool)
  : option (bool * list Z * bool * line_state) :=
  let failed interrupted polls reads := Some (false, data, overflow, mk_line interrupted polls reads) in
  if negb retry && negb (interrupted =? 0) then failed interrupted polls reads else
  match polls with
  | [] => None
  | (signal_number, a) :: polls =>
      let interrupted := deliver signal_number interrupted in
      match a with
      | P_intr =>
          if interrupted =? 0 then secret_loop true interrupted polls reads data overflow
          else failed interrupted polls reads
      | P_error => failed interrupted polls reads
      | P_timeout => secret_loop false interrupted polls reads data overflow
      | P_ready =>
          match read_byte interrupted reads with
          | None => None
          | Some (R_byte byte, interrupted, reads) =>
              if (byte =? 10) || (byte =? 13) then Some (true, data, overflow, mk_line interrupted polls reads)
              else if zlen data <? PV_SECRET_INPUT_MAX
              then secret_loop false interrupted polls reads (data ++ [byte]) overflow
              else secret_loop false interrupted polls reads data true
          | Some (_, interrupted, reads) => failed interrupted polls reads
          end
      end
  end.

(** The bytes left in the buffer: the ones stored, the NUL and what was there. *)
Definition stored (data buffer : list Z) : list Z := zwrite buffer 0 (data ++ [0]).

(** The status and the buffer. *)
Definition read_one_secret (printed : bool) (line : line_state) (secret : pv_buffer)
  : M (option (pv_status * pv_buffer * line_state)) :=
  r ← allocate_secret secret;
  let '(status, secret) := r in
  if negb (is_ok status) then mret (Some (status, secret, line)) else
  if negb printed then mret (Some (PV_ERR_IO, buffer_zero, line)) else
  mret match secret_loop false (l_interrupted line) (l_poll line) (l_read line) [] false with
       | None => None
       | Some (false, _, _, line) => Some (PV_ERR_IO, buffer_zero, line)
       | Some (true, data, overflow, line) =>
           if overflow then Some (PV_ERR_LIMIT, buffer_zero, line) else
           let secret := mk_buffer (stored data <$> b_data secret) (zlen data) (b_secure secret) in
           if b_len secret =? 0 then Some (PV_ERR_USAGE, buffer_zero, line) else
           Some (PV_OK, secret, line)
       end.

Definition prompt_printed (script : script) (i : nat) : bool := nth i (i_print script) true.

(** [ECHO] in [c_lflag]. *)
Definition ECHO : Z := 8.

(** [sodium_memcmp(second.data, secret->data, secret->len) == 0]. *)
Definition same_secret (first second : pv_buffer) : bool :=
  (b_len second =? b_len first) &&
  bytes_eqb (zsub (default [] (b_data second)) 0 (b_len first)) (zsub (default [] (b_data first)) 0 (b_len first)).

(** The two readings. *)
Definition read_secrets (script : script) (line : line_state) (confirm : bool)
  : M (option (pv_status * pv_buffer * line_state)) :=
  r ← read_one_secret (prompt_printed script 0) line buffer_zero;
  match r with
  | None => mret None
  | Some (status, secret, line) =>
      if is_ok status && confirm then
        r ← read_one_secret (prompt_printed script 1) line buffer_zero;
        mret match r with
             | None => None
             | Some (status, second, line) =>
                 Some (if is_ok status && negb (same_secret secret second) then PV_ERR_AUTH else status, secret, line)
             end
      else mret (Some (status, secret, line))
  end.

(** The status, the buffer and the terminal afterwards. *)
Definition pv_secure_read_secret (script : script) (t : terminal) (confirm : bool)
  : M (option (pv_status * pv_buffer * terminal)) :=
  if negb (i_open script) then mret (Some (PV_ERR_IO, buffer_zero, t)) else
  let opened := mk_terminal (t_lflag t) (t_handlers t) (t_interrupted t) (t_raised t) (t_open t + 1) in
  let closed t := mk_terminal (t_lflag t) (t_handlers t) (t_interrupted t) (t_raised t) (t_open t - 1) in
  if negb (i_getattr script) then mret (Some (PV_ERR_IO, buffer_zero, closed opened)) else
  let original := t_lflag opened in
  let '(installed, previous, guarded) := secret_signal_guard_install (i_sigaction script) opened in
  if negb installed then mret (Some (PV_ERR_IO, buffer_zero, closed guarded)) else
  let '(set, answers, hidden) := tcsetattr_nointr (i_setattr script) (Z.land original (Z.lnot ECHO)) guarded in
  if negb set then mret (Some (PV_ERR_IO, buffer_zero, closed (secret_signal_guard_restore previous hidden))) else
  r ← read_secrets script (mk_line (deliver (i_signal script) (t_interrupted hidden)) (i_poll script) (i_read script)) confirm;
  mret match r with
       | None => None
       | Some (status, secret, line) =>
           let '(set, _, shown) := tcsetattr_nointr answers original hidden in
           let status := if negb set && is_ok status then PV_ERR_IO else status in
           let caught_signal := deliver (i_late script) (l_interrupted line) in
           let restored := secret_signal_guard_restore previous (closed shown) in
           let secret := if is_ok status then secret else buffer_zero in
           if caught_signal =? 0
           then Some (status, secret, mk_terminal (t_lflag restored) (t_handlers restored) 0 (t_raised restored) (t_open restored))
           else Some (PV_ERR_IO, buffer_zero,
                      mk_terminal (t_lflag restored) (t_handlers restored) 0 (caught_signal :: t_raised restored) (t_open restored))
       end.

(** ** Process start-up: which calls are made, in order, until one fails *)

Definition pv_secure_process_hardening (setrlimit_ok prctl_ok : bool) : pv_status :=
  if negb setrlimit_ok then PV_ERR_SECURE_MEMORY else
  if negb prctl_ok then PV_ERR_SECURE_MEMORY else PV_OK.

Definition normalize_sigchld_state (sigaction_ok sigprocmask_ok : bool) : pv_status :=
  if negb sigaction_ok || negb sigprocmask_ok then PV_ERR_STATE else PV_OK.

Definition pv_global_init (sodium_init sigaction_ok sigprocmask_ok setrlimit_ok prctl_ok : bool) : pv_status :=
  if negb sodium_init then PV_ERR_STATE else
  let status := normalize_sigchld_state sigaction_ok sigprocmask_ok in
  if is_ok status then pv_secure_process_hardening setrlimit_ok prctl_ok else status.

(** ** Lines from the terminal ([src/tty.c]) *)

(** Reading goes on after interruptions; [None] while it waits. *)
Fixpoint tty_loop (maximum : Z) (reads : list read_answer) (data : list Z) (overflow : bool)
  : option (bool * list Z * bool) :=
  match reads with
  | [] => None
  | R_intr :: reads => tty_loop maximum reads data overflow
  | R_error :: _ | R_end :: _ => Some (false, data, overflow)
  | R_byte byte :: reads =>
      if (byte =? 10) || (byte =? 13) then Some (true, data, overflow)
      else if zlen data <? maximum then tty_loop maximum reads (data ++ [byte]) overflow
      else tty_loop maximum reads data true
  end.

Record tty_io := mk_tty_io { y_open : bool; y_print : bool; y_read : list read_answer }.

(** The status and the buffer, with the bytes it holds up to the NUL. *)
Definition pv_tty_read_line (io : tty_io) (maximum : Z) (allow_empty : bool) (output : pv_buffer)
  : M (option (pv_status * pv_buffer)) :=
  if (maximum =? 0) || (PV_MAX_PLAINTEXT <? maximum) then mret (Some (PV_ERR_USAGE, output)) else
  allocated ← sodium_malloc;
  locked ← (if (allocated : bool) then sodium_mlock else mret false);
  if negb locked then mret (Some (PV_ERR_SECURE_MEMORY, mk_buffer None 0 true)) else
  if negb (y_open io) then mret (Some (PV_ERR_IO, buffer_zero)) else
  if negb (y_print io) then mret (Some (PV_ERR_IO, buffer_zero)) else
  mret match tty_loop maximum (y_read io) [] false with
       | None => None
       | Some (false, _, _) => Some (PV_ERR_IO, buffer_zero)
       | Some (true, data, overflow) =>
           if overflow then Some (PV_ERR_LIMIT, buffer_zero) else
           if negb allow_empty && (zlen data =? 0) then Some (PV_ERR_USAGE, buffer_zero) else
           Some (PV_OK, mk_buffer (Some (data ++ [0])) (zlen data) true)
       end.

(** The status and [*confirmed]. *)
Definition pv_tty_confirm (io : tty_io) : M (option (pv_status * bool)) :=
  r ← pv_tty_read_line io 8 true buffer_zero;
  match r with
  | None => mret None
  | Some (status, answer) =>
      let first := znth (default [] (b_data answer)) 0 in
      mret (Some (status, is_ok status && (b_len answer =? 1) && ((first =? 121) || (first =? 89))))
  end.

(** The bytes of a buffer up to the first NUL. *)
Definition c_string (data : list Z) : list Z :=
  match find_char data 0 with Some n => zsub data 0 n | None => data end.

(** The status and [*value]. *)
Definition pv_tty_read_unsigned (io : tty_io) (maximum default_value value : Z) : M (option (pv_status * Z)) :=
  if maximum <? default_value then mret (Some (PV_ERR_USAGE, value)) else
  r ← pv_tty_read_line io 16 true buffer_zero;
  match r with
  | None => mret None
  | Some (status, answer) =>
      if negb (is_ok status) then mret (Some (status, value)) else
      if b_len answer =? 0 then mret (Some (PV_OK, default_value)) else
      let text := c_string (default [] (b_data answer)) in
      let '(parsed, failed, rest) := strtoul text in
      if failed || (zlen rest =? zlen text) || negb (zlen rest =? 0) || (maximum <? parsed)
      then mret (Some (PV_ERR_USAGE, value))
      else mret (Some (PV_OK, u32 parsed))
  end.
