(* ===== verification/Store.v ===== *)
(** * Vault storage: files

    [src/store.c], first part: opening and checking private files and their
    directories, the lock, and the three ways a file is written: replacing the
    vault atomically, copying a file, writing a snapshot under a new name.

    A descriptor of a directory is its inode number; the file system, the
    failures of system calls and the short transfers are the state of [Fs].
    The build without fault injection is modelled. Buffers that are wiped and
    freed on the way out have no counterpart. *)

From stdpp Require Import gmap.
From S2P Require Import Prelude Status Util Sys Arena Model Cbor Crypto Posix Config Secure Fs.

(** ** Data *)

Record pv_disk_file := mk_disk_file {
  disk_header_bytes : list Z;
  disk_header : pv_file_header;
  disk_ciphertext : list Z;            (** and [ciphertext_len] *)
  disk_hash : list Z;
  disk_snapshot_stat : stat
}.

Definition stat_zero : stat := mk_stat 0 0 0 0 0 0 (0, 0) (0, 0).

(** A structure that [memset] or [disk_file_destroy] has cleared. *)
Definition disk_zero : pv_disk_file :=
  mk_disk_file (zeros PV_FILE_HEADER_LEN) header_zero [] (zeros crypto_generichash_BYTES) stat_zero.

Record pv_store_location := mk_location {
  directory_fd : Z;
  location_name : list Z;
  location_device : Z;
  location_inode : Z
}.

Inductive pv_private_snapshot_issue :=
| PV_PRIVATE_SNAPSHOT_OK
| PV_PRIVATE_SNAPSHOT_PATH
| PV_PRIVATE_SNAPSHOT_PARENT
| PV_PRIVATE_SNAPSHOT_TYPE
| PV_PRIVATE_SNAPSHOT_OWNER
| PV_PRIVATE_SNAPSHOT_LINKS
| PV_PRIVATE_SNAPSHOT_MODE.

#[global] Instance issue_eq_dec : EqDecision pv_private_snapshot_issue.
Proof. solve_decision. Defined.

Definition issue_ok (i : pv_private_snapshot_issue) : bool :=
  match i with PV_PRIVATE_SNAPSHOT_OK => true | _ => false end.

(** ** Transfers *)

(** The loop of [write_all] on a file with [have] in it. Past the end of the
    schedule one call transfers all the data. *)
Fixpoint store_write_loop (sched : list io_event) (ino : Z) (have data : list Z) : W (pv_status * wfile) :=
  let file := mk_wfile ino (mk_wfd have sched) in
  if zlen data =? 0 then mret (PV_OK, file) else
  match sched with
  | [] => r ← write_file file data; mret (PV_OK, snd r)
  | _ :: sched =>
      r ← write_file file data;
      let '(result, file) := r in
      match result with
      | Interrupted => store_write_loop sched ino (w_data (out_fd file)) data
      | Failed => mret (PV_ERR_IO, file)
      | Transferred bytes =>
          if zlen bytes <=? 0 then mret (PV_ERR_IO, file)
          else store_write_loop sched ino (w_data (out_fd file)) (drop (length bytes) data)
      end
  end.

Definition store_write_all (file : wfile) (data : list Z) : W (pv_status * wfile) :=
  store_write_loop (w_sched (out_fd file)) (out_ino file) (w_data (out_fd file)) data.

(** The loop of [read_all] with [have] read so far. Past the end of the schedule
    one call transfers all there is; when that is not enough the next one
    transfers nothing. *)
Fixpoint store_read_loop (sched : list io_event) (data have : list Z) (len : Z)
  : pv_status * list Z * reader_fd :=
  let fd := mk_rfd data sched in
  if len <=? 0 then (PV_OK, have, fd) else
  match sched with
  | [] =>
      let '(result, fd) := read fd len in
      match result with
      | Transferred bytes => (if zlen bytes <? len then PV_ERR_IO else PV_OK, have ++ bytes, fd)
      | _ => (PV_ERR_IO, have, fd)
      end
  | _ :: sched =>
      let '(result, fd) := read fd len in
      match result with
      | Interrupted => store_read_loop sched (r_data fd) have len
      | Failed => (PV_ERR_IO, have, fd)
      | Transferred bytes =>
          if zlen bytes <=? 0 then (PV_ERR_IO, have, fd)
          else store_read_loop sched (r_data fd) (have ++ bytes) (len - zlen bytes)
      end
  end.

(** The status, the bytes and the descriptor. *)
Definition store_read_all (fd : reader_fd) (len : Z) : pv_status * list Z * reader_fd :=
  store_read_loop (r_sched fd) (r_data fd) [] len.

(** The [read] of one more byte, restarted when interrupted. *)
Fixpoint read_extra (sched : list io_event) (data : list Z) : io_result :=
  match read (mk_rfd data sched) 1, sched with
  | (Interrupted, _), _ :: sched => read_extra sched data
  | (result, _), _ => result
  end.

(** ** Paths *)

(** [strrchr(path, '/')]. *)
Definition strrchr_slash (path : list Z) : option Z :=
  option_map (fun i => zlen path - 1 - i) (find_char (rev path) 47).

(** [PV_OK] with the parent and the name, or an error. *)
Definition split_parent_and_name (path : list Z) : pv_status * list Z * list Z :=
  if (zlen path =? 0) || (PATH_MAX <=? zlen path) then (PV_ERR_USAGE, [], []) else
  let '(status, parent, base) :=
    match strrchr_slash path with
    | None => (PV_OK, cstr ".", path)
    | Some slash =>
        let base := drop (Z.to_nat (slash + 1)) path in
        if slash =? 0 then (PV_OK, cstr "/", base)
        else if PATH_MAX <=? slash then (PV_ERR_LIMIT, [], base)
        else (PV_OK, zsub path 0 slash, base)
    end in
  if negb (is_ok status) then (status, [], []) else
  if (zlen base =? 0) || (PATH_MAX <=? zlen base) || bytes_eqb base (cstr ".") || bytes_eqb base (cstr "..")
  then (PV_ERR_USAGE, parent, []) else
  (PV_OK, parent, base).

Section files.
Context `{Host} `{Sodium}.

(** [renameat2], and [renameat] where the kernel does not have it and the target
    may be replaced. *)
Definition store_renameat (d : Z) (old_path new_path : list Z) (no_replace : bool) : W (option errno) :=
  result ← renameat2 d old_path new_path no_replace;
  match result with
  | None => mret None
  | Some e =>
      if negb (bool_decide (e = ENOSYS)) || no_replace then mret (Some e)
      else renameat2 d old_path new_path false
  end.

(** The status and [*exists]. *)
Definition path_entry_exists_at (d : Z) (name : list Z) : W (pv_status * bool) :=
  r ← fstatat d name;
  mret match r with
       | inl _ => (PV_OK, true)
       | inr e => if bool_decide (e = ENOENT) then (PV_OK, false) else (PV_ERR_IO, false)
       end.

Definition private_snapshot_stat_issue (st : stat) : pv_private_snapshot_issue :=
  let access_mode := access_bits (st_mode st) in
  if negb (S_ISREG (st_mode st)) then PV_PRIVATE_SNAPSHOT_TYPE else
  if negb (st_uid st =? geteuid) then PV_PRIVATE_SNAPSHOT_OWNER else
  if negb (st_nlink st =? 1) then PV_PRIVATE_SNAPSHOT_LINKS else
  if negb (access_mode =? 256) && negb (access_mode =? 384) then PV_PRIVATE_SNAPSHOT_MODE else
  PV_PRIVATE_SNAPSHOT_OK.

(** [fstat(fd, &st) != 0 || private_snapshot_stat_issue(&st) != OK] is false. *)
Definition fstat_private (i : Z) : W bool :=
  st ← fstat i;
  mret match st with
       | Some st => issue_ok (private_snapshot_stat_issue st)
       | None => false
       end.

(** The status, the directory and the name in it, and the issue. *)
Definition open_private_parent (path : list Z) : W (pv_status * option Z * list Z * pv_private_snapshot_issue) :=
  let '(status, parent, name) := split_parent_and_name path in
  if negb (is_ok status) then mret (status, None, name, PV_PRIVATE_SNAPSHOT_PATH) else
  parent_fd ← open_directory parent;
  match parent_fd with
  | None => mret (PV_ERR_IO, None, name, PV_PRIVATE_SNAPSHOT_PARENT)
  | Some d =>
      st ← fstat d;
      let bad :=
        match st with
        | None => true
        | Some st =>
            negb (S_ISDIR (st_mode st)) || negb (st_uid st =? geteuid) || negb (foreign_write_bits (st_mode st) =? 0)
        end in
      if bad : bool then _ ← close; mret (PV_ERR_IO, None, name, PV_PRIVATE_SNAPSHOT_PARENT)
      else mret (PV_OK, Some d, name, PV_PRIVATE_SNAPSHOT_PATH)
  end.

Definition open_store_location (path : list Z) : W (pv_status * option pv_store_location) :=
  r ← open_private_parent path;
  let '(status, parent, name, _) := r in
  match parent with
  | None => mret (status, None)
  | Some d =>
      st ← fstat d;
      match st with
      | None => _ ← close; mret (PV_ERR_IO, None)
      | Some st => mret (PV_OK, Some (mk_location d name (st_dev st) (st_ino st)))
      end
  end.

Definition close_store_location : W unit := _ ← close; mret tt.

Definition revalidate_store_location (path : list Z) (held : pv_store_location) : W pv_status :=
  r ← open_store_location path;
  match r with
  | (status, None) => mret status
  | (status, Some current) =>
      let status :=
        if negb (location_device current =? location_device held) ||
           negb (location_inode current =? location_inode held) ||
           negb (bytes_eqb (location_name current) (location_name held))
        then PV_ERR_LOCKED else status in
      _ ← close_store_location;
      mret status
  end.

(** ** Reading *)

Definition open_private_snapshot_at (d : Z) (name : list Z)
  : W (pv_status * option (rfile * stat) * pv_private_snapshot_issue) :=
  snapshot ← openat_read d name;
  match snapshot with
  | None => mret (PV_ERR_IO, None, PV_PRIVATE_SNAPSHOT_PATH)
  | Some file =>
      st ← fstat (in_ino file);
      match st with
      | None => _ ← close; mret (PV_ERR_IO, None, PV_PRIVATE_SNAPSHOT_PATH)
      | Some st =>
          let issue := private_snapshot_stat_issue st in
          if issue_ok issue then mret (PV_OK, Some (file, st), issue)
          else _ ← close; mret (PV_ERR_IO, None, issue)
      end
  end.

(** The status and the hash. *)
Definition hash_disk_file (header_bytes ciphertext : list Z) : pv_status * list Z :=
  match crypto_generichash (header_bytes ++ ciphertext) with
  | None => (PV_ERR_STATE, zeros crypto_generichash_BYTES)
  | Some hash => (PV_OK, hash)
  end.

(** The header of a file of the size in [st]: the status, its bytes, the header
    and the descriptor. *)
Definition read_disk_header (st : stat) (fd : reader_fd) : pv_status * list Z * pv_file_header * reader_fd :=
  if st_size st <? PV_FILE_HEADER_LEN then (PV_ERR_FORMAT, [], header_zero, fd) else
  let '(status, header_bytes, fd) := store_read_all fd PV_FILE_HEADER_LEN in
  if negb (is_ok status) then (status, [], header_zero, fd) else
  let '(status, header) := pv_header_decode header_bytes in
  if negb (is_ok status) then (status, [], header_zero, fd) else
  let expected_size := u64 (PV_FILE_HEADER_LEN + h_body_ciphertext_len header) in
  if (INT64_MAX <? expected_size) || negb (st_size st =? expected_size) then (PV_ERR_FORMAT, [], header_zero, fd) else
  (PV_OK, header_bytes, header, fd).

(** The ciphertext and the end of the file: the status and the bytes. *)
Definition read_disk_body (header : pv_file_header) (fd : reader_fd) : pv_status * list Z :=
  let '(status, ciphertext, fd) := store_read_all fd (h_body_ciphertext_len header) in
  if negb (is_ok status) then (status, ciphertext) else
  match read_extra (r_sched fd) (r_data fd) with
  | Transferred [] => (PV_OK, ciphertext)
  | _ => (PV_ERR_FORMAT, ciphertext)
  end.

(** The status, and the file when it is [PV_OK]. *)
Definition read_disk_file_at (d : Z) (name : list Z) : W (pv_status * pv_disk_file) :=
  r ← open_private_snapshot_at d name;
  match r with
  | (status, None, _) => mret (status, disk_zero)
  | (_, Some (file, st), _) =>
      let '(status, header_bytes, header, fd) := read_disk_header st (in_fd file) in
      if negb (is_ok status) then _ ← close; mret (status, disk_zero) else
      allocated ← lift sodium_malloc;
      if negb allocated then _ ← close; mret (PV_ERR_NOMEM, disk_zero) else
      let '(status, ciphertext) := read_disk_body header fd in
      closed ← close;
      let status := if negb closed && is_ok status then PV_ERR_IO else status in
      if negb (is_ok status) then mret (status, disk_zero) else
      let '(status, hash) := hash_disk_file header_bytes ciphertext in
      mret (if is_ok status then (PV_OK, mk_disk_file header_bytes header ciphertext hash st)
            else (status, disk_zero))
  end.

Definition read_disk_file (path : list Z) : W (pv_status * pv_disk_file) :=
  r ← open_store_location path;
  match r with
  | (status, None) => mret (status, disk_zero)
  | (_, Some location) =>
      r ← read_disk_file_at (directory_fd location) (location_name location);
      let '(status, disk) := r in
      valid ← (if is_ok status then revalidate_store_location path location else mret PV_OK);
      _ ← close_store_location;
      mret (if negb (is_ok valid) then (PV_ERR_LOCKED, disk_zero) else (status, disk))
  end.

(** ** Directories *)

(** [dirname] of the C library. *)
Fixpoint drop_slashes (reversed : list Z) : list Z :=
  match reversed with
  | c :: rest => if c =? 47 then drop_slashes rest else reversed
  | [] => []
  end.
Definition strip_slashes (path : list Z) : list Z := rev (drop_slashes (rev path)).
Definition dirname (path : list Z) : list Z :=
  let trimmed := strip_slashes path in
  if zlen trimmed =? 0 then (if zlen path =? 0 then cstr "." else cstr "/") else
  match strrchr_slash trimmed with
  | None => cstr "."
  | Some slash =>
      let parent := strip_slashes (zsub trimmed 0 slash) in
      if zlen parent =? 0 then cstr "/" else parent
  end.

Definition store_fsync_parent_path (path : list Z) : W pv_status :=
  if PATH_MAX <=? zlen path then mret PV_ERR_LIMIT else
  fd ← open_directory (dirname path);
  match fd with
  | None => mret PV_ERR_IO
  | Some d =>
      synced ← fsync_directory d;
      let status := if negb synced then PV_ERR_IO else PV_OK in
      closed ← close;
      mret (if negb closed && is_ok status then PV_ERR_IO else status)
  end.

Definition make_directory (path : list Z) : W pv_status :=
  made ← mkdir path;
  match made with
  | None => store_fsync_parent_path path
  | Some e =>
      if negb (bool_decide (e = EEXIST)) then mret PV_ERR_IO else
      st ← lstat path;
      mret match st with
           | inl st => if negb (S_ISDIR (st_mode st)) || S_ISLNK (st_mode st) then PV_ERR_IO else PV_OK
           | inr _ => PV_ERR_IO
           end
  end.

(** The checks on the opened directory, in order, until one fails. *)
Definition private_directory_ok (d : Z) : W bool :=
  st ← fstat d;
  match st with
  | None => mret false
  | Some st =>
      if negb (S_ISDIR (st_mode st)) || negb (st_uid st =? geteuid) then mret false else
      changed ← fchmod d 448;
      if negb changed then mret false else
      st ← fstat d;
      mret match st with Some st => access_bits (st_mode st) =? 448 | None => false end
  end.

(** The status and the directory. *)
Definition make_private_directory_at (parent_fd : Z) (name : list Z) : W (pv_status * option Z) :=
  if (zlen name =? 0) || negb (is_null (find_char name 47)) then mret (PV_ERR_USAGE, None) else
  made ← mkdirat parent_fd name;
  let created := match made with None => true | Some _ => false end in
  if match made with Some e => negb (bool_decide (e = EEXIST)) | None => false end then mret (PV_ERR_IO, None) else
  fd ← openat_directory parent_fd name;
  match fd with
  | None => mret (PV_ERR_IO, None)
  | Some d =>
      ok ← private_directory_ok d;
      if negb ok then _ ← close; mret (PV_ERR_IO, None) else
      synced ← (if created then fsync_directory parent_fd else mret true);
      if negb synced then _ ← close; mret (PV_ERR_IO, None) else
      mret (PV_OK, Some d)
  end.

Definition validate_parent_security (path : list Z) : W pv_status :=
  r ← open_private_parent path;
  match r with
  | (status, None, _, _) => mret status
  | (status, Some _, _, _) =>
      closed ← close;
      mret (if negb closed then PV_ERR_IO else status)
  end.

(** The tokens [strtok(path, "/")] yields; [word] is the one being read. *)
Fixpoint path_components (path word : list Z) : list (list Z) :=
  match path with
  | [] => if zlen word =? 0 then [] else [word]
  | c :: path =>
      if c =? 47 then (if zlen word =? 0 then path_components path [] else word :: path_components path [])
      else path_components path (word ++ [c])
  end.

(** Creates the directories named by the components under [current]. *)
Fixpoint make_directories (current : list Z) (components : list (list Z)) : W pv_status :=
  match components with
  | [] => mret PV_OK
  | component :: components =>
      let used := zlen current in
      let text := (if 1 <? used then cstr "/" else []) ++ component in
      if PATH_MAX - used <=? zlen text then mret PV_ERR_LIMIT else
      let current := current ++ text in
      status ← make_directory current;
      if negb (is_ok status) then mret status else make_directories current components
  end.

(** [parent_len] is the size of the caller's buffer. *)
Definition ensure_parent_directory (path : list Z) (parent_len : Z) : W pv_status :=
  if negb (znth path 0 =? 47) || (PATH_MAX <=? zlen path) then mret PV_ERR_USAGE else
  match strrchr_slash path with
  | None | Some 0 => mret (if parent_len <? 2 then PV_ERR_LIMIT else PV_OK)
  | Some slash =>
      let scratch := zsub path 0 slash in
      if parent_len <=? zlen scratch then mret PV_ERR_LIMIT else
      status ← make_directories (cstr "/") (path_components (drop 1 scratch) []);
      if negb (is_ok status) then mret status else
      validate_parent_security path
  end.

(** ** The lock *)

(** The status and the location held, its lock file open and locked. *)
Definition lock_vault (path : list Z) : W (pv_status * option pv_store_location) :=
  r ← open_store_location path;
  match r with
  | (status, None) => mret (status, None)
  | (_, Some location) =>
      let failed status := _ ← close_store_location; mret (status, None) in
      let lock_name := location_name location ++ cstr ".lock" in
      if PATH_MAX <=? zlen lock_name then failed PV_ERR_LIMIT else
      lock_fd ← openat_create (directory_fd location) lock_name;
      match lock_fd with
      | None => failed PV_ERR_IO
      | Some lock =>
          st ← fstat lock;
          let bad :=
            match st with
            | None => true
            | Some st => negb (S_ISREG (st_mode st)) || negb (st_uid st =? geteuid) || negb (st_nlink st =? 1)
            end in
          changed ← (if bad : bool then mret false else fchmod lock 384);
          if negb changed then _ ← close; failed PV_ERR_IO else
          locked ← flock;
          match locked with
          | None => mret (PV_OK, Some location)
          | Some e => _ ← close; failed (if bool_decide (e = EWOULDBLOCK) then PV_ERR_LOCKED else PV_ERR_IO)
          end
      end
  end.

(** [flock(LOCK_UN)], [close] and [close_store_location]. *)
Definition unlock_vault : W unit := _ ← call; _ ← close; close_store_location.

(** ** Writing *)

(** ["%08x"] of a [uint32_t]. *)
Definition hex8 (value : Z) : list Z :=
  concat (map hex_digits [u8 (Z.shiftr value 24); u8 (Z.shiftr value 16); u8 (Z.shiftr value 8); u8 value]).

(** ["%s.tmp.%08x"]. *)
Definition temporary_name (name : list Z) (random_suffix : Z) : list Z :=
  name ++ cstr ".tmp." ++ hex8 random_suffix.

(** The loop that creates a temporary file; the three writers have the same. *)
Fixpoint open_temporary (attempts : nat) (d : Z) (name : list Z) : W (pv_status + (list Z * wfile)) :=
  match attempts with
  | O => mret (inl PV_ERR_IO)
  | S attempts =>
      bytes ← lift (randombytes_buf 4);
      let temporary := temporary_name name (get_u32_le bytes) in
      if PATH_MAX <=? zlen temporary then mret (inl PV_ERR_LIMIT) else
      opened ← openat_excl d temporary;
      match opened with
      | inl file => mret (inr (temporary, file))
      | inr e => if negb (bool_decide (e = EEXIST)) then mret (inl PV_ERR_IO) else open_temporary attempts d name
      end
  end.

(** From [write_all] of the header to [close]: the status. *)
Definition fill_temporary (file : wfile) (header ciphertext : list Z) : W pv_status :=
  r ← store_write_all file header;
  let '(status, file) := r in
  r ← (if is_ok status then store_write_all file ciphertext else mret (status, file));
  let '(status, file) := r in
  private ← (if is_ok status then fstat_private (out_ino file) else mret true);
  let status := if negb private then PV_ERR_IO else status in
  synced ← (if is_ok status then fsync_file (out_ino file) else mret true);
  let status := if negb synced then PV_ERR_IO else status in
  closed ← close;
  mret (if is_ok status && negb closed then PV_ERR_IO else status).

(** From [store_renameat] to the end; [durability] is the status when the
    directory cannot be synced. *)
Definition publish (d : Z) (temporary name : list Z) (no_replace : bool) (durability status : pv_status) : W pv_status :=
  renamed ← (if is_ok status then
               e ← store_renameat d temporary name no_replace;
               mret match e with
                    | None => (PV_OK, true)
                    | Some e => (if no_replace && bool_decide (e = EEXIST) then PV_ERR_EXISTS else PV_ERR_IO, false)
                    end
             else mret (status, false));
  let '(status, published) := renamed in
  synced ← (if is_ok status then fsync_directory d else mret true);
  let status := if negb synced then durability else status in
  if published : bool then mret status else
  _ ← unlinkat d temporary;
  mret status.

Definition write_atomic_at (location : pv_store_location) (header ciphertext : list Z) (no_replace : bool) : W pv_status :=
  let d := directory_fd location in
  if zlen ciphertext =? 0 then mret PV_ERR_USAGE else
  opened ← open_temporary 32 d (location_name location);
  match opened with
  | inl status => mret status
  | inr (temporary, file) =>
      private ← fstat_private (out_ino file);
      if negb private then _ ← close; _ ← unlinkat d temporary; mret PV_ERR_IO else
      status ← fill_temporary file header ciphertext;
      publish d temporary (location_name location) no_replace PV_ERR_DURABILITY status
  end.

(** The copy after the schedule of the source: [n] more transfers of up to 65536
    bytes, and one that finds the end of the file. *)
Fixpoint copy_rest (n : nat) (input : list Z) (output : wfile) : W (pv_status * wfile) :=
  match n with
  | O => mret (PV_OK, output)
  | S n =>
      r ← store_write_all output (zsub input 0 65536);
      let '(status, output) := r in
      if negb (is_ok status) then mret (status, output) else
      copy_rest n (drop (Z.to_nat 65536) input) output
  end.

(** The loop over the blocks of the source. *)
Fixpoint copy_loop (sched : list io_event) (input : list Z) (output : wfile) : W (pv_status * wfile) :=
  match sched with
  | [] => copy_rest (Z.to_nat ((zlen input + 65535) / 65536)) input output
  | _ :: sched' =>
      let '(result, fd) := read (mk_rfd input sched) 65536 in
      match result with
      | Interrupted => copy_loop sched' input output
      | Failed => mret (PV_ERR_IO, output)
      | Transferred bytes =>
          if zlen bytes =? 0 then mret (PV_OK, output) else
          r ← store_write_all output bytes;
          let '(status, output) := r in
          if negb (is_ok status) then mret (status, output) else
          copy_loop sched' (r_data fd) output
      end
  end.

Definition copy_file_exclusive_at (source_fd : Z) (source_name : list Z) (destination_fd : Z) (destination_name : list Z)
  : W pv_status :=
  r ← open_private_snapshot_at source_fd source_name;
  match r with
  | (status, None, _) => mret status
  | (_, Some (input, _), _) =>
      opened ← open_temporary 32 destination_fd destination_name;
      match opened with
      | inl status => _ ← close; mret status
      | inr (temporary, output) =>
          private ← fstat_private (out_ino output);
          r ← (if private : bool then copy_loop (r_sched (in_fd input)) (r_data (in_fd input)) output
               else mret (PV_ERR_IO, output));
          let '(status, output) := r in
          private ← (if is_ok status then fstat_private (out_ino output) else mret true);
          let status := if negb private then PV_ERR_IO else status in
          synced ← (if is_ok status then fsync_file (out_ino output) else mret true);
          let status := if negb synced then PV_ERR_IO else status in
          closed_input ← close;
          let status := if negb closed_input && is_ok status then PV_ERR_IO else status in
          closed_output ← close;
          let status := if negb closed_output && is_ok status then PV_ERR_IO else status in
          publish destination_fd temporary destination_name true PV_ERR_IO status
      end
  end.

(** From the first [fstat] to [close]: the status. *)
Definition fill_snapshot (file : wfile) (header ciphertext : list Z) (final_mode : Z) : W pv_status :=
  private ← fstat_private (out_ino file);
  let status := if private : bool then PV_OK else PV_ERR_IO in
  r ← (if is_ok status then store_write_all file header else mret (status, file));
  let '(status, file) := r in
  r ← (if is_ok status then store_write_all file ciphertext else mret (status, file));
  let '(status, file) := r in
  changed ← (if is_ok status then fchmod (out_ino file) final_mode else mret true);
  let status := if negb changed then PV_ERR_IO else status in
  private ← (if is_ok status then fstat_private (out_ino file) else mret true);
  let status := if negb private then PV_ERR_IO else status in
  synced ← (if is_ok status then fsync_file (out_ino file) else mret true);
  let status := if negb synced then PV_ERR_IO else status in
  closed ← close;
  mret (if is_ok status && negb closed then PV_ERR_IO else status).

Definition write_snapshot_exclusive_at (d : Z) (name header ciphertext : list Z) (final_mode : Z) : W pv_status :=
  if (zlen ciphertext =? 0) || (negb (final_mode =? 256) && negb (final_mode =? 384)) then mret PV_ERR_USAGE else
  opened ← open_temporary 32 d name;
  match opened with
  | inl status => mret status
  | inr (temporary, file) =>
      status ← fill_snapshot file header ciphertext final_mode;
      publish d temporary name true PV_ERR_DURABILITY status
  end.

Definition write_snapshot_exclusive (destination header ciphertext : list Z) (final_mode : Z) : W pv_status :=
  r ← open_store_location destination;
  match r with
  | (status, None) => mret status
  | (_, Some location) =>
      status ← write_snapshot_exclusive_at (directory_fd location) (location_name location) header ciphertext final_mode;
      valid ← (if is_ok status then revalidate_store_location destination location else mret PV_OK);
      _ ← close_store_location;
      mret (if negb (is_ok valid) then PV_ERR_DURABILITY else status)
  end.

End files.
