(* ===== verification/StoreOps.v ===== *)
(** * Vault storage: backups, saving, opening and restoring

    [src/store.c], second part: the automatic backups and their retention, and
    the operations the command line calls. A vault and a header passed by pointer
    are returned next to the status. *)

From stdpp Require Import gmap.
From S2P Require Import Prelude Status Util Sys Arena Model Cbor Crypto Posix Config Secure Fs Store.

(** ** Names of automatic backups *)

Definition PV_AUTO_BACKUP_PREFIX : list Z := cstr "auto-v1-".
Definition PV_AUTO_BACKUP_NAME_LEN : Z := 67.
Definition PV_AUTO_BACKUP_NAME_SIZE : Z := PV_AUTO_BACKUP_NAME_LEN + 1.
Definition PV_AUTO_BACKUP_VAULT_OFFSET : Z := 8.
Definition PV_AUTO_BACKUP_MARKER_OFFSET : Z := 40.
Definition PV_AUTO_BACKUP_GENERATION_OFFSET : Z := 42.
Definition PV_AUTO_BACKUP_EXTENSION_OFFSET : Z := 62.

Record pv_backup_candidate := mk_candidate {
  candidate_name : list Z;
  candidate_generation : Z;
  candidate_device : Z;
  candidate_inode : Z
}.

(** Its size on the LP64 ABI. *)
Definition sizeof_pv_backup_candidate : Z := 96.

Definition lowercase_hex_value (value : Z) : Z :=
  if (48 <=? value) && (value <=? 57) then value - 48 else
  if (97 <=? value) && (value <=? 102) then value - 97 + 10 else -1.

(** The last [n] decimal digits of a number ([printf] with zeros in front). *)
Definition zero_padded (n : nat) (v : Z) : list Z :=
  map (fun i => 48 + (v / 10 ^ (Z.of_nat n - 1 - Z.of_nat i)) mod 10) (seq 0 n).

(** The status and the name. *)
Definition format_automatic_backup_name (vault_id : list Z) (generation : Z) : pv_status * list Z :=
  if generation =? 0 then (PV_ERR_USAGE, []) else
  let vault_hex := default [] (pv_hex_encode (Some vault_id) (PV_VAULT_ID_BYTES * 2 + 1)) in
  if zlen vault_hex =? 0 then (PV_ERR_STATE, []) else
  let output := PV_AUTO_BACKUP_PREFIX ++ vault_hex ++ cstr "-g" ++ zero_padded 20 generation ++ cstr ".pvlt" in
  (if zlen output =? PV_AUTO_BACKUP_NAME_LEN then PV_OK else PV_ERR_LIMIT, zsub output 0 PV_AUTO_BACKUP_NAME_LEN).

(** The two loops of the parser, from an index on. *)
Fixpoint parse_vault_loop (name : list Z) (index : Z) (n : nat) : option (list Z) :=
  match n with
  | O => Some []
  | S n =>
      let high := lowercase_hex_value (znth name (PV_AUTO_BACKUP_VAULT_OFFSET + index * 2)) in
      let low := lowercase_hex_value (znth name (PV_AUTO_BACKUP_VAULT_OFFSET + index * 2 + 1)) in
      if (high <? 0) || (low <? 0) then None
      else cons (u8 (high * 16 + low)) <$> parse_vault_loop name (index + 1) n
  end.

Fixpoint parse_generation_loop (name : list Z) (index : Z) (n : nat) (parsed_generation : Z) : option Z :=
  match n with
  | O => Some parsed_generation
  | S n =>
      let digit_char := znth name (PV_AUTO_BACKUP_GENERATION_OFFSET + index) in
      if (digit_char <? 48) || (57 <? digit_char) then None else
      let digit := digit_char - 48 in
      if (UINT64_MAX - digit) / 10 <? parsed_generation then None else
      parse_generation_loop name (index + 1) n (parsed_generation * 10 + digit)
  end.

(** The identifier and the generation, [None] when the result is [false]. *)
Definition parse_automatic_backup_name (name : list Z) : option (list Z * Z) :=
  if negb (zlen name =? PV_AUTO_BACKUP_NAME_LEN) || negb (bytes_eqb (zsub name 0 8) PV_AUTO_BACKUP_PREFIX) ||
     negb (bytes_eqb (zsub name PV_AUTO_BACKUP_MARKER_OFFSET 2) (cstr "-g")) ||
     negb (bytes_eqb (zsub name PV_AUTO_BACKUP_EXTENSION_OFFSET 5) (cstr ".pvlt"))
  then None else
  vault_id ← parse_vault_loop name 0 (Z.to_nat PV_VAULT_ID_BYTES);
  generation ← parse_generation_loop name 0 20 0;
  if generation =? 0 then None else Some (vault_id, generation).

(** [strcmp]. *)
Fixpoint strcmp (a b : list Z) : Z :=
  match a, b with
  | [], [] => 0
  | [], _ => -1
  | _, [] => 1
  | x :: a, y :: b => if x =? y then strcmp a b else if x <? y then -1 else 1
  end.

Definition compare_backup_candidates (a b : pv_backup_candidate) : Z :=
  if candidate_generation a <? candidate_generation b then -1 else
  if candidate_generation b <? candidate_generation a then 1 else
  strcmp (candidate_name a) (candidate_name b).

(** [qsort]: the array ordered by the comparison. *)
Fixpoint insert_candidate (c : pv_backup_candidate) (l : list pv_backup_candidate) : list pv_backup_candidate :=
  match l with
  | [] => [c]
  | x :: l' => if compare_backup_candidates c x <=? 0 then c :: l else x :: insert_candidate c l'
  end.
Definition qsort_candidates (l : list pv_backup_candidate) : list pv_backup_candidate := foldr insert_candidate [] l.

Section store.
Context `{Host} `{Sodium} `{Libcbor}.

(** [pv_cbor_decode]; the records it reads have identifiers, so that none is
    drawn and the decoder needs no fuel (lemma [decode_needs_no_fuel]). *)
Definition store_cbor_decode (input : list Z) (vault : pv_vault) : M (pv_status * pv_vault) :=
  r ← pv_cbor_decode 0 input vault;
  mret match r with Some r => r | None => (PV_ERR_STATE, vault) end.

Definition vmk_bytes (vault : pv_vault) : list Z := default (zeros PV_WRAP_KEY_BYTES) (v_vmk vault).

(** The status and [*output_stat]. *)
Definition validate_automatic_backup_entry (d : Z) (name vault_id vmk : list Z) (expected_generation : Z)
  : W (pv_status * stat) :=
  if expected_generation =? 0 then mret (PV_ERR_USAGE, stat_zero) else
  r ← read_disk_file_at d name;
  let '(status, disk) := r in
  r ← (if is_ok status then lift (pv_crypto_decrypt_body (disk_header disk) vmk (disk_ciphertext disk))
       else mret (status, None));
  let '(status, plaintext) := r in
  r ← (if is_ok status then lift (pv_model_init vault_zero (cstr ".")) else mret (status, vault_zero));
  let '(status, decoded) := r in
  let model_initialized := is_ok status in
  r ← (if is_ok status then lift (store_cbor_decode (default [] plaintext) decoded) else mret (status, decoded));
  let '(status, decoded) := r in
  let status :=
    if is_ok status &&
       (negb (bytes_eqb (h_vault_id (disk_header disk)) vault_id) || negb (v_generation decoded =? expected_generation))
    then PV_ERR_AUTH else status in
  _ ← (if model_initialized then lift (pv_model_destroy decoded) else mret vault_zero);
  mret (status, if is_ok status then disk_snapshot_stat disk else stat_zero).

(** ** Retention *)

(** The capacity of the array after room was made for one more. *)
Definition grow_candidates (count capacity : Z) : M (pv_status * Z) :=
  if negb (count =? capacity) then mret (PV_OK, capacity) else
  let next := if capacity =? 0 then 32 else u64 (capacity * 2) in
  if (next <? capacity) || is_null (pv_size_mul next sizeof_pv_backup_candidate) then mret (PV_ERR_LIMIT, capacity) else
  ok ← sodium_malloc;
  mret (if negb ok then (PV_ERR_NOMEM, capacity) else (PV_OK, next)).

(** The loop over the directory: the status and the candidates. *)
Fixpoint scan_backups (names : list (list Z)) (d : Z) (vault_id vmk : list Z) (maximum_generation : Z)
    (candidates : list pv_backup_candidate) (capacity : Z) : W (pv_status * list pv_backup_candidate) :=
  e ← call;
  match e, names with
  | Some _, _ => mret (PV_ERR_IO, candidates)
  | None, [] => mret (PV_OK, candidates)
  | None, name :: names =>
      match parse_automatic_backup_name name with
      | None => scan_backups names d vault_id vmk maximum_generation candidates capacity
      | Some (parsed_vault_id, generation) =>
          if negb (bytes_eqb parsed_vault_id vault_id)
          then scan_backups names d vault_id vmk maximum_generation candidates capacity else
          listed ← fstatat d name;
          match listed with
          | inr _ => mret (PV_ERR_IO, candidates)
          | inl listed_stat =>
              if negb (issue_ok (private_snapshot_stat_issue listed_stat)) then mret (PV_ERR_IO, candidates) else
              r ← validate_automatic_backup_entry d name vault_id vmk generation;
              let '(status, opened_stat) := r in
              if negb (is_ok status) then mret (status, candidates) else
              if negb (st_dev listed_stat =? st_dev opened_stat) || negb (st_ino listed_stat =? st_ino opened_stat)
              then mret (PV_ERR_IO, candidates) else
              if access_bits (st_mode opened_stat) =? 256
              then scan_backups names d vault_id vmk maximum_generation candidates capacity else
              if maximum_generation <? generation
              then scan_backups names d vault_id vmk maximum_generation candidates capacity else
              grown ← lift (grow_candidates (zlen candidates) capacity);
              if negb (is_ok (fst grown)) then mret (fst grown, candidates) else
              scan_backups names d vault_id vmk maximum_generation
                (candidates ++ [mk_candidate name generation (st_dev opened_stat) (st_ino opened_stat)]) (snd grown)
          end
      end
  end.

(** The name still is the private file that was validated. *)
Definition candidate_unchanged (d : Z) (c : pv_backup_candidate) : W bool :=
  r ← fstatat d (candidate_name c);
  mret match r with
       | inl current =>
           issue_ok (private_snapshot_stat_issue current) && (st_dev current =? candidate_device c) &&
           (st_ino current =? candidate_inode c)
       | inr _ => false
       end.

Fixpoint check_candidates (d : Z) (candidates : list pv_backup_candidate) : W pv_status :=
  match candidates with
  | [] => mret PV_OK
  | c :: candidates =>
      ok ← candidate_unchanged d c;
      if negb ok then mret PV_ERR_IO else check_candidates d candidates
  end.

(** The status and whether a file was deleted. *)
Fixpoint unlink_candidates (d : Z) (candidates : list pv_backup_candidate) (deleted : bool) : W (pv_status * bool) :=
  match candidates with
  | [] => mret (PV_OK, deleted)
  | c :: candidates =>
      ok ← candidate_unchanged d c;
      removed ← (if ok : bool then unlinkat d (candidate_name c) else mret false);
      if negb removed then mret (PV_ERR_IO, deleted) else unlink_candidates d candidates true
  end.

(** Removing the oldest of the candidates beyond [retention]. *)
Definition remove_oldest (d : Z) (candidates : list pv_backup_candidate) (retention : Z) : W (pv_status * bool) :=
  if zlen candidates <=? retention then mret (PV_OK, false) else
  let oldest := zsub (qsort_candidates candidates) 0 (zlen candidates - retention) in
  status ← check_candidates d oldest;
  if negb (is_ok status) then mret (status, false) else
  unlink_candidates d oldest false.

Definition prune_automatic_backups (held : Z) (vault_id vmk : list Z) (maximum_generation retention : Z) : W pv_status :=
  if (maximum_generation =? 0) || (retention =? 0) then mret PV_ERR_USAGE else
  st ← fstat held;
  let bad :=
    match st with
    | None => true
    | Some st =>
        negb (S_ISDIR (st_mode st)) || negb (st_uid st =? geteuid) || negb (access_bits (st_mode st) =? 448)
    end in
  if bad : bool then mret PV_ERR_IO else
  scan_fd ← call;
  if negb (is_null scan_fd) then mret PV_ERR_IO else
  stream ← opendir held;
  match stream with
  | None => _ ← close; mret PV_ERR_IO
  | Some names =>
      has_fd ← call;
      r ← (if negb (is_null has_fd) then mret (PV_ERR_IO, [])
           else scan_backups names held vault_id vmk maximum_generation [] 0);
      let '(status, candidates) := r in
      r ← (if is_ok status then remove_oldest held candidates retention else mret (status, false));
      let '(status, deleted) := r in
      synced ← (if deleted : bool then fsync_directory held else mret true);
      let status := if is_ok status && negb synced then PV_ERR_DURABILITY else status in
      closed ← close;
      mret (if negb closed && is_ok status then PV_ERR_IO else status)
  end.

(** ** The backup before a save *)

(** A backup of this generation is there already: it must be the same file. *)
Definition existing_backup (d : Z) (backup_name : list Z) (vault : pv_vault) (snapshot : pv_disk_file) : W pv_status :=
  r ← read_disk_file_at d backup_name;
  let '(status, existing) := r in
  if is_ok status &&
     (negb (bytes_eqb (h_vault_id (disk_header existing)) (v_vault_id vault)) ||
      negb (bytes_eqb (disk_hash existing) (disk_hash snapshot)))
  then mret PV_ERR_EXISTS
  else if bool_decide (status = PV_ERR_FORMAT) || bool_decide (status = PV_ERR_UNSUPPORTED) then mret PV_ERR_EXISTS
  else if is_ok status then
    synced ← fsync_directory d;
    mret (if negb synced then PV_ERR_IO else status)
  else mret status.

(** The status and [*backup_directory_fd]. *)
Definition automatic_backup (active : pv_store_location) (vault : pv_vault) (snapshot : pv_disk_file)
    (snapshot_generation : Z) : W (pv_status * option Z) :=
  r ← make_private_directory_at (directory_fd active) (cstr "backups");
  match r with
  | (status, None) => mret (status, None)
  | (_, Some d) =>
      let '(status, backup_name) := format_automatic_backup_name (v_vault_id vault) snapshot_generation in
      if negb (is_ok status) then mret (status, Some d) else
      status ← write_snapshot_exclusive_at d backup_name (disk_header_bytes snapshot) (disk_ciphertext snapshot) 384;
      let status := if bool_decide (status = PV_ERR_DURABILITY) then PV_ERR_IO else status in
      status ← (if bool_decide (status = PV_ERR_EXISTS) then existing_backup d backup_name vault snapshot
                else mret status);
      if negb (is_ok status) then _ ← close; mret (status, None) else mret (status, Some d)
  end.

(** ** Saving *)

(** Assignments to members of the vault. *)
Definition set_generation_time (v : pv_vault) (generation updated_ms : Z) : pv_vault :=
  set_dirty (set_generation v generation) updated_ms (v_dirty v).
Definition set_source_hash (v : pv_vault) (hash : list Z) : pv_vault :=
  mk_vault (v_arena v) (v_vault_id v) (v_device_id v) (v_generation v) (v_created_ms v) (v_updated_ms v)
    (v_records v) (v_record_capacity v) (v_vmk v) hash (v_dirty v) (v_path v).
Definition set_identity (v : pv_vault) (vault_id : list Z) (vmk : option (list Z)) : pv_vault :=
  mk_vault (v_arena v) vault_id (v_device_id v) (v_generation v) (v_created_ms v) (v_updated_ms v)
    (v_records v) (v_record_capacity v) vmk (v_source_hash v) (v_dirty v) (v_path v).

(** The checks before anything is written: an early return, or the file the save
    will replace ([None] when there is none). *)
Definition load_current (location : pv_store_location) (vault : pv_vault) (create_only : bool)
  : W (pv_status + option pv_disk_file) :=
  if v_generation vault =? UINT64_MAX then mret (inl PV_ERR_LIMIT) else
  r ← path_entry_exists_at (directory_fd location) (location_name location);
  let '(status, exists_) := r in
  if negb (is_ok status) then mret (inl status) else
  if (create_only && exists_) || (negb create_only && negb exists_)
  then mret (inl (if create_only then PV_ERR_EXISTS else PV_ERR_LOCKED)) else
  if negb exists_ then mret (inr None) else
  r ← read_disk_file_at (directory_fd location) (location_name location);
  let '(status, current) := r in
  if negb (is_ok status) then mret (inl status) else
  if negb (access_bits (st_mode (disk_snapshot_stat current)) =? 384) then mret (inl PV_ERR_IO) else
  if negb (bytes_eqb (disk_hash current) (v_source_hash vault)) ||
     negb (bytes_eqb (h_vault_id (disk_header current)) (v_vault_id vault))
  then mret (inl PV_ERR_LOCKED) else
  mret (inr (Some current)).

(** Encoding and encryption: the status, the header, its bytes and the
    ciphertext. *)
Definition seal_vault (vault : pv_vault) (header : pv_file_header)
  : M (pv_status * pv_file_header * list Z * list Z) :=
  r ← pv_cbor_encode vault;
  let '(status, encoded) := r in
  if negb (is_ok status) then mret (status, header, [], []) else
  r ← pv_crypto_encrypt_body header (vmk_bytes vault) (default [] encoded);
  let '(status, header, ciphertext) := r in
  mret (status, header, if is_ok status then serialized_header header else [], default [] ciphertext).

(** Reading the new file back: verified, the vault with its hash, and whether
    there is a warning. *)
Definition read_back (location : pv_store_location) (vault : pv_vault) (header_bytes ciphertext : list Z)
    (commit_warning : bool) : W (bool * pv_vault * bool) :=
  r ← read_disk_file_at (directory_fd location) (location_name location);
  let '(readback_status, written) := r in
  let verified :=
    is_ok readback_status && (zlen (disk_ciphertext written) =? zlen ciphertext) &&
    bytes_eqb (disk_header_bytes written) header_bytes && bytes_eqb (disk_ciphertext written) ciphertext in
  let vault := if verified then set_source_hash vault (disk_hash written) else vault in
  let commit_warning := commit_warning || negb verified in
  valid ← revalidate_store_location (v_path vault) location;
  mret (verified, vault, commit_warning || negb (is_ok valid)).

(** What follows the readback of a committed save. *)
Definition finish_save (vault : pv_vault) (verified commit_warning : bool) (backup_directory : option Z)
    (previous_generation retention : Z) : W pv_vault :=
  if negb verified then mret vault else
  let vault := set_dirty vault (v_updated_ms vault) false in
  r ← lift (pv_arena_set_readonly (v_arena vault));
  let vault := set_arena vault (snd r) in
  _ ← (match backup_directory with
       | Some d =>
           if negb commit_warning
           then prune_automatic_backups d (v_vault_id vault) (vmk_bytes vault) previous_generation retention
           else mret PV_OK
       | None => mret PV_OK
       end);
  mret vault.

(** The backup of the current file and the atomic replacement: the status and
    the directory of the backups. *)
Definition commit_save (location : pv_store_location) (vault : pv_vault) (current : option pv_disk_file)
    (previous_generation : Z) (create_only : bool) (status : pv_status) (header_bytes ciphertext : list Z)
  : W (pv_status * option Z) :=
  r ← (match current with
       | Some current =>
           if is_ok status then automatic_backup location vault current previous_generation else mret (status, None)
       | None => mret (status, None)
       end);
  let '(status, backup_directory) := r in
  valid ← (if is_ok status then revalidate_store_location (v_path vault) location else mret PV_OK);
  let status := if negb (is_ok valid) then PV_ERR_LOCKED else status in
  status ← (if is_ok status then write_atomic_at location header_bytes ciphertext create_only else mret status);
  mret (status, backup_directory).

Definition save_locked (location : pv_store_location) (vault : pv_vault) (header : pv_file_header) (retention : Z)
    (create_only : bool) : W (pv_status * pv_vault * pv_file_header) :=
  loaded ← load_current location vault create_only;
  match loaded with
  | inl status => mret (status, vault, header)
  | inr current =>
      let previous_generation := v_generation vault in
      let previous_updated_ms := v_updated_ms vault in
      now ← lift now_ms;
      let vault := set_generation_time vault (u64 (v_generation vault + 1)) now in
      sealed ← lift (seal_vault vault header);
      let '(status, header, header_bytes, ciphertext) := sealed in
      r ← commit_save location vault current previous_generation create_only status header_bytes ciphertext;
      let '(status, backup_directory) := r in
      if is_ok status || bool_decide (status = PV_ERR_DURABILITY) then
        r ← read_back location vault header_bytes ciphertext (negb (is_ok status));
        let '(verified, vault, commit_warning) := r in
        vault ← finish_save vault verified commit_warning backup_directory previous_generation retention;
        _ ← (match backup_directory with Some _ => close | None => mret true end);
        mret (if commit_warning || negb verified then PV_ERR_DURABILITY else PV_OK, vault, header)
      else
        let vault := set_generation_time vault (u64 (v_generation vault - 1)) previous_updated_ms in
        _ ← (match backup_directory with Some _ => close | None => mret true end);
        mret (status, vault, header)
  end.

(** The status, the vault and the header; the caller's structures are left alone
    when nothing is done. *)
Definition pv_store_save (vault : pv_vault) (header : pv_file_header) (backup_retention : Z)
  : W (pv_status * pv_vault * pv_file_header) :=
  if negb (v_dirty vault) then mret (PV_OK, vault, header) else
  if backup_retention =? 0 then mret (PV_ERR_USAGE, vault, header) else
  r ← lock_vault (v_path vault);
  match r with
  | (status, None) => mret (status, vault, header)
  | (_, Some location) =>
      r ← save_locked location vault header backup_retention false;
      _ ← unlock_vault;
      mret r
  end.

(** ** Creating *)

(** A new vault with random identity and key, ready for its first save. *)
Definition new_identity (vault : pv_vault) : M pv_vault :=
  vault_id ← randombytes_buf PV_VAULT_ID_BYTES;
  device_id ← randombytes_buf PV_DEVICE_ID_BYTES;
  vmk ← randombytes_buf PV_WRAP_KEY_BYTES;
  now ← now_ms;
  mret (set_times (set_generation (set_device_id (set_identity vault vault_id (Some vmk)) device_id) 0) now now true).

(** The status, the consumed password ([None] when it is not consumed) and the
    vault. *)
Definition create_common (path password recovery_key : list Z) (consumed_password : option pv_buffer) (vault : pv_vault)
  : W (pv_status * option pv_buffer * pv_vault) :=
  let freed := pv_buffer_secure_free consumed_password in
  status ← ensure_parent_directory path PATH_MAX;
  if negb (is_ok status) then mret (status, freed, vault) else
  r ← lock_vault path;
  match r with
  | (status, None) => mret (status, freed, vault)
  | (_, Some location) =>
      r ← path_entry_exists_at (directory_fd location) (location_name location);
      let '(status, exists_) := r in
      if negb (is_ok status) || exists_ then
        _ ← unlock_vault; mret (if negb (is_ok status) then status else PV_ERR_EXISTS, freed, vault)
      else
      r ← lift (pv_model_init vault path);
      let '(status, vault) := r in
      if negb (is_ok status) then _ ← unlock_vault; mret (status, freed, vault) else
      vault ← lift (new_identity vault);
      let header := mk_header (h_magic header_zero) 0 0 0 0 (v_vault_id vault) 0 0 0 0 (h_password_slot header_zero)
                      (h_recovery_slot header_zero) (h_body_nonce header_zero) 0 in
      r ← lift (pv_crypto_create_header header password recovery_key (vmk_bytes vault));
      let '(status, header) := r in
      r ← (if is_ok status then save_locked location vault header PV_DEFAULT_BACKUP_RETENTION true
           else mret (status, vault, header));
      let '(status, vault, _) := r in
      _ ← unlock_vault;
      vault ← (if negb (is_ok status) && negb (bool_decide (status = PV_ERR_DURABILITY))
               then lift (pv_model_destroy vault) else mret vault);
      mret (status, freed, vault)
  end.

Definition pv_store_create (path password recovery_key : list Z) (vault : pv_vault) : W (pv_status * pv_vault) :=
  r ← create_common path password recovery_key None vault;
  mret (fst (fst r), snd r).

(** A credential of a [_consume] variant is a secure buffer with something in
    it; otherwise it is freed at once. *)
Definition pv_store_create_consume (path : list Z) (password : pv_buffer) (recovery_key : list Z) (vault : pv_vault)
  : W (pv_status * option pv_buffer * pv_vault) :=
  match b_data password with
  | Some data =>
      if (b_len password =? 0) || negb (b_secure password)
      then mret (PV_ERR_USAGE, pv_buffer_secure_free (Some password), vault)
      else create_common path (zsub data 0 (b_len password)) recovery_key (Some password) vault
  | None => mret (PV_ERR_USAGE, pv_buffer_secure_free (Some password), vault)
  end.

(** ** Opening *)

(** The buffer for the key: [sodium_malloc] and [sodium_mlock]. *)
Definition vmk_alloc : M bool :=
  ok ← sodium_malloc;
  if negb ok then mret false else sodium_mlock.

(** The status and the key. *)
Definition unlock_credential (header : pv_file_header) (credential : list Z) (recovery : bool) : M (pv_status * list Z) :=
  let vmk := zeros PV_WRAP_KEY_BYTES in
  if recovery then
    if negb (zlen credential =? PV_RECOVERY_KEY_BYTES) then mret (PV_ERR_AUTH, vmk)
    else pv_crypto_unlock_recovery header credential vmk
  else pv_crypto_unlock_password header credential vmk.

(** From the decrypted body to the vault. *)
Definition build_vault (path : list Z) (disk : pv_disk_file) (vmk plaintext : list Z) : M (pv_status * pv_vault) :=
  r ← pv_model_init vault_zero path;
  let '(status, vault) := r in
  if negb (is_ok status) then mret (status, vault) else
  let vault := set_source_hash (set_identity vault (h_vault_id (disk_header disk)) (Some vmk)) (disk_hash disk) in
  r ← store_cbor_decode plaintext vault;
  let '(status, vault) := r in
  mret (if is_ok status && negb (bytes_eqb (v_vault_id vault) (h_vault_id (disk_header disk)))
        then PV_ERR_AUTH else status, vault).

(** The status, the consumed credential, the vault and [*header]. *)
Definition open_common (path credential : list Z) (recovery : bool) (consumed_credential : option pv_buffer)
    (header : pv_file_header) : W (pv_status * option pv_buffer * pv_vault * pv_file_header) :=
  let freed := pv_buffer_secure_free consumed_credential in
  r ← read_disk_file path;
  let '(status, disk) := r in
  if negb (is_ok status) then mret (status, freed, vault_zero, header) else
  allocated ← lift vmk_alloc;
  if negb allocated then mret (PV_ERR_SECURE_MEMORY, freed, vault_zero, header) else
  r ← lift (unlock_credential (disk_header disk) credential recovery);
  let '(status, vmk) := r in
  r ← (if is_ok status then lift (pv_crypto_decrypt_body (disk_header disk) vmk (disk_ciphertext disk))
       else mret (status, None));
  let '(status, plaintext) := r in
  r ← (if is_ok status then lift (build_vault path disk vmk (default [] plaintext)) else mret (status, vault_zero));
  let '(status, vault) := r in
  vault ← (if negb (is_ok status) && a_base (v_arena vault) then lift (pv_model_destroy vault) else mret vault);
  mret (status, freed, vault, if is_ok status then disk_header disk else header).

Definition pv_store_open_password (path password : list Z) (header : pv_file_header)
  : W (pv_status * pv_vault * pv_file_header) :=
  r ← open_common path password false None header;
  let '(status, _, vault, header) := r in
  mret (status, vault, header).

Definition pv_store_open_password_consume (path : list Z) (password : pv_buffer) (vault : pv_vault) (header : pv_file_header)
  : W (pv_status * option pv_buffer * pv_vault * pv_file_header) :=
  match b_data password with
  | Some data =>
      if (b_len password =? 0) || negb (b_secure password)
      then mret (PV_ERR_USAGE, pv_buffer_secure_free (Some password), vault, header)
      else open_common path (zsub data 0 (b_len password)) false (Some password) header
  | None => mret (PV_ERR_USAGE, pv_buffer_secure_free (Some password), vault, header)
  end.

Definition pv_store_open_recovery (path recovery_key : list Z) (header : pv_file_header)
  : W (pv_status * pv_vault * pv_file_header) :=
  r ← open_common path (zsub recovery_key 0 PV_RECOVERY_KEY_BYTES) true None header;
  let '(status, _, vault, header) := r in
  mret (status, vault, header).

Definition pv_store_open_recovery_consume (path : list Z) (recovery_key : pv_buffer) (vault : pv_vault) (header : pv_file_header)
  : W (pv_status * option pv_buffer * pv_vault * pv_file_header) :=
  match b_data recovery_key with
  | Some data =>
      if negb (b_len recovery_key =? PV_RECOVERY_KEY_BYTES) || negb (b_secure recovery_key)
      then mret (PV_ERR_USAGE, pv_buffer_secure_free (Some recovery_key), vault, header)
      else open_common path (zsub data 0 PV_RECOVERY_KEY_BYTES) true (Some recovery_key) header
  | None => mret (PV_ERR_USAGE, pv_buffer_secure_free (Some recovery_key), vault, header)
  end.

(** ** Copies *)

Definition write_exact_snapshot_copy (source : pv_disk_file) (output_path : list Z) (final_mode : Z) : W pv_status :=
  if negb (final_mode =? 256) && negb (final_mode =? 384) then mret PV_ERR_USAGE else
  status ← write_snapshot_exclusive output_path (disk_header_bytes source) (disk_ciphertext source) final_mode;
  if is_ok status || bool_decide (status = PV_ERR_DURABILITY) then
    r ← read_disk_file output_path;
    let '(readback_status, recovered) := r in
    mret (if negb (is_ok readback_status) || negb (zlen (disk_ciphertext recovered) =? zlen (disk_ciphertext source)) ||
             negb (bytes_eqb (disk_header_bytes recovered) (disk_header_bytes source)) ||
             negb (bytes_eqb (disk_ciphertext recovered) (disk_ciphertext source)) ||
             negb (bytes_eqb (disk_hash recovered) (disk_hash source)) ||
             negb (access_bits (st_mode (disk_snapshot_stat recovered)) =? final_mode)
          then PV_ERR_DURABILITY else status)
  else mret status.

(** [expected_hash] may be the null pointer. *)
Definition pv_store_backup (vault_path output_path : list Z) (expected_hash : option (list Z)) : W pv_status :=
  r ← read_disk_file vault_path;
  let '(status, disk) := r in
  if negb (is_ok status) then mret status else
  if match expected_hash with Some hash => negb (bytes_eqb (disk_hash disk) hash) | None => false end
  then mret PV_ERR_AUTH else
  write_exact_snapshot_copy disk output_path 384.

(** The status, the header and the length of the ciphertext. *)
Definition pv_store_inspect (path : list Z) : W (pv_status * pv_file_header * Z) :=
  r ← read_disk_file path;
  let '(status, disk) := r in
  if negb (is_ok status) then mret (status, header_zero, 0) else
  mret (PV_OK, disk_header disk, zlen (disk_ciphertext disk)).

Definition pv_store_recover_authenticated (snapshot_path output_path expected_hash : list Z) : W pv_status :=
  r ← read_disk_file snapshot_path;
  let '(status, source) := r in
  if negb (is_ok status) then mret status else
  if negb (bytes_eqb (disk_hash source) expected_hash) then mret PV_ERR_AUTH else
  write_exact_snapshot_copy source output_path 256.

(** ** Restoring *)

(** ["%020lld"]. *)
Definition signed_padded (v : Z) : list Z := if v <? 0 then 45 :: zero_padded 19 (- v) else zero_padded 20 v.

(** The copy of the active vault before it is replaced: the status and the
    directory of the copy. *)
Definition keep_active (location : pv_store_location) (backup : pv_disk_file) : W (pv_status * option Z) :=
  r ← read_disk_file_at (directory_fd location) (location_name location);
  let '(status, active) := r in
  let status :=
    if bool_decide (status = PV_ERR_FORMAT) || bool_decide (status = PV_ERR_UNSUPPORTED) then PV_ERR_EXISTS else status in
  let status :=
    if is_ok status && negb (bytes_eqb (h_vault_id (disk_header active)) (h_vault_id (disk_header backup)))
    then PV_ERR_AUTH else status in
  if negb (is_ok status) then mret (status, None) else
  r ← make_private_directory_at (directory_fd location) (cstr "backups");
  match r with
  | (status, None) => mret (status, None)
  | (_, Some d) =>
      suffix ← lift (randombytes_buf 4);
      now ← lift now_ms;
      let pre_restore := cstr "pre-restore-" ++ signed_padded now ++ cstr "-" ++ hex8 (get_u32_le suffix) ++ cstr ".pvlt" in
      if PATH_MAX <=? zlen pre_restore then mret (PV_ERR_LIMIT, Some d) else
      status ← copy_file_exclusive_at (directory_fd location) (location_name location) d pre_restore;
      mret (status, Some d)
  end.

(** Reading the restored file back: is there a warning. *)
Definition check_restored (vault_path : list Z) (location : pv_store_location) (backup : pv_disk_file)
    (commit_warning : bool) : W bool :=
  r ← read_disk_file_at (directory_fd location) (location_name location);
  let '(readback_status, written) := r in
  let commit_warning :=
    commit_warning || negb (is_ok readback_status) ||
    negb (zlen (disk_ciphertext written) =? zlen (disk_ciphertext backup)) ||
    negb (bytes_eqb (disk_header_bytes written) (disk_header_bytes backup)) ||
    negb (bytes_eqb (disk_ciphertext written) (disk_ciphertext backup)) in
  valid ← revalidate_store_location vault_path location;
  mret (commit_warning || negb (is_ok valid)).

(** From [lock_vault] on, with the lock held. *)
Definition restore_locked (vault_path : list Z) (location : pv_store_location) (backup : pv_disk_file) : W pv_status :=
  r ← path_entry_exists_at (directory_fd location) (location_name location);
  let '(status, active_exists) := r in
  r ← (if is_ok status && active_exists then keep_active location backup else mret (status, None));
  let '(status, backup_directory) := r in
  _ ← (match backup_directory with Some _ => close | None => mret true end);
  valid ← (if is_ok status then revalidate_store_location vault_path location else mret PV_OK);
  let status := if negb (is_ok valid) then PV_ERR_LOCKED else status in
  status ← (if is_ok status
            then write_atomic_at location (disk_header_bytes backup) (disk_ciphertext backup) (negb active_exists)
            else mret status);
  if is_ok status || bool_decide (status = PV_ERR_DURABILITY) then
    commit_warning ← check_restored vault_path location backup (negb (is_ok status));
    _ ← unlock_vault;
    mret (if commit_warning : bool then PV_ERR_DURABILITY else PV_OK)
  else _ ← unlock_vault; mret status.

Definition pv_store_restore (vault_path backup_path expected_hash : list Z) : W pv_status :=
  r ← read_disk_file backup_path;
  let '(status, backup) := r in
  if negb (is_ok status) then mret status else
  if negb (bytes_eqb (disk_hash backup) expected_hash) then mret PV_ERR_AUTH else
  r ← lock_vault vault_path;
  match r with
  | (status, None) => mret status
  | (_, Some location) => restore_locked vault_path location backup
  end.

(** ** Diagnosis *)

(** The C string [snprintf] leaves in a buffer. *)
Definition snprintf (message_len : Z) (text : list Z) : list Z := zsub text 0 (message_len - 1).

Definition issue_message (issue : pv_private_snapshot_issue) : list Z :=
  match issue with
  | PV_PRIVATE_SNAPSHOT_TYPE => cstr "vault path is not a regular non-symlink file"
  | PV_PRIVATE_SNAPSHOT_OWNER => cstr "vault file is not owned by the current user"
  | PV_PRIVATE_SNAPSHOT_LINKS => cstr "vault file has additional hard links"
  | PV_PRIVATE_SNAPSHOT_MODE => cstr "vault permissions must be exactly 0400 or 0600"
  | _ => cstr "vault path metadata is unsafe"
  end.

(** Is the lock file unsafe. *)
Definition lock_file_unsafe (path : list Z) : W bool :=
  let lock_path := path ++ cstr ".lock" in
  if PATH_MAX <=? zlen lock_path then mret true else
  r ← lstat lock_path;
  mret match r with
       | inr e => negb (bool_decide (e = ENOENT))
       | inl st =>
           negb (S_ISREG (st_mode st)) || S_ISLNK (st_mode st) || negb (st_uid st =? geteuid) ||
           negb (st_nlink st =? 1) || negb (access_bits (st_mode st) =? 384)
       end.

(** The status and the message, [None] when it is not written. *)
Definition pv_store_doctor (path : list Z) (message_len : Z) : W (pv_status * option (list Z)) :=
  let say text := Some (snprintf message_len text) in
  if message_len =? 0 then mret (PV_ERR_USAGE, None) else
  r ← lstat path;
  match r with
  | inr _ => mret (PV_ERR_IO, say (cstr "vault path is inaccessible"))
  | inl st =>
      let issue := private_snapshot_stat_issue st in
      if negb (issue_ok issue) then mret (PV_ERR_IO, say (issue_message issue)) else
      parent ← validate_parent_security path;
      if negb (is_ok parent)
      then mret (PV_ERR_IO, say (cstr "vault parent directory is unsafe or writable by another user")) else
      lock_unsafe ← lock_file_unsafe path;
      if lock_unsafe : bool
      then mret (PV_ERR_IO, say (cstr "vault lockfile ownership or permissions are unsafe")) else
      r ← read_disk_file path;
      let '(status, disk) := r in
      if negb (is_ok status)
      then mret (status, say (cstr "vault structure invalid: " ++ cstr (pv_status_string status))) else
      mret (status, say (cstr "structure OK; format " ++ decimal (h_major (disk_header disk)) ++ cstr "." ++
                         decimal (h_minor (disk_header disk)) ++ cstr "; encrypted payload " ++
                         decimal (zlen (disk_ciphertext disk)) ++ cstr " bytes"))
  end.

End store.
