(* ===== verification/FsFacts.v ===== *)
(** * Reasoning about the file system

    A weakest precondition for computations on the file system: [wp J m Q w] says
    that running [m] from [w] ends in a result and a state that satisfy [Q], and
    that every file system it goes through satisfies [J]. [extends X f f'] is the
    frame of the store's operations: what was there stays, except the names
    in [X]. *)

From stdpp Require Import gmap.
From S2P Require Import Prelude Status Util Sys Posix Fs.

Create HintDb calm.

(** ** A platform and a kernel on which nothing fails *)

(** The streams of [s'] are what [s] has left after some calls. *)
Definition suffix_of {A} (g g' : nat -> A) : Prop := exists k, forall i, g' i = g (k + i)%nat.

Record later (s s' : sys) : Prop := mk_later {
  later_malloc : suffix_of (s_malloc s) (s_malloc s');
  later_mlock : suffix_of (s_mlock s) (s_mlock s');
  later_mprotect : suffix_of (s_mprotect s) (s_mprotect s');
  later_clock : suffix_of (s_clock s) (s_clock s');
  later_rand : suffix_of (s_rand s) (s_rand s')
}.

Lemma suffix_of_refl {A} (g : nat -> A) : suffix_of g g.
Proof. by exists 0%nat. Qed.

Lemma suffix_of_skip {A} n (g : nat -> A) : suffix_of g (skip n g).
Proof. by exists n. Qed.

Lemma suffix_of_trans {A} (g1 g2 g3 : nat -> A) : suffix_of g1 g2 -> suffix_of g2 g3 -> suffix_of g1 g3.
Proof. intros [k Hk] [l Hl]. exists (k + l)%nat. intros i. rewrite Hl, Hk. f_equal. lia. Qed.

#[export] Hint Resolve suffix_of_refl suffix_of_skip : pv.

#[global] Instance later_preorder : PreOrder later.
Proof. split; [intros s; split; auto with pv |]. intros s1 s2 s3 [] []. split; eauto using suffix_of_trans. Qed.

(** A computation on the platform draws from the streams and nothing else. *)
Definition tame {A} (m : M A) : Prop := forall s, later s (snd (m s)).

Lemma tame_ret {A} (x : A) : tame (mret x : M A).
Proof. intros s. by cbn. Qed.

Lemma tame_bind {A B} (m : M A) (g : A -> M B) : tame m -> (forall x, tame (g x)) -> tame (m ≫= g).
Proof.
  intros Hm Hg s. unfold mbind, M_bind. specialize (Hm s). destruct (m s) as [x s1]. cbn [snd] in *.
  etrans; [done | apply Hg].
Qed.

Lemma tame_malloc : tame sodium_malloc.
Proof. intros s. split; cbn; auto with pv. Qed.

Lemma tame_mlock : tame sodium_mlock.
Proof. intros s. split; cbn; auto with pv. Qed.

Lemma tame_mprotect : tame sodium_mprotect.
Proof. intros s. split; cbn; auto with pv. Qed.

Lemma tame_randombytes n : tame (randombytes_buf n).
Proof. intros s. split; cbn; auto with pv. Qed.

Lemma tame_now : tame now_ms.
Proof. intros s. split; cbn; auto with pv. Qed.

Lemma tame_free block : tame (sodium_free block).
Proof. intros s. split; cbn; auto with pv. Qed.

#[export] Hint Resolve tame_malloc tame_mlock tame_mprotect tame_randombytes tame_now tame_free : pv.

(** Decides that a computation is tame, by its structure. *)
Ltac solve_tame :=
  repeat first
    [ progress cbv zeta | solve [auto with pv] | apply tame_ret | apply tame_bind; [| intros]
    | match goal with
      | |- tame (match ?x with _ => _ end) => destruct x
      | |- tame (let '(_, _) := ?x in _) => destruct x
      end ].

Definition sys_calm (s : sys) : Prop :=
  (forall i, s_malloc s i = true /\ s_mlock s i = true /\ s_mprotect s i = true) /\
  forall i, 0 <= Util.pv_now_ms (s_clock s i) <= INT64_MAX.

Lemma sys_calm_later s s' : later s s' -> sys_calm s -> sys_calm s'.
Proof.
  intros [[a Ha] [b Hb] [c Hc] [e He] _] [Hs Hclk]. split; intros i; [| rewrite He; apply Hclk].
  rewrite Ha, Hb, Hc. split_and!; apply Hs.
Qed.

Record calm (w : world) : Prop := mk_calm {
  calm_fail n : k_fail (w_kernel w) n = None;
  calm_sched n : benign (k_sched (w_kernel w) n);
  calm_path n path : k_path (w_kernel w) n path = k_path (w_kernel w) 0 path;
  calm_sys : sys_calm (w_sys w)
}.

(** The world with another state of the platform. *)
Definition with_sys (w : world) (s : sys) : world := mk_world s (w_kernel w) (w_fs w) (w_next w) (w_hist w).

(** The directory a path names in a calm world. *)
Definition resolve (w : world) (path : list Z) : option Z := k_path (w_kernel w) 0 path.

(** A calm world stays calm, and paths go on naming the same directories. *)
Definition calmly (w w' : world) : Prop := calm w -> calm w' /\ forall path, resolve w' path = resolve w path.

#[global] Instance calmly_preorder : PreOrder calmly.
Proof.
  split; [intros w Hc; auto |]. intros w1 w2 w3 H12 H23 Hc. destruct (H12 Hc) as [Hc2 Hp2].
  destruct (H23 Hc2) as [Hc3 Hp3]. split; [done |]. intros path. by rewrite Hp3.
Qed.

(** ** Weakest preconditions *)

(** The file systems between two states all satisfy [J]. *)
Definition through (J : fs -> Prop) (w w' : world) : Prop :=
  exists hs, w_hist w' = hs ++ w_hist w /\ Forall J hs.

Definition wp {A} (J : fs -> Prop) (m : W A) (Q : A -> world -> Prop) (w : world) : Prop :=
  through J w (snd (m w)) /\ calmly w (snd (m w)) /\ Q (fst (m w)) (snd (m w)).

Lemma through_refl J w : through J w w.
Proof. exists []. split; [done | constructor]. Qed.

Lemma through_trans J w1 w2 w3 : through J w1 w2 -> through J w2 w3 -> through J w1 w3.
Proof.
  intros (hs & E & H) (hs' & E' & H'). exists (hs' ++ hs). split; [by rewrite E', E, app_assoc | by apply Forall_app].
Qed.

Lemma through_mono (J J' : fs -> Prop) w w' : (forall f, J f -> J' f) -> through J w w' -> through J' w w'.
Proof. intros HJ (hs & E & H). exists hs. split; [done | by eapply Forall_impl]. Qed.

Lemma wp_ret {A} J (x : A) (Q : A -> world -> Prop) w : Q x w -> wp J (mret x) Q w.
Proof. intros H. split_and!; [apply through_refl | done | done]. Qed.

Lemma wp_bind {A B} J (m : W A) (g : A -> W B) Q w :
  wp J m (fun x => wp J (g x) Q) w -> wp J (m ≫= g) Q w.
Proof.
  intros (Ht & Hc & Ht' & Hc' & HQ). unfold wp, mbind, W_bind. destruct (m w) as [x w1]. cbn [fst snd] in *.
  split_and!; [by eapply through_trans | by etrans | done].
Qed.

Lemma wp_mono {A} J (m : W A) (Q Q' : A -> world -> Prop) w :
  wp J m Q w -> (forall x w', calmly w w' -> Q x w' -> Q' x w') -> wp J m Q' w.
Proof. intros (Ht & Hc & HQ) H. split_and!; [done | done | by apply H]. Qed.

Lemma wp_weaken {A} (J J' : fs -> Prop) (m : W A) Q w : wp J m Q w -> (forall f, J f -> J' f) -> wp J' m Q w.
Proof. intros (Ht & Hc & HQ) H. split_and!; [by eapply through_mono | done | done]. Qed.

(** A specification of the first of two computations, and the rest. *)
Lemma wp_then {A B} J (m : W A) (g : A -> W B) (P : A -> world -> Prop) Q w :
  wp J m P w -> (forall x w', calmly w w' -> P x w' -> wp J (g x) Q w') -> wp J (m ≫= g) Q w.
Proof. intros Hm Hg. apply wp_bind. by eapply wp_mono. Qed.

(** From the weakest precondition to the run. *)
Lemma wp_run {A} J (m : W A) Q w x w' : wp J m Q w -> m w = (x, w') -> through J w w' /\ calmly w w' /\ Q x w'.
Proof. intros H E. unfold wp in H. by rewrite E in H. Qed.

(** ** What a computation leaves alone *)

(** The two worlds agree up to the answers of the kernel and the platform. *)
Record same (w w' : world) : Prop := mk_same {
  same_fs : w_fs w' = w_fs w;
  same_next : w_next w' = w_next w;
  same_hist : w_hist w' = w_hist w;
  same_calm : calmly w w'
}.

#[global] Instance same_preorder : PreOrder same.
Proof. split; [intros w; by split | intros w1 w2 w3 [] []; split; [congruence .. | by etrans]]. Qed.

Lemma calm_same w w' : same w w' -> calm w -> calm w'.
Proof. intros [_ _ _ Hs] Hc. by apply Hs. Qed.

Lemma calm_calmly w w' : calmly w w' -> calm w -> calm w'.
Proof. intros Hs Hc. by apply Hs. Qed.

(** A computation that only asks. *)
Definition quiet {A} (m : W A) : Prop := forall w, same w (snd (m w)).

Lemma quiet_ret {A} (x : A) : quiet (mret x : W A).
Proof. intros w. by cbn. Qed.

Lemma quiet_bind {A B} (m : W A) (g : A -> W B) : quiet m -> (forall x, quiet (g x)) -> quiet (m ≫= g).
Proof.
  intros Hm Hg w. unfold mbind, W_bind. specialize (Hm w). destruct (m w) as [x w1]. cbn [snd] in *.
  etrans; [done | apply Hg].
Qed.

Lemma quiet_lift {A} (m : M A) : tame m -> quiet (lift m).
Proof.
  intros Hm w. specialize (Hm (w_sys w)). unfold lift. destruct (m (w_sys w)) as [x s]. cbn [snd] in *. split; try done.
  intros [H1 H2 H3 H4]. split; [| done]. split; try done. by eapply sys_calm_later.
Qed.

Lemma quiet_call : quiet call.
Proof. intros w. split; try done. intros [H1 H2 H3 H4]. split; [| done]. split; try done. intros n. apply H1. Qed.

Lemma quiet_get_fs : quiet get_fs.
Proof. intros w. by cbn. Qed.

Lemma quiet_next_sched : quiet next_sched.
Proof. intros w. split; try done. intros [H1 H2 H3 H4]. split; [| done]. split; try done. intros n. apply H2. Qed.

Lemma quiet_next_path path : quiet (next_path path).
Proof.
  intros w. split; try done. intros [H1 H2 H3 H4]. split; [split; [done | done | | done] |].
  - intros n p. cbn. unfold skip. by rewrite (H3 (1 + n)%nat), (H3 (1 + 0)%nat).
  - intros p. unfold resolve. cbn. unfold skip. apply H3.
Qed.

Lemma quiet_next_name path : quiet (next_name path).
Proof. intros w. split; try done. intros [H1 H2 H3 H4]. split; [| done]. by split. Qed.

#[export] Hint Resolve calm_same calm_calmly : calm.
#[export] Hint Resolve quiet_lift quiet_call quiet_get_fs quiet_next_sched quiet_next_path quiet_next_name : pv.

(** Decides that a computation only asks, by its structure. *)
Ltac solve_quiet :=
  repeat first
    [ progress cbv zeta | solve [auto with pv] | apply quiet_ret | apply quiet_bind; [| intros]
    | match goal with
      | |- quiet (match ?x with _ => _ end) => destruct x
      | |- quiet (let '(_, _) := ?x in _) => destruct x
      end ].

Lemma wp_same {A} J (m : W A) Q w : quiet m -> (same w (snd (m w)) -> Q (fst (m w)) (snd (m w))) -> wp J m Q w.
Proof.
  intros Hm HQ. specialize (Hm w). split_and!; [| apply same_calm, Hm | by apply HQ].
  exists []. split; [by rewrite (same_hist _ _ Hm) | constructor].
Qed.

Lemma wp_quiet {A} J (m : W A) Q w : quiet m -> (forall x w', same w w' -> Q x w') -> wp J m Q w.
Proof. intros Hm HQ. apply wp_same; auto. Qed.

Lemma wp_get_fs J (Q : fs -> world -> Prop) w : Q (w_fs w) w -> wp J get_fs Q w.
Proof. intros H. apply wp_same; [auto with pv | done]. Qed.

Lemma wp_call J (Q : option errno -> world -> Prop) w :
  (forall e w', same w w' -> (calm w -> e = None) -> Q e w') -> wp J call Q w.
Proof. intros H. apply wp_same; [auto with pv |]. intros Hs. apply H; [done |]. intros Hc. apply (calm_fail _ Hc). Qed.

Lemma wp_next_sched J (Q : list io_event -> world -> Prop) w :
  (forall sched w', same w w' -> (calm w -> benign sched) -> Q sched w') -> wp J next_sched Q w.
Proof. intros H. apply wp_same; [auto with pv |]. intros Hs. apply H; [done |]. intros Hc. apply (calm_sched _ Hc). Qed.

Lemma wp_next_path J path (Q : option Z -> world -> Prop) w :
  (forall d w', same w w' -> (calm w -> d = resolve w path) -> Q d w') -> wp J (next_path path) Q w.
Proof. intros H. apply wp_same; [auto with pv |]. intros Hs. by apply H. Qed.

Lemma wp_lift {A} J (m : M A) (Q : A -> world -> Prop) w :
  tame m ->
  (forall x w', same w w' -> m (w_sys w) = (x, w_sys w') -> Q x w') -> wp J (lift m) Q w.
Proof.
  intros Hm H. apply wp_same; [auto with pv |]. intros Hs. apply H; [done |]. unfold lift. by destruct (m (w_sys w)).
Qed.

Lemma wp_put_fs (J : fs -> Prop) f (Q : unit -> world -> Prop) w :
  J f ->
  (forall w', w_fs w' = f -> w_next w' = w_next w -> w_sys w' = w_sys w -> calmly w w' -> Q tt w') -> wp J (put_fs f) Q w.
Proof.
  intros HJ HQ. assert (Hc : calmly w (snd (put_fs f w))) by (intros [H1 H2 H3 H4]; split; [by split | done]).
  split_and!; [by exists [f]; split; [| by constructor] | done | by apply HQ].
Qed.

Lemma wp_new_inode J (Q : Z -> world -> Prop) w :
  (forall w', w_fs w' = w_fs w -> w_next w' = w_next w + 1 -> calmly w w' -> Q (w_next w) w') -> wp J new_inode Q w.
Proof.
  intros HQ. assert (Hc : calmly w (snd (new_inode w))) by (intros [H1 H2 H3 H4]; split; [by split | done]).
  split_and!; [by exists []; split; [| constructor] | done | by apply HQ].
Qed.

(** ** System calls *)

Section calls.
Context `{Host} (J : fs -> Prop).

Lemma wp_open_directory path (Q : option Z -> world -> Prop) w :
  (forall d w', same w w' -> (calm w -> d = resolve w path) -> (forall i, d = Some i -> resolve w path = Some i) -> Q d w') ->
  wp J (open_directory path) Q w.
Proof.
  intros HQ. apply wp_same.
  { unfold open_directory. apply quiet_bind; [apply quiet_call |]. intros. apply quiet_bind; [apply quiet_next_path |]. intros. apply quiet_ret. }
  intros S. apply HQ; [done | |].
  - intros Hc. unfold open_directory, mbind, W_bind. cbn. by rewrite (calm_fail _ Hc).
  - intros i. unfold open_directory, mbind, W_bind. cbn. by destruct (k_fail _ _).
Qed.

Lemma wp_fstat i (Q : option stat -> world -> Prop) w :
  (forall st w', same w w' -> (forall s, st = Some s -> exists n, f_inodes (w_fs w) !! i = Some n /\ s = stat_of i n) ->
     (calm w -> st = stat_of i <$> f_inodes (w_fs w) !! i) -> Q st w') -> wp J (fstat i) Q w.
Proof.
  intros HQ. apply wp_bind, wp_call. intros e w1 S1 He. apply wp_bind, wp_get_fs. apply wp_ret.
  rewrite (same_fs _ _ S1). apply HQ; [done | |].
  - intros s Hs. destruct e; [done |]. destruct (f_inodes (w_fs w) !! i) as [n |]; [| done]. cbn in Hs. simplify_eq. exists n. auto.
  - intros Hc. by rewrite He.
Qed.

Lemma wp_fstatat d name (Q : stat + errno -> world -> Prop) w :
  (forall r w', same w w' ->
     (forall s, r = inl s -> exists i n, entry (w_fs w) d name = Some i /\ f_inodes (w_fs w) !! i = Some n /\ s = stat_of i n) ->
     (calm w -> r = match entry (w_fs w) d name with
                    | None => inr ENOENT
                    | Some i => match f_inodes (w_fs w) !! i with Some n => inl (stat_of i n) | None => inr EIO end
                    end) -> Q r w') -> wp J (fstatat d name) Q w.
Proof.
  intros HQ. apply wp_bind, wp_call. intros e w1 S1 He. apply wp_bind, wp_get_fs. apply wp_ret.
  rewrite (same_fs _ _ S1). apply HQ; [done | |].
  - intros s Hs. destruct e; [done |]. destruct (entry (w_fs w) d name) as [i |]; [| done].
    destruct (f_inodes (w_fs w) !! i) as [n |] eqn:E; [| done]. simplify_eq. exists i, n. auto.
  - intros Hc. by rewrite He.
Qed.

Lemma wp_openat_read d name (Q : option rfile -> world -> Prop) w :
  (forall r w', same w w' ->
     (forall file, r = Some file -> exists n, entry (w_fs w) d name = Some (in_ino file) /\
        f_inodes (w_fs w) !! in_ino file = Some n /\ r_data (in_fd file) = i_data n) ->
     (calm w -> forall i n, entry (w_fs w) d name = Some i -> f_inodes (w_fs w) !! i = Some n -> S_ISLNK (i_mode n) = false ->
        exists sched, r = Some (mk_rfile i (mk_rfd (i_data n) sched)) /\ benign sched) -> Q r w') ->
  wp J (openat_read d name) Q w.
Proof.
  intros HQ. apply wp_bind, wp_call. intros e w1 S1 He. apply wp_bind, wp_next_sched. intros sched w2 S2 Hb.
  apply wp_bind, wp_get_fs. apply wp_ret. rewrite (same_fs _ _ S2), (same_fs _ _ S1). apply HQ; [by etrans | |].
  - intros file Hf. destruct e; [done |]. destruct (entry (w_fs w) d name) as [i |]; [| done].
    destruct (f_inodes (w_fs w) !! i) as [n |] eqn:E; [| done]. destruct (S_ISLNK _); [done |].
    simplify_eq. exists n. auto.
  - intros Hc i n Hi Hn Hl. rewrite (He Hc), Hi, Hn, Hl. exists sched. split; [done |].
    destruct (same_calm _ _ S1 Hc) as [Hc1 _]. auto.
Qed.

Lemma wp_openat_directory d name (Q : option Z -> world -> Prop) w :
  (forall r w', same w w' ->
     (forall i, r = Some i -> exists n, entry (w_fs w) d name = Some i /\ f_inodes (w_fs w) !! i = Some n /\ S_ISDIR (i_mode n) = true) ->
     (calm w -> forall i n, entry (w_fs w) d name = Some i -> f_inodes (w_fs w) !! i = Some n -> S_ISDIR (i_mode n) = true ->
        r = Some i) -> Q r w') ->
  wp J (openat_directory d name) Q w.
Proof.
  intros HQ. apply wp_bind, wp_call. intros e w1 S1 He.
  apply wp_bind, wp_get_fs. apply wp_ret. rewrite (same_fs _ _ S1). apply HQ; [done | |].
  - intros i Hf. destruct e; [done |]. destruct (entry (w_fs w) d name) as [j |]; [| done].
    destruct (f_inodes (w_fs w) !! j) as [n |] eqn:E; [| done]. destruct (S_ISDIR _) eqn:Ed; [| done].
    simplify_eq. exists n. auto.
  - intros Hc i n Hi Hn Hd. by rewrite (He Hc), Hi, Hn, Hd.
Qed.

Lemma wp_close (Q : bool -> world -> Prop) w :
  (forall ok w', same w w' -> (calm w -> ok = true) -> Q ok w') -> wp J close Q w.
Proof.
  intros HQ. apply wp_bind, wp_call. intros e w1 S1 He. apply wp_ret. apply HQ; [done |]. intros Hc. by rewrite He.
Qed.

End calls.

Section quiet_calls.
Context `{Host}.

Lemma quiet_open_directory path : quiet (open_directory path).
Proof. unfold open_directory. solve_quiet. Qed.

Lemma quiet_fstat i : quiet (fstat i).
Proof. unfold fstat. solve_quiet. Qed.

Lemma quiet_fstatat d name : quiet (fstatat d name).
Proof. unfold fstatat. solve_quiet. Qed.

Lemma quiet_lstat path : quiet (lstat path).
Proof. unfold lstat. pose proof quiet_fstatat. solve_quiet. Qed.

Lemma quiet_openat_read d name : quiet (openat_read d name).
Proof. unfold openat_read. solve_quiet. Qed.

Lemma quiet_openat_directory d name : quiet (openat_directory d name).
Proof. unfold openat_directory. solve_quiet. Qed.

Lemma quiet_close : quiet close.
Proof. unfold close. solve_quiet. Qed.

Lemma quiet_opendir d : quiet (opendir d).
Proof. unfold opendir. solve_quiet. Qed.

End quiet_calls.

#[export] Hint Resolve quiet_open_directory quiet_fstat quiet_fstatat quiet_lstat quiet_openat_read
  quiet_openat_directory quiet_close quiet_opendir : pv.

(** ** Well-formed file systems *)

(** Inode numbers in use are below the next one, and a directory does not
    contain itself. *)
Record fs_ok (f : fs) (next : Z) : Prop := mk_fs_ok {
  ok_inode i n : f_inodes f !! i = Some n -> i < next;
  ok_entry d name i : entry f d name = Some i -> i < next /\ i <> d /\ d < next;
  ok_durable d name i : durable_entry f d name = Some i -> i < next
}.

Definition world_ok (w : world) : Prop := fs_ok (w_fs w) (w_next w).

Lemma world_ok_same w w' : same w w' -> world_ok w -> world_ok w'.
Proof. intros [Hf Hn _]. unfold world_ok. by rewrite Hf, Hn. Qed.

(** ** Looking up *)

Lemma entry_set_entries f d es d' name :
  entry (set_entries f d es) d' name = if decide (d' = d) then es !! name else entry f d' name.
Proof.
  unfold entry, entries, set_entries. cbn [f_dirs]. destruct (decide (d' = d)) as [-> |].
  - by rewrite lookup_insert_eq.
  - by rewrite lookup_insert_ne.
Qed.

Lemma entry_insert f d name i d' name' :
  entry (set_entries f d (<[name := i]> (entries f d))) d' name' =
  if decide (d' = d /\ name' = name) then Some i else entry f d' name'.
Proof.
  rewrite entry_set_entries. destruct (decide (d' = d)) as [-> |]; [| by rewrite decide_False by (intros []; done)].
  destruct (decide (name' = name)) as [-> |].
  - by rewrite lookup_insert_eq, decide_True.
  - rewrite lookup_insert_ne by done. by rewrite decide_False by (intros []; done).
Qed.

Lemma entry_delete f d name d' name' :
  entry (set_entries f d (delete name (entries f d))) d' name' =
  if decide (d' = d /\ name' = name) then None else entry f d' name'.
Proof.
  rewrite entry_set_entries. destruct (decide (d' = d)) as [-> |]; [| by rewrite decide_False by (intros []; done)].
  destruct (decide (name' = name)) as [-> |].
  - by rewrite lookup_delete_eq, decide_True.
  - rewrite lookup_delete_ne by done. by rewrite decide_False by (intros []; done).
Qed.

Lemma entry_set_inode f i n d name : entry (set_inode f i n) d name = entry f d name.
Proof. done. Qed.

Lemma entry_drop_link f i d name : entry (drop_link f i) d name = entry f d name.
Proof. unfold drop_link. by destruct (f_inodes f !! i). Qed.

Lemma durable_drop_link f i d name : durable_entry (drop_link f i) d name = durable_entry f d name.
Proof. unfold drop_link. by destruct (f_inodes f !! i). Qed.

Lemma inode_set_inode f i n j : f_inodes (set_inode f i n) !! j = if decide (j = i) then Some n else f_inodes f !! j.
Proof.
  unfold set_inode. cbn [f_inodes]. destruct (decide (j = i)) as [-> |].
  - by rewrite lookup_insert_eq.
  - by rewrite lookup_insert_ne.
Qed.

(** The inode with one link less, where there is one. *)
Lemma inode_drop_link f i j :
  f_inodes (drop_link f i) !! j =
  if decide (j = i)
  then (fun n => mk_inode (i_mode n) (i_uid n) (i_nlink n - 1) (i_data n) (i_safe n)) <$> f_inodes f !! i
  else f_inodes f !! j.
Proof.
  unfold drop_link. destruct (f_inodes f !! i) as [n |] eqn:E.
  - rewrite inode_set_inode. by destruct (decide (j = i)).
  - destruct (decide (j = i)) as [-> |]; [by rewrite E | done].
Qed.

(** The bytes of a file and whether they are on the disk. *)
Definition content (f : fs) (i : Z) : option (list Z * bool) := (fun n => (i_data n, i_safe n)) <$> f_inodes f !! i.

Lemma content_drop_link f i j : content (drop_link f i) j = content f j.
Proof.
  unfold content. rewrite inode_drop_link. destruct (decide (j = i)) as [-> |]; [| done].
  by destruct (f_inodes f !! i).
Qed.

Lemma content_set_inode f i n j :
  content (set_inode f i n) j = if decide (j = i) then Some (i_data n, i_safe n) else content f j.
Proof. unfold content. rewrite inode_set_inode. by destruct (decide (j = i)). Qed.

(** ** The frame *)

Record extends (X : Z -> list Z -> Prop) (f f' : fs) : Prop := mk_extends {
  ext_entry d name i : entry f d name = Some i -> ~ X d name -> entry f' d name = Some i;
  ext_content i c : content f i = Some c -> content f' i = Some c;
  ext_durable d name i : entry f d name = Some i -> ~ X d name ->
    durable_entry f' d name = durable_entry f d name \/ durable_entry f' d name = Some i
}.

(** Nothing is given up. *)
Definition none : Z -> list Z -> Prop := fun _ _ => False.
Definition only (d : Z) (name : list Z) : Z -> list Z -> Prop := fun d' name' => d' = d /\ name' = name.

Lemma not_none d name : ~ none d name.
Proof. by intros []. Qed.

#[export] Hint Resolve not_none : pv.

#[global] Instance extends_preorder X : PreOrder (extends X).
Proof.
  split; [intros f; split; auto |].
  intros f1 f2 f3 H12 H23. split.
  - intros. eapply ext_entry; eauto. by eapply ext_entry.
  - intros. eapply ext_content; eauto. by eapply ext_content.
  - intros d name i He HX. pose proof (ext_entry _ _ _ H12 d name i He HX) as He2.
    destruct (ext_durable _ _ _ H23 d name i He2 HX) as [-> | ->]; [| by right]. by eapply ext_durable.
Qed.

Lemma extends_weaken (X Y : Z -> list Z -> Prop) f f' :
  (forall d name, X d name -> Y d name) -> extends X f f' -> extends Y f f'.
Proof. intros H [H1 H2 H3]. split; eauto. Qed.

Lemma extends_none X f f' : extends none f f' -> extends X f f'.
Proof. apply extends_weaken. done. Qed.

Lemma extends_eq X f f' : f' = f -> extends X f f'.
Proof. by intros ->. Qed.

#[export] Hint Resolve extends_none extends_eq : pv.
