(* ===== verification/StoreFacts.v ===== *)
(** * Facts about the store's files

    Transfers are complete or fail; a temporary file is the only thing a writer
    adds until it publishes; what the checks on a file or directory accept. *)

From stdpp Require Import gmap.
From S2P Require Import Prelude Status Util Sys Arena Model Cbor Crypto Posix Config Secure Fs FsFacts Store StoreOps.

(** ** Statuses *)

Lemma is_ok_iff st : is_ok st = true <-> st = PV_OK.
Proof. by destruct st. Qed.

(** ** One more file *)

(** The file system with a file [i] under [name] in [d]. *)
Definition with_file (f : fs) (d : Z) (name : list Z) (i : Z) (n : inode) : fs :=
  set_entries (set_inode f i n) d (<[name := i]> (entries f d)).

Lemma with_file_inode f d name i n : f_inodes (with_file f d name i n) !! i = Some n.
Proof. unfold with_file, set_entries, set_inode. cbn [f_inodes]. by rewrite lookup_insert_eq. Qed.

Lemma with_file_other f d name i n j : j <> i -> f_inodes (with_file f d name i n) !! j = f_inodes f !! j.
Proof. intros. unfold with_file, set_entries, set_inode. cbn [f_inodes]. by rewrite lookup_insert_ne. Qed.

Lemma with_file_entry f d name i n d' name' :
  entry (with_file f d name i n) d' name' = if decide (d' = d /\ name' = name) then Some i else entry f d' name'.
Proof. unfold with_file. change (entries f d) with (entries (set_inode f i n) d). by rewrite entry_insert. Qed.

Lemma with_file_durable f d name i n d' name' :
  durable_entry (with_file f d name i n) d' name' = durable_entry f d' name'.
Proof. done. Qed.

Lemma with_file_set f d name i n n' : set_inode (with_file f d name i n) i n' = with_file f d name i n'.
Proof. unfold with_file, set_entries, set_inode. cbn [f_inodes f_dirs f_durable]. by rewrite insert_insert_eq. Qed.

(** ** Calls on a file that was just created *)

(** The inode [openat] creates. *)
Definition created_inode `{Host} : inode := mk_inode (Z.lor 32768 (Z.land 384 (Z.lnot umask))) geteuid 1 [] false.

(** The inode with other contents, not on the disk yet. *)
Definition refilled (n : inode) (data : list Z) : inode := mk_inode (i_mode n) (i_uid n) (i_nlink n) data false.
Definition moded (n : inode) (mode : Z) : inode :=
  mk_inode (Z.lor (Z.land (i_mode n) 61440) mode) (i_uid n) (i_nlink n) (i_data n) (i_safe n).
Definition synced (n : inode) : inode := mk_inode (i_mode n) (i_uid n) (i_nlink n) (i_data n) true.

Lemma wp_openat_excl `{Host} (J : fs -> Prop) d name (Q : wfile + errno -> world -> Prop) w :
  (entry (w_fs w) d name = None -> J (with_file (w_fs w) d name (w_next w) created_inode)) ->
  (forall e w', same w w' -> (calm w -> is_Some (entry (w_fs w) d name)) -> Q (inr e) w') ->
  (forall sched w', entry (w_fs w) d name = None -> w_fs w' = with_file (w_fs w) d name (w_next w) created_inode ->
     w_next w' = w_next w + 1 -> calmly w w' -> (calm w -> benign sched) -> Q (inl (mk_wfile (w_next w) (mk_wfd [] sched))) w') ->
  wp J (openat_excl d name) Q w.
Proof.
  intros HJ Herr Hok. apply wp_bind, wp_call. intros e w1 S1 He. apply wp_bind, wp_next_sched. intros sched w2 S2 Hb.
  apply wp_bind, wp_get_fs. assert (S12 : same w w2) by by etrans. rewrite (same_fs _ _ S12).
  destruct e as [e |]; [apply wp_ret, Herr; [done | intros Hc; by specialize (He Hc)] |].
  destruct (entry (w_fs w) d name) as [j |] eqn:E; [apply wp_ret, Herr; eauto |].
  apply wp_bind, wp_new_inode. intros w3 H3f H3n H3c. rewrite (same_next _ _ S12). apply wp_bind, wp_put_fs; [by apply HJ |].
  intros w4 H4f H4n _ H4c. apply wp_ret, Hok; [done | done | rewrite H4n, H3n, (same_next _ _ S12); lia | |].
  - etrans; [apply (same_calm _ _ S12) |]. by etrans.
  - intros Hc. apply Hb. by apply (same_calm _ _ S1).
Qed.

Section temporary.
Context `{Host} (J : fs -> Prop) (f : fs) (d : Z) (name : list Z) (i : Z).
Context (HJ : forall n, J (with_file f d name i n)).

Lemma wp_fstat_private n w (Q : bool -> world -> Prop) :
  w_fs w = with_file f d name i n ->
  (forall ok w', same w w' -> (ok = true -> issue_ok (private_snapshot_stat_issue (stat_of i n)) = true) ->
     (calm w -> ok = issue_ok (private_snapshot_stat_issue (stat_of i n))) -> Q ok w') ->
  wp J (fstat_private i) Q w.
Proof.
  intros Hw HQ. apply wp_bind, wp_fstat. intros st w1 S1 Hst Hcalm. rewrite Hw, with_file_inode in *. apply wp_ret.
  apply HQ; [done | |].
  - intros Hok. destruct st as [st |]; [| done]. destruct (Hst st eq_refl) as (n' & E & ->). by simplify_eq.
  - intros Hc. by rewrite (Hcalm Hc).
Qed.

Lemma wp_fchmod n mode w (Q : bool -> world -> Prop) :
  w_fs w = with_file f d name i n ->
  (forall w', same w w' -> ~ calm w -> Q false w') ->
  (forall w', w_fs w' = with_file f d name i (moded n mode) -> w_next w' = w_next w -> calmly w w' -> Q true w') ->
  wp J (fchmod i mode) Q w.
Proof.
  intros Hw Herr Hok. apply wp_bind, wp_call. intros e w1 S1 He. apply wp_bind, wp_get_fs.
  rewrite (same_fs _ _ S1), Hw, with_file_inode. destruct e; [apply wp_ret, Herr; [done | intros Hc; by specialize (He Hc)] |].
  apply wp_bind. rewrite with_file_set. apply wp_put_fs; [apply HJ |]. intros w2 H2f H2n _ H2c. apply wp_ret, Hok; [done | |].
  - by rewrite H2n, (same_next _ _ S1).
  - etrans; [apply (same_calm _ _ S1) | done].
Qed.

Lemma wp_fsync_file n w (Q : bool -> world -> Prop) :
  w_fs w = with_file f d name i n ->
  (forall w', same w w' -> ~ calm w -> Q false w') ->
  (forall w', w_fs w' = with_file f d name i (synced n) -> w_next w' = w_next w -> calmly w w' -> Q true w') ->
  wp J (fsync_file i) Q w.
Proof.
  intros Hw Herr Hok. apply wp_bind, wp_call. intros e w1 S1 He. apply wp_bind, wp_get_fs.
  rewrite (same_fs _ _ S1), Hw, with_file_inode. destruct e; [apply wp_ret, Herr; [done | intros Hc; by specialize (He Hc)] |].
  apply wp_bind. rewrite with_file_set. apply wp_put_fs; [apply HJ |]. intros w2 H2f H2n _ H2c. apply wp_ret, Hok; [done | |].
  - by rewrite H2n, (same_next _ _ S1).
  - etrans; [apply (same_calm _ _ S1) | done].
Qed.

(** ** Transfers *)

Lemma wp_write_file fd data n w (Q : io_result * wfile -> world -> Prop) :
  w_fs w = with_file f d name i n -> i_data n = w_data fd -> i_safe n = false ->
  (forall w', w_fs w' = with_file f d name i (refilled n (w_data (snd (write fd data)))) -> w_next w' = w_next w -> calmly w w' ->
     Q (fst (write fd data), mk_wfile i (snd (write fd data))) w') ->
  wp J (write_file (mk_wfile i fd) data) Q w.
Proof.
  intros Hw Hd Hsf HQ. unfold write_file. cbn [out_fd out_ino]. destruct (write fd data) as [result fd'] eqn:E. cbn [fst snd] in HQ.
  assert (Hsame : result = Interrupted \/ result = Failed -> w_data fd' = w_data fd).
  { unfold write in E. destruct (w_sched fd) as [| [] ?]; simplify_eq; cbn; try done; by intros []. }
  assert (Hn : refilled n (w_data fd) = n) by (destruct n; cbn in *; by subst).
  destruct result; try (apply wp_ret, HQ; [rewrite Hsame, Hn; auto | done | reflexivity]).
  apply wp_bind. unfold sync_contents. apply wp_bind, wp_get_fs. cbn [out_ino out_fd]. rewrite Hw, with_file_inode, with_file_set.
  apply wp_put_fs; [apply HJ |]. intros w1 H1f H1n _ H1c. by apply wp_ret, HQ.
Qed.

(** What writing does to the file: the bytes go to its end, all of them when the
    status is [PV_OK], and it is [PV_OK] when no call fails. *)
Definition written (sched : list io_event) (n : inode) (data : list Z) (w : world) (r : pv_status * wfile) (w' : world) : Prop :=
  out_ino (snd r) = i /\ w_next w' = w_next w /\
  w_fs w' = with_file f d name i (refilled n (w_data (out_fd (snd r)))) /\
  (fst r = PV_OK \/ fst r = PV_ERR_IO) /\ (fst r = PV_OK -> w_data (out_fd (snd r)) = i_data n ++ data) /\
  (benign sched -> fst r = PV_OK /\ benign (w_sched (out_fd (snd r)))).

Lemma wp_store_write_loop sched have data n w :
  w_fs w = with_file f d name i n -> i_data n = have -> i_safe n = false ->
  wp J (store_write_loop sched i have data) (written sched n data w) w.
Proof.
  revert have data n w. induction sched as [| e sched IH]; intros have data n w Hw Hd Hsf; cbn [store_write_loop].
  all: destruct (Z.eqb_spec (zlen data) 0) as [Hz | Hz].
  1, 3: apply wp_ret; unfold written; cbn [fst snd out_ino out_fd w_data w_sched]; subst have;
    destruct data; [| rewrite zlen_cons in Hz; pose proof (zlen_nonneg data); lia]; rewrite app_nil_r;
    split_and!; auto; rewrite Hw; destruct n; cbn in *; by subst.
  - eapply wp_bind, wp_write_file; [done | done | done |]. intros w1 H1f H1n H1c. cbn [write w_sched fst snd w_data] in *. apply wp_ret.
    unfold written. cbn [fst snd out_ino out_fd w_data w_sched]. rewrite zsub_all in *. rewrite H1f, Hd.
    split_and!; auto; by left.
  - apply wp_bind, (wp_write_file _ _ n); [done | done | done |]. intros w1 H1f H1n H1c.
    destruct e as [| | | k]; cbn [write w_sched fst snd w_data out_fd] in *; cbv zeta in *.
    + eapply wp_mono; [apply (IH have data (refilled n have)); done |].
      intros r w2 H2c (Hi & Hx & Hf & Hst & Hok & Hb). split_and!; auto; [congruence | |].
      * intros Hr. rewrite Hok by done. cbn. congruence.
      * intros Hben. apply Hb. by inv Hben.
    + apply wp_ret. unfold written. cbn [fst snd out_ino out_fd w_data w_sched]. split_and!; auto; [done |].
      intros Hben. apply Forall_cons_iff in Hben as [[] _]. done.
    + rewrite zsub_nil_len in *. cbn [Z.leb zlen length Z.of_nat Z.compare]. apply wp_ret.
      unfold written. cbn [fst snd out_ino out_fd w_data w_sched]. rewrite app_nil_r in *. split_and!; auto; [done |].
      intros Hben. apply Forall_cons_iff in Hben as [[] _]. done.
    + set (m := Z.min (zlen data) (Z.of_nat k + 1)) in *. pose proof (zlen_nonneg data).
      assert (Hm : zlen (zsub data 0 m) = m) by (apply zlen_zsub; lia). rewrite Hm.
      destruct (Z.leb_spec m 0); [lia |].
      eapply wp_mono; [apply (IH (have ++ zsub data 0 m) _ (refilled n (have ++ zsub data 0 m))); done |].
      intros r w2 H2c (Hi & Hx & Hf & Hst & Hok & Hb). split_and!; auto; [congruence | |].
      * intros Hr. rewrite Hok by done. cbn [refilled i_data]. subst have. rewrite <- app_assoc. f_equal. f_equal.
        replace (length (zsub data 0 m)) with (Z.to_nat m) by (unfold zlen in Hm; lia). by rewrite zsub_0, take_drop.
      * intros Hben. apply Hb. by inv Hben.
Qed.

Lemma wp_store_write_all file data n w :
  w_fs w = with_file f d name i n -> out_ino file = i -> i_data n = w_data (out_fd file) -> i_safe n = false ->
  wp J (store_write_all file data) (written (w_sched (out_fd file)) n data w) w.
Proof. intros Hw Hi Hd Hsf. unfold store_write_all. rewrite Hi. by apply wp_store_write_loop. Qed.

End temporary.

(** ** What becomes of a temporary file *)

Definition unlinked (f : fs) (d : Z) (name : list Z) (i : Z) (n : inode) : fs :=
  let g := with_file f d name i n in
  drop_link (set_entries g d (delete name (entries g d))) i.

Definition renamed (f : fs) (d : Z) (temporary name : list Z) (i : Z) (n : inode) : fs :=
  rename_fs (with_file f d temporary i n) d temporary name i.

Definition dir_synced (f : fs) (d : Z) : fs := mk_fs (f_inodes f) (f_dirs f) (<[d := entries f d]> (f_durable f)).

(** A name and an inode number that are not in use. *)
Record unused (f : fs) (d : Z) (name : list Z) (i : Z) : Prop := mk_unused {
  unused_name : entry f d name = None;
  unused_inode : f_inodes f !! i = None;
  unused_entry d' name' : entry f d' name' <> Some i;
  unused_dir : d < i
}.

Lemma unused_next w d name : world_ok w -> entry (w_fs w) d name = None -> d < w_next w -> unused (w_fs w) d name (w_next w).
Proof.
  intros [Hi He Hd] Hn Hlt. split; [done | | | lia].
  - destruct (f_inodes (w_fs w) !! w_next w) as [n |] eqn:E; [| done]. apply Hi in E. lia.
  - intros d' name' E. apply He in E. lia.
Qed.

Section outcomes.
Context (f : fs) (d : Z) (temporary : list Z) (i : Z) (n : inode) (Hu : unused f d temporary i).

Lemma unlinked_entry d' name' : entry (unlinked f d temporary i n) d' name' = entry f d' name'.
Proof.
  unfold unlinked. cbv zeta. rewrite entry_drop_link, entry_delete, with_file_entry.
  destruct (decide _) as [[-> ->] |]; [by rewrite (unused_name _ _ _ _ Hu) | done].
Qed.

Lemma unlinked_inode j : j <> i -> f_inodes (unlinked f d temporary i n) !! j = f_inodes f !! j.
Proof.
  intros Hj. unfold unlinked. cbv zeta. rewrite inode_drop_link, decide_False by done. by apply with_file_other.
Qed.

Lemma unlinked_durable d' name' : durable_entry (unlinked f d temporary i n) d' name' = durable_entry f d' name'.
Proof. unfold unlinked. cbv zeta. by rewrite durable_drop_link. Qed.

Lemma content_new : content f i = None.
Proof. unfold content. by rewrite (unused_inode _ _ _ _ Hu). Qed.

Lemma with_file_extends : extends none f (with_file f d temporary i n).
Proof.
  split.
  - intros d' name' j E _. rewrite with_file_entry, decide_False; [done |]. intros [-> ->].
    by rewrite (unused_name _ _ _ _ Hu) in E.
  - intros j c E. unfold content. rewrite with_file_other; [done |]. intros ->. by rewrite content_new in E.
  - by left.
Qed.

Lemma unlinked_extends : extends none f (unlinked f d temporary i n).
Proof.
  split.
  - intros d' name' j E _. by rewrite unlinked_entry.
  - intros j c E. unfold content. rewrite unlinked_inode; [done |]. intros ->. by rewrite content_new in E.
  - intros. left. apply unlinked_durable.
Qed.

Context (name : list Z) (Hne : temporary <> name).

(** The renamed file system, spelled out: the target may lose a link. *)
Lemma renamed_eq :
  let g := with_file f d temporary i n in
  let g' := set_entries g d (<[name := i]> (delete temporary (entries g d))) in
  renamed f d temporary name i n = match entry f d name with Some j => drop_link g' j | None => g' end.
Proof.
  cbv zeta. unfold renamed, rename_fs. rewrite with_file_entry, decide_False by (intros []; done).
  destruct (entry f d name) as [j |] eqn:E; [| done]. rewrite decide_False; [done |]. intros ->.
  by apply (unused_entry _ _ _ _ Hu) in E.
Qed.

Lemma renamed_entry d' name' :
  entry (renamed f d temporary name i n) d' name' = if decide (d' = d /\ name' = name) then Some i else entry f d' name'.
Proof.
  rewrite renamed_eq. cbv zeta. set (g' := set_entries _ _ _).
  assert (Hg : entry g' d' name' = if decide (d' = d /\ name' = name) then Some i else entry f d' name').
  { unfold g'. rewrite entry_set_entries. destruct (decide (d' = d)) as [-> |]; [| by rewrite with_file_entry, !decide_False by (intros []; done)].
    destruct (decide (name' = name)) as [-> |]; [by rewrite lookup_insert_eq, decide_True |].
    rewrite lookup_insert_ne by done. rewrite (decide_False (P := d = d /\ name' = name)) by (intros []; done).
    destruct (decide (name' = temporary)) as [-> |]; [by rewrite lookup_delete_eq, (unused_name _ _ _ _ Hu) |].
    rewrite lookup_delete_ne by done. change (entries ?g d !! name') with (entry g d name').
    by rewrite with_file_entry, decide_False by (intros []; done). }
  by destruct (entry f d name); [rewrite entry_drop_link |].
Qed.

Lemma renamed_inode : f_inodes (renamed f d temporary name i n) !! i = Some n.
Proof.
  rewrite renamed_eq. cbv zeta. destruct (entry f d name) as [j |] eqn:E; [| apply with_file_inode].
  rewrite inode_drop_link, decide_False; [apply with_file_inode |]. intros <-. by apply (unused_entry _ _ _ _ Hu) in E.
Qed.

Lemma renamed_content j : j <> i -> content (renamed f d temporary name i n) j = content f j.
Proof.
  intros Hj. rewrite renamed_eq. cbv zeta. destruct (entry f d name) as [k |]; [rewrite content_drop_link |];
    unfold content, set_entries; cbn [f_inodes]; by rewrite with_file_other.
Qed.

Lemma renamed_durable d' name' : durable_entry (renamed f d temporary name i n) d' name' = durable_entry f d' name'.
Proof. rewrite renamed_eq. cbv zeta. by destruct (entry f d name); [rewrite durable_drop_link |]. Qed.

Lemma renamed_extends : extends (only d name) f (renamed f d temporary name i n).
Proof.
  split.
  - intros d' name' j E HX. by rewrite renamed_entry, decide_False.
  - intros j c E. rewrite renamed_content; [done |]. intros ->. by rewrite content_new in E.
  - intros. left. apply renamed_durable.
Qed.

(** Without a target nothing is lost. *)
Lemma renamed_extends_new : entry f d name = None -> extends none f (renamed f d temporary name i n).
Proof.
  intros Hn. pose proof renamed_extends as [H1 H2 H3]. split.
  - intros d' name' j E _. apply H1; [done |]. intros [-> ->]. congruence.
  - done.
  - intros d' name' j E _. apply (H3 d' name'); [done |]. intros [-> ->]. congruence.
Qed.

End outcomes.

Lemma dir_synced_durable f d d' name : durable_entry (dir_synced f d) d' name = if decide (d' = d) then entry f d name else durable_entry f d' name.
Proof.
  unfold durable_entry, dir_synced. cbn [f_durable]. destruct (decide (d' = d)) as [-> |].
  - by rewrite lookup_insert_eq.
  - by rewrite lookup_insert_ne.
Qed.

Lemma dir_synced_extends X f g d : extends X f g -> extends X f (dir_synced g d).
Proof.
  intros [H1 H2 H3]. split; [done | done |]. intros d' name j E HX. rewrite dir_synced_durable.
  destruct (decide (d' = d)) as [-> |]; [| by apply H3]. right. by apply H1.
Qed.

(** ** Well-formedness *)

Lemma with_file_ok f next d name i n : fs_ok f next -> unused f d name i -> i < next + 1 -> fs_ok (with_file f d name i n) (next + 1).
Proof.
  intros [Hi He Hd] Hu Hlt. split.
  - intros j m E. destruct (decide (j = i)) as [-> |]; [done |]. rewrite with_file_other in E by done. apply Hi in E. lia.
  - intros d' name' j E. rewrite with_file_entry in E. destruct (decide _) as [[-> ->] |].
    + simplify_eq. pose proof (unused_dir _ _ _ _ Hu). lia.
    + apply He in E. lia.
  - intros d' name' j E. apply Hd in E. lia.
Qed.

Lemma unlinked_ok f next d name i n : fs_ok f next -> unused f d name i -> i < next + 1 -> fs_ok (unlinked f d name i n) (next + 1).
Proof.
  intros [Hi He Hd] Hu Hlt. split.
  - intros j m E. destruct (decide (j = i)) as [-> |]; [done |]. rewrite unlinked_inode in E by done. apply Hi in E. lia.
  - intros d' name' j E. rewrite unlinked_entry in E by done. apply He in E. lia.
  - intros d' name' j E. rewrite unlinked_durable in E. apply Hd in E. lia.
Qed.

Lemma content_lookup f i n : f_inodes f !! i = Some n -> is_Some (content f i).
Proof. intros E. unfold content. rewrite E. eauto. Qed.

Lemma renamed_ok f next d t name i n :
  fs_ok f next -> unused f d t i -> t <> name -> i < next + 1 -> fs_ok (renamed f d t name i n) (next + 1).
Proof.
  intros [Hi He Hd] Hu Hne Hlt. split.
  - intros j m E. destruct (decide (j = i)) as [-> |]; [done |]. apply content_lookup in E.
    rewrite renamed_content in E by done. unfold content in E. destruct (f_inodes f !! j) eqn:E'; [| by destruct E].
    apply Hi in E'. lia.
  - intros d' name' j E. rewrite renamed_entry in E by done. destruct (decide _) as [[-> ->] |].
    + simplify_eq. pose proof (unused_dir _ _ _ _ Hu). lia.
    + apply He in E. lia.
  - intros d' name' j E. rewrite renamed_durable in E by done. apply Hd in E. lia.
Qed.

Lemma dir_synced_ok f next d : fs_ok f next -> fs_ok (dir_synced f d) next.
Proof.
  intros [Hi He Hd]. split; [done | done |]. intros d' name i E. rewrite dir_synced_durable in E.
  destruct (decide _); [by apply He in E as [] | by eapply Hd].
Qed.

(** ** Publishing *)

Section publishing.
Context `{Host} (J : fs -> Prop) (f : fs) (d : Z) (temporary name : list Z) (i : Z) (n : inode).
Context (Hu : unused f d temporary i) (Hne : temporary <> name) (no_replace : bool).
Context (HJ : forall n, J (with_file f d temporary i n)).
Context (HJu : J (unlinked f d temporary i n)).
Context (HJr : (no_replace = true -> entry f d name = None) -> J (renamed f d temporary name i n)).
Context (HJs : (no_replace = true -> entry f d name = None) -> J (dir_synced (renamed f d temporary name i n) d)).

Lemma wp_renameat2 w (Q : option errno -> world -> Prop) :
  w_fs w = with_file f d temporary i n ->
  (forall e w', same w w' -> (calm w -> no_replace = true /\ is_Some (entry f d name)) -> Q (Some e) w') ->
  (forall w', (no_replace = true -> entry f d name = None) -> w_fs w' = renamed f d temporary name i n ->
     w_next w' = w_next w -> calmly w w' -> Q None w') ->
  wp J (renameat2 d temporary name no_replace) Q w.
Proof.
  intros Hw Herr Hok. apply wp_bind, wp_call. intros e w1 S1 He. apply wp_bind, wp_get_fs. rewrite (same_fs _ _ S1), Hw.
  rewrite !with_file_entry, decide_True by done. destruct e; [apply wp_ret, Herr; [done | intros Hc; by specialize (He Hc)] |].
  rewrite decide_False by (intros []; done).
  destruct (entry f d name) as [j |] eqn:E; [destruct no_replace eqn:En; [apply wp_ret, Herr; eauto |] |].
  all: apply wp_bind, wp_put_fs; [by apply HJr |]; intros w2 H2f H2n _ H2c; apply wp_ret, Hok;
    [done | done | by rewrite H2n, (same_next _ _ S1) | etrans; [apply (same_calm _ _ S1) | done]].
Qed.

Lemma wp_store_renameat w (Q : option errno -> world -> Prop) :
  w_fs w = with_file f d temporary i n ->
  (forall e w', same w w' -> (calm w -> no_replace = true /\ is_Some (entry f d name)) -> Q (Some e) w') ->
  (forall w', (no_replace = true -> entry f d name = None) -> w_fs w' = renamed f d temporary name i n ->
     w_next w' = w_next w -> calmly w w' -> Q None w') ->
  wp J (store_renameat d temporary name no_replace) Q w.
Proof.
  intros Hw Herr Hok. apply wp_bind, wp_renameat2; [done | |].
  - intros e w1 S1 Hcalm. destruct (negb (bool_decide (e = ENOSYS)) || no_replace) eqn:E; [by apply wp_ret, Herr |].
    apply orb_false_iff in E as [_ E]. rewrite <- E. apply wp_renameat2; [by rewrite (same_fs _ _ S1) | |].
    + intros e2 w2 S2 Hcalm2. apply Herr; [by etrans |]. intros Hc. by apply Hcalm2, S1.
    + intros w2 Hn H2f H2n H2c. apply Hok; [done | done | by rewrite H2n, (same_next _ _ S1) | etrans; [apply S1 | done]].
  - intros w1 Hn H1f H1n H1c. by apply wp_ret, Hok.
Qed.

Lemma wp_fsync_directory g w (Q : bool -> world -> Prop) :
  w_fs w = g -> J (dir_synced g d) ->
  (forall w', same w w' -> ~ calm w -> Q false w') ->
  (forall w', w_fs w' = dir_synced g d -> w_next w' = w_next w -> calmly w w' -> Q true w') ->
  wp J (fsync_directory d) Q w.
Proof.
  intros Hw HJd Herr Hok. apply wp_bind, wp_call. intros e w1 S1 He. apply wp_bind, wp_get_fs. rewrite (same_fs _ _ S1), Hw.
  destruct e; [apply wp_ret, Herr; [done | intros Hc; by specialize (He Hc)] |].
  apply wp_bind, wp_put_fs; [done |]. intros w2 H2f H2n _ H2c.
  apply wp_ret, Hok; [done | by rewrite H2n, (same_next _ _ S1) | etrans; [apply (same_calm _ _ S1) | done]].
Qed.

Lemma wp_unlinkat w (Q : bool -> world -> Prop) :
  w_fs w = with_file f d temporary i n ->
  (forall ok w', (w_fs w' = with_file f d temporary i n \/ w_fs w' = unlinked f d temporary i n) ->
     (calm w -> w_fs w' = unlinked f d temporary i n) ->
     w_next w' = w_next w -> calmly w w' -> Q ok w') ->
  wp J (unlinkat d temporary) Q w.
Proof.
  intros Hw HQ. apply wp_bind, wp_call. intros e w1 S1 He. apply wp_bind, wp_get_fs. rewrite (same_fs _ _ S1), Hw.
  rewrite with_file_entry, decide_True by done. destruct e.
  - apply wp_ret, HQ; [left; by rewrite (same_fs _ _ S1) | intros Hc; by specialize (He Hc) | apply S1 | apply S1].
  - apply wp_bind, wp_put_fs; [done |]. intros w2 H2f H2n _ H2c.
    apply wp_ret, HQ; [by right | done | by rewrite H2n, (same_next _ _ S1) | etrans; [apply (same_calm _ _ S1) | done]].
Qed.

(** The temporary file is removed, or it stays behind because that failed. *)
Definition discarded (w w' : world) : Prop :=
  w_next w' = w_next w /\ calmly w w' /\
  (w_fs w' = with_file f d temporary i n \/ w_fs w' = unlinked f d temporary i n).

Lemma wp_publish durability st w (Q : pv_status -> world -> Prop) :
  w_fs w = with_file f d temporary i n ->
  (forall st' w', discarded w w' -> (st <> PV_OK /\ st' = st \/ st = PV_OK /\ (st' = PV_ERR_EXISTS \/ st' = PV_ERR_IO)) ->
     (calm w -> st = PV_OK -> no_replace = true /\ is_Some (entry f d name)) -> Q st' w') ->
  (forall w', st = PV_OK -> (no_replace = true -> entry f d name = None) ->
     w_fs w' = dir_synced (renamed f d temporary name i n) d -> w_next w' = w_next w -> Q PV_OK w') ->
  (forall w', st = PV_OK -> (no_replace = true -> entry f d name = None) ->
     w_fs w' = renamed f d temporary name i n -> w_next w' = w_next w -> ~ calm w -> Q durability w') ->
  wp J (publish d temporary name no_replace durability st) Q w.
Proof.
  intros Hw Hno Hyes Hwarn. unfold publish.
  assert (Hdiscard : forall st' w1, same w w1 ->
    (st <> PV_OK /\ st' = st \/ st = PV_OK /\ (st' = PV_ERR_EXISTS \/ st' = PV_ERR_IO)) ->
    (calm w -> st = PV_OK -> no_replace = true /\ is_Some (entry f d name)) ->
    wp J (_ ← unlinkat d temporary; mret st') Q w1).
  { intros st' w1 S1 Hst Hcalm. apply wp_bind, wp_unlinkat; [by rewrite (same_fs _ _ S1) |]. intros ok w2 Hf _ Hn Hc.
    apply wp_ret, Hno; [| done | done]. split_and!; [by rewrite Hn, (same_next _ _ S1) | etrans; [apply S1 | done] | done]. }
  destruct (is_ok st) eqn:Hst.
  - apply is_ok_iff in Hst as ->. apply wp_bind, wp_bind, wp_store_renameat; [done | |].
    + intros e w1 S1 Hcalm. apply wp_ret. cbv beta iota. set (st' := if _ && _ then PV_ERR_EXISTS else PV_ERR_IO).
      assert (st' = PV_ERR_EXISTS \/ st' = PV_ERR_IO) as Hst' by (unfold st'; split_if; auto).
      assert (is_ok st' = false) as -> by (by destruct Hst' as [-> | ->]). apply wp_bind, wp_ret. cbn [negb].
      apply Hdiscard; auto.
    + intros w1 Hnr H1f H1n H1c. apply wp_ret. cbn [is_ok]. eapply wp_bind, wp_fsync_directory; [exact H1f | auto | |].
      * intros w2 S2 Hcalm. cbn [negb]. apply wp_ret, Hwarn; [done | done | by rewrite (same_fs _ _ S2) | by rewrite (same_next _ _ S2) |].
        intros Hc. by apply Hcalm, H1c.
      * intros w2 H2f H2n H2c. cbn [negb]. apply wp_ret, Hyes; [done | done | done | by rewrite H2n].
  - assert (st <> PV_OK) by (intros ->; done). apply wp_bind, wp_ret. cbv beta iota. rewrite Hst. apply wp_bind, wp_ret. cbn [negb].
    apply Hdiscard; [done | by left | done].
Qed.

End publishing.

(** ** Creating a temporary file *)

Lemma hex8_length v : zlen (hex8 v) = 8.
Proof. done. Qed.

Lemma temporary_name_length name v : zlen (temporary_name name v) = zlen name + 13.
Proof. unfold temporary_name. rewrite !zlen_app, hex8_length. change (zlen (cstr ".tmp.")) with 5. lia. Qed.

Lemma temporary_name_ne name v : temporary_name name v <> name.
Proof. intros E. apply (f_equal zlen) in E. rewrite temporary_name_length in E. lia. Qed.

(** There is room for temporary files next to [name]. *)
Definition temporaries_free (f : fs) (d : Z) (name : list Z) : Prop :=
  zlen name + 13 < PATH_MAX /\ forall v, entry f d (temporary_name name v) = None.

Lemma wp_open_temporary `{Host} (J : fs -> Prop) attempts d name w (Q : pv_status + (list Z * wfile) -> world -> Prop) :
  (forall v n, entry (w_fs w) d (temporary_name name v) = None -> J (with_file (w_fs w) d (temporary_name name v) (w_next w) n)) ->
  (forall st w', same w w' -> st = PV_ERR_IO \/ st = PV_ERR_LIMIT ->
     (calm w -> temporaries_free (w_fs w) d name -> attempts = O) -> Q (inl st) w') ->
  (forall v sched w', entry (w_fs w) d (temporary_name name v) = None ->
     w_fs w' = with_file (w_fs w) d (temporary_name name v) (w_next w) created_inode ->
     w_next w' = w_next w + 1 -> calmly w w' -> (calm w -> benign sched) ->
     Q (inr (temporary_name name v, mk_wfile (w_next w) (mk_wfd [] sched))) w') ->
  wp J (open_temporary attempts d name) Q w.
Proof.
  intros HJ Herr Hok. revert w HJ Herr Hok. induction attempts as [| attempts IH]; intros w HJ Herr Hok; cbn [open_temporary].
  { apply wp_ret, Herr; [done | by left | done]. }
  apply wp_bind, wp_lift; [auto with pv |]. intros bytes w1 S1 _. set (v := get_u32_le bytes).
  destruct (Z.leb_spec PATH_MAX (zlen (temporary_name name v))) as [Hlen | Hlen].
  { apply wp_ret, Herr; [done | by right |]. intros Hc [Hroom _]. rewrite temporary_name_length in Hlen. lia. }
  apply wp_bind, wp_openat_excl.
  - rewrite (same_fs _ _ S1), (same_next _ _ S1). auto.
  - intros e w2 S2 Hcalm. assert (S12 : same w w2) by by etrans.
    assert (Hbusy : calm w -> temporaries_free (w_fs w) d name -> False).
    { intros Hc [_ Hfree]. destruct (same_calm _ _ S1 Hc) as [Hc1 _]. destruct (Hcalm Hc1) as [j Hj].
      by rewrite (same_fs _ _ S1), Hfree in Hj. }
    split_if; [apply wp_ret, Herr; [done | by left |]; intros Hc Hfree; by destruct (Hbusy Hc Hfree) |].
    apply IH; rewrite ?(same_fs _ _ S12), ?(same_next _ _ S12).
    + auto.
    + intros st w3 S3 Hst _. apply Herr; [by etrans | done |]. intros Hc Hfree. by destruct (Hbusy Hc Hfree).
    + intros v' sched w3 Hv H3f H3n H3c Hb. apply Hok; [done | done | done | etrans; [apply S12 | done] |].
      intros Hc. by apply Hb, S12.
  - intros sched w2 Hv H2f H2n H2c Hb. rewrite (same_fs _ _ S1), (same_next _ _ S1) in *.
    apply wp_ret, Hok; [done | done | done | etrans; [apply S1 | done] |]. intros Hc. by apply Hb, S1.
Qed.

(** ** Filling a temporary file *)

(** The checks of [private_snapshot_stat_issue], on an inode. *)
Definition inode_private `{Host} (n : inode) : bool := issue_ok (private_snapshot_stat_issue (stat_of 0 n)).

(** A finished file. *)
Definition finished (n : inode) (bytes : list Z) : inode := synced (refilled n bytes).

Section filling.
Context `{Host} (J : fs -> Prop) (f : fs) (d : Z) (temporary : list Z) (i : Z).
Context (HJ : forall n, J (with_file f d temporary i n)).

(** The outcome of filling a file that was empty: on success it holds the bytes,
    on the disk, and is private; it succeeds when no call fails. *)
Definition filled_file (n final : inode) (sched : list io_event) (w : world) (st : pv_status) (w' : world) : Prop :=
  w_next w' = w_next w /\ (exists n', w_fs w' = with_file f d temporary i n' /\ (st = PV_OK -> n' = final)) /\
  (st = PV_OK \/ st = PV_ERR_IO) /\ (st = PV_OK -> inode_private final = true) /\
  (calm w -> benign sched -> inode_private n = true -> inode_private final = true -> st = PV_OK).

(** The end of the three writers: [fstat], [fsync] and [close]. *)
Lemma wp_finish n st w (Q : pv_status -> world -> Prop) :
  w_fs w = with_file f d temporary i n -> st = PV_OK \/ st = PV_ERR_IO ->
  (forall st' w', w_next w' = w_next w -> st' = PV_OK \/ st' = PV_ERR_IO ->
     (exists n', w_fs w' = with_file f d temporary i n' /\ (st' = PV_OK -> n' = synced n)) ->
     (st' = PV_OK -> st = PV_OK /\ inode_private n = true) -> calmly w w' ->
     (calm w -> st = PV_OK -> inode_private n = true -> st' = PV_OK) -> Q st' w') ->
  wp J (private ← (if is_ok st then fstat_private i else mret true);
        let st := if negb private then PV_ERR_IO else st in
        synced ← (if is_ok st then fsync_file i else mret true);
        let st := if negb synced then PV_ERR_IO else st in
        closed ← close;
        mret (if is_ok st && negb closed then PV_ERR_IO else st)) Q w.
Proof.
  intros Hw Hst HQ. destruct Hst as [-> | ->]; cbn [is_ok].
  - apply wp_bind. eapply wp_fstat_private; [done |]. intros ok w1 S1 Hok Hcalm. destruct ok; cbn [negb is_ok].
    + apply wp_bind. eapply wp_fsync_file; [done | by rewrite (same_fs _ _ S1) | |].
      * intros w2 S2 Hn. cbn [negb]. apply wp_bind, wp_close. intros c w3 S3 Hc3. apply wp_ret. cbn [is_ok andb].
        apply HQ; [by rewrite (same_next _ _ S3), (same_next _ _ S2), (same_next _ _ S1) | by right | | done | | ].
        -- exists n. split; [by rewrite (same_fs _ _ S3), (same_fs _ _ S2), (same_fs _ _ S1) | done].
        -- etrans; [apply S1 |]. etrans; [apply S2 | apply S3].
        -- intros Hc. exfalso. by apply Hn, S1.
      * intros w2 H2f H2n H2c. cbn [negb]. apply wp_bind, wp_close. intros c w3 S3 Hc3. apply wp_ret.
        apply HQ; [by rewrite (same_next _ _ S3), H2n, (same_next _ _ S1) | destruct c; auto | | | |].
        -- exists (synced n). split; [by rewrite (same_fs _ _ S3), H2f | done].
        -- intros _. split; [done | by apply Hok].
        -- etrans; [apply S1 |]. etrans; [done | apply S3].
        -- intros Hc _ _. rewrite Hc3; [done |]. by apply H2c, S1.
    + apply wp_bind, wp_ret. cbn [negb]. apply wp_bind, wp_close. intros c w3 S3 Hc3. apply wp_ret. cbn [is_ok andb].
      apply HQ; [by rewrite (same_next _ _ S3), (same_next _ _ S1) | by right | | done | |].
      * exists n. split; [by rewrite (same_fs _ _ S3), (same_fs _ _ S1) | done].
      * etrans; [apply S1 | apply S3].
      * intros Hc _ Hp. specialize (Hcalm Hc). change (false = inode_private n) in Hcalm. congruence.
  - apply wp_bind, wp_ret. cbn [negb is_ok]. apply wp_bind, wp_ret. cbn [negb]. apply wp_bind, wp_close. intros c w3 S3 Hc3. apply wp_ret.
    cbn [is_ok andb]. apply HQ; [apply S3 | by right | | done | apply S3 | done].
    exists n. split; [by rewrite (same_fs _ _ S3) | done].
Qed.

Lemma wp_fill_temporary n sched header ciphertext w :
  w_fs w = with_file f d temporary i n -> i_data n = [] -> i_safe n = false ->
  wp J (fill_temporary (mk_wfile i (mk_wfd [] sched)) header ciphertext)
    (filled_file n (finished n (header ++ ciphertext)) sched w) w.
Proof.
  intros Hw Hd Hsf. unfold fill_temporary.
  eapply wp_then; [by eapply wp_store_write_all |]. intros [st1 file1] w1 C1 (I1 & N1 & F1 & T1 & D1 & B1). cbn [fst snd out_fd w_sched] in *.
  rewrite Hd in D1. cbn [app] in D1.
  assert (Hsecond : wp J (if is_ok st1 then store_write_all file1 ciphertext else mret (st1, file1))
    (fun r w2 => exists n2, w_fs w2 = with_file f d temporary i n2 /\ w_next w2 = w_next w /\ out_ino (snd r) = i /\
      (fst r = PV_OK \/ fst r = PV_ERR_IO) /\ (fst r = PV_OK -> n2 = refilled n (header ++ ciphertext)) /\
      (benign sched -> fst r = PV_OK)) w1).
  { destruct T1 as [-> | ->]; cbn [is_ok]; [| apply wp_ret].
    - eapply wp_mono; [eapply wp_store_write_all; [done | exact F1 | done | done | done] |].
      intros [st2 file2] w2 C2 (I2 & N2 & F2 & T2 & D2 & B2). cbn [fst snd out_fd] in *.
      eexists. split_and!; [exact F2 | congruence | done | done | |].
      + intros ->. rewrite D2 by done. cbn [refilled i_data]. by rewrite D1.
      + intros Hb. apply B2. by apply B1.
    - eexists. split_and!; [exact F1 | done | done | by right | done |]. intros Hb. by apply B1. }
  eapply wp_then; [exact Hsecond |]. intros [st2 file2] w2 C2 (n2 & F2 & N2 & I2 & T2 & D2 & B2). cbn [fst snd] in *. rewrite I2.
  eapply wp_finish; [exact F2 | done |]. intros st' w3 N3 T3 (n3 & F3 & D3) P3 C3 L3. split_and!.
  - by rewrite N3.
  - exists n3. split; [done |]. intros ->. rewrite D3 by done. destruct P3 as [P3 _]; [done |]. unfold finished. by rewrite D2.
  - done.
  - intros ->. destruct P3 as [P3 Hp]; [done |]. by rewrite (D2 P3) in Hp.
  - intros Hc Hb Hp _. apply L3; [by apply C2, C1 | by apply B2 |]. by rewrite D2 by by apply B2.
Qed.

Lemma wp_fill_snapshot n sched header ciphertext mode w :
  w_fs w = with_file f d temporary i n -> i_data n = [] -> i_safe n = false ->
  wp J (fill_snapshot (mk_wfile i (mk_wfd [] sched)) header ciphertext mode)
    (filled_file n (synced (moded (refilled n (header ++ ciphertext)) mode)) sched w) w.
Proof.
  intros Hw Hd Hsf. unfold fill_snapshot. apply wp_bind. eapply wp_fstat_private; [exact Hw |]. cbn [out_ino].
  intros ok w1 S1 Hpriv Hcalm.
  assert (Hfail : forall n' w', w_fs w' = with_file f d temporary i n' -> w_next w' = w_next w ->
    ~ (calm w /\ benign sched /\ inode_private n = true) ->
    wp J (private ← mret true; let st := if negb private then PV_ERR_IO else PV_ERR_IO in
          synced ← (if is_ok st then fsync_file i else mret true);
          let st := if negb synced then PV_ERR_IO else st in
          closed ← close; mret (if is_ok st && negb closed then PV_ERR_IO else st))
      (filled_file n (synced (moded (refilled n (header ++ ciphertext)) mode)) sched w) w').
  { intros n' w' F' N' Hbad. apply wp_bind, wp_ret. cbn [negb is_ok]. apply wp_bind, wp_ret. cbn [negb].
    apply wp_bind, wp_close. intros c w2 S2 _. apply wp_ret. cbn [is_ok andb]. split_and!.
    - by rewrite (same_next _ _ S2).
    - exists n'. split; [by rewrite (same_fs _ _ S2) | done].
    - by right.
    - done.
    - intros Hc Hb Hp. exfalso. by apply Hbad. }
  destruct ok; cbn [is_ok].
  2: { apply wp_bind, wp_ret. cbn [is_ok]. apply wp_bind, wp_ret. cbn [is_ok]. apply wp_bind, wp_ret. cbn [negb is_ok].
       apply (Hfail n); [by rewrite (same_fs _ _ S1) | by rewrite (same_next _ _ S1) |]. intros (Hc & _ & Hp).
       specialize (Hcalm Hc). change (false = inode_private n) in Hcalm. congruence. }
  eapply wp_then; [eapply wp_store_write_all; [done | rewrite (same_fs _ _ S1); exact Hw | done | done | done] |].
  intros [st1 file1] w2 C2 (I1 & N1 & F1 & T1 & D1 & B1). cbn [fst snd out_fd w_sched] in *. rewrite Hd in D1. cbn [app] in D1.
  rewrite (same_next _ _ S1) in N1.
  destruct T1 as [-> | ->]; cbn [is_ok].
  2: { apply wp_bind, wp_ret. cbn [is_ok]. apply wp_bind, wp_ret. cbn [negb is_ok]. rewrite I1.
       eapply Hfail; [exact F1 | done |]. intros (_ & Hb & _). by apply B1 in Hb as []. }
  eapply wp_then; [eapply wp_store_write_all; [done | exact F1 | done | done | done] |].
  intros [st2 file2] w3 C3 (I2 & N2 & F2 & T2 & D2 & B2). cbn [fst snd out_fd] in *. rewrite D1 in D2 by done. rewrite N1 in N2.
  destruct T2 as [-> | ->]; cbn [is_ok].
  2: { apply wp_bind, wp_ret. cbn [negb is_ok]. rewrite I2. eapply Hfail; [exact F2 | done |].
       intros (_ & Hb & _). by apply B1 in Hb as [_ Hb%B2%proj1]. }
  rewrite I2. apply wp_bind. eapply wp_fchmod; [done | exact F2 | |].
  - intros w4 S4 Hn. cbn [negb is_ok]. eapply Hfail; [by rewrite (same_fs _ _ S4) | by rewrite (same_next _ _ S4) |].
    intros (Hc & _ & _). eauto 6 with calm.
  - intros w4 F4 N4 C4. cbn [negb]. eapply wp_finish; [exact F4 | by left |].
    intros st' w5 N5 T5 (n5 & F5 & D5) P5 C5 L5. rewrite D2 in * by done. cbn [refilled i_data] in *. split_and!.
    + congruence.
    + exists n5. split; [done |]. intros ->. by apply D5.
    + done.
    + intros ->. by apply P5.
    + intros Hc Hb Hp Hf. apply L5; [eauto 6 with calm | done | done].
Qed.

End filling.

(** ** Writing a file: the stages *)

Inductive stage := Before | Published | Durable.

(** The file systems a writer goes through, from [f], to put a file with inode
    [final], of the number [i], under [name]. *)
Inductive writing (f : fs) (i d : Z) (name : list Z) (final : inode) (no_replace : bool) : stage -> fs -> Prop :=
| writing_start : writing f i d name final no_replace Before f
| writing_temporary v n : unused f d (temporary_name name v) i ->
    writing f i d name final no_replace Before (with_file f d (temporary_name name v) i n)
| writing_unlinked v n : unused f d (temporary_name name v) i ->
    writing f i d name final no_replace Before (unlinked f d (temporary_name name v) i n)
| writing_renamed v : unused f d (temporary_name name v) i -> (no_replace = true -> entry f d name = None) ->
    writing f i d name final no_replace Published (renamed f d (temporary_name name v) name i final)
| writing_synced v : unused f d (temporary_name name v) i -> (no_replace = true -> entry f d name = None) ->
    writing f i d name final no_replace Durable (dir_synced (renamed f d (temporary_name name v) name i final) d).

(** Any of the stages. *)
Definition in_writing (f : fs) (i d : Z) (name : list Z) (final : inode) (no_replace : bool) (g : fs) : Prop :=
  exists s, writing f i d name final no_replace s g.

#[export] Hint Constructors writing : pv.

Section writing_facts.
Context (f : fs) (i d : Z) (name : list Z) (final : inode) (no_replace : bool).

Lemma writing_extends s g : writing f i d name final no_replace s g -> extends (only d name) f g.
Proof.
  destruct 1; auto using with_file_extends, unlinked_extends, renamed_extends, dir_synced_extends, temporary_name_ne with pv.
Qed.

Lemma writing_extends_before g : writing f i d name final no_replace Before g -> extends none f g.
Proof. intros W. inv W; auto using with_file_extends, unlinked_extends. done. Qed.

Lemma writing_extends_new s g : entry f d name = None -> writing f i d name final no_replace s g -> extends none f g.
Proof.
  intros Hn. destruct 1; auto using with_file_extends, unlinked_extends, renamed_extends_new, dir_synced_extends, temporary_name_ne.
  done.
Qed.

(** Before the file is published the name is as it was. *)
Lemma writing_before g : writing f i d name final no_replace Before g ->
  entry g d name = entry f d name /\ durable_entry g d name = durable_entry f d name.
Proof.
  intros W. inv W; [done | |].
  - rewrite with_file_entry, decide_False; [done |]. intros [_ E]. by apply (temporary_name_ne name v).
  - by rewrite unlinked_entry, unlinked_durable.
Qed.

(** Afterwards it is the finished file. *)
Lemma writing_published s g : writing f i d name final no_replace s g -> s <> Before ->
  entry g d name = Some i /\ f_inodes g !! i = Some final /\ content f i = None /\
    (durable_entry g d name = durable_entry f d name \/ durable_entry g d name = Some i) /\
    (s = Durable -> durable_entry g d name = Some i) /\ (no_replace = true -> entry f d name = None).
Proof.
  destruct 1 as [| | | v Hu Hn | v Hu Hn]; try done; intros _; pose proof (temporary_name_ne name v) as Hne.
  - rewrite renamed_entry, decide_True, renamed_inode, renamed_durable by done. split_and!; auto; [| done].
    by eapply content_new.
  - unfold entry at 1. change (entries (dir_synced ?g d) d !! name) with (entry g d name).
    rewrite renamed_entry, decide_True, dir_synced_durable, decide_True, renamed_entry, decide_True by done.
    change (f_inodes (dir_synced ?g d)) with (f_inodes g). rewrite renamed_inode by done. split_and!; auto. by eapply content_new.
Qed.

(** A writer that does not replace gives up nothing. *)
Lemma writing_extends_excl s g : no_replace = true -> writing f i d name final no_replace s g -> extends none f g.
Proof.
  intros Hn W. destruct (entry f d name) as [j |] eqn:E; [| by eapply writing_extends_new].
  destruct s; [by eapply writing_extends_before | |]; destruct (writing_published _ _ W) as (_ & _ & _ & _ & _ & Hno); try done; by rewrite Hno in E.
Qed.

End writing_facts.

Section writers.
Context `{Host}.

(** The outcome of a writer that reports [durability] when only the last [fsync]
    fails. *)
Definition write_outcome (f : fs) (i d : Z) (name : list Z) (final : inode) (no_replace : bool) (durability : pv_status)
    (st : pv_status) (w : world) : Prop :=
  st = PV_OK /\ writing f i d name final no_replace Durable (w_fs w) /\ inode_private final = true \/
  st = durability /\ writing f i d name final no_replace Published (w_fs w) /\ inode_private final = true \/
  st <> PV_OK /\ st <> PV_ERR_DURABILITY /\ writing f i d name final no_replace Before (w_fs w).

Lemma writing_ok f i d name final no_replace s g :
  fs_ok f i -> writing f i d name final no_replace s g -> fs_ok g (i + 1).
Proof.
  intros Hok W. destruct W; auto using with_file_ok, unlinked_ok, renamed_ok, dir_synced_ok, temporary_name_ne with lia.
  destruct Hok as [Hi He Hd]. split; intros.
  - apply Hi in H0. lia.
  - apply He in H0. lia.
  - apply Hd in H0. lia.
Qed.

Lemma wp_publish_filled f d name v i n final no_replace durability st w :
  let t := temporary_name name v in
  unused f d t i -> w_fs w = with_file f d t i n -> (st = PV_OK -> n = final /\ inode_private final = true) ->
  st <> PV_ERR_DURABILITY ->
  wp (in_writing f i d name final no_replace) (publish d t name no_replace durability st)
    (fun st' w' => w_next w' = w_next w /\ write_outcome f i d name final no_replace durability st' w' /\
       (calm w -> st = PV_OK -> (no_replace = true -> entry f d name = None) -> st' = PV_OK) /\ (st' = PV_OK -> st = PV_OK)) w.
Proof.
  intros t Hu Hw Hfinal Hst. subst t. destruct (is_ok st) eqn:E.
  - apply is_ok_iff in E as ->. destruct (Hfinal eq_refl) as [-> Hp].
    apply (wp_publish _ f d _ name i final (temporary_name_ne name v) no_replace); try done.
    + exists Before. auto with pv.
    + intros Hn. exists Published. auto with pv.
    + intros Hn. exists Durable. auto with pv.
    + intros st' w' (Hx & _ & Hf) Hst' Hcalm. split_and!; [done | | | done].
      * right. right. destruct Hst' as [[? _] | [_ Hst']]; [done |]. split_and!; [by destruct Hst' as [-> | ->] .. |].
        destruct Hf as [-> | ->]; auto with pv.
      * intros Hc _ Hn. destruct (Hcalm Hc eq_refl) as [Hnr [j Hj]]. specialize (Hn Hnr). congruence.
    + intros w' _ Hn Hf Hx. split_and!; [done | left; rewrite Hf; auto with pv | done | done].
    + intros w' _ Hn Hf Hx Hc. split_and!; [done | right; left; rewrite Hf; auto with pv | done | done].
  - assert (Hne : st <> PV_OK) by (intros ->; done). unfold publish. rewrite E.
    apply wp_bind, wp_ret. cbv beta iota. rewrite E. apply wp_bind, wp_ret. cbn [negb].
    apply wp_bind. apply (wp_unlinkat _ f d _ i n); [exists Before; auto with pv | done |].
    intros ok w' Hf _ Hx _. apply wp_ret. split_and!; [done | | done | done]. right. right. split_and!; [done | done |].
    destruct Hf as [-> | ->]; auto with pv.
Qed.

(** Enough for a writer to succeed in a calm world. *)
Definition can_write (f : fs) (d : Z) (name : list Z) (final : inode) (no_replace : bool) : Prop :=
  temporaries_free f d name /\ inode_private created_inode = true /\ inode_private final = true /\
  (no_replace = true -> entry f d name = None).

(** The specification of the writers, with the next inode number. *)
Definition write_spec (f : fs) (i d : Z) (name : list Z) (final : inode) (no_replace : bool) (durability : pv_status)
    (w : world) (st : pv_status) (w' : world) : Prop :=
  i <= w_next w' <= i + 1 /\ fs_ok (w_fs w') (w_next w') /\ write_outcome f i d name final no_replace durability st w' /\
  (calm w -> can_write f d name final no_replace -> st = PV_OK).

Lemma write_outcome_ok f i d name final no_replace durability st w :
  fs_ok f i -> w_next w = i + 1 -> write_outcome f i d name final no_replace durability st w -> fs_ok (w_fs w) (w_next w).
Proof. intros Hok -> [(_ & W & _) | [(_ & W & _) | (_ & _ & W)]]; by eapply writing_ok. Qed.

(** From a filled file to the end. *)
Lemma wp_publish_spec f d name v n0 final sched no_replace durability st w w1 :
  fs_ok f (w_next w) -> unused f d (temporary_name name v) (w_next w) -> w_next w1 = w_next w + 1 ->
  (exists n', w_fs w1 = with_file f d (temporary_name name v) (w_next w) n' /\ (st = PV_OK -> n' = final)) ->
  st = PV_OK \/ st = PV_ERR_IO -> (st = PV_OK -> inode_private final = true) ->
  (calm w -> calm w1 /\ (benign sched -> inode_private n0 = true -> inode_private final = true -> st = PV_OK)) ->
  (calm w -> benign sched) -> (inode_private created_inode = true -> inode_private n0 = true) ->
  wp (in_writing f (w_next w) d name final no_replace) (publish d (temporary_name name v) name no_replace durability st)
    (write_spec f (w_next w) d name final no_replace durability w) w1.
Proof.
  intros Hok Hu Hx (n' & Hf & Hn) Hst Hp Hcalm Hb Hcr.
  eapply wp_mono; [eapply wp_publish_filled; [exact Hu | exact Hf | auto | by destruct Hst as [-> | ->]] |].
  intros st' w2 C2 (Hx2 & Hout & Hlive & _). split_and!; [lia | lia | eapply write_outcome_ok; [done | lia | done] | done |].
  intros Hc (Hfree & Hci & Hfi & Hnr). destruct (Hcalm Hc) as [Hc1 Hok1]. auto.
Qed.

(** Nothing was written. *)
Lemma write_spec_nothing d name final no_replace durability st w w' :
  world_ok w -> same w w' -> st <> PV_OK -> st <> PV_ERR_DURABILITY ->
  (calm w -> ~ can_write (w_fs w) d name final no_replace) ->
  write_spec (w_fs w) (w_next w) d name final no_replace durability w st w'.
Proof.
  intros Hok S1 Hst Hst' Hcalm. split_and!.
  - rewrite (same_next _ _ S1). lia.
  - rewrite (same_next _ _ S1). lia.
  - by apply (world_ok_same _ _ S1).
  - right. right. rewrite (same_fs _ _ S1). auto with pv.
  - intros Hc Hw. by destruct (Hcalm Hc).
Qed.

Lemma wp_write_atomic_at location header ciphertext no_replace w :
  world_ok w -> directory_fd location < w_next w -> 0 < zlen ciphertext ->
  let final := finished created_inode (header ++ ciphertext) in
  wp (in_writing (w_fs w) (w_next w) (directory_fd location) (location_name location) final no_replace)
    (write_atomic_at location header ciphertext no_replace)
    (write_spec (w_fs w) (w_next w) (directory_fd location) (location_name location) final no_replace PV_ERR_DURABILITY w) w.
Proof.
  intros Hok Hd Hlen final. unfold write_atomic_at. replace (zlen ciphertext =? 0) with false by lia.
  set (d := directory_fd location) in *. set (name := location_name location) in *.
  apply wp_bind, wp_open_temporary.
  - intros v n Hv. exists Before. constructor. by apply unused_next.
  - intros st w1 S1 Hst Hcalm. apply wp_ret, write_spec_nothing; [done | done | by destruct Hst as [-> | ->] .. |].
    intros Hc (Hfree & _). by specialize (Hcalm Hc Hfree).
  - intros v sched w1 Hv F1 N1 C1 Hb. assert (Hu := unused_next w d _ Hok Hv Hd).
    apply wp_bind. eapply wp_fstat_private; [exact F1 |].
    intros ok w2 S2 Hpriv Hcalm. destruct ok; cbn [negb].
    + apply wp_bind. eapply wp_mono;
        [apply (wp_fill_temporary _ (w_fs w) d (temporary_name name v) (w_next w)) with (n := created_inode);
         [intros; exists Before; auto with pv | by rewrite (same_fs _ _ S2) | done | done] |].
      intros st w3 C3 (N3 & F3 & T3 & P3 & L3). eapply wp_publish_spec; [done | done | | exact F3 | done | exact P3 | | exact Hb | exact id].
      * by rewrite N3, (same_next _ _ S2), N1.
      * intros Hc. assert (calm w2) by eauto with calm. split; [eauto with calm |]. auto.
    + apply wp_bind, wp_close. intros c w3 S3 _. apply wp_bind.
      apply (wp_unlinkat _ (w_fs w) d (temporary_name name v) (w_next w) created_inode);
        [exists Before; auto with pv | by rewrite (same_fs _ _ S3), (same_fs _ _ S2), F1 |].
      intros ok w4 F4 _ N4 C4. apply wp_ret. rewrite (same_next _ _ S3), (same_next _ _ S2), N1 in N4.
      assert (Hout : write_outcome (w_fs w) (w_next w) d name final no_replace PV_ERR_DURABILITY PV_ERR_IO w4)
        by (right; right; split_and!; [done | done | destruct F4 as [-> | ->]; auto with pv]).
      split_and!; [lia | lia | by eapply write_outcome_ok | done |]. intros Hc (_ & Hci & _).
      assert (calm w1) as Hc1 by eauto with calm. specialize (Hcalm Hc1). change (false = inode_private created_inode) in Hcalm. congruence.
Qed.

(** The inode of a snapshot with the given access mode. *)
Definition snapshot_inode (header ciphertext : list Z) (mode : Z) : inode :=
  synced (moded (refilled created_inode (header ++ ciphertext)) mode).

Lemma wp_write_snapshot_exclusive_at d name header ciphertext mode w :
  world_ok w -> d < w_next w -> 0 < zlen ciphertext -> mode = 256 \/ mode = 384 ->
  let final := snapshot_inode header ciphertext mode in
  wp (in_writing (w_fs w) (w_next w) d name final true)
    (write_snapshot_exclusive_at d name header ciphertext mode)
    (write_spec (w_fs w) (w_next w) d name final true PV_ERR_DURABILITY w) w.
Proof.
  intros Hok Hd Hlen Hmode final. unfold write_snapshot_exclusive_at. replace (zlen ciphertext =? 0) with false by lia.
  replace (negb (mode =? 256) && negb (mode =? 384)) with false by lia. cbn [orb].
  apply wp_bind, wp_open_temporary.
  - intros v n Hv. exists Before. constructor. by apply unused_next.
  - intros st w1 S1 Hst Hcalm. apply wp_ret, write_spec_nothing; [done | done | by destruct Hst as [-> | ->] .. |].
    intros Hc (Hfree & _). by specialize (Hcalm Hc Hfree).
  - intros v sched w1 Hv F1 N1 C1 Hb. assert (Hu := unused_next w d _ Hok Hv Hd). apply wp_bind. eapply wp_mono;
      [apply (wp_fill_snapshot _ (w_fs w) d (temporary_name name v) (w_next w)) with (n := created_inode);
       [intros; exists Before; auto with pv | exact F1 | done | done] |].
    intros st w3 C3 (N3 & F3 & T3 & P3 & L3).
    eapply wp_publish_spec; [done | done | | exact F3 | done | exact P3 | | exact Hb | exact id].
    + by rewrite N3, N1.
    + intros Hc. assert (calm w1) by eauto with calm. split; [eauto with calm |]. auto.
Qed.

End writers.
