(* ===== verification/StoreReads.v ===== *)
(** * Facts about reading

    What a private file, its directory and its path are when the checks of
    [src/store.c] accept them, and that reading returns exactly the file. *)

From stdpp Require Import gmap.
From S2P Require Import Prelude Status Util Sys Arena Model Cbor Crypto CryptoFacts Posix Config Secure Fs FsFacts Store StoreOps StoreFacts.

(** ** Transfers *)

(** A successful transfer is the bytes asked for; it succeeds when no call fails
    and there are as many. *)
Definition read_spec (sched : list io_event) (data have : list Z) (len : Z) (r : pv_status * list Z * reader_fd) : Prop :=
  let '(st, bytes, fd) := r in
  (st = PV_OK \/ st = PV_ERR_IO) /\
  (st = PV_OK -> len <= zlen data /\ bytes = have ++ zsub data 0 len /\ r_data fd = drop (Z.to_nat len) data) /\
  (benign sched -> len <= zlen data -> st = PV_OK /\ benign (r_sched fd)).

Lemma store_read_loop_spec sched data have len : 0 <= len -> read_spec sched data have len (store_read_loop sched data have len).
Proof.
  revert data have len. induction sched as [| e sched IH]; intros data have len Hlen; cbn [store_read_loop].
  all: destruct (Z.leb_spec len 0);
    [replace len with 0 by lia; unfold read_spec; rewrite zsub_nil_len, app_nil_r; cbn [r_data r_sched];
     pose proof (zlen_nonneg data); split_and!; auto; by left |].
  - cbn [read r_sched r_data]. cbn iota. destruct (Z.ltb_spec (zlen (zsub data 0 len)) len) as [Hlt | Hge]; unfold read_spec; cbn [r_data r_sched].
    + split_and!; [by right | done |]. intros _ Hle. rewrite zlen_zsub in Hlt by lia. lia.
    + split_and!; [by left | | split; [done | constructor]]. intros _. split_and!; [| done | done].
      unfold zsub, zlen in *. rewrite length_take, length_drop in Hge. lia.
  - destruct e as [| | | k]; cbn [read r_sched r_data]; cbv zeta; cbn iota.
    + specialize (IH data have len Hlen). unfold read_spec in *. destruct (store_read_loop _ _ _ _) as [[st bytes] fd].
      destruct IH as (H1 & H2 & H3). split_and!; auto. intros Hb. apply Forall_cons_iff in Hb as [_ Hb]. auto.
    + unfold read_spec. split_and!; [by right | done |]. intros Hb. apply Forall_cons_iff in Hb as [[] _]. done.
    + rewrite zlen_nil. cbn [Z.leb Z.compare]. unfold read_spec. split_and!; [by right | done |].
      intros Hb. apply Forall_cons_iff in Hb as [[] _]. done.
    + set (m := Z.min len (Z.of_nat k + 1)). destruct (Z.leb_spec (zlen (zsub data 0 m)) 0) as [Hz | Hz].
      { unfold read_spec. split_and!; [by right | done |]. intros _ Hle. rewrite zlen_zsub in Hz by lia. lia. }
      assert (Hb : zlen (zsub data 0 m) <= m) by (unfold zsub, zlen; rewrite length_take; lia).
      specialize (IH (drop (Z.to_nat m) data) (have ++ zsub data 0 m) (len - zlen (zsub data 0 m)) ltac:(lia)). unfold read_spec in *.
      destruct (store_read_loop _ _ _ _) as [[st bytes] fd]. destruct IH as (H1 & H2 & H3).
      assert (Hfull : m <= zlen data -> zlen (zsub data 0 m) = m) by (intros; apply zlen_zsub; lia).
      assert (Hdrop : zlen (drop (Z.to_nat m) data) = Z.max 0 (zlen data - m)) by (unfold zlen; rewrite length_drop; lia).
      assert (Hshort : zlen data < m -> zlen (zsub data 0 m) = zlen data) by (intros; unfold zsub, zlen in *; rewrite drop_0, length_take; lia).
      split_and!; [done | |].
      * intros Hst. destruct (H2 Hst) as (Hle & -> & ->). assert (m <= zlen data) as Hm by lia. rewrite (Hfull Hm) in *.
        split_and!; [lia | |].
        -- rewrite <- app_assoc. f_equal. rewrite !zsub_0.
           replace (Z.to_nat len) with (Z.to_nat m + Z.to_nat (len - m))%nat by lia. apply take_take_drop.
        -- rewrite drop_drop. f_equal. lia.
      * intros Hben Hle. apply Forall_cons_iff in Hben as [_ Hben]. apply H3; [done |]. rewrite Hfull by lia. lia.
Qed.

Lemma read_extra_benign sched : benign sched -> read_extra sched [] = Transferred [].
Proof.
  induction 1 as [| e sched [He Hz] Hs IH]; [done |]. destruct e as [| | | k]; cbn [read_extra]; try done.
  cbn [read r_sched r_data]. cbv zeta. unfold zsub. by rewrite drop_nil, take_nil.
Qed.

(** ** Files *)

Lemma header_decode_body_len bytes h :
  pv_header_decode bytes = (PV_OK, h) -> 4112 <= h_body_ciphertext_len h <= PV_MAX_PLAINTEXT + PV_BODY_TAG_BYTES.
Proof.
  unfold pv_header_decode. cbv zeta. intros E. do 3 (split_if_in E; [done |]). injection E as <-.
  rewrite !orb_false_iff in *. destruct_and!. unfold PV_BODY_TAG_BYTES in *. lia.
Qed.

Section reads.
Context `{Host} `{Sodium} (J : fs -> Prop).

(** A private regular file is not a symbolic link. *)
Lemma private_not_link n : inode_private n = true -> S_ISLNK (i_mode n) = false.
Proof.
  unfold inode_private, private_snapshot_stat_issue. cbn [stat_of st_mode]. destruct (S_ISREG (i_mode n)) eqn:E; [| done].
  intros _. unfold S_ISREG, S_ISLNK in *. lia.
Qed.

Lemma wp_open_private_snapshot_at d name w (Q : pv_status * option (rfile * stat) * pv_private_snapshot_issue -> world -> Prop) :
  (forall issue w', same w w' ->
     (calm w -> forall i n, entry (w_fs w) d name = Some i -> f_inodes (w_fs w) !! i = Some n -> inode_private n = false) ->
     Q (PV_ERR_IO, None, issue) w') ->
  (forall i n sched issue w', same w w' -> entry (w_fs w) d name = Some i -> f_inodes (w_fs w) !! i = Some n -> inode_private n = true ->
     (calm w -> benign sched) -> Q (PV_OK, Some (mk_rfile i (mk_rfd (i_data n) sched), stat_of i n), issue) w') ->
  wp J (open_private_snapshot_at d name) Q w.
Proof.
  intros Herr Hok. unfold open_private_snapshot_at. apply wp_bind, wp_openat_read. intros r w1 S1 Hr Hcalm.
  destruct r as [file |].
  2: { apply wp_ret, Herr; [done |]. intros Hc i n Hi Hn. destruct (inode_private n) eqn:Hp; [| done].
       destruct (Hcalm Hc i n Hi Hn (private_not_link n Hp)) as (s & E & _). done. }
  destruct (Hr file eq_refl) as (n & Hi & Hn & Hdata).
  assert (Hb : calm w -> inode_private n = true -> benign (r_sched (in_fd file))).
  { intros Hc Hp. destruct (Hcalm Hc _ n Hi Hn (private_not_link n Hp)) as (s & E & Hs).
    apply (inj Some) in E. by rewrite E. }
  apply wp_bind, wp_fstat. rewrite (same_fs _ _ S1). intros st w2 S2 Hst Hcalm2. assert (S12 : same w w2) by by etrans.
  destruct st as [st |].
  2: { apply wp_bind, wp_close. intros c w3 S3 _. apply wp_ret, Herr; [by etrans |]. intros Hc.
       assert (calm w1) as Hc1 by eauto with calm. specialize (Hcalm2 Hc1). by rewrite Hn in Hcalm2. }
  destruct (Hst st eq_refl) as (n' & En' & ->). rewrite Hn in En'. injection En' as <-.
  change (issue_ok (private_snapshot_stat_issue (stat_of (in_ino file) n))) with (inode_private n).
  destruct (inode_private n) eqn:Hp.
  - apply wp_ret. destruct file as [j [data sched]]. cbn [in_ino in_fd r_data r_sched] in *. subst data. eapply Hok; eauto.
  - apply wp_bind, wp_close. intros c w3 S3 _. apply wp_ret, Herr; [by etrans |]. intros Hc i n' Hi' Hn'. congruence.
Qed.

(** What a file holds. *)
Record disk_of (f : fs) (d : Z) (name : list Z) (i : Z) (n : inode) (disk : pv_disk_file) : Prop := mk_disk_of {
  do_entry : entry f d name = Some i;
  do_inode : f_inodes f !! i = Some n;
  do_private : inode_private n = true;
  do_stat : disk_snapshot_stat disk = stat_of i n;
  do_bytes : i_data n = disk_header_bytes disk ++ disk_ciphertext disk;
  do_header_len : zlen (disk_header_bytes disk) = PV_FILE_HEADER_LEN;
  do_header : pv_header_decode (disk_header_bytes disk) = (PV_OK, disk_header disk);
  do_body_len : zlen (disk_ciphertext disk) = h_body_ciphertext_len (disk_header disk);
  do_hash : crypto_generichash (i_data n) = Some (disk_hash disk)
}.

Lemma disk_of_unique f d name i n i' n' disk disk' : disk_of f d name i n disk -> disk_of f d name i' n' disk' ->
  i' = i /\ n' = n /\ disk' = disk.
Proof.
  intros [A1 A2 A3 A4 A5 A6 A7 A8 A9] [B1 B2 B3 B4 B5 B6 B7 B8 B9]. assert (i' = i) as -> by congruence. assert (n' = n) as -> by congruence.
  destruct disk as [hb h c hs st], disk' as [hb' h' c' hs' st'].
  cbn [disk_header_bytes disk_header disk_ciphertext disk_hash disk_snapshot_stat] in *.
  assert (hb' = hb /\ c' = c) as [-> ->].
  { rewrite A5 in B5. apply app_inj_1 in B5 as [-> ->]; [done |]. unfold zlen in *. lia. }
  assert (h' = h) as -> by congruence. assert (hs' = hs) as -> by congruence. subst. done.
Qed.

(** The header and body of a file of bytes. *)
Definition header_of (data header_bytes : list Z) (header : pv_file_header) : Prop :=
  header_bytes = zsub data 0 PV_FILE_HEADER_LEN /\ zlen header_bytes = PV_FILE_HEADER_LEN /\
  pv_header_decode header_bytes = (PV_OK, header) /\
  zlen data = PV_FILE_HEADER_LEN + h_body_ciphertext_len header.

Definition body_of (data : list Z) : list Z := drop (Z.to_nat PV_FILE_HEADER_LEN) data.

Lemma disk_of_header f d name i n disk : disk_of f d name i n disk -> header_of (i_data n) (disk_header_bytes disk) (disk_header disk).
Proof.
  intros [_ _ _ _ D5 D6 D7 D8 _]. unfold header_of. change PV_FILE_HEADER_LEN with 252 in *. split_and!; auto.
  - by rewrite D5, zsub_app_l, <- D6, zsub_all by lia.
  - by rewrite D5, zlen_app, D6, D8.
Qed.

Lemma header_decode_not_durability bytes : fst (pv_header_decode bytes) <> PV_ERR_DURABILITY.
Proof. unfold pv_header_decode. cbv zeta. by repeat split_if. Qed.

Lemma read_disk_header_spec i n sched :
  let '(st, header_bytes, header, fd) := read_disk_header (stat_of i n) (mk_rfd (i_data n) sched) in
  (st = PV_OK -> header_of (i_data n) header_bytes header /\ r_data fd = body_of (i_data n)) /\ st <> PV_ERR_DURABILITY /\
  (benign sched -> forall hb h, header_of (i_data n) hb h -> st = PV_OK /\ benign (r_sched fd)).
Proof.
  unfold read_disk_header, store_read_all. cbn [stat_of st_size r_data r_sched]. set (data := i_data n).
  destruct (Z.ltb_spec (zlen data) PV_FILE_HEADER_LEN) as [Hshort | Hlong].
  { split_and!; [done | done |]. intros _ hb h (-> & Hl & _). unfold zsub, zlen in *. rewrite length_take, length_drop in Hl. lia. }
  pose proof (store_read_loop_spec sched data [] PV_FILE_HEADER_LEN ltac:(by vm_compute)) as Hread.
  destruct (store_read_loop sched data [] PV_FILE_HEADER_LEN) as [[st1 bytes] fd]. destruct Hread as (T & D & B).
  destruct T as [-> | ->]; cbn [is_ok negb]; [| split_and!; [done | done |]; intros Hb hb h _; by destruct (B Hb Hlong)].
  destruct (D eq_refl) as (_ & -> & Hrest). rewrite app_nil_l. set (hb := zsub data 0 PV_FILE_HEADER_LEN).
  pose proof (header_decode_not_durability hb) as Hnd. destruct (pv_header_decode hb) as [st2 header] eqn:Edec. cbn [fst] in Hnd.
  destruct (is_ok st2) eqn:E2; cbn [negb].
  2: { split_and!; [by intros -> | done |]. intros _ hb' h (-> & _ & E & _). fold hb in E. rewrite Edec in E. by simplify_eq. }
  apply is_ok_iff in E2 as ->. pose proof (header_decode_body_len _ _ Edec) as Hlen. set (len := h_body_ciphertext_len header) in *.
  assert (Hhb : zlen hb = PV_FILE_HEADER_LEN) by (apply zlen_zsub; change PV_FILE_HEADER_LEN with 252 in *; lia).
  assert (0 <= 252 + len <= INT64_MAX) by (unfold PV_MAX_PLAINTEXT, PV_BODY_TAG_BYTES, INT64_MAX in *; lia).
  change PV_FILE_HEADER_LEN with 252 in *. rewrite u64_small by (unfold UINT64_MAX, INT64_MAX in *; lia).
  replace (INT64_MAX <? 252 + len) with false by lia. cbn [orb].
  destruct (Z.eqb_spec (zlen data) (252 + len)) as [Hsize | Hsize]; cbn [negb].
  - split_and!; [| done | intros Hb ? ? _; by apply B]. intros _. split; [by split_and! | done].
  - split_and!; [done | done |]. intros _ hb' h (-> & _ & E & Hz). change PV_FILE_HEADER_LEN with 252 in *. fold hb in E. rewrite Edec in E. by simplify_eq.
Qed.

Lemma read_disk_body_spec data header_bytes header fd :
  header_of data header_bytes header -> r_data fd = body_of data ->
  let '(st, ciphertext) := read_disk_body header fd in
  (st = PV_OK -> ciphertext = body_of data) /\ st <> PV_ERR_DURABILITY /\ (benign (r_sched fd) -> st = PV_OK).
Proof.
  intros (-> & Hl & Edec & Hz) Hfd. pose proof (header_decode_body_len _ _ Edec) as Hlen. unfold read_disk_body, store_read_all.
  assert (Hbody : zlen (body_of data) = h_body_ciphertext_len header).
  { unfold body_of, zlen in *. rewrite length_drop. change PV_FILE_HEADER_LEN with 252 in *. lia. }
  pose proof (store_read_loop_spec (r_sched fd) (r_data fd) [] (h_body_ciphertext_len header) ltac:(lia)) as Hread.
  rewrite Hfd in *. destruct (store_read_loop _ _ _ _) as [[st bytes] fd']. destruct Hread as (T & D & B).
  destruct T as [-> | ->]; cbn [is_ok negb]; [| split_and!; [done | done |]; intros Hb; by destruct (B Hb ltac:(lia))].
  destruct (D eq_refl) as (_ & -> & Hrest). rewrite app_nil_l, <- Hbody, zsub_all.
  assert (r_data fd' = []) as Hend by (rewrite Hrest; apply drop_ge; unfold zlen in *; lia).
  assert (Hx : benign (r_sched fd) -> read_extra (r_sched fd') (r_data fd') = Transferred []).
  { intros Hb. rewrite Hend. apply read_extra_benign. apply B; [done | lia]. }
  destruct (read_extra _ _) as [| | [| ? ?]]; split_and!; try done; intros Hb; by specialize (Hx Hb).
Qed.

(** Reading returns the file, and nothing else. *)
Lemma wp_read_disk_file_at d name w (Q : pv_status * pv_disk_file -> world -> Prop) :
  (forall st w', same w w' -> st <> PV_OK -> st <> PV_ERR_DURABILITY ->
     (calm w -> forall i n disk, ~ disk_of (w_fs w) d name i n disk) -> Q (st, disk_zero) w') ->
  (forall i n disk w', same w w' -> disk_of (w_fs w) d name i n disk -> Q (PV_OK, disk) w') ->
  wp J (read_disk_file_at d name) Q w.
Proof.
  intros Herr Hok. unfold read_disk_file_at. apply wp_bind, wp_open_private_snapshot_at.
  { intros issue w1 S1 Hcalm. apply wp_ret, Herr; [done | done | done |]. intros Hc i n disk [Hi Hn Hp].
    by rewrite (Hcalm Hc i n Hi Hn) in Hp. }
  intros i n sched issue w1 S1 Hi Hn Hp Hb. cbn [in_fd].
  assert (Hfail : forall st w', same w w' -> st <> PV_OK -> st <> PV_ERR_DURABILITY ->
    (calm w -> forall disk, ~ disk_of (w_fs w) d name i n disk) -> Q (st, disk_zero) w').
  { intros st w' Sw Hst Hst' Hcalm. apply Herr; [done | done | done |]. intros Hc j m disk D. pose proof D as [Hj Hm _ _ _ _ _ _ _].
    assert (j = i) as -> by congruence. assert (m = n) as -> by congruence. by apply (Hcalm Hc disk). }
  pose proof (read_disk_header_spec i n sched) as Hh. destruct (read_disk_header _ _) as [[[st1 hb] header] fd]. destruct Hh as (D1 & U1 & B1).
  destruct (is_ok st1) eqn:E1; cbn [negb].
  2: { apply wp_bind, wp_close. intros c w2 S2 _. apply wp_ret, Hfail; [by etrans | by intros -> | done |].
       intros Hc disk D. destruct (B1 (Hb Hc) _ _ (disk_of_header _ _ _ _ _ _ D)) as [-> _]. done. }
  apply is_ok_iff in E1 as ->. destruct (D1 eq_refl) as [Hhead Hfd].
  apply wp_bind, wp_lift; [auto with pv |]. intros allocated w2 S2 Hal. assert (S12 : same w w2) by by etrans. destruct allocated; cbn [negb].
  2: { apply wp_bind, wp_close. intros c w3 S3 _. apply wp_ret, Hfail; [by etrans | done | done |]. intros Hc.
       assert (calm w1) as Hc1 by eauto with calm. destruct (calm_sys _ Hc1) as [Hs _].
       unfold sodium_malloc in Hal. injection Hal as Hal _. destruct (Hs 0%nat). congruence. }
  pose proof (read_disk_body_spec _ _ _ fd Hhead Hfd) as Hbody. destruct (read_disk_body header fd) as [st3 ct]. destruct Hbody as (D3 & U3 & B3).
  apply wp_bind, wp_close. intros closed w3 S3 Hclosed. assert (S13 : same w w3) by by etrans.
  set (st4 := if negb closed && is_ok st3 then PV_ERR_IO else st3).
  assert (H4 : st4 = PV_OK -> st3 = PV_OK) by (unfold st4; by split_if). assert (st4 <> PV_ERR_DURABILITY) by (unfold st4; by split_if).
  destruct (is_ok st4) eqn:E4; cbn [negb].
  2: { apply wp_ret, Hfail; [done | by intros E; rewrite E in E4 | done |]. intros Hc disk D. unfold st4 in E4.
       destruct (B1 (Hb Hc) _ _ (disk_of_header _ _ _ _ _ _ D)) as [_ Hs]. rewrite (B3 Hs) in E4.
       rewrite (Hclosed (calm_same _ _ S12 Hc)) in E4. done. }
  apply is_ok_iff in E4. rewrite (D3 (H4 E4)) in *. destruct Hhead as (-> & Hl & Edec & Hz). unfold hash_disk_file.
  assert (Hdata : i_data n = zsub (i_data n) 0 PV_FILE_HEADER_LEN ++ body_of (i_data n)) by (unfold body_of; by rewrite zsub_0, take_drop).
  destruct (crypto_generichash _) as [hash |] eqn:Eh; apply wp_ret; cbn [is_ok].
  - eapply Hok; [done |]. split; cbn [disk_snapshot_stat disk_header_bytes disk_ciphertext disk_header disk_hash]; try done;
      [| by rewrite <- Hdata in Eh].
    pose proof (header_decode_body_len _ _ Edec). unfold body_of, zlen in *. rewrite length_drop. change PV_FILE_HEADER_LEN with 252 in *. lia.
  - apply Hfail; [done | done | done |]. intros Hc disk [_ _ _ _ _ _ _ _ D9]. rewrite <- Hdata in Eh. congruence.
Qed.

(** ** Directories and locations *)

(** A directory of the user that others may not write. *)
Definition good_directory (f : fs) (d : Z) : Prop :=
  exists n, f_inodes f !! d = Some n /\ S_ISDIR (i_mode n) = true /\ i_uid n = geteuid /\ foreign_write_bits (i_mode n) = 0.

(** The path leads, in a calm world, to the name in a good directory. *)
Definition leads_to (w : world) (path : list Z) (d : Z) (name : list Z) : Prop :=
  exists parent, split_parent_and_name path = (PV_OK, parent, name) /\ resolve w parent = Some d /\ good_directory (w_fs w) d.

Definition location_at (d : Z) (name : list Z) : pv_store_location := mk_location d name device d.

Lemma leads_to_same w w' path d name : same w w' -> calm w -> leads_to w path d name -> leads_to w' path d name.
Proof.
  intros [Hf _ _ Hc] Hcalm (parent & E & Hr & Hg). exists parent. rewrite Hf. destruct (Hc Hcalm) as [_ Hp]. by rewrite Hp.
Qed.

Lemma split_status path parent name : split_parent_and_name path = (PV_ERR_DURABILITY, parent, name) -> False.
Proof.
  unfold split_parent_and_name. split_if; [done |]. destruct (strrchr_slash path) as [slash |].
  - destruct (slash =? 0); [| destruct (PATH_MAX <=? slash)]; cbn [is_ok negb]; try done; by split_if.
  - cbn [is_ok negb]. by split_if.
Qed.

Lemma wp_open_private_parent path w (Q : pv_status * option Z * list Z * pv_private_snapshot_issue -> world -> Prop) :
  (forall st name issue w', same w w' -> st <> PV_OK -> st <> PV_ERR_DURABILITY -> (calm w -> forall d name, ~ leads_to w path d name) ->
     Q (st, None, name, issue) w') ->
  (forall parent name d issue w', same w w' -> split_parent_and_name path = (PV_OK, parent, name) -> good_directory (w_fs w) d ->
     resolve w parent = Some d -> Q (PV_OK, Some d, name, issue) w') ->
  wp J (open_private_parent path) Q w.
Proof.
  intros Herr Hok. unfold open_private_parent. destruct (split_parent_and_name path) as [[st parent] name] eqn:E.
  destruct (is_ok st) eqn:Est; cbn [negb].
  2: { apply wp_ret, Herr; [done | by intros -> | intros ->; by apply split_status in E |]. intros _ d name' (p' & E' & _).
       rewrite E in E'. by simplify_eq. }
  apply is_ok_iff in Est as ->. apply wp_bind, wp_open_directory. intros r w1 S1 Hr Hr'. destruct r as [d |].
  2: { apply wp_ret, Herr; [done | done | done |]. intros Hc d name' (p' & E' & Hd & _). rewrite E in E'. simplify_eq. specialize (Hr Hc). congruence. }
  specialize (Hr' d eq_refl).
  apply wp_bind, wp_fstat. rewrite (same_fs _ _ S1). intros st w2 S2 Hst Hcalm. remember (match st with None => true | Some _ => _ end) as bad eqn:Hbad.
  assert (Hgood : bad = false -> good_directory (w_fs w) d).
  { rewrite Hbad. destruct st as [st |]; [| done]. destruct (Hst st eq_refl) as (n & Hn & ->). cbn [stat_of st_mode st_uid].
    rewrite !orb_false_iff, !negb_false_iff, !Z.eqb_eq. intros [[? ?] ?]. exists n. by split_and!. }
  destruct bad.
  - apply wp_bind, wp_close. intros c w3 S3 _. apply wp_ret, Herr; [etrans; [done |]; by etrans | done | done |].
    intros Hc d' name' (p' & E' & Hd & Hg). rewrite E in E'. simplify_eq.
    assert (calm w1) as Hc1 by eauto with calm. rewrite (Hcalm Hc1) in Hbad. destruct Hg as (n & Hn & Hd1 & Hd2 & Hd3).
    rewrite Hn in Hbad. cbn [fmap option_fmap option_map stat_of st_mode st_uid] in Hbad. rewrite Hd1, Hd2, Hd3, !Z.eqb_refl in Hbad. done.
  - apply wp_ret. eapply Hok; [by etrans | done | auto | done].
Qed.

Lemma wp_open_store_location path w (Q : pv_status * option pv_store_location -> world -> Prop) :
  (forall st w', same w w' -> st <> PV_OK -> st <> PV_ERR_DURABILITY -> (calm w -> forall d name, ~ leads_to w path d name) -> Q (st, None) w') ->
  (forall parent name d w', same w w' -> split_parent_and_name path = (PV_OK, parent, name) -> good_directory (w_fs w) d ->
     resolve w parent = Some d -> Q (PV_OK, Some (location_at d name)) w') ->
  wp J (open_store_location path) Q w.
Proof.
  intros Herr Hok. unfold open_store_location. apply wp_bind, wp_open_private_parent.
  { intros st name issue w1 S1 Hst Hst' Hcalm. apply wp_ret. by apply Herr. }
  intros parent name d issue w1 S1 E Hg Hr. apply wp_bind, wp_fstat. rewrite (same_fs _ _ S1). intros st w2 S2 Hst Hcalm.
  destruct st as [st |].
  - destruct (Hst st eq_refl) as (n & Hn & ->). apply wp_ret. cbn [stat_of st_dev st_ino]. eapply Hok; [by etrans | done | done | done].
  - apply wp_bind, wp_close. intros c w3 S3 _. apply wp_ret, Herr; [etrans; [done |]; by etrans | done | done |]. intros Hc.
    assert (calm w1) as Hc1 by eauto with calm. specialize (Hcalm Hc1). destruct Hg as (n & Hn & _). by rewrite Hn in Hcalm.
Qed.

Lemma wp_revalidate path d name w (Q : pv_status -> world -> Prop) :
  (forall st w', same w w' -> (calm w -> leads_to w path d name -> st = PV_OK) -> Q st w') ->
  wp J (revalidate_store_location path (location_at d name)) Q w.
Proof.
  intros HQ. unfold revalidate_store_location. apply wp_bind, wp_open_store_location.
  { intros st w1 S1 Hst _ Hcalm. apply wp_ret, HQ; [done |]. intros Hc Hl. by destruct (Hcalm Hc d name). }
  intros parent name' d' w1 S1 E Hg Hr. apply wp_bind. unfold close_store_location. apply wp_bind, wp_close. intros c w2 S2 _. apply wp_ret, wp_ret.
  apply HQ; [by etrans |]. intros Hc (p & E' & Hd & _). rewrite E in E'. simplify_eq.
  cbn [location_at location_device location_inode location_name]. by rewrite !Z.eqb_refl, bytes_eqb_refl.
Qed.

Lemma wp_read_disk_file path w (Q : pv_status * pv_disk_file -> world -> Prop) :
  (forall st w', same w w' -> st <> PV_OK -> st <> PV_ERR_DURABILITY ->
     (calm w -> forall d name i n disk, leads_to w path d name -> ~ disk_of (w_fs w) d name i n disk) -> Q (st, disk_zero) w') ->
  (forall parent d name i n disk w', same w w' -> split_parent_and_name path = (PV_OK, parent, name) ->
     resolve w parent = Some d -> disk_of (w_fs w) d name i n disk -> Q (PV_OK, disk) w') ->
  wp J (read_disk_file path) Q w.
Proof.
  intros Herr Hok. unfold read_disk_file. apply wp_bind, wp_open_store_location.
  { intros st w1 S1 Hst Hst' Hcalm. apply wp_ret, Herr; [done | done | done |]. intros Hc d name i n disk Hl. by destruct (Hcalm Hc d name). }
  intros parent name d w1 S1 E Hg Hr. cbn [location_at directory_fd location_name].
  assert (Hsame : calm w -> forall d' name', leads_to w path d' name' -> d' = d /\ name' = name).
  { intros Hc d' name' (p & E' & Hd & _). rewrite E in E'. by simplify_eq. }
  apply wp_bind, wp_read_disk_file_at; rewrite (same_fs _ _ S1).
  - intros st w2 S2 Hst Hst' Hcalm. assert (is_ok st = false) as -> by (destruct (is_ok st) eqn:Es; [by apply is_ok_iff in Es | done]).
    apply wp_bind, wp_ret. unfold close_store_location. apply wp_bind, wp_bind, wp_close. intros c w3 S3 _. apply wp_ret, wp_ret. cbn [is_ok negb].
    apply Herr; [etrans; [done |]; by etrans | done | done |]. intros Hc d' name' i n disk Hl. destruct (Hsame Hc _ _ Hl) as [-> ->].
    apply Hcalm. eauto with calm.
  - intros i n disk w2 S2 D. cbn [is_ok]. apply wp_bind, wp_revalidate. intros valid w3 S3 Hvalid.
    unfold close_store_location. apply wp_bind, wp_bind, wp_close. intros c w4 S4 _. apply wp_ret, wp_ret.
    assert (Sall : same w w4) by (etrans; [done |]; etrans; [done |]; by etrans).
    destruct (is_ok valid) eqn:Ev; cbn [negb]; [eapply Hok; eauto |].
    apply Herr; [done | done | done |]. intros Hc d' name' i' n' disk' Hl D'. destruct (Hsame Hc _ _ Hl) as [-> ->].
    rewrite Hvalid in Ev; [done | eauto with calm |]. eapply leads_to_same; [exact S2 | eauto with calm |]. by eapply leads_to_same.
Qed.

Lemma quiet_private_parent path : quiet (open_private_parent path).
Proof. unfold open_private_parent. solve_quiet. Qed.

End reads.

#[export] Hint Resolve quiet_private_parent : pv.
