(* ===== verification/StoreSave.v ===== *)
(** * Facts about saving

    The steps of [save_locked]: the directory of the backups, the backup of the
    current file, the atomic replacement, reading back and pruning. *)

From stdpp Require Import gmap.
From S2P Require Import Prelude Status Util Sys Arena Model Cbor Crypto CryptoFacts Posix Config Secure Fs FsFacts Store StoreOps StoreFacts StoreReads.

(** ** Computations on the platform *)

Lemma tame_set_readonly a : tame (pv_arena_set_readonly a).
Proof. unfold pv_arena_set_readonly. solve_tame. Qed.

Lemma tame_set_readwrite a : tame (pv_arena_set_readwrite a).
Proof. unfold pv_arena_set_readwrite. solve_tame. Qed.

#[export] Hint Resolve tame_set_readonly tame_set_readwrite : pv.

Lemma tame_arena_destroy a : tame (pv_arena_destroy a).
Proof. unfold pv_arena_destroy, pv_arena_reset. solve_tame. Qed.

#[export] Hint Resolve tame_arena_destroy : pv.

Lemma tame_arena_init a n : tame (pv_arena_init a n).
Proof. unfold pv_arena_init. solve_tame. Qed.

Lemma tame_model_destroy v : tame (pv_model_destroy v).
Proof. unfold pv_model_destroy. solve_tame. Qed.

#[export] Hint Resolve tame_arena_init tame_model_destroy : pv.

Lemma tame_model_init v path : tame (pv_model_init v path).
Proof. unfold pv_model_init. solve_tame. Qed.

Lemma tame_cbor_encode v : tame (pv_cbor_encode v).
Proof. unfold pv_cbor_encode. solve_tame. Qed.

Lemma tame_random_id fuel vault : tame (random_id fuel vault).
Proof. induction fuel; cbn [random_id]; solve_tame. Qed.

#[export] Hint Resolve tame_model_init tame_cbor_encode tame_random_id : pv.

Lemma tame_add_record fuel vault source : tame (pv_model_add_record fuel vault source).
Proof. unfold pv_model_add_record. cbv zeta. solve_tame. Qed.

#[export] Hint Resolve tame_add_record : pv.

Lemma tame_decode_records fuel count reader vault : tame (decode_records fuel count reader vault).
Proof.
  revert reader vault. induction count as [| count IH]; intros reader vault; cbn [decode_records]; [solve_tame |].
  unfold decode_record. solve_tame.
Qed.

#[export] Hint Resolve tame_decode_records : pv.

Section tame.
Context `{Sodium} `{Libcbor}.

Lemma tame_key_alloc : tame secure_key_alloc.
Proof. unfold secure_key_alloc. solve_tame. Qed.

Lemma tame_encrypt h vmk p : tame (pv_crypto_encrypt_body h vmk p).
Proof. unfold pv_crypto_encrypt_body. cbv zeta. pose proof tame_key_alloc. solve_tame. Qed.

Lemma tame_decrypt h vmk c : tame (pv_crypto_decrypt_body h vmk c).
Proof. unfold pv_crypto_decrypt_body. cbv zeta. pose proof tame_key_alloc. solve_tame. Qed.

Lemma tame_unlock_credential h c r : tame (unlock_credential h c r).
Proof.
  unfold unlock_credential, pv_crypto_unlock_recovery, pv_crypto_unlock_password. cbv zeta. pose proof tame_key_alloc. solve_tame.
Qed.

Lemma tame_cbor_decode fuel input vault : tame (pv_cbor_decode fuel input vault).
Proof. unfold pv_cbor_decode, read_or_return, decode_body. cbv zeta. solve_tame. Qed.

Lemma tame_store_decode input vault : tame (store_cbor_decode input vault).
Proof. unfold store_cbor_decode. pose proof tame_cbor_decode. solve_tame. Qed.

Lemma tame_seal v h : tame (seal_vault v h).
Proof. unfold seal_vault. pose proof tame_encrypt. solve_tame. Qed.

Lemma tame_grow c n : tame (grow_candidates c n).
Proof. unfold grow_candidates. cbv zeta. solve_tame. Qed.

End tame.

#[export] Hint Resolve tame_encrypt tame_decrypt tame_unlock_credential tame_store_decode tame_seal tame_grow : pv.

(** ** Agreement *)

(** Two file systems agree outside of some names and some inodes. *)
Record agree (X : Z -> list Z -> Prop) (Y : Z -> Prop) (f g : fs) : Prop := mk_agree {
  agree_entry d name : ~ X d name -> entry g d name = entry f d name;
  agree_inode i : ~ Y i -> f_inodes g !! i = f_inodes f !! i
}.

Lemma agree_refl X Y f : agree X Y f f.
Proof. by split. Qed.

Lemma agree_trans X Y f g h : agree X Y f g -> agree X Y g h -> agree X Y f h.
Proof.
  intros [E I] [E' I']. split.
  - intros d name HX. by rewrite E', E.
  - intros i HY. by rewrite I', I.
Qed.

Lemma agree_weaken (X X' : Z -> list Z -> Prop) (Y Y' : Z -> Prop) f g :
  (forall d name, X d name -> X' d name) -> (forall i, Y i -> Y' i) -> agree X Y f g -> agree X' Y' f g.
Proof. intros HX HY [E I]. split; auto. Qed.

Lemma agree_eq X Y f g : g = f -> agree X Y f g.
Proof. by intros ->. Qed.

(** ** Directories *)

(** The file system with a new directory [i] under [name] in [d]. *)
Definition with_dir (f : fs) (d : Z) (name : list Z) (i : Z) (n : inode) : fs :=
  let g := with_file f d name i n in mk_fs (f_inodes g) (<[i := ∅]> (f_dirs g)) (f_durable g).

Definition created_dir `{Host} : inode := mk_inode (Z.lor 16384 (Z.land 448 (Z.lnot umask))) geteuid 2 [] false.

Lemma with_dir_entry f d name i n d' name' :
  entry (with_dir f d name i n) d' name' = if decide (d' = i) then None else entry (with_file f d name i n) d' name'.
Proof.
  unfold with_dir, entry, entries. cbn [f_dirs]. destruct (decide (d' = i)) as [-> |].
  - by rewrite lookup_insert_eq.
  - by rewrite lookup_insert_ne.
Qed.

(** No directory has this number. *)
Definition no_dir (f : fs) (i : Z) : Prop := forall name, entry f i name = None.

Lemma no_dir_next f next : fs_ok f next -> no_dir f next.
Proof.
  intros [_ He _] name. destruct (entry f next name) as [i |] eqn:E; [| done]. apply He in E. lia.
Qed.

Lemma with_dir_extends f d name i n : unused f d name i -> no_dir f i -> extends none f (with_dir f d name i n).
Proof.
  intros Hu Hd. destruct (with_file_extends f d name i n Hu) as [H1 H2 H3]. split; [| done | done].
  intros d' name' j E _. rewrite with_dir_entry. destruct (decide (d' = i)) as [-> |]; [by rewrite Hd in E | auto with pv].
Qed.

Lemma with_dir_agree f d name i n : no_dir f i -> agree (only d name) (eq i) f (with_dir f d name i n).
Proof.
  intros Hd. split.
  - intros d' name' HX. rewrite with_dir_entry, with_file_entry. destruct (decide (d' = i)) as [-> |]; [by rewrite Hd |].
    by rewrite decide_False.
  - intros j Hj. apply with_file_other. intros ->. by apply Hj.
Qed.

Lemma with_dir_ok f next d name n : fs_ok f next -> unused f d name next -> fs_ok (with_dir f d name next n) (next + 1).
Proof.
  intros Hok Hu. destruct (with_file_ok f next d name next n Hok Hu ltac:(lia)) as [H1 H2 H3]. split; [done | | done].
  intros d' name' j E. rewrite with_dir_entry in E. destruct (decide _); [done |]. by apply H2 in E.
Qed.

(** A change of an inode that keeps its contents. *)
Lemma set_inode_extends f i n n' X :
  f_inodes f !! i = Some n -> i_data n' = i_data n -> i_safe n' = i_safe n -> extends X f (set_inode f i n').
Proof.
  intros E Hd Hs. split; [done | | by left]. intros j c Hc. rewrite content_set_inode. destruct (decide (j = i)) as [-> |]; [| done].
  unfold content in Hc. rewrite E in Hc. cbn in Hc. by rewrite Hd, Hs.
Qed.

Lemma set_inode_agree f i n' : agree none (eq i) f (set_inode f i n').
Proof. split; [done |]. intros j Hj. rewrite inode_set_inode, decide_False; [done |]. intros ->. by apply Hj. Qed.

Lemma set_inode_ok f next i n n' : f_inodes f !! i = Some n -> fs_ok f next -> fs_ok (set_inode f i n') next.
Proof.
  intros E [H1 H2 H3]. split; [| done | done]. intros j m Hj. rewrite inode_set_inode in Hj.
  destruct (decide (j = i)) as [-> |]; [by eapply H1 | by eapply H1].
Qed.

Lemma dir_synced_agree X Y f g d : agree X Y f g -> agree X Y f (dir_synced g d).
Proof. intros [E I]. by split. Qed.

(** The world after a step that adds to the file system: well formed, with
    nothing lost, and unchanged outside of [X] and [Y]. *)
Record adds (X : Z -> list Z -> Prop) (Y : Z -> Prop) (w w' : world) : Prop := mk_adds {
  adds_ok : world_ok w';
  adds_next : w_next w <= w_next w';
  adds_extends : extends none (w_fs w) (w_fs w');
  adds_agree : agree X Y (w_fs w) (w_fs w')
}.

Lemma adds_same X Y w w' : world_ok w -> same w w' -> adds X Y w w'.
Proof.
  intros Hok S. split; [by eapply world_ok_same | rewrite (same_next _ _ S); lia | |]; rewrite (same_fs _ _ S); [done | apply agree_refl].
Qed.

Lemma adds_trans X Y w1 w2 w3 : adds X Y w1 w2 -> adds X Y w2 w3 -> adds X Y w1 w3.
Proof. intros [A1 A2 A3 A4] [B1 B2 B3 B4]. split; [done | lia | by etrans | by eapply agree_trans]. Qed.

Lemma adds_then_same X Y w1 w2 w3 : adds X Y w1 w2 -> same w2 w3 -> adds X Y w1 w3.
Proof. intros A S. eapply adds_trans; [done |]. apply adds_same; [apply A | done]. Qed.

Section directories.
Context `{Host}.

Lemma wp_mkdirat (J : fs -> Prop) d name w (Q : option errno -> world -> Prop) :
  (entry (w_fs w) d name = None -> J (with_dir (w_fs w) d name (w_next w) created_dir)) ->
  (forall e w', same w w' -> (calm w -> e = EEXIST /\ is_Some (entry (w_fs w) d name)) -> Q (Some e) w') ->
  (forall w', entry (w_fs w) d name = None -> w_fs w' = with_dir (w_fs w) d name (w_next w) created_dir ->
     w_next w' = w_next w + 1 -> calmly w w' -> Q None w') ->
  wp J (mkdirat d name) Q w.
Proof.
  intros HJ Herr Hok. apply wp_bind, wp_call. intros e w1 S1 He. apply wp_bind, wp_get_fs. rewrite (same_fs _ _ S1).
  destruct e as [e |]; [apply wp_ret, Herr; [done | intros Hc; by specialize (He Hc)] |].
  destruct (entry (w_fs w) d name) as [j |] eqn:E; [apply wp_ret, Herr; eauto |].
  apply wp_bind, wp_new_inode. intros w2 F2 N2 C2. rewrite (same_next _ _ S1). apply wp_bind, wp_put_fs; [by apply HJ |].
  intros w3 F3 N3 _ C3. apply wp_ret, Hok; [done | done | rewrite N3, N2, (same_next _ _ S1); lia |].
  etrans; [apply S1 |]. by etrans.
Qed.

(** The checks on the opened directory; [fchmod] changes its mode. *)
Lemma wp_private_directory_ok (J : fs -> Prop) b w (Q : bool -> world -> Prop) :
  (forall n, f_inodes (w_fs w) !! b = Some n -> J (set_inode (w_fs w) b (moded n 448))) ->
  (forall ok w', same w w' \/ (exists n, f_inodes (w_fs w) !! b = Some n /\ w_fs w' = set_inode (w_fs w) b (moded n 448) /\ w_next w' = w_next w) ->
     calmly w w' ->
     (calm w -> forall n, f_inodes (w_fs w) !! b = Some n -> S_ISDIR (i_mode n) = true -> i_uid n = geteuid ->
        ok = true /\ w_fs w' = set_inode (w_fs w) b (moded n 448)) -> Q ok w') ->
  wp J (private_directory_ok b) Q w.
Proof.
  intros HJ HQ. unfold private_directory_ok. apply wp_bind, wp_fstat. intros st w1 S1 Hst Hcalm. destruct st as [st |].
  2: { apply wp_ret, HQ; [by left | apply S1 |]. intros Hc n Hn. specialize (Hcalm Hc). by rewrite Hn in Hcalm. }
  destruct (Hst st eq_refl) as (n & Hn & ->). cbn [stat_of st_mode st_uid].
  destruct (negb (S_ISDIR (i_mode n)) || negb (i_uid n =? geteuid)) eqn:Ebad.
  { apply wp_ret, HQ; [by left | apply S1 |]. intros Hc n' Hn' Hdir Huid. simplify_eq. rewrite Hdir, Huid, Z.eqb_refl in Ebad. done. }
  apply wp_bind. unfold fchmod. apply wp_bind, wp_call. intros e w2 S2 He. apply wp_bind, wp_get_fs.
  rewrite (same_fs _ _ S2), (same_fs _ _ S1), Hn. assert (S12 : same w w2) by by etrans. destruct e as [e |].
  { apply wp_ret. cbn [negb]. apply wp_ret, HQ; [by left | apply S12 |]. intros Hc.
    assert (calm w1) as Hc1 by eauto with calm. by specialize (He Hc1). }
  apply wp_bind, wp_put_fs; [by apply HJ |]. intros w3 F3 N3 _ C3. apply wp_ret. cbn [negb]. fold (moded n 448) in *.
  apply wp_bind, wp_fstat. rewrite F3, inode_set_inode, decide_True by done. intros st w4 S4 Hst4 Hcalm4. apply wp_ret, HQ.
  - right. exists n. split_and!; [done | by rewrite (same_fs _ _ S4) | by rewrite (same_next _ _ S4), N3, (same_next _ _ S12)].
  - etrans; [apply S12 |]. etrans; [done | apply S4].
  - intros Hc n' Hn' Hdir Huid. simplify_eq. split; [| by rewrite (same_fs _ _ S4)]. rewrite Hcalm4 by eauto with calm.
    cbn [fmap option_fmap option_map stat_of st_mode moded i_mode]. unfold access_bits. rewrite Z.land_lor_distr_l, <- Z.land_assoc.
    by rewrite Z.land_0_r.
Qed.

(** Enough to get the directory in a calm world: there is none, or it is the
    user's. *)
Definition dir_available (f : fs) (d : Z) (name : list Z) : Prop :=
  forall i, entry f d name = Some i -> exists n, f_inodes f !! i = Some n /\ S_ISDIR (i_mode n) = true /\ i_uid n = geteuid.

(** The inodes that making the directory touches. *)
Definition dir_inodes (w : world) (d : Z) (name : list Z) : Z -> Prop := fun i => i = w_next w \/ entry (w_fs w) d name = Some i.

(** The directory that is returned is under the name, and new ones are empty. *)
Definition dir_made (d : Z) (name : list Z) (w : world) (r : pv_status * option Z) (w' : world) : Prop :=
  adds (only d name) (dir_inodes w d name) w w' /\ fst r <> PV_ERR_DURABILITY /\
  match snd r with
  | None => fst r <> PV_OK
  | Some b => fst r = PV_OK /\ entry (w_fs w') d name = Some b /\ b < w_next w' /\
      (entry (w_fs w) d name = Some b \/ b = w_next w /\ no_dir (w_fs w) b)
  end /\
  (calm w -> dir_available (w_fs w) d name -> fst r = PV_OK).

Lemma set_inode_adds X (Y : Z -> Prop) b n n' w w' :
  world_ok w -> Y b -> f_inodes (w_fs w) !! b = Some n -> i_data n' = i_data n -> i_safe n' = i_safe n ->
  w_fs w' = set_inode (w_fs w) b n' -> w_next w' = w_next w -> adds X Y w w'.
Proof.
  intros Hok Hb Hn Hd Hs Hf Hx. split; [unfold world_ok; rewrite Hf, Hx; by eapply set_inode_ok | lia | |]; rewrite Hf.
  - by eapply set_inode_extends.
  - eapply agree_weaken; [| | apply set_inode_agree]; [by intros ? ? [] | by intros ? <-].
Qed.

Lemma dir_synced_adds X Y d w w' : world_ok w -> w_fs w' = dir_synced (w_fs w) d -> w_next w' = w_next w -> adds X Y w w'.
Proof.
  intros Hok Hf Hx. split; [unfold world_ok; rewrite Hf, Hx; by apply dir_synced_ok | lia | |]; rewrite Hf.
  - by apply dir_synced_extends.
  - apply dir_synced_agree, agree_refl.
Qed.

(** Opening the directory that is there now, checking it and syncing its parent. *)
Lemma wp_enter_directory d name (created : bool) w0 w :
  world_ok w0 -> adds (only d name) (dir_inodes w0 d name) w0 w -> calmly w0 w ->
  (forall b, entry (w_fs w) d name = Some b -> entry (w_fs w0) d name = Some b \/ b = w_next w0 /\ no_dir (w_fs w0) b) ->
  (calm w0 -> dir_available (w_fs w0) d name -> exists b n, entry (w_fs w) d name = Some b /\ f_inodes (w_fs w) !! b = Some n /\
     S_ISDIR (i_mode n) = true /\ i_uid n = geteuid) ->
  wp (extends none (w_fs w0))
    (fd ← openat_directory d name;
     match fd with
     | None => mret (PV_ERR_IO, None)
     | Some b =>
         ok ← private_directory_ok b;
         if negb ok then _ ← close; mret (PV_ERR_IO, None) else
         synced ← (if created then fsync_directory d else mret true);
         if negb synced then _ ← close; mret (PV_ERR_IO, None) else
         mret (PV_OK, Some b)
     end) (dir_made d name w0) w.
Proof.
  intros Hok0 A0 C0 Hentry Havail. apply wp_bind, wp_openat_directory. intros r w1 S1 Hr Hcalm. destruct r as [b |].
  2: { apply wp_ret. split_and!; [by eapply adds_then_same | done | done |]. intros Hc Ha. destruct (Havail Hc Ha) as (b & n & E & Hn & Hd & _).
       assert (calm w) as Hcw by eauto with calm. by specialize (Hcalm Hcw b n E Hn Hd). }
  destruct (Hr b eq_refl) as (nb & Eb & Hnb & _).
  assert (Hb : dir_inodes w0 d name b) by (destruct (Hentry b Eb) as [? | [-> _]]; [by right | by left]).
  apply wp_bind, wp_private_directory_ok; rewrite (same_fs _ _ S1).
  { intros n Hn. etrans; [apply A0 |]. by eapply set_inode_extends. }
  intros ok w2 Hw2 C2 Hcalm2.
  assert (A2 : adds (only d name) (dir_inodes w0 d name) w0 w2 /\ entry (w_fs w2) d name = Some b).
  { destruct Hw2 as [S2 | (n & Hn & F2 & N2)].
    - split; [eapply adds_then_same; [exact A0 |]; by etrans |]. by rewrite (same_fs _ _ S2), (same_fs _ _ S1).
    - split; [| by rewrite F2]. eapply adds_trans; [exact A0 |].
      eapply (set_inode_adds _ _ b n (moded n 448)); [apply A0 | done | done | done | done | done | by rewrite N2, (same_next _ _ S1)]. }
  destruct A2 as [A2 E2].
  assert (Hlive : calm w0 -> dir_available (w_fs w0) d name -> ok = true).
  { intros Hc Ha. destruct (Havail Hc Ha) as (b' & n & E & Hn & Hd & Hu). simplify_eq.
    assert (calm w1) as Hcw by eauto with calm. by eapply (Hcalm2 Hcw). }
  destruct ok; cbn [negb].
  2: { apply wp_bind, wp_close. intros c w3 S3 _. apply wp_ret. split_and!; [by eapply adds_then_same | done | done |].
       intros Hc Ha. by specialize (Hlive Hc Ha). }
  assert (Hdone : forall w3, adds (only d name) (dir_inodes w0 d name) w0 w3 -> entry (w_fs w3) d name = Some b -> dir_made d name w0 (PV_OK, Some b) w3).
  { intros w3 A3 E3. split_and!; [done | done | | done]. split_and!; [done | done | | by apply Hentry]. apply (ok_entry _ _ (adds_ok _ _ _ _ A3)) in E3. lia. }
  destruct created; [| apply wp_bind, wp_ret; cbn [negb]; apply wp_ret; by apply Hdone].
  apply wp_bind. eapply wp_fsync_directory; [reflexivity | apply dir_synced_extends, A2 | |].
  - intros w3 S3 Hnc. cbn [negb]. apply wp_bind, wp_close. intros c w4 S4 _. apply wp_ret.
    split_and!; [eapply adds_then_same; [exact A2 |]; by etrans | done | done |]. intros Hc _. exfalso. apply Hnc. eauto 6 with calm.
  - intros w3 F3 N3 C3. cbn [negb]. apply wp_ret, Hdone; [| by rewrite F3].
    eapply adds_trans; [exact A2 |]. by eapply dir_synced_adds; [apply A2 | |].
Qed.

Lemma wp_make_private_directory_at d name w :
  world_ok w -> d < w_next w -> name <> [] -> find_char name 47 = None ->
  wp (extends none (w_fs w)) (make_private_directory_at d name) (dir_made d name w) w.
Proof.
  intros Hok Hd Hne Hslash. unfold make_private_directory_at. rewrite Hslash. cbn [is_null negb orb].
  destruct name as [| x name']; [done |]. set (name := x :: name') in *.
  replace (zlen name =? 0) with false by (unfold name; rewrite zlen_cons; pose proof (zlen_nonneg name'); lia). cbn [orb].
  apply wp_bind, wp_mkdirat.
  - intros E. apply with_dir_extends; [by apply unused_next | by apply no_dir_next].
  - intros e w1 S1 Hcalm. cbv zeta. destruct (negb (bool_decide (e = EEXIST))) eqn:Ee.
    { apply wp_ret. split_and!; [by apply adds_same | done | done |]. intros Hc _. destruct (Hcalm Hc) as [-> _]. done. }
    apply (wp_enter_directory d name false); [done | by apply adds_same | apply S1 | |].
    + intros b. rewrite (same_fs _ _ S1). by left.
    + intros Hc Ha. destruct (Hcalm Hc) as [_ [b E]]. destruct (Ha b E) as (n & Hn & Hdir & Hu). exists b, n. by rewrite (same_fs _ _ S1).
  - intros w1 E F1 N1 C1. cbv zeta.
    assert (Hu := unused_next w d name Hok E Hd). assert (Hnd := no_dir_next _ _ Hok).
    apply (wp_enter_directory d name true); [done | | done | |].
    + split; [unfold world_ok; rewrite F1, N1; by apply with_dir_ok | lia | rewrite F1; by apply with_dir_extends |].
      rewrite F1. eapply agree_weaken; [| | by apply with_dir_agree]; [done | intros ? <-; by left].
    + intros b. rewrite F1, with_dir_entry, with_file_entry. rewrite decide_False by lia. rewrite decide_True by done. intros [= <-]. by right.
    + intros _ _. exists (w_next w), created_dir. rewrite F1, with_dir_entry, with_file_entry. rewrite decide_False by lia. rewrite decide_True by done.
      split_and!; [done | apply with_file_inode | | done]. unfold created_dir, S_ISDIR. cbn [i_mode].
      rewrite Z.land_lor_distr_l, (Z.land_comm 448), <- Z.land_assoc. by rewrite Z.land_0_r.
Qed.

End directories.

(** ** Backups *)

Lemma renamed_inode_new f d t name i n j :
  unused f d t i -> t <> name -> entry f d name = None -> j <> i -> f_inodes (renamed f d t name i n) !! j = f_inodes f !! j.
Proof. intros Hu Hne Hn Hj. rewrite renamed_eq by done. cbv zeta. rewrite Hn. by apply with_file_other. Qed.

Lemma writing_agree f i d name final s g :
  writing f i d name final true s g -> agree (fun d' _ => d' = d) (eq i) f g.
Proof.
  destruct 1 as [| v n Hu | v n Hu | v Hu Hn | v Hu Hn]; [apply agree_refl | | | | apply dir_synced_agree].
  all: split; [intros d' name' HX | intros j HY; assert (j <> i) by (intros ->; by apply HY)].
  - rewrite with_file_entry, decide_False; [done |]. by intros [].
  - by apply with_file_other.
  - by apply unlinked_entry.
  - by apply unlinked_inode.
  - rewrite renamed_entry, decide_False; auto using temporary_name_ne. by intros [].
  - apply renamed_inode_new; auto using temporary_name_ne.
  - rewrite renamed_entry, decide_False; auto using temporary_name_ne. by intros [].
  - apply renamed_inode_new; auto using temporary_name_ne.
Qed.

Section backups.
Context `{Host} `{Sodium}.

Lemma writing_adds w d name final s w' :
  writing (w_fs w) (w_next w) d name final true s (w_fs w') -> world_ok w' -> w_next w <= w_next w' ->
  adds (fun d' _ => d' = d) (fun i => w_next w <= i) w w'.
Proof.
  intros W Hok Hx. split; [done | done | by eapply writing_extends_excl |].
  eapply agree_weaken; [| | by eapply writing_agree]; [done | intros ? <-; lia].
Qed.

Lemma write_spec_adds w d name final durability st w' :
  write_spec (w_fs w) (w_next w) d name final true durability w st w' ->
  adds (fun d' _ => d' = d) (fun i => w_next w <= i) w w'.
Proof.
  intros (Hx & Hok & Hout & _). assert (exists s, writing (w_fs w) (w_next w) d name final true s (w_fs w')) as [s W].
  { destruct Hout as [(_ & W & _) | [(_ & W & _) | (_ & _ & W)]]; eauto. }
  eapply writing_adds; [exact W | done | lia].
Qed.

(** A file with this hash, whose name is on the disk, and so are its contents
    unless the name was that of this file in [f0] already. *)
Definition has_copy (f0 f : fs) (b : Z) (name hash : list Z) : Prop :=
  exists j bytes safe, entry f b name = Some j /\ durable_entry f b name = Some j /\ content f j = Some (bytes, safe) /\
    crypto_generichash bytes = Some hash /\ (safe = true \/ entry f0 b name = Some j).

Lemma has_copy_extends X f0 f g b name hash : extends X f g -> ~ X b name -> has_copy f0 f b name hash -> has_copy f0 g b name hash.
Proof.
  intros Hx HX (j & bytes & safe & E & D & C & Hh & Hs). exists j, bytes, safe. split_and!; [by eapply ext_entry | | by eapply ext_content | done | done].
  destruct (ext_durable _ _ _ Hx _ _ _ E HX) as [-> | ->]; done.
Qed.

(** Against an earlier file system in which the name was the same file. *)
Lemma has_copy_before f0 f1 f b name hash : entry f1 b name = entry f0 b name -> has_copy f1 f b name hash -> has_copy f0 f b name hash.
Proof. intros He (j & bytes & safe & E & D & C & Hh & Hs). exists j, bytes, safe. rewrite He in Hs. by split_and!. Qed.

Lemma wp_existing_backup d name vault snapshot w :
  world_ok w ->
  wp (extends none (w_fs w)) (existing_backup d name vault snapshot)
    (fun st w' => adds none (fun _ => False) w w' /\ st <> PV_ERR_DURABILITY /\
       (st = PV_OK -> has_copy (w_fs w) (w_fs w') d name (disk_hash snapshot))) w.
Proof.
  intros Hok. unfold existing_backup. apply wp_bind, wp_read_disk_file_at.
  - intros st w1 S1 Hst Hst' _. assert (is_ok st = false) as -> by (destruct (is_ok st) eqn:Es; [by apply is_ok_iff in Es | done]).
    cbn [andb]. split_if; apply wp_ret; (split_and!; [by apply adds_same | done | done]).
  - intros i n disk w1 S1 D. destruct (is_ok PV_OK && _) eqn:Esame; [apply wp_ret; split_and!; [by apply adds_same | done | done] |].
    cbn [is_ok andb] in Esame. rewrite orb_false_iff, !negb_false_iff in Esame. destruct Esame as [_ Ehash%bytes_eqb_eq].
    cbn [is_ok orb bool_decide decide decide_rel]. rewrite !bool_decide_false by done. cbn [orb]. apply wp_bind. eapply wp_fsync_directory; [reflexivity | | |].
    + rewrite (same_fs _ _ S1). by apply dir_synced_extends.
    + intros w2 S2 _. apply wp_ret. split_and!; [apply adds_same; [done | by etrans] | done | done].
    + intros w2 F2 N2 _. apply wp_ret. rewrite (same_fs _ _ S1) in F2. split_and!; [| done |].
      * eapply dir_synced_adds; [done | done | by rewrite N2, (same_next _ _ S1)].
      * intros _. destruct D as [D1 D2 D3 _ _ _ _ _ D9]. exists i, (i_data n), (i_safe n). rewrite F2, dir_synced_durable, decide_True, <- Ehash by done.
        split_and!; [done | done | unfold content; cbn; by rewrite D2 | done | by right].
Qed.

(** What the backup touches: the directory and what is in it. *)
Definition backup_names (w' : world) (d : Z) : Z -> list Z -> Prop := fun d' name' =>
  only d (cstr "backups") d' name' \/ entry (w_fs w') d (cstr "backups") = Some d'.
Definition backup_inodes (w : world) (d : Z) : Z -> Prop := fun i => w_next w <= i \/ entry (w_fs w) d (cstr "backups") = Some i.

(** Enough for the backup to be made in a calm world. *)
Definition can_backup (f : fs) (d : Z) (vault_id : list Z) (generation : Z) : Prop :=
  dir_available f d (cstr "backups") /\ inode_private created_inode = true /\
  exists name, format_automatic_backup_name vault_id generation = (PV_OK, name) /\
    forall b, entry f d (cstr "backups") = Some b -> entry f b name = None /\ temporaries_free f b name.

Definition backup_made (location : pv_store_location) (vault_id : list Z) (generation : Z) (snapshot : pv_disk_file) (w : world) (r : pv_status * option Z) (w' : world) : Prop :=
  let d := directory_fd location in
  adds (backup_names w' d) (backup_inodes w d) w w' /\ fst r <> PV_ERR_DURABILITY /\
  (forall b, snd r = Some b -> entry (w_fs w') d (cstr "backups") = Some b /\ b < w_next w') /\
  (fst r = PV_OK -> is_Some (snd r)) /\
  (calm w -> can_backup (w_fs w) d vault_id generation -> fst r = PV_OK) /\
  (fst r = PV_OK -> crypto_generichash (disk_header_bytes snapshot ++ disk_ciphertext snapshot) = Some (disk_hash snapshot) ->
   forall b name, snd r = Some b -> format_automatic_backup_name vault_id generation = (PV_OK, name) ->
     has_copy (w_fs w) (w_fs w') b name (disk_hash snapshot)).

(** A snapshot is private whatever the [umask]. *)
Lemma snapshot_private header ciphertext mode : mode = 256 \/ mode = 384 -> inode_private (snapshot_inode header ciphertext mode) = true.
Proof.
  intros Hmode. unfold inode_private, private_snapshot_stat_issue, snapshot_inode. cbn [stat_of st_mode st_uid st_nlink moded synced refilled created_inode i_mode i_uid i_nlink].
  assert (E : Z.land (Z.lor 32768 (Z.land 384 (Z.lnot umask))) 61440 = 32768).
  { rewrite Z.land_lor_distr_l, (Z.land_comm 384), <- Z.land_assoc. by rewrite Z.land_0_r. }
  rewrite E, !Z.eqb_refl. by destruct Hmode as [-> | ->].
Qed.

Lemma format_ok_length vault_id generation name :
  format_automatic_backup_name vault_id generation = (PV_OK, name) -> zlen name = PV_AUTO_BACKUP_NAME_LEN.
Proof.
  unfold format_automatic_backup_name. do 2 (split_if; [done |]). cbv zeta. set (output := _ ++ _).
  destruct (Z.eqb_spec (zlen output) PV_AUTO_BACKUP_NAME_LEN) as [E |]; [| done]. intros [= <-]. by rewrite <- E, zsub_all.
Qed.

Lemma format_not_durability vault_id generation : fst (format_automatic_backup_name vault_id generation) <> PV_ERR_DURABILITY.
Proof. unfold format_automatic_backup_name. cbv zeta. do 2 (split_if; [done |]). cbn [fst]. by split_if. Qed.

(** In the new directory the backup's name is free. *)
Lemma can_backup_write w d vault_id generation name header ciphertext r w1 b :
  world_ok w -> d < w_next w -> can_backup (w_fs w) d vault_id generation ->
  format_automatic_backup_name vault_id generation = (PV_OK, name) -> dir_made d (cstr "backups") w r w1 -> snd r = Some b ->
  can_write (w_fs w1) b name (snapshot_inode header ciphertext 384) true.
Proof.
  intros Hok Hd (_ & Hpriv & name' & Ef' & Hfree) Ef (A & _ & Hr & _) Eb. rewrite Eb in Hr. destruct Hr as (_ & Hb & _ & Hold). assert (name' = name) as -> by congruence.
  pose proof (format_ok_length _ _ _ Ef) as Hlen.
  assert (b <> d) as Hbd by (apply (ok_entry _ _ (adds_ok _ _ _ _ A)) in Hb; lia).
  assert (Hsame : forall nm, entry (w_fs w1) b nm = entry (w_fs w) b nm) by (intros nm; apply (agree_entry _ _ _ _ (adds_agree _ _ _ _ A)); by intros []).
  assert (Hroom : zlen name + 13 < PATH_MAX) by (rewrite Hlen; by vm_compute).
  split_and!; [| done | by apply snapshot_private; right |].
  - split; [done |]. intros v. rewrite Hsame. destruct Hold as [Hold | [_ Hnd]]; [by apply (Hfree b Hold) | apply Hnd].
  - intros _. rewrite Hsame. destruct Hold as [Hold | [_ Hnd]]; [by apply Hfree | apply Hnd].
Qed.

(** The directory, then something inside it. *)
Lemma backup_adds d b w w1 w2 :
  dir_made d (cstr "backups") w (PV_OK, Some b) w1 -> adds (fun d' _ => d' = b) (fun i => w_next w1 <= i) w1 w2 ->
  adds (backup_names w2 d) (backup_inodes w d) w w2 /\ entry (w_fs w2) d (cstr "backups") = Some b /\ b < w_next w2.
Proof.
  intros (A & _ & (_ & Hb & Hlt & Hold) & _) [B1 B2 B3 B4]. assert (Hb2 : entry (w_fs w2) d (cstr "backups") = Some b) by (eapply ext_entry; eauto with pv).
  split_and!; [| done | lia]. destruct A as [A1 A2 A3 A4]. split; [done | lia | by etrans |]. eapply agree_trans.
  - eapply agree_weaken; [| | exact A4]; [by left | intros i [-> | Hi]; [left; lia | by right]].
  - eapply agree_weaken; [| | exact B4]; [intros d' nm ->; by right | cbn beta; intros i Hi; left; lia].
Qed.

Lemma backup_close location vault_id generation snapshot w w2 st b :
  let d := directory_fd location in
  adds (backup_names w2 d) (backup_inodes w d) w w2 -> entry (w_fs w2) d (cstr "backups") = Some b -> b < w_next w2 ->
  st <> PV_ERR_DURABILITY -> (calm w -> can_backup (w_fs w) d vault_id generation -> st = PV_OK) ->
  (st = PV_OK -> crypto_generichash (disk_header_bytes snapshot ++ disk_ciphertext snapshot) = Some (disk_hash snapshot) ->
   forall name, format_automatic_backup_name vault_id generation = (PV_OK, name) -> has_copy (w_fs w) (w_fs w2) b name (disk_hash snapshot)) ->
  wp (extends none (w_fs w)) (if negb (is_ok st) then _ ← close; mret (st, None) else mret (st, Some b))
    (backup_made location vault_id generation snapshot w) w2.
Proof.
  intros d A Hb Hlt Hst Hcalm Hcopy. destruct (is_ok st) eqn:Est; cbn [negb].
  - apply is_ok_iff in Est as ->. apply wp_ret. split_and!; [done | done | | eauto | done |].
    + intros b' [= <-]. done.
    + intros _ Hh b' nm [= <-] Hf. by apply Hcopy.
  - apply wp_bind, wp_close. intros c w3 S3 _. apply wp_ret.
    assert (Hn : st <> PV_OK) by (intros ->; done). split_and!; [| done | done | done | done | done].
    fold d. assert (E : backup_names w3 d = backup_names w2 d) by (unfold backup_names; by rewrite (same_fs _ _ S3)).
    rewrite E. by eapply adds_then_same.
Qed.

Lemma wp_automatic_backup location vault snapshot generation w :
  world_ok w -> directory_fd location < w_next w -> 0 < zlen (disk_ciphertext snapshot) ->
  wp (extends none (w_fs w)) (automatic_backup location vault snapshot generation)
    (backup_made location (v_vault_id vault) generation snapshot w) w.
Proof.
  intros Hok Hd Hlen. unfold automatic_backup. set (d := directory_fd location) in *.
  eapply wp_then; [by apply wp_make_private_directory_at |]. intros [st r] w1 C1 Hmade. destruct r as [b |].
  2: { apply wp_ret. destruct Hmade as (A & Hst & Hno & Hlive). cbn [fst snd] in *. split_and!; [| done | done | done | |].
       - destruct A as [A1 A2 A3 A4]. split; [done | done | done |]. eapply agree_weaken; [| | exact A4]; [by left | intros i [-> | Hi]; [left; lia | by right]].
       - intros Hc (Ha & _). by destruct (Hno (Hlive Hc Ha)).
       - done. }
  assert (st = PV_OK) as -> by (destruct Hmade as (_ & _ & (E & _) & _); exact E). pose proof Hmade as (A1 & _ & (_ & Hb1 & Hlt1 & _) & _).
  destruct (format_automatic_backup_name (v_vault_id vault) generation) as [st name] eqn:Ef.
  assert (A0 : adds (fun d' _ => d' = b) (fun i => w_next w1 <= i) w1 w1) by (apply adds_same; [apply A1 | done]).
  destruct (is_ok st) eqn:Est; cbn [negb].
  2: { apply wp_ret. destruct (backup_adds _ _ _ _ _ Hmade A0) as (A & Hb & Hlt). split_and!; [exact A | | | eauto | |].
       - pose proof (format_not_durability (v_vault_id vault) generation) as Hnd. by rewrite Ef in Hnd.
       - intros b' [= <-]. done.
       - intros Hc (_ & _ & name' & Ef' & _). rewrite Ef in Ef'. by simplify_eq.
       - cbn [fst]. by intros ->. }
  apply is_ok_iff in Est as ->.
  eapply wp_then.
  { eapply wp_weaken; [apply (wp_write_snapshot_exclusive_at b name (disk_header_bytes snapshot) (disk_ciphertext snapshot) 384 w1);
      [apply A1 | done | done | by right] |].
    intros g [s W]. etrans; [apply A1 |]. by eapply writing_extends_excl. }
  intros st w2 C2 Hspec. pose proof (write_spec_adds _ _ _ _ _ _ _ Hspec) as A2. destruct (backup_adds _ _ _ _ _ Hmade A2) as (A & Hb & Hlt).
  assert (Hlive : calm w -> can_backup (w_fs w) d (v_vault_id vault) generation -> st = PV_OK).
  { intros Hc Hcan. destruct Hspec as (_ & _ & _ & Hspec). apply Hspec; [eauto with calm |]. by eapply can_backup_write. }
  assert (Hcopy : st = PV_OK -> crypto_generichash (disk_header_bytes snapshot ++ disk_ciphertext snapshot) = Some (disk_hash snapshot) ->
    has_copy (w_fs w) (w_fs w2) b name (disk_hash snapshot)).
  { intros -> Hh. destruct Hspec as (_ & _ & [(_ & W & Hp) | [(? & _) | (? & _)]] & _); try done.
    destruct (writing_published _ _ _ _ _ _ _ _ W) as (W1 & W2 & _ & _ & W3 & _); [done |].
    eexists _, _, _. split_and!; [eauto | eauto | unfold content; by rewrite W2 | done | by left]. }
  set (st1 := if bool_decide (st = PV_ERR_DURABILITY) then PV_ERR_IO else st).
  assert (st1 <> PV_ERR_DURABILITY) as Hst1 by (unfold st1; case_bool_decide; done).
  assert (Hlive1 : calm w -> can_backup (w_fs w) d (v_vault_id vault) generation -> st1 = PV_OK) by (intros Hc Hcan; unfold st1; by rewrite (Hlive Hc Hcan)).
  destruct (decide (st1 = PV_ERR_EXISTS)) as [E1 | E1].
  - rewrite E1, bool_decide_true by done. eapply wp_then.
    { eapply wp_weaken; [apply wp_existing_backup, A |]. intros g Hg. etrans; [apply A | done]. }
    intros st2 w3 C3 (A3 & Hst2 & Hcopy2).
    assert (A2' : adds (fun d' _ => d' = b) (fun i => w_next w1 <= i) w1 w3).
    { eapply adds_trans; [exact A2 |]. destruct A3 as [B1 B2 B3 B4]. split; [done | done | done |]. eapply agree_weaken; [| | exact B4]; [by intros ? ? [] | done]. }
    destruct (backup_adds _ _ _ _ _ Hmade A2') as (A' & Hb' & Hlt'). apply backup_close; auto.
    + intros Hc Hcan. rewrite (Hlive1 Hc Hcan) in E1. done.
    + intros E2 _ nm Hnm. assert (nm = name) as -> by congruence. specialize (Hcopy2 E2).
      assert (st = PV_ERR_EXISTS) as -> by (unfold st1 in E1; case_bool_decide; congruence).
      destruct Hspec as (_ & _ & [(? & _) | [(? & _) | (_ & _ & W)]] & _); try done. destruct (writing_before _ _ _ _ _ _ _ W) as [We _].
      assert (Hw1 : entry (w_fs w1) b name = entry (w_fs w) b name).
      { apply (agree_entry _ _ _ _ (adds_agree _ _ _ _ A1)). intros [Ebd _]. apply (ok_entry _ _ (adds_ok _ _ _ _ A1)) in Hb1. lia. }
      eapply (has_copy_before _ (w_fs w2)); [congruence | exact Hcopy2].
  - rewrite bool_decide_false by done. apply wp_bind, wp_ret. apply backup_close; auto.
    intros E2 Hh nm Hnm. assert (nm = name) as -> by congruence. apply Hcopy; [| done]. unfold st1 in E2. case_bool_decide; done.
Qed.

End backups.
