(* ===== verification/StoreNames.v ===== *)
(** * Names of automatic backups

    [parse_automatic_backup_name] accepts exactly the names
    [format_automatic_backup_name] produces. *)

From stdpp Require Import gmap.
From S2P Require Import Prelude Status Util Sys Arena Model Cbor Crypto Posix Config Secure Fs Store StoreOps.

(** ** Hexadecimal digits *)

Lemma lowercase_hex_value_spec c v : 0 <= v -> lowercase_hex_value c = v <-> 0 <= v < 16 /\ c = znth hex_alphabet v.
Proof.
  intros Hv. split.
  - unfold lowercase_hex_value. intros E.
    assert (forallb (fun v => znth hex_alphabet v =? if v <? 10 then v + 48 else v + 87) (seqZ 0 16) = true) as Hall by by vm_compute.
    rewrite forallb_forall in Hall. assert (0 <= v < 16) as Hr by (repeat split_if_in E; lia). split; [done |].
    specialize (Hall v (proj1 (list_elem_of_In _ _) (proj2 (elem_of_seqZ 0 16 v) Hr))). repeat split_if_in E; split_if_in Hall; lia.
  - intros [Hr ->]. assert (forallb (fun v => lowercase_hex_value (znth hex_alphabet v) =? v) (seqZ 0 16) = true) as Hall by by vm_compute.
    rewrite forallb_forall in Hall. specialize (Hall v (proj1 (list_elem_of_In _ _) (proj2 (elem_of_seqZ 0 16 v) Hr))). lia.
Qed.

(** One byte of the identifier. *)
Lemma hex_byte_spec c1 c2 b :
  (0 <= lowercase_hex_value c1 /\ 0 <= lowercase_hex_value c2 /\
   b = u8 (lowercase_hex_value c1 * 16 + lowercase_hex_value c2)) <-> is_byte b /\ [c1; c2] = hex_digits b.
Proof.
  unfold hex_digits. split.
  - intros (H1 & H2 & ->). destruct (proj1 (lowercase_hex_value_spec c1 _ H1) eq_refl) as [R1 E1].
    destruct (proj1 (lowercase_hex_value_spec c2 _ H2) eq_refl) as [R2 E2]. set (h := lowercase_hex_value c1) in *. set (l := lowercase_hex_value c2) in *.
    rewrite u8_small by (unfold is_byte; lia). split; [unfold is_byte; lia |].
    rewrite Z.shiftr_div_pow2 by lia. change 15 with (Z.ones 4). rewrite Z.land_ones by lia. change (2 ^ 4) with 16.
    replace ((h * 16 + l) / 16) with h by (Z.div_mod_to_equations; lia). replace ((h * 16 + l) mod 16) with l by (Z.div_mod_to_equations; lia).
    by rewrite <- E1, <- E2.
  - intros [Hb E]. injection E as -> ->. unfold is_byte in Hb. rewrite Z.shiftr_div_pow2 by lia. change 15 with (Z.ones 4). rewrite Z.land_ones by lia.
    change (2 ^ 4) with 16.
    rewrite (proj2 (lowercase_hex_value_spec _ (b / 16) ltac:(Z.div_mod_to_equations; lia))) by (split; [Z.div_mod_to_equations; lia | done]).
    rewrite (proj2 (lowercase_hex_value_spec _ (b mod 16) ltac:(Z.div_mod_to_equations; lia))) by (split; [Z.div_mod_to_equations; lia | done]).
    split_and!; [Z.div_mod_to_equations; lia .. |]. rewrite u8_small; [Z.div_mod_to_equations; lia | unfold is_byte; Z.div_mod_to_equations; lia].
Qed.

(** ** The two loops *)

Lemma zsub_cons_znth (l : list Z) p n : 0 <= p -> 0 < n -> p + n <= zlen l -> zsub l p n = znth l p :: zsub l (p + 1) (n - 1).
Proof.
  intros Hp Hn Hl. unfold zsub, znth. replace (Z.to_nat n) with (S (Z.to_nat (n - 1))) by lia. replace (Z.to_nat (p + 1)) with (S (Z.to_nat p)) by lia.
  destruct (drop (Z.to_nat p) l) as [| x r] eqn:E.
  - apply (f_equal length) in E. rewrite length_drop in E. unfold zlen in Hl. cbn in E. lia.
  - pose proof (take_drop (Z.to_nat p) l) as Hs. rewrite E in Hs. set (front := take (Z.to_nat p) l) in *.
    assert (length front = Z.to_nat p) as Hlen by (unfold front; rewrite length_take; unfold zlen in Hl; lia). rewrite <- Hs.
    rewrite app_nth2, Hlen, Nat.sub_diag by lia. cbn [nth take]. f_equal. f_equal.
    rewrite drop_app_ge by lia. rewrite Hlen. by replace (S (Z.to_nat p) - Z.to_nat p)%nat with 1%nat by lia.
Qed.

Lemma parse_vault_loop_spec name n index vid :
  0 <= index -> PV_AUTO_BACKUP_VAULT_OFFSET + 2 * (index + Z.of_nat n) <= zlen name ->
  parse_vault_loop name index n = Some vid <->
  length vid = n /\ is_bytes vid /\ zsub name (PV_AUTO_BACKUP_VAULT_OFFSET + index * 2) (2 * Z.of_nat n) = concat (map hex_digits vid).
Proof.
  change PV_AUTO_BACKUP_VAULT_OFFSET with 8. revert index vid. induction n as [| n IH]; intros index vid Hi Hl; cbn [parse_vault_loop].
  - rewrite zsub_nil_len. split; [intros [= <-]; auto with pv |]. intros (E & _ & _). by destruct vid.
  - change PV_AUTO_BACKUP_VAULT_OFFSET with 8.
    rewrite (zsub_cons_znth name _ (2 * Z.of_nat (S n))), (zsub_cons_znth name _ (2 * Z.of_nat (S n) - 1)) by lia.
    set (c1 := znth name (8 + index * 2)). set (c2 := znth name (8 + index * 2 + 1)).
    replace (8 + index * 2 + 1 + 1) with (8 + (index + 1) * 2) by lia. replace (2 * Z.of_nat (S n) - 1 - 1) with (2 * Z.of_nat n) by lia.
    split.
    + destruct (lowercase_hex_value c1 <? 0) eqn:E1; [done |]. destruct (lowercase_hex_value c2 <? 0) eqn:E2; [done |]. cbn [orb].
      destruct (parse_vault_loop name (index + 1) n) as [vid' |] eqn:E; [| done]. cbn. intros [= <-].
      apply IH in E as (Hlen & Hb & ->); [| lia | lia].
      destruct (proj1 (hex_byte_spec c1 c2 _) (conj (proj1 (Z.ltb_ge _ _) E1) (conj (proj1 (Z.ltb_ge _ _) E2) eq_refl))) as [Hbyte Ehex].
      split_and!; [cbn; lia | by constructor |]. cbn [map concat]. by rewrite <- Ehex.
    + intros (Hlen & Hb & E). destruct vid as [| b vid]; [done |]. apply Forall_cons_iff in Hb as [Hb Hbs]. cbn [map concat] in E.
      unfold hex_digits at 1 in E. cbn [app] in E. injection E as Ec1 Ec2 Erest.
      destruct (proj2 (hex_byte_spec c1 c2 b)) as (H1 & H2 & ->); [split; [done |]; by rewrite Ec1, Ec2 |].
      replace (lowercase_hex_value c1 <? 0) with false by lia. replace (lowercase_hex_value c2 <? 0) with false by lia. cbn [orb].
      rewrite (proj2 (IH (index + 1) vid ltac:(lia) ltac:(lia))); [done |]. split_and!; [cbn in Hlen; lia | done | done].
Qed.

Lemma zero_padded_S n v : zero_padded (S n) v = (48 + (v / 10 ^ Z.of_nat n) mod 10) :: zero_padded n v.
Proof.
  unfold zero_padded. cbn [seq map]. f_equal; [do 4 f_equal; lia |]. rewrite <- seq_shift, map_map. apply map_ext. intros i. do 4 f_equal. lia.
Qed.

Lemma zero_padded_length n v : length (zero_padded n v) = n.
Proof. unfold zero_padded. by rewrite length_map, length_seq. Qed.

Lemma parse_generation_loop_spec name n index acc g :
  0 <= index -> PV_AUTO_BACKUP_GENERATION_OFFSET + index + Z.of_nat n <= zlen name -> 0 <= acc <= UINT64_MAX ->
  parse_generation_loop name index n acc = Some g <->
  acc * 10 ^ Z.of_nat n <= g < (acc + 1) * 10 ^ Z.of_nat n /\ g <= UINT64_MAX /\
  zsub name (PV_AUTO_BACKUP_GENERATION_OFFSET + index) (Z.of_nat n) = zero_padded n g.
Proof.
  change PV_AUTO_BACKUP_GENERATION_OFFSET with 42. revert index acc. induction n as [| n IH]; intros index acc Hi Hl Hacc; cbn [parse_generation_loop].
  - change (10 ^ Z.of_nat 0) with 1. rewrite zsub_nil_len. split; [intros [= <-]; split_and!; [lia | lia | lia | done] |].
    intros (? & ? & _). f_equal. lia.
  - change PV_AUTO_BACKUP_GENERATION_OFFSET with 42. rewrite zero_padded_S, (zsub_cons_znth name _ (Z.of_nat (S n))) by lia.
    set (c := znth name (42 + index)). replace (42 + index + 1) with (42 + (index + 1)) by lia. replace (Z.of_nat (S n) - 1) with (Z.of_nat n) by lia.
    assert (Hp : 0 < 10 ^ Z.of_nat n) by (apply Z.pow_pos_nonneg; lia).
    assert (Hpow : 10 ^ Z.of_nat (S n) = 10 * 10 ^ Z.of_nat n) by (rewrite Nat2Z.inj_succ, Z.pow_succ_r; lia). rewrite Hpow.
    set (p := 10 ^ Z.of_nat n) in *.
    assert (Hdig : forall x, acc * 10 + x <= g / p < acc * 10 + x + 1 -> 0 <= x < 10 -> (g / p) mod 10 = x) by (intros x Hx Hr; Z.div_mod_to_equations; lia).
    destruct (Z.ltb_spec c 48); [| destruct (Z.ltb_spec 57 c)]; cbn [orb].
    1, 2: split; [done |]; intros (_ & _ & E); injection E as Ec _; pose proof (Z.mod_pos_bound (g / p) 10); lia.
    destruct (Z.ltb_spec ((UINT64_MAX - (c - 48)) / 10) acc) as [Hov | Hov].
    + split; [done |]. intros (Hg & Hmax & E). injection E as Ec _. exfalso.
      assert ((g / p) mod 10 = c - 48) as Hm by lia. assert (acc * 10 <= g / p < (acc + 1) * 10) by (split; [apply Z.div_le_lower_bound; lia | apply Z.div_lt_upper_bound; lia]).
      assert (g / p = acc * 10 + (c - 48)) by (Z.div_mod_to_equations; lia). assert (g / p <= g) by (apply Z.div_le_upper_bound; nia).
      Z.div_mod_to_equations. lia.
    + assert (0 <= acc * 10 + (c - 48) <= UINT64_MAX) by (Z.div_mod_to_equations; lia).
      rewrite (IH (index + 1) (acc * 10 + (c - 48))) by lia. fold p. split.
      * intros (Hg & Hmax & E). rewrite E. split_and!; [nia | nia | done |]. f_equal. rewrite (Hdig (c - 48)); [lia | | lia].
        split; [apply Z.div_le_lower_bound; lia | apply Z.div_lt_upper_bound; nia].
      * intros (Hg & Hmax & E). injection E as Ec E. assert ((g / p) mod 10 = c - 48) as Hm by lia.
        assert (acc * 10 <= g / p < (acc + 1) * 10) by (split; [apply Z.div_le_lower_bound; lia | apply Z.div_lt_upper_bound; lia]).
        assert (g / p = acc * 10 + (c - 48)) as Hq by (Z.div_mod_to_equations; lia).
        pose proof (Z.div_mod g p ltac:(lia)). pose proof (Z.mod_pos_bound g p Hp). split_and!; [nia | nia | done | done].
Qed.

(** ** Names *)

Definition backup_name (vault_id : list Z) (generation : Z) : list Z :=
  PV_AUTO_BACKUP_PREFIX ++ concat (map hex_digits vault_id) ++ cstr "-g" ++ zero_padded 20 generation ++ cstr ".pvlt".

Definition backup_id (vault_id : list Z) (generation : Z) : Prop :=
  is_bytes vault_id /\ zlen vault_id = PV_VAULT_ID_BYTES /\ 0 < generation <= UINT64_MAX.

Lemma backup_name_length vault_id generation : zlen vault_id = PV_VAULT_ID_BYTES -> zlen (backup_name vault_id generation) = 67.
Proof.
  intros Hl. unfold backup_name. rewrite !zlen_app, hex_concat_len, Hl. unfold zlen at 3. rewrite zero_padded_length. by vm_compute.
Qed.

Lemma format_spec vault_id generation :
  backup_id vault_id generation -> format_automatic_backup_name vault_id generation = (PV_OK, backup_name vault_id generation).
Proof.
  intros (Hb & Hl & Hg). unfold format_automatic_backup_name. replace (generation =? 0) with false by lia.
  unfold pv_hex_encode. change (PV_VAULT_ID_BYTES * 2 + 1 =? 0) with false. cbn iota. rewrite Hl.
  change ((PV_VAULT_ID_BYTES * 2 + 1 - 1) / 2 <? PV_VAULT_ID_BYTES) with false. cbn [from_option]. unfold id.
  replace (zlen (concat (map hex_digits vault_id)) =? 0) with false by (rewrite hex_concat_len, Hl; by vm_compute).
  cbn [app]. change (PV_AUTO_BACKUP_PREFIX ++ _) with (backup_name vault_id generation). change PV_AUTO_BACKUP_NAME_LEN with 67.
  rewrite backup_name_length by done. cbn [Z.eqb Pos.eqb]. f_equal.
  rewrite <- (backup_name_length vault_id generation Hl) at 1. apply zsub_all.
Qed.

(** The pieces of a name of the right length. *)
Lemma name_pieces (name : list Z) : zlen name = 67 -> name = zsub name 0 8 ++ zsub name 8 32 ++ zsub name 40 2 ++ zsub name 42 20 ++ zsub name 62 5.
Proof.
  intros Hl. transitivity (zsub name 0 67); [by rewrite <- Hl, zsub_all |]. change 67 with (8 + (32 + (2 + (20 + 5)))).
  rewrite <- (zsub_join name 0 8), <- (zsub_join name (0 + 8) 32), <- (zsub_join name (0 + 8 + 32) 2), <- (zsub_join name (0 + 8 + 32 + 2) 20) by lia.
  done.
Qed.

Lemma backup_name_pieces vault_id generation : zlen vault_id = PV_VAULT_ID_BYTES ->
  let name := backup_name vault_id generation in
  zsub name 0 8 = PV_AUTO_BACKUP_PREFIX /\ zsub name 8 32 = concat (map hex_digits vault_id) /\ zsub name 40 2 = cstr "-g" /\
  zsub name 42 20 = zero_padded 20 generation /\ zsub name 62 5 = cstr ".pvlt".
Proof.
  intros Hl name. set (hex := concat (map hex_digits vault_id)). set (digits := zero_padded 20 generation).
  assert (H1 : zlen PV_AUTO_BACKUP_PREFIX = 8) by done. assert (H2 : zlen hex = 32) by (unfold hex; rewrite hex_concat_len, Hl; done).
  assert (H3 : zlen (cstr "-g") = 2) by done. assert (H4 : zlen digits = 20) by (unfold zlen, digits; by rewrite zero_padded_length).
  assert (H5 : zlen (cstr ".pvlt") = 5) by done. unfold name, backup_name. fold hex digits. revert H1 H3 H5.
  generalize PV_AUTO_BACKUP_PREFIX as a, (cstr "-g") as c, (cstr ".pvlt") as e. intros a c e H1 H3 H5. split_and!.
  - rewrite zsub_app_l, <- H1, zsub_all by lia. done.
  - rewrite zsub_app_r, H1, zsub_app_l by lia. change (8 - 8) with 0. by rewrite <- H2, zsub_all.
  - rewrite zsub_app_r, H1, zsub_app_r, H2, zsub_app_l by lia. change (40 - 8 - 32) with 0. by rewrite <- H3, zsub_all.
  - rewrite zsub_app_r, H1, zsub_app_r, H2, zsub_app_r, H3, zsub_app_l by lia. change (42 - 8 - 32 - 2) with 0. by rewrite <- H4, zsub_all.
  - rewrite zsub_app_r, H1, zsub_app_r, H2, zsub_app_r, H3, zsub_app_r, H4 by lia. change (62 - 8 - 32 - 2 - 20) with 0. by rewrite <- H5, zsub_all.
Qed.

Lemma parse_spec name vault_id generation :
  parse_automatic_backup_name name = Some (vault_id, generation) <-> backup_id vault_id generation /\ name = backup_name vault_id generation.
Proof.
  unfold parse_automatic_backup_name, backup_id. change PV_AUTO_BACKUP_NAME_LEN with 67. change PV_AUTO_BACKUP_MARKER_OFFSET with 40.
  change PV_AUTO_BACKUP_EXTENSION_OFFSET with 62. change (Z.to_nat PV_VAULT_ID_BYTES) with 16%nat. split.
  - destruct (Z.eqb_spec (zlen name) 67) as [Hl |]; [| done]. cbn [negb orb].
    destruct (bytes_eqb (zsub name 0 8) _) eqn:E1; [| done]. destruct (bytes_eqb (zsub name 40 2) _) eqn:E2; [| done].
    destruct (bytes_eqb (zsub name 62 5) _) eqn:E3; [| done]. cbn [negb orb]. apply bytes_eqb_eq in E1, E2, E3.
    destruct (parse_vault_loop name 0 16) as [vid |] eqn:Ev; [| done]. destruct (parse_generation_loop name 0 20 0) as [g |] eqn:Eg; [| done]. cbn.
    destruct (Z.eqb_spec g 0) as [| Hg]; [done |]. intros [= -> ->].
    apply parse_vault_loop_spec in Ev as (Hvl & Hvb & Ev); [| lia | change PV_AUTO_BACKUP_VAULT_OFFSET with 8; lia].
    apply parse_generation_loop_spec in Eg as (Hgr & Hgm & Eg); [| lia | change PV_AUTO_BACKUP_GENERATION_OFFSET with 42; lia | unfold UINT64_MAX; lia].
    split; [split_and!; [done | unfold zlen; by rewrite Hvl | lia | done] |].
    rewrite (name_pieces name Hl). change (8 + 0 * 2) with 8 in Ev. change (2 * Z.of_nat 16) with 32 in Ev. unfold backup_name.
    change (PV_AUTO_BACKUP_VAULT_OFFSET + 0 * 2) with 8 in Ev. change (PV_AUTO_BACKUP_GENERATION_OFFSET + 0) with 42 in Eg. change (Z.of_nat 20) with 20 in Eg.
    by rewrite E1, Ev, E2, Eg, E3.
  - intros [(Hb & Hl & Hg) ->]. pose proof (backup_name_length vault_id generation Hl) as Hlen.
    destruct (backup_name_pieces vault_id generation Hl) as (P1 & P2 & P3 & P4 & P5). cbv zeta in *. set (name := backup_name vault_id generation) in *.
    rewrite Hlen, P1, P3, P5, !bytes_eqb_refl. cbn [Z.eqb Pos.eqb negb orb].
    rewrite (proj2 (parse_vault_loop_spec name 16 0 vault_id ltac:(lia) ltac:(change PV_AUTO_BACKUP_VAULT_OFFSET with 8; lia)))
      by (split_and!; [unfold zlen in Hl; change PV_VAULT_ID_BYTES with 16 in Hl; lia | done | exact P2]). cbn [mbind option_bind].
    rewrite (proj2 (parse_generation_loop_spec name 20 0 0 generation ltac:(lia) ltac:(change PV_AUTO_BACKUP_GENERATION_OFFSET with 42; lia) ltac:(unfold UINT64_MAX; lia)))
      by (split_and!; [lia | change (10 ^ Z.of_nat 20) with 100000000000000000000; unfold UINT64_MAX in *; lia | lia | exact P4]). cbn [mbind option_bind].
    by replace (generation =? 0) with false by lia.
Qed.
