(* ===== verification/StorePrune.v ===== *)
(** * Facts about the retention of backups

    [prune_automatic_backups] removes the backups beyond the newest [retention]
    of this vault, and nothing else. *)

From stdpp Require Import gmap sorting.
From S2P Require Import Prelude Status Util Sys Arena Model Cbor Crypto CryptoFacts Posix Config Secure Fs FsFacts Store StoreOps StoreFacts StoreReads StoreSave StoreNames.

(** [readdir] yields every entry once. *)
Class HostLaws `(H : Host) : Prop := {
  readdir_all m : readdir_order m ≡ₚ (map_to_list m).*1
}.

Section prune.
Context `{Host} `{Sodium} `{Libcbor}.

(** The generation of a backup that may be removed: named for this vault, not
    newer than [maximum], private and not read-only. *)
Definition removable (f : fs) (b : Z) (vault_id : list Z) (maximum : Z) (name : list Z) : option Z :=
  match parse_automatic_backup_name name with
  | Some (vid, g) =>
      if bytes_eqb vid vault_id && (g <=? maximum) then
        n ← (i ← entry f b name; f_inodes f !! i);
        if inode_private n && (access_bits (i_mode n) =? 384) then Some g else None
      else None
  | None => None
  end.

(** The candidates among some names. *)
Definition candidates_of (f : fs) (b : Z) (vault_id : list Z) (maximum : Z) (names : list (list Z)) : list pv_backup_candidate :=
  omap (fun name =>
    g ← removable f b vault_id maximum name;
    i ← entry f b name;
    Some (mk_candidate name g device i)) names.

(** ** The scan *)

Lemma wp_validate (J : fs -> Prop) d name vault_id vmk generation w (Q : pv_status * stat -> world -> Prop) :
  (forall st output w', same w w' ->
     (st = PV_OK -> exists i n disk, disk_of (w_fs w) d name i n disk /\ output = disk_snapshot_stat disk) -> Q (st, output) w') ->
  wp J (validate_automatic_backup_entry d name vault_id vmk generation) Q w.
Proof.
  intros HQ. unfold validate_automatic_backup_entry. destruct (generation =? 0); [by apply wp_ret, HQ |].
  assert (Hrest : forall st disk w1, same w w1 -> (st = PV_OK -> exists i n, disk_of (w_fs w) d name i n disk) -> wp J
    (r ← (if is_ok st then lift (pv_crypto_decrypt_body (disk_header disk) vmk (disk_ciphertext disk)) else mret (st, None));
     let '(status, plaintext) := r in
     r ← (if is_ok status then lift (pv_model_init vault_zero (cstr ".")) else mret (status, vault_zero));
     let '(status, decoded) := r in
     r ← (if is_ok status then lift (store_cbor_decode (default [] plaintext) decoded) else mret (status, decoded));
     let '(status0, decoded0) := r in
     let status1 := if is_ok status0 && (negb (bytes_eqb (h_vault_id (disk_header disk)) vault_id) || negb (v_generation decoded0 =? generation))
                    then PV_ERR_AUTH else status0 in
     _ ← (if is_ok status then lift (pv_model_destroy decoded0) else mret vault_zero);
     mret (status1, if is_ok status1 then disk_snapshot_stat disk else stat_zero)) Q w1).
  { intros st disk w1 S1 Hst.
    eapply (wp_then _ _ _ (fun r w2 => same w w2 /\ (fst r = PV_OK -> st = PV_OK))).
    { destruct (is_ok st) eqn:E; [apply is_ok_iff in E as ->; apply wp_quiet; [auto with pv |]; intros x w2 S2; split; [by etrans | done] |].
      apply wp_ret. by split. }
    intros [st2 pl] w2 _ [S2 H2]. cbn [fst] in H2.
    eapply (wp_then _ _ _ (fun r w3 => same w w3 /\ (fst r = PV_OK -> st2 = PV_OK))).
    { destruct (is_ok st2) eqn:E; [apply is_ok_iff in E as ->; apply wp_quiet; [auto with pv |]; intros x w3 S3; split; [by etrans | done] |].
      apply wp_ret. by split. }
    intros [st3 dec] w3 _ [S3 H3]. cbn [fst] in H3.
    eapply (wp_then _ _ _ (fun r w4 => same w w4 /\ (fst r = PV_OK -> st3 = PV_OK))).
    { destruct (is_ok st3) eqn:E; [apply is_ok_iff in E as ->; apply wp_quiet; [auto with pv |]; intros x w4 S4; split; [by etrans | done] |].
      apply wp_ret. by split. }
    intros [st4 dec4] w4 _ [S4 H4]. cbn [fst] in H4. cbv zeta. set (st5 := if is_ok st4 && _ then PV_ERR_AUTH else st4).
    assert (H5 : st5 = PV_OK -> st4 = PV_OK) by (unfold st5; by split_if).
    eapply (wp_then _ _ _ (fun _ w5 => same w w5)).
    { destruct (is_ok st3); [apply wp_quiet; [auto with pv |]; intros x w5 S5; by etrans | by apply wp_ret]. }
    intros _ w5 _ S5. apply wp_ret, HQ; [done |]. intros E. rewrite E. cbn [is_ok]. destruct Hst as (i & n & D); [auto |]. eauto. }
  apply wp_bind, wp_read_disk_file_at.
  - intros st w1 S1 Hst _ _. apply (Hrest st disk_zero); [done | done].
  - intros i n disk w1 S1 D. apply (Hrest PV_OK disk); [done |]. eauto.
Qed.

Lemma candidates_of_cons f b vid max name names :
  candidates_of f b vid max (name :: names) =
  match removable f b vid max name, entry f b name with
  | Some g, Some i => mk_candidate name g device i :: candidates_of f b vid max names
  | _, _ => candidates_of f b vid max names
  end.
Proof. unfold candidates_of. cbn. destruct (removable f b vid max name) as [g |]; [| done]. cbn. by destruct (entry f b name). Qed.

Lemma wp_scan_backups (J : fs -> Prop) names d vault_id vmk maximum candidates capacity w :
  wp J (scan_backups names d vault_id vmk maximum candidates capacity)
    (fun r w' => same w w' /\ (fst r = PV_OK -> snd r = candidates ++ candidates_of (w_fs w) d vault_id maximum names)) w.
Proof.
  revert candidates capacity w. induction names as [| name names IH]; intros candidates capacity w; cbn [scan_backups].
  { apply wp_bind, wp_call. intros e w1 S1 _. destruct e; apply wp_ret; (split; [done |]); [done |]. cbn. by rewrite app_nil_r. }
  assert (Hskip : forall cands cap w1, same w w1 ->
    candidates ++ candidates_of (w_fs w) d vault_id maximum (name :: names) = cands ++ candidates_of (w_fs w) d vault_id maximum names ->
    wp J (scan_backups names d vault_id vmk maximum cands cap)
      (fun r w' => same w w' /\ (fst r = PV_OK -> snd r = candidates ++ candidates_of (w_fs w) d vault_id maximum (name :: names))) w1).
  { intros cands cap w1 S1 E. eapply wp_mono; [apply IH |]. intros r w2 _ [S2 Hr]. split; [by etrans |]. intros Hok.
    by rewrite E, (Hr Hok), (same_fs _ _ S1). }
  assert (Hno : removable (w_fs w) d vault_id maximum name = None ->
    candidates ++ candidates_of (w_fs w) d vault_id maximum (name :: names) = candidates ++ candidates_of (w_fs w) d vault_id maximum names)
    by (intros E; by rewrite candidates_of_cons, E).
  apply wp_bind, wp_call. intros e w1 S1 _. destruct e; [apply wp_ret; by split |].
  destruct (parse_automatic_backup_name name) as [[vid g] |] eqn:Ep; [| apply Hskip; [done |]; apply Hno; unfold removable; by rewrite Ep].
  destruct (bytes_eqb vid vault_id) eqn:Ev; cbn [negb]; [| apply Hskip; [done |]; apply Hno; unfold removable; by rewrite Ep, Ev].
  apply wp_bind, wp_fstatat. rewrite (same_fs _ _ S1). intros r w2 S2 Hr _. assert (S12 : same w w2) by by etrans.
  destruct r as [listed |]; [| apply wp_ret; by split]. destruct (Hr listed eq_refl) as (i & n & Hi & Hn & ->).
  split_if; [apply wp_ret; by split |]. apply wp_bind, wp_validate. intros st output w3 S3 Hst. assert (S13 : same w w3) by by etrans.
  destruct (is_ok st) eqn:Est; cbn [negb]; [apply is_ok_iff in Est as -> | apply wp_ret; split; [done |]; intros E; cbn in E; by rewrite E in Est].
  destruct (Hst eq_refl) as (i' & n' & disk & D & ->). rewrite (same_fs _ _ S12) in D. pose proof D as [Di Dn Dp Ds _ _ _ _ _].
  assert (i' = i) as -> by congruence. assert (n' = n) as -> by congruence. rewrite Ds. cbn [stat_of st_dev st_ino st_mode].
  rewrite !Z.eqb_refl. cbn [negb orb].
  assert (Hrem : removable (w_fs w) d vault_id maximum name = if (g <=? maximum) && (access_bits (i_mode n) =? 384) then Some g else None).
  { unfold removable. rewrite Ep, Ev, Hi. destruct (g <=? maximum); [| done]. cbn [mbind option_bind andb]. rewrite Hn. cbn. by rewrite Dp. }
  destruct (Z.eqb_spec (access_bits (i_mode n)) 256) as [Hro | Hrw].
  { apply Hskip; [done |]. apply Hno. rewrite Hrem, Hro. by rewrite andb_false_r. }
  destruct (Z.ltb_spec maximum g). { apply Hskip; [done |]. apply Hno. rewrite Hrem. by replace (g <=? maximum) with false by lia. }
  apply wp_bind, wp_lift; [auto with pv |]. intros grown w4 S4 _. destruct (is_ok (fst grown)) eqn:Eg; cbn [negb].
  2: { apply wp_ret. split; [by etrans |]. intros E. cbn in E. by rewrite E in Eg. }
  apply Hskip; [by etrans |]. rewrite candidates_of_cons, Hrem, Hi.
  assert (access_bits (i_mode n) = 384) as ->.
  { unfold inode_private, private_snapshot_stat_issue in Dp. cbn [stat_of st_mode st_uid st_nlink] in Dp. repeat split_if_in Dp; try done. lia. }
  replace (g <=? maximum) with true by lia. cbn [andb Z.eqb Pos.eqb]. by rewrite <- app_assoc.
Qed.

(** ** The candidates *)

Lemma candidates_of_elem f b vid max names c :
  c ∈ candidates_of f b vid max names <->
  candidate_name c ∈ names /\ removable f b vid max (candidate_name c) = Some (candidate_generation c) /\
  entry f b (candidate_name c) = Some (candidate_inode c) /\ candidate_device c = device.
Proof.
  unfold candidates_of. rewrite list_elem_of_omap. split.
  - intros (name & Hin & E). destruct (removable f b vid max name) as [g |] eqn:Er; [| done]. cbn in E.
    destruct (entry f b name) as [i |] eqn:Ee; [| done]. cbn in E. injection E as <-. by cbn.
  - intros (Hin & Er & Ee & Ed). exists (candidate_name c). split; [done |]. rewrite Er. cbn. rewrite Ee. cbn. destruct c; cbn in *. by subst.
Qed.

Lemma removable_parse f b vid max name g : removable f b vid max name = Some g ->
  name = backup_name vid g /\ backup_id vid g /\ g <= max.
Proof.
  unfold removable. destruct (parse_automatic_backup_name name) as [[v g'] |] eqn:Ep; [| done].
  destruct (bytes_eqb v vid && (g' <=? max)) eqn:E; [| done]. apply andb_true_iff in E as [Ev Eg]. apply bytes_eqb_eq in Ev as ->.
  destruct (entry f b name) as [i |]; cbn; [| done]. destruct (f_inodes f !! i) as [n |]; cbn; [| done]. split_if; [| done]. intros [= ->]. apply parse_spec in Ep as [Hid ->]. split_and!; [done | done | lia].
Qed.

(** One backup per generation. *)
Lemma candidates_generation f b vid max names c c' :
  c ∈ candidates_of f b vid max names -> c' ∈ candidates_of f b vid max names ->
  candidate_generation c = candidate_generation c' -> c = c'.
Proof.
  rewrite !candidates_of_elem. intros (_ & Hr & He & Hd) (_ & Hr' & He' & Hd') Eg.
  apply removable_parse in Hr as [En _]. apply removable_parse in Hr' as [En' _]. destruct c as [n g dv i], c' as [n' g' dv' i']. cbn in *. subst.
  assert (i = i') as -> by congruence. done.
Qed.

Lemma candidates_NoDup f b vid max names : NoDup names -> NoDup (candidates_of f b vid max names).
Proof.
  induction 1 as [| name names Hn Hnd IH]; [constructor |]. rewrite candidates_of_cons.
  destruct (removable f b vid max name) as [g |]; [| done]. destruct (entry f b name) as [i |]; [| done]. constructor; [| done].
  rewrite candidates_of_elem. cbn. by intros [].
Qed.

(** ** Sorting *)

Lemma insert_candidate_perm c l : insert_candidate c l ≡ₚ c :: l.
Proof. induction l as [| x l IH]; [done |]. cbn. split_if; [done |]. rewrite IH. apply Permutation_swap. Qed.

Lemma qsort_perm l : qsort_candidates l ≡ₚ l.
Proof. induction l as [| x l IH]; [done |]. cbn. by rewrite insert_candidate_perm, IH. Qed.

Definition older (a b : pv_backup_candidate) : Prop := candidate_generation a <= candidate_generation b.

Lemma insert_candidate_sorted c l : StronglySorted older l -> StronglySorted older (insert_candidate c l).
Proof.
  induction 1 as [| x l Hl IH Hx]; cbn; [repeat constructor |].
  assert (Hc : compare_backup_candidates c x <= 0 -> older c x) by (unfold compare_backup_candidates, older; repeat split_if; lia).
  assert (Hx' : 0 < compare_backup_candidates c x -> older x c) by (unfold compare_backup_candidates, older; repeat split_if; lia).
  destruct (Z.leb_spec (compare_backup_candidates c x) 0).
  - constructor; [by constructor |]. constructor; [auto |]. specialize (Hc ltac:(lia)). revert Hx. apply Forall_impl. unfold older in *. intros y Hy. lia.
  - constructor; [done |]. rewrite insert_candidate_perm. constructor; auto.
Qed.

Lemma qsort_sorted l : StronglySorted older (qsort_candidates l).
Proof. induction l; cbn; [constructor | by apply insert_candidate_sorted]. Qed.

(** How many are newer. *)
Definition newer (g : Z) (gs : list Z) : nat := length (filter (fun g' => g < g') gs).

Lemma newer_perm g gs gs' : gs ≡ₚ gs' -> newer g gs = newer g gs'.
Proof. intros E. unfold newer. by rewrite E. Qed.

Lemma newer_all g gs : (forall g', g' ∈ gs -> g < g') -> newer g gs = length gs.
Proof.
  unfold newer. induction gs as [| x gs IH]; intros Hall; [done |]. rewrite filter_cons_True by (apply Hall; left). cbn. f_equal.
  apply IH. intros. apply Hall. by right.
Qed.

Lemma newer_none g gs : (forall g', g' ∈ gs -> g' <= g) -> newer g gs = 0%nat.
Proof.
  unfold newer. induction gs as [| x gs IH]; intros Hall; [done |]. rewrite filter_cons_False by (specialize (Hall x ltac:(left)); lia).
  apply IH. intros. apply Hall. by right.
Qed.

Lemma newer_app g gs gs' : newer g (gs ++ gs') = (newer g gs + newer g gs')%nat.
Proof. unfold newer. by rewrite list.filter_app, length_app. Qed.

(** In a sorted list without ties, the first [k] are those with at least as many
    newer ones as there are others. *)
Lemma take_oldest l k c :
  StronglySorted older l -> NoDup (candidate_generation <$> l) -> (k <= length l)%nat ->
  c ∈ take k l <-> c ∈ l /\ (length l - k <= newer (candidate_generation c) (candidate_generation <$> l))%nat.
Proof.
  intros Hs Hnd Hk. rewrite <- (take_drop k l) in Hs, Hnd. rewrite fmap_app in Hnd. apply list.NoDup_app in Hnd as (_ & Hdis & Hnd2).
  apply StronglySorted_app in Hs as (Hcross & _ & _).
  set (front := take k l) in *. set (back := drop k l) in *. assert (Hl : l = front ++ back) by (symmetry; apply take_drop).
  assert (Hlen : length back = (length l - k)%nat) by apply length_drop. rewrite <- Hlen. rewrite Hl at 1 2. rewrite fmap_app, newer_app.
  split.
  - intros Hc. split; [by apply elem_of_app; left |]. rewrite (newer_all _ (candidate_generation <$> back)); [rewrite length_fmap; lia |].
    intros g Hg. apply list_elem_of_fmap in Hg as (y & -> & Hy). specialize (Hcross c y Hc Hy). unfold older in Hcross.
    destruct (decide (candidate_generation c = candidate_generation y)) as [E | E]; [| lia]. exfalso.
    apply (Hdis (candidate_generation c)); [by apply list_elem_of_fmap_2 | rewrite E; by apply list_elem_of_fmap_2].
  - intros [Hc Hcount]. apply elem_of_app in Hc as [Hc | Hc]; [done | exfalso].
    rewrite (newer_none _ (candidate_generation <$> front)) in Hcount.
    + pose proof (length_filter_lt (fun g' => candidate_generation c < g') (candidate_generation <$> back) (candidate_generation c)
        ltac:(by apply list_elem_of_fmap_2) (Z.lt_irrefl _)). unfold newer in Hcount. rewrite length_fmap in *. lia.
    + intros g Hg. apply list_elem_of_fmap in Hg as (y & -> & Hy). specialize (Hcross y c Hy Hc). unfold older in Hcross. lia.
Qed.

(** ** Removing *)

(** [f] without some names of [b]; only the directory [b] may have been synced. *)
Record pruned (f : fs) (b : Z) (removed : list (list Z)) (g : fs) : Prop := mk_pruned {
  pr_entry d name : entry g d name = if decide (d = b /\ name ∈ removed) then None else entry f d name;
  pr_content i : content g i = content f i;
  pr_durable d name i : durable_entry g d name = Some i -> durable_entry f d name = Some i \/ d = b /\ entry f d name = Some i;
  pr_durable_other d name : d <> b -> durable_entry g d name = durable_entry f d name;
  pr_durable_kept name : name ∉ removed -> durable_entry g b name = durable_entry f b name \/ durable_entry g b name = entry f b name;
  pr_inode i : (forall name, name ∈ removed -> entry f b name <> Some i) -> f_inodes g !! i = f_inodes f !! i
}.

Lemma pruned_refl f b : pruned f b [] f.
Proof. split; [| done | auto | done | by left | done]. intros d name. rewrite decide_False; [done |]. by intros [_ ?%elem_of_nil]. Qed.

Lemma pruned_unlink f b removed g name i :
  pruned f b removed g -> entry g b name = Some i -> pruned f b (name :: removed) (drop_link (set_entries g b (delete name (entries g b))) i).
Proof.
  intros [E C D O K I] He. split.
  - intros d nm. rewrite entry_drop_link, entry_delete. destruct (decide (d = b /\ nm = name)) as [[-> ->] | Hne].
    + rewrite decide_True; [done |]. split; [done | left].
    + rewrite E. apply decide_ext. rewrite elem_of_cons. tauto.
  - intros j. rewrite content_drop_link. apply C.
  - intros d nm j. rewrite durable_drop_link. apply D.
  - intros d nm Hd. rewrite durable_drop_link. by apply O.
  - intros nm Hnm. rewrite durable_drop_link. apply K. intros Hin. apply Hnm. by right.
  - intros j Hj. rewrite inode_drop_link, decide_False.
    + apply I. intros nm Hnm. apply Hj. by right.
    + intros ->. rewrite E in He. destruct (decide _); [done |]. apply (Hj name); [left | done].
Qed.

Lemma pruned_sync f b removed g : pruned f b removed g -> pruned f b removed (dir_synced g b).
Proof.
  intros [E C D O K I]. split; [done | done | | | | done].
  - intros d nm i. rewrite dir_synced_durable. destruct (decide (d = b)) as [-> |]; [| apply D]. rewrite E. destruct (decide _); [done |]. auto.
  - intros d nm Hd. rewrite dir_synced_durable, decide_False by done. by apply O.
  - intros nm Hnm. right. rewrite dir_synced_durable, decide_True, E, decide_False by (try done; intros []; done). done.
Qed.

Lemma pruned_ok f b removed g next : pruned f b removed g -> fs_ok f next -> fs_ok g next.
Proof.
  intros [E C D O K I] [K1 K2 K3]. split.
  - intros i n Hn. apply content_lookup in Hn. rewrite C in Hn. unfold content in Hn. destruct (f_inodes f !! i) eqn:Ei; [by eapply K1 | by destruct Hn].
  - intros d nm i He. rewrite E in He. destruct (decide _); [done |]. by apply K2 in He.
  - intros d nm i He. apply D in He as [He | [-> He]]; [by eapply K3 | apply K2 in He; lia].
Qed.

Lemma pruned_extends f b removed g : pruned f b removed g -> extends (fun d' _ => d' = b) f g.
Proof.
  intros [E C D O K I]. split.
  - intros d nm i He Hd. rewrite E, decide_False; [done |]. by intros [].
  - intros i c Hc. by rewrite C.
  - intros d nm i He Hd. left. by apply O.
Qed.

(** The states of a removal of some of the names in [oldest]. *)
Definition in_pruning (f : fs) (b : Z) (oldest : list (list Z)) (g : fs) : Prop :=
  exists removed, (forall name, name ∈ removed -> name ∈ oldest) /\ pruned f b removed g.

Lemma wp_unlinkat_any (J : fs -> Prop) d name w (Q : bool -> world -> Prop) :
  (forall i, entry (w_fs w) d name = Some i -> J (drop_link (set_entries (w_fs w) d (delete name (entries (w_fs w) d))) i)) ->
  (forall w', same w w' -> Q false w') ->
  (forall i w', entry (w_fs w) d name = Some i -> w_fs w' = drop_link (set_entries (w_fs w) d (delete name (entries (w_fs w) d))) i ->
     w_next w' = w_next w -> Q true w') ->
  wp J (unlinkat d name) Q w.
Proof.
  intros HJ Hno Hyes. apply wp_bind, wp_call. intros e w1 S1 _. apply wp_bind, wp_get_fs. rewrite (same_fs _ _ S1).
  destruct e; [by apply wp_ret, Hno |]. destruct (entry (w_fs w) d name) as [i |] eqn:E; [| by apply wp_ret, Hno].
  apply wp_bind, wp_put_fs; [by apply HJ |]. intros w2 F2 N2 _ _. apply wp_ret. eapply Hyes; [done | done | by rewrite N2, (same_next _ _ S1)].
Qed.

Lemma quiet_candidate_unchanged d c : quiet (candidate_unchanged d c).
Proof. unfold candidate_unchanged. solve_quiet. Qed.

Lemma quiet_check_candidates d l : quiet (check_candidates d l).
Proof. pose proof quiet_candidate_unchanged. induction l; cbn [check_candidates]; solve_quiet. Qed.

Lemma wp_unlink_candidates f b oldest l deleted gone w :
  pruned f b gone (w_fs w) -> (forall name, name ∈ gone -> name ∈ oldest) -> (forall c, c ∈ l -> candidate_name c ∈ oldest) ->
  wp (in_pruning f b oldest) (unlink_candidates b l deleted)
    (fun r w' => w_next w' = w_next w /\ exists removed, (forall name, name ∈ removed -> name ∈ oldest) /\ pruned f b removed (w_fs w') /\
       (fst r = PV_OK -> forall name, name ∈ removed <-> name ∈ gone \/ name ∈ candidate_name <$> l)) w.
Proof.
  revert deleted gone w. induction l as [| c l IH]; intros deleted gone w P Hgone Hl; cbn [unlink_candidates].
  { apply wp_ret. split; [done |]. exists gone. split_and!; [done | done |]. intros _ name. cbn. rewrite elem_of_nil. tauto. }
  apply wp_bind, wp_quiet; [apply quiet_candidate_unchanged |]. intros ok w1 S1. destruct ok.
  2: { apply wp_bind, wp_ret. cbn [negb]. apply wp_ret. split; [apply S1 |]. exists gone. rewrite (same_fs _ _ S1). by split_and!. }
  assert (Hc : candidate_name c ∈ oldest) by (apply Hl; left).
  apply wp_bind, wp_unlinkat_any; rewrite ?(same_fs _ _ S1).
  - intros i Hi. exists (candidate_name c :: gone). split; [| by apply pruned_unlink]. intros name [-> | Hn]%elem_of_cons; auto.
  - intros w2 S2. cbn [negb]. apply wp_ret. assert (S12 : same w w2) by by etrans. split; [apply S12 |]. exists gone. rewrite (same_fs _ _ S12). by split_and!.
  - intros i w2 Hi F2 N2. cbn [negb]. eapply wp_mono; [apply (IH true (candidate_name c :: gone)) |].
    + rewrite F2. by apply pruned_unlink.
    + intros name [-> | Hn]%elem_of_cons; auto.
    + intros c' Hc'. apply Hl. by right.
    + intros r w3 _ (N3 & removed & R1 & R2 & R4). split; [by rewrite N3, N2, (same_next _ _ S1) |]. exists removed. split_and!; [done | done |].
      intros Hok name. rewrite (R4 Hok). rewrite fmap_cons, !elem_of_cons. tauto.
Qed.

(** The names beyond the newest [retention]. *)
Definition surplus (f : fs) (b : Z) (vault_id : list Z) (maximum retention : Z) : list pv_backup_candidate :=
  let candidates := candidates_of f b vault_id maximum (readdir_order (entries f b)) in
  if zlen candidates <=? retention then [] else zsub (qsort_candidates candidates) 0 (zlen candidates - retention).

(** The outcome of a removal. *)
Definition pruning_outcome (f : fs) (b : Z) (oldest : list (list Z)) (w : world) (st : pv_status) (w' : world) : Prop :=
  w_next w' = w_next w /\ exists removed, (forall name, name ∈ removed -> name ∈ oldest) /\ pruned f b removed (w_fs w') /\
    (st = PV_OK -> forall name, name ∈ oldest -> name ∈ removed).

Lemma pruning_nothing b oldest st w w' : same w w' -> st <> PV_OK \/ oldest = [] -> pruning_outcome (w_fs w) b oldest w st w'.
Proof.
  intros S Hst. split; [apply S |]. exists []. rewrite (same_fs _ _ S). split_and!; [by intros ? ?%elem_of_nil | apply pruned_refl |].
  intros E. destruct Hst as [Hst | ->]; [done |]. by intros ? ?%elem_of_nil.
Qed.

Lemma wp_remove_oldest b vault_id maximum retention w :
  let oldest := candidate_name <$> surplus (w_fs w) b vault_id maximum retention in
  wp (in_pruning (w_fs w) b oldest)
    (remove_oldest b (candidates_of (w_fs w) b vault_id maximum (readdir_order (entries (w_fs w) b))) retention)
    (fun r w' => pruning_outcome (w_fs w) b oldest w (fst r) w') w.
Proof.
  cbv zeta. unfold remove_oldest, surplus. cbv zeta. set (candidates := candidates_of _ _ _ _ _).
  destruct (zlen candidates <=? retention); [apply wp_ret, pruning_nothing; [done | by right] |]. set (l := zsub (qsort_candidates candidates) 0 (zlen candidates - retention)).
  apply wp_bind, wp_quiet; [apply quiet_check_candidates |]. intros st w1 S1. destruct (is_ok st) eqn:Est; cbn [negb].
  - eapply wp_mono; [apply (wp_unlink_candidates (w_fs w) b (candidate_name <$> l) l false []) |].
    + rewrite (same_fs _ _ S1). apply pruned_refl.
    + by intros ? ?%elem_of_nil.
    + intros c Hc. by apply list_elem_of_fmap_2.
    + intros r w2 _ (N2 & removed & R1 & R2 & R3). split; [by rewrite N2, (same_next _ _ S1) |]. exists removed. split_and!; [done | done |].
      intros Hok name Hn. apply (R3 Hok). by right.
  - apply wp_ret, pruning_nothing; [done |]. left. cbn. by intros ->.
Qed.

Lemma wp_opendir (J : fs -> Prop) d w (Q : option (list (list Z)) -> world -> Prop) :
  (forall w', same w w' -> Q None w') -> (forall w', same w w' -> Q (Some (readdir_order (entries (w_fs w) d))) w') -> wp J (opendir d) Q w.
Proof.
  intros Hno Hyes. apply wp_bind, wp_call. intros e w1 S1 _. apply wp_bind, wp_get_fs. rewrite (same_fs _ _ S1). apply wp_ret.
  destruct e; auto.
Qed.

Lemma wp_prune b vault_id vmk maximum retention w :
  let oldest := candidate_name <$> surplus (w_fs w) b vault_id maximum retention in
  wp (in_pruning (w_fs w) b oldest) (prune_automatic_backups b vault_id vmk maximum retention) (pruning_outcome (w_fs w) b oldest w) w.
Proof.
  intros oldest. assert (Hnothing : forall st w', same w w' -> st <> PV_OK -> pruning_outcome (w_fs w) b oldest w st w') by (intros; apply pruning_nothing; auto).
  unfold prune_automatic_backups. split_if; [by apply wp_ret, Hnothing |].
  apply wp_bind, wp_quiet; [auto with pv |]. intros st w1 S1. split_if; [by apply wp_ret, Hnothing |].
  apply wp_bind, wp_call. intros e w2 S2 _. assert (S12 : same w w2) by by etrans. destruct (negb (is_null e)); [by apply wp_ret, Hnothing |].
  apply wp_bind, wp_opendir.
  { intros w3 S3. apply wp_bind, wp_quiet; [auto with pv |]. intros c w4 S4. apply wp_ret, Hnothing; [| done]. etrans; [done |]. by etrans. }
  intros w3 S3. rewrite (same_fs _ _ S12). apply wp_bind, wp_call. intros e' w4 S4 _. assert (S14 : same w w4) by (etrans; [done |]; by etrans).
  eapply (wp_then _ _ _ (fun r w5 => same w w5 /\ (fst r = PV_OK -> snd r = candidates_of (w_fs w) b vault_id maximum (readdir_order (entries (w_fs w) b))))).
  { destruct (negb (is_null e')); [apply wp_ret; by split |]. eapply wp_mono; [apply wp_scan_backups |]. rewrite (same_fs _ _ S14).
    intros r w5 _ [S5 Hr]. split; [by etrans | done]. }
  intros [st5 candidates] w5 _ [S5 Hscan]. cbn [fst snd] in Hscan.
  eapply (wp_then _ _ _ (fun r w6 => pruning_outcome (w_fs w) b oldest w (fst r) w6)).
  { destruct (is_ok st5) eqn:Est; [apply is_ok_iff in Est as -> | apply wp_ret, Hnothing; [done | cbn; by intros ->]].
    rewrite (Hscan eq_refl). pose proof (wp_remove_oldest b vault_id maximum retention w5) as Hrm. cbv zeta in Hrm. rewrite (same_fs _ _ S5) in Hrm.
    eapply wp_mono; [exact Hrm |]. intros r w6 _ (N6 & removed & R). split; [by rewrite N6, (same_next _ _ S5) |]. by exists removed. }
  intros [st6 deleted] w6 _ (N6 & removed & R1 & R2 & R3). cbn [fst] in R3.
  eapply (wp_then _ _ _ (fun _ w7 => w_next w7 = w_next w /\ pruned (w_fs w) b removed (w_fs w7))).
  { destruct deleted; [| by apply wp_ret]. eapply wp_fsync_directory; [reflexivity | | |].
    - exists removed. split; [done | by apply pruned_sync].
    - intros w7 S7 _. by rewrite (same_fs _ _ S7), (same_next _ _ S7).
    - intros w7 F7 N7 _. rewrite F7, N7. split; [done | by apply pruned_sync]. }
  intros synced w7 _ [N7 P7]. cbv zeta. set (st7 := if is_ok st6 && negb synced then PV_ERR_DURABILITY else st6).
  assert (H7 : st7 = PV_OK -> st6 = PV_OK) by (unfold st7; by split_if).
  apply wp_bind, wp_quiet; [auto with pv |]. intros closed w8 S8. apply wp_ret. split; [by rewrite (same_next _ _ S8) |].
  exists removed. rewrite (same_fs _ _ S8). split_and!; [done | done |]. intros E8. apply R3, H7. by split_if_in E8.
Qed.

(** ** Which names are removed *)

(** The generations of the removable backups in the directory. *)
Definition generations (f : fs) (b : Z) (vault_id : list Z) (maximum : Z) : list Z :=
  omap (removable f b vault_id maximum) (map_to_list (entries f b)).*1.

Lemma candidates_generations f b vid max names : (forall name, name ∈ names -> is_Some (entry f b name)) ->
  candidate_generation <$> candidates_of f b vid max names = omap (removable f b vid max) names.
Proof.
  induction names as [| name names IH]; intros Hin; [done |]. rewrite candidates_of_cons. cbn [omap list_omap].
  destruct (Hin name ltac:(left)) as [i Hi]. rewrite Hi. destruct (removable f b vid max name); [| apply IH; intros; apply Hin; by right].
  rewrite fmap_cons. cbn [candidate_generation]. f_equal. apply IH. intros. apply Hin. by right.
Qed.

Lemma surplus_spec `{!HostLaws H} f b vid max retention name : 0 <= retention ->
  name ∈ candidate_name <$> surplus f b vid max retention <->
  exists g, removable f b vid max name = Some g /\ retention <= Z.of_nat (newer g (generations f b vid max)).
Proof.
  intros Hret. unfold surplus. cbv zeta. set (names := readdir_order (entries f b)). set (cands := candidates_of f b vid max names).
  assert (Hperm : names ≡ₚ (map_to_list (entries f b)).*1) by apply readdir_all.
  assert (Hin : forall nm, nm ∈ names <-> is_Some (entry f b nm)).
  { intros nm. rewrite Hperm. rewrite list_elem_of_fmap. split.
    - intros ([k i] & -> & Hk). apply elem_of_map_to_list in Hk. cbn. by exists i.
    - intros [i Hi]. exists (nm, i). split; [done |]. by apply elem_of_map_to_list. }
  assert (Hgens : candidate_generation <$> cands ≡ₚ generations f b vid max).
  { unfold cands. rewrite candidates_generations by (intros; by apply Hin). unfold generations. by rewrite Hperm. }
  assert (Hnames : NoDup names) by (rewrite Hperm; apply NoDup_fst_map_to_list).
  assert (Hnd : NoDup (candidate_generation <$> qsort_candidates cands)).
  { rewrite qsort_perm. apply NoDup_fmap_2_strong; [| by apply candidates_NoDup]. intros c c' Hc Hc'. by apply (candidates_generation f b vid max names). }
  assert (Hlen : length (qsort_candidates cands) = length cands) by (by rewrite qsort_perm).
  assert (Hcand : forall g, removable f b vid max name = Some g -> exists i, mk_candidate name g device i ∈ cands).
  { intros g Hg. assert (is_Some (entry f b name)) as [i Hi].
    { unfold removable in Hg. destruct (parse_automatic_backup_name name) as [[] |]; [| done]. split_if_in Hg; [| done].
      destruct (entry f b name); [done | done]. }
    exists i. apply candidates_of_elem. cbn. split_and!; [by apply Hin | done | done | done]. }
  assert (Hnewer : forall g, newer g (generations f b vid max) = newer g (candidate_generation <$> qsort_candidates cands)).
  { intros g. apply newer_perm. rewrite qsort_perm. by rewrite Hgens. }
  destruct (Z.leb_spec (zlen cands) retention) as [Hle | Hgt].
  - split; [intros Hx; by apply elem_of_nil in Hx |]. intros (g & Hg & Hcount). exfalso. destruct (Hcand g Hg) as [i Hi].
    rewrite Hnewer in Hcount. pose proof (length_filter_lt (fun g' => g < g') (candidate_generation <$> qsort_candidates cands) g) as Hlt.
    unfold newer in Hcount. rewrite length_fmap, Hlen in Hlt. unfold zlen in Hle.
    assert (g ∈ candidate_generation <$> qsort_candidates cands) as Hgin by (rewrite qsort_perm; by apply (list_elem_of_fmap_2 candidate_generation _ _ Hi)).
    specialize (Hlt Hgin (Z.lt_irrefl g)). lia.
  - rewrite zsub_0. set (k := Z.to_nat (zlen cands - retention)). assert (Hk : (k <= length (qsort_candidates cands))%nat) by (unfold k, zlen; lia).
    assert (Htake := take_oldest (qsort_candidates cands) k). rewrite list_elem_of_fmap. split.
    + intros (c & -> & Hc). apply Htake in Hc as [Hc Hcount]; [| apply qsort_sorted | done | done]. rewrite qsort_perm in Hc.
      pose proof Hc as Hc'. apply candidates_of_elem in Hc' as (_ & Hr & _). exists (candidate_generation c). split; [done |]. rewrite Hnewer. rewrite Hlen in Hcount. unfold k, zlen in *. lia.
    + intros (g & Hg & Hcount). destruct (Hcand g Hg) as [i Hi]. exists (mk_candidate name g device i). split; [done |].
      apply Htake; [apply qsort_sorted | done | done |]. split; [by rewrite qsort_perm |]. cbn [candidate_generation]. rewrite <- Hnewer, Hlen. unfold k, zlen in *. lia.
Qed.

End prune.
