(* ===== verification/StoreCommit.v ===== *)
(** * Facts about a save as a whole

    What a reader, or the disk after a crash, finds under a name while a file is
    replaced; the checks before a save, the commit, reading back and
    [save_locked]. *)

From stdpp Require Import gmap.
From S2P Require Import Prelude Status Util Sys Arena Model Cbor Crypto CryptoFacts Posix Config Secure Fs FsFacts Store.
From S2P Require Import StoreOps StoreFacts StoreReads StoreSave StoreNames StorePrune.

(** ** What can be observed under a name *)

(** What a process finds under a name, or finds there after the machine stopped:
    the entry is the one processes see or the one on the disk, and contents that
    were not synced may be anything. *)
Inductive observed (f : fs) (d : Z) (name : list Z) : option (list Z) -> Prop :=
| observed_absent : entry f d name = None \/ durable_entry f d name = None -> observed f d name None
| observed_file i data : entry f d name = Some i \/ durable_entry f d name = Some i ->
    (forall bytes, content f i = Some (bytes, true) -> data = bytes) -> observed f d name (Some data).

(** The entry is absent, or a file whose contents are on the disk. *)
Definition holds (f : fs) (e : option Z) (v : option (list Z)) : Prop :=
  match e, v with
  | None, None => True
  | Some i, Some bytes => content f i = Some (bytes, true)
  | _, _ => False
  end.

(** Only one version can be observed, or one of two. *)
Definition settled (f : fs) (d : Z) (name : list Z) (v : option (list Z)) : Prop :=
  holds f (entry f d name) v /\ holds f (durable_entry f d name) v.
Definition between (f : fs) (d : Z) (name : list Z) (old new : option (list Z)) : Prop :=
  (holds f (entry f d name) old \/ holds f (entry f d name) new) /\
  (holds f (durable_entry f d name) old \/ holds f (durable_entry f d name) new).

Lemma holds_absent f v : holds f None v -> None = v.
Proof. by destruct v. Qed.

Lemma holds_file f i v data :
  (forall bytes, content f i = Some (bytes, true) -> data = bytes) -> holds f (Some i) v -> Some data = v.
Proof. intros Hdata. destruct v as [bytes |]; [| done]. intros Hb. f_equal. by apply Hdata. Qed.

Lemma between_observed f d name old new o : between f d name old new -> observed f d name o -> o = old \/ o = new.
Proof.
  intros [He Hd] [[E | E] | i data [E | E] Hdata]; rewrite E in *; [destruct He | destruct Hd | destruct He | destruct Hd];
    eauto using holds_absent, holds_file.
Qed.

Lemma settled_between_l f d name v u : settled f d name v -> between f d name v u.
Proof. intros [? ?]. split; by left. Qed.

Lemma settled_between_r f d name v u : settled f d name v -> between f d name u v.
Proof. intros [? ?]. split; by right. Qed.

#[export] Hint Resolve settled_between_l settled_between_r : pv.

Lemma holds_extends X f g e v : extends X f g -> holds f e v -> holds g e v.
Proof. intros Hx. destruct e, v; cbn; [| done ..]. by apply Hx. Qed.

(** A settled file stays so when nothing is given up. *)
Lemma settled_extends X f g d name bytes :
  extends X f g -> ~ X d name -> settled f d name (Some bytes) -> settled g d name (Some bytes).
Proof.
  intros Hx HX [He Hd]. destruct (entry f d name) as [i |] eqn:E; [| done].
  destruct (durable_entry f d name) as [j |] eqn:D; [| done]. split.
  - rewrite (ext_entry _ _ _ Hx _ _ _ E HX). by eapply holds_extends.
  - destruct (ext_durable _ _ _ Hx _ _ _ E HX) as [-> | ->]; [rewrite D |]; by eapply holds_extends.
Qed.

(** The versions while a file is replaced. *)
Lemma writing_settled f i d name final no_replace g old :
  writing f i d name final no_replace Before g -> settled f d name old -> settled g d name old.
Proof.
  intros W [He Hd]. destruct (writing_before _ _ _ _ _ _ _ W) as [E D]. pose proof (writing_extends_before _ _ _ _ _ _ _ W) as Hx.
  split; [rewrite E | rewrite D]; by eapply holds_extends.
Qed.

Lemma writing_new f i d name final no_replace s g :
  writing f i d name final no_replace s g -> s <> Before -> i_safe final = true -> holds g (entry g d name) (Some (i_data final)).
Proof.
  intros W Hs Hf. destruct (writing_published _ _ _ _ _ _ _ _ W Hs) as (E & N & _). rewrite E. cbn. unfold content.
  rewrite N. cbn. by rewrite Hf.
Qed.

Lemma writing_between f i d name final no_replace s g old :
  writing f i d name final no_replace s g -> settled f d name old -> i_safe final = true ->
  between g d name old (Some (i_data final)).
Proof.
  intros W Hold Hf. destruct s; [by apply settled_between_l, (writing_settled _ _ _ _ _ _ _ _ W) | |];
    (split; [right; by eapply writing_new |]);
    destruct (writing_published _ _ _ _ _ _ _ _ W ltac:(done)) as (E & N & _ & [D | D] & _); rewrite D;
    try (left; eapply holds_extends; [by eapply writing_extends | apply Hold]); right; rewrite <- E; by eapply writing_new.
Qed.

Lemma writing_durable f i d name final no_replace g :
  writing f i d name final no_replace Durable g -> i_safe final = true -> settled g d name (Some (i_data final)).
Proof.
  intros W Hf. destruct (writing_published _ _ _ _ _ _ _ _ W ltac:(done)) as (E & N & _ & _ & D & _). split; [by eapply writing_new |].
  rewrite D, <- E by done. by eapply writing_new.
Qed.

(** The new file has one name. *)
Lemma writing_unique f i d name final no_replace s g d' name' :
  writing f i d name final no_replace s g -> fs_ok f i -> s <> Before -> entry g d' name' = Some i -> d' = d /\ name' = name.
Proof.
  intros W [_ He _] Hs E.
  destruct W as [| | | v Hu Hn | v Hu Hn]; try done; [| change (entry (renamed f d (temporary_name name v) name i final) d' name' = Some i) in E];
    rewrite renamed_entry in E by auto using temporary_name_ne; destruct (decide (d' = d /\ name' = name)); try done;
    apply He in E; lia.
Qed.

(** Inodes other than the new one and the replaced one stay. *)
Lemma writing_inode f i d name final no_replace s g j :
  writing f i d name final no_replace s g -> j <> i -> entry f d name <> Some j -> f_inodes g !! j = f_inodes f !! j.
Proof.
  intros W Hj He.
  assert (Hren : forall v, unused f d (temporary_name name v) i -> f_inodes (renamed f d (temporary_name name v) name i final) !! j = f_inodes f !! j).
  { intros v Hu. rewrite renamed_eq by auto using temporary_name_ne. cbv zeta.
    destruct (entry f d name) as [k |]; [rewrite inode_drop_link, decide_False by congruence |]; by apply with_file_other. }
  destruct W; [done | by apply with_file_other | by apply unlinked_inode | by apply Hren | by apply Hren].
Qed.

(** ** Sealing *)

Definition calm_status (w : cbor_writer) : Prop := w_status w <> PV_ERR_DURABILITY.

Section status.

Lemma writer_bytes_status w data len : calm_status w -> calm_status (writer_bytes w data len).
Proof.
  intros H. unfold writer_bytes. do 2 (split_if; [done |]). destruct data; [| done]. destruct (pv_size_add _ _); [| done]. by split_if.
Qed.

Lemma writer_type_value_status w m v : calm_status w -> calm_status (writer_type_value w m v).
Proof. intros H. unfold writer_type_value, writer_u8. cbv zeta. repeat split_if; by apply writer_bytes_status. Qed.

Lemma writer_blob_status w m s : calm_status w -> calm_status (writer_blob w m s).
Proof. intros H. by apply writer_bytes_status, writer_type_value_status. Qed.

Lemma fold_status {A} (step : cbor_writer -> A -> cbor_writer) l w :
  (forall w x, calm_status w -> calm_status (step w x)) -> calm_status w -> calm_status (fold_left step l w).
Proof. intros Hs. revert w. induction l as [| x l IH]; intros w H; cbn; auto. Qed.

Hint Resolve writer_type_value_status writer_blob_status : core.

Lemma encode_field_status w f : calm_status w -> calm_status (encode_field w f).
Proof. intros H. unfold encode_field, writer_map, writer_uint. cbv zeta. auto 20. Qed.

Hint Resolve encode_field_status : core.

Lemma encode_record_status w r : calm_status w -> calm_status (encode_record w r).
Proof.
  intros H. unfold encode_record, encode_texts, writer_map, writer_array, writer_uint. cbv zeta.
  repeat first [apply fold_status; [solve [auto] |] | apply writer_type_value_status | apply writer_blob_status | done].
Qed.

Lemma encode_vault_status w v : calm_status w -> calm_status (encode_vault w v).
Proof.
  intros H. unfold encode_vault, writer_map, writer_array, writer_uint. cbv zeta. apply fold_status; [apply encode_record_status |]. auto 20.
Qed.

End status.

Lemma validate_fields_status l : validate_fields l <> PV_ERR_DURABILITY.
Proof. induction l; cbn [validate_fields]; [done |]. by repeat split_if. Qed.

Lemma validate_texts_status max l : validate_texts max l <> PV_ERR_DURABILITY.
Proof. induction l; cbn [validate_texts]; [done |]. by repeat split_if. Qed.

Lemma validate_record_status r : pv_model_validate_record r <> PV_ERR_DURABILITY.
Proof.
  unfold pv_model_validate_record, validate_record_fields. cbv zeta.
  pose proof validate_fields_status. pose proof validate_texts_status. by repeat split_if.
Qed.

Lemma validate_status v records : validate_records v records <> PV_ERR_DURABILITY.
Proof.
  induction records as [| r records IH]; cbn [validate_records]; [done |]. cbv zeta. split_if; [| done]. apply validate_record_status.
Qed.

Section seal.
Context `{Sodium}.

(** A computation that returned at once. *)
Ltac ret_done E := unfold mret, M_ret in E; simplify_eq; split; [done |]; first [done | by intros ->].

Lemma key_alloc_status s : fst (secure_key_alloc s) <> PV_ERR_DURABILITY.
Proof. unfold secure_key_alloc. rewrite bind_run. destruct (sodium_malloc s) as [[] s1]; [| done]. cbn [negb]. rewrite bind_run. by destruct (sodium_mlock s1) as [[] s2]. Qed.

Lemma encrypt_status h vmk p s st h' c s' :
  pv_crypto_encrypt_body h vmk p s = ((st, h', c), s') ->
  st <> PV_ERR_DURABILITY /\ (st = PV_OK -> exists bytes, c = Some bytes /\ 0 < zlen bytes).
Proof.
  intros E. unfold pv_crypto_encrypt_body in E. cbv zeta in E. split_if_in E; [ret_done E |]. pose proof (zlen_nonneg p).
  unfold pv_size_add in E. destruct (SIZE_MAX - zlen p <? 4); [ret_done E |]. do 2 (split_if_in E; [ret_done E |]).
  set (padded := Z.land _ _) in *. assert (0 <= padded) by (apply Z.land_nonneg; left; lia).
  run_bind E. pose proof (key_alloc_status s) as Hk. rewrite Heqp0 in Hk. cbn [fst] in Hk. destruct (is_ok x) eqn:Ex; cbn [negb] in E; [| ret_done E].
  unfold body_key in E. destruct (crypto_kdf_derive _ _ _); cbn [is_ok negb] in E; [| ret_done E]. do 3 run_bind E.
  destruct x2; cbn [negb] in E; [| ret_done E]. do 2 run_bind E. destruct (aead_encrypt _ _ _ _) as [bytes |]; [| ret_done E].
  split_if_in E; [ret_done E |]. unfold mret, M_ret in E. simplify_eq. split; [done |]. intros _. exists bytes. split; [done |].
  cbn [set_body h_body_ciphertext_len] in *. unfold PV_BODY_TAG_BYTES in *. lia.
Qed.

Lemma encode_status v s : fst (fst (pv_cbor_encode v s)) <> PV_ERR_DURABILITY.
Proof.
  unfold pv_cbor_encode. do 2 (split_if; [done |]). cbv zeta. pose proof (validate_status v (v_records v)). split_if; [done |].
  rewrite bind_run. destruct (sodium_malloc s) as [[] s1]; [| done]. cbn [negb]. rewrite bind_run. destruct (sodium_mlock s1) as [[] s2]; [| done]. cbn [negb].
  assert (calm_status (encode_vault (mk_writer [] PV_MAX_PLAINTEXT PV_OK) v)) by by apply encode_vault_status. by split_if.
Qed.

Lemma seal_status v h s st h' hb ct s' :
  seal_vault v h s = ((st, h', hb, ct), s') ->
  st <> PV_ERR_DURABILITY /\
  (st = PV_OK -> 0 < zlen ct /\ hb = serialized_header h' /\ exists encoded s1,
     pv_cbor_encode v s = ((PV_OK, encoded), s1) /\ pv_crypto_encrypt_body h (vmk_bytes v) (default [] encoded) s1 = ((PV_OK, h', Some ct), s')).
Proof.
  intros E. unfold seal_vault in E. run_bind E. destruct x as [st1 encoded]. pose proof (encode_status v s) as H1. rewrite Heqp in H1. cbn [fst] in H1.
  destruct (is_ok st1) eqn:E1; cbn [negb] in E; [| ret_done E]. apply is_ok_iff in E1 as ->.
  run_bind E. destruct x as [[st2 h2] c]. destruct (encrypt_status _ _ _ _ _ _ _ _ Heqp0) as [H2 Hc].
  unfold mret, M_ret in E. simplify_eq. split; [done |]. intros ->. destruct (Hc eq_refl) as (bytes & -> & Hb). cbn. split_and!; eauto.
Qed.

End seal.

(** ** The checks before a save *)

Section save.
Context `{Host} `{Sodium} `{Libcbor}.

Lemma wp_path_exists (J : fs -> Prop) d name w (Q : pv_status * bool -> world -> Prop) :
  (forall st e w', same w w' -> st <> PV_ERR_DURABILITY -> (e = true -> is_Some (entry (w_fs w) d name)) ->
     (calm w -> entry (w_fs w) d name = None -> st = PV_OK /\ e = false) ->
     (calm w -> forall i n, entry (w_fs w) d name = Some i -> f_inodes (w_fs w) !! i = Some n -> st = PV_OK /\ e = true) -> Q (st, e) w') ->
  wp J (path_entry_exists_at d name) Q w.
Proof.
  intros HQ. apply wp_bind, wp_fstatat. intros r w1 S1 Hst Hcalm. apply wp_ret.
  destruct r as [s | e]; [destruct (Hst s eq_refl) as (i & n & Ei & _) | case_bool_decide]; apply HQ; try done; try (intros _; by exists i);
    intros Hc; specialize (Hcalm Hc); intros; repeat case_match; intuition congruence.
Qed.

(** The file a save replaces, and what it is checked against. *)
Definition current_ok (f : fs) (d : Z) (name : list Z) (vault : pv_vault) (disk : pv_disk_file) : Prop :=
  exists i n, disk_of f d name i n disk /\ access_bits (i_mode n) = 384 /\ disk_hash disk = v_source_hash vault /\
    h_vault_id (disk_header disk) = v_vault_id vault.

Definition loadable (f : fs) (d : Z) (name : list Z) (vault : pv_vault) (create_only : bool) : Prop :=
  v_generation vault <> UINT64_MAX /\
  if create_only then entry f d name = None else exists disk, current_ok f d name vault disk.

Definition loaded_from (f : fs) (d : Z) (name : list Z) (vault : pv_vault) (create_only : bool) (current : option pv_disk_file) : Prop :=
  match current with
  | None => create_only = true
  | Some disk => create_only = false /\ current_ok f d name vault disk
  end.

Lemma wp_load_current (J : fs -> Prop) d name vault create_only w (Q : pv_status + option pv_disk_file -> world -> Prop) :
  (forall st w', same w w' -> st <> PV_OK -> st <> PV_ERR_DURABILITY -> (calm w -> ~ loadable (w_fs w) d name vault create_only) -> Q (inl st) w') ->
  (forall current w', same w w' -> v_generation vault <> UINT64_MAX -> loaded_from (w_fs w) d name vault create_only current -> Q (inr current) w') ->
  wp J (load_current (location_at d name) vault create_only) Q w.
Proof.
  intros Herr Hok. unfold load_current. cbn [location_at directory_fd location_name].
  destruct (Z.eqb_spec (v_generation vault) UINT64_MAX) as [Eg | Eg]; [apply wp_ret, Herr; try done; by intros _ [? _] |].
  apply wp_bind, wp_path_exists. intros st e w1 S1 Hst _ Hno Hyes.
  assert (Hcur : calm w -> forall disk, current_ok (w_fs w) d name vault disk -> st = PV_OK /\ e = true).
  { intros Hc disk (i & n & D & _). eapply Hyes; [done | apply D | apply D]. }
  destruct (is_ok st) eqn:Est; cbn [negb].
  2: { apply wp_ret, Herr; [done | by intros -> | done |]. intros Hc [_ Hl]. destruct create_only.
       - by destruct (Hno Hc Hl) as [-> _].
       - destruct Hl as [disk Hd]. by destruct (Hcur Hc disk Hd) as [-> _]. }
  apply is_ok_iff in Est as ->. destruct create_only, e; cbn [andb orb negb].
  - apply wp_ret, Herr; [done | done | done |]. intros Hc [_ Hl]. by destruct (Hno Hc Hl).
  - by apply wp_ret, Hok.
  - apply wp_bind, wp_read_disk_file_at; rewrite (same_fs _ _ S1).
    + intros st w2 S2 Hst2 Hst2' Hcalm. destruct (is_ok st) eqn:E2; [by apply is_ok_iff in E2 |]. cbn [negb]. apply wp_ret, Herr; [by etrans | done | done |].
      intros Hc [_ (disk & i & n & D & _)]. eapply Hcalm; [eauto with calm | exact D].
    + intros i n disk w2 S2 D. cbn [is_ok negb]. rewrite (do_stat _ _ _ _ _ _ D). cbn [stat_of st_mode].
      assert (Huniq : forall disk', current_ok (w_fs w) d name vault disk' -> access_bits (i_mode n) = 384 /\ disk_hash disk = v_source_hash vault /\
        h_vault_id (disk_header disk) = v_vault_id vault).
      { intros disk' (i' & n' & D' & HD). by destruct (disk_of_unique _ _ _ _ _ _ _ _ _ D' D) as (-> & -> & ->). }
      destruct (Z.eqb_spec (access_bits (i_mode n)) 384) as [Ea | Ea]; cbn [negb].
      2: { apply wp_ret, Herr; [by etrans | done | done |]. intros _ [_ [disk' Hd]]. by apply Huniq in Hd as []. }
      destruct (bytes_eqb (disk_hash disk) (v_source_hash vault)) eqn:Eh; [| cbn [negb orb]; apply wp_ret, Herr; [by etrans | done | done |];
        intros _ [_ [disk' (_ & Hd & _)%Huniq]]; by apply bytes_eqb_neq in Eh].
      destruct (bytes_eqb (h_vault_id (disk_header disk)) (v_vault_id vault)) eqn:Ev; [| cbn [negb orb]; apply wp_ret, Herr; [by etrans | done | done |];
        intros _ [_ [disk' (_ & _ & Hd)%Huniq]]; by apply bytes_eqb_neq in Ev].
      apply bytes_eqb_eq in Eh, Ev. cbn [negb orb]. apply wp_ret, Hok; [by etrans | done |]. split; [done |]. exists i, n. by split_and!.
  - apply wp_ret, Herr; [done | done | done |]. intros Hc [_ [disk Hd]]. by destruct (Hcur Hc disk Hd).
Qed.

Lemma quiet_load_current d name vault create_only : quiet (load_current (location_at d name) vault create_only).
Proof.
  intros w. apply (wp_load_current (fun _ => True)) with (Q := fun _ w' => same w w'); auto.
Qed.

(** ** The commit *)

(** What the commit leaves: the file system is well formed, nothing but the name
    is given up, and the status tells which version the name holds. *)
Record committed (w : world) (d : Z) (name : list Z) (old : option (list Z)) (new : list Z) (st : pv_status) (backups : option Z)
    (w' : world) : Prop := mk_committed {
  cm_ok : world_ok w';
  cm_next : w_next w <= w_next w';
  cm_extends : extends (only d name) (w_fs w) (w_fs w');
  cm_new : st = PV_OK -> settled (w_fs w') d name (Some new);
  cm_visible : st = PV_OK \/ st = PV_ERR_DURABILITY -> exists i, entry (w_fs w') d name = Some i /\
    f_inodes (w_fs w') !! i = Some (finished created_inode new) /\ inode_private created_inode = true /\
    (forall d' name', entry (w_fs w') d' name' = Some i -> d' = d /\ name' = name);
  cm_between : between (w_fs w') d name old (Some new);
  cm_old : st <> PV_OK -> st <> PV_ERR_DURABILITY -> settled (w_fs w') d name old;
  cm_backups b : backups = Some b -> b <> d;
  cm_directory n : f_inodes (w_fs w) !! d = Some n -> f_inodes (w_fs w') !! d = Some n
}.

(** The directory of the backups is not the directory of the vault. *)
Lemma backups_apart d b w : world_ok w -> entry (w_fs w) d (cstr "backups") = Some b -> b <> d.
Proof. intros Hok E. by apply (ok_entry _ _ Hok) in E as (_ & ? & _). Qed.

Lemma temporary_not_backups name v : temporary_name name v <> cstr "backups".
Proof.
  intros E. apply (f_equal length) in E. unfold temporary_name, hex8 in E. rewrite !length_app in E. cbn [concat map] in E.
  rewrite !length_app in E. change (length (cstr "backups")) with 7%nat in E. change (length (cstr ".tmp.")) with 5%nat in E.
  unfold hex_digits in E. cbn [length] in E. lia.
Qed.

(** Enough for a commit to succeed in a calm world. *)
Definition can_commit (w : world) (path : list Z) (d : Z) (name : list Z) (vault : pv_vault) (current : option pv_disk_file)
    (generation : Z) (create_only : bool) : Prop :=
  leads_to w path d name /\ temporaries_free (w_fs w) d name /\ inode_private created_inode = true /\
  (create_only = true -> entry (w_fs w) d name = None) /\
  (current <> None -> can_backup (w_fs w) d (v_vault_id vault) generation).

(** The backup leaves what the commit needs. *)
Lemma backup_keeps_commit w w' d name path :
  world_ok w -> d < w_next w -> calm w -> calmly w w' -> adds (backup_names w' d) (backup_inodes w d) w w' ->
  leads_to w path d name -> temporaries_free (w_fs w) d name -> leads_to w' path d name /\ temporaries_free (w_fs w') d name.
Proof.
  intros Hok Hd Hc Hcalm A (parent & E & Hr & (n & Hn & Hg)) [Hlen Hfree]. pose proof (adds_ok _ _ _ _ A) as Hok'. split.
  - exists parent. destruct (Hcalm Hc) as [_ Hp]. rewrite Hp. split_and!; [done | done |]. exists n. split; [| done].
    rewrite (agree_inode _ _ _ _ (adds_agree _ _ _ _ A)); [done |]. intros [Hi | Hi]; [lia |]. by apply backups_apart in Hi.
  - split; [done |]. intros v. rewrite (agree_entry _ _ _ _ (adds_agree _ _ _ _ A)); [done |].
    intros [[_ Hx] | Hx]; [by apply temporary_not_backups in Hx | by apply backups_apart in Hx].
Qed.

Lemma committed_failure w d name old new st backups w' :
  world_ok w' -> w_next w <= w_next w' -> extends (only d name) (w_fs w) (w_fs w') -> settled (w_fs w') d name old ->
  st <> PV_OK -> st <> PV_ERR_DURABILITY -> (forall b, backups = Some b -> b <> d) -> (forall n, f_inodes (w_fs w) !! d = Some n -> f_inodes (w_fs w') !! d = Some n) ->
  committed w d name old new st backups w'.
Proof. intros Hok Hn Hx Hs Hne Hnd Hb Hdir. split; auto with pv; [done |]. intros [? | ?]; done. Qed.

(** The replacement of the file. *)
Lemma wp_replace d name hb ct create_only old backups w0 w :
  world_ok w -> d < w_next w -> 0 < zlen ct -> w_next w0 <= w_next w -> extends (only d name) (w_fs w0) (w_fs w) ->
  settled (w_fs w) d name old -> (forall b, backups = Some b -> b <> d) ->
  (forall n, f_inodes (w_fs w0) !! d = Some n -> f_inodes (w_fs w) !! d = Some n) ->
  wp (fun g => between g d name old (Some (hb ++ ct))) (write_atomic_at (location_at d name) hb ct create_only)
    (fun st w' => committed w0 d name old (hb ++ ct) st backups w' /\ extends (only d name) (w_fs w) (w_fs w') /\
       (calm w -> can_write (w_fs w) d name (finished created_inode (hb ++ ct)) create_only -> st = PV_OK)) w.
Proof.
  intros Hok Hd Hlen Hn Hx Hold Hb Hdir. pose proof (wp_write_atomic_at (location_at d name) hb ct create_only w Hok Hd Hlen) as Hw.
  cbn [location_at directory_fd location_name] in Hw. cbv zeta in Hw. set (final := finished created_inode (hb ++ ct)) in *.
  eapply wp_weaken; [eapply wp_mono; [exact Hw |] |].
  2: { intros g [s W]. by eapply (writing_between _ _ _ _ _ _ _ _ _ W). }
  intros st w' _ (Hnext & Hok' & Hout & Hlive). cbn beta.
  assert (exists s, writing (w_fs w) (w_next w) d name final create_only s (w_fs w') /\ (s = Before -> st <> PV_OK /\ st <> PV_ERR_DURABILITY) /\
    (s <> Before -> inode_private final = true /\ (st = PV_OK \/ st = PV_ERR_DURABILITY)) /\ (s = Durable <-> st = PV_OK)) as (s & W & Hs1 & Hs2 & Hs3).
  { destruct Hout as [(-> & W & Hp) | [(-> & W & Hp) | (Hne & Hnd & W)]]; eexists; (split; [exact W |]); intuition congruence. }
  pose proof (writing_extends _ _ _ _ _ _ _ _ W) as Hxw. split_and!; [| done | done]. split; [done | lia | by etrans | | | | | done |].
  - intros ->. assert (s = Durable) as -> by by apply Hs3. by apply (writing_durable _ _ _ _ _ _ _ W).
  - intros Hst. assert (s <> Before) as Hb' by (intros ->; intuition congruence). destruct (writing_published _ _ _ _ _ _ _ _ W Hb') as (E & N & _).
    exists (w_next w). split_and!; [done | done | by apply Hs2 | intros ? ? Hu; by eapply (writing_unique _ _ _ _ _ _ _ _ _ _ W)].
  - by eapply (writing_between _ _ _ _ _ _ _ _ _ W).
  - intros Hne Hnd. assert (s = Before) as -> by (destruct s; [done | | ]; intuition congruence). by apply (writing_settled _ _ _ _ _ _ _ _ W).
  - intros n Hdn. rewrite (writing_inode _ _ _ _ _ _ _ _ _ W); [by apply Hdir | lia |]. intros E. by apply (ok_entry _ _ Hok) in E as (_ & ? & _).
Qed.

(** The previous version is kept as a backup. *)
Definition previous_kept (w : world) (d : Z) (name : list Z) (vault_id : list Z) (generation : Z) (current : option pv_disk_file) (st : pv_status)
    (backups : option Z) (w' : world) : Prop :=
  forall disk bname, current = Some disk -> st = PV_OK \/ st = PV_ERR_DURABILITY -> format_automatic_backup_name vault_id generation = (PV_OK, bname) ->
  exists b, backups = Some b /\ has_copy (w_fs w) (w_fs w') b bname (disk_hash disk) /\
    (name <> cstr "backups" -> entry (w_fs w') d (cstr "backups") = Some b).

Lemma disk_hash_bytes f d name i n disk : disk_of f d name i n disk ->
  crypto_generichash (disk_header_bytes disk ++ disk_ciphertext disk) = Some (disk_hash disk).
Proof. intros [_ _ _ _ D5 _ _ _ D9]. by rewrite D5 in D9. Qed.

Lemma disk_nonempty f d name i n disk : disk_of f d name i n disk -> 0 < zlen (disk_ciphertext disk).
Proof. intros [_ _ _ _ _ _ D7 D8 _]. pose proof (header_decode_body_len _ _ D7). lia. Qed.

Lemma settled_some f d name i old : settled f d name old -> entry f d name = Some i -> exists bytes, old = Some bytes.
Proof. intros [He _] E. rewrite E in He. destruct old; [eauto | done]. Qed.

(** From the backup on. *)
Lemma wp_after_backup d name vault create_only hb ct old backups st w0 w :
  world_ok w -> d < w_next w -> (st = PV_OK -> 0 < zlen ct) -> st <> PV_ERR_DURABILITY -> w_next w0 <= w_next w ->
  extends (only d name) (w_fs w0) (w_fs w) ->
  settled (w_fs w) d name old -> (forall b, backups = Some b -> b <> d) ->
  (forall n, f_inodes (w_fs w0) !! d = Some n -> f_inodes (w_fs w) !! d = Some n) ->
  wp (fun g => between g d name old (Some (hb ++ ct)))
    (valid ← (if is_ok st then revalidate_store_location (v_path vault) (location_at d name) else mret PV_OK);
     let status := if negb (is_ok valid) then PV_ERR_LOCKED else st in
     status ← (if is_ok status then write_atomic_at (location_at d name) hb ct create_only else mret status);
     mret (status, backups))
    (fun r w' => snd r = backups /\ committed w0 d name old (hb ++ ct) (fst r) backups w' /\ extends (only d name) (w_fs w) (w_fs w') /\
       (fst r = PV_OK \/ fst r = PV_ERR_DURABILITY -> st = PV_OK) /\
       (calm w -> st = PV_OK -> leads_to w (v_path vault) d name -> temporaries_free (w_fs w) d name -> inode_private created_inode = true ->
        (create_only = true -> entry (w_fs w) d name = None) -> fst r = PV_OK)) w.
Proof.
  intros Hok Hd Hlen Hst Hn Hx Hold Hb Hdir.
  eapply (wp_then _ _ _ (fun valid w1 => same w w1 /\ (calm w -> leads_to w (v_path vault) d name -> valid = PV_OK))).
  { destruct (is_ok st); [| by apply wp_ret]. apply wp_revalidate. auto. }
  intros valid w1 C1 [S1 Hvalid]. cbv zeta. set (st1 := if negb (is_ok valid) then PV_ERR_LOCKED else st).
  assert (Hst1 : st1 = PV_OK -> st = PV_OK) by (unfold st1; by split_if). assert (st1 <> PV_ERR_DURABILITY) as Hnd by (unfold st1; by split_if).
  assert (world_ok w1) as Hok1 by by eapply world_ok_same. rewrite <- (same_fs _ _ S1) in Hx, Hold, Hdir. rewrite <- (same_next _ _ S1) in Hd, Hn.
  assert (Hlive1 : calm w -> st = PV_OK -> leads_to w (v_path vault) d name -> st1 = PV_OK).
  { intros Hc -> Hl. unfold st1. by rewrite Hvalid. }
  destruct (is_ok st1) eqn:E1.
  - apply is_ok_iff in E1. eapply wp_then; [apply (wp_replace d name hb ct create_only old backups w0); auto |].
    intros st2 w2 C2 (Hcm & Hx2 & Hlive). apply wp_ret. cbn [fst snd]. rewrite <- (same_fs _ _ S1). split_and!; [done | done | done | auto |].
    intros Hc _ Hl Hf Hp Hno. apply Hlive; [eauto with calm |]. by split_and!.
  - apply wp_bind, wp_ret, wp_ret. cbn [fst snd]. assert (st1 <> PV_OK) by by intros E; rewrite E in E1.
    split_and!; [done | by apply committed_failure | by rewrite (same_fs _ _ S1) | by intros [? | ?] |].
    intros Hc Hok' Hl. by rewrite Hlive1 in E1.
Qed.

Lemma wp_commit_save d name vault current generation create_only st hb ct old w :
  world_ok w -> d < w_next w -> loaded_from (w_fs w) d name vault create_only current -> (st = PV_OK -> 0 < zlen ct) ->
  st <> PV_ERR_DURABILITY -> settled (w_fs w) d name old ->
  wp (fun g => between g d name old (Some (hb ++ ct))) (commit_save (location_at d name) vault current generation create_only st hb ct)
    (fun r w' => committed w d name old (hb ++ ct) (fst r) (snd r) w' /\
       previous_kept w d name (v_vault_id vault) generation current (fst r) (snd r) w' /\
       (fst r = PV_OK \/ fst r = PV_ERR_DURABILITY -> st = PV_OK) /\
       (calm w -> st = PV_OK -> can_commit w (v_path vault) d name vault current generation create_only -> fst r = PV_OK)) w.
Proof.
  intros Hok Hd Hload Hlen Hst Hold. unfold commit_save.
  destruct current as [disk |].
  2: { apply wp_bind, wp_ret. eapply wp_mono; [apply (wp_after_backup d name vault create_only hb ct old None st w); auto; done |].
       intros [st' bd] w' _ (Ebd & Hcm & _ & Hno' & Hlive). cbn [fst snd] in *. subst bd. split_and!; [done | done | done |].
       intros Hc E (Hl & Hf & Hp & Hno & _). by apply Hlive. }
  destruct Hload as [-> (i & n & D & _)]. destruct (settled_some _ _ _ _ _ Hold (do_entry _ _ _ _ _ _ D)) as [bytes ->].
  destruct (is_ok st) eqn:Est.
  2: { assert (st <> PV_OK) by by intros ->. apply wp_bind, wp_ret.
       eapply wp_mono; [apply (wp_after_backup d name vault false hb ct (Some bytes) None st w); auto; done |].
       intros [st' bd] w' _ (Ebd & Hcm & _ & Hno & Hlive). cbn [fst snd] in *. subst bd. split_and!; [done | | done | done].
       intros disk' bname _ Hst' _. by specialize (Hno Hst'). }
  apply is_ok_iff in Est as ->.
  eapply wp_then.
  { eapply wp_weaken; [apply (wp_automatic_backup (location_at d name) vault disk generation w Hok Hd (disk_nonempty _ _ _ _ _ _ D)) |].
    intros g Hg. apply settled_between_l. eapply settled_extends; [exact Hg | | exact Hold]. intros []. }
  intros [st1 backups] w1 C1 (A & Hst1 & Hbd & Hsome & Hlive1 & Hcopy). cbn [fst snd location_at directory_fd] in *.
  assert (Hapart : forall b, backups = Some b -> b <> d) by (intros b Eb; eapply backups_apart; [apply A | by apply Hbd]).
  pose proof (adds_next _ _ _ _ A) as Hnext. pose proof (adds_extends _ _ _ _ A) as Hx.
  eapply wp_mono; [apply (wp_after_backup d name vault false hb ct (Some bytes) backups st1 w w1); auto with pv |].
  - apply A.
  - lia.
  - eapply settled_extends; [exact Hx | | exact Hold]. intros [].
  - intros n' Hn'. rewrite (agree_inode _ _ _ _ (adds_agree _ _ _ _ A)); [done |]. intros [Hi | Hi]; [cbn in *; lia |]. by apply backups_apart in Hi.
  - intros [st2 bd] w2 C2 (Ebd & Hcm & Hx2 & Hst2 & Hlive2). cbn [fst snd] in *. subst bd. split_and!; [done | | done |].
    + intros disk' bname [= <-] Hst' Hf. specialize (Hst2 Hst'). destruct (Hsome Hst2) as [b Eb]. exists b. split_and!; [done | |].
      * eapply has_copy_extends; [exact Hx2 | | eapply Hcopy; eauto using disk_hash_bytes]. intros [Hbd' _]. by apply (Hapart b).
      * intros Hname. eapply ext_entry; [exact Hx2 | by apply Hbd |]. intros [_ E]. by apply Hname.
    + intros Hc _ (Hl & Hf & Hp & _ & Hcan). assert (calm w1) as Hc1 by eauto with calm.
      destruct (backup_keeps_commit w w1 d name (v_path vault) Hok Hd Hc C1 A Hl Hf) as [Hl1 Hf1].
      apply Hlive2; try done. by apply Hlive1, Hcan.
Qed.

(** ** After the commit *)

(** The bytes of a file that can be read back. *)
Definition file_image (hb ct : list Z) (header : pv_file_header) : Prop :=
  zlen hb = PV_FILE_HEADER_LEN /\ pv_header_decode hb = (PV_OK, header) /\ zlen ct = h_body_ciphertext_len header /\
  is_Some (crypto_generichash (hb ++ ct)).

Lemma image_disk f d name i n hb ct header :
  entry f d name = Some i -> f_inodes f !! i = Some n -> inode_private n = true -> i_data n = hb ++ ct -> file_image hb ct header ->
  exists disk, disk_of f d name i n disk /\ disk_header_bytes disk = hb /\ disk_ciphertext disk = ct /\ disk_header disk = header /\
    crypto_generichash (hb ++ ct) = Some (disk_hash disk).
Proof.
  intros E N P Hdata (I1 & I2 & I3 & [hash I4]). exists (mk_disk_file hb header ct hash (stat_of i n)). split_and!; try done. split; try done.
  by rewrite Hdata.
Qed.

Lemma wp_read_back (J : fs -> Prop) d name vault hb ct warning w (Q : bool * pv_vault * bool -> world -> Prop) :
  (forall verified hash warning' w', same w w' -> (verified = true -> crypto_generichash (hb ++ ct) = Some hash) ->
     (warning' = false -> warning = false /\ verified = true) ->
     (calm w -> leads_to w (v_path vault) d name -> (exists i n header, entry (w_fs w) d name = Some i /\ f_inodes (w_fs w) !! i = Some n /\
        inode_private n = true /\ i_data n = hb ++ ct /\ file_image hb ct header) -> verified = true /\ warning' = warning) ->
     Q (verified, (if verified then set_source_hash vault hash else vault), warning') w') ->
  wp J (read_back (location_at d name) vault hb ct warning) Q w.
Proof.
  intros HQ. unfold read_back. cbn [location_at directory_fd location_name]. apply wp_bind, wp_read_disk_file_at.
  - intros st w1 S1 Hst _ Hcalm. destruct (is_ok st) eqn:Est; [by apply is_ok_iff in Est |]. cbn [andb].
    apply wp_bind, wp_revalidate. intros valid w2 S2 _. apply wp_ret. cbn [negb]. rewrite orb_true_r. cbn [orb].
    apply (HQ false []); [by etrans | done | done |]. intros Hc _ (i & n & h & E & N & P & Hd & Hi).
    destruct (image_disk _ _ _ _ _ _ _ _ E N P Hd Hi) as (disk & D & _). by destruct (Hcalm Hc _ _ _ D).
  - intros i n disk w1 S1 D. cbn [is_ok andb].
    set (verified := (zlen (disk_ciphertext disk) =? zlen ct) && _ && _).
    assert (Hv : verified = true -> crypto_generichash (hb ++ ct) = Some (disk_hash disk)).
    { unfold verified. rewrite !andb_true_iff, !bytes_eqb_eq. intros [[_ <-] <-]. by eapply disk_hash_bytes. }
    assert (Hpath : v_path (if verified then set_source_hash vault (disk_hash disk) else vault) = v_path vault) by by destruct verified.
    rewrite Hpath. apply wp_bind, wp_revalidate. intros valid w2 S2 Hvalid. apply wp_ret. apply HQ; [by etrans | done | |].
    + rewrite !orb_false_iff, negb_false_iff. tauto.
    + intros Hc Hl (j & m & h & E & N & P & Hdata & Hi). destruct (image_disk _ _ _ _ _ _ _ _ E N P Hdata Hi) as (disk' & D' & Eh & Ec & _).
      destruct (disk_of_unique _ _ _ _ _ _ _ _ _ D D') as (_ & _ & ->). rewrite Hvalid; [| eauto with calm | by eapply leads_to_same].
      assert (verified = true) as -> by (unfold verified; by rewrite Eh, Ec, Z.eqb_refl, !bytes_eqb_refl).
      cbn [is_ok negb]. by rewrite !orb_false_r.
Qed.

(** The in-memory vault after a verified save. *)
Record vault_saved (vault vault' : pv_vault) (new : list Z) : Prop := mk_vault_saved {
  vs_generation : v_generation vault' = u64 (v_generation vault + 1);
  vs_dirty : v_dirty vault' = false;
  vs_hash : crypto_generichash new = Some (v_source_hash vault');
  vs_records : v_records vault' = v_records vault;
  vs_identity : v_vault_id vault' = v_vault_id vault /\ v_device_id vault' = v_device_id vault /\ v_vmk vault' = v_vmk vault /\
    v_created_ms vault' = v_created_ms vault /\ v_path vault' = v_path vault;
  vs_arena : v_record_capacity vault' = v_record_capacity vault /\
    exists s, v_arena vault' = snd (fst (pv_arena_set_readonly (v_arena vault) s))
}.

(** The newest backup is not removed. *)
Lemma newest_kept `{!HostLaws H} f b vid max retention :
  1 <= retention -> backup_id vid max -> backup_name vid max ∉ candidate_name <$> surplus f b vid max retention.
Proof.
  intros Hret Hid Hin. apply surplus_spec in Hin as (g & Hg & Hcount); [| lia]. apply removable_parse in Hg as (E & Hid' & Hle).
  assert (parse_automatic_backup_name (backup_name vid max) = Some (vid, g)) as Hp by by apply parse_spec.
  assert (parse_automatic_backup_name (backup_name vid max) = Some (vid, max)) as Hp' by by apply parse_spec.
  rewrite Hp in Hp'. simplify_eq. rewrite newer_none in Hcount; [lia |]. intros g' Hg'. unfold generations in Hg'.
  apply list_elem_of_omap in Hg' as (nm & _ & Hnm). by apply removable_parse in Hnm as (_ & _ & ?).
Qed.

(** What pruning may have done. *)
Definition swept (vid : list Z) (generation retention : Z) (backups : option Z) (f g : fs) : Prop :=
  g = f \/ exists b removed, backups = Some b /\ pruned f b removed g /\
    forall nm, nm ∈ removed -> nm ∈ candidate_name <$> surplus f b vid generation retention.

Lemma surplus_regular f b vid max retention nm i : nm ∈ candidate_name <$> surplus f b vid max retention -> entry f b nm = Some i ->
  exists n, f_inodes f !! i = Some n /\ inode_private n = true.
Proof.
  unfold surplus. cbv zeta. rewrite list_elem_of_fmap. intros (c & -> & Hc) Hi.
  assert (c ∈ candidates_of f b vid max (readdir_order (entries f b))) as Hin.
  { destruct (_ <=? _); [by apply elem_of_nil in Hc |]. rewrite zsub_0 in Hc. rewrite <- qsort_perm. eapply elem_of_take in Hc as (k & Hk & _). by eapply list_elem_of_lookup_2. }
  apply candidates_of_elem in Hin as (_ & Hr & _). unfold removable in Hr.
  destruct (parse_automatic_backup_name _) as [[] |]; [| done]. split_if_in Hr; [| done]. rewrite Hi in Hr. cbn in Hr.
  destruct (f_inodes f !! i) as [n |]; [| done]. cbn in Hr. exists n. split; [done |]. destruct (inode_private n); [done | by split_if_in Hr].
Qed.

Section swept.
Context (vid : list Z) (generation retention d : Z) (backups : option Z) (f g : fs).
Context (Hswept : swept vid generation retention backups f g) (Hapart : forall b, backups = Some b -> b <> d).

Lemma swept_name nm : entry g d nm = entry f d nm /\ durable_entry g d nm = durable_entry f d nm.
Proof.
  destruct Hswept as [-> | (b & removed & Eb & P & _)]; [done |]. specialize (Hapart b Eb). split; [| by apply (pr_durable_other _ _ _ _ P)].
  rewrite (pr_entry _ _ _ _ P), decide_False; [done |]. by intros [].
Qed.

Lemma swept_content i : content g i = content f i.
Proof. destruct Hswept as [-> | (b & removed & _ & P & _)]; [done |]. apply (pr_content _ _ _ _ P). Qed.

Lemma swept_holds e v : holds g e v <-> holds f e v.
Proof. destruct e, v; cbn; try done. by rewrite swept_content. Qed.

Lemma swept_settled nm v : settled f d nm v -> settled g d nm v.
Proof. unfold settled. destruct (swept_name nm) as [-> ->]. by rewrite !swept_holds. Qed.

Lemma swept_between nm old new : between f d nm old new -> between g d nm old new.
Proof. unfold between. destruct (swept_name nm) as [-> ->]. by rewrite !swept_holds. Qed.

Lemma swept_inode i : (forall b nm, b <> d -> entry f b nm <> Some i) -> f_inodes g !! i = f_inodes f !! i.
Proof.
  intros Hi. destruct Hswept as [-> | (b & removed & Eb & P & _)]; [done |]. apply (pr_inode _ _ _ _ P). intros nm _. by apply Hi, Hapart.
Qed.

Lemma swept_directory i n : f_inodes f !! i = Some n -> S_ISDIR (i_mode n) = true -> f_inodes g !! i = Some n.
Proof.
  intros Hn Hdir. destruct Hswept as [-> | (b & removed & Eb & P & Hrem)]; [done |]. rewrite (pr_inode _ _ _ _ P); [done |].
  intros nm Hnm E. destruct (surplus_regular _ _ _ _ _ _ _ (Hrem nm Hnm) E) as (n' & Hn' & Hp). assert (n' = n) as -> by congruence.
  unfold inode_private, private_snapshot_stat_issue in Hp. cbn [stat_of st_mode] in Hp. unfold S_ISDIR, S_ISREG in *.
  replace (Z.land (i_mode n) 61440 =? 32768) with false in Hp by lia. done.
Qed.

Lemma swept_copy `{!HostLaws H} f0 b hash : 1 <= retention -> backup_id vid generation -> backups = Some b ->
  has_copy f0 f b (backup_name vid generation) hash -> has_copy f0 g b (backup_name vid generation) hash.
Proof.
  intros Hret Hid Eb Hcopy. destruct Hswept as [-> | (b' & removed & Eb' & P & Hrem)]; [done |]. simplify_eq.
  assert (backup_name vid generation ∉ removed) as Hkept by (intros Hin; by apply (newest_kept f b' vid generation retention Hret Hid), Hrem).
  destruct Hcopy as (j & bytes & safe & E & D & C & Hh & Hs). exists j, bytes, safe.
  rewrite (pr_entry _ _ _ _ P), decide_False, (pr_content _ _ _ _ P) by (intros []; done). split_and!; [done | | done | done | done].
  destruct (pr_durable_kept _ _ _ _ P _ Hkept) as [-> | ->]; done.
Qed.

End swept.

Lemma wp_finish_save d name vault verified warning backups generation retention new w :
  world_ok w -> (forall b, backups = Some b -> b <> d) -> (warning = false -> settled (w_fs w) d name (Some new)) ->
  wp (fun g => settled g d name (Some new)) (finish_save vault verified warning backups generation retention)
    (fun vault' w' => world_ok w' /\ w_next w' = w_next w /\
       vault' = (if verified then set_arena (set_dirty vault (v_updated_ms vault) false) (v_arena vault') else vault) /\
       (verified = true -> exists s, v_arena vault' = snd (fst (pv_arena_set_readonly (v_arena vault) s))) /\
       swept (v_vault_id vault) generation retention backups (w_fs w) (w_fs w')) w.
Proof.
  intros Hok Hapart Hsettled. unfold finish_save. destruct verified; cbn [negb]; [| apply wp_ret; split_and!; auto; [done | by left]].
  cbv zeta. apply wp_bind, wp_lift; [auto with pv |]. intros r w1 S1 Er.
  assert (Harena : exists s, snd r = snd (fst (pv_arena_set_readonly (v_arena vault) s))) by (exists (w_sys w); change (v_arena vault) with (v_arena (set_dirty vault (v_updated_ms vault) false)); by rewrite Er).
  assert (Hsame : forall w', same w w' -> world_ok w' /\ w_next w' = w_next w /\ w_fs w' = w_fs w).
  { intros w' S'. split_and!; [by eapply world_ok_same | apply S' | apply S']. }
  set (vault1 := set_arena _ _).
  destruct backups as [b |]; [destruct warning; cbn [negb] |]; try (apply wp_bind, wp_ret, wp_ret; destruct (Hsame _ S1) as (? & ? & ?); split_and!; [done | done | done | done | by left]).
  pose proof (wp_prune b (v_vault_id vault1) (vmk_bytes vault1) generation retention w1) as Hp. cbv zeta in Hp. rewrite (same_fs _ _ S1) in Hp.
  eapply wp_then; [eapply wp_weaken; [exact Hp |] |].
  - intros g (removed & _ & P). eapply settled_extends; [by eapply pruned_extends | | by apply Hsettled]. intros E. by apply (Hapart b).
  - intros st w2 _ (N2 & removed & Hrem & P & _). apply wp_ret. rewrite N2. destruct (Hsame _ S1) as (Hok1 & -> & _). split_and!.
    + unfold world_ok. rewrite N2, (same_next _ _ S1). by eapply pruned_ok.
    + done.
    + done.
    + done.
    + right. exists b, removed. by split_and!.
Qed.

(** ** The save *)

(** The new file: the vault with the next generation, encoded and encrypted. *)
Definition sealed_as (vault : pv_vault) (header header' : pv_file_header) (now : Z) (new : list Z) : Prop :=
  exists hb ct s s', new = hb ++ ct /\
    seal_vault (set_generation_time vault (u64 (v_generation vault + 1)) now) header s = ((PV_OK, header', hb, ct), s').

(** In a calm world the vault can be sealed and the result read back. *)
Definition sealable (vault : pv_vault) (header : pv_file_header) : Prop :=
  forall now s, 0 <= now <= INT64_MAX -> sys_calm s -> exists header' hb ct,
    fst (seal_vault (set_generation_time vault (u64 (v_generation vault + 1)) now) header s) = (PV_OK, header', hb, ct) /\
    file_image hb ct header'.

Definition can_save (w : world) (d : Z) (name : list Z) (vault : pv_vault) (header : pv_file_header) (create_only : bool) : Prop :=
  loadable (w_fs w) d name vault create_only /\ leads_to w (v_path vault) d name /\ temporaries_free (w_fs w) d name /\
  inode_private created_inode = true /\ sealable vault header /\
  (create_only = false -> can_backup (w_fs w) d (v_vault_id vault) (v_generation vault)).

Record save_outcome (w : world) (d : Z) (name : list Z) (vault : pv_vault) (header : pv_file_header) (create_only : bool) (retention : Z)
    (old : option (list Z)) (new : list Z) (r : pv_status * pv_vault * pv_file_header) (w' : world) : Prop := mk_save_outcome {
  so_ok : world_ok w';
  so_between : between (w_fs w') d name old (Some new);
  so_saved : fst (fst r) = PV_OK -> settled (w_fs w') d name (Some new) /\ vault_saved vault (snd (fst r)) new /\
    exists i, entry (w_fs w') d name = Some i /\ f_inodes (w_fs w') !! i = Some (finished created_inode new) /\
      inode_private created_inode = true;
  so_visible : fst (fst r) = PV_ERR_DURABILITY -> holds (w_fs w') (entry (w_fs w') d name) (Some new) /\
    v_generation (snd (fst r)) = u64 (v_generation vault + 1);
  so_failed : fst (fst r) <> PV_OK -> fst (fst r) <> PV_ERR_DURABILITY -> settled (w_fs w') d name old /\
    (0 <= v_generation vault <= UINT64_MAX -> snd (fst r) = vault);
  so_sealed : fst (fst r) = PV_OK \/ fst (fst r) = PV_ERR_DURABILITY ->
    sealed_as vault header (snd r) (v_updated_ms (snd (fst r))) new /\ (calm w -> 0 <= v_updated_ms (snd (fst r)) <= INT64_MAX);
  so_header : snd r = header \/ exists now s st hb ct s',
    seal_vault (set_generation_time vault (u64 (v_generation vault + 1)) now) header s = ((st, snd r, hb, ct), s');
  so_vault : fst (fst r) = PV_ERR_DURABILITY -> vault_saved vault (snd (fst r)) new \/
    snd (fst r) = set_generation_time vault (u64 (v_generation vault + 1)) (v_updated_ms (snd (fst r)));
  so_directory n : fst (fst r) = PV_OK -> f_inodes (w_fs w) !! d = Some n -> S_ISDIR (i_mode n) = true -> f_inodes (w_fs w') !! d = Some n;
  so_kept `{!HostLaws H} : fst (fst r) = PV_OK \/ fst (fst r) = PV_ERR_DURABILITY -> create_only = false -> 1 <= retention ->
    backup_id (v_vault_id vault) (v_generation vault) ->
    exists b, (name <> cstr "backups" -> entry (w_fs w') d (cstr "backups") = Some b) /\
      has_copy (w_fs w) (w_fs w') b (backup_name (v_vault_id vault) (v_generation vault)) (v_source_hash vault)
}.

(** A quiet prefix may fix what the rest is about. *)
Lemma wp_exists_bind {A B X} (J : X -> fs -> Prop) (m : W A) (g : A -> W B) (Q : X -> B -> world -> Prop) w :
  quiet m -> (forall r w1, same w w1 -> m w = (r, w1) -> exists x, wp (J x) (g r) (Q x) w1) -> exists x, wp (J x) (m ≫= g) (Q x) w.
Proof.
  intros Hm Hg. destruct (m w) as [r w1] eqn:E. assert (same w w1) as S1 by (specialize (Hm w); by rewrite E in Hm).
  destruct (Hg r w1 S1 eq_refl) as [x Hx]. exists x. apply wp_bind, wp_same; [done |]. by rewrite E.
Qed.

Lemma generation_undone v now g : 0 <= v_generation v < UINT64_MAX -> g = v_updated_ms v ->
  let v' := set_generation_time v (u64 (v_generation v + 1)) now in set_generation_time v' (u64 (v_generation v' - 1)) g = v.
Proof.
  intros Hg ->. cbv zeta. unfold set_generation_time. cbn [set_dirty set_generation v_generation]. rewrite !u64_small.
  - replace (v_generation v + 1 - 1) with (v_generation v) by lia. by destruct v.
  - lia.
  - lia.
Qed.

Lemma wp_close_backups (J : fs -> Prop) (backups : option Z) w (Q : bool -> world -> Prop) :
  (forall b w', same w w' -> Q b w') -> wp J (match backups with Some _ => close | None => mret true end) Q w.
Proof. intros HQ. destruct backups; [| by apply wp_ret, HQ]. apply wp_close. auto. Qed.

(** A save that did nothing. *)
Lemma save_nothing w d name vault header create_only retention old new st w' :
  world_ok w -> same w w' -> settled (w_fs w) d name old -> st <> PV_OK -> st <> PV_ERR_DURABILITY ->
  save_outcome w d name vault header create_only retention old new (st, vault, header) w'.
Proof.
  intros Hok S Hold Hst Hst'. assert (Hold' : settled (w_fs w') d name old) by by rewrite (same_fs _ _ S).
  split; cbn [fst snd]; try done; auto with pv; [by eapply world_ok_same | by intros [] | by intros ? []].
Qed.

(** The final state of a committed save. *)
Lemma save_committed w w1 w2 w3 d name vault header header' current create_only retention old new now status st backups verified hash vault2 :
  world_ok w -> same w w1 -> loaded_from (w_fs w) d name vault create_only current -> committed w1 d name old new status backups w2 ->
  previous_kept w1 d name (v_vault_id vault) (v_generation vault) current status backups w2 -> status = PV_OK \/ status = PV_ERR_DURABILITY ->
  sealed_as vault header header' now new -> (calm w -> 0 <= now <= INT64_MAX) -> world_ok w3 ->
  let vault1 := set_generation_time vault (u64 (v_generation vault + 1)) now in
  let vault1 := if verified : bool then set_source_hash vault1 hash else vault1 in
  vault2 = (if verified : bool then set_arena (set_dirty vault1 (v_updated_ms vault1) false) (v_arena vault2) else vault1) ->
  (verified = true -> exists s, v_arena vault2 = snd (fst (pv_arena_set_readonly (v_arena vault1) s))) ->
  (verified = true -> crypto_generichash new = Some hash) -> (st = PV_OK -> status = PV_OK /\ verified = true) ->
  st = PV_OK \/ st = PV_ERR_DURABILITY -> swept (v_vault_id vault) (v_generation vault) retention backups (w_fs w2) (w_fs w3) ->
  save_outcome w d name vault header create_only retention old new (st, vault2, header') w3.
Proof.
  intros Hok S1 Hload Hcm Hkept Hstatus Hseal Hnow Hok3 vault1 vault1' Hvault2 Harena Hhash Hst Hst' Hsw. pose proof (cm_backups _ _ _ _ _ _ _ _ Hcm) as Hapart.
  destruct (cm_visible _ _ _ _ _ _ _ _ Hcm Hstatus) as (i & Ei & Ni & Hp & Hu). destruct (swept_name _ _ _ _ _ _ _ Hsw Hapart name) as [En _].
  assert (Hgen : v_generation vault2 = u64 (v_generation vault + 1)) by (rewrite Hvault2; subst vault1' vault1; by destruct verified).
  assert (Hms : v_updated_ms vault2 = now) by (rewrite Hvault2; subst vault1' vault1; by destruct verified).
  assert (Hsaved : verified = true -> vault_saved vault vault2 new).
  { subst vault1' vault1. destruct verified; [| done]. intros _. destruct (Harena eq_refl) as [s Hs]. clear Hgen Hms. rewrite Hvault2.
    split; cbn; try done; [by apply Hhash | split; [done |]; by exists s]. }
  split; cbn [fst snd].
  - done.
  - eapply swept_between; [exact Hsw | exact Hapart | apply Hcm].
  - intros E. destruct (Hst E) as [-> ->]. split_and!.
    + eapply swept_settled; [exact Hsw | exact Hapart | by apply Hcm].
    + by apply Hsaved.
    + exists i. rewrite En, (swept_inode _ _ _ _ _ _ _ Hsw Hapart); [by split_and! |]. intros b nm Hb E'. by apply Hu in E' as [? _].
  - intros _. split; [| done]. rewrite En, (swept_holds _ _ _ _ _ _ Hsw), Ei. cbn. unfold content. by rewrite Ni.
  - intros Hne Hnd. by destruct Hst'.
  - intros _. by rewrite Hms.
  - right. destruct Hseal as (hb & ct & s & s' & _ & Eseal). by eexists _, _, _, _, _, _.
  - intros _. destruct verified; [left; by apply Hsaved | right]. rewrite Hms, Hvault2. done.
  - intros n _ Hn Hdir. eapply swept_directory; [exact Hsw | | done]. apply (cm_directory _ _ _ _ _ _ _ _ Hcm). by rewrite (same_fs _ _ S1).
  - intros Hlaws _ -> Hret Hid. destruct current as [disk |]; [| done]. destruct Hload as (_ & j & m & D & _ & <- & _).
    destruct (Hkept disk _ eq_refl Hstatus (format_spec _ _ Hid)) as (b & Eb & Hcopy & Hname). exists b. split.
    + intros Hne. destruct (swept_name _ _ _ _ _ _ _ Hsw Hapart (cstr "backups")) as [-> _]. auto.
    + rewrite <- (same_fs _ _ S1). eapply swept_copy; eauto.
Qed.

Lemma leads_to_commit w w' d name old new st backups path :
  calm w -> calmly w w' -> committed w d name old new st backups w' -> leads_to w path d name -> leads_to w' path d name.
Proof.
  intros Hc Hcalm Hcm (parent & E & Hr & (n & Hn & Hg)). exists parent. destruct (Hcalm Hc) as [_ Hp]. rewrite Hp. split_and!; [done | done |].
  exists n. split; [by apply (cm_directory _ _ _ _ _ _ _ _ Hcm) | done].
Qed.

(** From the sealed vault on. *)
Lemma wp_save_sealed d name vault header header' now current retention create_only old st hb ct s s' w w1 :
  world_ok w -> same w w1 -> d < w_next w -> settled (w_fs w) d name old -> loaded_from (w_fs w) d name vault create_only current ->
  v_generation vault <> UINT64_MAX -> (calm w -> 0 <= now <= INT64_MAX) ->
  let vault1 := set_generation_time vault (u64 (v_generation vault + 1)) now in
  seal_vault vault1 header s = ((st, header', hb, ct), s') ->
  wp (fun g => between g d name old (Some (hb ++ ct)))
    (r ← commit_save (location_at d name) vault1 current (v_generation vault) create_only st hb ct;
     let '(status, backup_directory) := r in
     if is_ok status || bool_decide (status = PV_ERR_DURABILITY) then
       r ← read_back (location_at d name) vault1 hb ct (negb (is_ok status));
       let '(verified, vault2, commit_warning) := r in
       vault3 ← finish_save vault2 verified commit_warning backup_directory (v_generation vault) retention;
       _ ← (match backup_directory with Some _ => close | None => mret true end);
       mret (if commit_warning || negb verified then PV_ERR_DURABILITY else PV_OK, vault3, header')
     else
       let vault2 := set_generation_time vault1 (u64 (v_generation vault1 - 1)) (v_updated_ms vault) in
       _ ← (match backup_directory with Some _ => close | None => mret true end);
       mret (status, vault2, header'))
    (fun r w' => save_outcome w d name vault header create_only retention old (hb ++ ct) r w' /\
       (calm w -> st = PV_OK -> file_image hb ct header' ->
        can_commit w (v_path vault) d name vault current (v_generation vault) create_only -> fst (fst r) = PV_OK)) w1.
Proof.
  intros Hok S1 Hd Hold Hload Hgen Hnow vault1 Eseal. destruct (seal_status _ _ _ _ _ _ _ _ Eseal) as [Hst Hsealed].
  eapply wp_then.
  { apply (wp_commit_save d name vault1 current (v_generation vault) create_only st hb ct old w1);
      [by eapply world_ok_same | by rewrite (same_next _ _ S1) | by rewrite (same_fs _ _ S1) | intros Est; by apply Hsealed | done | by rewrite (same_fs _ _ S1)]. }
  intros [status backups] w2 C2 (Hcm & Hkept & Hst2 & Hlive). cbn [fst snd] in *.
  assert (Hlive' : calm w -> st = PV_OK -> can_commit w (v_path vault) d name vault current (v_generation vault) create_only -> status = PV_OK).
  { intros Hc Est (Hl & Hf & Hrest). apply Hlive; [eauto with calm | done |]. unfold can_commit. rewrite (same_fs _ _ S1). split; [| done]. by eapply leads_to_same. }
  destruct (is_ok status || bool_decide (status = PV_ERR_DURABILITY)) eqn:Ecommit.
  2: { apply orb_false_iff in Ecommit as [Ene End_]. apply bool_decide_eq_false in End_. assert (status <> PV_OK) by by intros ->.
       cbv zeta. apply wp_bind, wp_close_backups. intros b w3 S3. apply wp_ret. cbn [fst snd].
       split; [| intros Hc Est _ Hcan; by specialize (Hlive' Hc Est Hcan)].
       assert (Hold2 : settled (w_fs w3) d name old) by (rewrite (same_fs _ _ S3); by apply Hcm).
       split; cbn [fst snd]; try done; auto with pv.
       - eapply world_ok_same; [exact S3 | apply Hcm].
       - intros _ _. split; [done |]. intros Hg. apply generation_undone; [lia | done].
       - by intros [].
       - right. by eexists _, _, _, _, _, _.
       - by intros ? []. }
  assert (Hstatus : status = PV_OK \/ status = PV_ERR_DURABILITY).
  { apply orb_true_iff in Ecommit as [E%is_ok_iff | E%bool_decide_eq_true]; auto. }
  apply wp_bind, wp_read_back. intros verified hash warning w3 S3 Hhash Hwarn Hlive3.
  set (vault2 := if verified then set_source_hash vault1 hash else vault1).
  assert (Hid : v_vault_id vault2 = v_vault_id vault) by by unfold vault2; destruct verified.
  eapply wp_then.
  { eapply wp_weaken; [apply (wp_finish_save d name vault2 verified warning backups (v_generation vault) retention (hb ++ ct) w3) |].
    - eapply world_ok_same; [exact S3 | apply Hcm].
    - apply Hcm.
    - intros Ew. destruct (Hwarn Ew) as [Eok _]. rewrite (same_fs _ _ S3). apply Hcm. apply negb_false_iff, is_ok_iff in Eok. done.
    - intros g Hg. by apply settled_between_r. }
  intros vault3 w4 C4 (Hok4 & N4 & Hv3 & Harena & Hsw). rewrite (same_fs _ _ S3), Hid in Hsw. apply wp_bind, wp_close_backups. intros b w5 S5. apply wp_ret. cbn [fst snd].
  assert (Hst5 : (if warning || negb verified then PV_ERR_DURABILITY else PV_OK) = PV_OK -> status = PV_OK /\ verified = true).
  { destruct warning; [done |]. destruct (Hwarn eq_refl) as [Eok ->]. intros _. split; [| done]. by apply negb_false_iff, is_ok_iff in Eok. }
  split.
  - destruct (Hsealed (Hst2 Hstatus)) as (_ & -> & _). rewrite (Hst2 Hstatus) in Eseal.
    eapply (save_committed w w1 w2 w5 d name vault header header' current create_only retention old _ now status _ backups verified hash vault3); eauto.
    + by eexists _, _, _, _.
    + by eapply world_ok_same.
    + destruct warning, verified; auto.
    + by rewrite (same_fs _ _ S5).
  - intros Hc Est Himage Hcan. specialize (Hlive' Hc Est Hcan). destruct Hcan as (Hl & _). assert (calm w2) as Hc2 by eauto with calm.
    destruct (cm_visible _ _ _ _ _ _ _ _ Hcm (or_introl Hlive')) as (i & Ei & Ni & Hp & _). destruct Hlive3 as [-> ->]; [done | | | by rewrite Hlive'].
    + eapply (leads_to_commit w1 w2); [eauto with calm | exact C2 | exact Hcm | by eapply leads_to_same].
    + exists i, (finished created_inode (hb ++ ct)), header'. by split_and!.
Qed.


(** The whole save: the new version is fixed before anything is written. *)
(** A save replaces the file the session was opened from. *)
Definition replaces (vault : pv_vault) (create_only : bool) (old : option (list Z)) : Prop :=
  create_only = false -> forall bytes, old = Some bytes -> crypto_generichash bytes = Some (v_source_hash vault).

Lemma loaded_replaces f d name vault create_only current old :
  loaded_from f d name vault create_only current -> settled f d name old -> replaces vault create_only old.
Proof.
  intros Hl [He _] -> bytes ->. destruct current as [disk |]; [| done].
  destruct Hl as [_ (i & n & [D1 D2 _ _ _ _ _ _ D9] & _ & <- & _)]. rewrite D1 in He. cbn in He. unfold content in He. rewrite D2 in He.
  cbn in He. by simplify_eq.
Qed.

Lemma wp_save_locked d name vault header retention create_only old w :
  world_ok w -> d < w_next w -> settled (w_fs w) d name old ->
  exists new, wp (fun g => between g d name old (Some new)) (save_locked (location_at d name) vault header retention create_only)
    (fun r w' => save_outcome w d name vault header create_only retention old new r w' /\
       (calm w -> can_save w d name vault header create_only -> fst (fst r) = PV_OK) /\
       (fst (fst r) = PV_OK \/ fst (fst r) = PV_ERR_DURABILITY -> replaces vault create_only old)) w.
Proof.
  intros Hok Hd Hold. unfold save_locked. apply wp_exists_bind; [apply quiet_load_current |]. intros loaded w1 S1 Eload.
  assert (Hload := wp_load_current (fun _ => True) d name vault create_only w
    (fun r w' => match r with
                 | inl st => same w w' /\ st <> PV_OK /\ st <> PV_ERR_DURABILITY /\ (calm w -> ~ loadable (w_fs w) d name vault create_only)
                 | inr current => v_generation vault <> UINT64_MAX /\ loaded_from (w_fs w) d name vault create_only current
                 end) ltac:(by auto) ltac:(by auto)).
  apply (wp_run _ _ _ _ _ _ Hload) in Eload as (_ & _ & Hl). clear Hload. destruct loaded as [st | current].
  { exists []. destruct Hl as (_ & Hne & Hnd & Hcalm). apply wp_ret. split_and!; [by apply save_nothing | | by intros []]. intros Hc [Hl _]. by destruct (Hcalm Hc). }
  cbv zeta. apply wp_exists_bind; [auto with pv |]. intros now w2 S2 Enow.
  assert (Hnow : calm w -> 0 <= now <= INT64_MAX).
  { intros Hc. assert (calm w1) as Hc1 by eauto with calm. destruct (calm_sys _ Hc1) as [_ Hclk]. unfold lift, now_ms in Enow. simplify_eq. apply Hclk. }
  set (vault1 := set_generation_time vault (u64 (v_generation vault + 1)) now).
  apply wp_exists_bind; [auto with pv |]. intros [[[st header'] hb] ct] w3 S3 Eseal. exists (hb ++ ct).
  assert (Eseal' : exists s', seal_vault vault1 header (w_sys w2) = ((st, header', hb, ct), s')).
  { unfold lift in Eseal. destruct (seal_vault vault1 header (w_sys w2)) as [x s']. simplify_eq. eauto. }
  clear Eseal. destruct Eseal' as [s' Eseal]. destruct Hl as [Hgen Hl]. assert (S : same w w3) by (etrans; [done |]; by etrans).
  eapply wp_mono; [by apply (wp_save_sealed d name vault header header' now current retention create_only old st hb ct (w_sys w2) s' w w3) |].
  intros r w4 _ [Hout Hlive]. split_and!; [done | | intros _; by eapply loaded_replaces]. intros Hc ([_ Hload] & Hlead & Hfree & Hp & Hseal & Hback).
  assert (calm w2) as Hc2 by eauto with calm. destruct (Hseal now (w_sys w2) (Hnow Hc) (calm_sys _ Hc2)) as (h2 & hb2 & ct2 & Es & Himage).
  fold vault1 in Es. rewrite Eseal in Es. cbn [fst] in Es. simplify_eq. apply Hlive; [done | done | done |]. split_and!; try done.
  - intros ->. done.
  - intros Hcur. apply Hback. destruct current; [apply Hl | done].
Qed.

End save.
