(* ===== verification/StoreSession.v ===== *)
(** * Facts about locking, saving and opening a vault

    [lock_vault], [pv_store_save] and [pv_store_open_password] from the state
    the caller sees. *)

From stdpp Require Import gmap.
From S2P Require Import Prelude Status Util Sys Arena Model ModelFacts ModelInv ModelProps Cbor CborFacts CborProps Crypto.
From S2P Require Import CryptoFacts CryptoProps Posix Config Secure Fs FsFacts Store StoreOps StoreFacts StoreReads.
From S2P Require Import StoreSave StoreNames StorePrune StoreCommit.

(** ** The lock *)

Definition lock_name (name : list Z) : list Z := name ++ cstr ".lock".

Lemma lock_not_name name : name <> lock_name name.
Proof. intros E. apply (f_equal length) in E. unfold lock_name in E. rewrite length_app in E. change (length (cstr ".lock")) with 5%nat in E. lia. Qed.

Lemma lock_not_temporary name v : temporary_name name v <> lock_name name.
Proof. unfold temporary_name, lock_name. intros E%app_inv_head. done. Qed.

Lemma lock_not_backups name : cstr "backups" <> lock_name name.
Proof.
  intros E. assert (El := f_equal list.last E). unfold lock_name in El.
  change (cstr ".lock") with (cstr ".loc" ++ [107]) in El. rewrite app_assoc, last_snoc in El. done.
Qed.

Lemma lock_not_backup vid generation name : backup_name vid generation <> lock_name name.
Proof.
  intros E. assert (El := f_equal list.last E). unfold lock_name, backup_name in El.
  change (cstr ".lock") with (cstr ".loc" ++ [107]) in El. change (cstr ".pvlt") with (cstr ".pvl" ++ [116]) in El. rewrite !app_assoc, !last_snoc in El. done.
Qed.

(** What locking does: the name of the lock may appear. *)
Definition locking (name : list Z) (f g : fs) : Prop :=
  extends none f g /\ forall d nm, nm <> lock_name name -> entry g d nm = entry f d nm /\ durable_entry g d nm = durable_entry f d nm.

Lemma locking_refl name f : locking name f f.
Proof. by split. Qed.

Lemma locking_trans name f g h : locking name f g -> extends none g h -> (forall d nm, nm <> lock_name name -> entry h d nm = entry g d nm /\ durable_entry h d nm = durable_entry g d nm) ->
  locking name f h.
Proof. intros [Hx Hn] Hx' Hn'. split; [by etrans |]. intros d nm Hne. destruct (Hn d nm Hne) as [<- <-]. by apply Hn'. Qed.

Lemma settled_locking name f g d old : locking name f g -> settled f d name old -> settled g d name old.
Proof.
  intros [Hx Hn]. destruct old as [bytes |]; [intros Hs; by eapply settled_extends; [exact Hx | intros [] | exact Hs] |]. destruct (Hn d name (lock_not_name name)) as [E D].
  unfold settled. rewrite E, D. by destruct (entry f d name), (durable_entry f d name).
Qed.

Definition locked (path : list Z) (f g : fs) : Prop :=
  forall parent name, split_parent_and_name path = (PV_OK, parent, name) -> locking name f g.

Lemma locked_intro path parent name f g : split_parent_and_name path = (PV_OK, parent, name) -> locking name f g -> locked path f g.
Proof. intros E Hl parent' name' E'. rewrite E in E'. by simplify_eq. Qed.

Lemma locked_same path w w' : same w w' -> locked path (w_fs w) (w_fs w').
Proof. intros S parent name _. rewrite (same_fs _ _ S). apply locking_refl. Qed.

Section session.
Context `{Host} `{Sodium} `{Libcbor}.

Lemma wp_openat_create (J : fs -> Prop) d name w (Q : option Z -> world -> Prop) :
  world_ok w -> d < w_next w ->
  (entry (w_fs w) d name = None -> J (with_file (w_fs w) d name (w_next w) created_inode)) ->
  (forall w', same w w' -> (calm w -> exists i, entry (w_fs w) d name = Some i /\
     forall n, f_inodes (w_fs w) !! i = Some n -> S_ISLNK (i_mode n) = true) -> Q None w') ->
  (forall i w', same w w' -> entry (w_fs w) d name = Some i -> Q (Some i) w') ->
  (forall w', entry (w_fs w) d name = None -> w_fs w' = with_file (w_fs w) d name (w_next w) created_inode -> w_next w' = w_next w + 1 ->
     calmly w w' -> Q (Some (w_next w)) w') ->
  wp J (openat_create d name) Q w.
Proof.
  intros Hok Hd HJ Hno Hold Hnew. unfold openat_create. apply wp_bind, wp_call. intros e w1 S1 He. apply wp_bind, wp_get_fs. rewrite (same_fs _ _ S1).
  destruct e as [e |]; [apply wp_ret, Hno; [done |]; intros Hc; by specialize (He Hc) |].
  destruct (entry (w_fs w) d name) as [i |] eqn:E.
  - apply wp_ret. destruct (f_inodes (w_fs w) !! i) as [n |] eqn:En; [| apply Hno; [done |]; intros _; exists i; split; [done | congruence]].
    destruct (S_ISLNK (i_mode n)) eqn:El; [| by apply Hold]. apply Hno; [done |]. intros _. exists i. split; [done |]. intros n' En'. congruence.
  - apply wp_bind, wp_new_inode. intros w2 F2 N2 C2. apply wp_bind. rewrite (same_next _ _ S1) in *. rewrite (same_fs _ _ S1) in F2.
    apply wp_put_fs; [by apply HJ |]. intros w3 F3 N3 _ C3. apply wp_ret. apply Hnew; [done | exact F3 | lia |].
    etrans; [apply S1 |]. by etrans.
Qed.

Lemma wp_fchmod_any (J : fs -> Prop) i mode w (Q : bool -> world -> Prop) :
  (forall n, f_inodes (w_fs w) !! i = Some n -> J (set_inode (w_fs w) i (moded n mode))) ->
  (forall w', same w w' -> (calm w -> f_inodes (w_fs w) !! i = None) -> Q false w') ->
  (forall n w', f_inodes (w_fs w) !! i = Some n -> w_fs w' = set_inode (w_fs w) i (moded n mode) -> w_next w' = w_next w -> calmly w w' -> Q true w') ->
  wp J (fchmod i mode) Q w.
Proof.
  intros HJ Hno Hyes. unfold fchmod. apply wp_bind, wp_call. intros e w1 S1 He. apply wp_bind, wp_get_fs. rewrite (same_fs _ _ S1).
  destruct e as [e |]; [apply wp_ret, Hno; [done |]; intros Hc; by specialize (He Hc) |].
  destruct (f_inodes (w_fs w) !! i) as [n |] eqn:En; [| by apply wp_ret, Hno].
  apply wp_bind, wp_put_fs; [by apply HJ |]. intros w2 F2 N2 _ C2. apply wp_ret. eapply Hyes; [done | exact F2 | by rewrite N2, (same_next _ _ S1) |].
  etrans; [apply S1 | done].
Qed.

(** The inodes locking touches. *)
Definition lock_inodes (w : world) (d : Z) (name : list Z) : Z -> Prop := fun i =>
  i = w_next w \/ entry (w_fs w) d (lock_name name) = Some i.

(** Enough to take the lock in a calm world. *)
Definition can_lock (f : fs) (d : Z) (name : list Z) : Prop :=
  zlen name + 5 < PATH_MAX /\
  forall i, entry f d (lock_name name) = Some i -> exists n, f_inodes f !! i = Some n /\ S_ISREG (i_mode n) = true /\
    i_uid n = geteuid /\ i_nlink n = 1 /\ entry f d name <> Some i.

Definition lock_outcome (w : world) (path : list Z) (r : pv_status * option pv_store_location) (w' : world) : Prop :=
  (exists X Y, adds X Y w w') /\
  locked path (w_fs w) (w_fs w') /\
  match snd r with
  | None => fst r <> PV_OK /\ fst r <> PV_ERR_DURABILITY
  | Some location => fst r = PV_OK /\ exists parent name d, location = location_at d name /\
      split_parent_and_name path = (PV_OK, parent, name) /\ resolve w parent = Some d /\ good_directory (w_fs w) d /\
      adds (only d (lock_name name)) (lock_inodes w d name) w w'
  end /\
  (calm w -> forall d name, leads_to w path d name -> can_lock (w_fs w) d name -> is_Some (snd r)).

Lemma lock_failed w path st w1 w' :
  (exists X Y, adds X Y w w1) -> locked path (w_fs w) (w_fs w1) ->
  same w1 w' -> st <> PV_OK -> st <> PV_ERR_DURABILITY ->
  (calm w -> forall d name, leads_to w path d name -> can_lock (w_fs w) d name -> False) -> lock_outcome w path (st, None) w'.
Proof.
  intros (X & Y & A) Hl S Hst Hst' Hcalm. split_and!; [exists X, Y; by eapply adds_then_same | by rewrite (same_fs _ _ S) | done |]. clear Hl.
  intros Hc d name Hl Hcan. by destruct (Hcalm Hc d name Hl Hcan).
Qed.

(** From the open lock file on. *)
Lemma wp_lock_file d name path parent lock w w1 :
  world_ok w -> split_parent_and_name path = (PV_OK, parent, name) -> resolve w parent = Some d -> good_directory (w_fs w) d ->
  adds (only d (lock_name name)) (lock_inodes w d name) w w1 -> locked path (w_fs w) (w_fs w1) -> lock_inodes w d name lock -> calmly w w1 ->
  (can_lock (w_fs w) d name -> exists n, f_inodes (w_fs w1) !! lock = Some n /\ S_ISREG (i_mode n) = true /\ i_uid n = geteuid /\ i_nlink n = 1) ->
  wp (locked path (w_fs w))
    (st ← fstat lock;
     let bad := match st with
                | None => true
                | Some st => negb (S_ISREG (st_mode st)) || negb (st_uid st =? geteuid) || negb (st_nlink st =? 1)
                end in
     changed ← (if bad : bool then mret false else fchmod lock 384);
     if negb changed then _ ← close; _ ← close_store_location; mret (PV_ERR_IO, None) else
     locked ← flock;
     match locked with
     | None => mret (PV_OK, Some (location_at d name))
     | Some e => _ ← close; _ ← close_store_location; mret (if bool_decide (e = EWOULDBLOCK) then PV_ERR_LOCKED else PV_ERR_IO, None)
     end) (lock_outcome w path) w1.
Proof.
  intros Hok Esplit Hr Hg A L Hlock C1 Hcan. assert (Hd : d < w_next w) by (destruct Hg as (n & Hn & _); by eapply ok_inode in Hn).
  assert (Honly : calm w -> forall d' name', leads_to w path d' name' -> d' = d /\ name' = name).
  { intros Hc d' name' (p & E' & Hd' & _). rewrite Esplit in E'. by simplify_eq. }
  assert (Hfail : forall st w2, adds (only d (lock_name name)) (lock_inodes w d name) w w2 -> locked path (w_fs w) (w_fs w2) -> st <> PV_OK -> st <> PV_ERR_DURABILITY ->
    (calm w -> can_lock (w_fs w) d name -> False) ->
    wp (locked path (w_fs w)) (_ ← close; _ ← close_store_location; mret (st, None)) (lock_outcome w path) w2).
  { intros st w2 A2 L2 Hst Hst' Hbad. apply wp_bind, wp_close. intros c w3 S3 _. unfold close_store_location. apply wp_bind, wp_bind, wp_close. intros c' w4 S4 _.
    apply wp_ret, wp_ret. eapply lock_failed; [by eexists _, _ | exact L2 | by etrans | done | done |]. intros Hc d' name' Hl Hcan'.
    destruct (Honly Hc _ _ Hl) as [-> ->]. auto. }
  apply wp_bind, wp_fstat. intros st w2 S2 Hst Hcalm. cbv zeta. assert (A2 := adds_then_same _ _ _ _ _ A S2).
  destruct (match st with None => true | Some _ => _ end) eqn:Ebad.
  { apply wp_bind, wp_ret. cbn [negb]. apply Hfail; [done | by rewrite (same_fs _ _ S2) | done | done |]. intros Hc Hcl. destruct (Hcan Hcl) as (n & Hn & R1 & R2 & R3).
    assert (calm w1) as Hc1 by eauto with calm. rewrite (Hcalm Hc1), Hn in Ebad. cbn in Ebad. by rewrite R1, R2, R3, !Z.eqb_refl in Ebad. }
  destruct st as [st |]; [| done]. destruct (Hst st eq_refl) as (n & Hn & _).
  assert (Hset : forall n', f_inodes (w_fs w1) !! lock = Some n' -> locked path (w_fs w) (set_inode (w_fs w1) lock (moded n' 384))).
  { intros n' Hn'. eapply locked_intro; [exact Esplit |]. eapply locking_trans; [by eapply L | by eapply set_inode_extends | done]. }
  apply wp_bind, wp_fchmod_any; rewrite (same_fs _ _ S2).
  - intros n' Hn'. by apply Hset.
  - intros w3 S3 Hno. cbn [negb]. apply Hfail; [by eapply adds_then_same | by rewrite (same_fs _ _ S3), (same_fs _ _ S2) | done | done |]. intros Hc _. assert (calm w2) as Hc2 by eauto with calm.
    specialize (Hno Hc2). congruence.
  - intros n' w3 Hn' F3 N3 C3. cbn [negb]. assert (A3 : adds (only d (lock_name name)) (lock_inodes w d name) w w3).
    { eapply adds_trans; [exact A2 |]. eapply set_inode_adds with (b := lock) (n := n') (n' := moded n' 384); try done;
        [apply A2 | by rewrite (same_fs _ _ S2) | by rewrite (same_fs _ _ S2)]. }
    assert (L3 : locked path (w_fs w) (w_fs w3)) by (rewrite F3; by apply Hset).
    apply wp_bind, wp_call. intros e w4 S4 He. assert (A4 := adds_then_same _ _ _ _ _ A3 S4). destruct e as [e |].
    + apply Hfail; [done | by rewrite (same_fs _ _ S4) | by case_bool_decide | by case_bool_decide |]. intros Hc _. assert (calm w3) as Hc3 by eauto with calm. by specialize (He Hc3).
    + apply wp_ret. split_and!; [by eexists _, _ | by rewrite (same_fs _ _ S4) | split; [done |]; eexists _, _, _; by split_and! | by eexists].
Qed.

Lemma wp_lock_vault path w :
  world_ok w -> wp (locked path (w_fs w)) (lock_vault path) (lock_outcome w path) w.
Proof.
  intros Hok. unfold lock_vault. apply wp_bind, wp_open_store_location.
  { intros st w1 S1 Hst Hst' Hcalm. apply wp_ret. eapply lock_failed; [exists none, (fun _ => False); by apply adds_same | by apply locked_same | done | done | done |].
    intros Hc d name Hl _. by apply (Hcalm Hc d name). }
  intros parent name d w1 S1 Esplit Hg Hr. cbn [location_at directory_fd location_name].
  assert (Hd : d < w_next w) by (destruct Hg as (n & Hn & _); by eapply ok_inode in Hn).
  assert (A1 : adds (only d (lock_name name)) (lock_inodes w d name) w w1) by by apply adds_same.
  assert (Honly : calm w -> forall d' name', leads_to w path d' name' -> d' = d /\ name' = name).
  { intros Hc d' name' (p & E' & Hd' & _). rewrite Esplit in E'. by simplify_eq. }
  assert (Hfail : forall st w2, same w w2 -> st <> PV_OK -> st <> PV_ERR_DURABILITY -> (calm w -> can_lock (w_fs w) d name -> False) ->
    wp (locked path (w_fs w)) (_ ← close_store_location; mret (st, None)) (lock_outcome w path) w2).
  { intros st w2 S2 Hst Hst' Hbad. unfold close_store_location. apply wp_bind, wp_bind, wp_close. intros c' w4 S4 _. apply wp_ret, wp_ret.
    eapply lock_failed; [exists none, (fun _ => False); by apply adds_same | by apply locked_same | done | done | done |]. intros Hc d' name' Hl Hcan.
    destruct (Honly Hc _ _ Hl) as [-> ->]. auto. }
  fold (lock_name name). destruct (Z.leb_spec PATH_MAX (zlen (lock_name name))) as [Hlong | Hshort].
  { apply Hfail; [done | done | done |]. intros _ [Hlen _]. unfold lock_name in Hlong. rewrite zlen_app in Hlong. change (zlen (cstr ".lock")) with 5 in Hlong. lia. }
  assert (Hnew : entry (w_fs w) d (lock_name name) = None -> locked path (w_fs w) (with_file (w_fs w) d (lock_name name) (w_next w) created_inode)).
  { intros E. eapply locked_intro; [exact Esplit |]. split; [by apply with_file_extends, unused_next |]. intros d' nm Hne.
    rewrite with_file_entry, decide_False by (by intros [_ ?]). done. }
  apply wp_bind, wp_openat_create; rewrite ?(same_fs _ _ S1), ?(same_next _ _ S1).
  - by eapply world_ok_same.
  - done.
  - intros E. by apply Hnew.
  - intros w2 S2 Hno. apply Hfail; [by etrans | done | done |]. intros Hc [_ Hcan]. assert (calm w1) as Hc1 by eauto with calm.
    destruct (Hno Hc1) as (i & Ei & Hi). destruct (Hcan i Ei) as (n & Hn & Hreg & _). specialize (Hi n Hn). unfold S_ISLNK, S_ISREG in *. lia.
  - intros i w2 S2 Ei. eapply wp_lock_file; try done.
    + by eapply adds_then_same.
    + apply locked_same. by etrans.
    + by right.
    + etrans; [apply S1 | apply S2].
    + intros [_ Hcan]. destruct (Hcan i Ei) as (n & Hn & ? & ? & ? & _). exists n. rewrite (same_fs _ _ S2), (same_fs _ _ S1). by split_and!.
  - intros w2 E F2 N2 C2. assert (Hu := unused_next w d _ Hok E Hd). eapply wp_lock_file; try done.
    + split; [| lia | rewrite F2; by apply with_file_extends |].
      * unfold world_ok. rewrite F2, N2. apply with_file_ok; [done | done | lia].
      * rewrite F2. split; [intros d' nm HX; by rewrite with_file_entry, decide_False |]. intros i Hi. apply with_file_other. intros ->. apply Hi. by left.
    + rewrite F2. by apply Hnew.
    + by left.
    + etrans; [apply S1 | done].
    + intros _. exists created_inode. rewrite F2, with_file_inode. split_and!; [done | | done | done]. unfold created_inode, S_ISREG. cbn [i_mode].
      rewrite Z.land_lor_distr_l, (Z.land_comm 384), <- Z.land_assoc. by rewrite Z.land_0_r.
Qed.

(** ** What locking leaves for a save *)

Lemma lock_keeps_save w w' d name vault header :
  world_ok w -> d < w_next w -> calm w -> calmly w w' -> adds (only d (lock_name name)) (lock_inodes w d name) w w' ->
  can_lock (w_fs w) d name -> can_save w d name vault header false -> can_save w' d name vault header false.
Proof.
  intros Hok Hd Hc Hcalm A [_ Hlock] ([Hgen (disk & i & n & D & Hcur)] & (parent & E & Hr & (m & Hm & Hg)) & [Hlen Hfree] & Hp & Hseal & Hback).
  pose proof (agree_entry _ _ _ _ (adds_agree _ _ _ _ A)) as Hentry. pose proof (agree_inode _ _ _ _ (adds_agree _ _ _ _ A)) as Hinode.
  assert (Hname : forall nm, nm <> lock_name name -> entry (w_fs w') d nm = entry (w_fs w) d nm) by (intros nm Hne; apply Hentry; by intros [_ ?]).
  assert (Hother : forall j, j < w_next w -> entry (w_fs w) d (lock_name name) <> Some j -> f_inodes (w_fs w') !! j = f_inodes (w_fs w) !! j).
  { intros j Hj Hne. apply Hinode. intros [-> | ?]; [lia | done]. }
  split_and!; try done.
  - split; [done |]. exists disk, i, n. split; [| done]. destruct D as [D1 D2 D3 D4 D5 D6 D7 D8 D9]. split; try done; [by rewrite Hname by apply lock_not_name |].
    rewrite Hother; [done | by eapply ok_inode in D2 |]. intros El. by destruct (Hlock i El) as (? & _ & _ & _ & _ & ?).
  - exists parent. destruct (Hcalm Hc) as [_ Hpath]. rewrite Hpath. split_and!; [done | done |]. exists m. split; [| done].
    rewrite Hother; [done | done |]. intros El. by apply (ok_entry _ _ Hok) in El as (_ & ? & _).
  - split; [done |]. intros v. rewrite Hname by apply lock_not_temporary. apply Hfree.
  - intros _. destruct (Hback eq_refl) as (Ha & _ & bname & Ef & Hb). split_and!; [| done |].
    + intros b Eb. rewrite Hname in Eb by apply lock_not_backups. destruct (Ha b Eb) as (nb & Hnb & Hdir & Huid). exists nb. rewrite Hother; [done | by eapply ok_inode in Hnb |].
      intros El. destruct (Hlock b El) as (nb' & Hnb' & Hreg & _). assert (nb' = nb) as -> by congruence. unfold S_ISREG, S_ISDIR in *. lia.
    + exists bname. split; [done |]. intros b Eb. rewrite Hname in Eb by apply lock_not_backups. assert (b <> d) as Hbd by by apply backups_apart in Eb.
      assert (Hin : forall nm, entry (w_fs w') b nm = entry (w_fs w) b nm) by (intros nm; apply Hentry; by intros []).
      destruct (Hb b Eb) as [Hn [Hl2 Hf2]]. rewrite Hin. split; [done |]. split; [done |]. intros v. by rewrite Hin.
Qed.

(** ** Saving *)

(** The outcome seen from before the lock was taken, and after it is released. *)
Lemma save_outcome_locked w w1 w2 w3 d name vault header create_only retention old new r :
  world_ok w -> d < w_next w -> adds (only d (lock_name name)) (lock_inodes w d name) w w1 -> calmly w w1 -> same w2 w3 ->
  save_outcome w1 d name vault header create_only retention old new r w2 ->
  save_outcome w d name vault header create_only retention old new r w3.
Proof.
  intros Hok Hd A C S [O1 O2 O3 O4 O5 O6 O7 O8 O9 O10]. split; rewrite ?(same_fs _ _ S); try done.
  - by eapply world_ok_same.
  - intros Hst. destruct (O6 Hst) as [Hs Hn]. split; [done |]. intros Hc. apply Hn. eauto with calm.
  - intros n Hst Hn Hdir. apply O9; [done | | done]. rewrite (agree_inode _ _ _ _ (adds_agree _ _ _ _ A)); [done |].
    intros [-> | El]; [lia |]. by apply (ok_entry _ _ Hok) in El as (_ & ? & _).
  - intros Hlaws Hst Hnew Hret Hid. destruct (O10 Hlaws Hst Hnew Hret Hid) as (b & Hb & Hcopy). exists b. split; [done |].
    eapply has_copy_before; [| exact Hcopy]. apply (agree_entry _ _ _ _ (adds_agree _ _ _ _ A)). intros [_ E]. by apply lock_not_backup in E.
Qed.

Lemma quiet_unlock : quiet unlock_vault.
Proof. unfold unlock_vault, close_store_location. solve_quiet. Qed.

Lemma wp_store_save vault header retention parent d name old w :
  world_ok w -> v_dirty vault = true -> split_parent_and_name (v_path vault) = (PV_OK, parent, name) -> resolve w parent = Some d ->
  settled (w_fs w) d name (Some old) ->
  exists new, wp (fun g => between g d name (Some old) (Some new)) (pv_store_save vault header retention)
    (fun r w' => save_outcome w d name vault header false retention (Some old) new r w' /\
       (calm w -> 1 <= retention -> can_lock (w_fs w) d name -> can_save w d name vault header false -> fst (fst r) = PV_OK) /\
       (fst (fst r) = PV_OK \/ fst (fst r) = PV_ERR_DURABILITY -> retention <> 0 -> crypto_generichash old = Some (v_source_hash vault))) w.
Proof.
  intros Hok Hdirty Esplit Hr Hold. unfold pv_store_save. rewrite Hdirty. cbn [negb].
  destruct (Z.eqb_spec retention 0) as [Hret | Hret].
  { exists []. apply wp_ret. split_and!; [by apply save_nothing | lia | by intros _ ?]. }
  assert (Hd : d < w_next w). { destruct Hold as [He _]. destruct (entry (w_fs w) d name) as [i |] eqn:E; [| done]. by apply (ok_entry _ _ Hok) in E as (_ & _ & ?). }
  pose proof (wp_lock_vault (v_path vault) w Hok) as Hlock. destruct (lock_vault (v_path vault) w) as [[st location] w1] eqn:El.
  destruct (wp_run _ _ _ _ _ _ Hlock El) as (T1 & C1 & (X & Y & A0) & _ & Hloc & Hlive). cbn [fst snd] in *.
  assert (Hold1 : settled (w_fs w1) d name (Some old)) by (eapply settled_extends; [apply A0 | intros [] | done]).
  assert (T1' : forall new, through (fun g => between g d name (Some old) new) w w1).
  { intros new. eapply through_mono; [| exact T1]. intros g Hg. apply settled_between_l. eapply settled_locking; [by eapply Hg | done]. }
  assert (Hstart : forall new (g : pv_status * option pv_store_location -> W (pv_status * pv_vault * pv_file_header)) Q,
    wp (fun g => between g d name (Some old) new) (g (st, location)) Q w1 -> wp (fun g => between g d name (Some old) new) (lock_vault (v_path vault) ≫= g) Q w).
  { intros new g Q Hg. apply wp_bind. unfold wp. rewrite El. cbn [fst snd]. split_and!; [apply T1' | done | apply Hg | apply Hg | apply Hg]. }
  destruct location as [location |].
  - destruct Hloc as (-> & parent' & name' & d' & -> & Esplit' & Hr' & Hg & A). assert (parent' = parent) as -> by congruence. assert (name' = name) as -> by congruence. assert (d' = d) as -> by congruence.
    destruct (wp_save_locked d name vault header retention false (Some old) w1) as [new Hsave]; [apply A | pose proof (adds_next _ _ _ _ A); lia | done |].
    exists new. apply Hstart. eapply wp_then; [exact Hsave |]. intros r w2 C2 (Hout & Hsafe & Hrep). apply wp_bind, wp_quiet; [apply quiet_unlock |].
    intros u w3 S3. apply wp_ret. split_and!; [by eapply save_outcome_locked | | intros Hst _; by apply (Hrep Hst)]. intros Hc _ Hcan Hcs. apply Hsafe; [eauto with calm |].
    by eapply lock_keeps_save.
  - exists []. apply Hstart, wp_ret. cbn [fst snd]. destruct Hloc as [Hne Hnd]. split_and!; [| | by intros []].
    + split; cbn [fst snd]; try done; auto with pv; [apply A0 | by intros [] | by intros ? []].
    + intros Hc _ Hcan Hcs. destruct Hcs as (_ & Hl & _). by destruct (Hlive Hc d name Hl Hcan).
Qed.

End session.
