(* ===== verification/StoreReopen.v ===== *)
(** * Facts about reopening a saved vault

    In a calm world a well-formed vault can be sealed, and the file that a save
    left opens with the same password to the same contents. *)

From stdpp Require Import gmap.
From S2P Require Import Prelude Status Util Sys Arena Model ModelFacts ModelInv ModelProps Cbor CborFacts CborProps Crypto.
From S2P Require Import CryptoFacts CryptoProps Posix Config Secure Fs FsFacts Store StoreOps StoreFacts StoreReads.
From S2P Require Import StoreSave StoreNames StorePrune StoreCommit StoreSession.

(** libsodium's functions return 0 on the arguments of the program: they fail
    only on lengths out of range. *)
Class SodiumTotal (S : Sodium) : Prop := {
  generichash_total m : is_Some (crypto_generichash m);
  kdf_total i c k : is_Some (crypto_kdf_derive i c k);
  aead_total m a n k : is_Some (aead_encrypt m a n k)
}.

(** The vault and header of an open session. *)
Record session_ok `{Sodium} (vault : pv_vault) (header : pv_file_header) (vmk password recovery_key : list Z) : Prop := mk_session {
  ss_wf : vault_wf vault;
  ss_meta : meta_ok vault;
  ss_vmk : v_vmk vault = Some vmk;
  ss_vmk_len : zlen vmk = PV_WRAP_KEY_BYTES;
  ss_vmk_bytes : is_bytes vmk;
  ss_life : lifecycle vmk header password recovery_key;
  ss_identity : h_vault_id header = v_vault_id vault
}.

Lemma sys_calm_alloc s : sys_calm s -> alloc_ok s /\ s_malloc s 1%nat = true /\ s_mlock s 1%nat = true.
Proof. intros [Hs _]. split_and!; [split |..]; apply Hs. Qed.

Lemma sys_calm_clock s : sys_calm s -> clock_ok s.
Proof. intros [_ Hc]. exact Hc. Qed.

Lemma sys_calm_malloc s : sys_calm s -> exists s', sodium_malloc s = (true, s') /\ sys_calm s'.
Proof.
  intros Hs. pose proof (tame_malloc s) as Ht. destruct (sodium_malloc s) as [b s'] eqn:E. exists s'. unfold sodium_malloc in E.
  destruct (proj1 Hs 0%nat) as (Hm & _). injection E as <- <-. rewrite Hm. split; [done |]. by eapply sys_calm_later.
Qed.

Lemma sys_calm_mlock s : sys_calm s -> exists s', sodium_mlock s = (true, s') /\ sys_calm s'.
Proof.
  intros Hs. pose proof (tame_mlock s) as Ht. destruct (sodium_mlock s) as [b s'] eqn:E. exists s'. unfold sodium_mlock in E.
  destruct (proj1 Hs 0%nat) as (_ & Hm & _). injection E as <- <-. rewrite Hm. split; [done |]. by eapply sys_calm_later.
Qed.

(** Runs the next allocation of a calm platform. *)
Ltac run_calm Hs :=
  rewrite bind_run;
  let s' := fresh "s" in
  first [destruct (sys_calm_malloc _ Hs) as (s' & -> & ?) | destruct (sys_calm_mlock _ Hs) as (s' & -> & ?)]; clear Hs; rename select (sys_calm s') into Hs;
  cbn [negb is_ok andb].

Lemma key_alloc_calm s : sys_calm s -> exists s', secure_key_alloc s = (PV_OK, s') /\ sys_calm s'.
Proof. intros Hs. unfold secure_key_alloc. do 2 run_calm Hs. by eexists. Qed.

Lemma model_init_calm v path s : sys_calm s -> zlen path < PATH_MAX -> exists s', pv_model_init v path s = ((PV_OK, fresh_vault path), s') /\ sys_calm s'.
Proof.
  intros Hs Hlen. assert (Hrun : fst (fst (pv_model_init v path s)) = PV_OK).
  { unfold pv_model_init. replace (PATH_MAX <=? zlen path) with false by lia. rewrite bind_run. unfold pv_arena_init.
    change ((PV_ARENA_CAPACITY =? 0) || (PV_MAX_PLAINTEXT <? PV_ARENA_CAPACITY)) with false. cbn iota.
    do 2 run_calm Hs. unfold mret, M_ret. cbv beta iota. cbn [fst snd is_ok negb]. do 2 run_calm Hs. cbn [v_arena set_arena]. by rewrite fresh_alloc. }
  pose proof (tame_model_init v path s) as Ht. destruct (pv_model_init v path s) as [[st v'] s'] eqn:E. cbn [fst snd] in *. subst st.
  exists s'. split; [| by eapply sys_calm_later]. by destruct (model_init_ok _ _ _ _ _ E) as (-> & _).
Qed.

(** ** The decoder draws no identifiers *)

(** Every value a reader returns has a property. *)
Definition ensures {A} (p : RD A) (P : A -> Prop) : Prop := forall r x r', p r = (Some x, r') -> P x.

Lemma ensures_bind {A B} (p : RD A) (g : A -> RD B) P : (forall x, ensures (g x) P) -> ensures (p ≫= g) P.
Proof. intros Hg r y r'. unfold mbind, RD_bind. destruct (p r) as [[x |] r1]; [apply Hg | done]. Qed.

Lemma ensures_fail {A} st (P : A -> Prop) : ensures (reader_fail st) P.
Proof. by intros r x r'. Qed.

Lemma ensures_ret {A} (x : A) (P : A -> Prop) : P x -> ensures (mret x) P.
Proof. intros HP r y r' E. by injection E as <- _. Qed.

Lemma temporary_revision : ensures decode_temporary (fun t => (r_revision t =? 0) = false).
Proof.
  unfold decode_temporary.
  repeat first [apply ensures_bind; intros | apply ensures_fail | apply ensures_ret; done | match goal with |- ensures (if ?b then _ else _) _ => destruct b eqn:? end].
Qed.

(** A computation that does not run out of fuel. *)
Definition returns {A} (m : M (option A)) : Prop := forall s, fst (m s) <> None.

Lemma returns_some {A} (x : A) : returns (mret (Some x)).
Proof. done. Qed.

Lemma answers_bind {A B} (m : M A) (g : A -> M (option B)) : (forall x, returns (g x)) -> returns (m ≫= g).
Proof. intros Hg s. rewrite bind_run. destruct (m s) as [x s1]. apply Hg. Qed.

Lemma returns_then {A B} (m : M (option A)) (g : option A -> M (option B)) : returns m -> (forall x, returns (g (Some x))) -> returns (m ≫= g).
Proof. intros Hm Hg s. rewrite bind_run. specialize (Hm s). destruct (m s) as [[x |] s1]; [apply Hg | done]. Qed.

Lemma returns_add_record fuel vault source : (r_revision source =? 0) = false -> returns (pv_model_add_record fuel vault source).
Proof.
  intros Hr. unfold pv_model_add_record. rewrite Hr. cbn [negb andb]. apply answers_bind. intros now. cbv zeta. split_if; [apply returns_some |].
  destruct (id_is_zero (r_id source)); [apply returns_some |]. apply answers_bind. intros rw. split_if; [apply returns_some |].
  destruct (ensure_record_capacity _) as [st v]. split_if; [apply returns_some |]. apply returns_then; [apply returns_some |]. intros id.
  split_if; [apply returns_some |]. destruct (copy_record _ _ _ _) as [[st' [record |]] a]; apply returns_some.
Qed.

Lemma returns_decode_records fuel count reader vault : returns (decode_records fuel count reader vault).
Proof.
  revert reader vault. induction count as [| count IH]; intros reader vault; cbn [decode_records]; [apply returns_some |].
  apply returns_then; [| intros [[[] ?] ?]; [apply IH | apply returns_some]]. unfold decode_record.
  destruct (decode_temporary reader) as [[t |] r1] eqn:E; [| apply returns_some].
  apply returns_then; [by eapply returns_add_record, temporary_revision |]. intros [[] ?]; apply returns_some.
Qed.

Lemma returns_read {A} (p : RD A) reader vault k : (forall x r, returns (k x r)) -> returns (read_or_return p reader vault k).
Proof. intros Hk. unfold read_or_return. destruct (p reader) as [[x |] r]; [apply Hk | apply returns_some]. Qed.

(** Every record that is read has a revision, so it must have an identifier. *)
Lemma decode_needs_no_fuel `{Libcbor} fuel input vault : returns (pv_cbor_decode fuel input vault).
Proof.
  unfold pv_cbor_decode.
  repeat first [progress cbv zeta | apply returns_some | apply returns_read; intros | match goal with |- returns (if ?b then _ else _) => destruct b end].
  unfold decode_body. apply returns_then; [apply returns_decode_records |]. intros [[[] ?] ?]; [| apply returns_some].
  split_if; [apply returns_some |]. apply answers_bind. intros ?. apply returns_some.
Qed.

Section tame.
Context `{Sodium} `{Libcbor}.

Lemma tame_build path disk vmk plaintext : tame (build_vault path disk vmk plaintext).
Proof. unfold build_vault. solve_tame. Qed.

End tame.

(** A platform on which nothing fails. *)
Definition example_calm_sys : sys := sys_good (fun i => Z.of_nat i) (fun _ => Some (5, 0)).

Lemma example_calm : sys_calm example_calm_sys.
Proof. split; [done |]. intros i. by vm_compute. Qed.

Section reopen.
Context `{Host} {S : Sodium} {Laws : SodiumLaws S} {Total : SodiumTotal S} {L : Libcbor} {CborLaws : LibcborLaws L}.

Lemma rewrap_calm h new key s : sys_calm s -> zlen key = PV_WRAP_KEY_BYTES -> 0 < zlen new <= crypto_pwhash_PASSWD_MAX ->
  (forall salt, is_Some (crypto_pwhash new salt PV_V1_PASSWORD_OPSLIMIT PV_V1_PASSWORD_MEMLIMIT)) ->
  exists h' s', pv_crypto_rewrap_password h new key s = ((PV_OK, h'), s') /\ sys_calm s' /\ h_vault_id h' = h_vault_id h.
Proof.
  intros Hs Hkey Hnew Hhash. unfold pv_crypto_rewrap_password. rewrite !bind_run. pose proof (tame_randombytes PV_SALT_BYTES s) as H1.
  destruct (randombytes_buf PV_SALT_BYTES s) as [salt s1]. apply sys_calm_later in H1; [| done]. rewrite bind_run. pose proof (tame_randombytes PV_WRAP_NONCE_BYTES s1) as H2.
  destruct (randombytes_buf PV_WRAP_NONCE_BYTES s1) as [nonce s2]. apply sys_calm_later in H2; [| done]. cbv zeta. cbn [snd] in H2. rewrite bind_run. destruct (key_alloc_calm _ H2) as (s3 & -> & H3). cbn [is_ok negb].
  unfold password_key. cbn [ps_opslimit ps_memlimit ps_salt]. replace (zlen new =? 0) with false by lia. replace (crypto_pwhash_PASSWD_MAX <? zlen new) with false by lia.
  cbn [orb]. destruct (Hhash salt) as [k Ek].
  match goal with |- context [if ?b then _ else _] => replace b with false by reflexivity end. rewrite Ek. cbn [is_ok negb].
  unfold wrap_vmk. match goal with |- context [aead_encrypt ?m ?a ?n ?k] => destruct (aead_total m a n k) as [w Ew]; rewrite Ew end.
  apply aead_len in Ew. rewrite Hkey in Ew. replace (zlen w =? PV_WRAPPED_VMK_BYTES) with true by (unfold PV_WRAPPED_VMK_BYTES in *; lia). by eexists _, _.
Qed.

Lemma rewrap_recovery_calm h recovery_key key s : sys_calm s -> zlen key = PV_WRAP_KEY_BYTES ->
  exists h' s', pv_crypto_rewrap_recovery h recovery_key key s = ((PV_OK, h'), s') /\ sys_calm s' /\ h_vault_id h' = h_vault_id h.
Proof.
  intros Hs Hkey. unfold pv_crypto_rewrap_recovery. rewrite bind_run. pose proof (tame_randombytes PV_WRAP_NONCE_BYTES s) as H1.
  destruct (randombytes_buf PV_WRAP_NONCE_BYTES s) as [nonce s1]. apply sys_calm_later in H1; [| done]. cbv zeta. cbn [snd] in H1.
  rewrite bind_run. destruct (key_alloc_calm _ H1) as (s2 & -> & H2). cbn [is_ok negb]. unfold recovery_wrap_key.
  match goal with |- context [crypto_kdf_derive ?i ?c ?k] => destruct (kdf_total i c k) as [wrap Ek]; rewrite Ek end. cbn [is_ok negb].
  unfold wrap_vmk. match goal with |- context [aead_encrypt ?m ?a ?n ?k] => destruct (aead_total m a n k) as [w Ew]; rewrite Ew end.
  apply aead_len in Ew. rewrite Hkey in Ew. replace (zlen w =? PV_WRAPPED_VMK_BYTES) with true by (unfold PV_WRAPPED_VMK_BYTES in *; lia). by eexists _, _.
Qed.

(** A header with an identifier of its own. *)
Lemma create_header_calm h password recovery_key key s :
  sys_calm s -> zlen key = PV_WRAP_KEY_BYTES -> 0 < zlen password <= crypto_pwhash_PASSWD_MAX ->
  (forall salt, is_Some (crypto_pwhash password salt PV_V1_PASSWORD_OPSLIMIT PV_V1_PASSWORD_MEMLIMIT)) ->
  is_bytes (h_vault_id h) -> or_all (h_vault_id h) <> 0 ->
  exists h' s', pv_crypto_create_header h password recovery_key key s = ((PV_OK, h'), s') /\ sys_calm s' /\ h_vault_id h' = h_vault_id h.
Proof.
  intros Hs Hkey Hpw Hhash Hb Hz. unfold pv_crypto_create_header. cbv zeta.
  assert (existsb (fun b => negb (b =? 0)) (h_vault_id h) = true) as ->.
  { destruct (existsb _ _) eqn:E; [done |]. destruct Hz. apply or_all_zero; [done |]. apply Forall_forall. intros b Hin.
    destruct (Z.eq_dec b 0) as [-> | Hne]; [done |]. assert (existsb (fun b => negb (b =? 0)) (h_vault_id h) = true); [| congruence].
    apply existsb_exists. exists b. split; [done | lia]. }
  rewrite bind_run. unfold mret at 1, M_ret at 1. cbv beta iota. rewrite bind_run. set (h1 := mk_header _ _ _ _ _ _ _ _ _ _ _ _ _ _).
  destruct (rewrap_calm h1 password key s Hs Hkey Hpw Hhash) as (h2 & s2 & -> & Hs2 & E2). cbn [fst snd is_ok negb].
  destruct (rewrap_recovery_calm h2 recovery_key key s2 Hs2 Hkey) as (h3 & s3 & -> & Hs3 & E3). eexists _, _. split_and!; [done | done |]. by rewrite E3, E2.
Qed.

Lemma encrypt_calm h vmk p s : sys_calm s -> 0 < zlen p -> zlen p + 4 <= PV_MAX_PLAINTEXT ->
  exists h' c s', pv_crypto_encrypt_body h vmk p s = ((PV_OK, h', Some c), s').
Proof.
  intros [Hs _] Hpos Hmax. apply encrypt_runs; try done; [intros i; split; apply Hs | apply kdf_total | intros; apply aead_total].
Qed.

(** The vault a save writes. *)
Lemma next_vault_ok vault header vmk pw rk now :
  session_ok vault header vmk pw rk -> 0 <= now <= INT64_MAX ->
  let vault1 := set_generation_time vault (u64 (v_generation vault + 1)) now in
  vault_wf vault1 /\ meta_ok vault1 /\ contents vault1 = contents vault /\ vmk_bytes vault1 = vmk.
Proof.
  intros [Hwf Hmeta Hvmk _ _ _ _] Hnow vault1. split_and!.
  - destruct Hwf. by split.
  - destruct Hmeta. split; cbn; try done. unfold u64, UINT64_MAX. pose proof (Z.mod_pos_bound (v_generation vault + 1) 18446744073709551616 ltac:(lia)). lia.
  - done.
  - unfold vmk_bytes, vault1. cbn. by rewrite Hvmk.
Qed.

(** A file that was sealed opens again. *)
Lemma sealed_opens vault header header' vmk pw rk now hb ct s s' s0 :
  session_ok vault header vmk pw rk -> 0 <= now <= INT64_MAX -> sys_calm s0 ->
  let vault1 := set_generation_time vault (u64 (v_generation vault + 1)) now in
  seal_vault vault1 header s = ((PV_OK, header', hb, ct), s') ->
  file_image hb ct header' /\ lifecycle vmk header' pw rk /\ h_vault_id header' = v_vault_id vault /\
    fst (pv_crypto_decrypt_body header' vmk ct s0) = (PV_OK, Some (encoding vault1)).
Proof.
  intros Hss Hnow Hs0 vault1 Eseal.
  destruct (next_vault_ok _ _ _ _ _ _ Hss Hnow) as (Hwf & Hmeta & _ & Hvmk). fold vault1 in Hwf, Hmeta, Hvmk.
  destruct (seal_status _ _ _ _ _ _ _ _ Eseal) as [_ Hok]. destruct (Hok eq_refl) as (_ & -> & encoded & s1 & Eenc & Ecrypt).
  pose proof (encode_run vault1 s Hwf Hmeta) as Hrun. rewrite Eenc in Hrun. cbn [fst] in Hrun. destruct (s_malloc s 0%nat && s_mlock s 0%nat); [| done].
  injection Hrun as ->. cbn [default from_option id] in Ecrypt. rewrite Hvmk in Ecrypt. pose proof (encoding_bytes _ Hwf Hmeta) as Hbytes.
  pose proof Hss as [_ _ _ _ Hvb Hlife Hid]. pose proof (life_save _ _ _ _ _ _ _ _ _ Hlife Hbytes Ecrypt) as Hlife'.
  destruct (sys_calm_alloc _ Hs0) as (Ha & Hm & Hk).
  destruct (encrypted_body_opens _ _ _ _ _ _ _ _ _ s0 Hvb Hbytes Hlife Ecrypt Ha Hm Hk) as (Hdec & Hlen & Hopen).
  split_and!; [| done | | done].
  - split_and!; [| done | done | apply generichash_total].
    rewrite serialized_eq; [| eapply io_typed, lifecycle_inv; done]. apply header_len. eapply io_typed, lifecycle_inv; done.
  - apply encrypt_body_ok in Ecrypt as (_ & _ & n & pad & key & -> & _); [| done]. exact Hid.
Qed.

Lemma session_sealable vault header vmk pw rk : session_ok vault header vmk pw rk -> sealable vault header.
Proof.
  intros Hss now s Hnow Hs. set (vault1 := set_generation_time _ _ _). destruct (next_vault_ok _ _ _ _ _ _ Hss Hnow) as (Hwf & Hmeta & _ & Hvmk).
  fold vault1 in Hwf, Hmeta, Hvmk. pose proof (encode_run vault1 s Hwf Hmeta) as Hrun. destruct (sys_calm_alloc _ Hs) as ([Hm Hk] & _).
  rewrite Hm, Hk in Hrun. cbn [andb] in Hrun. pose proof (tame_cbor_encode vault1 s) as Ht. destruct (encoding_size vault1 Hwf Hmeta) as [Hpos Hmax].
  destruct (pv_cbor_encode vault1 s) as [r s1] eqn:Eenc. cbn [fst snd] in Hrun, Ht. subst r.
  destruct (encrypt_calm header vmk (encoding vault1) s1 (sys_calm_later _ _ Ht Hs) Hpos Hmax) as (h' & c & s2 & Ecrypt).
  assert (Eseal : seal_vault vault1 header s = ((PV_OK, h', serialized_header h', c), s2)).
  { unfold seal_vault. rewrite bind_run, Eenc. cbn [is_ok negb default from_option id]. rewrite bind_run, Hvmk, Ecrypt. done. }
  destruct (sealed_opens vault header h' vmk pw rk now _ _ _ _ s Hss Hnow Hs Eseal) as [Himage _].
  exists h', (serialized_header h'), c. by rewrite Eseal.
Qed.

(** ** Opening *)

(** The vault that opening [v1]'s file yields. *)
Record opened_as (v1 : pv_vault) (disk : pv_disk_file) (vmk path : list Z) (v : pv_vault) : Prop := mk_opened {
  op_wf : vault_wf v;
  op_contents : contents v = contents v1;
  op_generation : v_generation v = v_generation v1;
  op_device : v_device_id v = v_device_id v1;
  op_times : v_created_ms v = v_created_ms v1 /\ v_updated_ms v = v_updated_ms v1;
  op_identity : v_vault_id v = h_vault_id (disk_header disk) /\ v_vmk v = Some vmk /\ v_path v = path;
  op_hash : v_source_hash v = disk_hash disk;
  op_clean : v_dirty v = false /\ a_readonly (v_arena v) = true
}.

Lemma split_path_length path parent name : split_parent_and_name path = (PV_OK, parent, name) -> zlen path < PATH_MAX.
Proof. unfold split_parent_and_name. destruct (_ || _) eqn:E; [done |]. intros _. apply orb_false_iff in E as [_ E]. lia. Qed.

Lemma identity_rebuilt v vid vmk hash cs : rebuilt v cs -> rebuilt (set_source_hash (set_identity v vid vmk) hash) cs.
Proof. intros [[] ? ? ?]. by constructor. Qed.

Lemma build_vault_calm path disk vmk v1 s :
  sys_calm s -> zlen path < PATH_MAX -> vault_wf v1 -> meta_ok v1 ->
  exists v s', build_vault path disk vmk (encoding v1) s = ((PV_OK, v), s') /\ opened_as v1 disk vmk path v.
Proof.
  intros Hs Hlen Hwf Hm. unfold build_vault. rewrite bind_run. destruct (model_init_calm vault_zero path s Hs Hlen) as (s1 & -> & Hs1). cbn [is_ok negb].
  set (d := set_source_hash _ _). assert (rebuilt d []) as Hd by apply identity_rebuilt, fresh_rebuilt.
  pose proof (encoding_bytes v1 Hwf Hm) as Hb. destruct (encoding_size v1 Hwf Hm) as [Hpos Hmax]. destruct (vault_wf_fits v1 Hwf) as [Hfit _].
  pose proof Hm as [Hg Hc Hu Hdev Hdb Hdz].
  destruct (decode_run 0 (v_generation v1) (v_created_ms v1) (v_updated_ms v1) (v_device_id v1) (contents v1) d s1)
    as (v' & s' & Hrun & R1 & R2 & R3 & R4 & R5 & R6 & R7 & R8 & R9 & R10 & R11 & R12); auto using vault_contents_ok, sys_calm_clock.
  - rewrite contents_ids. apply (vw_ids v1 Hwf).
  - change (0 < zlen (encoding v1) <= PV_MAX_PLAINTEXT). lia.
  - destruct (proj1 Hs1 0%nat) as (_ & _ & Hp). rewrite Hp in Hrun, R8. rewrite bind_run. unfold store_cbor_decode. rewrite bind_run.
    change (enc_vault _ _ _ _ _) with (encoding v1) in Hrun. rewrite Hrun. unfold mret, M_ret. cbv beta iota. rewrite R9. cbn [d set_source_hash set_identity v_vault_id].
    rewrite bytes_eqb_refl. cbn [negb andb is_ok]. exists v', s'. split; [done |]. split; try done.
Qed.

Lemma wp_open_common (J : fs -> Prop) path credential recovery consumed vmk header0 d name i n disk v1 w :
  calm w -> leads_to w path d name -> disk_of (w_fs w) d name i n disk ->
  (forall s, sys_calm s -> fst (unlock_credential (disk_header disk) credential recovery s) = (PV_OK, vmk)) -> vault_wf v1 -> meta_ok v1 ->
  (forall s, sys_calm s -> fst (pv_crypto_decrypt_body (disk_header disk) vmk (disk_ciphertext disk) s) = (PV_OK, Some (encoding v1))) ->
  wp J (open_common path credential recovery consumed header0)
    (fun r w' => same w w' /\ fst (fst (fst r)) = PV_OK /\ snd r = disk_header disk /\ opened_as v1 disk vmk path (snd (fst r))) w.
Proof.
  intros Hc Hl D Hunlock Hwf Hm Hdec. assert (Hlen : zlen path < PATH_MAX) by (destruct Hl as (parent & E & _); by eapply split_path_length).
  unfold open_common. apply wp_bind, wp_read_disk_file.
  { intros st w1 S1 _ _ Hno. by destruct (Hno Hc d name i n disk). }
  intros parent d' name' i' n' disk' w1 S1 Esplit Hr D'. destruct Hl as (parent' & Esplit' & Hr' & Hg).
  assert (d' = d /\ name' = name) as [-> ->] by (rewrite Esplit in Esplit'; by simplify_eq). destruct (disk_of_unique _ _ _ _ _ _ _ _ _ D D') as (_ & _ & ->).
  cbn [is_ok negb]. assert (calm w1) as Hc1 by eauto with calm. pose proof (calm_sys _ Hc1) as Hs1.
  apply wp_bind, wp_lift; [unfold vmk_alloc; solve_tame |]. intros allocated w2 S2 Ealloc. unfold vmk_alloc in Ealloc.
  assert (allocated = true) as ->.
  { rewrite bind_run in Ealloc. destruct (sys_calm_malloc _ Hs1) as (s2 & Em & Hs2). rewrite Em in Ealloc. cbn [negb] in Ealloc.
    destruct (sys_calm_mlock _ Hs2) as (s3 & Ek & _). rewrite Ek in Ealloc. by simplify_eq. }
  cbn [negb]. apply wp_bind, wp_lift; [auto with pv |]. intros [st vmk'] w3 S3 Eunlock.
  assert (calm w2) as Hc2 by eauto with calm. pose proof (Hunlock (w_sys w2) (calm_sys _ Hc2)) as Hun.
  rewrite Eunlock in Hun. cbn [fst] in Hun. simplify_eq. cbn [is_ok].
  assert (calm w3) as Hc3 by eauto with calm. apply wp_bind, wp_lift; [auto with pv |]. intros r w4 S4 Edec. pose proof (Hdec (w_sys w3) (calm_sys _ Hc3)) as Hd.
  rewrite Edec in Hd. cbn [fst] in Hd. subst r. cbn [is_ok default from_option id]. assert (calm w4) as Hc4 by eauto with calm.
  destruct (build_vault_calm path disk vmk v1 (w_sys w4) (calm_sys _ Hc4) Hlen Hwf Hm) as (v & s' & Ebuild & Hopened).
  apply wp_bind, wp_lift; [apply tame_build |]. intros r w5 S5 Er. rewrite Ebuild in Er. simplify_eq. cbn [is_ok negb andb].
  apply wp_bind, wp_ret, wp_ret. cbn [fst snd is_ok]. split_and!; try done.
  etrans; [exact S1 |]. etrans; [exact S2 |]. etrans; [exact S3 |]. by etrans.
Qed.

Lemma wp_open_password (J : fs -> Prop) path pw rk vmk header0 d name i n disk v1 w :
  calm w -> leads_to w path d name -> disk_of (w_fs w) d name i n disk -> lifecycle vmk (disk_header disk) pw rk ->
  zlen vmk = PV_WRAP_KEY_BYTES -> is_bytes vmk -> vault_wf v1 -> meta_ok v1 ->
  (forall s, sys_calm s -> fst (pv_crypto_decrypt_body (disk_header disk) vmk (disk_ciphertext disk) s) = (PV_OK, Some (encoding v1))) ->
  wp J (pv_store_open_password path pw header0)
    (fun r w' => same w w' /\ fst (fst r) = PV_OK /\ snd r = disk_header disk /\ opened_as v1 disk vmk path (snd (fst r))) w.
Proof.
  intros Hc Hl D Hlife Hvl Hvb Hwf Hm Hdec. destruct (lifecycle_inv _ _ _ _ Hvb Hlife) as (Hi & Hpw & _). unfold pv_store_open_password.
  eapply wp_then; [eapply (wp_open_common J path pw false None vmk header0 d name i n disk v1 w); try done |].
  - intros s Hs. apply unlock_password_opens; [apply Hi | done | apply sys_calm_alloc, Hs | done].
  - intros [[[st freed] v] h] w1 _ Hout. by apply wp_ret.
Qed.

Lemma wp_open_recovery (J : fs -> Prop) path pw rk vmk header0 d name i n disk v1 w :
  calm w -> leads_to w path d name -> disk_of (w_fs w) d name i n disk -> lifecycle vmk (disk_header disk) pw rk -> zlen rk = PV_RECOVERY_KEY_BYTES ->
  zlen vmk = PV_WRAP_KEY_BYTES -> is_bytes vmk -> vault_wf v1 -> meta_ok v1 ->
  (forall s, sys_calm s -> fst (pv_crypto_decrypt_body (disk_header disk) vmk (disk_ciphertext disk) s) = (PV_OK, Some (encoding v1))) ->
  wp J (pv_store_open_recovery path rk header0)
    (fun r w' => same w w' /\ fst (fst r) = PV_OK /\ snd r = disk_header disk /\ opened_as v1 disk vmk path (snd (fst r))) w.
Proof.
  intros Hc Hl D Hlife Hrk Hvl Hvb Hwf Hm Hdec. destruct (lifecycle_inv _ _ _ _ Hvb Hlife) as (Hi & _ & Hrec). unfold pv_store_open_recovery.
  rewrite <- Hrk, zsub_all. eapply wp_then; [eapply (wp_open_common J path rk true None vmk header0 d name i n disk v1 w); try done |].
  - intros s Hs. unfold unlock_credential. rewrite Hrk. change (negb (PV_RECOVERY_KEY_BYTES =? PV_RECOVERY_KEY_BYTES)) with false.
    apply unlock_recovery_opens; [apply Hi | done | apply sys_calm_alloc, Hs | done].
  - intros [[[st freed] v] h] w1 _ Hout. by apply wp_ret.
Qed.

(** ** The session after a save *)

Lemma vault_wf_fields v v' : v_arena v' = v_arena v -> v_records v' = v_records v -> v_record_capacity v' = v_record_capacity v -> vault_wf v -> vault_wf v'.
Proof.
  intros Ea Er Ec [W1 W2 W3 W4 W5 W6 W7 W8]. assert (contents v' = contents v) as Econ by (unfold contents; by rewrite Ea, Er).
  assert (vault_slices v' = vault_slices v) as Es by (unfold vault_slices; by rewrite Er). split; rewrite ?Ea, ?Er, ?Ec, ?Econ, ?Es; done.
Qed.

Lemma saved_wf vault vault' new : vault_saved vault vault' new -> vault_wf vault -> vault_wf vault' /\ contents vault' = contents vault.
Proof.
  intros [_ _ _ Er _ [Ec [s Ea]]] Hwf. destruct (pv_arena_set_readonly (v_arena vault) s) as [[st a] s'] eqn:E. cbn [fst snd] in Ea.
  destruct (set_protection_same _ _ _ _ _ (or_introl E)) as (P1 & P2 & P3 & P4).
  destruct (vault_wf_protect vault a Hwf P1 P2 P3 P4) as [Hwf' Hcon]. split; [by eapply (vault_wf_fields (set_arena vault a)) |].
  rewrite <- Hcon. unfold contents. by rewrite Er, Ea.
Qed.

Lemma sealed_time vault header header' now new vmk pw rk : session_ok vault header vmk pw rk -> sealed_as vault header header' now new -> 0 <= now.
Proof.
  intros Hss (hb & ct & s & s' & _ & Eseal). destruct (seal_status _ _ _ _ _ _ _ _ Eseal) as [_ Hok]. destruct (Hok eq_refl) as (_ & _ & encoded & s1 & Eenc & _).
  unfold pv_cbor_encode in Eenc. destruct (Z.ltb_spec now 0) as [Hneg | ?]; [| done].
  change (v_updated_ms (set_generation_time vault _ now)) with now in Eenc. replace (now <? 0) with true in Eenc by lia.
  rewrite orb_true_r in Eenc. discriminate Eenc.
Qed.

(** A committed save leaves a session. *)
Lemma committed_session w d name vault header create_only retention old new r w' vmk pw rk :
  session_ok vault header vmk pw rk -> save_outcome w d name vault header create_only retention old new r w' ->
  fst (fst r) = PV_OK \/ fst (fst r) = PV_ERR_DURABILITY -> v_updated_ms (snd (fst r)) <= INT64_MAX ->
  session_ok (snd (fst r)) (snd r) vmk pw rk /\ contents (snd (fst r)) = contents vault.
Proof.
  intros Hss Hout Hst Hms. destruct (so_sealed _ _ _ _ _ _ _ _ _ _ _ Hout Hst) as [Hseal _]. set (vault' := snd (fst r)) in *. set (header' := snd r) in *.
  pose proof (sealed_time _ _ _ _ _ _ _ _ Hss Hseal) as Hpos. assert (Hnow : 0 <= v_updated_ms vault' <= INT64_MAX) by lia.
  destruct (next_vault_ok _ _ _ _ _ _ Hss Hnow) as (Hwf1 & Hm1 & Hcon1 & _). destruct Hseal as (hb & ct & s & s' & _ & Eseal).
  destruct (sealed_opens vault header header' vmk pw rk _ _ _ _ _ example_calm_sys Hss Hnow example_calm Eseal) as (_ & Hlife & Hid & _).
  pose proof Hss as [Hwf Hmeta Hvmk Hvl Hvb _ _].
  assert (Hcases : vault_saved vault vault' new \/ vault' = set_generation_time vault (u64 (v_generation vault + 1)) (v_updated_ms vault')).
  { destruct Hst as [Hst | Hst]; [left; by apply Hout | by apply Hout]. }
  destruct Hcases as [Hsaved | Heq].
  - destruct (saved_wf _ _ _ Hsaved Hwf) as [Hwf' Hcon]. destruct Hsaved as [G1 _ _ _ (I1 & I2 & I3 & I4 & _) _]. split; [| done].
    split; try done; [| by rewrite I3 | by rewrite I1]. destruct Hm1 as [M1 _ _ _ _ _]. cbn in M1. destruct Hmeta. split; rewrite ?G1, ?I2, ?I4; done.
  - rewrite Heq. split; [| done]. split; done.
Qed.

(** What a file that was saved opens to. *)
Definition opens_as (vault vault' : pv_vault) (header' : pv_file_header) (r : pv_status * pv_vault * pv_file_header) : Prop :=
  let '(st, opened, header) := r in
  st = PV_OK /\ header = header' /\ contents opened = contents vault /\
  v_generation opened = u64 (v_generation vault + 1) /\ v_vault_id opened = v_vault_id vault /\ v_device_id opened = v_device_id vault /\
  v_created_ms opened = v_created_ms vault /\ v_vmk opened = v_vmk vault /\ v_source_hash opened = v_source_hash vault' /\
  v_dirty opened = false /\ vault_wf opened.

(** The file a save left opens in a calm world, with the password and with the
    recovery key. *)
Lemma saved_opens w d name vault header header0 header' vault' create_only retention old new w' vmk password recovery_key w2 :
  session_ok vault header vmk password recovery_key -> save_outcome w d name vault header create_only retention old new (PV_OK, vault', header') w' ->
  calm w -> calm w' -> leads_to w' (v_path vault) d name -> same w' w2 ->
  opens_as vault vault' header' (fst (pv_store_open_password (v_path vault) password header0 w2)) /\
  (zlen recovery_key = PV_RECOVERY_KEY_BYTES -> opens_as vault vault' header' (fst (pv_store_open_recovery (v_path vault) recovery_key header0 w2))).
Proof.
  intros Hss Hout Hcalm Hcalm' Hleads S2. destruct Hout as [_ _ O3 _ _ O6 _ _ _ _]. cbn [fst snd] in *.
  destruct (O3 eq_refl) as (_ & Hsaved & i & Ei & Ni & Hp). destruct (O6 (or_introl eq_refl)) as [(hb & ct & s & s' & -> & Eseal) Hms]. specialize (Hms Hcalm).
  set (v1 := set_generation_time vault (u64 (v_generation vault + 1)) (v_updated_ms vault')) in *.
  destruct (next_vault_ok _ _ _ _ _ _ Hss Hms) as (Hwf1 & Hm1 & Hcon1 & _).
  destruct (sealed_opens vault header header' vmk password recovery_key _ _ _ _ _ example_calm_sys Hss Hms example_calm Eseal) as (Himage & Hlife & Hid & _).
  rewrite <- (same_fs _ _ S2) in Ei, Ni. destruct (image_disk _ _ _ _ _ _ _ _ Ei Ni ltac:(done) ltac:(done) Himage) as (disk & D & Dhb & Dct & Dh & Dhash).
  assert (Hleads2 : leads_to w2 (v_path vault) d name) by by eapply leads_to_same. assert (calm w2) as Hc2 by eauto with calm.
  assert (Hdec : forall s0, sys_calm s0 -> fst (pv_crypto_decrypt_body (disk_header disk) vmk (disk_ciphertext disk) s0) = (PV_OK, Some (encoding v1))).
  { intros s0 Hs0. rewrite Dh, Dct. by apply (sealed_opens vault header header' vmk password recovery_key _ _ _ _ _ s0 Hss Hms Hs0 Eseal). }
  assert (Hend : forall m : W (pv_status * pv_vault * pv_file_header),
    wp (fun _ => True) m (fun r w'' => same w2 w'' /\ fst (fst r) = PV_OK /\ snd r = disk_header disk /\ opened_as v1 disk vmk (v_path vault) (snd (fst r))) w2 ->
    opens_as vault vault' header' (fst (m w2))).
  { intros m Hm. destruct (m w2) as [[[st2 opened] header2] w''] eqn:E2.
    destruct (wp_run _ _ _ _ _ _ Hm E2) as (_ & _ & _ & Hst2 & Hh2 & [P1 P2 P3 P4 [P5 _] (P6 & P7 & _) P8 [P9 _]]). cbn [fst snd opens_as] in *.
    rewrite Dh in Hh2, P6. rewrite Hid in P6. destruct Hsaved as [_ _ V3 _ _ _].
    split_and!; try done; [by rewrite P7, (ss_vmk _ _ _ _ _ Hss) | rewrite P8; rewrite V3 in Dhash; by simplify_eq]. }
  pose proof (ss_vmk_len _ _ _ _ _ Hss). pose proof (ss_vmk_bytes _ _ _ _ _ Hss). rewrite <- Dh in Hlife.
  split; [| intros Hrk]; apply Hend; [by eapply wp_open_password | by eapply wp_open_recovery].
Qed.

(** In a calm world a save succeeds, and from then on the file opens. *)
Lemma save_reopens vault header header0 vmk password recovery_key retention name old d w :
  session_ok vault header vmk password recovery_key -> v_dirty vault = true -> 1 <= retention -> world_ok w -> calm w ->
  settled (w_fs w) d name (Some old) -> can_lock (w_fs w) d name -> can_save w d name vault header false ->
  let '((st, vault', header'), w') := pv_store_save vault header retention w in
  st = PV_OK /\ forall w2, same w' w2 ->
  let '((st2, opened, header2), _) := pv_store_open_password (v_path vault) password header0 w2 in
  st2 = PV_OK /\ header2 = header' /\ contents opened = contents vault /\
  v_generation opened = u64 (v_generation vault + 1) /\ v_vault_id opened = v_vault_id vault /\ v_device_id opened = v_device_id vault /\
  v_created_ms opened = v_created_ms vault /\ v_vmk opened = v_vmk vault /\ v_source_hash opened = v_source_hash vault' /\
  v_dirty opened = false /\ vault_wf opened.
Proof.
  intros Hss Hdirty Hret Hok Hcalm Hold Hlock Hcan.
  pose proof Hcan as (_ & Hleads & _). pose proof Hleads as (parent & Hpath & Hparent & (nd & Hnd & Hdir & Hgood)).
  destruct (wp_store_save vault header retention parent d name old w Hok Hdirty Hpath Hparent Hold) as [new Hwp].
  destruct (pv_store_save vault header retention w) as [[[st vault'] header'] w'] eqn:E. destruct (wp_run _ _ _ _ _ _ Hwp E) as (_ & C & Hout & Hlive & _).
  specialize (Hlive Hcalm Hret Hlock Hcan). cbn [fst] in Hlive. subst st. split; [done |]. intros w2 S2. destruct (C Hcalm) as [Hcalm' Hres].
  assert (Hleads' : leads_to w' (v_path vault) d name).
  { exists parent. rewrite Hres. split_and!; [done | done |]. exists nd. split_and!; [by apply (so_directory _ _ _ _ _ _ _ _ _ _ _ Hout) | done | apply Hgood ..]. }
  destruct (saved_opens w d name vault header header0 header' vault' false retention (Some old) new w' vmk password recovery_key w2) as [Hopen _]; try done.
  unfold opens_as in Hopen. by destruct (pv_store_open_password (v_path vault) password header0 w2) as [[[st2 opened] header2] w''].
Qed.

End reopen.
