(* ===== verification/StoreCreate.v ===== *)
(** * Facts about creating a vault

    [ensure_parent_directory] and [create_common]: what creation leaves alone,
    whatever fails, and that it succeeds when nothing does. *)

From stdpp Require Import gmap.
From S2P Require Import Prelude Status Util Sys Arena Model ModelFacts ModelInv ModelProps Cbor CborFacts CborProps Crypto.
From S2P Require Import CryptoFacts CryptoProps Posix Config Secure Fs FsFacts Store StoreOps StoreFacts StoreReads.
From S2P Require Import StoreSave StoreNames StorePrune StoreCommit StoreSession StoreReopen.

(** ** Nothing is given up *)

(** Names and contents are added only. *)
Record grows (w w' : world) : Prop := mk_grows {
  gr_ok : world_ok w';
  gr_next : w_next w <= w_next w';
  gr_extends : extends none (w_fs w) (w_fs w')
}.

Lemma grows_refl w : world_ok w -> grows w w.
Proof. intros. by split. Qed.

Lemma grows_trans w1 w2 w3 : grows w1 w2 -> grows w2 w3 -> grows w1 w3.
Proof. intros [A1 A2 A3] [B1 B2 B3]. split; [done | lia | by etrans]. Qed.

Lemma grows_same w w1 w2 : grows w w1 -> same w1 w2 -> grows w w2.
Proof. intros [A1 A2 A3] S. split; [by eapply world_ok_same | rewrite (same_next _ _ S); lia | by rewrite (same_fs _ _ S)]. Qed.

Lemma adds_grows X Y w w1 : adds X Y w w1 -> grows w w1.
Proof. intros [A1 A2 A3 _]. by split. Qed.

(** A computation that only adds, at every moment. *)
Definition growing {A} (m : W A) : Prop := forall w, world_ok w -> wp (extends none (w_fs w)) m (fun _ w' => grows w w') w.

(** From where something was only added to what there was before. *)
Lemma wp_grown {A} (m : W A) (Q : A -> world -> Prop) w0 w :
  grows w0 w -> wp (extends none (w_fs w)) m (fun r w' => grows w w' /\ Q r w') w ->
  wp (extends none (w_fs w0)) m (fun r w' => grows w0 w' /\ Q r w') w.
Proof.
  intros G Hm. eapply wp_weaken; [eapply wp_mono; [exact Hm |] |].
  - intros r w' _ [G' HQ]. split; [by eapply grows_trans | done].
  - intros f Hf. etrans; [apply G | done].
Qed.

Lemma growing_run {A} (m : W A) w0 w : growing m -> grows w0 w -> wp (extends none (w_fs w0)) m (fun _ w' => grows w0 w') w.
Proof.
  intros Hm G. eapply wp_mono; [apply (wp_grown m (fun _ _ => True) w0 w G); eapply wp_mono; [apply Hm, G |] |]; [by split | by intros ? ? _ []].
Qed.

Lemma growing_quiet {A} (m : W A) : quiet m -> growing m.
Proof. intros Hm w Hok. apply wp_quiet; [done |]. intros x w' S. eapply grows_same; [by apply grows_refl | done]. Qed.

Lemma growing_ret {A} (x : A) : growing (mret x).
Proof. apply growing_quiet, quiet_ret. Qed.

Lemma growing_bind {A B} (m : W A) (g : A -> W B) : growing m -> (forall x, growing (g x)) -> growing (m ≫= g).
Proof.
  intros Hm Hg w Hok. eapply wp_then; [by apply Hm |]. intros x w' _ G. by apply growing_run.
Qed.

(** Decides that a computation only adds, by its structure. *)
Ltac solve_growing :=
  repeat first
    [ progress cbv zeta | assumption | apply growing_ret | solve [apply growing_quiet; auto with pv] | solve [auto with pv]
    | apply growing_bind; [| intros]
    | match goal with
      | |- growing (match ?x with _ => _ end) => destruct x
      | |- growing (let '(_, _) := ?x in _) => destruct x
      end ].

Section create.
Context `{Host} `{Sodium} `{Libcbor}.

(** ** Directories *)

Lemma growing_mkdir path : growing (mkdir path).
Proof.
  intros w Hok. unfold mkdir. apply wp_bind, wp_quiet; [auto with pv |]. intros at_name w1 S1. apply wp_bind, wp_get_fs.
  assert (Hsame : forall w2, same w1 w2 -> grows w w2) by (intros w2 S2; eapply grows_same; [by apply grows_refl | by etrans]).
  destruct at_name as [[d name] |]; [| by apply wp_ret, Hsame]. destruct (f_inodes (w_fs w1) !! d) as [n |] eqn:En; [| by apply wp_ret, Hsame].
  assert (world_ok w1) as Hok1 by by eapply world_ok_same. pose proof (ok_inode _ _ Hok1 _ _ En) as Hd.
  assert (Hnew : entry (w_fs w1) d name = None -> extends none (w_fs w1) (with_dir (w_fs w1) d name (w_next w1) created_dir)).
  { intros E. apply with_dir_extends; [by apply unused_next | by apply no_dir_next]. }
  rewrite <- (same_fs _ _ S1). apply wp_mkdirat.
  - done.
  - intros e w2 S2 _. by apply Hsame.
  - intros w2 E F2 N2 _. split; [unfold world_ok; rewrite F2, N2; apply with_dir_ok; [done | by apply unused_next] | rewrite N2, (same_next _ _ S1); lia |].
    rewrite F2, <- (same_fs _ _ S1). by apply Hnew.
Qed.

Lemma growing_fsync_directory d : growing (fsync_directory d).
Proof.
  intros w Hok. eapply wp_fsync_directory; [reflexivity | by apply dir_synced_extends | |].
  - intros w' S _. eapply grows_same; [by apply grows_refl | done].
  - intros w' F N _. split; [unfold world_ok; rewrite F, N; by apply dir_synced_ok | lia | rewrite F; by apply dir_synced_extends].
Qed.

Hint Resolve growing_mkdir growing_fsync_directory quiet_open_directory quiet_close quiet_lstat quiet_fstat : pv.

Lemma growing_make_directory path : growing (make_directory path).
Proof. unfold make_directory, store_fsync_parent_path. solve_growing. Qed.

Lemma growing_make_directories components : forall current, growing (make_directories current components).
Proof.
  induction components as [| component components IH]; intros current; cbn [make_directories]; [apply growing_ret |].
  pose proof growing_make_directory. solve_growing.
Qed.

Lemma growing_ensure_parent path len : growing (ensure_parent_directory path len).
Proof.
  unfold ensure_parent_directory, validate_parent_security, open_private_parent. pose proof growing_make_directories. solve_growing.
Qed.

(** ** The lock *)

(** The location that is locked is in a directory there is. *)
Lemma wp_lock_grows path w : world_ok w ->
  wp (extends none (w_fs w)) (lock_vault path)
    (fun r w' => grows w w' /\ forall location, snd r = Some location -> exists d name, location = location_at d name /\ d < w_next w') w.
Proof.
  intros Hok. destruct (split_parent_and_name path) as [[st parent] name] eqn:Esplit. destruct (decide (st = PV_OK)) as [-> | Hst].
  - eapply wp_weaken; [eapply wp_mono; [by apply wp_lock_vault |] |].
    + intros r w' _ ((X & Y & A) & _ & Hloc & _). split; [by eapply adds_grows |]. intros location El. rewrite El in Hloc.
      destruct Hloc as (_ & parent' & name' & d & -> & _ & _ & (n & Hn & _) & _). exists d, name'. split; [done |]. apply (ok_inode _ _ Hok) in Hn. pose proof (adds_next _ _ _ _ A). lia.
    + intros f Hf. by apply (Hf parent name Esplit).
  - unfold lock_vault. apply wp_bind, wp_open_store_location; [| intros; congruence].
    intros st' w1 S1 _ _ _. apply wp_ret. split; [eapply grows_same; [by apply grows_refl | done] | done].
Qed.

(** ** The first save *)

Lemma quiet_revalidate path location : quiet (revalidate_store_location path location).
Proof. unfold revalidate_store_location, open_store_location, close_store_location. solve_quiet. Qed.

Hint Resolve quiet_revalidate : pv.

Lemma quiet_read_back location vault hb ct warning : quiet (read_back location vault hb ct warning).
Proof. unfold read_back. solve_quiet. Qed.

Lemma quiet_finish_new vault verified warning generation retention : quiet (finish_save vault verified warning None generation retention).
Proof. unfold finish_save. solve_quiet. Qed.

Lemma wp_write_new d name hb ct w : world_ok w -> d < w_next w -> 0 < zlen ct ->
  wp (extends none (w_fs w)) (write_atomic_at (location_at d name) hb ct true) (fun _ w' => grows w w') w.
Proof.
  intros Hok Hd Hct. pose proof (wp_write_atomic_at (location_at d name) hb ct true w Hok Hd Hct) as Hw. cbv zeta in Hw. cbn [location_at directory_fd location_name] in Hw.
  eapply wp_weaken; [eapply wp_mono; [exact Hw |] | intros g [s W]; by eapply writing_extends_excl].
  intros st w' _ (Hnext & Hok' & Hout & _). split; [done | lia |].
  destruct Hout as [(_ & W & _) | [(_ & W & _) | (_ & _ & W)]]; by eapply writing_extends_excl.
Qed.

Lemma wp_save_new d name vault header retention w : world_ok w -> d < w_next w ->
  wp (extends none (w_fs w)) (save_locked (location_at d name) vault header retention true) (fun _ w' => grows w w') w.
Proof.
  intros Hok Hd. unfold save_locked. apply wp_bind, wp_load_current.
  { intros st w1 S1 _ _ _. apply wp_ret. eapply grows_same; [by apply grows_refl | done]. }
  intros [disk |] w1 S1 _ Hload; [by destruct Hload |]. cbv zeta. apply wp_bind, wp_quiet; [auto with pv |]. intros now w2 S2.
  set (vault1 := set_generation_time _ _ _). apply wp_bind, wp_lift; [auto with pv |]. intros [[[st header'] hb] ct] w3 S3 Eseal.
  destruct (seal_status _ _ _ _ _ _ _ _ Eseal) as [_ Hct]. assert (S : same w w3) by (etrans; [done |]; by etrans).
  assert (G : grows w w3) by (eapply grows_same; [by apply grows_refl | done]).
  eapply (wp_then _ _ _ (fun r w' => grows w w' /\ snd r = None)).
  - unfold commit_save. apply wp_bind, wp_ret. apply wp_bind. eapply wp_mono; [apply growing_run; [| exact G]; split_if; apply growing_quiet; auto with pv |].
    intros valid w4 _ G4. cbv zeta. set (st1 := if negb (is_ok valid) then _ else _). destruct (is_ok st1) eqn:E1.
    + assert (st = PV_OK) as -> by (revert E1; unfold st1; destruct (is_ok valid); cbn [negb]; [by intros ?%is_ok_iff | done]). apply wp_bind.
      eapply wp_mono; [eapply (wp_grown _ (fun _ _ => True)); [exact G4 |]; eapply wp_mono; [apply wp_write_new; [apply G4 | pose proof (gr_next _ _ G4); lia | by apply Hct] |] |].
      * by split.
      * intros st2 w5 _ [G5 _]. by apply wp_ret.
    + apply wp_bind, wp_ret, wp_ret. done.
  - intros [st' backups] w4 _ [G4 Eb]. cbn [snd] in Eb. subst backups. apply growing_run; [| exact G4].
    pose proof quiet_read_back. pose proof quiet_finish_new. solve_growing.
Qed.

(** ** Creating *)

Lemma quiet_path_exists d name : quiet (path_entry_exists_at d name).
Proof. unfold path_entry_exists_at. solve_quiet. Qed.

Lemma tame_create_header h password recovery_key vmk : tame (pv_crypto_create_header h password recovery_key vmk).
Proof. unfold pv_crypto_create_header, pv_crypto_rewrap_password, pv_crypto_rewrap_recovery, secure_key_alloc. solve_tame. Qed.

Lemma tame_new_identity vault : tame (new_identity vault).
Proof. unfold new_identity. solve_tame. Qed.

Hint Resolve quiet_path_exists quiet_unlock tame_create_header tame_new_identity : pv.

Lemma growing_create path password recovery_key consumed vault : growing (create_common path password recovery_key consumed vault).
Proof.
  unfold create_common. cbv zeta. apply growing_bind; [apply growing_ensure_parent |]. intros st. split_if; [apply growing_ret |].
  intros w Hok. eapply wp_then; [by apply wp_lock_grows |].
  intros [st1 [location |]] w1 _ [G Hloc]; [| by apply wp_ret]. destruct (Hloc location eq_refl) as (d & name & -> & Hd). cbn [location_at directory_fd location_name].
  apply wp_bind. apply wp_quiet; [auto with pv |]. intros [st2 e] w2 S2. pose proof (grows_same _ _ _ G S2) as G2. rewrite <- (same_next _ _ S2) in Hd.
  split_if; [apply growing_run; [solve_growing | done] |]. apply wp_bind, wp_quiet; [auto with pv |]. intros [st3 v3] w3 S3.
  pose proof (grows_same _ _ _ G2 S3) as G3. rewrite <- (same_next _ _ S3) in Hd. split_if; [apply growing_run; [solve_growing | done] |].
  apply wp_bind, wp_quiet; [auto with pv |]. intros v4 w4 S4. pose proof (grows_same _ _ _ G3 S4) as G4. rewrite <- (same_next _ _ S4) in Hd.
  apply wp_bind, wp_quiet; [auto with pv |]. intros [st5 h5] w5 S5. pose proof (grows_same _ _ _ G4 S5) as G5. rewrite <- (same_next _ _ S5) in Hd.
  apply wp_bind. eapply wp_mono with (Q := fun _ w6 => grows w w6).
  - destruct (is_ok st5); [| by apply wp_ret]. eapply wp_mono; [apply (wp_grown _ (fun _ _ => True) w w5 G5); eapply wp_mono; [apply wp_save_new; [apply G5 | done] | by split] |]. by intros ? ? _ [].
  - intros [[st6 v6] h6] w6 _ G6. apply growing_run; [| done]. solve_growing.
Qed.

End create.

(** ** On a system on which nothing fails *)

(** A computation that does not use the platform. *)
Definition still {A} (m : W A) : Prop := forall w, w_sys (snd (m w)) = w_sys w.

Lemma still_ret {A} (x : A) : still (mret x).
Proof. done. Qed.

Lemma still_bind {A B} (m : W A) (g : A -> W B) : still m -> (forall x, still (g x)) -> still (m ≫= g).
Proof.
  intros Hm Hg w. unfold mbind, W_bind. specialize (Hm w). destruct (m w) as [x w1]. cbn [snd] in Hm. by rewrite Hg.
Qed.

Ltac solve_still :=
  repeat first
    [ progress cbv zeta | done | apply still_ret | solve [auto with pv] | apply still_bind; [| intros]
    | match goal with
      | |- still (match ?x with _ => _ end) => destruct x
      | |- still (let '(_, _) := ?x in _) => destruct x
      end ].

(** The directories that [make_directories] visits. *)
Fixpoint ancestors (current : list Z) (components : list (list Z)) : list (list Z) :=
  match components with
  | [] => []
  | component :: components =>
      let current := current ++ (if 1 <? zlen current then cstr "/" else []) ++ component in
      current :: ancestors current components
  end.

Definition path_ancestors (path : list Z) : list (list Z) :=
  match strrchr_slash path with
  | Some slash => ancestors (cstr "/") (path_components (drop 1 (zsub path 0 slash)) [])
  | None => []
  end.

(** A path that names a directory, whenever the kernel is asked. *)
Definition directory_there (w : world) (path : list Z) : Prop :=
  zlen path < PATH_MAX /\
  exists d name i n m, (forall k, k_name (w_kernel w) k path = Some (d, name)) /\ f_inodes (w_fs w) !! d = Some m /\
    entry (w_fs w) d name = Some i /\ f_inodes (w_fs w) !! i = Some n /\ S_ISDIR (i_mode n) = true.

(** A computation that draws no random bytes. *)
Definition drawless {A} (m : M A) : Prop := forall s, s_rand (snd (m s)) = s_rand s.

Lemma drawless_bind {A B} (m : M A) (g : A -> M B) : drawless m -> (forall x, drawless (g x)) -> drawless (m ≫= g).
Proof. intros Hm Hg s. rewrite bind_run. specialize (Hm s). destruct (m s) as [x s1]. cbn [snd] in Hm. by rewrite Hg. Qed.

Lemma drawless_init vault path : drawless (pv_model_init vault path).
Proof.
  unfold pv_model_init, pv_model_destroy, pv_arena_init, pv_arena_destroy, pv_arena_set_readwrite.
  repeat first [progress cbv zeta | done | apply drawless_bind; [| intros] | match goal with
    | |- drawless (match ?x with _ => _ end) => destruct x
    | |- drawless (let '(_, _) := ?x in _) => destruct x end].
Qed.

(** The identifiers that will be drawn for a vault are not all zeros. *)
Definition fresh_identifiers (s : sys) : Prop :=
  (exists j, (j < 16)%nat /\ u8 (s_rand s j) <> 0) /\ (exists j, (j < 16)%nat /\ u8 (s_rand s (16 + j)) <> 0).

Lemma drawn_nonzero n s : (exists j, (j < Z.to_nat n)%nat /\ u8 (s_rand s j) <> 0) -> or_all (fst (randombytes_buf n s)) <> 0.
Proof.
  intros (j & Hj & Hne) Hz. apply or_all_zero in Hz; [| apply randombytes_bytes]. apply Hne. unfold randombytes_buf in Hz. cbn [fst] in Hz.
  symmetry. apply (proj1 (List.Forall_forall _ _) Hz), (in_map (fun i => u8 (s_rand s i))), in_seq. lia.
Qed.

Lemma new_identity_calm path s : sys_calm s -> fresh_identifiers s ->
  exists vault vmk s', new_identity (fresh_vault path) s = (vault, s') /\ sys_calm s' /\ vault_wf vault /\ meta_ok vault /\ contents vault = [] /\
    v_vmk vault = Some vmk /\ zlen vmk = PV_WRAP_KEY_BYTES /\ is_bytes vmk /\ v_generation vault = 0 /\ v_path vault = path /\
    zlen (v_vault_id vault) = PV_VAULT_ID_BYTES /\ is_bytes (v_vault_id vault) /\ or_all (v_vault_id vault) <> 0.
Proof.
  intros Hs [Hid Hdev]. pose proof (tame_new_identity (fresh_vault path) s) as Ht. unfold new_identity in *. rewrite bind_run in *.
  pose proof (drawn_nonzero PV_VAULT_ID_BYTES s Hid) as Z1. pose proof (randombytes_len PV_VAULT_ID_BYTES s ltac:(done)) as L1.
  pose proof (randombytes_bytes PV_VAULT_ID_BYTES s) as B1. pose proof (tame_randombytes PV_VAULT_ID_BYTES s) as T1. assert (Hr : s_rand (snd (randombytes_buf PV_VAULT_ID_BYTES s)) = skip 16 (s_rand s)) by done.
  destruct (randombytes_buf PV_VAULT_ID_BYTES s) as [vid s1]. cbn [fst snd] in *. rewrite bind_run in *.
  assert (Z2 : or_all (fst (randombytes_buf PV_DEVICE_ID_BYTES s1)) <> 0) by (apply drawn_nonzero; rewrite Hr; exact Hdev).
  pose proof (randombytes_len PV_DEVICE_ID_BYTES s1 ltac:(done)) as L2. pose proof (randombytes_bytes PV_DEVICE_ID_BYTES s1) as B2. pose proof (tame_randombytes PV_DEVICE_ID_BYTES s1) as T2.
  destruct (randombytes_buf PV_DEVICE_ID_BYTES s1) as [dev s2]. cbn [fst snd] in *. rewrite bind_run in *.
  pose proof (randombytes_len PV_WRAP_KEY_BYTES s2 ltac:(done)) as L3. pose proof (randombytes_bytes PV_WRAP_KEY_BYTES s2) as B3. pose proof (tame_randombytes PV_WRAP_KEY_BYTES s2) as T3.
  destruct (randombytes_buf PV_WRAP_KEY_BYTES s2) as [vmk s3] eqn:E3. cbn [fst snd] in *. rewrite bind_run in *.
  assert (sys_calm s3) as Hs3 by (do 3 (eapply sys_calm_later; [eassumption |]); done).
  unfold now_ms, mret, M_ret in *. cbv beta iota in *. eexists _, vmk, _. split; [reflexivity |]. cbn [snd] in Ht.
  destruct (fresh_rebuilt path) as [Hwf _ Hcon _]. pose proof (proj2 Hs3 0%nat) as Hnow.
  split_and!; try done; [by eapply sys_calm_later | by eapply (vault_wf_fields (fresh_vault path))].
Qed.

Section calm_create.
Context `{Host} {S : Sodium} {Laws : SodiumLaws S} {Total : SodiumTotal S} {L : Libcbor} {CborLaws : LibcborLaws L}.

Lemma still_mkdirat d name : still (mkdirat d name).
Proof. unfold mkdirat. solve_still. Qed.

Lemma still_fsync_directory d : still (fsync_directory d).
Proof. unfold fsync_directory. solve_still. Qed.

Hint Resolve still_mkdirat still_fsync_directory : pv.

Lemma still_ensure_parent path len : still (ensure_parent_directory path len).
Proof.
  assert (Hmake : forall components current, still (make_directories current components)).
  { induction components as [| component components IH]; intros current; cbn [make_directories]; [done |].
    unfold make_directory, mkdir, store_fsync_parent_path, open_directory, close, lstat, fstatat. solve_still. }
  unfold ensure_parent_directory, validate_parent_security, open_private_parent, open_directory, fstat, close. solve_still.
Qed.

Lemma still_lock path : still (lock_vault path).
Proof.
  unfold lock_vault, open_store_location, open_private_parent, open_directory, fstat, close_store_location, close, openat_create, fchmod, flock. solve_still.
Qed.

Lemma still_path_exists d name : still (path_entry_exists_at d name).
Proof. unfold path_entry_exists_at, fstatat. solve_still. Qed.

(** A directory that is there is left as it is. *)
Lemma make_directory_there path w : calm w -> directory_there w path ->
  exists w', make_directory path w = (PV_OK, w') /\ same w w' /\ forall k q, exists k', k_name (w_kernel w') k q = k_name (w_kernel w) k' q.
Proof.
  intros Hc (_ & d & name & i & n & m & Hk & Hd & He & Hi & Hdir).
  set (w' := mk_world (w_sys w) (mk_kernel (skip 2 (k_fail (w_kernel w))) (k_sched (w_kernel w)) (k_path (w_kernel w)) (skip 2 (k_name (w_kernel w))))
    (w_fs w) (w_next w) (w_hist w)).
  exists w'. split_and!; [| | intros k q; by exists (2 + k)%nat].
  - unfold make_directory, mkdir, mkdirat, lstat, fstatat, next_name, call, get_fs, mbind, W_bind, mret, W_ret. cbn [w_kernel k_name w_fs].
    rewrite Hk, Hd. cbn [w_kernel k_fail w_fs]. rewrite (calm_fail _ Hc), He. rewrite bool_decide_eq_true_2 by done. cbn [negb w_kernel k_name].
    unfold skip at 1. rewrite Hk. cbn [w_kernel k_fail w_fs]. unfold skip at 1. rewrite (calm_fail _ Hc), He, Hi. cbn [stat_of st_mode].
    rewrite Hdir. assert (S_ISLNK (i_mode n) = false) as -> by (unfold S_ISLNK, S_ISDIR in *; lia). reflexivity.
  - split; try done. intros [C1 C2 C3 C4]. split; [split; try done; intros k; apply C1 | done].
Qed.

Lemma make_directories_there components : forall current w, calm w -> Forall (directory_there w) (ancestors current components) ->
  exists w', make_directories current components w = (PV_OK, w') /\ same w w'.
Proof.
  induction components as [| component components IH]; intros current w Hc Hall; cbn [make_directories ancestors] in *; [by exists w |].
  apply Forall_cons_1 in Hall as [Hhere Hall]. cbv zeta in *. set (text := _ ++ component) in *.
  assert (zlen current + zlen text < PATH_MAX) as Hlen by (destruct Hhere as [Hl _]; by rewrite zlen_app in Hl).
  replace (PATH_MAX - zlen current <=? zlen text) with false by lia. unfold mbind, W_bind.
  destruct (make_directory_there _ w Hc Hhere) as (w1 & -> & S1 & Hn). cbn [is_ok negb]. destruct (IH (current ++ text) w1) as (w2 & E & S2); [eauto with calm | | exists w2; split; [done | by etrans]].
  revert Hall. apply Forall_impl. intros p (Hl & d & name & i & n & m & Hk & Hd & He & Hi & Hdir). split; [done |]. exists d, name, i, n, m.
  rewrite (same_fs _ _ S1). split_and!; try done. intros k. destruct (Hn k p) as [k' ->]. apply Hk.
Qed.

Lemma ensure_parent_there path d name w : calm w -> leads_to w path d name -> znth path 0 = 47 -> Forall (directory_there w) (path_ancestors path) ->
  exists w', ensure_parent_directory path PATH_MAX w = (PV_OK, w') /\ same w w'.
Proof.
  intros Hc Hl Habs Hall. pose proof Hl as (parent & Esplit & _). pose proof (split_path_length _ _ _ Esplit) as Hlen.
  unfold ensure_parent_directory, path_ancestors in *. rewrite Habs. replace (PATH_MAX <=? zlen path) with false by lia. cbn [Z.eqb Pos.eqb negb orb].
  destruct (strrchr_slash path) as [slash |]; [| by exists w]. assert (Hend : forall slash, Forall (directory_there w) (ancestors (cstr "/") (path_components (drop 1 (zsub path 0 slash)) [])) ->
    exists w', (let scratch := zsub path 0 slash in if PATH_MAX <=? zlen scratch then mret PV_ERR_LIMIT else
      status ← make_directories (cstr "/") (path_components (drop 1 scratch) []);
      if negb (is_ok status) then mret status else validate_parent_security path) w = (PV_OK, w') /\ same w w').
  { clear slash Hall. intros slash Hall. cbv zeta. assert (zlen (zsub path 0 slash) <= zlen path) as Hs by (unfold zsub, zlen; rewrite drop_0, length_take; lia).
    replace (PATH_MAX <=? zlen (zsub path 0 slash)) with false by lia. unfold mbind at 1, W_bind at 1.
    destruct (make_directories_there _ _ _ Hc Hall) as (w1 & -> & S1). cbn [is_ok negb]. assert (calm w1) as Hc1 by eauto with calm.
    assert (Hv : wp (fun _ => True) (validate_parent_security path) (fun st w' => st = PV_OK /\ same w1 w') w1).
    { unfold validate_parent_security. apply wp_bind, wp_open_private_parent.
      - intros st nm issue w2 S2 _ _ Hno. exfalso. apply (Hno Hc1 d name). by eapply leads_to_same.
      - intros parent' nm d' issue w2 S2 _ _ _. apply wp_bind, wp_close. intros c w3 S3 Hcl. apply wp_ret. rewrite Hcl by eauto with calm. split; [done | by etrans]. }
    destruct (validate_parent_security path w1) as [st w2] eqn:E. destruct (wp_run _ _ _ _ _ _ Hv E) as (_ & _ & -> & S2). exists w2. split; [done | by etrans]. }
  destruct slash; [by exists w | by apply Hend | by apply Hend].
Qed.

(** What locking leaves for the first save. *)
Lemma lock_keeps_new w w' path d name :
  world_ok w -> d < w_next w -> calm w -> calmly w w' -> adds (only d (lock_name name)) (lock_inodes w d name) w w' ->
  leads_to w path d name -> temporaries_free (w_fs w) d name -> entry (w_fs w) d name = None ->
  leads_to w' path d name /\ temporaries_free (w_fs w') d name /\ entry (w_fs w') d name = None.
Proof.
  intros Hok Hd Hc Hcalm A (parent & E & Hr & (m & Hm & Hg)) [Hlen Hfree] Hnew.
  pose proof (agree_entry _ _ _ _ (adds_agree _ _ _ _ A)) as Hentry. pose proof (agree_inode _ _ _ _ (adds_agree _ _ _ _ A)) as Hinode.
  assert (Hname : forall nm, nm <> lock_name name -> entry (w_fs w') d nm = entry (w_fs w) d nm) by (intros nm Hne; apply Hentry; by intros [_ ?]).
  split_and!; [| | by rewrite Hname by apply lock_not_name].
  - exists parent. destruct (Hcalm Hc) as [_ Hpath]. rewrite Hpath. split_and!; [done | done |]. exists m. split; [| done].
    rewrite Hinode; [done |]. intros [-> | El]; [lia |]. by apply (ok_entry _ _ Hok) in El as (_ & ? & _).
  - split; [done |]. intros v. rewrite Hname by apply lock_not_temporary. apply Hfree.
Qed.

(** Where a vault can be created. *)
Record can_create (w : world) (path : list Z) (d : Z) (name : list Z) : Prop := mk_can_create {
  cc_absolute : znth path 0 = 47;
  cc_leads : leads_to w path d name;
  cc_ancestors : Forall (directory_there w) (path_ancestors path);
  cc_new : settled (w_fs w) d name None;
  cc_lock : can_lock (w_fs w) d name;
  cc_temporaries : temporaries_free (w_fs w) d name;
  cc_private : inode_private created_inode = true
}.

Lemma settled_none f d name : settled f d name None -> entry f d name = None.
Proof. intros [He _]. by destruct (entry f d name). Qed.

(** The part before the key material: the lock is held and the name is free. *)
Lemma create_starts path d name w : world_ok w -> calm w -> can_create w path d name ->
  exists w1 w2 w3, ensure_parent_directory path PATH_MAX w = (PV_OK, w1) /\ lock_vault path w1 = ((PV_OK, Some (location_at d name)), w2) /\
    path_entry_exists_at d name w2 = ((PV_OK, false), w3) /\ w_sys w3 = w_sys w /\ world_ok w3 /\ calm w3 /\ d < w_next w3 /\
    (forall p, resolve w3 p = resolve w p) /\ settled (w_fs w3) d name None /\ leads_to w3 path d name /\ temporaries_free (w_fs w3) d name.
Proof.
  intros Hok Hc [Habs Hl Hanc Hnew Hlock Htemp Hpriv]. destruct (ensure_parent_there _ _ _ _ Hc Hl Habs Hanc) as (w1 & E1 & S1).
  assert (calm w1) as Hc1 by eauto with calm. assert (world_ok w1) as Hok1 by by eapply world_ok_same. pose proof (still_ensure_parent path PATH_MAX w) as Y1. rewrite E1 in Y1.
  pose proof (leads_to_same _ _ _ _ _ S1 Hc Hl) as Hl1. rewrite <- (same_fs _ _ S1) in Hnew, Hlock, Htemp.
  destruct (lock_vault path w1) as [[st2 location] w2] eqn:E2. pose proof (still_lock path w1) as Y2. rewrite E2 in Y2.
  destruct (wp_run _ _ _ _ _ _ (wp_lock_vault path w1 Hok1) E2) as (_ & C2 & _ & Hlocked & Hloc & Hlive). cbn [fst snd] in *.
  destruct (Hlive Hc1 d name Hl1 Hlock) as [location' ->]. destruct Hloc as (-> & parent' & name' & d' & -> & Esplit' & Hr' & Hg & A).
  pose proof Hl1 as (parent & Esplit & Hr & _). assert (parent' = parent) as -> by congruence. assert (name' = name) as -> by congruence. assert (d' = d) as -> by congruence.
  assert (Hd : d < w_next w1) by (destruct Hg as (n & Hn & _); by eapply ok_inode in Hn).
  destruct (lock_keeps_new _ _ _ _ _ Hok1 Hd Hc1 C2 A Hl1 Htemp (settled_none _ _ _ Hnew)) as (Hl2 & Htemp2 & Hnone2).
  assert (Hnew2 : settled (w_fs w2) d name None) by (eapply settled_locking; [by eapply Hlocked | done]). destruct (C2 Hc1) as [Hc2 Hres2].
  destruct (path_entry_exists_at d name w2) as [r w3] eqn:E3. pose proof (still_path_exists d name w2) as Y3. rewrite E3 in Y3. cbn [snd] in *.
  assert (Hex : wp (fun _ => True) (path_entry_exists_at d name) (fun r w' => same w2 w' /\ r = (PV_OK, false)) w2).
  { apply wp_path_exists. intros st e w' S' _ _ Hno _. destruct (Hno Hc2 Hnone2) as [-> ->]. done. }
  destruct (wp_run _ _ _ _ _ _ Hex E3) as (_ & C3 & S3 & ->). assert (calm w3) as Hc3 by eauto with calm.
  exists w1, w2, w3. split_and!; try done; [congruence | eapply world_ok_same; [exact S3 | apply A] | rewrite (same_next _ _ S3); pose proof (adds_next _ _ _ _ A); lia | |
    by rewrite (same_fs _ _ S3) | by eapply leads_to_same | by rewrite (same_fs _ _ S3)].
  intros p. destruct (C3 Hc2) as [_ ->]. rewrite Hres2. by apply S1.
Qed.

Lemma lift_run {A} (m : M A) w x s : m (w_sys w) = (x, s) -> lift m w = (x, with_sys w s).
Proof. intros E. unfold lift. by rewrite E. Qed.

Lemma with_sys_same w s : sys_calm s -> same w (with_sys w s).
Proof. intros Hs. split; try done. intros [C1 C2 C3 C4]. split; [by split | done]. Qed.

(** In a calm world creation succeeds: a new session was saved. *)
Lemma create_calm path password recovery_key consumed vault0 d name w :
  world_ok w -> calm w -> can_create w path d name -> fresh_identifiers (w_sys w) -> 0 < zlen password <= crypto_pwhash_PASSWD_MAX ->
  (forall salt, is_Some (crypto_pwhash password salt PV_V1_PASSWORD_OPSLIMIT PV_V1_PASSWORD_MEMLIMIT)) ->
  exists vault header vmk w1 new vault' header' w',
    session_ok vault header vmk password recovery_key /\ contents vault = [] /\ v_path vault = path /\ v_generation vault = 0 /\ calm w1 /\
    save_outcome w1 d name vault header true PV_DEFAULT_BACKUP_RETENTION None new (PV_OK, vault', header') w' /\
    leads_to w' path d name /\ calm w' /\
    create_common path password recovery_key consumed vault0 w = ((PV_OK, pv_buffer_secure_free consumed, vault'), w').
Proof.
  intros Hok Hc Hcan Hfresh Hpw Hhash. destruct (create_starts path d name w Hok Hc Hcan) as (w1 & w2 & w3 & E1 & E2 & E3 & Y & Hok3 & Hc3 & Hd3 & Hres3 & Hnew3 & Hl3 & Htemp3).
  assert (zlen path < PATH_MAX) as Hlen by (destruct Hl3 as (parent & E & _); by eapply split_path_length).
  destruct (model_init_calm vault0 path (w_sys w3) (calm_sys _ Hc3) Hlen) as (s4 & E4 & Hs4). pose proof (drawless_init vault0 path (w_sys w3)) as Hr. rewrite E4 in Hr. cbn [snd] in Hr.
  destruct (new_identity_calm path s4 Hs4) as (vault & vmk & s5 & E5 & Hs5 & Hwf & Hmeta & Hcon & Hvmk & Hvl & Hvb & Hgen & Hpath & Hidl & Hidb & Hidz).
  { unfold fresh_identifiers in *. by rewrite Hr, Y. }
  set (h0 := mk_header (h_magic header_zero) 0 0 0 0 (v_vault_id vault) 0 0 0 0 (h_password_slot header_zero) (h_recovery_slot header_zero) (h_body_nonce header_zero) 0).
  assert (Hkey : vmk_bytes vault = vmk) by (unfold vmk_bytes; by rewrite Hvmk).
  destruct (create_header_calm h0 password recovery_key (vmk_bytes vault) s5) as (header & s6 & E6 & Hs6 & Eid); try done; [by rewrite Hkey |].
  assert (Hss : session_ok vault header vmk password recovery_key).
  { split; try done. eapply (life_create vmk h0); [exact Hidl | exact Hidb | rewrite <- Hkey; exact E6 | by rewrite Eid]. }
  pose proof (with_sys_same w3 s6 Hs6) as S6. set (w6 := with_sys w3 s6) in *. assert (calm w6) as Hc6 by eauto with calm.
  destruct (wp_save_locked d name vault header PV_DEFAULT_BACKUP_RETENTION true None w6) as [new Hsave]; [by eapply world_ok_same | done | done |].
  destruct (save_locked (location_at d name) vault header PV_DEFAULT_BACKUP_RETENTION true w6) as [[[st vault'] header'] w7] eqn:E7.
  destruct (wp_run _ _ _ _ _ _ Hsave E7) as (_ & C7 & Hout & Hlive & _). cbn [fst] in Hlive.
  assert (st = PV_OK) as ->.
  { apply Hlive; [done |]. split_and!; [split; [by rewrite Hgen | by apply settled_none] | rewrite Hpath; by eapply leads_to_same | done | apply Hcan | by eapply session_sealable | done]. }
  pose proof (quiet_unlock w7) as S8. destruct (unlock_vault w7) as [u w8] eqn:E8. cbn [snd] in S8. destruct (C7 Hc6) as [Hc7 Hres7]. assert (calm w8) as Hc8 by eauto with calm.
  exists vault, header, vmk, w6, new, vault', header', w8. split_and!; try done.
  - destruct Hout as [O1 O2 O3 O4 O5 O6 O7 O8 O9 O10]. cbn [fst snd] in *. split; rewrite ?(same_fs _ _ S8); try done. by eapply world_ok_same.
  - eapply leads_to_same; [exact S8 | done |]. destruct Hl3 as (parent & Esplit & Hr3 & (n & Hn & Hdir & Hgood)). exists parent. rewrite Hres7.
    split_and!; [done | exact Hr3 |]. exists n. split_and!; [by apply (so_directory _ _ _ _ _ _ _ _ _ _ _ Hout) | done | apply Hgood ..].
  - unfold create_common. cbv zeta. unfold mbind, W_bind. rewrite E1. cbn [is_ok negb]. rewrite E2. cbn [location_at directory_fd location_name]. rewrite E3. cbn [is_ok negb orb].
    rewrite (lift_run _ _ _ _ E4). cbn [is_ok negb]. rewrite (lift_run (new_identity (fresh_vault path)) (with_sys w3 s4) vault s5 E5).
    fold h0. rewrite (lift_run _ (with_sys (with_sys w3 s4) s5) _ _ E6). cbn [is_ok]. change (with_sys (with_sys (with_sys w3 s4) s5) s6) with w6. fold (location_at d name).
    rewrite E7, E8. reflexivity.
Qed.

End calm_create.
