(* ===== verification/StoreCopies.v ===== *)
(** * Facts about copies of a vault

    Exported backups ([pv_store_backup], [pv_store_recover_authenticated]), the
    copy of the active vault before a restore, and [pv_store_restore]. *)

From stdpp Require Import gmap.
From S2P Require Import Prelude Status Util Sys Arena Model Cbor Crypto CryptoFacts Posix Config Secure Fs FsFacts Store.
From S2P Require Import StoreOps StoreFacts StoreReads StoreSave StoreNames StorePrune StoreCommit StoreSession.

Section copies.
Context `{Host} `{Sodium}.

(** ** Exported snapshots *)

(** A file was put under a name that was free: its number, and whether the name
    is on the disk. *)
Definition exported (w : world) (path bytes : list Z) (mode : Z) (durable : bool) (w' : world) : Prop :=
  exists parent d name i n, split_parent_and_name path = (PV_OK, parent, name) /\ good_directory (w_fs w) d /\
    entry (w_fs w) d name = None /\ entry (w_fs w') d name = Some i /\ f_inodes (w_fs w') !! i = Some n /\
    i_data n = bytes /\ i_safe n = true /\ inode_private n = true /\ access_bits (i_mode n) = mode /\
    (durable = true -> durable_entry (w_fs w') d name = Some i).

Lemma exported_same w w' w'' path bytes mode durable : same w' w'' -> exported w path bytes mode durable w' -> exported w path bytes mode durable w''.
Proof. intros S. unfold exported. by rewrite (same_fs _ _ S). Qed.

(** The outcome of an export. *)
Definition export_outcome (w : world) (path bytes : list Z) (mode : Z) (st : pv_status) (w' : world) : Prop :=
  world_ok w' /\ w_next w <= w_next w' /\ extends none (w_fs w) (w_fs w') /\
  (st = PV_OK \/ st = PV_ERR_DURABILITY -> exported w path bytes mode (is_ok st) w').

Lemma export_nothing w path bytes mode st w' : world_ok w -> same w w' -> st <> PV_OK -> st <> PV_ERR_DURABILITY ->
  export_outcome w path bytes mode st w'.
Proof.
  intros Hok S Hst Hst'. split_and!; [by eapply world_ok_same | rewrite (same_next _ _ S); lia | by rewrite (same_fs _ _ S) | by intros [? | ?]].
Qed.

Lemma snapshot_mode header ciphertext mode : mode = 256 \/ mode = 384 -> access_bits (i_mode (snapshot_inode header ciphertext mode)) = mode.
Proof.
  intros Hm. unfold snapshot_inode, access_bits. cbn [synced moded refilled created_inode i_mode].
  rewrite Z.land_lor_distr_l, <- Z.land_assoc. change (Z.land 61440 4095) with 0. rewrite Z.land_0_r. by destruct Hm as [-> | ->].
Qed.

Lemma wp_write_snapshot_exclusive path header ciphertext mode w :
  world_ok w -> 0 < zlen ciphertext -> mode = 256 \/ mode = 384 ->
  wp (extends none (w_fs w)) (write_snapshot_exclusive path header ciphertext mode) (export_outcome w path (header ++ ciphertext) mode) w.
Proof.
  intros Hok Hlen Hmode. unfold write_snapshot_exclusive. apply wp_bind, wp_open_store_location.
  { intros st w1 S1 Hst Hst' _. by apply wp_ret, export_nothing. }
  intros parent name d w1 S1 Esplit Hg _. cbn [location_at directory_fd location_name].
  assert (world_ok w1) as Hok1 by by eapply world_ok_same. assert (d < w_next w1).
  { destruct Hg as (n & Hn & _). rewrite (same_next _ _ S1). by eapply ok_inode in Hn. }
  eapply wp_then.
  { eapply wp_weaken; [by apply (wp_write_snapshot_exclusive_at d name header ciphertext mode w1) |]. intros g [s W]. rewrite <- (same_fs _ _ S1). by eapply writing_extends_excl. }
  intros st w2 C2 (Hnext & Hok2 & Hout & _). rewrite (same_fs _ _ S1), (same_next _ _ S1) in *.
  assert (exists s, writing (w_fs w) (w_next w) d name (snapshot_inode header ciphertext mode) true s (w_fs w2) /\
    (st = PV_OK -> s = Durable) /\ (st = PV_ERR_DURABILITY -> s = Published)) as (s & W & Hs1 & Hs2).
  { destruct Hout as [(-> & W & Hp) | [(-> & W & Hp) | (Hne & Hnd & W)]]; eexists; (split; [exact W | done]). }
  assert (Hexp : st = PV_OK \/ st = PV_ERR_DURABILITY -> exported w path (header ++ ciphertext) mode (is_ok st) w2).
  { intros Hst. assert (s <> Before) as Hs by (destruct Hst as [E | E]; [rewrite (Hs1 E) | rewrite (Hs2 E)]; done).
    destruct (writing_published _ _ _ _ _ _ _ _ W Hs) as (E & N & _ & _ & D & Hno). exists parent, d, name, (w_next w), (snapshot_inode header ciphertext mode).
    split_and!; auto using snapshot_private, snapshot_mode. intros Eok%is_ok_iff. by apply D, Hs1. }
  eapply (wp_then _ _ _ (fun valid w3 => same w2 w3 /\ (st <> PV_OK -> valid = PV_OK))).
  { destruct (is_ok st) eqn:Est; [apply is_ok_iff in Est; apply wp_revalidate; intros valid w3 S3 _; by split | by apply wp_ret]. }
  intros valid w3 _ [S3 Hvalid]. unfold close_store_location. apply wp_bind, wp_bind, wp_close. intros c w4 S4 _. apply wp_ret, wp_ret.
  assert (S24 : same w2 w4) by by etrans. split_and!; [by eapply world_ok_same | rewrite (same_next _ _ S24); lia | rewrite (same_fs _ _ S24); by eapply writing_extends_excl |].
  intros Hst. apply (exported_same _ _ _ _ _ _ _ S24). destruct (is_ok valid) eqn:Ev; cbn [negb] in *; [by apply Hexp |].
  assert (st = PV_OK) as -> by (destruct (decide (st = PV_OK)); [done |]; by rewrite Hvalid in Ev).
  destruct (Hexp (or_introl eq_refl)) as (p & d0 & nm & i & n & X1 & X2 & X3 & X4 & X5 & X6 & X7 & X8 & X9 & _).
  exists p, d0, nm, i, n. by split_and!.
Qed.

Lemma wp_exact_copy source path mode w :
  world_ok w -> 0 < zlen (disk_ciphertext source) -> mode = 256 \/ mode = 384 ->
  wp (extends none (w_fs w)) (write_exact_snapshot_copy source path mode)
    (export_outcome w path (disk_header_bytes source ++ disk_ciphertext source) mode) w.
Proof.
  intros Hok Hlen Hmode. unfold write_exact_snapshot_copy. replace (negb (mode =? 256) && negb (mode =? 384)) with false by lia.
  eapply wp_then; [by apply wp_write_snapshot_exclusive |]. intros st w1 _ (Hok1 & Hn1 & Hx1 & Hexp).
  destruct (is_ok st || bool_decide (st = PV_ERR_DURABILITY)) eqn:E; [| by apply wp_ret].
  assert (Hst : st = PV_OK \/ st = PV_ERR_DURABILITY) by (apply orb_true_iff in E as [E%is_ok_iff | E%bool_decide_eq_true]; auto).
  assert (Hdone : forall (bad : bool) w2, same w1 w2 ->
    export_outcome w path (disk_header_bytes source ++ disk_ciphertext source) mode (if bad then PV_ERR_DURABILITY else st) w2).
  { intros bad w2 S2. split_and!; [by eapply world_ok_same | by rewrite (same_next _ _ S2) | by rewrite (same_fs _ _ S2) |]. intros _.
    apply (exported_same _ _ _ _ _ _ _ S2). destruct (Hexp Hst) as (p & d0 & nm & i & n & X1 & X2 & X3 & X4 & X5 & X6 & X7 & X8 & X9 & X10).
    destruct bad; [| by apply Hexp]. exists p, d0, nm, i, n. by split_and!. }
  apply wp_bind, wp_read_disk_file.
  - intros st' w2 S2 _ _ _. apply wp_ret. by apply Hdone.
  - intros parent d name i n disk w2 S2 _ _ _. apply wp_ret. by apply Hdone.
Qed.

(** The file a path named when it was read. *)
Definition source_of_path (w : world) (path : list Z) (disk : pv_disk_file) : Prop :=
  exists parent d name i n, split_parent_and_name path = (PV_OK, parent, name) /\ resolve w parent = Some d /\ disk_of (w_fs w) d name i n disk.

Lemma wp_store_backup vault_path output_path expected_hash w :
  world_ok w ->
  wp (extends none (w_fs w)) (pv_store_backup vault_path output_path expected_hash)
    (fun st w' => world_ok w' /\ extends none (w_fs w) (w_fs w') /\
       (st = PV_OK \/ st = PV_ERR_DURABILITY -> exists disk, source_of_path w vault_path disk /\
          (forall hash, expected_hash = Some hash -> disk_hash disk = hash) /\
          exported w output_path (disk_header_bytes disk ++ disk_ciphertext disk) 384 (is_ok st) w')) w.
Proof.
  intros Hok. unfold pv_store_backup. apply wp_bind, wp_read_disk_file.
  { intros st w1 S1 Hst Hst' _. destruct (is_ok st) eqn:E; [by apply is_ok_iff in E |]. cbn [negb]. apply wp_ret.
    split_and!; [by eapply world_ok_same | by rewrite (same_fs _ _ S1) | by intros [? | ?]]. }
  intros parent d name i n disk w1 S1 Esplit Hr D. cbn [is_ok negb].
  destruct (match expected_hash with Some hash => _ | None => false end) eqn:Ehash.
  { apply wp_ret. split_and!; [by eapply world_ok_same | by rewrite (same_fs _ _ S1) | by intros [? | ?]]. }
  eapply wp_mono; [eapply wp_weaken; [apply (wp_exact_copy disk output_path 384 w1); [by eapply world_ok_same | by eapply disk_nonempty | by right] |] |].
  - intros g. by rewrite (same_fs _ _ S1).
  - intros st w2 _ (Hok2 & _ & Hx & Hexp). rewrite (same_fs _ _ S1) in Hx. split_and!; [done | done |]. intros Hst. exists disk. split_and!.
    + by exists parent, d, name, i, n.
    + intros hash ->. by apply negb_false_iff, bytes_eqb_eq in Ehash.
    + destruct (Hexp Hst) as (p & d0 & nm & j & m & X1 & X2 & X3 & X). rewrite (same_fs _ _ S1) in X2, X3. by exists p, d0, nm, j, m.
Qed.

(** ** The copy of the active vault *)

Section copying.
Context (J : fs -> Prop) (f : fs) (d : Z) (t : list Z) (i : Z) (HJ : forall n, J (with_file f d t i n)).

(** The outcome of copying [input] behind what the file of inode [n] holds. *)
Definition copied (rsched : list io_event) (input : list Z) (sched : list io_event) (n : inode) (w : world) (r : pv_status * wfile) (w' : world) : Prop :=
  out_ino (snd r) = i /\ w_next w' = w_next w /\ w_fs w' = with_file f d t i (refilled n (w_data (out_fd (snd r)))) /\
  (fst r = PV_OK \/ fst r = PV_ERR_IO) /\ (fst r = PV_OK -> exists rest, i_data n ++ input = w_data (out_fd (snd r)) ++ rest) /\
  (benign rsched -> fst r = PV_OK -> w_data (out_fd (snd r)) = i_data n ++ input) /\ (benign rsched -> benign sched -> fst r = PV_OK).

Lemma refilled_same n : i_safe n = false -> refilled n (i_data n) = n.
Proof. destruct n. cbn. by intros ->. Qed.

Lemma copied_end rsched input file n w : w_fs w = with_file f d t i n -> out_ino file = i -> i_data n = w_data (out_fd file) -> i_safe n = false ->
  (benign rsched -> input = []) -> copied rsched input (w_sched (out_fd file)) n w (PV_OK, file) w.
Proof.
  intros Hw Hi Hd Hs Hend. split_and!; cbn [fst snd]; auto.
  - by rewrite <- Hd, refilled_same.
  - intros _. exists input. by rewrite Hd.
  - intros Hb _. by rewrite Hend, app_nil_r.
Qed.

(** One block, then the rest. *)
Lemma wp_copy_block rsched rsched' input input' block file n w (rest : wfile -> W (pv_status * wfile)) :
  w_fs w = with_file f d t i n -> out_ino file = i -> i_data n = w_data (out_fd file) -> i_safe n = false ->
  input = block ++ input' -> (benign rsched -> benign rsched') ->
  (forall file' n' w', w_fs w' = with_file f d t i n' -> out_ino file' = i -> i_data n' = w_data (out_fd file') -> i_safe n' = false ->
     wp J (rest file') (copied rsched' input' (w_sched (out_fd file')) n' w') w') ->
  wp J (r ← store_write_all file block; let '(status, output) := r in if negb (is_ok status) then mret (status, output) else rest output)
    (copied rsched input (w_sched (out_fd file)) n w) w.
Proof.
  intros Hw Hi Hd Hs -> Hb Hrest. eapply wp_then; [by apply (wp_store_write_all J f d t i HJ) |].
  intros [st file1] w1 _ (I1 & N1 & F1 & T1 & D1 & B1). cbn [fst snd] in *. destruct T1 as [-> | ->]; cbn [is_ok negb].
  - eapply wp_mono; [eapply Hrest; [exact F1 | done | done | done] |]. intros r w2 _ (I2 & N2 & F2 & T2 & P2 & D2 & B2). cbn [refilled i_data i_safe] in *.
    rewrite D1 in * by done. split_and!; [done | congruence | done | done | | |].
    + intros E. destruct (P2 E) as [rst Hr]. exists rst. by rewrite app_assoc.
    + intros Hr E. rewrite D2, app_assoc by auto. done.
    + intros Hr Hsd. apply B2; [auto |]. by apply B1.
  - apply wp_ret. split_and!; [done | done | done | by right | done | done |]. intros _ Hsd. by apply B1.
Qed.

Lemma wp_copy_rest k input file n w :
  w_fs w = with_file f d t i n -> out_ino file = i -> i_data n = w_data (out_fd file) -> i_safe n = false -> zlen input <= Z.of_nat k * 65536 ->
  wp J (copy_rest k input file) (copied [] input (w_sched (out_fd file)) n w) w.
Proof.
  revert input file n w. induction k as [| k IH]; intros input file n w Hw Hi Hd Hs Hlen; cbn [copy_rest].
  - apply wp_ret, copied_end; auto. intros _. destruct input; [done |]. rewrite zlen_cons in Hlen. pose proof (zlen_nonneg input). lia.
  - eapply (wp_copy_block [] [] input (drop (Z.to_nat 65536) input) (zsub input 0 65536)); auto.
    + by rewrite zsub_0, take_drop.
    + intros file' n' w' Hw' Hi' Hd' Hs'. apply IH; auto. unfold zlen in *. rewrite length_drop. lia.
Qed.

Lemma wp_copy_loop rsched input file n w :
  w_fs w = with_file f d t i n -> out_ino file = i -> i_data n = w_data (out_fd file) -> i_safe n = false ->
  wp J (copy_loop rsched input file) (copied rsched input (w_sched (out_fd file)) n w) w.
Proof.
  revert input file n w. induction rsched as [| e rsched IH]; intros input file n w Hw Hi Hd Hs; cbn [copy_loop].
  { apply wp_copy_rest; auto. pose proof (zlen_nonneg input). rewrite Z2Nat.id by (apply Z.div_pos; lia).
    pose proof (Z.div_mod (zlen input + 65535) 65536 ltac:(lia)). pose proof (Z.mod_pos_bound (zlen input + 65535) 65536 ltac:(lia)). lia. }
  assert (Hrest : forall input', wp J (copy_loop rsched input' file) (copied rsched input' (w_sched (out_fd file)) n w) w) by (intros; by apply IH).
  destruct e as [| | | k]; cbn [read r_sched r_data].
  - eapply wp_mono; [apply Hrest |]. intros r w' _ (I1 & I2 & I3 & I4 & I5 & I6 & I7). split_and!; auto; intros [_ Hb]%Forall_cons_1; auto.
  - apply wp_ret. split_and!; cbn [fst snd]; auto; [by rewrite <- Hd, refilled_same | done | done |]. intros [[? _] _]%Forall_cons_1. done.
  - cbn [zlen length]. apply wp_ret, copied_end; auto. intros [[_ ?] _]%Forall_cons_1. done.
  - set (m := Z.min 65536 (Z.of_nat k + 1)). destruct (Z.eqb_spec (zlen (zsub input 0 m)) 0) as [Hz | Hz].
    + apply wp_ret, copied_end; auto. intros _. destruct input as [| x input]; [done |]. unfold zlen in Hz. rewrite zsub_0, length_take in Hz. cbn [length] in Hz. lia.
    + eapply (wp_copy_block (E_upto k :: rsched) rsched input (drop (Z.to_nat m) input) (zsub input 0 m)); auto.
      * by rewrite zsub_0, take_drop.
      * by intros [_ Hb]%Forall_cons_1.
Qed.

(** The checks between the copy and its publication. *)
Lemma wp_copy_tail {A} n status w (k : pv_status -> W A) (Q : A -> world -> Prop) :
  w_fs w = with_file f d t i n -> status = PV_OK \/ status = PV_ERR_IO ->
  (forall st' n' w', w_fs w' = with_file f d t i n' -> w_next w' = w_next w -> calmly w w' -> st' = PV_OK \/ st' = PV_ERR_IO ->
     (st' = PV_OK -> status = PV_OK /\ n' = synced n /\ inode_private n = true) -> (calm w -> status = PV_OK -> inode_private n = true -> st' = PV_OK) ->
     wp J (k st') Q w') ->
  wp J (private ← (if is_ok status then fstat_private i else mret true);
        let status := if negb private then PV_ERR_IO else status in
        synced ← (if is_ok status then fsync_file i else mret true);
        let status := if negb synced then PV_ERR_IO else status in
        closed_input ← close;
        let status := if negb closed_input && is_ok status then PV_ERR_IO else status in
        closed_output ← close;
        let status := if negb closed_output && is_ok status then PV_ERR_IO else status in
        k status) Q w.
Proof.
  intros Hw Hst Hk.
  assert (Hclose : forall st1 n1 w1, w_fs w1 = with_file f d t i n1 -> w_next w1 = w_next w -> calmly w w1 -> st1 = PV_OK \/ st1 = PV_ERR_IO ->
    (st1 = PV_OK -> status = PV_OK /\ n1 = synced n /\ inode_private n = true) -> (calm w -> status = PV_OK -> inode_private n = true -> st1 = PV_OK) ->
    wp J (closed_input ← close; let status := if negb closed_input && is_ok st1 then PV_ERR_IO else st1 in
          closed_output ← close; let status := if negb closed_output && is_ok status then PV_ERR_IO else status in k status) Q w1).
  { intros st1 n1 w1 F1 N1 C1 T1 P1 L1. apply wp_bind, wp_close. intros c1 w2 S2 H2. cbv zeta. apply wp_bind, wp_close. intros c2 w3 S3 H3. cbv zeta.
    apply (Hk _ n1); [by rewrite (same_fs _ _ S3), (same_fs _ _ S2) | by rewrite (same_next _ _ S3), (same_next _ _ S2) | etrans; [exact C1 |]; etrans; [apply S2 | apply S3] | | |].
    - destruct T1 as [-> | ->]; destruct c1, c2; auto.
    - intros E. apply P1. destruct c1, c2, st1; done.
    - intros Hc Est Hp. rewrite (L1 Hc Est Hp). assert (calm w1) as Hc1 by eauto with calm. rewrite (H2 Hc1). by rewrite (H3 (calm_same _ _ S2 Hc1)). }
  destruct Hst as [-> | ->]; cbn [is_ok].
  2: { apply wp_bind, wp_ret. cbn [negb is_ok]. apply wp_bind, wp_ret. cbn [negb]. eapply Hclose; eauto; done. }
  apply wp_bind. eapply wp_fstat_private; [exact Hw |]. intros ok w1 S1 Hpr Hcalm.
  change (issue_ok (private_snapshot_stat_issue (stat_of i n))) with (inode_private n) in *. destruct ok; cbn [negb is_ok].
  2: { apply wp_bind, wp_ret. cbn [negb]. apply (Hclose _ n); [by rewrite (same_fs _ _ S1) | apply S1 | apply S1 | by right | done |].
       intros Hc _ Hp. specialize (Hcalm Hc). congruence. }
  apply wp_bind. eapply wp_fsync_file; [exact HJ | rewrite (same_fs _ _ S1); exact Hw | |].
  - intros w2 S2 Hno. cbn [negb]. apply (Hclose _ n); [by rewrite (same_fs _ _ S2), (same_fs _ _ S1) | by rewrite (same_next _ _ S2), (same_next _ _ S1) |
      etrans; [apply S1 | apply S2] | by right | done |]. intros Hc. exfalso. apply Hno. eauto with calm.
  - intros w2 F2 N2 C2. cbn [negb]. eapply Hclose; [exact F2 | by rewrite N2, (same_next _ _ S1) | etrans; [apply S1 | done] | by left | auto | done].
Qed.

End copying.

(** The copy is a durable file; [whole] says that nothing is missing. *)
Definition copy_of (f g : fs) (sd : Z) (sname : list Z) (d : Z) (name : list Z) (whole : Prop) : Prop :=
  exists si sn i data rest, entry f sd sname = Some si /\ f_inodes f !! si = Some sn /\ i_data sn = data ++ rest /\
    entry g d name = Some i /\ durable_entry g d name = Some i /\ content g i = Some (data, true) /\ (whole -> rest = []).

Definition copy_outcome (w : world) (sd : Z) (sname : list Z) (d : Z) (name : list Z) (st : pv_status) (w' : world) : Prop :=
  adds (fun d' _ => d' = d) (fun i => w_next w <= i) w w' /\ st <> PV_ERR_DURABILITY /\
  (st = PV_OK -> copy_of (w_fs w) (w_fs w') sd sname d name (calm w)) /\
  (calm w -> (exists si sn, entry (w_fs w) sd sname = Some si /\ f_inodes (w_fs w) !! si = Some sn /\ inode_private sn = true) ->
   temporaries_free (w_fs w) d name -> inode_private created_inode = true -> entry (w_fs w) d name = None -> st = PV_OK).

Lemma copy_nothing w w' sd sname d name st : world_ok w -> same w w' -> st <> PV_OK -> st <> PV_ERR_DURABILITY ->
  (calm w -> (exists si sn, entry (w_fs w) sd sname = Some si /\ f_inodes (w_fs w) !! si = Some sn /\ inode_private sn = true) ->
   temporaries_free (w_fs w) d name -> False) -> copy_outcome w sd sname d name st w'.
Proof.
  intros Hok S Hst Hst' Hbad. split_and!; [by apply adds_same | done | done |]. intros Hc Hs Hf _ _. by destruct (Hbad Hc Hs Hf).
Qed.

(** Publishing the copy. *)
Lemma wp_copy_publish sd sname d name v si sn data rest n' status w w1 :
  let t := temporary_name name v in let n := refilled created_inode data in
  world_ok w -> unused (w_fs w) d t (w_next w) -> entry (w_fs w) sd sname = Some si -> f_inodes (w_fs w) !! si = Some sn ->
  w_fs w1 = with_file (w_fs w) d t (w_next w) n' -> w_next w1 = w_next w + 1 -> calmly w w1 -> status = PV_OK \/ status = PV_ERR_IO ->
  (status = PV_OK -> n' = synced n /\ inode_private n = true /\ i_data sn = data ++ rest /\ (calm w -> rest = [])) ->
  (calm w -> inode_private sn = true -> inode_private created_inode = true -> status = PV_OK) ->
  wp (extends none (w_fs w)) (publish d t name true PV_ERR_IO status) (copy_outcome w sd sname d name) w1.
Proof.
  intros t n Hok Hu Esrc Nsrc F1 N1 C1 Hst Hgood Hlive.
  eapply wp_mono; [eapply wp_weaken; [apply (wp_publish_filled (w_fs w) d name v (w_next w) n' (synced n) true PV_ERR_IO status w1 Hu F1) |] |].
  - intros E. by destruct (Hgood E) as (-> & Hp & _).
  - by destruct Hst as [-> | ->].
  - intros g [s W]. by eapply writing_extends_excl.
  - intros st2 w2 _ (N2 & Hout & Hl2 & Hback).
    assert (exists s, writing (w_fs w) (w_next w) d name (synced n) true s (w_fs w2) /\ (st2 = PV_OK -> s = Durable) /\ st2 <> PV_ERR_DURABILITY) as (s & W & Hs & Hnd).
    { destruct Hout as [(-> & W & _) | [(-> & W & _) | (Hne & Hnd & W)]]; eexists; by split_and!. }
    split_and!; [eapply writing_adds; [exact W | unfold world_ok; rewrite N2, N1; by eapply writing_ok | lia] | done | |].
    + intros E. rewrite (Hs E) in W. destruct (Hgood (Hback E)) as (_ & _ & Hd & Hr).
      destruct (writing_published _ _ _ _ _ _ _ _ W) as (E1 & E2 & _ & _ & E3 & _); [done |].
      exists si, sn, (w_next w), data, rest. split_and!; auto. unfold content. by rewrite E2.
    + intros Hc (si' & sn' & Es & Ns & Hp) _ Hci Hno. assert (sn' = sn) as -> by congruence. apply Hl2; [eauto with calm | by apply Hlive | done].
Qed.

Lemma wp_copy_file sd sname d name w :
  world_ok w -> d < w_next w ->
  wp (extends none (w_fs w)) (copy_file_exclusive_at sd sname d name) (copy_outcome w sd sname d name) w.
Proof.
  intros Hok Hd. unfold copy_file_exclusive_at. apply wp_bind, wp_open_private_snapshot_at.
  { intros issue w1 S1 Hcalm. apply wp_ret, copy_nothing; [done | done | done | done |]. intros Hc (si & sn & Es & Ns & Hp) _.
    by rewrite (Hcalm Hc si sn Es Ns) in Hp. }
  intros si sn rsched issue w1 S1 Esrc Nsrc Hpriv Hrb. cbn [in_fd r_sched r_data].
  apply wp_bind, wp_open_temporary; rewrite ?(same_fs _ _ S1), ?(same_next _ _ S1).
  { intros v n Hv. by apply with_file_extends, unused_next. }
  { intros st w2 S2 Hst Hcalm. apply wp_bind, wp_close. intros c w3 S3 _. apply wp_ret, copy_nothing; [done | etrans; [done |]; by etrans | by destruct Hst as [-> | ->] .. |].
    intros Hc _ Hf. assert (calm w1) as Hc1 by eauto with calm. by specialize (Hcalm Hc1 Hf). }
  intros v sched w2 Hv F2 N2 C2 Hb. assert (Hu := unused_next w d _ Hok Hv Hd). set (t := temporary_name name v) in *. set (i := w_next w) in *.
  assert (HJ : forall n, extends none (w_fs w) (with_file (w_fs w) d t i n)) by (intros; by apply with_file_extends).
  assert (C02 : calmly w w2) by (etrans; [apply S1 | done]). assert (Hb' : calm w -> benign sched) by (intros Hc; apply Hb; eauto with calm).
  apply wp_bind. eapply wp_fstat_private; [exact F2 |]. intros private w3 S3 Hpr Hcalm3. cbn [out_ino].
  eapply (wp_then _ _ _ (fun r w4 => out_ino (snd r) = i /\ w_next w4 = i + 1 /\ (exists data, w_fs w4 = with_file (w_fs w) d t i (refilled created_inode data) /\
    (fst r = PV_OK -> exists rest, i_data sn = data ++ rest /\ (calm w -> rest = []))) /\ (fst r = PV_OK \/ fst r = PV_ERR_IO) /\
    (calm w -> inode_private created_inode = true -> fst r = PV_OK))).
  { destruct private.
    - eapply wp_mono; [eapply (wp_copy_loop _ (w_fs w) d t i HJ) with (n := created_inode); [by rewrite (same_fs _ _ S3) | done | done | done] |].
      intros r w4 _ (I4 & N4 & F4 & T4 & P4 & D4 & B4). cbn [out_fd w_sched created_inode i_data app] in *. split_and!; [done | by rewrite N4, (same_next _ _ S3) | | done |].
      + eexists. split; [exact F4 |]. intros E. destruct (P4 E) as [rest Hr]. exists rest. split; [done |]. intros Hc. rewrite (D4 (Hrb Hc) E) in Hr.
        apply (f_equal length) in Hr. rewrite length_app in Hr. destruct rest; [done |]. cbn in Hr. lia.
      + intros Hc _. by apply B4; auto.
    - apply wp_ret. cbn [fst snd out_ino]. split_and!; [done | by rewrite (same_next _ _ S3) | | by right |].
      + exists []. split; [by rewrite (same_fs _ _ S3) | done].
      + intros Hc Hp. assert (calm w2) as Hc2 by eauto with calm. specialize (Hcalm3 Hc2). change (false = inode_private created_inode) in Hcalm3. congruence. }
  intros [st file] w4 C4 (I4 & N4 & (data & F4 & P4) & T4 & L4). cbn [fst snd] in *. rewrite I4.
  assert (C04 : calmly w w4) by (etrans; [exact C02 |]; etrans; [apply S3 | done]).
  apply (wp_copy_tail _ (w_fs w) d t i HJ (refilled created_inode data) st w4); [done | done |]. intros st' n' w5 F5 N5 C5 T5 P5 L5.
  assert (exists rest, st = PV_OK -> i_data sn = data ++ rest /\ (calm w -> rest = [])) as [rest Hrest].
  { destruct T4 as [-> | ->]; [destruct (P4 eq_refl) as [rest Hr]; by exists rest | by exists []]. }
  eapply (wp_copy_publish sd sname d name v si sn data rest n' st' w w5); try done.
  - by rewrite N5.
  - by etrans.
  - intros E. destruct (P5 E) as (E4 & -> & Hp). destruct (Hrest E4) as [Hr Hw]. by split_and!.
  - intros Hc _ Hp. apply L5; [eauto with calm | by apply L4 | done].
Qed.

(** ** Restoring *)

(** The replaced vault, or what was read of it, is kept in the directory of the
    backups. *)
Definition active_kept (f g : fs) (d : Z) (name : list Z) (b : Z) (whole : Prop) : Prop :=
  exists pname, copy_of f g d name b pname whole.

Lemma copy_of_before f f1 g sd sname d name i whole :
  extends none f f1 -> entry f sd sname = Some i -> is_Some (content f i) -> copy_of f1 g sd sname d name whole -> copy_of f g sd sname d name whole.
Proof.
  intros Hx E [c Hc] (si & sn & j & data & rest & K1 & K2 & K3 & K). assert (si = i) as ->.
  { rewrite (ext_entry _ _ _ Hx _ _ _ E) in K1 by auto with pv. by simplify_eq. }
  pose proof (ext_content _ _ _ Hx _ _ Hc) as Hc1. unfold content in Hc, Hc1. rewrite K2 in Hc1. destruct (f_inodes f !! i) as [n |] eqn:En; [| done].
  exists i, n, j, data, rest. split_and!; try apply K; try done. cbn in Hc, Hc1. simplify_eq. congruence.
Qed.

Lemma copy_of_extends X f g g' sd sname d name whole : extends X g g' -> ~ X d name -> copy_of f g sd sname d name whole -> copy_of f g' sd sname d name whole.
Proof.
  intros Hx HX (si & sn & j & data & rest & K1 & K2 & K3 & K4 & K5 & K6 & K7). exists si, sn, j, data, rest. split_and!; try done.
  - by eapply ext_entry.
  - destruct (ext_durable _ _ _ Hx _ _ _ K4 HX) as [-> | ->]; done.
  - by eapply ext_content.
Qed.

Definition kept_outcome (w : world) (d : Z) (name : list Z) (r : pv_status * option Z) (w' : world) : Prop :=
  adds (backup_names w' d) (backup_inodes w d) w w' /\ fst r <> PV_ERR_DURABILITY /\
  (forall b, snd r = Some b -> b <> d) /\
  (fst r = PV_OK -> exists b, snd r = Some b /\ entry (w_fs w') d (cstr "backups") = Some b /\ active_kept (w_fs w) (w_fs w') d name b (calm w)).

Lemma kept_nothing w w' d name st : world_ok w -> same w w' -> st <> PV_OK -> st <> PV_ERR_DURABILITY -> kept_outcome w d name (st, None) w'.
Proof. intros Hok S Hst Hst'. split_and!; [by apply adds_same | done | done | done]. Qed.

Lemma wp_keep_active d name backup w :
  world_ok w -> d < w_next w ->
  wp (extends none (w_fs w)) (keep_active (location_at d name) backup) (kept_outcome w d name) w.
Proof.
  intros Hok Hd. unfold keep_active. cbn [location_at directory_fd location_name]. apply wp_bind, wp_read_disk_file_at.
  { intros st w1 S1 Hst Hst' _. cbv zeta. set (st1 := if bool_decide _ || _ then PV_ERR_EXISTS else st).
    assert (st1 <> PV_OK /\ st1 <> PV_ERR_DURABILITY) as [Hne Hnd] by (unfold st1; by split_if).
    destruct (is_ok st1) eqn:E; [by apply is_ok_iff in E |]. cbn [andb]. rewrite E. cbn [negb]. by apply wp_ret, kept_nothing. }
  intros i n disk w1 S1 D. cbv zeta. rewrite !bool_decide_false by done. cbn [orb is_ok andb].
  destruct (bytes_eqb (h_vault_id (disk_header disk)) (h_vault_id (disk_header backup))); cbn [negb is_ok]; [| by apply wp_ret, kept_nothing].
  assert (Hok1 : world_ok w1) by by eapply world_ok_same. assert (Hd1 : d < w_next w1) by by rewrite (same_next _ _ S1).
  rewrite <- (same_fs _ _ S1). eapply wp_then; [by apply (wp_make_private_directory_at d (cstr "backups") w1) |]. intros [st r] w2 C2 Hmade. destruct r as [b |].
  2: { apply wp_ret. destruct Hmade as (A & Hst & Hno & _). cbn [fst snd] in *. split_and!; [| done | done | done].
       destruct A as [A1 A2 A3 A4]. rewrite (same_fs _ _ S1) in A3, A4. rewrite (same_next _ _ S1) in A2. split; [done | done | done |].
       eapply agree_weaken; [| | exact A4]; [by left | intros j Hj; unfold dir_inodes in Hj; rewrite (same_fs _ _ S1), (same_next _ _ S1) in Hj; destruct Hj as [-> | Hj]; [left; lia | by right]]. }
  assert (st = PV_OK) as -> by (destruct Hmade as (_ & _ & (E & _) & _); exact E).
  assert (Hmade' : dir_made d (cstr "backups") w (PV_OK, Some b) w2).
  { destruct Hmade as ([A1 A2 A3 A4] & M2 & M3 & M4). unfold dir_inodes in A4. rewrite (same_fs _ _ S1), ?(same_next _ _ S1) in *. split_and!; done || (intros Hc Ha; apply M4; [eauto with calm | done]). }
  pose proof Hmade' as (A2 & _ & (_ & Hb2 & Hlt2 & _) & _). rewrite (same_fs _ _ S1).
  assert (Hbd : b <> d) by (eapply backups_apart; [apply A2 | exact Hb2]).
  assert (Hquiet : forall st' w3, same w2 w3 -> st' <> PV_OK -> st' <> PV_ERR_DURABILITY -> kept_outcome w d name (st', Some b) w3).
  { intros st' w3 S3 Hne Hnd. destruct (backup_adds d b w w2 w3 Hmade') as (A3 & _); [by apply adds_same; [apply A2 |] |].
    split_and!; [exact A3 | done | by intros b' [= <-] | done]. }
  apply wp_bind, wp_quiet; [auto with pv |]. intros suffix w3 S3. apply wp_bind, wp_quiet; [auto with pv |]. intros now w4 S4. assert (S24 : same w2 w4) by by etrans.
  split_if; [apply wp_ret; by apply Hquiet |]. set (pname := cstr "pre-restore-" ++ _).
  assert (Hok4 : world_ok w4) by (eapply world_ok_same; [exact S24 | apply A2]). eapply wp_then.
  { eapply wp_weaken; [apply (wp_copy_file d name b pname w4 Hok4); by rewrite (same_next _ _ S24) |]. intros g Hg. rewrite (same_fs _ _ S24) in Hg. etrans; [apply A2 | exact Hg]. }
  intros st w5 C5 (A5 & Hnd & Hcopy & _). apply wp_ret.
  assert (A25 : adds (fun d' _ => d' = b) (fun j => w_next w2 <= j) w2 w5).
  { destruct A5 as [B1 B2 B3 B4]. rewrite (same_fs _ _ S24), (same_next _ _ S24) in *. done. }
  destruct (backup_adds d b w w2 w5 Hmade' A25) as (A & Hb5 & _). split_and!; [exact A | done | by intros b' [= <-] |]. cbn [fst snd]. intros E. exists b. split_and!; [done | done |].
  specialize (Hcopy E). exists pname. rewrite (same_fs _ _ S24) in Hcopy.
  assert (Hcopy' : copy_of (w_fs w) (w_fs w5) d name b pname (calm w4)).
  { eapply copy_of_before; [apply A2 | apply D | | exact Hcopy]. unfold content. rewrite (do_inode _ _ _ _ _ _ D). by eexists. }
  destruct Hcopy' as (si & sn & j & data & rest & K1 & K2 & K3 & K4 & K5 & K6 & K7). exists si, sn, j, data, rest. split_and!; try done. intros Hc. apply K7. eauto 6 with calm.
Qed.

Lemma wp_check_restored (J : fs -> Prop) path d name backup st w (Q : bool -> world -> Prop) :
  (forall warning w', same w w' -> (warning = false -> st = PV_OK) -> Q warning w') ->
  wp J (check_restored path (location_at d name) backup (negb (is_ok st))) Q w.
Proof.
  intros HQ. unfold check_restored. cbn [location_at directory_fd location_name].
  eapply (wp_then J _ _ (fun _ w1 => same w w1)); [apply wp_read_disk_file_at; auto |].
  intros [st' written] w1 _ S1. cbv zeta. apply wp_bind, wp_revalidate. intros valid w2 S2 _. apply wp_ret, HQ; [by etrans |].
  rewrite !orb_false_iff, negb_false_iff, is_ok_iff. tauto.
Qed.

(** A replacement that must not replace finds the name free. *)
Lemma wp_replace_excl d name hb ct no_replace old w :
  world_ok w -> d < w_next w -> 0 < zlen ct -> settled (w_fs w) d name old ->
  wp (fun g => between g d name old (Some (hb ++ ct))) (write_atomic_at (location_at d name) hb ct no_replace)
    (fun st w' => committed w d name old (hb ++ ct) st None w' /\
       (st = PV_OK \/ st = PV_ERR_DURABILITY -> no_replace = true -> entry (w_fs w) d name = None)) w.
Proof.
  intros Hok Hd Hlen Hold. pose proof (wp_replace d name hb ct no_replace old None w w Hok Hd Hlen ltac:(lia) ltac:(done) Hold ltac:(done) ltac:(done)) as H1.
  pose proof (wp_write_atomic_at (location_at d name) hb ct no_replace w Hok Hd Hlen) as H2. cbv zeta in H2. destruct H1 as (T & C & Hcm & _). destruct H2 as (_ & _ & _ & _ & Hout & _).
  split_and!; [exact T | exact C | exact Hcm |]. cbn [location_at directory_fd location_name] in Hout. intros Hst Hn.
  destruct Hout as [(_ & W & _) | [(_ & W & _) | (Hne & Hnd & _)]]; [| | by destruct Hst];
    by destruct (writing_published _ _ _ _ _ _ _ _ W ltac:(done)) as (_ & _ & _ & _ & _ & Hno); apply Hno.
Qed.

(** The outcome of a restore of [new] over [old]. *)
Record restore_outcome (w : world) (d : Z) (name : list Z) (old : option (list Z)) (new : list Z) (st : pv_status) (w' : world) : Prop := mk_restored {
  ro_ok : world_ok w';
  ro_between : between (w_fs w') d name old (Some new);
  ro_new : st = PV_OK -> settled (w_fs w') d name (Some new);
  ro_visible : st = PV_OK \/ st = PV_ERR_DURABILITY -> holds (w_fs w') (entry (w_fs w') d name) (Some new);
  ro_old : st <> PV_OK -> st <> PV_ERR_DURABILITY -> settled (w_fs w') d name old;
  ro_kept bytes : st = PV_OK \/ st = PV_ERR_DURABILITY -> old = Some bytes ->
    exists b, (name <> cstr "backups" -> entry (w_fs w') d (cstr "backups") = Some b) /\ active_kept (w_fs w) (w_fs w') d name b (calm w)
}.

(** The steps before the replacement. *)
Lemma wp_before_restore {A} d name backup old w (k : pv_status -> bool -> W A) (Q : A -> world -> Prop) :
  let J g := between g d name old (Some (disk_header_bytes backup ++ disk_ciphertext backup)) in
  world_ok w -> d < w_next w -> settled (w_fs w) d name old ->
  (forall st e w', world_ok w' -> w_next w <= w_next w' -> extends none (w_fs w) (w_fs w') -> st <> PV_ERR_DURABILITY ->
     settled (w_fs w') d name old -> calmly w w' ->
     (st = PV_OK -> e = true -> exists b, entry (w_fs w') d (cstr "backups") = Some b /\ b <> d /\ active_kept (w_fs w) (w_fs w') d name b (calm w)) ->
     wp J (k st e) Q w') ->
  wp J
    (r ← path_entry_exists_at d name;
     let '(status, active_exists) := r in
     r ← (if is_ok status && active_exists then keep_active (location_at d name) backup else mret (status, None));
     let '(status, backup_directory) := r in
     _ ← (match backup_directory with Some _ => close | None => mret true end);
     k status active_exists) Q w.
Proof.
  intros J Hok Hd Hold Hk. apply wp_bind, wp_path_exists. intros st e w1 S1 Hst Hsome _ _. destruct (is_ok st && e) eqn:E.
  - apply andb_true_iff in E as [Est ->]. apply is_ok_iff in Est as ->.
    destruct (Hsome eq_refl) as [i Ei]. destruct (settled_some _ _ _ _ _ Hold Ei) as [bytes ->].
    eapply wp_then.
    { eapply wp_weaken; [apply (wp_keep_active d name backup w1); [by eapply world_ok_same | by rewrite (same_next _ _ S1)] |].
      intros g Hg. rewrite (same_fs _ _ S1) in Hg. apply settled_between_l. eapply settled_extends; [exact Hg | intros [] | done]. }
    intros [st r] w2 C2 (B & Hnd & Hbd & Hkept). cbn [fst snd] in *. apply wp_bind, wp_close_backups. intros c w3 S3.
    destruct B as [A1 A2 A3 A4]. rewrite (same_fs _ _ S1), (same_next _ _ S1) in *.
    assert (C13 : calmly w w3) by (etrans; [apply S1 |]; etrans; [exact C2 | apply S3]).
    apply Hk; rewrite ?(same_fs _ _ S3), ?(same_next _ _ S3); try done; [by eapply world_ok_same | eapply settled_extends; [exact A3 | intros [] | done] |].
    intros Eok _. destruct (Hkept Eok) as (b & Eb & Hb & pname & si & sn & j & data & rest & K1 & K2 & K3 & K4 & K5 & K6 & K7).
    exists b. split_and!; [done | by apply Hbd |]. exists pname, si, sn, j, data, rest. split_and!; try done. intros Hc. apply K7. eauto with calm.
  - apply wp_bind, wp_ret. apply wp_bind, wp_ret. apply Hk; rewrite ?(same_fs _ _ S1), ?(same_next _ _ S1); try done; [by eapply world_ok_same | apply S1 |].
    intros Eok He. rewrite He, andb_true_r in E. apply is_ok_iff in Eok. congruence.
Qed.

Lemma wp_restore_locked path d name backup old w :
  world_ok w -> d < w_next w -> settled (w_fs w) d name old -> 0 < zlen (disk_ciphertext backup) ->
  let new := disk_header_bytes backup ++ disk_ciphertext backup in
  wp (fun g => between g d name old (Some new)) (restore_locked path (location_at d name) backup) (restore_outcome w d name old new) w.
Proof.
  intros Hok Hd Hold Hlen new. unfold restore_locked. cbn [location_at directory_fd location_name]. apply wp_before_restore; [done | done | done |].
  intros st e w1 Hok1 Hn1 Hx1 Hst1 Hold1 C1 Hkept1.
  eapply (wp_then _ _ _ (fun _ w2 => same w1 w2)); [destruct (is_ok st); [by apply wp_revalidate | by apply wp_ret] |].
  intros valid w2 _ S2. cbv zeta. set (st2 := if negb (is_ok valid) then PV_ERR_LOCKED else st).
  assert (Hst2 : st2 = PV_OK -> st = PV_OK) by (unfold st2; by split_if). assert (Hnd2 : st2 <> PV_ERR_DURABILITY) by (unfold st2; by split_if).
  assert (Hok2 : world_ok w2) by by eapply world_ok_same. rewrite <- (same_fs _ _ S2) in Hold1, Hx1, Hkept1. rewrite <- (same_next _ _ S2) in Hn1.
  eapply (wp_then _ _ _ (fun st3 w3 => committed w2 d name old new st3 None w3 /\ (st3 = PV_OK \/ st3 = PV_ERR_DURABILITY -> st2 = PV_OK /\ (e = false -> entry (w_fs w2) d name = None)))).
  { destruct (is_ok st2) eqn:E2.
    - apply is_ok_iff in E2. eapply wp_mono; [apply (wp_replace_excl d name (disk_header_bytes backup) (disk_ciphertext backup) (negb e) old w2); [done | lia | done | done] |].
      intros st3 w3 _ [Hcm Hex]. split; [done |]. intros Hst3. split; [done |]. intros ->. by apply Hex.
    - assert (st2 <> PV_OK) by by intros Eo; rewrite Eo in E2. apply wp_ret. split; [by apply committed_failure | by intros [? | ?]]. }
  intros st3 w3 _ [Hcm Hst3].
  assert (Hvisible : st3 = PV_OK \/ st3 = PV_ERR_DURABILITY -> holds (w_fs w3) (entry (w_fs w3) d name) (Some new)).
  { intros Hs. destruct (cm_visible _ _ _ _ _ _ _ _ Hcm Hs) as (i & E & N & _). rewrite E. cbn. unfold content. by rewrite N. }
  assert (Hkept : forall bytes, st3 = PV_OK \/ st3 = PV_ERR_DURABILITY -> old = Some bytes ->
    exists b, (name <> cstr "backups" -> entry (w_fs w3) d (cstr "backups") = Some b) /\ active_kept (w_fs w) (w_fs w3) d name b (calm w)).
  { intros bytes Hs Ebytes. destruct (Hst3 Hs) as [E2 He]. destruct e.
    - destruct (Hkept1 (Hst2 E2) eq_refl) as (b & Eb & Hbd & pname & Hcopy). exists b. pose proof (cm_extends _ _ _ _ _ _ _ _ Hcm) as Hx. split.
      + intros Hne. eapply ext_entry; [exact Hx | done |]. intros [_ Heq]. by apply Hne.
      + exists pname. eapply copy_of_extends; [exact Hx | | exact Hcopy]. by intros [Heq _].
    - destruct Hold1 as [Ho _]. rewrite (He eq_refl), Ebytes in Ho. done. }
  destruct (is_ok st3 || bool_decide (st3 = PV_ERR_DURABILITY)) eqn:E3.
  - assert (Hs : st3 = PV_OK \/ st3 = PV_ERR_DURABILITY) by (apply orb_true_iff in E3 as [E3%is_ok_iff | E3%bool_decide_eq_true]; auto).
    apply wp_bind, wp_check_restored. intros warning w4 S4 Hw. apply wp_bind, wp_quiet; [apply quiet_unlock |]. intros u w5 S5. apply wp_ret.
    assert (S35 : same w3 w5) by by etrans. split; rewrite ?(same_fs _ _ S35); auto; try apply Hcm.
    + eapply world_ok_same; [exact S35 | apply Hcm].
    + intros Ew. apply Hcm. destruct warning; [done |]. by apply Hw.
    + intros Hne Hnd. by destruct warning.
    + intros bytes _ Eb. by eapply Hkept.
  - assert (st3 <> PV_OK /\ st3 <> PV_ERR_DURABILITY) as [Hne Hnd].
    { apply orb_false_iff in E3 as [E3 E3'%bool_decide_eq_false]. split; [by intros -> | done]. }
    apply wp_bind, wp_quiet; [apply quiet_unlock |]. intros u w5 S5. apply wp_ret. split; rewrite ?(same_fs _ _ S5); auto; try apply Hcm; try done.
    eapply world_ok_same; [exact S5 | apply Hcm].
Qed.

(** ** Restoring, with the lock *)

(** What a restore did to the directory its path led to. *)
Definition restored (w : world) (backup_path expected_hash : list Z) (d : Z) (name : list Z) (old : option (list Z)) (new : list Z)
    (st : pv_status) (w' : world) : Prop :=
  restore_outcome w d name old new st w' /\
  (st = PV_OK \/ st = PV_ERR_DURABILITY -> good_directory (w_fs w) d /\
     exists disk, source_of_path w backup_path disk /\ disk_hash disk = expected_hash /\ new = disk_header_bytes disk ++ disk_ciphertext disk).

Lemma restore_outcome_locked w w1 d name old new st w' :
  extends none (w_fs w) (w_fs w1) -> calmly w w1 -> settled (w_fs w) d name old ->
  restore_outcome w1 d name old new st w' -> restore_outcome w d name old new st w'.
Proof.
  intros Hx C Hold [R1 R2 R3 R4 R5 R6]. split; try done. intros bytes Hst ->. destruct (R6 bytes Hst eq_refl) as (b & Hb & pname & Hcopy).
  exists b. split; [done |]. exists pname. destruct Hold as [He _]. destruct (entry (w_fs w) d name) as [i |] eqn:E; [| done]. cbn in He.
  eapply copy_of_before; [exact Hx | exact E | by rewrite He |].
  destruct Hcopy as (si & sn & j & data & rest & K1 & K2 & K3 & K4 & K5 & K6 & K7). exists si, sn, j, data, rest. split_and!; try done.
  intros Hc. apply K7. by apply C.
Qed.

Lemma restore_nothing w d name old new st w' :
  world_ok w' -> locking name (w_fs w) (w_fs w') -> settled (w_fs w) d name old -> st <> PV_OK -> st <> PV_ERR_DURABILITY ->
  restore_outcome w d name old new st w'.
Proof.
  intros Hok Hl Hold Hst Hst'. assert (Hold' : settled (w_fs w') d name old) by by eapply settled_locking.
  split; try done; [by apply settled_between_l | by intros [] | by intros ? []].
Qed.

(** [d] is the directory that the path leads to when it is opened, which is after
    the backup was read. *)
Lemma wp_store_restore path backup_path expected_hash parent name d w :
  world_ok w -> split_parent_and_name path = (PV_OK, parent, name) -> resolve (snd (read_disk_file backup_path w)) parent = Some d ->
  exists new, forall old, settled (w_fs w) d name old ->
    wp (fun g => between g d name old (Some new)) (pv_store_restore path backup_path expected_hash)
      (restored w backup_path expected_hash d name old new) w.
Proof.
  intros Hok Esplit Hparent.
  assert (Hno : forall (J : fs -> Prop) d old new st w1, same w w1 -> st <> PV_OK -> st <> PV_ERR_DURABILITY -> settled (w_fs w) d name old ->
    wp J (mret st) (restored w backup_path expected_hash d name old new) w1).
  { intros J d1 old new st w1 S1 Hst Hst' Hold. apply wp_ret. split; [| by intros []]. apply restore_nothing; try done; [by eapply world_ok_same | rewrite (same_fs _ _ S1); apply locking_refl]. }
  assert (Hread : wp (fun _ => False) (read_disk_file backup_path) (fun r w1 => same w w1 /\
    ((fst r <> PV_OK /\ fst r <> PV_ERR_DURABILITY) \/ (fst r = PV_OK /\ source_of_path w backup_path (snd r) /\ 0 < zlen (disk_ciphertext (snd r))))) w).
  { apply wp_read_disk_file; [intros st w1 S1 Hst Hst' _; split; [done |]; by left |].
    intros p d1 nm i n disk w1 S1 Ep Hr D. split; [done |]. right. split_and!; [done | by exists p, d1, nm, i, n | by eapply disk_nonempty]. }
  unfold pv_store_restore. destruct (read_disk_file backup_path w) as [[st backup] w1] eqn:Er.
  destruct (wp_run _ _ _ _ _ _ Hread Er) as (_ & C1 & S1 & Hst). cbn [fst snd] in *.
  assert (Hstart : forall (J : fs -> Prop) (k : pv_status * pv_disk_file -> W pv_status) Q, wp J (k (st, backup)) Q w1 -> wp J (read_disk_file backup_path ≫= k) Q w).
  { intros J k Q Hk. apply wp_bind. unfold wp. rewrite Er. cbn [fst snd]. split_and!; [exists []; by rewrite (same_hist _ _ S1) | done | apply Hk ..]. }
  destruct Hst as [[Hne Hnd] | (-> & Hsource & Hlen)].
  { exists []. intros old Hold. apply Hstart. destruct (is_ok st) eqn:E; [by apply is_ok_iff in E |]. by apply Hno. }
  destruct (bytes_eqb (disk_hash backup) expected_hash) eqn:Eh.
  2: { exists []. intros old Hold. apply Hstart. cbn [is_ok negb]. rewrite Eh. by apply Hno. }
  pose proof (wp_lock_vault path w1 ltac:(by eapply world_ok_same)) as Hlock. destruct (lock_vault path w1) as [[st2 location] w2] eqn:El.
  destruct (wp_run _ _ _ _ _ _ Hlock El) as (T2 & C2 & (X & Y & A0) & L2 & Hloc & _). cbn [fst snd] in *.
  assert (Hl : locking name (w_fs w) (w_fs w2)) by (rewrite <- (same_fs _ _ S1); by eapply L2).
  assert (Hgo : forall d old new (k : pv_status * option pv_store_location -> W pv_status) Q, settled (w_fs w) d name old ->
    wp (fun g => between g d name old new) (k (st2, location)) Q w2 -> wp (fun g => between g d name old new) (lock_vault path ≫= k) Q w1).
  { intros d1 old new k Q Hold Hk. apply wp_bind. unfold wp. rewrite El. cbn [fst snd]. split_and!; [| done | apply Hk ..].
    eapply through_mono; [| exact T2]. intros g Hg. rewrite (same_fs _ _ S1) in Hg. apply settled_between_l. eapply settled_locking; [by eapply Hg | done]. }
  destruct location as [location |].
  - destruct Hloc as (-> & parent' & name' & d' & -> & Esplit' & Hr & Hg & A). assert (parent' = parent) as -> by congruence. assert (name' = name) as -> by congruence.
    assert (d' = d) as -> by congruence. exists (disk_header_bytes backup ++ disk_ciphertext backup). intros old Hold. apply Hstart. cbn [is_ok negb]. rewrite Eh. cbn [negb]. apply Hgo; [done |].
    eapply wp_mono; [apply (wp_restore_locked path d name backup old w2) |].
    + apply A0.
    + destruct Hg as (n & Hn & _). pose proof (adds_next _ _ _ _ A). assert (world_ok w1) as Hok1 by by eapply world_ok_same. apply (ok_inode _ _ Hok1) in Hn. lia.
    + by eapply settled_locking.
    + done.
    + intros st w3 _ Hout. split; [eapply restore_outcome_locked; [apply Hl | | done | exact Hout]; etrans; [apply S1 | done] |].
      intros _. split; [by rewrite <- (same_fs _ _ S1) |]. exists backup. split_and!; [done | by apply bytes_eqb_eq | done].
  - exists []. intros old Hold. apply Hstart. cbn [is_ok negb]. rewrite Eh. cbn [negb]. apply Hgo; [done |]. apply wp_ret.
    destruct Hloc as [Hne Hnd]. split; [| by intros []]. apply restore_nothing; try done. apply A0.
Qed.

End copies.
