(* ===== verification/StoreExample.v ===== *)
(** * A concrete vault on a concrete file system

    A directory with one vault file in it, opened in a session, on a kernel on
    which nothing fails: the inputs at which the properties of the store are
    instantiated. *)

From stdpp Require Import gmap.
From S2P Require Import Prelude Status Util Sys ReferenceSodium Arena Model ModelFacts ModelInv ModelProps Cbor CborFacts.
From S2P Require Import CborProps Crypto CryptoFacts CryptoProps Posix Config Secure Fs FsFacts Store StoreOps StoreFacts.
From S2P Require Import StoreReads StoreSave StoreNames StorePrune StoreCommit StoreSession StoreReopen.

#[global] Instance example_host : Host := {|
  geteuid := 1000; umask := 63; device := 7; readdir_order m := (map_to_list m).*1
|}.

#[global] Instance example_host_laws : HostLaws example_host.
Proof. by split. Qed.

#[global] Instance toy_sodium_total : SodiumTotal toy_sodium.
Proof. split; intros; by eexists. Qed.

(** [/home/v.pv], the only file. *)
Definition example_path : list Z := cstr "/home/v.pv".
Definition example_name : list Z := cstr "v.pv".
Definition example_bytes : list Z := serialized_header example_header ++ example_ciphertext.
Definition example_inode : inode := mk_inode (32768 + 384) 1000 1 example_bytes true.
Definition example_home : inode := mk_inode (16384 + 448) 1000 2 [] true.
Definition example_entries : gmap (list Z) Z := {[ example_name := 2 ]}.
Definition example_fs : fs := mk_fs {[ 1 := example_home; 2 := example_inode ]} {[ 1 := example_entries ]} {[ 1 := example_entries ]}.

Definition example_kernel : kernel :=
  mk_kernel (fun _ => None) (fun _ => [E_intr; E_upto 99]) (fun _ _ => Some 1) (fun _ _ => None).
Definition example_world : world := mk_world example_calm_sys example_kernel example_fs 3 [].

(** The open vault: one record, generation 1, changed since it was read. *)
Definition example_open : pv_vault :=
  mk_vault (v_arena saved_vault) (h_vault_id example_header) (v_device_id saved_vault) 1 (v_created_ms saved_vault) (v_updated_ms saved_vault)
    (v_records saved_vault) (v_record_capacity saved_vault) (Some example_vmk) (le_put 32 (toy_hash 5 example_bytes)) true example_path.

Lemma example_calm_world : calm example_world.
Proof. split; [done | | done | exact example_calm]. intros n. repeat constructor; done. Qed.

Lemma example_inodes i n : f_inodes example_fs !! i = Some n -> i = 1 /\ n = example_home \/ i = 2 /\ n = example_inode.
Proof.
  unfold example_fs. cbn [f_inodes]. intros E. apply lookup_insert_Some in E as [[<- <-] | [_ E]]; [by left |].
  apply lookup_singleton_Some in E as [<- <-]. by right.
Qed.

Lemma example_entry d name i : entry example_fs d name = Some i -> d = 1 /\ name = example_name /\ i = 2.
Proof.
  unfold entry, entries, example_fs. cbn [f_dirs]. destruct (decide (d = 1)) as [-> | Hd].
  - rewrite lookup_singleton_eq. cbn. intros E. by apply lookup_singleton_Some in E as [<- <-].
  - by rewrite lookup_singleton_ne.
Qed.

Lemma example_world_ok : world_ok example_world.
Proof.
  split; cbn [example_world w_fs w_next].
  - intros i n [[-> _] | [-> _]]%example_inodes; lia.
  - intros d name i (-> & -> & ->)%example_entry. lia.
  - intros d name i (-> & -> & ->)%(example_entry d name i). lia.
Qed.

Lemma example_here : entry example_fs 1 example_name = Some 2 /\ durable_entry example_fs 1 example_name = Some 2 /\ f_inodes example_fs !! 2 = Some example_inode.
Proof. by split_and!. Qed.

Lemma example_settled : settled example_fs 1 example_name (Some example_bytes).
Proof. destruct example_here as (E & D & N). split; [rewrite E | rewrite D]; cbn; unfold content; by rewrite N. Qed.

Lemma example_image : file_image (serialized_header example_header) example_ciphertext example_header.
Proof.
  destruct (encrypted_body_opens example_vmk [112; 119] (replicate 32 5) [1; 2; 3] example_ciphertext (snd (fst example_created)) example_header
    example_sys (snd example_saved) example_sys) as (Hd & Hl & _); [by apply Forall_replicate | repeat constructor; done | exact example_created_life | exact example_saved_run | done | done | done |].
  split_and!; [| done | done | by eexists]. rewrite serialized_eq by exact example_header_typed. apply header_len, example_header_typed.
Qed.

Lemma example_hash : crypto_generichash example_bytes = Some (v_source_hash example_open).
Proof. reflexivity. Qed.

Lemma example_disk : exists disk, disk_of example_fs 1 example_name 2 example_inode disk /\ disk_header disk = example_header /\
  disk_hash disk = v_source_hash example_open.
Proof.
  destruct example_here as (E & _ & N).
  destruct (image_disk example_fs 1 example_name 2 example_inode _ _ _ E N ltac:(done) ltac:(done) example_image) as (disk & D & _ & _ & Hh & Hash).
  exists disk. split_and!; [exact D | exact Hh |]. fold example_bytes in Hash. rewrite example_hash in Hash. symmetry. exact (inj Some _ _ Hash).
Qed.

Lemma example_leads : leads_to example_world example_path 1 example_name.
Proof. exists (cstr "/home"). split_and!; [done | done |]. exists example_home. by split_and!. Qed.

Lemma example_session : session_ok example_open example_header example_vmk [112; 119] (replicate 32 5).
Proof.
  destruct saved_vault_ok as [Hwf Hm]. split.
  - by eapply (vault_wf_fields saved_vault).
  - destruct Hm. split; try done.
  - done.
  - done.
  - by apply Forall_replicate.
  - exact example_life.
  - done.
Qed.

(** No other name is taken. *)
Lemma example_free d name : name <> example_name \/ d <> 1 -> entry example_fs d name = None.
Proof. intros Hne. destruct (entry example_fs d name) as [i |] eqn:E; [| done]. apply example_entry in E as (-> & -> & _). by destruct Hne. Qed.

Lemma example_can_lock : can_lock example_fs 1 example_name.
Proof. split; [done |]. intros i. rewrite example_free; [done |]. left. by intros E%eq_sym%lock_not_name. Qed.

Lemma example_vault_id : backup_id (v_vault_id example_open) (v_generation example_open).
Proof. destruct (ht_vault_id _ example_header_typed) as [Hl Hb]. split_and!; [exact Hb | exact Hl | done | done]. Qed.

Lemma example_can_save : can_save example_world 1 example_name example_open example_header false.
Proof.
  split_and!.
  - split; [done |]. destruct example_disk as (disk & D & Hh & Hash). exists disk, 2, example_inode. split_and!; [exact D | reflexivity | exact Hash |]. rewrite Hh. reflexivity.
  - exact example_leads.
  - split; [done |]. intros v. apply example_free. left. apply temporary_name_ne.
  - done.
  - eapply session_sealable, example_session.
  - intros _. assert (Hb : forall nm, entry example_fs 1 (cstr "backups") <> Some nm) by (intros nm; by rewrite example_free by (left; done)).
    split_and!; [intros i E; by apply Hb in E | done |]. exists (backup_name (v_vault_id example_open) (v_generation example_open)).
    split; [apply format_spec, example_vault_id |]. intros b E. by apply Hb in E.
Qed.
