(* ===== verification/StoreProps.v ===== *)
(** * Properties of the store

    What the operations of [src/store.c] guarantee, for every behaviour of the
    kernel unless the statement says otherwise. *)

From stdpp Require Import gmap.
From S2P Require Import Prelude Status Util Sys ReferenceSodium Arena Model ModelFacts ModelInv ModelProps Cbor CborFacts.
From S2P Require Import CborProps Crypto CryptoFacts CryptoProps Posix Config Secure Fs FsFacts Store StoreOps StoreFacts.
From S2P Require Import StoreReads StoreSave StoreNames StorePrune StoreCommit StoreSession StoreReopen StoreCopies.
From S2P Require Import StoreExample.

(** ** Abstract specification of a replacement *)

(** What processes read under a name and what the disk holds for it. *)
Definition versions (f : fs) (d : Z) (name : list Z) (seen durable : option (list Z)) : Prop :=
  holds f (entry f d name) seen /\ holds f (durable_entry f d name) durable.

(** An atomic register: the status tells whether it was written. *)
Inductive replaced (old : option (list Z)) (new : list Z) : pv_status -> option (list Z) -> option (list Z) -> Prop :=
| replaced_ok : replaced old new PV_OK (Some new) (Some new)
| replaced_unsure durable : durable = old \/ durable = Some new -> replaced old new PV_ERR_DURABILITY (Some new) durable
| replaced_not st : st <> PV_OK -> st <> PV_ERR_DURABILITY -> replaced old new st old old.

(** Between two states only one of two versions can be observed. *)
Definition atomic_between (w w' : world) (d : Z) (name : list Z) (old new : option (list Z)) : Prop :=
  exists hs, w_hist w' = hs ++ w_hist w /\ Forall (fun g => forall o, observed g d name o -> o = old \/ o = new) hs.

Lemma through_atomic w w' d name old new : through (fun g => between g d name old new) w w' -> atomic_between w w' d name old new.
Proof.
  intros (hs & E & Hhs). exists hs. split; [done |]. eapply Forall_impl; [| exact Hhs]. intros g Hg o. by apply between_observed.
Qed.

Lemma replaced_intro f d name old new st :
  between f d name old (Some new) -> (st = PV_OK -> settled f d name (Some new)) ->
  (st = PV_ERR_DURABILITY -> holds f (entry f d name) (Some new)) -> (st <> PV_OK -> st <> PV_ERR_DURABILITY -> settled f d name old) ->
  exists seen durable, versions f d name seen durable /\ replaced old new st seen durable.
Proof.
  intros [_ Hb] Hok Hdur Hold. destruct (decide (st = PV_OK)) as [-> | Hne]; [| destruct (decide (st = PV_ERR_DURABILITY)) as [-> | Hnd]].
  - exists (Some new), (Some new). split; [by apply Hok | constructor].
  - destruct Hb as [Hb | Hb]; [exists (Some new), old | exists (Some new), (Some new)]; (split; [split; auto | constructor; auto]).
  - exists old, old. split; [by apply Hold | by constructor].
Qed.

(** ** Saving *)

(** C1: [pv_store_save] implements an atomic replacement, whatever fails and
    wherever the machine stops: at every moment a reader of the vault's name, or
    the disk after a crash, shows the complete old file or the complete new one;
    with [PV_OK] the new file is there and durable, with [PV_ERR_DURABILITY] it
    is there and the disk holds one of the two, and otherwise the old file is
    untouched. The new file is the encryption of the vault with the next
    generation. *)
Theorem save_atomic `{Host} `{Sodium} `{Libcbor} (vault : pv_vault) (header : pv_file_header) (retention : Z) (parent name old : list Z) (d : Z) (w : world)
    (Hok : world_ok w) (Hdirty : v_dirty vault = true) (Hpath : split_parent_and_name (v_path vault) = (PV_OK, parent, name))
    (Hparent : resolve w parent = Some d) (Hold : settled (w_fs w) d name (Some old)) :
  let '((st, vault', header'), w') := pv_store_save vault header retention w in
  exists new, atomic_between w w' d name (Some old) (Some new) /\
    (exists seen durable, versions (w_fs w') d name seen durable /\ replaced (Some old) new st seen durable) /\
    (st = PV_OK \/ st = PV_ERR_DURABILITY -> sealed_as vault header header' (v_updated_ms vault') new).
Proof.
  destruct (wp_store_save vault header retention parent d name old w Hok Hdirty Hpath Hparent Hold) as [new Hwp].
  destruct (pv_store_save vault header retention w) as [[[st vault'] header'] w'] eqn:E. destruct (wp_run _ _ _ _ _ _ Hwp E) as (Ht & _ & Hout & _).
  destruct Hout as [_ O2 O3 O4 O5 O6 _ _ _ _]. exists new. split_and!; [by apply through_atomic | | intros Hst; by apply O6].
  apply replaced_intro; [done | intros Hs; by apply O3 | intros Hs; by apply O4 | intros Hne Hnd; by apply O5].
Qed.

Lemma save_atomic_witness :
  let '((st, vault', header'), w') := pv_store_save example_open example_header 3 example_world in
  exists new, atomic_between example_world w' 1 example_name (Some example_bytes) (Some new) /\
    (exists seen durable, versions (w_fs w') 1 example_name seen durable /\ replaced (Some example_bytes) new st seen durable) /\
    (st = PV_OK \/ st = PV_ERR_DURABILITY -> sealed_as example_open example_header header' (v_updated_ms vault') new).
Proof.
  apply (save_atomic example_open example_header 3 (cstr "/home") example_name example_bytes 1 example_world);
    [exact example_world_ok | reflexivity | reflexivity | reflexivity | exact example_settled].
Defined.

(** C10: a save that reached the new file ([PV_OK] or [PV_ERR_DURABILITY]) keeps
    the version it replaced, which is the one the session was opened from: the
    directory of the backups has, under the name of the previous generation, a
    file with the hash of the replaced one, that name is on the disk, and so are the
    contents of the file unless the name was that very file before the save; the
    pruning that ends the save never removes it. *)
Theorem save_keeps_previous `{Ho : Host} `{!HostLaws Ho} `{Sodium} `{Libcbor} (vault : pv_vault) (header : pv_file_header) (retention : Z)
    (parent name old : list Z) (d : Z) (w : world)
    (Hok : world_ok w) (Hdirty : v_dirty vault = true) (Hpath : split_parent_and_name (v_path vault) = (PV_OK, parent, name))
    (Hparent : resolve w parent = Some d) (Hold : settled (w_fs w) d name (Some old)) (Hname : name <> cstr "backups")
    (Hid : backup_id (v_vault_id vault) (v_generation vault)) (Hret : 1 <= retention) :
  let '((st, _, _), w') := pv_store_save vault header retention w in
  st = PV_OK \/ st = PV_ERR_DURABILITY -> crypto_generichash old = Some (v_source_hash vault) /\
  exists b backup, format_automatic_backup_name (v_vault_id vault) (v_generation vault) = (PV_OK, backup) /\
    entry (w_fs w') d (cstr "backups") = Some b /\ has_copy (w_fs w) (w_fs w') b backup (v_source_hash vault).
Proof.
  destruct (wp_store_save vault header retention parent d name old w Hok Hdirty Hpath Hparent Hold) as [new Hwp].
  destruct (pv_store_save vault header retention w) as [[[st vault'] header'] w'] eqn:E. destruct (wp_run _ _ _ _ _ _ Hwp E) as (_ & _ & Hout & _ & Hrep).
  intros Hst. split; [apply Hrep; [done | lia] |]. destruct (so_kept _ _ _ _ _ _ _ _ _ _ _ Hout Hst eq_refl Hret Hid) as (b & Hb & Hcopy). exists b, (backup_name (v_vault_id vault) (v_generation vault)).
  split_and!; [by apply format_spec | by apply Hb | done].
Qed.

Lemma save_keeps_previous_witness :
  let '((st, _, _), w') := pv_store_save example_open example_header 3 example_world in
  st = PV_OK \/ st = PV_ERR_DURABILITY -> crypto_generichash example_bytes = Some (v_source_hash example_open) /\
  exists b backup, format_automatic_backup_name (v_vault_id example_open) (v_generation example_open) = (PV_OK, backup) /\
    entry (w_fs w') 1 (cstr "backups") = Some b /\ has_copy (w_fs example_world) (w_fs w') b backup (v_source_hash example_open).
Proof.
  apply (save_keeps_previous example_open example_header 3 (cstr "/home") example_name example_bytes 1 example_world);
    [exact example_world_ok | reflexivity | reflexivity | reflexivity | exact example_settled | done | exact example_vault_id | lia].
Defined.

(** C12: a save leaves a session the program can go on with: when it fails before
    the commit the vault in memory is exactly as it was, and once the new file
    is visible the vault and header in memory are well formed again, belong to
    the same key and identity, are one generation further and hold the same
    records; after [PV_OK] the vault is clean and its source hash is that of the
    new file. *)
Theorem save_keeps_session `{Host} {S : Sodium} {Laws : SodiumLaws S} {Total : SodiumTotal S} {L : Libcbor} {CborLaws : LibcborLaws L}
    (vault : pv_vault) (header : pv_file_header) (vmk password recovery_key : list Z) (retention : Z) (parent name old : list Z) (d : Z) (w : world)
    (Hss : session_ok vault header vmk password recovery_key)
    (Hok : world_ok w) (Hdirty : v_dirty vault = true) (Hpath : split_parent_and_name (v_path vault) = (PV_OK, parent, name))
    (Hparent : resolve w parent = Some d) (Hold : settled (w_fs w) d name (Some old)) :
  let '((st, vault', header'), w') := pv_store_save vault header retention w in
  world_ok w' /\
  (st <> PV_OK -> st <> PV_ERR_DURABILITY -> vault' = vault) /\
  (st = PV_OK \/ st = PV_ERR_DURABILITY -> v_updated_ms vault' <= INT64_MAX ->
     session_ok vault' header' vmk password recovery_key /\ contents vault' = contents vault /\
     v_generation vault' = u64 (v_generation vault + 1)) /\
  (st = PV_OK -> v_dirty vault' = false /\ exists new, settled (w_fs w') d name (Some new) /\ crypto_generichash new = Some (v_source_hash vault')).
Proof.
  destruct (wp_store_save vault header retention parent d name old w Hok Hdirty Hpath Hparent Hold) as [new Hwp].
  destruct (pv_store_save vault header retention w) as [[[st vault'] header'] w'] eqn:E. destruct (wp_run _ _ _ _ _ _ Hwp E) as (_ & _ & Hout & _).
  pose proof (mo_generation _ (ss_meta _ _ _ _ _ Hss)) as Hg. split_and!.
  - apply Hout.
  - intros Hne Hnd. by apply (so_failed _ _ _ _ _ _ _ _ _ _ _ Hout Hne Hnd).
  - intros Hst Hms. destruct (committed_session _ _ _ _ _ _ _ _ _ _ _ _ _ _ Hss Hout Hst Hms) as [Hs Hc]. split_and!; [done | done |].
    destruct Hst as [Hst | Hst]; [apply (so_saved _ _ _ _ _ _ _ _ _ _ _ Hout Hst) | apply (so_visible _ _ _ _ _ _ _ _ _ _ _ Hout Hst)].
  - intros Hst. destruct (so_saved _ _ _ _ _ _ _ _ _ _ _ Hout Hst) as (Hset & [_ V2 V3 _ _ _] & _). split; [done |]. by exists new.
Qed.

Lemma save_keeps_session_witness :
  let '((st, vault', header'), w') := pv_store_save example_open example_header 3 example_world in
  world_ok w' /\
  (st <> PV_OK -> st <> PV_ERR_DURABILITY -> vault' = example_open) /\
  (st = PV_OK \/ st = PV_ERR_DURABILITY -> v_updated_ms vault' <= INT64_MAX ->
     session_ok vault' header' example_vmk [112; 119] (replicate 32 5) /\ contents vault' = contents example_open /\
     v_generation vault' = u64 (v_generation example_open + 1)) /\
  (st = PV_OK -> v_dirty vault' = false /\ exists new, settled (w_fs w') 1 example_name (Some new) /\ crypto_generichash new = Some (v_source_hash vault')).
Proof.
  apply (save_keeps_session example_open example_header example_vmk [112; 119] (replicate 32 5) 3 (cstr "/home") example_name example_bytes 1 example_world);
    [exact example_session | exact example_world_ok | reflexivity | reflexivity | reflexivity | exact example_settled].
Defined.

(** ** Saving, then opening *)

(** C5: when nothing fails, saving succeeds and the file it leaves opens with the
    same password: [pv_store_save] returns [PV_OK], [pv_store_open_password] on
    the result returns [PV_OK], and the opened vault has the records, the
    device, the creation time and the key of the saved one, its next generation
    and the hash that the saving session remembers. *)
Theorem save_then_open `{Host} {S : Sodium} {Laws : SodiumLaws S} {Total : SodiumTotal S} {L : Libcbor} {CborLaws : LibcborLaws L}
    (vault : pv_vault) (header header0 : pv_file_header) (vmk password recovery_key : list Z) (retention : Z) (name old : list Z) (d : Z) (w : world)
    (Hss : session_ok vault header vmk password recovery_key) (Hdirty : v_dirty vault = true) (Hret : 1 <= retention)
    (Hok : world_ok w) (Hcalm : calm w) (Hold : settled (w_fs w) d name (Some old))
    (Hlock : can_lock (w_fs w) d name) (Hcan : can_save w d name vault header false) :
  let '((st, vault', header'), w') := pv_store_save vault header retention w in
  let '((st2, opened, header2), _) := pv_store_open_password (v_path vault) password header0 w' in
  st = PV_OK /\ st2 = PV_OK /\ header2 = header' /\ contents opened = contents vault /\
  v_generation opened = u64 (v_generation vault + 1) /\ v_vault_id opened = v_vault_id vault /\ v_device_id opened = v_device_id vault /\
  v_created_ms opened = v_created_ms vault /\ v_vmk opened = v_vmk vault /\ v_source_hash opened = v_source_hash vault' /\
  v_dirty opened = false /\ vault_wf opened.
Proof.
  pose proof (save_reopens vault header header0 vmk password recovery_key retention name old d w Hss Hdirty Hret Hok Hcalm Hold Hlock Hcan) as Hr.
  destruct (pv_store_save vault header retention w) as [[[st vault'] header'] w']. destruct Hr as [-> Hr]. specialize (Hr w' ltac:(reflexivity)).
  destruct (pv_store_open_password (v_path vault) password header0 w') as [[[st2 opened] header2] w'']. by split.
Qed.

Lemma save_then_open_witness :
  let '((st, vault', header'), w') := pv_store_save example_open example_header 3 example_world in
  let '((st2, opened, header2), _) := pv_store_open_password (v_path example_open) [112; 119] header_zero w' in
  st = PV_OK /\ st2 = PV_OK /\ header2 = header' /\ contents opened = contents example_open /\
  v_generation opened = u64 (v_generation example_open + 1) /\ v_vault_id opened = v_vault_id example_open /\ v_device_id opened = v_device_id example_open /\
  v_created_ms opened = v_created_ms example_open /\ v_vmk opened = v_vmk example_open /\ v_source_hash opened = v_source_hash vault' /\
  v_dirty opened = false /\ vault_wf opened.
Proof.
  apply (save_then_open example_open example_header header_zero example_vmk [112; 119] (replicate 32 5) 3 example_name example_bytes 1 example_world);
    [exact example_session | reflexivity | lia | exact example_world_ok | exact example_calm_world | exact example_settled | exact example_can_lock | exact example_can_save].
Defined.

(** ** Backups *)

(** The names of automatic backups are exactly what the parser accepts: a
    name parses to an identifier of 16 bytes and a generation in range if and
    only if formatting these gives the name back. *)
Theorem backup_name_exact (name vault_id : list Z) (generation : Z) :
  parse_automatic_backup_name name = Some (vault_id, generation) <->
  is_bytes vault_id /\ zlen vault_id = PV_VAULT_ID_BYTES /\ 0 < generation <= UINT64_MAX /\
  format_automatic_backup_name vault_id generation = (PV_OK, name).
Proof.
  rewrite parse_spec. split.
  - intros [Hid ->]. pose proof Hid as (Hb & Hl & Hg). split_and!; try apply Hg; try done. by apply format_spec.
  - intros (Hb & Hl & Hg & Hf). assert (Hid : backup_id vault_id generation) by done. rewrite (format_spec _ _ Hid) in Hf. by simplify_eq.
Qed.



(** ** Reading, exporting and restoring *)

(** Reading a vault file changes nothing and returns the file and nothing
    else: with [PV_OK] the header bytes and the ciphertext are together exactly
    the bytes of the private regular file the name led to, the header is decoded
    from them, the ciphertext has the length the header announces and the hash
    is that of all the bytes; when no call fails, every such file is read. *)
Theorem read_disk_file_exact `{Host} `{Sodium} (d : Z) (name : list Z) (w : world) :
  let '((st, disk), w') := read_disk_file_at d name w in
  w_fs w' = w_fs w /\ w_hist w' = w_hist w /\
  (st = PV_OK -> exists i n, disk_of (w_fs w) d name i n disk) /\
  (calm w -> forall i n file, disk_of (w_fs w) d name i n file -> st = PV_OK /\ disk = file).
Proof.
  assert (Hwp : wp (fun _ => False) (read_disk_file_at d name) (fun r w' => same w w' /\ (fst r = PV_OK -> exists i n, disk_of (w_fs w) d name i n (snd r)) /\
    (calm w -> forall i n file, disk_of (w_fs w) d name i n file -> fst r = PV_OK /\ snd r = file)) w).
  { apply wp_read_disk_file_at.
    - intros st w' S Hst _ Hno. split_and!; [done | done |]. intros Hc i n file D. by destruct (Hno Hc i n file D).
    - intros i n disk w' S D. split_and!; [done | by exists i, n |]. intros _ i' n' file D'. split; [done |]. by destruct (disk_of_unique _ _ _ _ _ _ _ _ _ D' D) as (_ & _ & ?). }
  destruct (read_disk_file_at d name w) as [[st disk] w'] eqn:E. destruct (wp_run _ _ _ _ _ _ Hwp E) as (_ & _ & S & Hres). destruct S. split_and!; [done | done | apply Hres ..].
Qed.

(** [pv_store_backup] makes an exact copy and touches nothing else: at every
    moment all names and contents there were are still there, and once the copy
    exists ([PV_OK] or [PV_ERR_DURABILITY]) it is a new private file of mode 0600
    with exactly the bytes of the vault file, which had the expected hash, under
    a name that was free, on the disk when the status is [PV_OK]. *)
Theorem backup_exact `{Host} `{Sodium} (vault_path output_path : list Z) (expected_hash : option (list Z)) (w : world) (Hok : world_ok w) :
  let '(st, w') := pv_store_backup vault_path output_path expected_hash w in
  through (extends none (w_fs w)) w w' /\ extends none (w_fs w) (w_fs w') /\
  (st = PV_OK \/ st = PV_ERR_DURABILITY -> exists disk, source_of_path w vault_path disk /\
     (forall hash, expected_hash = Some hash -> disk_hash disk = hash) /\
     exported w output_path (disk_header_bytes disk ++ disk_ciphertext disk) 384 (is_ok st) w').
Proof.
  pose proof (wp_store_backup vault_path output_path expected_hash w Hok) as Hwp. destruct (pv_store_backup _ _ _ w) as [st w'] eqn:E.
  destruct (wp_run _ _ _ _ _ _ Hwp E) as (Ht & _ & _ & Hx & Hcopy). by split_and!.
Qed.

Lemma backup_exact_witness :
  let '(st, w') := pv_store_backup example_path (cstr "/home/copy.pv") None example_world in
  through (extends none example_fs) example_world w' /\ extends none example_fs (w_fs w') /\
  (st = PV_OK \/ st = PV_ERR_DURABILITY -> exists disk, source_of_path example_world example_path disk /\
     (forall hash, @None (list Z) = Some hash -> disk_hash disk = hash) /\
     exported example_world (cstr "/home/copy.pv") (disk_header_bytes disk ++ disk_ciphertext disk) 384 (is_ok st) w').
Proof. apply (backup_exact example_path (cstr "/home/copy.pv") None example_world example_world_ok). Defined.


