(* ===== verification/SecureProps.v ===== *)
(** * Properties of the password policy and of secret input

    [src/secure.c]: the policy against a declarative description of the refused
    passwords, and what reading a secret leaves behind. *)

From S2P Require Import Prelude Status Util Sys Posix Config Secure Fs FsFacts.

(** ** Words and their repetitions *)

Lemma znth_ext (a b : list Z) : zlen a = zlen b -> (forall i, 0 <= i < zlen a -> znth a i = znth b i) -> a = b.
Proof.
  intros Hl Hn. apply (nth_ext _ _ 0 0); [unfold zlen in Hl; lia |]. intros n Hlt. specialize (Hn (Z.of_nat n)). unfold znth in Hn.
  rewrite Nat2Z.id in Hn. apply Hn. unfold zlen. lia.
Qed.

Lemma znth_map (f : Z -> Z) l i : 0 <= i < zlen l -> znth (map f l) i = f (znth l i).
Proof. intros Hi. unfold znth. rewrite (nth_indep _ 0 (f 0)), map_nth; [done |]. rewrite length_map. unfold zlen in Hi. lia. Qed.

Lemma znth_app_l a b i : 0 <= i < zlen a -> znth (a ++ b) i = znth a i.
Proof. intros Hi. unfold znth. rewrite app_nth1; [done |]. unfold zlen in Hi. lia. Qed.

Lemma znth_app_r a b i : 0 <= i -> znth (a ++ b) (zlen a + i) = znth b i.
Proof. intros Hi. unfold znth, zlen. rewrite app_nth2 by lia. f_equal. lia. Qed.

Lemma znth_zsub (l : list Z) o n i : 0 <= o -> 0 <= i < n -> znth (zsub l o n) i = znth l (o + i).
Proof.
  intros Ho Hi. unfold znth, zsub. rewrite (nth_firstn (Z.to_nat n)). destruct (Nat.ltb_spec (Z.to_nat i) (Z.to_nat n)); [| lia].
  rewrite nth_skipn. f_equal. lia.
Qed.

Lemma zlen_seqZ o n : 0 <= n -> zlen (seqZ o n) = n.
Proof. intros Hn. unfold zlen. rewrite length_seqZ. lia. Qed.

Lemma znth_seqZ o n i : 0 <= i < n -> znth (seqZ o n) i = o + i.
Proof. intros Hi. unfold znth. rewrite nth_lookup, (proj2 (lookup_seqZ o n (Z.to_nat i) (o + i))) by lia. done. Qed.

Lemma forallb_seqZ f o n : forallb f (seqZ o n) = true <-> forall i, o <= i < o + n -> f i = true.
Proof. rewrite forallb_forall. split; intros Hf i Hi; apply Hf; [apply list_elem_of_In, elem_of_seqZ; lia | apply list_elem_of_In, elem_of_seqZ in Hi; lia]. Qed.

Lemma existsb_seqZ f o n : existsb f (seqZ o n) = true <-> exists i, o <= i < o + n /\ f i = true.
Proof.
  rewrite existsb_exists. split; intros (i & Hi & Hf); exists i; (split; [| done]); [by apply list_elem_of_In, elem_of_seqZ in Hi | by apply list_elem_of_In, elem_of_seqZ].
Qed.

(** A word, [n] times over. *)
Definition repeated (u : list Z) (n : nat) : list Z := concat (replicate n u).

Lemma zlen_repeated u n : zlen (repeated u n) = Z.of_nat n * zlen u.
Proof. induction n as [| n IH]; [done |]. unfold repeated in *. cbn [replicate concat]. rewrite zlen_app, IH. lia. Qed.

Lemma znth_repeated u n i : 0 <= i < Z.of_nat n * zlen u -> znth (repeated u n) i = znth u (i mod zlen u).
Proof.
  revert i. induction n as [| n IH]; intros i Hi; [lia |]. unfold repeated in *. cbn [replicate concat].
  destruct (Z_lt_le_dec i (zlen u)) as [Hlt | Hge].
  - rewrite znth_app_l by lia. by rewrite Z.mod_small by lia.
  - replace i with (zlen u + (i - zlen u)) at 1 by lia. rewrite znth_app_r by lia. rewrite IH by lia.
    f_equal. replace i with (i - zlen u + 1 * zlen u) at 2 by lia. rewrite Z.mod_add by lia. done.
Qed.

(** ** The refused passwords *)

Definition lower (l : list Z) : list Z := map ascii_lower l.

(** Consecutive bytes, upwards or downwards. *)
Definition consecutive (p : list Z) : Prop :=
  exists first step, (step = 1 \/ step = -1) /\ p = map (fun i => first + step * i) (seqZ 0 (zlen p)).

(** A piece of a word repeated, in any case of letters. *)
Definition piece_of (p cycle : list Z) : Prop :=
  exists n before after, repeated (lower cycle) n = before ++ lower p ++ after.

(** A word at least twice, perhaps cut short at its end. *)
Definition repetitive (p : list Z) : Prop :=
  exists u n after, 0 < zlen u /\ 2 * zlen u <= zlen p /\ repeated u n = p ++ after.

Lemma casefold_spec p c : password_equals_ascii_casefold p c = true <-> lower p = lower c.
Proof.
  unfold password_equals_ascii_casefold. destruct (Z.eqb_spec (zlen p) (zlen c)) as [Hl | Hl]; cbn [negb].
  2: { split; [done |]. intros E. destruct Hl. apply (f_equal zlen) in E. unfold lower in E. by rewrite !zlen_map in E. }
  assert (Hfold : forall l acc, fold_left (fun difference index => Z.lor difference (Z.lxor (ascii_lower (znth p index)) (ascii_lower (znth c index)))) l acc = 0 <->
    acc = 0 /\ forall i, i ∈ l -> ascii_lower (znth p i) = ascii_lower (znth c i)).
  { induction l as [| j l IH]; intros acc; cbn [fold_left]; [split; [intros E; split; [done |]; by intros i Hi%not_elem_of_nil | by intros []] |].
    rewrite IH, Z.lor_eq_0_iff, Z.lxor_eq_0_iff. split.
    - intros [[-> E] Hn]. split; [done |]. intros i [-> | Hi]%elem_of_cons; auto.
    - intros [-> Hn]. split; [split; [done |] |]; intros; apply Hn; apply elem_of_cons; auto. }
  rewrite Z.eqb_eq, Hfold. split.
  - intros [_ Hn]. apply znth_ext; unfold lower; rewrite !zlen_map; [done |]. intros i Hi. rewrite !znth_map by lia. apply Hn, elem_of_seqZ. lia.
  - intros E. split; [done |]. intros i Hi%elem_of_seqZ. rewrite <- !znth_map by lia. unfold lower in E. by rewrite E.
Qed.

Lemma cycle_spec p c : 0 < zlen c -> password_follows_cycle p c = true <-> piece_of p c.
Proof.
  intros Hc. assert (Hl : zlen (lower c) = zlen c) by apply zlen_map. assert (Hlp : zlen (lower p) = zlen p) by apply zlen_map.
  unfold password_follows_cycle, piece_of. rewrite existsb_seqZ. split.
  - intros (o & Ho & Hp). rewrite forallb_seqZ in Hp. set (n := Z.to_nat (o + zlen p)). pose proof (zlen_nonneg p).
    assert (Hn : o + zlen p <= Z.of_nat n * zlen c) by nia. set (r := repeated (lower c) n). exists n, (zsub r 0 o), (zsub r (o + zlen p) (zlen r - (o + zlen p))).
    assert (Hr : zlen r = Z.of_nat n * zlen c) by (unfold r; by rewrite zlen_repeated, Hl).
    assert (lower p = zsub r o (zlen p)) as ->.
    { apply znth_ext; [rewrite zlen_zsub; lia |]. intros i Hi. rewrite Hlp in Hi. rewrite znth_zsub by lia. unfold r. rewrite znth_repeated by lia.
      unfold lower. rewrite zlen_map, !znth_map by (try apply Z.mod_pos_bound; lia). apply Z.eqb_eq, Hp. lia. }
    rewrite (zsub_join r o) by lia. rewrite (zsub_join r 0 o) by lia. etrans; [symmetry; apply (zsub_all r) |]. f_equal. lia.
  - intros (n & u & v & E). exists (zlen u mod zlen c). split; [apply Z.mod_pos_bound; lia |]. apply forallb_seqZ. intros i Hi. apply Z.eqb_eq.
    assert (Hlen := f_equal zlen E). rewrite zlen_repeated, !zlen_app, Hl, Hlp in Hlen. pose proof (zlen_nonneg u). pose proof (zlen_nonneg v).
    assert (Hz := f_equal (fun l => znth l (zlen u + i)) E). cbn beta in Hz. rewrite znth_app_r, znth_app_l, znth_repeated in Hz by (rewrite ?Hl, ?Hlp; lia).
    unfold lower in Hz. rewrite zlen_map, !znth_map in Hz by (try apply Z.mod_pos_bound; lia). rewrite Z.add_mod_idemp_l by lia. by symmetry.
Qed.

Lemma consecutive_spec p : 2 <= zlen p ->
  let step := znth p 1 - znth p 0 in
  ((step =? 1) || (step =? -1)) && forallb (fun index => znth p index - znth p (index - 1) =? step) (seqZ 2 (zlen p - 2)) = true <-> consecutive p.
Proof.
  intros Hl step. rewrite andb_true_iff, orb_true_iff, !Z.eqb_eq, forallb_seqZ. split.
  - intros [Hstep Hall]. exists (znth p 0), step. split; [done |]. apply znth_ext; [rewrite zlen_map, zlen_seqZ; lia |].
    assert (Hi : forall n : nat, Z.of_nat n < zlen p -> znth p (Z.of_nat n) = znth p 0 + step * Z.of_nat n).
    { induction n as [| n IH]; intros Hn; [change (Z.of_nat 0) with 0; lia |]. destruct (decide (n = 0%nat)) as [-> | Hn0]; [change (Z.of_nat 1) with 1; unfold step; lia |].
      specialize (Hall (Z.of_nat (S n)) ltac:(lia)). apply Z.eqb_eq in Hall. replace (Z.of_nat (S n) - 1) with (Z.of_nat n) in Hall by lia.
      rewrite IH in Hall by lia. lia. }
    intros i Hrange. rewrite znth_map by (rewrite zlen_seqZ; lia). rewrite znth_seqZ by lia.
    specialize (Hi (Z.to_nat i) ltac:(lia)). rewrite Z2Nat.id in Hi by lia. rewrite Hi. f_equal.
  - intros (first & s & Hs & E). assert (Hi : forall i, 0 <= i < zlen p -> znth p i = first + s * i).
    { intros i Hi. rewrite E at 1. rewrite znth_map by (rewrite zlen_seqZ; lia). rewrite znth_seqZ by lia. done. }
    unfold step. rewrite !Hi by lia. split; [lia |]. intros i Hrange. rewrite !Hi by lia. apply Z.eqb_eq. lia.
Qed.

Lemma periodic_spec p : password_is_periodic p = true <-> repetitive p.
Proof.
  unfold password_is_periodic. rewrite existsb_seqZ. pose proof (zlen_nonneg p). split.
  - intros (k & Hk & Hall). rewrite forallb_seqZ in Hall. assert (Hk2 : 2 * k <= zlen p) by (assert (k <= zlen p / 2) by lia; pose proof (Z.mul_div_le (zlen p) 2); lia).
    set (u := zsub p 0 k). assert (Hu : zlen u = k) by (apply zlen_zsub; lia). set (n := Z.to_nat (zlen p)).
    exists u, n, (zsub (repeated u n) (zlen p) (zlen (repeated u n) - zlen p)). split_and!; [lia | lia |].
    assert (Hr : zlen (repeated u n) = Z.of_nat n * k) by by rewrite zlen_repeated, Hu.
    assert (Hp : zsub (repeated u n) 0 (zlen p) = p).
    { apply znth_ext; rewrite zlen_zsub by nia; [done |]. intros i Hi. rewrite znth_zsub by lia. rewrite znth_repeated by nia. rewrite Hu, Z.add_0_l. unfold u.
      rewrite znth_zsub by (try apply Z.mod_pos_bound; lia). destruct (Z_lt_le_dec i k); [by rewrite Z.mod_small by lia |]. symmetry. apply Z.eqb_eq, Hall. lia. }
    rewrite <- Hp at 1. rewrite (zsub_join (repeated u n) 0 (zlen p)) by nia. etrans; [symmetry; apply (zsub_all (repeated u n)) |]. f_equal. lia.
  - intros (u & n & v & Hu & H2 & E). exists (zlen u). split; [pose proof (Z.div_le_lower_bound (zlen p) 2 (zlen u)); lia |].
    assert (Hlen := f_equal zlen E). rewrite zlen_repeated, zlen_app in Hlen. pose proof (zlen_nonneg v).
    assert (Hi : forall i, 0 <= i < zlen p -> znth p i = znth u (i mod zlen u)).
    { intros i Hi. rewrite <- (znth_app_l p v) by lia. rewrite <- E. apply znth_repeated. lia. }
    apply forallb_seqZ. intros i Hrange. assert (0 <= i mod zlen u < zlen u) by (apply Z.mod_pos_bound; lia).
    rewrite !Hi by lia. rewrite Z.mod_mod by lia. apply Z.eqb_refl.
Qed.

Lemma existsb_in {A} (f : A -> bool) l : existsb f l = false <-> forall x, x ∈ l -> f x = false.
Proof.
  rewrite <- not_true_iff_false, existsb_exists. split.
  - intros Hn x Hx. apply not_true_iff_false. intros E. apply Hn. exists x. split; [by apply list_elem_of_In | done].
  - intros Hn (x & Hx & E). apply list_elem_of_In in Hx. rewrite Hn in E; done.
Qed.

Lemma cycles_nonempty c : c ∈ cycles -> 0 < zlen c.
Proof. intros Hc. assert (Forall (fun c => 0 < zlen c) cycles) as Hall by (repeat (constructor; [reflexivity |]); constructor). by apply (proj1 (Forall_forall _ _) Hall), list_elem_of_In. Qed.

Lemma not_true_iff (b : bool) (P : Prop) : (b = true <-> P) -> b = false <-> ~ P.
Proof. intros E. by rewrite <- E, not_true_iff_false. Qed.

(** C32: the password policy accepts exactly the passwords of at least sixteen
    bytes that are not consecutive bytes upwards or downwards, not a piece of a
    repeated digit, alphabet or keyboard row in any case of letters, not a word
    repeated at least twice (perhaps cut short), and not one of the common
    passwords in any case of letters. *)
Theorem password_policy_exact (p : list Z) :
  pv_master_password_is_acceptable (Some p) = true <->
  PV_MASTER_PASSWORD_MIN_BYTES <= zlen p /\ ~ consecutive p /\ (forall cycle, cycle ∈ cycles -> ~ piece_of p cycle) /\
  ~ repetitive p /\ (forall common, common ∈ common_passwords -> lower p <> lower common).
Proof.
  unfold pv_master_password_is_acceptable. destruct (Z.ltb_spec (zlen p) PV_MASTER_PASSWORD_MIN_BYTES) as [Hlen | Hlen]; cbn [orb]; [split; [done | lia] |].
  unfold PV_MASTER_PASSWORD_MIN_BYTES in *. unfold password_is_full_sequence. rewrite (proj2 (Z.leb_le 2 (zlen p))) by lia. cbn [andb].
  pose proof (not_true_iff _ _ (consecutive_spec p ltac:(lia))) as Hc. cbv zeta in Hc. pose proof (not_true_iff _ _ (periodic_spec p)) as Hp.
  assert (Hcycles : existsb (password_follows_cycle p) cycles = false <-> forall cycle, cycle ∈ cycles -> ~ piece_of p cycle).
  { rewrite existsb_in. split; intros Hn c Hin; specialize (Hn c Hin); by apply (not_true_iff _ _ (cycle_spec p c (cycles_nonempty c Hin))). }
  assert (Hcommon : existsb (password_equals_ascii_casefold p) common_passwords = false <-> forall common, common ∈ common_passwords -> lower p <> lower common).
  { rewrite existsb_in. split; intros Hn c Hin; specialize (Hn c Hin); by apply (not_true_iff _ _ (casefold_spec p c)). }
  rewrite <- Hc, <- Hcycles, <- Hp, <- Hcommon. clear - Hlen. set (a := andb _ _). destruct a, (existsb _ cycles), (password_is_periodic p), (existsb _ common_passwords); cbn; intuition done.
Qed.

(** ** The handlers and the terminal *)

Lemma restore_loop_ext previous h h' : (forall n, h n = h' n) -> forall n, restore_loop previous h n = restore_loop previous h' n.
Proof.
  unfold restore_loop. revert h h'. induction previous as [| [m d] previous IH]; intros h h' E n; [apply E |]. cbn [fold_left fst snd].
  apply IH. intros k. unfold set_handler. by rewrite E.
Qed.

Lemma install_restores accepted signals previous h orig :
  (forall n, restore_loop previous h n = orig n) ->
  let '(ok, previous', h') := install_loop accepted signals previous h in
  forall n, (if ok : bool then restore_loop previous' h' n else h' n) = orig n.
Proof.
  revert previous h. induction signals as [| m signals IH]; intros previous h Horig; cbn [install_loop]; [done |].
  destruct (accepted m); [| done]. apply IH. intros n. rewrite <- Horig. unfold restore_loop. cbn [fold_left fst snd].
  apply restore_loop_ext. intros k. unfold set_handler. by destruct (Z.eqb_spec k m) as [-> |].
Qed.

Lemma install_accepted accepted signals previous h : (forall n, accepted n = true) -> fst (fst (install_loop accepted signals previous h)) = true.
Proof. intros Ha. revert previous h. induction signals as [| m signals IH]; intros previous h; cbn [install_loop]; [done |]. rewrite Ha. apply IH. Qed.

(** The terminal with other local modes. *)
Definition with_lflag (t : terminal) (lflag : Z) : terminal := mk_terminal lflag (t_handlers t) (t_interrupted t) (t_raised t) (t_open t).

Lemma tcsetattr_spec answers lflag t :
  let '(set, answers', t') := tcsetattr_nointr answers lflag t in
  t' = (if set : bool then with_lflag t lflag else t) /\ (A_error ∉ answers -> set = true /\ A_error ∉ answers').
Proof.
  induction answers as [| [] answers IH]; cbn [tcsetattr_nointr]; [by split | | |].
  - split; [done |]. rewrite not_elem_of_cons. by intros [_ ?].
  - destruct (tcsetattr_nointr answers lflag t) as [[set answers'] t']. destruct IH as [-> IH]. split; [done |]. rewrite not_elem_of_cons. by intros [_ ?%IH].
  - split; [done |]. rewrite not_elem_of_cons. by intros [[] _].
Qed.

(** ** The loop over the characters *)

(** The bytes the reads of a script deliver. *)
Definition typed (reads : list (Z * read_answer)) : list Z :=
  omap (fun r => match snd r with R_byte b => Some b | _ => None end) reads.

Definition ends_line (b : Z) : bool := (b =? 10) || (b =? 13).

Lemma read_byte_typed interrupted reads b interrupted' reads' :
  read_byte interrupted reads = Some (R_byte b, interrupted', reads') -> typed reads = b :: typed reads'.
Proof.
  revert interrupted. induction reads as [| [n a] reads IH]; intros interrupted; cbn [read_byte]; [done |].
  destruct a; intros E; simplify_eq; try done. split_if_in E; [| done]. by apply IH in E.
Qed.

Lemma secret_loop_typed retry interrupted polls reads data overflow data' overflow' line :
  secret_loop retry interrupted polls reads data overflow = Some (true, data', overflow', line) -> zlen data <= PV_SECRET_INPUT_MAX ->
  exists mid e, typed reads = mid ++ e :: typed (l_read line) /\ ends_line e = true /\ Forall (fun b => ends_line b = false) mid /\
    (overflow' = false -> overflow = false /\ data' = data ++ mid /\ zlen data' <= PV_SECRET_INPUT_MAX).
Proof.
  revert retry interrupted reads data overflow. induction polls as [| [n a] polls IH]; intros retry interrupted reads data overflow; cbn [secret_loop]; (split_if; [done |]); [done |].
  intros E Hlen. destruct a; [| by eapply IH | split_if_in E; [by eapply IH | done] | done].
  destruct (read_byte _ reads) as [[[[b | | |] i'] reads'] |] eqn:Er; try done. apply read_byte_typed in Er. rewrite Er. fold (ends_line b) in E.
  destruct (ends_line b) eqn:Eb.
  { simplify_eq. exists [], b. split_and!; [done | done | constructor |]. intros ->. by rewrite app_nil_r. }
  destruct (Z.ltb_spec (zlen data) PV_SECRET_INPUT_MAX) as [Hlt | Hge].
  - apply IH in E as (mid & e & -> & He & Hmid & Hdata); [| rewrite zlen_app; change (zlen [b]) with 1; lia]. exists (b :: mid), e.
    split_and!; [done | done | by constructor |]. intros Ho. destruct (Hdata Ho) as (? & ? & ?). split_and!; [done | by rewrite <- app_assoc in * | done].
  - apply IH in E as (mid & e & -> & He & Hmid & Hdata); [| done]. exists (b :: mid), e. split_and!; [done | done | by constructor |].
    intros Ho. by destruct (Hdata Ho) as [? _].
Qed.

(** Nothing but waiting and bytes. *)
Definition quiet_polls (polls : list (Z * poll_answer)) : Prop := Forall (fun p => fst p = 0 /\ snd p <> P_error) polls.
Definition quiet_reads (reads : list (Z * read_answer)) : Prop := Forall (fun r => fst r = 0 /\ snd r <> R_end /\ snd r <> R_error) reads.
#[global] Instance poll_answer_eq : EqDecision poll_answer.
Proof. solve_decision. Defined.

Definition ready (polls : list (Z * poll_answer)) : Z := zlen (filter (fun p => snd p = P_ready) polls).

Lemma read_byte_quiet reads b rest : quiet_reads reads -> typed reads = b :: rest ->
  exists reads', read_byte 0 reads = Some (R_byte b, 0, reads') /\ quiet_reads reads' /\ typed reads' = rest.
Proof.
  induction reads as [| [n a] reads IH]; [done |]. intros [(Hn & He & Hx) Hq]%Forall_cons_1 Ht. cbn [fst snd] in *. subst n. cbn [read_byte].
  change (deliver 0 0) with 0. destruct a; try done; cbn in Ht.
  - simplify_eq. by exists reads.
  - cbn. by apply IH.
Qed.

Lemma ready_cons n a polls : ready ((n, a) :: polls) = (if decide (a = P_ready) then 1 else 0) + ready polls.
Proof. unfold ready. rewrite filter_cons. cbn [snd]. destruct (decide (a = P_ready)); [by rewrite zlen_cons | done]. Qed.

Lemma secret_loop_quiet retry polls reads data mid e rest :
  quiet_polls polls -> quiet_reads reads -> typed reads = mid ++ e :: rest -> ends_line e = true -> Forall (fun b => ends_line b = false) mid ->
  zlen data + zlen mid <= PV_SECRET_INPUT_MAX -> zlen mid + 1 <= ready polls ->
  exists polls' reads', secret_loop retry 0 polls reads data false = Some (true, data ++ mid, false, mk_line 0 polls' reads') /\
    quiet_polls polls' /\ quiet_reads reads' /\ typed reads' = rest /\ ready polls' = ready polls - (zlen mid + 1).
Proof.
  intros Hp Hr Ht He Hmid Hlen Hready. revert retry reads data mid Hr Ht Hmid Hlen Hready.
  induction polls as [| [n a] polls IH]; intros retry reads data mid Hr Ht Hmid Hlen Hready; [pose proof (zlen_nonneg mid); change (ready []) with 0 in Hready; lia |].
  apply Forall_cons_1 in Hp as [[Hn Ha] Hp]. cbn [fst snd] in *. subst n. rewrite ready_cons in *. cbn [secret_loop].
  replace (negb retry && negb (0 =? 0)) with false by by destruct retry. change (deliver 0 0) with 0. destruct a; [| | | done].
  - destruct mid as [| b mid].
    + destruct (read_byte_quiet _ _ _ Hr Ht) as (reads' & -> & Hr' & Ht'). fold (ends_line e). rewrite He. exists polls, reads'.
      rewrite app_nil_r. split_and!; try done. change (zlen []) with 0. rewrite decide_True by done. lia.
    + apply Forall_cons_1 in Hmid as [Hb Hmid]. destruct (read_byte_quiet _ _ _ Hr Ht) as (reads' & -> & Hr' & Ht'). fold (ends_line b). rewrite Hb.
      rewrite zlen_cons in *. pose proof (zlen_nonneg mid). rewrite (proj2 (Z.ltb_lt (zlen data) PV_SECRET_INPUT_MAX)) by lia. rewrite decide_True in * by done.
      destruct (IH Hp false reads' (data ++ [b]) mid) as (polls' & reads'' & -> & R1 & R2 & R3 & R4); try done; [rewrite zlen_app; change (zlen [b]) with 1; lia | lia |].
      exists polls', reads''. rewrite <- app_assoc. split_and!; try done. lia.
  - by apply IH.
  - by apply IH.
Qed.

(** ** One secret *)

(** What the buffer holds: the line, a NUL and zeros up to its full size. *)
Definition holding (line : list Z) : pv_buffer := mk_buffer (Some (line ++ zeros (PV_SECRET_INPUT_MAX + 1 - zlen line))) (zlen line) true.

Definition acceptable_line (line : list Z) : Prop :=
  Forall (fun b => ends_line b = false) line /\ 0 < zlen line <= PV_SECRET_INPUT_MAX.

Lemma stored_eq line : zlen line <= PV_SECRET_INPUT_MAX ->
  stored line (zeros (PV_SECRET_INPUT_MAX + 1)) = line ++ zeros (PV_SECRET_INPUT_MAX + 1 - zlen line).
Proof.
  intros Hl. unfold stored, zwrite, PV_SECRET_INPUT_MAX in *. cbn [Z.to_nat]. pose proof (zlen_nonneg line). rewrite take_0. cbn [app]. rewrite <- app_assoc. f_equal.
  unfold zeros. rewrite drop_replicate, length_app. cbn [length app].
  replace (Z.to_nat (1024 + 1 - zlen line)) with (S (Z.to_nat (1024 + 1) - (0 + (length line + 1))))%nat by (unfold zlen in *; lia). done.
Qed.

Definition fresh_secret : pv_buffer := mk_buffer (Some (zeros (PV_SECRET_INPUT_MAX + 1))) 0 true.

Lemma allocate_cases s : exists s', allocate_secret buffer_zero s = ((PV_OK, fresh_secret), s') \/
  exists status secret, status <> PV_OK /\ allocate_secret buffer_zero s = ((status, secret), s').
Proof.
  unfold allocate_secret, pv_secure_buffer_alloc, sodium_malloc, sodium_mlock, mbind, mret, M_bind, M_ret.
  change ((PV_SECRET_INPUT_MAX + 1 =? 0) || (PV_MAX_PLAINTEXT <? PV_SECRET_INPUT_MAX + 1)) with false. cbn.
  destruct (s_malloc s 0%nat); cbn; [destruct (s_mlock s 0%nat); cbn |]; eexists; [by left | right; do 2 eexists; split; [| reflexivity]; done ..].
Qed.

Lemma allocate_calm s : sys_calm s -> exists s', allocate_secret buffer_zero s = ((PV_OK, fresh_secret), s') /\ sys_calm s'.
Proof.
  intros [Hs Hc]. unfold allocate_secret, pv_secure_buffer_alloc, sodium_malloc, sodium_mlock, mbind, mret, M_bind, M_ret.
  change ((PV_SECRET_INPUT_MAX + 1 =? 0) || (PV_MAX_PLAINTEXT <? PV_SECRET_INPUT_MAX + 1)) with false. cbn.
  destruct (Hs 0%nat) as (-> & E & _). cbn. rewrite E. cbn. eexists. split; [done |]. split; [intros i; cbn; split_and!; apply Hs | done].
Qed.

(** After the allocation. *)
Lemma read_one_run printed line s status secret s' :
  allocate_secret buffer_zero s = ((status, secret), s') ->
  read_one_secret printed line buffer_zero s =
    (if negb (is_ok status) then Some (status, secret, line) else
     if negb printed then Some (PV_ERR_IO, buffer_zero, line) else
     match secret_loop false (l_interrupted line) (l_poll line) (l_read line) [] false with
     | None => None
     | Some (false, _, _, line) => Some (PV_ERR_IO, buffer_zero, line)
     | Some (true, data, overflow, line) =>
         if overflow then Some (PV_ERR_LIMIT, buffer_zero, line) else
         let secret := mk_buffer (stored data <$> b_data secret) (zlen data) (b_secure secret) in
         if b_len secret =? 0 then Some (PV_ERR_USAGE, buffer_zero, line) else Some (PV_OK, secret, line)
     end, s').
Proof.
  intros E. unfold read_one_secret. rewrite bind_run, E. split_if; [done |]. split_if; [done |]. done.
Qed.

Lemma read_one_ok printed line s secret line' s' :
  read_one_secret printed line buffer_zero s = (Some (PV_OK, secret, line'), s') ->
  exists text e, secret = holding text /\ acceptable_line text /\ typed (l_read line) = text ++ e :: typed (l_read line') /\ ends_line e = true.
Proof.
  destruct (allocate_cases s) as [s1 [Ea | (status & b & Hst & Ea)]]; rewrite (read_one_run _ _ _ _ _ _ Ea).
  2: { destruct status; cbn [is_ok negb]; intros Eq; by simplify_eq. }
  cbn [is_ok negb]. split_if; [done |]. destruct (secret_loop _ _ _ _ _ _) as [[[[fin data] overflow] line1] |] eqn:El; [| done]. destruct fin; [| done].
  apply secret_loop_typed in El as (mid & e & Ht & He & Hmid & Hdata); [| done]. destruct overflow; [done |]. destruct (Hdata eq_refl) as (_ & -> & Hl).
  cbn [app b_len b_data fresh_secret] in *. destruct (Z.eqb_spec (zlen mid) 0) as [Hz | Hz]; [done |]. intros E. simplify_eq. exists mid, e. split_and!; try done.
  - unfold holding. cbn. by rewrite stored_eq.
  - split; [done |]. pose proof (zlen_nonneg mid). lia.
Qed.

Lemma read_one_quiet polls reads text e rest s :
  sys_calm s -> quiet_polls polls -> quiet_reads reads -> typed reads = text ++ e :: rest -> ends_line e = true -> acceptable_line text -> zlen text + 1 <= ready polls ->
  exists polls' reads' s', read_one_secret true (mk_line 0 polls reads) buffer_zero s = (Some (PV_OK, holding text, mk_line 0 polls' reads'), s') /\
    sys_calm s' /\ quiet_polls polls' /\ quiet_reads reads' /\ typed reads' = rest /\ ready polls' = ready polls - (zlen text + 1).
Proof.
  intros Hs Hp Hr Ht He [Hend Hlen] Hready. destruct (allocate_calm s Hs) as (s1 & Ea & Hs1). rewrite (read_one_run _ _ _ _ _ _ Ea). cbn [is_ok negb l_interrupted l_poll l_read].
  destruct (secret_loop_quiet false polls reads [] text e rest) as (polls' & reads' & -> & Hrest); try done; [change (zlen []) with 0; lia |].
  exists polls', reads', s1. split_and!; try apply Hrest; try done. cbn [app b_len b_data fresh_secret]. rewrite (proj2 (Z.eqb_neq (zlen text) 0)) by lia.
  unfold holding. cbn. by rewrite stored_eq by lia.
Qed.

(** ** The whole dialogue *)

(** C31: reading a secret leaves the process as it found it, whatever the user and
    the kernel do: the dispositions of all signals are those from before, the
    terminal is closed, its modes are restored unless a [tcsetattr] failed (and
    then the status is an error), no byte of a secret is kept unless the status
    is [PV_OK], and at most one signal is raised again, with [PV_ERR_IO]. *)
Theorem secret_leaves_nothing (script : script) (t : terminal) (confirm : bool) (s : sys) :
  match fst (pv_secure_read_secret script t confirm s) with
  | None => True
  | Some (status, secret, t') =>
      (forall n, t_handlers t' n = t_handlers t n) /\ t_open t' = t_open t /\
      (status = PV_OK \/ A_error ∉ i_setattr script -> t_lflag t' = t_lflag t) /\
      (status <> PV_OK -> secret = buffer_zero) /\
      (t_raised t' = t_raised t \/ status = PV_ERR_IO /\ exists n, n <> 0 /\ t_raised t' = n :: t_raised t)
  end.
Proof.
  unfold pv_secure_read_secret. destruct (i_open script); cbn [negb]; [| cbn; split_and!; auto].
  destruct (i_getattr script); cbn [negb]; [| cbn; split_and!; auto; lia]. unfold secret_signal_guard_install. cbn [t_handlers t_lflag t_raised t_open].
  pose proof (install_restores (i_sigaction script) pv_secret_signals [] (t_handlers t) (t_handlers t) ltac:(done)) as Hinstall.
  destruct (install_loop _ _ _ _) as [[installed previous] h]. destruct installed; cbn [negb]; [| cbn; split_and!; auto; lia].
  pose proof (tcsetattr_spec (i_setattr script) (Z.land (t_lflag t) (Z.lnot ECHO)) (mk_terminal (t_lflag t) h 0 (t_raised t) (t_open t + 1))) as Hset.
  destruct (tcsetattr_nointr _ _ _) as [[set answers] hidden]. destruct Hset as [-> Hset]. destruct set; cbn [negb]; [| cbn; split_and!; auto; lia].
  rewrite bind_run. destruct (read_secrets _ _ _ s) as [[[[status secret] line] |] s1]; [| done]. cbn [mret M_ret fst].
  pose proof (tcsetattr_spec answers (t_lflag t) (with_lflag (mk_terminal (t_lflag t) h 0 (t_raised t) (t_open t + 1)) (Z.land (t_lflag t) (Z.lnot ECHO)))) as Hback.
  destruct (tcsetattr_nointr answers _ _) as [[set' answers'] shown]. destruct Hback as [-> Hback].
  assert (Hno : set' = false -> A_error ∉ i_setattr script -> False) by (intros -> Ha; by destruct (Hback (proj2 (Hset Ha)))).
  split_if; destruct set'; cbn; split_and!; auto; try lia; try (by destruct status); try (intros [E | Ha]; [by destruct status | by destruct (Hno eq_refl Ha)]).
  all: right; split; [done |]; eexists; split; [| done]; lia.
Qed.

Lemma same_holding a b : same_secret (holding a) (holding b) = true <-> a = b.
Proof.
  unfold same_secret, holding. cbn [b_len b_data default]. rewrite andb_true_iff, Z.eqb_eq. split.
  - intros [Hl E]. apply bytes_eqb_eq in E. unfold id in E. pose proof (zlen_nonneg a). rewrite !zsub_app_l, zsub_all in E by lia. by rewrite <- Hl, zsub_all in E.
  - intros ->. split; [done |]. apply bytes_eqb_refl.
Qed.

(** What is returned is what was typed: with [PV_OK] the buffer holds exactly
    the bytes the terminal delivered up to the first line feed or carriage
    return, between 1 and 1024 of them, followed by zeros; with confirmation the
    next line was the same. *)
Theorem secret_is_typed_line (script : script) (t t' : terminal) (confirm : bool) (secret : pv_buffer) (s s' : sys)
    (Hread : pv_secure_read_secret script t confirm s = (Some (PV_OK, secret, t'), s')) :
  exists line e rest, secret = holding line /\ acceptable_line line /\ typed (i_read script) = line ++ e :: rest /\ ends_line e = true /\
    (confirm = true -> exists e' rest', rest = line ++ e' :: rest' /\ ends_line e' = true).
Proof.
  revert Hread. unfold pv_secure_read_secret. split_if; [done |]. split_if; [done |].
  destruct (secret_signal_guard_install _ _) as [[installed previous] guarded]. split_if; [done |].
  destruct (tcsetattr_nointr _ _ _) as [[set answers] hidden]. split_if; [done |]. rewrite bind_run.
  destruct (read_secrets _ _ _ s) as [[[[status secret0] line0] |] s1] eqn:Er; cbn [mret M_ret]; [| done].
  destruct (tcsetattr_nointr answers _ _) as [[set' answers'] shown]. intros Hres.
  assert (status = PV_OK /\ secret0 = secret) as [-> ->].
  { destruct (_ =? 0); [| done]. destruct (negb set' && is_ok status) eqn:E; [done |]. injection Hres as -> <- _ _. done. }
  clear Hres. revert Er. unfold read_secrets. rewrite bind_run. destruct (read_one_secret _ _ _ s) as [[[[st1 secret1] line1] |] s2] eqn:E1; [| done].
  destruct (is_ok st1 && confirm) eqn:Ec.
  - apply andb_true_iff in Ec as [Est ->]. destruct st1; try done. rewrite bind_run.
    destruct (read_one_secret _ line1 _ s2) as [[[[st2 second] line2] |] s3] eqn:E2; [| done]. intros Er. unfold mret, M_ret in Er.
    destruct (is_ok st2 && negb (same_secret secret1 second)) eqn:Esame; [done |]. simplify_eq. cbn [is_ok andb] in Esame. apply negb_false_iff in Esame.
    apply read_one_ok in E1 as (a & e & -> & Ha & Ht & He). apply read_one_ok in E2 as (b & e' & -> & _ & Ht' & He'). apply same_holding in Esame as ->.
    exists b, e, (typed (l_read line1)). split_and!; try done. intros _. by exists e', (typed (l_read line0)).
  - intros E. unfold mret, M_ret in E. simplify_eq. apply read_one_ok in E1 as (a & e & -> & Ha & Ht & He). exists a, e, (typed (l_read line0)). split_and!; try done. intros ->. done.
Qed.

Lemma read_secrets_quiet script polls reads text e rest (confirm : bool) s :
  sys_calm s -> (forall i, prompt_printed script i = true) -> quiet_polls polls -> quiet_reads reads -> acceptable_line text -> ends_line e = true ->
  typed reads = text ++ e :: (if confirm then text ++ e :: rest else rest) -> (if confirm then 2 else 1) * (zlen text + 1) <= ready polls ->
  exists line s', read_secrets script (mk_line 0 polls reads) confirm s = (Some (PV_OK, holding text, line), s') /\ l_interrupted line = 0.
Proof.
  intros Hs Hprint Hp Hr Hline He Ht Hready. pose proof (zlen_nonneg text). unfold read_secrets. rewrite bind_run, !Hprint.
  destruct (read_one_quiet polls reads text e _ s Hs Hp Hr Ht He Hline) as (p1 & r1 & s1 & -> & Hs1 & Hp1 & Hr1 & Ht1 & Hn1); [destruct confirm; lia |].
  destruct confirm; cbn [is_ok andb]; [| by eexists _, _]. rewrite bind_run.
  destruct (read_one_quiet p1 r1 text e rest s1 Hs1 Hp1 Hr1 Ht1 He Hline) as (p2 & r2 & s2 & -> & _); [lia |].
  rewrite (proj2 (same_holding text text) eq_refl). by eexists _, _.
Qed.

(** A secret can always be entered: when the calls succeed, no signal arrives
    and the line (twice, with confirmation) is typed, [pv_secure_read_secret]
    returns [PV_OK] with it, however the waiting and the interruptions of [poll]
    and [read] are interleaved with the bytes. *)
Theorem secret_can_be_entered (script : script) (t : terminal) (confirm : bool) (line rest : list Z) (e : Z) (s : sys)
    (Hs : sys_calm s) (Hopen : i_open script = true) (Hattr : i_getattr script = true) (Hsig : forall n, i_sigaction script n = true)
    (Hset : A_error ∉ i_setattr script) (Hprint : forall i, prompt_printed script i = true)
    (Hsignal : i_signal script = 0) (Hlate : i_late script = 0) (Hpolls : quiet_polls (i_poll script)) (Hreads : quiet_reads (i_read script))
    (Hline : acceptable_line line) (Hend : ends_line e = true)
    (Htyped : typed (i_read script) = line ++ e :: (if confirm then line ++ e :: rest else rest))
    (Hready : (if confirm then 2 else 1) * (zlen line + 1) <= ready (i_poll script)) :
  exists t' s', pv_secure_read_secret script t confirm s = (Some (PV_OK, holding line, t'), s') /\ t_raised t' = t_raised t.
Proof.
  unfold pv_secure_read_secret. rewrite Hopen, Hattr. cbn [negb]. unfold secret_signal_guard_install. cbn [t_handlers t_lflag t_raised t_open].
  pose proof (install_accepted (i_sigaction script) pv_secret_signals [] (t_handlers t) Hsig) as Hok. destruct (install_loop _ _ _ _) as [[installed previous] h]. cbn [fst] in Hok. subst installed. cbn [negb].
  pose proof (tcsetattr_spec (i_setattr script) (Z.land (t_lflag t) (Z.lnot ECHO)) (mk_terminal (t_lflag t) h 0 (t_raised t) (t_open t + 1))) as Ha.
  destruct (tcsetattr_nointr _ _ _) as [[set answers] hidden]. destruct Ha as [-> Ha]. destruct (Ha Hset) as [-> Hans]. cbn [negb].
  rewrite bind_run, Hsignal. change (deliver 0 _) with 0.
  destruct (read_secrets_quiet script (i_poll script) (i_read script) line e rest confirm s Hs Hprint Hpolls Hreads Hline Hend Htyped Hready) as (l & s1 & -> & Hl).
  pose proof (tcsetattr_spec answers (t_lflag t) (with_lflag (mk_terminal (t_lflag t) h 0 (t_raised t) (t_open t + 1)) (Z.land (t_lflag t) (Z.lnot ECHO)))) as Hb.
  destruct (tcsetattr_nointr answers _ _) as [[set' answers'] shown]. destruct Hb as [-> Hb]. destruct (Hb Hans) as [-> _]. cbn [negb andb is_ok].
  rewrite Hl, Hlate. change (deliver 0 0 =? 0) with true. by eexists _, _.
Qed.

(** A user typing [hi] twice, with interruptions. *)
Definition example_terminal : terminal := mk_terminal 35387 (fun _ => Other 0) 0 [] 0.
Definition example_script : script :=
  mk_script true true (fun _ => true) [A_intr; A_done; A_intr] 0 []
    ([(0, P_timeout); (0, P_intr)] ++ replicate 3 (0, P_ready) ++ [(0, P_timeout)] ++ replicate 3 (0, P_ready))
    ([(0, R_intr); (0, R_byte 104); (0, R_byte 105); (0, R_byte 10); (0, R_byte 104); (0, R_intr); (0, R_byte 105); (0, R_byte 10)]) 0.
Definition example_sys_secret : sys := sys_good (fun _ => 7) (fun _ => Some (1, 0)).

Lemma secret_is_typed_line_witness :
  exists line e rest, holding [104; 105] = holding line /\ acceptable_line line /\ typed (i_read example_script) = line ++ e :: rest /\ ends_line e = true /\
    (true = true -> exists e' rest', rest = line ++ e' :: rest' /\ ends_line e' = true).
Proof. eapply (secret_is_typed_line example_script example_terminal _ true _ example_sys_secret). vm_compute. reflexivity. Defined.

Lemma secret_can_be_entered_witness :
  exists t' s', pv_secure_read_secret example_script example_terminal true example_sys_secret = (Some (PV_OK, holding [104; 105], t'), s') /\
    t_raised t' = t_raised example_terminal.
Proof.
  apply (secret_can_be_entered example_script example_terminal true [104; 105] [] 10 example_sys_secret); try reflexivity.
  - split; [done |]. intros i. split; vm_compute; discriminate.
  - intros Hin. repeat (apply elem_of_cons in Hin as [Hin | Hin]; [done |]). by apply not_elem_of_nil in Hin.
  - intros i. unfold prompt_printed. by destruct i.
  - repeat constructor; done.
  - repeat constructor; done.
  - split; [repeat constructor | split; vm_compute; [reflexivity | discriminate]].
Defined.
