(* ===== verification/Ui.v ===== *)
(** * The record picker

    [src/ui.c]: incremental search over the records on a full-screen terminal.
    The process is a state: the dispositions and the mask of the signals, the flag
    of the handler, the signals raised again, the descriptors and streams of the
    terminal that are open, the screens of ncurses that are allocated and whether
    one is in use. ncurses and the kernel answer by a script; what [newterm] makes
    of the dispositions of the signals is an answer too. Drawing produces the text
    put on the screen. A script that ends before the dialogue does leaves the
    program waiting: the result is [None]. *)

From S2P Require Import Prelude Status Util Sys Arena Model Posix.

(** ** Signals *)

(** [SIGINT], [SIGTERM], [SIGHUP], [SIGQUIT], [SIGTSTP] on Linux. *)
Definition pv_ui_signals : list Z := [2; 15; 1; 3; 20].

Inductive ui_disposition := Ui_handler | Ui_ignore | Ui_other (d : Z).

Definition is_ignored (d : ui_disposition) : bool := match d with Ui_ignore => true | _ => false end.

(** An open descriptor, or a stream made of one. *)
Inductive tty_file := Tty_fd (fd : Z) | Tty_stream (fd : Z).
#[global] Instance tty_file_eq_dec : EqDecision tty_file.
Proof. solve_decision. Defined.

Record ui_process := mk_process {
  p_handlers : Z -> ui_disposition;   (** by signal number *)
  p_mask : Z -> bool;                 (** blocked *)
  p_interrupted : Z;                  (** [pv_ui_interrupted] *)
  p_raised : list Z;                  (** the signals raised by the program, latest first *)
  p_files : list tty_file;            (** what is open, latest first *)
  p_terms : Z;                        (** the screens that [newterm] made and [delscreen] did not free *)
  p_screen : bool                     (** the terminal is in the mode of ncurses *)
}.

Definition set_p_handlers (p : ui_process) (h : Z -> ui_disposition) : ui_process :=
  mk_process h (p_mask p) (p_interrupted p) (p_raised p) (p_files p) (p_terms p) (p_screen p).
Definition set_p_mask (p : ui_process) (m : Z -> bool) : ui_process :=
  mk_process (p_handlers p) m (p_interrupted p) (p_raised p) (p_files p) (p_terms p) (p_screen p).
Definition set_p_interrupted (p : ui_process) (n : Z) : ui_process :=
  mk_process (p_handlers p) (p_mask p) n (p_raised p) (p_files p) (p_terms p) (p_screen p).
Definition set_p_raised (p : ui_process) (l : list Z) : ui_process :=
  mk_process (p_handlers p) (p_mask p) (p_interrupted p) l (p_files p) (p_terms p) (p_screen p).
Definition set_p_files (p : ui_process) (l : list tty_file) : ui_process :=
  mk_process (p_handlers p) (p_mask p) (p_interrupted p) (p_raised p) l (p_terms p) (p_screen p).
Definition set_p_terminal (p : ui_process) (terms : Z) (screen : bool) : ui_process :=
  mk_process (p_handlers p) (p_mask p) (p_interrupted p) (p_raised p) (p_files p) terms screen.

(** [open], with the number it returns; [close] and [fclose]; [fdopen], which makes
    a stream of a descriptor. *)
Fixpoint remove_file (f : tty_file) (l : list tty_file) : list tty_file :=
  match l with
  | [] => []
  | g :: l => if decide (g = f) then l else g :: remove_file f l
  end.

Definition ui_open (fd : Z) (p : ui_process) : ui_process := if 0 <=? fd then set_p_files p (Tty_fd fd :: p_files p) else p.
Definition ui_close (f : tty_file) (p : ui_process) : ui_process := set_p_files p (remove_file f (p_files p)).
Definition ui_fdopen (fd : Z) (p : ui_process) : ui_process := set_p_files p (Tty_stream fd :: remove_file (Tty_fd fd) (p_files p)).

(** [ui_signal_handler], run when a signal arrives. *)
Definition ui_signal_handler (interrupted signal_number : Z) : Z :=
  if interrupted =? 0 then signal_number else interrupted.

(** A signal arrives, [0] for none. *)
Definition ui_deliver (signal_number interrupted : Z) : Z :=
  if signal_number =? 0 then interrupted else ui_signal_handler interrupted signal_number.

(** The dispositions captured, in the order of the signals, the mask and the
    flag [mask_saved]; [captured] is the length of the list. *)
Record pv_ui_signal_guard := mk_guard {
  g_previous : list (Z * ui_disposition);
  g_previous_mask : Z -> bool;
  g_mask_saved : bool
}.

Definition ui_guarded (n : Z) : bool := existsb (Z.eqb n) pv_ui_signals.

(** The loop of [ui_signal_guard_prepare]; a query that fails ends it. *)
Fixpoint capture_loop (query_ok : Z -> bool) (signals : list Z) (handlers : Z -> ui_disposition)
  : bool * list (Z * ui_disposition) :=
  match signals with
  | [] => (true, [])
  | n :: signals =>
      if query_ok n
      then let '(ok, captured) := capture_loop query_ok signals handlers in (ok, (n, handlers n) :: captured)
      else (false, [])
  end.

Definition ui_signal_guard_prepare (query_ok : Z -> bool) (block_ok : bool) (p : ui_process)
  : bool * pv_ui_signal_guard * ui_process :=
  let '(ok, captured) := capture_loop query_ok pv_ui_signals (p_handlers p) in
  if negb ok || negb block_ok then (false, mk_guard captured (p_mask p) false, p)
  else (true, mk_guard captured (p_mask p) true,
        set_p_interrupted (set_p_mask p (fun n => p_mask p n || ui_guarded n)) 0).

Definition ui_set_handler (handlers : Z -> ui_disposition) (n : Z) (d : ui_disposition) : Z -> ui_disposition :=
  fun k => if k =? n then d else handlers k.

(** A [sigaction] that fails ends the installation. *)
Fixpoint ui_install_loop (set_ok : Z -> bool) (previous : list (Z * ui_disposition)) (handlers : Z -> ui_disposition)
  : bool * (Z -> ui_disposition) :=
  match previous with
  | [] => (true, handlers)
  | (n, d) :: previous =>
      if set_ok n
      then ui_install_loop set_ok previous (ui_set_handler handlers n (if is_ignored d then d else Ui_handler))
      else (false, handlers)
  end.

(** The mask while the picker runs: the guarded signals that are not ignored
    arrive. *)
Definition active_mask (guard : pv_ui_signal_guard) : Z -> bool := fun n =>
  if existsb (fun c => (n =? fst c) && negb (is_ignored (snd c))) (g_previous guard) then false
  else g_previous_mask guard n.

Definition ui_signal_guard_install (set_ok : Z -> bool) (mask_ok : bool) (guard : pv_ui_signal_guard) (p : ui_process)
  : bool * ui_process :=
  let '(ok, handlers) := ui_install_loop set_ok (g_previous guard) (p_handlers p) in
  let p := set_p_handlers p handlers in
  if negb ok then (false, p) else
  if mask_ok then (true, set_p_mask p (active_mask guard)) else (false, p).

Definition ui_signal_guard_block (block_ok : bool) (guard : pv_ui_signal_guard) (p : ui_process) : ui_process :=
  if g_mask_saved guard && block_ok then set_p_mask p (fun n => p_mask p n || ui_guarded n) else p.

(** The dispositions are restored from the last one to the first; a failure does
    not end the loop. *)
Fixpoint ui_restore_loop (set_ok : Z -> bool) (captured : list (Z * ui_disposition)) (handlers : Z -> ui_disposition)
  : bool * (Z -> ui_disposition) :=
  match captured with
  | [] => (true, handlers)
  | (n, d) :: captured =>
      if set_ok n then ui_restore_loop set_ok captured (ui_set_handler handlers n d)
      else let '(_, handlers) := ui_restore_loop set_ok captured handlers in (false, handlers)
  end.

Definition ui_signal_guard_restore (set_ok : Z -> bool) (mask_ok : bool) (guard : pv_ui_signal_guard) (p : ui_process)
  : bool * ui_process :=
  let '(restored, handlers) := ui_restore_loop set_ok (rev (g_previous guard)) (p_handlers p) in
  let p := set_p_handlers p handlers in
  if g_mask_saved guard then
    if mask_ok then (restored, set_p_mask p (g_previous_mask guard)) else (false, p)
  else (restored, p).

(** ** Matching *)

Definition ui_record_matches (record : pv_record pv_view) (query : list Z) : bool :=
  if zlen query =? 0 then true else
  if pv_slice_contains_cstr (r_title record) (Some query) true ||
     pv_slice_contains_cstr (r_username record) (Some query) true
  then true else
  existsb (fun u => pv_slice_contains_cstr u (Some query) true) (r_urls record) ||
  existsb (fun t => pv_slice_contains_cstr t (Some query) true) (r_tags record).

(** The loop of [build_matches] from index [i] on: the indices of the matches. *)
Fixpoint build_matches_loop (vault : pv_vault) (query : list Z) (capacity : Z) (i : nat)
    (records : list (pv_record pv_slice)) (matches : list nat) : list nat :=
  match records with
  | [] => matches
  | record :: records' =>
      if negb (is_deleted record) && ui_record_matches (record_view vault record) query then
        if capacity <=? zlen matches then matches
        else build_matches_loop vault query capacity (S i) records' (matches ++ [i])
      else build_matches_loop vault query capacity (S i) records' matches
  end.

Definition build_matches (vault : pv_vault) (query : list Z) (capacity : Z) : list nat :=
  build_matches_loop vault query capacity 0 (v_records vault) [].

(** ** The screen *)

(** The characters put on the screen for a record; [addnstr] in pieces of at most
    [INT_MAX] writes all of the sanitised title. *)
Definition ui_add_safe_title (record : pv_record pv_view) : list Z :=
  [if negb (Z.land (r_flags record) PV_RECORD_FAVORITE =? 0) then 42 else 32; 32] ++
  match pv_text_sanitize (r_title record) false PV_MAX_TITLE with
  | Some sanitized => sanitized
  | None => if 0 <? v_len (r_title record) then [63] else []
  end.

(** The height of the terminal, the search line, the number of matches, and the rows
    of records with the one in reverse video. *)
Record screen := mk_screen {
  scr_height : Z;
  scr_query : list Z;
  scr_matches : Z;
  scr_rows : list (list Z * bool)
}.

(** The rows from [index] on, [None] when an index is outside the array. *)
Fixpoint draw_rows (vault : pv_vault) (matches : list nat) (capacity current : Z) (index : Z) (n : nat)
  : option (list (list Z * bool)) :=
  match n with
  | O => Some []
  | S n =>
      if zlen matches <=? index then Some [] else
      if capacity <=? index then None else
      match matches !! Z.to_nat index with
      | None => None
      | Some i =>
          match v_records vault !! i with
          | None => None
          | Some record =>
              rows ← draw_rows vault matches capacity current (index + 1) n;
              Some ((ui_add_safe_title (record_view vault record), index =? current) :: rows)
          end
      end
  end.

(** [rows] is the height of the screen. *)
Definition draw (vault : pv_vault) (query : list Z) (matches : list nat) (capacity current rows : Z) : option screen :=
  let visible := if 3 <? rows then rows - 3 else 0 in
  let first := if (visible <=? current) && (0 <? visible) then current - visible + 1 else 0 in
  lines ← draw_rows vault matches capacity current first (Z.to_nat visible);
  Some (mk_screen rows query (zlen matches) lines).

(** ** The dialogue *)

Definition KEY_DOWN : Z := 258.
Definition KEY_UP : Z := 259.
Definition KEY_BACKSPACE : Z := 263.
Definition KEY_ENTER : Z := 343.

(** One turn of the loop: the height of the screen and the answers of [getch],
    each with the signal that arrives with it; [None] is [ERR]. *)
Record ui_turn := mk_turn { turn_rows : Z; turn_keys : list (Z * option Z) }.

(** The key, or [None] when a signal ended the wait, and the handler's flag. *)
Fixpoint getch (interrupted : Z) (answers : list (Z * option Z)) : option (option Z * Z) :=
  match answers with
  | [] => None
  | (signal_number, key) :: answers =>
      let interrupted := ui_deliver signal_number interrupted in
      match key with
      | None => if interrupted =? 0 then getch interrupted answers else Some (None, interrupted)
      | Some key => Some (Some key, interrupted)
      end
  end.

(** The query and the current row after a key that does not end the dialogue. *)
Definition ui_edit (key : Z) (query : list Z) (current match_count : Z) : list Z * Z :=
  if (key =? KEY_UP) && (0 <? current) then (query, current - 1)
  else if (key =? KEY_DOWN) && (current + 1 <? match_count) then (query, current + 1)
  else if ((key =? KEY_BACKSPACE) || (key =? 127) || (key =? 8)) && (0 <? zlen query)
  then (zsub query 0 (zlen query - 1), 0)
  else if (32 <=? key) && (key <=? 126) && (zlen query + 1 <? 256) then (query ++ [key], 0)
  else (query, current).

(** The loop: the status, the record selected, the flag, and the screens drawn,
    the latest first. *)
Fixpoint pick_loop (turns : list ui_turn) (vault : pv_vault) (capacity : Z) (query : list Z) (current interrupted : Z)
    (screens : list screen) : option (pv_status * option nat * Z * list screen) :=
  if negb (interrupted =? 0) then Some (PV_ERR_IO, None, interrupted, screens) else
  let matches := build_matches vault query capacity in
  let match_count := zlen matches in
  let current := if (match_count <=? current) && (0 <? match_count) then match_count - 1 else current in
  match turns with
  | [] => None
  | turn :: turns =>
      match draw vault query matches capacity current (turn_rows turn) with
      | None => Some (PV_ERR_STATE, None, interrupted, screens)
      | Some shown =>
          let screens := shown :: screens in
          match getch interrupted (turn_keys turn) with
          | None => None
          | Some (key, interrupted) =>
              match key with
              | None => Some (PV_ERR_IO, None, interrupted, screens)
              | Some key =>
                  if negb (interrupted =? 0) then Some (PV_ERR_IO, None, interrupted, screens) else
                  if key =? 27 then Some (PV_ERR_NOT_FOUND, None, interrupted, screens) else
                  if ((key =? 10) || (key =? KEY_ENTER)) && (0 <? match_count) then
                    if capacity <=? current then Some (PV_ERR_STATE, None, interrupted, screens)
                    else Some (PV_OK, matches !! Z.to_nat current, interrupted, screens)
                  else
                    let '(query, current) := ui_edit key query current match_count in
                    pick_loop turns vault capacity query current interrupted screens
              end
          end
      end
  end.

(** The answers of the kernel and of ncurses. The signals are those that reach the
    handler. *)
Record ui_script := mk_ui_script {
  u_input : Z; u_output : Z;                (** the two [open] *)
  u_input_tty : bool; u_output_tty : bool;  (** [isatty] *)
  u_input_stream : bool; u_output_stream : bool;  (** [fdopen] *)
  u_query : Z -> bool; u_block : bool;      (** the calls of [ui_signal_guard_prepare] *)
  u_newterm : bool;
  u_curses : Z -> ui_disposition -> ui_disposition;  (** what [newterm] makes of a disposition *)
  u_set : Z -> bool; u_unblock : bool;      (** the calls of [ui_signal_guard_install] *)
  u_early : Z;                              (** a signal that was pending *)
  u_modes : bool;                           (** [cbreak], [noecho] and [keypad] *)
  u_turns : list ui_turn;
  u_late : Z;                               (** a signal before the guard blocks *)
  u_reblock : bool; u_reset : Z -> bool; u_unmask : bool  (** the calls that restore *)
}.

(** The variables the label [cleanup] looks at: the two descriptors, negative when
    there is none, the two streams, the guard once it is prepared, and the screen,
    which is in use ([curses_active]) whenever it is there. *)
Record ui_held := mk_held {
  h_input_fd : Z;
  h_output_fd : Z;
  h_input : option Z;
  h_output : option Z;
  h_guard : option pv_ui_signal_guard;
  h_screen : bool
}.

(** Until the guard is prepared: success, the variables and the process. *)
Definition ui_start (script : ui_script) (p : ui_process) : bool * ui_held * ui_process :=
  let input := u_input script in
  let p := ui_open input p in
  let output := u_output script in
  let p := ui_open output p in
  if (input <? 0) || (output <? 0) || negb (u_input_tty script) || negb (u_output_tty script)
  then (false, mk_held input output None None None false, p) else
  if negb (u_input_stream script) then (false, mk_held input output None None None false, p) else
  let p := ui_fdopen input p in
  if negb (u_output_stream script) then (false, mk_held (-1) output (Some input) None None false, p) else
  let p := ui_fdopen output p in
  let '(prepared, guard, p) := ui_signal_guard_prepare (u_query script) (u_block script) p in
  if negb prepared then (false, mk_held (-1) (-1) (Some input) (Some output) None false, p) else
  (true, mk_held (-1) (-1) (Some input) (Some output) (Some guard) false, p).

Definition with_screen (held : ui_held) : ui_held :=
  mk_held (h_input_fd held) (h_output_fd held) (h_input held) (h_output held) (h_guard held) true.

(** From the prepared guard to the label [cleanup]: the status, the record, the
    variables, the process and the screens. [set_term] returns the screen that
    [newterm] has just made the current one. *)
Definition ui_session (script : ui_script) (guard : pv_ui_signal_guard) (held : ui_held) (vault : pv_vault) (capacity : Z) (p : ui_process)
  : option (pv_status * option nat * ui_held * ui_process * list screen) :=
  let p := set_p_handlers p (fun n => u_curses script n (p_handlers p n)) in
  if negb (u_newterm script) then Some (PV_ERR_EXTERNAL, None, held, p, []) else
  let held := with_screen held in
  let p := set_p_terminal p (p_terms p + 1) true in
  let '(installed, p) := ui_signal_guard_install (u_set script) (u_unblock script) guard p in
  if negb installed then Some (PV_ERR_IO, None, held, p, []) else
  let p := set_p_interrupted p (ui_deliver (u_early script) (p_interrupted p)) in
  if negb (p_interrupted p =? 0) then Some (PV_ERR_IO, None, held, p, []) else
  if negb (u_modes script) then Some (PV_ERR_EXTERNAL, None, held, p, []) else
  match pick_loop (u_turns script) vault capacity [] 0 (p_interrupted p) [] with
  | None => None
  | Some (status, selected, interrupted, screens) => Some (status, selected, held, set_p_interrupted p interrupted, screens)
  end.

(** The stream is closed, or else the descriptor. *)
Definition ui_release (stream : option Z) (fd : Z) (p : ui_process) : ui_process :=
  match stream with
  | Some n => ui_close (Tty_stream n) p
  | None => if 0 <=? fd then ui_close (Tty_fd fd) p else p
  end.

(** From the label [cleanup] on: the status and the process. *)
Definition ui_cleanup (script : ui_script) (held : ui_held) (status : pv_status) (p : ui_process) : pv_status * ui_process :=
  let '(caught_signal, p) :=
    match h_guard held with
    | Some guard =>
        let p := set_p_interrupted p (ui_deliver (u_late script) (p_interrupted p)) in
        let p := ui_signal_guard_block (u_reblock script) guard p in
        (p_interrupted p, p)
    | None => (0, p)
    end in
  let p := if h_screen held then set_p_terminal p (p_terms p) false else p in
  let p := if h_screen held then set_p_terminal p (p_terms p - 1) (p_screen p) else p in
  let p := ui_release (h_output held) (h_output_fd held) p in
  let p := ui_release (h_input held) (h_input_fd held) p in
  let '(restored, p) :=
    match h_guard held with
    | Some guard => ui_signal_guard_restore (u_reset script) (u_unmask script) guard p
    | None => (true, p)
    end in
  let status := if negb restored then PV_ERR_IO else status in
  let p := set_p_interrupted p 0 in
  if caught_signal =? 0 then (status, p) else (PV_ERR_IO, set_p_raised p (caught_signal :: p_raised p)).

(** The status, [*selected] ([None] is the null pointer), the process and the
    screens that were shown. *)
Definition pv_ui_pick_internal (script : ui_script) (p : ui_process) (vault : pv_vault)
  : M (option (pv_status * option nat * ui_process * list screen)) :=
  if v_record_count vault =? 0 then mret (Some (PV_ERR_NOT_FOUND, None, p, [])) else
  let match_capacity := v_record_count vault in
  allocated ← sodium_malloc;
  if negb allocated then mret (Some (PV_ERR_NOMEM, None, p, [])) else
  let '(started, held, p) := ui_start script p in
  let session :=
    match started, h_guard held with
    | true, Some guard => ui_session script guard held vault match_capacity p
    | _, _ => Some (PV_ERR_IO, None, held, p, [])
    end in
  mret match session with
       | None => None
       | Some (status, selected, held, p, screens) =>
           let '(status, p) := ui_cleanup script held status p in
           Some (status, selected, p, screens)
       end.
