(* ===== verification/UiProps.v ===== *)
(** * Properties of the record picker

    [src/ui.c]: what the picker selects and shows, and what it leaves behind. *)

From S2P Require Import Prelude Status Util Sys Arena Model ModelProps Posix Ui.

(** ** The matches *)

(** The live records a query matches, by index. *)
Definition ui_match (vault : pv_vault) (query : list Z) (record : pv_record pv_slice) : bool :=
  negb (is_deleted record) && ui_record_matches (record_view vault record) query.

Fixpoint matching (vault : pv_vault) (query : list Z) (i : nat) (records : list (pv_record pv_slice)) : list nat :=
  match records with
  | [] => []
  | record :: records =>
      if ui_match vault query record then i :: matching vault query (S i) records else matching vault query (S i) records
  end.

Lemma matching_length vault query i records : zlen (matching vault query i records) <= zlen records.
Proof.
  revert i. induction records as [| r records IH]; intros i; cbn [matching]; [done |]. specialize (IH (S i)).
  destruct (ui_match vault query r); rewrite ?zlen_cons; lia.
Qed.

Lemma build_matches_loop_eq vault query capacity i records acc : zlen acc + zlen records <= capacity ->
  build_matches_loop vault query capacity i records acc = acc ++ matching vault query i records.
Proof.
  revert i acc. induction records as [| r records IH]; intros i acc Hcap; cbn [build_matches_loop matching]; [by rewrite app_nil_r |].
  rewrite zlen_cons in Hcap. pose proof (zlen_nonneg records). fold (ui_match vault query r). destruct (ui_match vault query r).
  - rewrite (proj2 (Z.leb_gt capacity (zlen acc))) by lia. rewrite IH by (rewrite zlen_app; change (zlen [i]) with 1; lia). by rewrite <- app_assoc.
  - apply IH. lia.
Qed.

Lemma build_matches_eq vault query : build_matches vault query (v_record_count vault) = matching vault query 0 (v_records vault).
Proof. apply build_matches_loop_eq. change (zlen []) with 0. unfold v_record_count. lia. Qed.

Lemma matching_in vault query i records k : k ∈ matching vault query i records ->
  exists r, records !! (k - i)%nat = Some r /\ (i <= k)%nat /\ ui_match vault query r = true.
Proof.
  revert i. induction records as [| r records IH]; intros i; cbn [matching]; [by intros ?%not_elem_of_nil |].
  assert (Hstep : k ∈ matching vault query (S i) records ->
    exists r0, (r :: records) !! (k - i)%nat = Some r0 /\ (i <= k)%nat /\ ui_match vault query r0 = true).
  { intros Hk. apply IH in Hk as (r' & E & Hle & Hm). exists r'. split_and!; [| lia | done]. replace (k - i)%nat with (S (k - S i)) by lia. done. }
  destruct (ui_match vault query r) eqn:E; [| done]. rewrite elem_of_cons. intros [-> | Hk]; [| by apply Hstep]. exists r.
  rewrite Nat.sub_diag. split_and!; [done | lia | done].
Qed.

Lemma matching_record vault query k : k ∈ matching vault query 0 (v_records vault) ->
  exists r, v_records vault !! k = Some r /\ ui_match vault query r = true.
Proof. intros (r & E & _ & Hm)%matching_in. rewrite Nat.sub_0_r in E. by exists r. Qed.

(** ** Drawing *)

(** The row of the match with number [index]. *)
Definition row_of (vault : pv_vault) (query : list Z) (current index : Z) (row : list Z * bool) : Prop :=
  exists k r, matching vault query 0 (v_records vault) !! Z.to_nat index = Some k /\ v_records vault !! k = Some r /\
    row = (ui_add_safe_title (record_view vault r), index =? current).

(** The rows are those of consecutive matches. *)
Definition rows_from (vault : pv_vault) (query : list Z) (current first : Z) (rows : list (list Z * bool)) : Prop :=
  forall j row, rows !! j = Some row -> row_of vault query current (first + Z.of_nat j) row.

Lemma draw_rows_ok vault query capacity current index n : zlen (matching vault query 0 (v_records vault)) <= capacity -> 0 <= index ->
  exists rows, draw_rows vault (matching vault query 0 (v_records vault)) capacity current index n = Some rows /\
    rows_from vault query current index rows /\
    zlen rows = Z.max 0 (Z.min (Z.of_nat n) (zlen (matching vault query 0 (v_records vault)) - index)).
Proof.
  intros Hcap. revert index. induction n as [| n IH]; intros index Hi; cbn [draw_rows]; [exists []; split_and!; [done | done |]; rewrite zlen_nil; lia |].
  destruct (Z.leb_spec (zlen (matching vault query 0 (v_records vault))) index) as [| Hlt]; [exists []; split_and!; [done | done |]; rewrite zlen_nil; lia |].
  rewrite (proj2 (Z.leb_gt capacity index)) by lia.
  destruct (lookup_lt_is_Some_2 (matching vault query 0 (v_records vault)) (Z.to_nat index)) as [k Hk]; [unfold zlen in *; lia |].
  rewrite Hk. pose proof Hk as Hin. apply list_elem_of_lookup_2, matching_record in Hin as (r & Hr & Hm). rewrite Hr.
  destruct (IH (index + 1) ltac:(lia)) as (rows & -> & Hrows & Hlen). eexists. split_and!; [done | | rewrite zlen_cons; lia].
  intros [| j] row Hj; cbn in Hj.
  - simplify_eq. rewrite Z.add_0_r. by exists k, r.
  - apply Hrows in Hj. by replace (index + Z.of_nat (S j)) with (index + 1 + Z.of_nat j) by lia.
Qed.

Lemma matching_count vault query i records : zlen (matching vault query i records) = zlen (filter (fun r => ui_match vault query r = true) records).
Proof.
  revert i. induction records as [| r records IH]; intros i; cbn [matching]; [done |]. destruct (ui_match vault query r) eqn:E.
  - rewrite filter_cons_True by done. by rewrite !zlen_cons, IH.
  - rewrite filter_cons_False by congruence. apply IH.
Qed.

(** A screen of the search: it counts the live records that match the query on it,
    every row is the sanitised line of one of them, there are as many rows as the
    terminal has below the first three, at most, and at most one row is in reverse
    video. *)
Definition shows_match (vault : pv_vault) (s : screen) (row : list Z) : Prop :=
  exists r, r ∈ v_records vault /\ ui_match vault (scr_query s) r = true /\ row = ui_add_safe_title (record_view vault r).

Definition shows (vault : pv_vault) (s : screen) : Prop :=
  scr_matches s = zlen (filter (fun r => ui_match vault (scr_query s) r = true) (v_records vault)) /\ zlen (scr_rows s) <= Z.max 0 (scr_height s - 3) /\
  Forall (fun row => shows_match vault s (fst row)) (scr_rows s) /\ (length (filter (fun row => snd row = true) (scr_rows s)) <= 1)%nat.

Definition highlights (vault : pv_vault) (s : screen) (r : pv_record pv_slice) : Prop :=
  3 < scr_height s -> (ui_add_safe_title (record_view vault r), true) ∈ scr_rows s.

Lemma rows_from_tail vault query current first row rows : rows_from vault query current first (row :: rows) ->
  rows_from vault query current (first + 1) rows.
Proof. intros H j r Hj. specialize (H (S j) r Hj). by replace (first + 1 + Z.of_nat j) with (first + Z.of_nat (S j)) by lia. Qed.

Lemma rows_from_unlit vault query current first rows : current < first -> rows_from vault query current first rows ->
  filter (fun row => snd row = true) rows = [].
Proof.
  revert first. induction rows as [| row rows IH]; intros first Hlt H; [done |]. rewrite filter_cons_False.
  - apply (IH (first + 1)); [lia | by eapply rows_from_tail].
  - destruct (H 0%nat row eq_refl) as (k & r & _ & _ & ->). cbn [snd]. rewrite Z.eqb_eq. lia.
Qed.

Lemma rows_from_lit vault query current first rows : rows_from vault query current first rows ->
  (length (filter (fun row => snd row = true) rows) <= 1)%nat.
Proof.
  revert first. induction rows as [| row rows IH]; intros first H; [cbn; lia |]. pose proof (rows_from_tail _ _ _ _ _ _ H) as Ht.
  destruct (decide (snd row = true)) as [Hrow | Hrow]; [| rewrite filter_cons_False by done; by apply (IH (first + 1))].
  rewrite filter_cons_True by done. destruct (H 0%nat row eq_refl) as (k & r & _ & _ & ->). cbn [snd] in Hrow. rewrite Z.eqb_eq in Hrow.
  rewrite (rows_from_unlit vault query current (first + 1)); [cbn; lia | lia | done].
Qed.

Lemma draw_ok vault query capacity current rows : zlen (matching vault query 0 (v_records vault)) <= capacity -> 0 <= current ->
  exists s, draw vault query (matching vault query 0 (v_records vault)) capacity current rows = Some s /\ shows vault s /\ scr_query s = query /\
    forall k r, matching vault query 0 (v_records vault) !! Z.to_nat current = Some k -> v_records vault !! k = Some r -> highlights vault s r.
Proof.
  intros Hcap Hc. unfold draw. cbv zeta.
  set (visible := if 3 <? rows then rows - 3 else 0). match goal with |- context [draw_rows _ _ _ _ ?f _] => set (first := f) end.
  assert (Hv : 0 <= visible) by (unfold visible; split_if; lia).
  assert (Hf : 0 <= first /\ (0 < visible -> first <= current < first + visible)) by (unfold first; split_if; lia).
  destruct (draw_rows_ok vault query capacity current first (Z.to_nat visible) Hcap ltac:(lia)) as (lines & -> & Hl & Hlen).
  eexists. split; [done |]. split_and!; cbn [scr_rows scr_query]; [split_and!; cbn [scr_matches scr_query scr_rows scr_height] | done |].
  - apply matching_count.
  - pose proof (matching_length vault query 0 (v_records vault)). unfold visible in Hlen. split_if_in Hlen; lia.
  - apply Forall_lookup. intros j row Hj. apply Hl in Hj as (k & r & Hk & Hr & ->). apply list_elem_of_lookup_2, matching_record in Hk as (r' & Hr' & Hm).
    rewrite Hr in Hr'. injection Hr' as <-. exists r. split_and!; [by eapply list_elem_of_lookup_2 | done | done].
  - by eapply rows_from_lit.
  - intros k r Hk Hr Hne. pose proof (lookup_lt_Some _ _ _ Hk) as Hklt.
    assert (0 < visible) by (cbn [scr_height] in Hne; unfold visible; rewrite (proj2 (Z.ltb_lt 3 rows)) by done; lia).
    destruct (lookup_lt_is_Some_2 lines (Z.to_nat (current - first))) as [row Hrow]; [unfold zlen in *; lia |].
    cbn [scr_rows]. apply list_elem_of_lookup_2 with (Z.to_nat (current - first)). rewrite Hrow. apply Hl in Hrow as (k' & r' & Hk' & Hr' & ->).
    replace (first + Z.of_nat (Z.to_nat (current - first))) with current in * by lia. simplify_eq. by rewrite Z.eqb_refl.
Qed.

(** ** The loop *)

(** A query as it can be typed. *)
Definition typable (query : list Z) : Prop := Forall (fun c => 32 <= c <= 126) query /\ zlen query < 256.

Lemma ui_edit_ok key query current count : typable query -> 0 <= current ->
  typable (fst (ui_edit key query current count)) /\ 0 <= snd (ui_edit key query current count).
Proof.
  intros [Hq Hl] Hc. unfold ui_edit. pose proof (zlen_nonneg query). repeat (split_if; [split; cbn [fst snd]; [| lia] |]); try (by split); cbn [fst snd].
  - split; [by apply Forall_take, Forall_drop |]. pose proof (zlen_zsub query 0 (zlen query - 1)). lia.
  - split; [apply Forall_app; split; [done |]; constructor; [lia | constructor] |]. rewrite zlen_app. change (zlen [key]) with 1. lia.
Qed.

Lemma getch_key interrupted answers key interrupted' : getch interrupted answers = Some (Some key, interrupted') ->
  exists n, (n, Some key) ∈ answers.
Proof.
  revert interrupted. induction answers as [| [n [k |]] answers IH]; intros interrupted; cbn [getch]; [done | intros E; simplify_eq; exists n; by left |].
  split_if; [| done]. intros E. apply IH in E as [m Hm]. exists m. by right.
Qed.

(** The record with index [i] is live, matches the query of the last screen and, on a
    terminal with a row for a record, is the row in reverse video there. *)
Definition selection (vault : pv_vault) (screens : list screen) (i : nat) : Prop :=
  exists r s, v_records vault !! i = Some r /\ head screens = Some s /\
    typable (scr_query s) /\ ui_match vault (scr_query s) r = true /\ highlights vault s r.

Lemma pick_loop_sound turns vault query current interrupted screens status selected interrupted' screens' :
  typable query -> 0 <= current -> Forall (shows vault) screens ->
  pick_loop turns vault (v_record_count vault) query current interrupted screens = Some (status, selected, interrupted', screens') ->
  status <> PV_ERR_STATE /\ Forall (shows vault) screens' /\
  (status = PV_OK -> interrupted' = 0 /\ exists i, selected = Some i /\ selection vault screens' i) /\
  (status <> PV_OK -> selected = None).
Proof.
  revert query current interrupted screens. induction turns as [| turn turns IH]; intros query current interrupted screens Hq Hc Hs; cbn [pick_loop];
    (split_if; [intros E; simplify_eq; by split_and! |]); [done |].
  rewrite build_matches_eq. set (ms := matching vault query 0 (v_records vault)). match goal with |- context [draw _ _ _ _ ?c _] => set (current' := c) end.
  assert (Hcap : zlen ms <= v_record_count vault) by apply matching_length.
  assert (Hc' : 0 <= current') by (unfold current'; split_if; lia).
  destruct (draw_ok vault query (v_record_count vault) current' (turn_rows turn)) as (s & Edraw & Hshow & Hsq & Hlit); [done | done |].
  fold ms in Edraw, Hlit. rewrite Edraw.
  assert (Hs' : Forall (shows vault) (s :: screens)) by by constructor.
  destruct (getch interrupted (turn_keys turn)) as [[[key |] i'] |]; [| intros E; simplify_eq; by split_and! | done].
  split_if; [intros E; simplify_eq; by split_and! |]. split_if; [intros E; simplify_eq; by split_and! |].
  destruct (((key =? 10) || (key =? KEY_ENTER)) && (0 <? zlen ms)) eqn:Eenter.
  - assert (Hlt : current' < zlen ms) by (unfold current'; split_if; lia). rewrite (proj2 (Z.leb_gt (v_record_count vault) current')) by lia.
    destruct (lookup_lt_is_Some_2 ms (Z.to_nat current')) as [k Hk]; [unfold zlen in *; lia |]. rewrite Hk. intros E. simplify_eq. split_and!; try done.
    intros _. split; [lia |]. pose proof Hk as Hin. apply list_elem_of_lookup_2, matching_record in Hin as (r & Hr & Hm).
    exists k. split; [done |]. exists r, s. split_and!; eauto.
  - pose proof (ui_edit_ok key query current' (zlen ms) Hq Hc') as Hedit. destruct (ui_edit key query current' (zlen ms)) as [query' c']. destruct Hedit. by apply IH.
Qed.

(** Typing a query and pressing Enter selects the first match. *)
Definition typed (rows : Z) (query : list Z) : list ui_turn := map (fun c => mk_turn rows [(0, Some c)]) (query ++ [10]).

Lemma ui_edit_typed key query count : 32 <= key <= 126 -> zlen query + 1 < 256 -> ui_edit key query 0 count = (query ++ [key], 0).
Proof.
  intros Hk Hl. unfold ui_edit, KEY_UP, KEY_DOWN, KEY_BACKSPACE.
  rewrite (proj2 (Z.eqb_neq key 259)), (proj2 (Z.eqb_neq key 258)), (proj2 (Z.eqb_neq key 263)), (proj2 (Z.eqb_neq key 127)), (proj2 (Z.eqb_neq key 8)) by lia.
  rewrite (proj2 (Z.leb_le 32 key)), (proj2 (Z.leb_le key 126)), (proj2 (Z.ltb_lt _ _) Hl) by lia. done.
Qed.

Lemma pick_loop_typed vault rows todo query screens i : typable (query ++ todo) ->
  head (matching vault (query ++ todo) 0 (v_records vault)) = Some i ->
  exists screens', pick_loop (typed rows todo) vault (v_record_count vault) query 0 0 screens = Some (PV_OK, Some i, 0, screens').
Proof.
  revert query screens. induction todo as [| c todo IH]; intros query screens Hq Hi; cbn [typed app map pick_loop turn_rows turn_keys getch]; cbv zeta;
    rewrite build_matches_eq; set (ms := matching vault query 0 (v_records vault)); change (negb (0 =? 0)) with false; cbv iota;
    (assert (Hcap : zlen ms <= v_record_count vault) by apply matching_length);
    (assert (Hzero : (if (zlen ms <=? 0) && (0 <? zlen ms) then zlen ms - 1 else 0) = 0) by (split_if; lia)); rewrite Hzero;
    (destruct (draw_ok vault query (v_record_count vault) 0 rows Hcap ltac:(lia)) as (s & Edraw & _)); fold ms in Edraw; rewrite Edraw;
    change (ui_deliver 0 0) with 0; cbv iota; change (negb (0 =? 0)) with false; cbv iota.
  - rewrite app_nil_r in Hi. fold ms in Hi. destruct ms as [| m ms'] eqn:Ems; [done |]. injection Hi as ->. pose proof (zlen_nonneg ms').
    change ((10 =? 27)) with false. change (((10 =? 10) || (10 =? KEY_ENTER))) with true. cbv iota.
    rewrite zlen_cons in Hcap |- *. rewrite (proj2 (Z.ltb_lt 0 (1 + zlen ms'))), (proj2 (Z.leb_gt (v_record_count vault) 0)) by lia. by eexists.
  - destruct Hq as [Hq Hl]. pose proof Hq as Hc. rewrite zlen_app, zlen_cons in Hl. pose proof (zlen_nonneg todo). apply Forall_app in Hc as [_ Hc]. apply Forall_cons_1 in Hc as [Hc _].
    unfold KEY_ENTER. rewrite (proj2 (Z.eqb_neq c 27)), (proj2 (Z.eqb_neq c 10)), (proj2 (Z.eqb_neq c 343)) by lia. cbn [orb andb].
    rewrite ui_edit_typed by lia. apply IH; rewrite <- app_assoc; [split; [done |] | done]. cbn [app]. rewrite zlen_app, zlen_cons. lia.
Qed.

(** ** The guard around the signals *)

Lemma capture_loop_eq query_ok signals handlers captured : capture_loop query_ok signals handlers = (true, captured) ->
  captured = map (fun n => (n, handlers n)) signals.
Proof.
  revert captured. induction signals as [| n signals IH]; intros captured; cbn [capture_loop map]; [by intros [= <-] |].
  destruct (query_ok n); [| done]. destruct (capture_loop query_ok signals handlers) as [ok c]. intros [= -> <-]. by rewrite (IH c).
Qed.

Lemma ui_install_loop_outside set_ok previous handlers k : k ∉ map fst previous ->
  snd (ui_install_loop set_ok previous handlers) k = handlers k.
Proof.
  revert handlers. induction previous as [| [n d] previous IH]; intros handlers Hk; cbn [ui_install_loop map fst] in *; [done |].
  rewrite elem_of_cons in Hk. destruct (set_ok n); [| done]. rewrite IH by tauto. unfold ui_set_handler. rewrite (proj2 (Z.eqb_neq k n)); [done |]. intros ->. tauto.
Qed.

(** Restoring what was captured: where it holds already it still does, and with
    every call done it holds for the captured signals. *)
Lemma ui_restore_loop_ok set_ok (captured : list (Z * ui_disposition)) (original handlers : Z -> ui_disposition) k :
  Forall (fun c => snd c = original (fst c)) captured ->
  fst (ui_restore_loop set_ok captured handlers) = true -> k ∈ map fst captured \/ handlers k = original k ->
  snd (ui_restore_loop set_ok captured handlers) k = original k.
Proof.
  revert handlers. induction captured as [| [n d] captured IH]; intros handlers Hc Hok Hk; cbn [ui_restore_loop map fst] in *.
  { destruct Hk as [Hk | Hk]; [by apply not_elem_of_nil in Hk | done]. }
  apply Forall_cons_1 in Hc as [Hd Hc]. cbn [fst snd] in Hd. destruct (set_ok n).
  - apply IH; [done | done |]. unfold ui_set_handler. destruct (Z.eqb_spec k n) as [-> | Hne]; [by right |].
    rewrite elem_of_cons in Hk. tauto.
  - by destruct (ui_restore_loop set_ok captured handlers).
Qed.

Lemma ui_restore_loop_all set_ok captured handlers : (forall n, set_ok n = true) -> fst (ui_restore_loop set_ok captured handlers) = true.
Proof. intros Hok. revert handlers. induction captured as [| [n d] captured IH]; intros handlers; cbn [ui_restore_loop]; [done |]. by rewrite Hok. Qed.

Lemma ui_restore_loop_outside set_ok captured handlers k : k ∉ map fst captured -> snd (ui_restore_loop set_ok captured handlers) k = handlers k.
Proof.
  revert handlers. induction captured as [| [n d] captured IH]; intros handlers Hk; cbn [ui_restore_loop map fst] in *; [done |].
  rewrite elem_of_cons in Hk. destruct (set_ok n).
  - rewrite IH by tauto. unfold ui_set_handler. rewrite (proj2 (Z.eqb_neq k n)); [done |]. intros ->. tauto.
  - specialize (IH handlers ltac:(tauto)). by destruct (ui_restore_loop set_ok captured handlers).
Qed.

(** ** What is open *)

Lemma remove_file_head f l : remove_file f (f :: l) = l.
Proof. cbn. by rewrite decide_True. Qed.

Lemma remove_other f g l : g <> f -> remove_file f (g :: l) = g :: remove_file f l.
Proof. intros H. cbn. by rewrite decide_False. Qed.

Lemma remove_second f g l : remove_file f (g :: f :: l) = g :: l.
Proof. destruct (decide (g = f)) as [-> | H]; [apply remove_file_head |]. by rewrite remove_other, remove_file_head. Qed.

(** What is left when the streams and descriptors that [held] names are closed. *)
Definition left_open (held : ui_held) (p : ui_process) : list tty_file :=
  p_files (ui_release (h_input held) (h_input_fd held) (ui_release (h_output held) (h_output_fd held) p)).

Lemma left_open_files held p q : p_files p = p_files q -> left_open held p = left_open held q.
Proof. unfold left_open, ui_release, ui_close. intros H. destruct (h_output held), (h_input held); repeat split_if; cbn; by rewrite ?H. Qed.

(** The guard has the dispositions and the mask of [p]. *)
Definition guards (guard : pv_ui_signal_guard) (p : ui_process) : Prop :=
  g_previous guard = map (fun n => (n, p_handlers p n)) pv_ui_signals /\ g_previous_mask guard = p_mask p /\ g_mask_saved guard = true.

Lemma ui_prepare_ok query_ok block_ok p prepared guard p' : ui_signal_guard_prepare query_ok block_ok p = (prepared, guard, p') ->
  p_handlers p' = p_handlers p /\ p_raised p' = p_raised p /\ p_files p' = p_files p /\ p_terms p' = p_terms p /\ p_screen p' = p_screen p /\
  if prepared then guards guard p else p_mask p' = p_mask p.
Proof.
  unfold ui_signal_guard_prepare, guards. destruct (capture_loop query_ok pv_ui_signals (p_handlers p)) as [ok captured] eqn:E.
  destruct ok; [| by intros [= <- <- <-]; split_and!]. destruct block_ok; [| by intros [= <- <- <-]; split_and!].
  intros [= <- <- <-]. apply capture_loop_eq in E. by split_and!.
Qed.

(** Closing what [ui_start] leaves in its variables closes what it opened. *)
Lemma ui_start_ok script p started held p' : ui_start script p = (started, held, p') ->
  p_handlers p' = p_handlers p /\ p_raised p' = p_raised p /\ p_terms p' = p_terms p /\ p_screen p' = p_screen p /\
  left_open held p' = p_files p /\ h_screen held = false /\
  if started then exists guard, h_guard held = Some guard /\ guards guard p else h_guard held = None /\ p_mask p' = p_mask p.
Proof.
  unfold ui_start. cbv zeta. destruct ((u_input script <? 0) || _ || _ || _) eqn:E.
  { intros [= <- <- <-]. unfold left_open, ui_release, ui_open. cbn [h_output h_input h_output_fd h_input_fd h_guard h_screen].
    repeat split_if; cbn -[remove_file]; rewrite ?remove_file_head; by split_and!. }
  rewrite !orb_false_iff, !Z.ltb_ge in E. destruct E as [[[Hi Ho] _] _]. unfold ui_open. rewrite (proj2 (Z.leb_le _ _) Hi), (proj2 (Z.leb_le _ _) Ho).
  destruct (u_input_stream script); cbn [negb].
  2: { intros [= <- <- <-]. unfold left_open, ui_release. cbn [h_output h_input h_output_fd h_input_fd h_guard h_screen]. rewrite (proj2 (Z.leb_le _ _) Hi), (proj2 (Z.leb_le _ _) Ho).
       cbn -[remove_file]. rewrite !remove_file_head. by split_and!. }
  destruct (u_output_stream script); cbn [negb].
  2: { intros [= <- <- <-]. unfold left_open, ui_release. cbn [h_output h_input h_output_fd h_input_fd h_guard h_screen]. rewrite (proj2 (Z.leb_le _ _) Ho).
       cbn -[remove_file]. rewrite !remove_second, remove_file_head. by split_and!. }
  destruct (ui_signal_guard_prepare _ _ _) as [[prepared guard] p1] eqn:Eprep. apply ui_prepare_ok in Eprep as (Hh & Hr & Hf & Ht & Hs & Hg).
  assert (Hfiles : p_files p1 = Tty_stream (u_output script) :: Tty_stream (u_input script) :: p_files p).
  { rewrite Hf. cbn -[remove_file]. by rewrite !remove_second. }
  destruct prepared; cbn [negb]; intros [= <- <- <-]; unfold left_open, ui_release, ui_close; cbn [h_output h_input h_output_fd h_input_fd h_guard h_screen p_files set_p_files];
    rewrite Hfiles, !remove_file_head; split_and!; try done. by exists guard.
Qed.

(** ** The session and the cleanup *)

(** What the session leaves of the process: no signal is raised, and only ncurses
    touches the dispositions of other signals. *)
Definition in_session (script : ui_script) (guard : pv_ui_signal_guard) (p p' : ui_process) : Prop :=
  (forall k, k ∉ map fst (g_previous guard) -> p_handlers p' k = u_curses script k (p_handlers p k)) /\ p_raised p' = p_raised p /\ p_files p' = p_files p.

Lemma ui_session_process script guard held vault capacity p status selected held' p' screens :
  ui_session script guard held vault capacity p = Some (status, selected, held', p', screens) ->
  in_session script guard p p' /\ h_guard held' = h_guard held /\ left_open held' p' = left_open held p /\
  (held' = held /\ p_terms p' = p_terms p /\ p_screen p' = p_screen p \/ h_screen held' = true /\ p_terms p' = p_terms p + 1).
Proof.
  unfold ui_session, ui_signal_guard_install. cbv zeta. cbn [p_handlers set_p_handlers set_p_terminal]. destruct (u_newterm script); cbn [negb].
  2: { intros [= <- <- <- <- <-]. split; [by split_and! |]. split; [done |]. split; [by apply left_open_files |]. by left. }
  match goal with |- context [ui_install_loop ?f ?g ?h] => pose proof (ui_install_loop_outside f g h) as Hout; destruct (ui_install_loop f g h) as [ok handlers] end. cbn [snd] in Hout.
  destruct ok; cbn [negb]; [| intros [= <- <- <- <- <-]; split; [by split_and! |]; split; [done |]; split; [by apply (left_open_files held) |]; by right].
  destruct (u_unblock script); cbn [negb]; [| intros [= <- <- <- <- <-]; split; [by split_and! |]; split; [done |]; split; [by apply (left_open_files held) |]; by right].
  split_if; [intros [= <- <- <- <- <-]; split; [by split_and! |]; split; [done |]; split; [by apply (left_open_files held) |]; by right |].
  destruct (u_modes script); cbn [negb]; [| intros [= <- <- <- <- <-]; split; [by split_and! |]; split; [done |]; split; [by apply (left_open_files held) |]; by right].
  destruct (pick_loop _ _ _ _ _ _ _) as [[[[? ?] ?] ?] |]; [| done]. intros [= <- <- <- <- <-]. split; [by split_and! |]. split; [done |]. split; [by apply (left_open_files held) |]. by right.
Qed.

(** The process as it was: the mask, and the dispositions but those of signals that
    the picker does not guard and ncurses changed. *)
Definition as_before (script : ui_script) (p p' : ui_process) : Prop :=
  (forall k, p_handlers p' k = p_handlers p k \/ (k ∉ pv_ui_signals) /\ p_handlers p' k = u_curses script k (p_handlers p k)) /\ (forall k, p_mask p' k = p_mask p k).

(** The calls that restore the signals succeed. *)
Definition restores (script : ui_script) : Prop := (forall n, u_reset script n = true) /\ u_unmask script = true.

Lemma ui_restore_ok script guard p0 p restored p' : guards guard p0 -> ui_signal_guard_restore (u_reset script) (u_unmask script) guard p = (restored, p') ->
  (forall k, k ∉ pv_ui_signals -> p_handlers p k = u_curses script k (p_handlers p0 k)) ->
  (restored = true -> as_before script p0 p') /\ (restores script -> restored = true) /\
  p_raised p' = p_raised p /\ p_files p' = p_files p /\ p_terms p' = p_terms p /\ p_screen p' = p_screen p.
Proof.
  intros (Hprev & Hmask & Hsaved) E Hout. unfold ui_signal_guard_restore in E. rewrite Hsaved in E.
  assert (Hnames : map fst (rev (g_previous guard)) = rev pv_ui_signals) by (rewrite Hprev, map_rev, map_map; by rewrite map_id).
  pose proof (ui_restore_loop_all (u_reset script) (rev (g_previous guard)) (p_handlers p)) as Hall.
  pose proof (fun k => ui_restore_loop_outside (u_reset script) (rev (g_previous guard)) (p_handlers p) k) as Houter.
  pose proof (fun k => ui_restore_loop_ok (u_reset script) (rev (g_previous guard)) (p_handlers p0) (p_handlers p) k) as Hinner. rewrite Hnames in Houter, Hinner.
  assert (Hc : Forall (fun c => snd c = p_handlers p0 (fst c)) (rev (g_previous guard))) by (rewrite Hprev; apply Forall_rev; by repeat constructor).
  destruct (ui_restore_loop (u_reset script) (rev (g_previous guard)) (p_handlers p)) as [ok handlers]. cbn [fst snd] in Hall, Houter, Hinner.
  destruct (u_unmask script) eqn:Eu; injection E as <- <-; (split_and!; [| intros [Hr ?]; first [by auto | congruence] | done..]); [| done]. intros ->.
  split; cbn [p_handlers p_mask set_p_mask set_p_handlers]; [| intros k; by rewrite Hmask]. intros k. destruct (decide (k ∈ pv_ui_signals)) as [Hk | Hk].
  - left. apply Hinner; [done | done | left]. apply list_elem_of_In. rewrite <- in_rev. by apply list_elem_of_In.
  - right. split; [done |]. rewrite Houter; [by apply Hout |]. intros H. apply Hk. apply list_elem_of_In, in_rev, list_elem_of_In. done.
Qed.

(** Leaving the screen and closing the files. *)
Definition ui_left (held : ui_held) (p : ui_process) : ui_process :=
  ui_release (h_input held) (h_input_fd held) (ui_release (h_output held) (h_output_fd held)
    (if h_screen held then set_p_terminal p (p_terms p - 1) false else p)).

Lemma ui_left_ok held p : p_files (ui_left held p) = left_open held p /\ p_terms (ui_left held p) = p_terms p - (if h_screen held then 1 else 0) /\
  p_screen (ui_left held p) = (if h_screen held then false else p_screen p) /\ p_handlers (ui_left held p) = p_handlers p /\ p_mask (ui_left held p) = p_mask p /\
  p_raised (ui_left held p) = p_raised p.
Proof.
  split; [unfold ui_left; destruct (h_screen held); by apply left_open_files |].
  unfold ui_left, ui_release, ui_close. destruct (h_screen held), (h_output held), (h_input held); repeat split_if; split_and!; try done; cbn; lia.
Qed.

(** The cleanup once the guard is prepared, and before it is. *)
Lemma ui_cleanup_eq script held status p : ui_cleanup script held status p =
  match h_guard held with
  | None => (status, set_p_interrupted (ui_left held p) 0)
  | Some guard =>
      let p := ui_signal_guard_block (u_reblock script) guard (set_p_interrupted p (ui_deliver (u_late script) (p_interrupted p))) in
      let '(restored, q) := ui_signal_guard_restore (u_reset script) (u_unmask script) guard (ui_left held p) in
      if p_interrupted p =? 0 then (if restored then status else PV_ERR_IO, set_p_interrupted q 0)
      else (PV_ERR_IO, set_p_raised (set_p_interrupted q 0) (p_interrupted p :: p_raised q))
  end.
Proof.
  unfold ui_cleanup, ui_left. assert (Hset : forall a x y, set_p_terminal (set_p_terminal a x false) y false = set_p_terminal a y false) by done.
  destruct (h_guard held) as [guard |], (h_screen held); cbv zeta; cbn [p_terms p_screen set_p_terminal]; rewrite ?Hset; [| | done..];
    by destruct (ui_signal_guard_restore _ _ _ _) as [[] q].
Qed.

Lemma ui_cleanup_ok script held status p0 p status' p' : ui_cleanup script held status p = (status', p') ->
  match h_guard held with
  | None => p_handlers p = p_handlers p0 /\ p_mask p = p_mask p0
  | Some guard => guards guard p0 /\ (forall k, k ∉ pv_ui_signals -> p_handlers p k = u_curses script k (p_handlers p0 k))
  end ->
  (status' <> PV_ERR_IO \/ restores script -> as_before script p0 p') /\
  p_files p' = left_open held p /\ p_terms p' = p_terms p - (if h_screen held then 1 else 0) /\ p_screen p' = (if h_screen held then false else p_screen p) /\
  (status' <> PV_ERR_IO -> status' = status /\ p_raised p' = p_raised p) /\
  (p_raised p' = p_raised p \/ status' = PV_ERR_IO /\ exists n, p_raised p' = n :: p_raised p /\ n <> 0).
Proof.
  rewrite ui_cleanup_eq. destruct (h_guard held) as [guard |].
  2: { intros [= <- <-] [Hh Hm]. destruct (ui_left_ok held p) as (Hf & Ht & Hs & Hh' & Hm' & Hr). unfold as_before. cbn. rewrite Hh', Hm', Hh, Hm. split_and!; auto. }
  cbv zeta. set (q := ui_signal_guard_block _ _ _). intros E [Hg Hout].
  assert (Hq : p_handlers q = p_handlers p /\ p_raised q = p_raised p /\ p_files q = p_files p /\ p_terms q = p_terms p /\ p_screen q = p_screen p)
    by (unfold q, ui_signal_guard_block; by destruct (_ && _)). destruct Hq as (Hqh & Hqr & Hqf & Hqt & Hqs).
  destruct (ui_left_ok held q) as (Hf & Ht & Hs & Hh' & _ & Hr). rewrite (left_open_files _ _ _ Hqf), Hqt, Hqs, Hqr, Hqh in *.
  destruct (ui_signal_guard_restore _ _ _ _) as [restored r] eqn:Er. eapply ui_restore_ok in Er as (Hb & Hall & Hr' & Hf' & Ht' & Hs'); [| exact Hg | by rewrite Hh'].
  assert (Hbefore : restored = true -> as_before script p0 (set_p_interrupted r 0)) by exact Hb.
  destruct (Z.eqb_spec (p_interrupted q) 0) as [E0 | E0]; injection E as <- <-; cbn [p_files p_terms p_screen p_raised set_p_interrupted set_p_raised];
    rewrite ?Hf', ?Ht', ?Hs', ?Hr', ?Hf, ?Ht, ?Hs, ?Hr; split_and!; try done.
  - destruct restored; [auto |]. intros [? | Hc]; [done | by discriminate (Hall Hc)].
  - by destruct restored.
  - by left.
  - intros [? | Hc]; [done | exact (Hb (Hall Hc))].
  - right. split; [done |]. by eexists.
Qed.

(** ** The picker *)

(** Either nothing was done, or what was started was cleaned up, after a session or
    without one. *)
Lemma pick_cases script p vault s status selected p' screens s' :
  pv_ui_pick_internal script p vault s = (Some (status, selected, p', screens), s') ->
  ((status = PV_ERR_NOT_FOUND \/ status = PV_ERR_NOMEM) /\ selected = None /\ screens = [] /\ p' = p) \/
  exists started held p1, ui_start script p = (started, held, p1) /\
    ((started = false /\ selected = None /\ screens = [] /\ ui_cleanup script held PV_ERR_IO p1 = (status, p')) \/
     exists guard status0 held' p2, started = true /\ h_guard held = Some guard /\
       ui_session script guard held vault (v_record_count vault) p1 = Some (status0, selected, held', p2, screens) /\
       ui_cleanup script held' status0 p2 = (status, p')).
Proof.
  unfold pv_ui_pick_internal. split_if; [intros [= <- <- <- <- _]; left; auto |].
  rewrite bind_run. destruct (sodium_malloc s) as [[] s1]; cbn [negb]; [| intros [= <- <- <- <- _]; left; auto].
  destruct (ui_start script p) as [[started held] p1] eqn:Es. intros H. right. exists started, held, p1. split; [done |]. apply ui_start_ok in Es as (_ & _ & _ & _ & _ & _ & Hg).
  destruct started.
  - right. destruct Hg as (guard & Eg & _). rewrite Eg in H.
    destruct (ui_session script guard held vault (v_record_count vault) p1) as [[[[[st sel] held'] p2] scr] |] eqn:E; [| done].
    destruct (ui_cleanup script held' st p2) as [st' q] eqn:Ec. injection H as <- <- <- <- _. by exists guard, st, held', p2.
  - left. destruct (ui_cleanup script held PV_ERR_IO p1) as [st q] eqn:Ec. by injection H as <- <- <- <- _.
Qed.

Lemma ui_session_sound script guard held vault p status selected held' p' screens :
  ui_session script guard held vault (v_record_count vault) p = Some (status, selected, held', p', screens) ->
  status <> PV_ERR_STATE /\ Forall (shows vault) screens /\ (status = PV_OK -> exists i, selected = Some i /\ selection vault screens i) /\ (status <> PV_OK -> selected = None).
Proof.
  unfold ui_session. cbv zeta. split_if; [intros [= <- <- <- <- <-]; by split_and! |]. destruct (ui_signal_guard_install _ _ _ _) as [[] q]; cbn [negb];
    [| intros [= <- <- <- <- <-]; by split_and!]. split_if; [intros [= <- <- <- <- <-]; by split_and! |]. split_if; [intros [= <- <- <- <- <-]; by split_and! |].
  destruct (pick_loop _ _ _ _ _ _ _) as [[[[st sel] i] scr] |] eqn:E; [| done]. intros [= <- <- <- <- <-].
  apply pick_loop_sound in E as (Hst & Hs & Hok & Hno); [| by split; [constructor | vm_compute] | lia | constructor]. split_and!; [done | done | | done]. intros Hst'. by apply Hok.
Qed.

(** The status after the cleanup is the one before it or [PV_ERR_IO]. *)
Lemma ui_cleanup_status script held status p status' p' : ui_cleanup script held status p = (status', p') -> status' = status \/ status' = PV_ERR_IO.
Proof.
  rewrite ui_cleanup_eq. destruct (h_guard held); [| intros [= <- _]; by left]. cbv zeta. destruct (ui_signal_guard_restore _ _ _ _) as [[] q]; split_if; intros [= <- _]; auto.
Qed.



(** Every call succeeds, no signal arrives, and ncurses handles changes of the size
    of the terminal. *)
Definition ui_calm (turns : list ui_turn) : ui_script :=
  mk_ui_script 3 4 true true true true (fun _ => true) true true (fun n d => if n =? 28 then Ui_other 1 else d) (fun _ => true) true 0 true turns 0 true (fun _ => true) true.

(** The picker finds. On a working terminal, typing any printable search text
    that some live record matches and pressing Enter returns [PV_OK] and the first
    such record, in the order of the vault. *)
Theorem pick_finds_first rows query p vault s i : typable query -> s_malloc s 0%nat = true ->
  head (matching vault query 0 (v_records vault)) = Some i ->
  exists p' screens s', pv_ui_pick_internal (ui_calm (typed rows query)) p vault s = (Some (PV_OK, Some i, p', screens), s').
Proof.
  intros Hq Hm Hi. unfold pv_ui_pick_internal.
  assert (v_record_count vault <> 0).
  { pose proof (matching_length vault query 0 (v_records vault)). unfold v_record_count. destruct (matching vault query 0 (v_records vault)) as [| ? l]; [done |].
    rewrite zlen_cons in *. pose proof (zlen_nonneg l). lia. }
  rewrite (proj2 (Z.eqb_neq (v_record_count vault) 0)) by done. rewrite bind_run. unfold sodium_malloc. rewrite Hm. cbn -[pick_loop typed].
  destruct (pick_loop_typed vault rows query [] [] i Hq Hi) as (screens & E). change (ui_deliver 0 0) with 0. cbn -[pick_loop typed].
  rewrite E. cbn. unfold mret, M_ret. by eauto.
Qed.

(** ** Instances *)

Definition ui_example_process : ui_process :=
  mk_process (fun n => if n =? 1 then Ui_ignore else Ui_other 0) (fun _ => false) 0 [] [] 0 false.

(** The search for "ai" finds the record "mail". *)
Definition ui_example_run : option (pv_status * option nat * ui_process * list screen) * sys :=
  pv_ui_pick_internal (ui_calm (typed 24 (cstr "ai"))) ui_example_process example_vault example_sys.
Definition ui_example_after : ui_process := match fst ui_example_run with Some (_, _, p, _) => p | None => ui_example_process end.
Definition ui_example_screens : list screen := match fst ui_example_run with Some (_, _, _, l) => l | None => [] end.



Lemma pick_finds_first_witness : exists p' screens s',
  pv_ui_pick_internal (ui_calm (typed 24 (cstr "ai"))) ui_example_process example_vault example_sys = (Some (PV_OK, Some 0%nat, p', screens), s').
Proof.
  apply (pick_finds_first 24 (cstr "ai") ui_example_process example_vault example_sys 0%nat); [| reflexivity | by vm_compute].
  split; [repeat constructor; done | by vm_compute].
Defined.
