(* ===== verification/Process.v ===== *)
(** * Processes and the system calls they make

    The clipboard helper and the external selector run other programs: they fork,
    exchange messages and wait. A process is a computation [K]: every system call
    takes the next answer of a script and is recorded in a trace. An answer is the
    one of the C interface: the value returned, [errno], the bytes or numbers the
    call stores, and the signal that arrives meanwhile. A script that ends leaves
    the process waiting: the result is [None]. [fork] answers [0] in the child, so
    one definition describes both processes; a child ends by [_exit] or by
    becoming another program. *)

From S2P Require Import Prelude Status Util Posix.

(** ** Constants of Linux *)

Definition EINTR : Z := 4.
Definition EIO : Z := 5.
Definition ECHILD : Z := 10.
Definition EAGAIN : Z := 11.
Definition EPIPE : Z := 32.
Definition EPROTO : Z := 71.
Definition EOVERFLOW : Z := 75.
Definition INT_MAX : Z := 2147483647.

Definition SIGHUP : Z := 1.
Definition SIGINT : Z := 2.
Definition SIGKILL : Z := 9.
Definition SIGPIPE : Z := 13.
Definition SIGTERM : Z := 15.
Definition SIGCHLD : Z := 17.

Definition POLLIN : Z := 1.
Definition POLLOUT : Z := 4.
Definition POLLERR : Z := 8.
Definition POLLHUP : Z := 16.
Definition POLLNVAL : Z := 32.

Definition SIG_BLOCK : Z := 0.
Definition SIG_SETMASK : Z := 2.
Definition WNOHANG : Z := 1.
Definition F_DUPFD_CLOEXEC : Z := 1030.
Definition F_GETFD : Z := 1.
Definition F_SETFD : Z := 2.
Definition F_GETFL : Z := 3.
Definition F_SETFL : Z := 4.
Definition FD_CLOEXEC : Z := 1.
Definition O_NONBLOCK : Z := 2048.

(** ** Calls and answers *)

(** What a signal does: the default, the handler of the program, or what a
    previous [sigaction] reported. *)
Inductive sig_action := A_default | A_handler | A_saved (d : list Z).

Inductive call :=
| C_close (fd : Z)
| C_fcntl (fd cmd arg : Z)
| C_open (path : list Z)
| C_dup2 (from to : Z)
| C_pipe2 (flags : Z)
| C_socketpair (type : Z)
| C_close_range (first : Z)
| C_getrlimit
| C_setrlimit
| C_prctl (option arg : Z)
| C_umask (mask : Z)
| C_access (path : list Z)
| C_readlink (path : list Z) (capacity : Z)
| C_read (fd n : Z)
| C_recv (fd : Z)
| C_write (fd : Z) (data : list Z)
| C_poll (items : list (Z * Z)) (timeout : Z)
| C_sigaction (signal_number : Z) (action : sig_action)
| C_sigprocmask (how : Z) (set : list Z)
| C_sigpending
| C_sigtimedwait (set : list Z)
| C_fork
| C_setsid
| C_getpid
| C_getppid
| C_waitpid (pid options : Z)
| C_kill (pid signal_number : Z)
| C_pidfd_open (pid : Z)
| C_pidfd_send_signal (fd signal_number : Z)
| C_nanosleep (ms : Z)
| C_timerfd_create
| C_timerfd_settime (fd seconds : Z)
| C_sysconf
| C_calloc
| C_unlink (path : list Z)
| C_randombytes (n : Z)
| C_exec (path : list Z) (argv : list (list Z)) (envp : option (list (list Z))).

Record answer := mk_answer {
  a_ret : Z;           (** the value returned *)
  a_errno : positive;  (** [errno] when that is negative *)
  a_out : list Z;      (** the bytes or numbers stored *)
  a_signal : Z         (** a signal that arrives, [0] for none *)
}.

Definition event : Type := call * answer.

Record kst := mk_kst {
  k_answers : list answer;
  k_trace : list event;     (** the calls made so far, in order *)
  k_errno : Z;
  k_handled : list Z;       (** the signals with the handler of the program *)
  k_stop : bool             (** the flag that handler sets *)
}.

(** ** Computations *)

(** A computation returns, exits, or becomes another program. *)
Inductive outcome (A : Type) :=
| Returned (x : A)
| Exited (code : Z)
| Executed (path : list Z) (argv : list (list Z)) (envp : option (list (list Z))).
Arguments Returned {A}. Arguments Exited {A}. Arguments Executed {A}.

Definition K (A : Type) : Type := kst -> option (outcome A * kst).

#[global] Instance K_ret : MRet K := fun A x s => Some (Returned x, s).
#[global] Instance K_bind : MBind K := fun A B f m s =>
  match m s with
  | None => None
  | Some (Returned x, s') => f x s'
  | Some (Exited c, s') => Some (Exited c, s')
  | Some (Executed p a e, s') => Some (Executed p a e, s')
  end.

(** The state after a call. *)
Definition called (s : kst) (rest : list answer) (c : call) (a : answer) : kst :=
  mk_kst rest (k_trace s ++ [(c, a)]) (if a_ret a <? 0 then Z.pos (a_errno a) else k_errno s) (k_handled s)
    (k_stop s || existsb (Z.eqb (a_signal a)) (k_handled s)).

Definition ask (c : call) : K answer := fun s =>
  match k_answers s with
  | [] => None
  | a :: rest => Some (Returned a, called s rest c a)
  end.

(** A call used for its result alone. *)
Definition sys_ret (c : call) : K Z := a ← ask c; mret (a_ret a).
Definition sys_ok (c : call) : K bool := a ← ask c; mret (a_ret a =? 0).

(** Signed 32-bit and 64-bit integers; [pid_t] is 32 bits wide. *)
Definition i32 (x : Z) : Z := if u32 x <? 2 ^ 31 then u32 x else u32 x - 2 ^ 32.
Definition i64 (x : Z) : Z := if u64 x <? 2 ^ 63 then u64 x else u64 x - 2 ^ 64.

Definition fork : K Z := a ← ask C_fork; mret (i32 (a_ret a)).

Definition get_errno : K Z := fun s => Some (Returned (k_errno s), s).
Definition set_errno (e : Z) : K unit := fun s =>
  Some (Returned tt, mk_kst (k_answers s) (k_trace s) e (k_handled s) (k_stop s)).
Definition get_stop : K bool := fun s => Some (Returned (k_stop s), s).
Definition set_stop (b : bool) : K unit := fun s =>
  Some (Returned tt, mk_kst (k_answers s) (k_trace s) (k_errno s) (k_handled s) b).

Definition k_exit {A} (code : Z) : K A := fun s => Some (Exited code, s).

(** [execv] and [execve] return only when they fail. *)
Definition exec (path : list Z) (argv : list (list Z)) (envp : option (list (list Z))) : K unit := fun s =>
  match ask (C_exec path argv envp) s with
  | None => None
  | Some (Returned a, s') => if a_ret a <? 0 then Some (Returned tt, s') else Some (Executed path argv envp, s')
  | Some (Exited c, s') => Some (Exited c, s')
  | Some (Executed p v e, s') => Some (Executed p v e, s')
  end.

(** [sigaction]: what it reported before, or failure. *)
Definition sigaction (signal_number : Z) (action : sig_action) : K (option (list Z)) := fun s =>
  match ask (C_sigaction signal_number action) s with
  | Some (Returned a, s') =>
      if a_ret a =? 0 then
        let others := filter (fun n => n <> signal_number) (k_handled s') in
        let handled := match action with A_handler => signal_number :: others | _ => others end in
        Some (Returned (Some (a_out a)), mk_kst (k_answers s') (k_trace s') (k_errno s') handled (k_stop s'))
      else Some (Returned None, s')
  | Some (Exited c, s') => Some (Exited c, s')
  | Some (Executed p v e, s') => Some (Executed p v e, s')
  | None => None
  end.

(** A loop: the body returns the next state of the loop or its result. Every body
    used here makes a call, so the number of answers left bounds the turns. *)
Fixpoint iter_fuel {A B} (fuel : nat) (body : A -> K (A + B)) (a : A) : K B := fun s =>
  match fuel with
  | O => None
  | S fuel =>
      match body a s with
      | None => None
      | Some (Returned (inl a'), s') => iter_fuel fuel body a' s'
      | Some (Returned (inr b), s') => Some (Returned b, s')
      | Some (Exited c, s') => Some (Exited c, s')
      | Some (Executed p v e, s') => Some (Executed p v e, s')
      end
  end.

Definition iter {A B} (body : A -> K (A + B)) (a : A) : K B := fun s =>
  iter_fuel (S (length (k_answers s))) body a s.

(** A call repeated while it is interrupted. *)
Definition retry (c : call) : K answer :=
  iter (fun _ : unit =>
    a ← ask c;
    errno ← get_errno;
    mret (if (a_ret a <? 0) && (errno =? EINTR) then inl tt else inr a)) tt.

(** A call repeated while it is interrupted and no stop was requested. *)
Definition retry_unless_stopped (c : call) : K answer :=
  iter (fun _ : unit =>
    a ← ask c;
    errno ← get_errno;
    stop ← get_stop;
    mret (if (a_ret a <? 0) && (errno =? EINTR) && negb stop then inl tt else inr a)) tt.

(** ** Environments *)

(** The value of the first entry [name=value]. *)
Definition environ_get (environ : list (list Z)) (name : list Z) : option (list Z) :=
  match filter (fun e => bytes_eqb (zsub e 0 (zlen name + 1)) (name ++ [61]) = true) environ with
  | [] => None
  | e :: _ => Some (drop (Z.to_nat (zlen name + 1)) e)
  end.

(** ** Reasoning *)

Lemma i32_range x : - 2 ^ 31 <= i32 x <= INT_MAX.
Proof. unfold i32, u32, INT_MAX. pose proof (Z.mod_pos_bound x 4294967296). destruct (Z.ltb_spec (x mod 4294967296) (2 ^ 31)); lia. Qed.

Lemma i32_small x : 0 <= x <= INT_MAX -> i32 x = x.
Proof. intros H. unfold i32, INT_MAX in *. rewrite u32_small by (unfold UINT32_MAX; lia). rewrite (proj2 (Z.ltb_lt x (2 ^ 31))); lia. Qed.

Lemma i64_small x : 0 <= x <= INT64_MAX -> i64 x = x.
Proof. intros H. unfold i64, INT64_MAX in *. rewrite u64_small by (unfold UINT64_MAX; lia). rewrite (proj2 (Z.ltb_lt x (2 ^ 63))); lia. Qed.

(** Every result of [m] from [s] satisfies [Q]. *)
Definition kwp {A} (m : K A) (Q : outcome A -> kst -> Prop) (s : kst) : Prop :=
  forall r s', m s = Some (r, s') -> Q r s'.

(** The continuation of a bind. *)
Definition then_ {A B} (f : A -> kst -> Prop) (Q : outcome B -> kst -> Prop) (r : outcome A) (s : kst) : Prop :=
  match r with
  | Returned x => f x s
  | Exited c => Q (Exited c) s
  | Executed p v e => Q (Executed p v e) s
  end.

Lemma kwp_ret {A} (x : A) Q s : Q (Returned x) s -> kwp (mret x) Q s.
Proof. intros H r s' [= <- <-]. done. Qed.

Lemma kwp_bind {A B} (m : K A) (f : A -> K B) Q s : kwp m (then_ (fun x => kwp (f x) Q) Q) s -> kwp (m ≫= f) Q s.
Proof.
  intros H r s' E. unfold mbind, K_bind in E. destruct (m s) as [[[x | c | p v e] s1] |] eqn:Em; [| | | done];
    specialize (H _ _ Em); cbn in H; [by apply H | by simplify_eq | by simplify_eq].
Qed.

Lemma kwp_mono {A} (m : K A) (Q Q' : outcome A -> kst -> Prop) s :
  kwp m Q s -> (forall r s', Q r s' -> Q' r s') -> kwp m Q' s.
Proof. intros H HQ r s' E. by apply HQ, H. Qed.

Lemma kwp_ask c Q s : (forall a rest, Q (Returned a) (called s rest c a)) -> kwp (ask c) Q s.
Proof. intros H r s'. unfold ask. destruct (k_answers s) as [| a rest]; [done |]. intros [= <- <-]. done. Qed.

Lemma kwp_ret_call c Q s : (forall a rest, Q (Returned (a_ret a)) (called s rest c a)) -> kwp (sys_ret c) Q s.
Proof. intros H. apply kwp_bind, kwp_ask. intros a rest. cbn. by apply kwp_ret. Qed.

Lemma kwp_ok_call c Q s : (forall a rest, Q (Returned (a_ret a =? 0)) (called s rest c a)) -> kwp (sys_ok c) Q s.
Proof. intros H. apply kwp_bind, kwp_ask. intros a rest. cbn. by apply kwp_ret. Qed.

Lemma kwp_get_errno Q s : Q (Returned (k_errno s)) s -> kwp get_errno Q s.
Proof. intros H r s' [= <- <-]. done. Qed.

Lemma kwp_get_stop Q s : Q (Returned (k_stop s)) s -> kwp get_stop Q s.
Proof. intros H r s' [= <- <-]. done. Qed.

Lemma kwp_exit {A} c (Q : outcome A -> kst -> Prop) s : Q (Exited c) s -> kwp (k_exit c) Q s.
Proof. intros H r s' [= <- <-]. done. Qed.

Lemma kwp_iter {A B} (body : A -> K (A + B)) (I : A -> kst -> Prop) (Q : outcome B -> kst -> Prop) a s :
  (forall a s, I a s -> kwp (body a) (then_ (fun r s' => match r with inl a' => I a' s' | inr b => Q (Returned b) s' end) Q) s) ->
  I a s -> kwp (iter body a) Q s.
Proof.
  intros Hbody. unfold kwp at 1. unfold iter. generalize (S (length (k_answers s))). intros fuel. revert a s.
  induction fuel as [| fuel IH]; intros a s HI r s' E; [done |]. cbn [iter_fuel] in E.
  destruct (body a s) as [[[[a' | b] | c | p v e] s1] |] eqn:Eb; [| | | | done]; specialize (Hbody a s HI _ _ Eb); cbn in Hbody.
  - exact (IH _ _ Hbody _ _ E).
  - by simplify_eq.
  - by simplify_eq.
  - by simplify_eq.
Qed.

(** The bound on the turns is enough: when every turn but the last uses an answer,
    a loop takes a turn and goes on. *)
Definition progresses {A B} (body : A -> K (A + B)) : Prop :=
  forall a s a' s', body a s = Some (Returned (inl a'), s') -> (length (k_answers s') < length (k_answers s))%nat.

Lemma iter_fuel_enough {A B} (body : A -> K (A + B)) a s n m : progresses body ->
  (length (k_answers s) < n)%nat -> (length (k_answers s) < m)%nat -> iter_fuel n body a s = iter_fuel m body a s.
Proof.
  intros Hp. revert m a s. induction n as [| n IH]; intros m a s Hn Hm; [lia |]. destruct m as [| m]; [lia |]. cbn [iter_fuel].
  destruct (body a s) as [[[[a' | b] | c | p v e] s1] |] eqn:Eb; try done. pose proof (Hp a _ _ _ Eb). apply IH; lia.
Qed.

Lemma iter_unfold {A B} (body : A -> K (A + B)) a s : progresses body ->
  iter body a s = (body a ≫= fun r => match r with inl a' => iter body a' | inr b => mret b end) s.
Proof.
  intros Hp. unfold iter at 1. unfold mbind, K_bind. cbn [iter_fuel]. destruct (body a s) as [[[[a' | b] | c | p v e] s1] |] eqn:Eb; try done.
  pose proof (Hp a _ _ _ Eb). unfold iter. apply iter_fuel_enough; [done | lia | lia].
Qed.
