(* ===== verification/ProcessFacts.v ===== *)
(** * Reasoning about processes

    A reader of a trace decides which events matter ([Watch]); the events that
    matter, in order, are the log. A computation that makes no such call keeps the
    log, which a tactic proves along its structure. [returns] is about results that
    are returned: a process that exits or becomes another program has no claim. *)

From S2P Require Import Prelude Status Util Posix Process.

Definition interrupted (a : answer) : bool := (a_ret a <? 0) && (Z.pos (a_errno a) =? EINTR).

Lemma interrupted_neg a : interrupted a = true -> a_ret a < 0.
Proof. unfold interrupted. destruct (Z.ltb_spec (a_ret a) 0); [done | discriminate]. Qed.

Class Watch (E : Type) := notable : event -> option E.

Section log.
Context {entry : Type} `{W : Watch entry}.

Definition log (s : kst) : list entry := omap notable (k_trace s).

Lemma log_called s rest c a : log (called s rest c a) = log s ++ match notable (c, a) with Some e => [e] | None => [] end.
Proof. unfold log, called. cbn [k_trace]. rewrite omap_app. cbn [omap list_omap]. by destruct (notable (c, a)). Qed.

(** Nothing is added to the log. *)
Definition keeps {A} (m : K A) : Prop := forall s, kwp m (fun _ s' => log s' = log s) s.

Definition dull (c : call) : Prop := forall a, notable (c, a) = None.

Lemma keeps_ret {A} (x : A) : keeps (mret x).
Proof. intros s. by apply kwp_ret. Qed.

Lemma keeps_bind {A B} (m : K A) (f : A -> K B) : keeps m -> (forall x, keeps (f x)) -> keeps (m ≫= f).
Proof.
  intros Hm Hf s. apply kwp_bind. eapply kwp_mono; [apply Hm |]. intros [x | c | p v e] s' Hs'; cbn; [| done | done].
  eapply kwp_mono; [apply Hf |]. cbn. intros _ s'' ->. done.
Qed.

Lemma keeps_ask c : dull c -> keeps (ask c).
Proof. intros Hc s. apply kwp_ask. intros a rest. by rewrite log_called, Hc, app_nil_r. Qed.

Lemma keeps_ret_call c : dull c -> keeps (sys_ret c).
Proof. intros. apply keeps_bind; [by apply keeps_ask | intros; apply keeps_ret]. Qed.

Lemma keeps_ok_call c : dull c -> keeps (sys_ok c).
Proof. intros. apply keeps_bind; [by apply keeps_ask | intros; apply keeps_ret]. Qed.

Lemma keeps_get_errno : keeps get_errno.
Proof. intros s. by apply kwp_get_errno. Qed.

Lemma keeps_set_errno e : keeps (set_errno e).
Proof. intros s r s' [= <- <-]. done. Qed.

Lemma keeps_get_stop : keeps get_stop.
Proof. intros s. by apply kwp_get_stop. Qed.

Lemma keeps_set_stop b : keeps (set_stop b).
Proof. intros s r s' [= <- <-]. done. Qed.

Lemma keeps_exit {A} c : keeps (@k_exit A c).
Proof. intros s. by apply kwp_exit. Qed.

Lemma keeps_sigaction n d : dull (C_sigaction n d) -> keeps (sigaction n d).
Proof.
  intros Hd s r s' E. unfold sigaction in E. assert (Hk : keeps (ask (C_sigaction n d))) by by apply keeps_ask.
  destruct (ask (C_sigaction n d) s) as [[[a | c | p v e] s1] |] eqn:Ea; [| | | done]; specialize (Hk s _ _ Ea); cbn in Hk; simplify_eq; [| done | done].
  destruct (a_ret a =? 0); by simplify_eq.
Qed.

Lemma keeps_exec p v e : dull (C_exec p v e) -> keeps (exec p v e).
Proof.
  intros Hd s r s' E. unfold exec in E. assert (Hk : keeps (ask (C_exec p v e))) by by apply keeps_ask.
  destruct (ask (C_exec p v e) s) as [[[a | c | p' v' e'] s1] |] eqn:Ea; [| | | done]; specialize (Hk s _ _ Ea); cbn in Hk; simplify_eq; [| done | done].
  destruct (a_ret a <? 0); by simplify_eq.
Qed.

Lemma keeps_iter {A B} (body : A -> K (A + B)) a : (forall a, keeps (body a)) -> keeps (iter body a).
Proof.
  intros Hb s. apply kwp_iter with (I := fun _ s' => log s' = log s); [| done].
  intros a' s' Hs'. eapply kwp_mono; [apply Hb |]. intros [[|] | |] s'' Hs''; cbn; congruence.
Qed.

Lemma keeps_retry c : dull c -> keeps (retry c).
Proof. intros Hc. apply keeps_iter. intros _. apply keeps_bind; [by apply keeps_ask |]. intros a. apply keeps_bind; [apply keeps_get_errno |]. intros e. apply keeps_ret. Qed.

Lemma keeps_retry_stop c : dull c -> keeps (retry_unless_stopped c).
Proof.
  intros Hc. apply keeps_iter. intros _. apply keeps_bind; [by apply keeps_ask |]. intros a. apply keeps_bind; [apply keeps_get_errno |]. intros e.
  apply keeps_bind; [apply keeps_get_stop |]. intros. apply keeps_ret.
Qed.

(** Uses what a computation keeps. *)
Lemma kwp_keeps {A} (m : K A) (Q : outcome A -> kst -> Prop) s : keeps m -> (forall r s', log s' = log s -> Q r s') -> kwp m Q s.
Proof. intros Hk HQ. eapply kwp_mono; [apply Hk |]. cbn. auto. Qed.

Lemma kwp_keeps_bind {A B} (m : K A) (f : A -> K B) (Q : outcome B -> kst -> Prop) s : keeps m ->
  (forall c s', log s' = log s -> Q (Exited c) s') -> (forall p v e s', log s' = log s -> Q (Executed p v e) s') ->
  (forall x s', log s' = log s -> kwp (f x) Q s') -> kwp (m ≫= f) Q s.
Proof. intros Hk Hx He Hf. apply kwp_bind, kwp_keeps; [done |]. intros [x | c | p v e] s' Hs'; cbn; auto. Qed.

(** An interrupted call adds nothing and is made again; the last one may count. *)
Lemma kwp_retry c (Q : outcome answer -> kst -> Prop) s : (forall a, interrupted a = true -> notable (c, a) = None) ->
  (forall a rest s', log s' = log s -> interrupted a = false -> Q (Returned a) (called s' rest c a)) -> kwp (retry c) Q s.
Proof.
  intros Hc HQ. apply kwp_iter with (I := fun _ s' => log s' = log s); [| done]. intros _ s' Hs'.
  apply kwp_bind, kwp_ask. intros a rest. cbn [then_]. apply kwp_bind, kwp_get_errno. cbn [then_]. apply kwp_ret. cbn [then_].
  change (k_errno (called s' rest c a)) with (if a_ret a <? 0 then Z.pos (a_errno a) else k_errno s').
  assert (Hi : (a_ret a <? 0) && ((if a_ret a <? 0 then Z.pos (a_errno a) else k_errno s') =? EINTR) = interrupted a)
    by (unfold interrupted; by destruct (a_ret a <? 0)).
  rewrite Hi. destruct (interrupted a) eqn:Ei; [| by apply HQ]. by rewrite log_called, Hc, app_nil_r.
Qed.

Lemma kwp_retry_stop c (Q : outcome answer -> kst -> Prop) s : (forall a, a_ret a < 0 -> notable (c, a) = None) ->
  (forall a rest s', log s' = log s -> Q (Returned a) (called s' rest c a)) -> kwp (retry_unless_stopped c) Q s.
Proof.
  intros Hc HQ. apply kwp_iter with (I := fun _ s' => log s' = log s); [| done]. intros _ s' Hs'.
  apply kwp_bind, kwp_ask. intros a rest. cbn [then_]. apply kwp_bind, kwp_get_errno. cbn [then_]. apply kwp_bind, kwp_get_stop. cbn [then_]. apply kwp_ret. cbn [then_].
  match goal with |- context [if ?b then inl tt else _] => destruct b eqn:Eb end; [| by apply HQ].
  rewrite log_called, Hc, app_nil_r; [done |]. destruct (Z.ltb_spec (a_ret a) 0); [done | discriminate].
Qed.

(** What holds of a result that is returned; a process that ends has no claim. *)
Definition returns {A} (Q : A -> kst -> Prop) (r : outcome A) (s : kst) : Prop :=
  match r with Returned x => Q x s | _ => True end.

Lemma returns_bind {A B} (m : K A) (f : A -> K B) (P : A -> kst -> Prop) (Q : B -> kst -> Prop) s :
  kwp m (returns P) s -> (forall x s', P x s' -> kwp (f x) (returns Q) s') -> kwp (m ≫= f) (returns Q) s.
Proof. intros Hm Hf. apply kwp_bind. eapply kwp_mono; [exact Hm |]. intros [x | c | p v e] s' H; cbn in *; [by apply Hf | done | done]. Qed.

Lemma returns_mono {A} (m : K A) (P Q : A -> kst -> Prop) s :
  kwp m (returns P) s -> (forall x s', P x s' -> Q x s') -> kwp m (returns Q) s.
Proof. intros Hm HQ. eapply kwp_mono; [exact Hm |]. intros [x | c | p v e] s' H; cbn in *; auto. Qed.

Lemma returns_keeps {A} (m : K A) s : keeps m -> kwp m (returns (fun _ s' => log s' = log s)) s.
Proof. intros Hk. eapply kwp_mono; [apply Hk |]. by intros [x | c | p v e] s' H. Qed.

Lemma returns_ret {A} (x : A) (Q : A -> kst -> Prop) s : Q x s -> kwp (mret x) (returns Q) s.
Proof. intros H. by apply kwp_ret. Qed.

Lemma returns_ask c (Q : answer -> kst -> Prop) s : (forall a rest, Q a (called s rest c a)) -> kwp (ask c) (returns Q) s.
Proof. intros H. by apply kwp_ask. Qed.

Lemma returns_get_errno (Q : Z -> kst -> Prop) s : Q (k_errno s) s -> kwp get_errno (returns Q) s.
Proof. intros H. by apply kwp_get_errno. Qed.

(** A result that does not depend on what happened. *)
Lemma returns_exit {A} c (Q : A -> kst -> Prop) s : kwp (k_exit c) (returns Q) s.
Proof. by apply kwp_exit. Qed.

(** What the last of the repeated calls adds. *)
Definition entry_of (c : call) (a : answer) : list entry := match notable (c, a) with Some e => [e] | None => [] end.

Lemma returns_retry c s : (forall a, interrupted a = true -> notable (c, a) = None) ->
  kwp (retry c) (returns (fun a s' => interrupted a = false /\ log s' = log s ++ entry_of c a /\ (a_ret a < 0 -> k_errno s' = Z.pos (a_errno a)))) s.
Proof.
  intros Hc. eapply kwp_retry; [exact Hc |]. intros a rest s' Hs' Ha. cbn [returns]. split_and!; [done | by rewrite log_called, Hs' |].
  cbn. intros H. by rewrite (proj2 (Z.ltb_lt _ _) H).
Qed.

Lemma returns_retry_stop c s : (forall a, a_ret a < 0 -> notable (c, a) = None) ->
  kwp (retry_unless_stopped c) (returns (fun a s' => log s' = log s ++ entry_of c a)) s.
Proof. intros Hc. eapply kwp_retry_stop; [exact Hc |]. intros a rest s' Hs'. cbn [returns]. by rewrite log_called, Hs'. Qed.

Lemma returns_ret_call c s : kwp (sys_ret c) (returns (fun r s' => exists a, r = a_ret a /\ log s' = log s ++ entry_of c a)) s.
Proof. apply kwp_ret_call. intros a rest. cbn [returns]. exists a. by rewrite log_called. Qed.

Lemma returns_ok_call c s : kwp (sys_ok c) (returns (fun r s' => exists a, r = (a_ret a =? 0) /\ log s' = log s ++ entry_of c a)) s.
Proof. apply kwp_ok_call. intros a rest. cbn [returns]. exists a. by rewrite log_called. Qed.

Lemma returns_true {A} (m : K A) s : kwp m (returns (fun _ _ => True)) s.
Proof. intros [x | c | p v e] s' _; done. Qed.

End log.

Create HintDb clip.
#[export] Hint Resolve keeps_ret keeps_get_errno keeps_set_errno keeps_get_stop keeps_set_stop keeps_exit : clip.

(** Proves that a computation keeps the log, following its structure. *)
Ltac keep :=
  repeat lazymatch goal with
    | |- keeps (mret _) => apply keeps_ret
    | |- keeps (_ ≫= _) => apply keeps_bind; [| intros]
    | |- keeps (ask _) => apply keeps_ask; intros ?; reflexivity
    | |- keeps (sys_ret _) => apply keeps_ret_call; intros ?; reflexivity
    | |- keeps (sys_ok _) => apply keeps_ok_call; intros ?; reflexivity
    | |- keeps (retry _) => apply keeps_retry; intros ?; reflexivity
    | |- keeps (retry_unless_stopped _) => apply keeps_retry_stop; intros ?; reflexivity
    | |- keeps (sigaction _ _) => apply keeps_sigaction; intros ?; reflexivity
    | |- keeps (exec _ _ _) => apply keeps_exec; intros ?; reflexivity
    | |- keeps (iter _ _) => apply keeps_iter; intros
    | |- keeps (if ?b then _ else _) => destruct b
    | |- keeps (match ?x with _ => _ end) => destruct x
    | |- keeps (let _ := _ in _) => cbv zeta
    | |- keeps _ => solve [eauto 2 with clip]
    end.

(** Steps over a computation that keeps the log; the goal then speaks of the new
    state. *)
Tactic Notation "kstep" simple_intropattern(x) simple_intropattern(s') :=
  eapply returns_bind; [apply returns_keeps; solve [keep] |];
  let H := fresh "H" in intros x s' H; cbv beta in H; rewrite <- H; clear H.

Tactic Notation "kkeep" simple_intropattern(x) simple_intropattern(s') simple_intropattern(H) :=
  eapply returns_bind; [apply returns_keeps; solve [keep] |]; intros x s' H; cbv beta in H.

(** Ends with a result. *)
Ltac kret := apply returns_ret; auto.

(** ** The programs a process becomes *)

(** Whatever program [m] becomes satisfies [P]. *)
Definition execs {A} (P : list Z -> list (list Z) -> option (list (list Z)) -> Prop) (m : K A) : Prop :=
  forall s, kwp m (fun r _ => match r with Executed p v e => P p v e | _ => True end) s.

Section execs.
Context (P : list Z -> list (list Z) -> option (list (list Z)) -> Prop).

Lemma execs_ret {A} (x : A) : execs P (mret x).
Proof. intros s. by apply kwp_ret. Qed.

Lemma execs_bind {A B} (m : K A) (f : A -> K B) : execs P m -> (forall x, execs P (f x)) -> execs P (m ≫= f).
Proof.
  intros Hm Hf s. apply kwp_bind. eapply kwp_mono; [apply Hm |]. intros [x | c | p v e] s' H; cbn in *; [| done | done]. apply Hf.
Qed.

(** When the continuation runs only on some results. *)
Lemma execs_bind_if {A B} (m : K A) (f : A -> K B) (R : A -> Prop) : execs P m -> (forall s, kwp m (returns (fun x _ => R x)) s) ->
  (forall x, R x -> execs P (f x)) -> execs P (m ≫= f).
Proof.
  intros Hm HR Hf s. apply kwp_bind. intros [x | c | p v e] s' E; cbn; [| done |].
  - apply Hf. exact (HR s _ _ E).
  - exact (Hm s _ _ E).
Qed.

Lemma execs_ask c : execs P (ask c).
Proof. intros s. by apply kwp_ask. Qed.

Lemma execs_get_errno : execs P get_errno.
Proof. intros s. by apply kwp_get_errno. Qed.

Lemma execs_get_stop : execs P get_stop.
Proof. intros s. by apply kwp_get_stop. Qed.

Lemma execs_set_errno e : execs P (set_errno e).
Proof. intros s r s' [= <- <-]. done. Qed.

Lemma execs_set_stop b : execs P (set_stop b).
Proof. intros s r s' [= <- <-]. done. Qed.

Lemma execs_exit {A} c : execs P (@k_exit A c).
Proof. intros s. by apply kwp_exit. Qed.

Lemma execs_sigaction n d : execs P (sigaction n d).
Proof.
  intros s r s' E. unfold sigaction, ask in E. destruct (k_answers s) as [| a rest]; [done |]. cbn in E. destruct (a_ret a =? 0); by simplify_eq.
Qed.

Lemma execs_exec p v e : P p v e -> execs P (exec p v e).
Proof. intros HP s r s' E. unfold exec, ask in E. destruct (k_answers s) as [| a rest]; [done |]. cbn in E. destruct (a_ret a <? 0); by simplify_eq. Qed.

Lemma execs_iter {A B} (body : A -> K (A + B)) a : (forall a, execs P (body a)) -> execs P (iter body a).
Proof.
  intros Hb s. apply kwp_iter with (I := fun _ _ => True); [| done]. intros a' s' _. eapply kwp_mono; [apply Hb |].
  intros [[|] | |] s'' H; cbn; auto.
Qed.

End execs.

#[export] Hint Resolve execs_ret execs_ask execs_get_errno execs_get_stop execs_set_errno execs_set_stop execs_exit execs_sigaction : clip.

Ltac head_of t := lazymatch t with ?f _ => head_of f | _ => t end.

(** Follows the structure of a computation and unfolds its functions. *)
Ltac no_exec :=
  repeat lazymatch goal with
    | |- execs _ (_ ≫= _) => apply execs_bind; [| intros]
    | |- execs _ (iter _ _) => apply execs_iter; intros
    | |- execs _ (exec _ _ _) => apply execs_exec
    | |- execs _ (sigaction _ _) => apply execs_sigaction
    | |- execs _ (if ?b then _ else _) => destruct b
    | |- execs _ (match ?x with _ => _ end) => destruct x
    | |- execs _ (let _ := _ in _) => cbv zeta
    | |- execs _ ?m => first [solve [auto 2 with clip] | let f := head_of m in progress unfold f]
    end.

(** ** Results that are reached *)

(** The answers left, in a process without handlers of its own. *)
Definition awaits (s : kst) (answers : list answer) : Prop := k_answers s = answers /\ k_handled s = [] /\ k_stop s = false.

(** The computation returns [x] and leaves the answers [rest]. *)
Definition runs {A} (m : K A) (s : kst) (x : A) (rest : list answer) : Prop := exists s', m s = Some (Returned x, s') /\ awaits s' rest.

Lemma runs_ret {A} (x : A) s rest : awaits s rest -> runs (mret x) s x rest.
Proof. intros H. by exists s. Qed.

Lemma runs_bind {A B} (m : K A) (f : A -> K B) s x rest y rest' : runs m s x rest ->
  (forall s', awaits s' rest -> runs (f x) s' y rest') -> runs (m ≫= f) s y rest'.
Proof. intros (s1 & E & H1) Hf. destruct (Hf s1 H1) as (s2 & E2 & H2). exists s2. split; [| done]. unfold mbind, K_bind. by rewrite E. Qed.

Lemma runs_ask c s a rest : awaits s (a :: rest) -> runs (ask c) s a rest.
Proof.
  intros (Ha & Hh & Hs). unfold runs, ask. rewrite Ha. eexists. split; [done |]. unfold awaits, called. cbn. rewrite Hh, Hs. done.
Qed.

Lemma runs_errno {B} (f : Z -> K B) s rest y rest' : awaits s rest -> (forall e, runs (f e) s y rest') -> runs (get_errno ≫= f) s y rest'.
Proof. intros H Hf. exact (Hf (k_errno s)). Qed.

Lemma runs_set_errno e s rest : awaits s rest -> runs (set_errno e) s tt rest.
Proof. intros H. eexists. split; [done |]. done. Qed.

(** *** Loops *)

Definition shrinks {A} (m : K A) : Prop := forall s r s', m s = Some (r, s') -> (length (k_answers s') <= length (k_answers s))%nat.

Lemma shrinks_ask c : shrinks (ask c).
Proof. intros s r s'. unfold ask. destruct (k_answers s) as [| a rest]; [done |]. intros [= <- <-]. cbn. lia. Qed.

Lemma shrinks_bind {A B} (m : K A) (f : A -> K B) : shrinks m -> (forall x, shrinks (f x)) -> shrinks (m ≫= f).
Proof.
  intros Hm Hf s r s' E. unfold mbind, K_bind in E. destruct (m s) as [[[x | c | p v e] s1] |] eqn:Em; [| | | done]; apply Hm in Em.
  - apply Hf in E. lia.
  - by simplify_eq.
  - by simplify_eq.
Qed.

Lemma shrinks_iter {A B} (body : A -> K (A + B)) a : (forall a, shrinks (body a)) -> shrinks (iter body a).
Proof.
  intros Hb s r s'. unfold iter. generalize (S (length (k_answers s))). intros n. revert a s. induction n as [| n IH]; intros a s E; [done |]. cbn [iter_fuel] in E.
  destruct (body a s) as [[[[a' | b] | c | p v e] s1] |] eqn:Eb; [| | | | done]; apply Hb in Eb; [apply IH in E; lia | | |]; by simplify_eq.
Qed.

Lemma shrinks_retry c : shrinks (retry c).
Proof.
  apply shrinks_iter. intros _. apply shrinks_bind; [apply shrinks_ask |]. intros a s r s' [= _ <-]. done.
Qed.

Lemma runs_iter {A B} (body : A -> K (A + B)) a s x rest : progresses body ->
  runs (body a ≫= fun r => match r with inl a' => iter body a' | inr b => mret b end) s x rest -> runs (iter body a) s x rest.
Proof. intros Hp (s' & E & H). exists s'. by rewrite iter_unfold. Qed.

Lemma retry_progresses c : progresses (fun _ : unit =>
  a ← ask c; errno ← get_errno; mret (M := K) (if (a_ret a <? 0) && (errno =? EINTR) then inl tt else inr a)).
Proof. intros u s u' s' E. unfold mbind, K_bind, ask in E. destruct (k_answers s); [done |]. injection E as _ <-. cbn. lia. Qed.

Lemma retry_stop_progresses c : progresses (fun _ : unit =>
  a ← ask c; errno ← get_errno; stop ← get_stop; mret (M := K) (if (a_ret a <? 0) && (errno =? EINTR) && negb stop then inl tt else inr a)).
Proof. intros u s u' s' E. unfold mbind, K_bind, ask in E. destruct (k_answers s); [done |]. injection E as _ <-. cbn. lia. Qed.

Lemma runs_retry c s a rest : awaits s (a :: rest) -> 0 <= a_ret a -> runs (retry c) s a rest.
Proof.
  intros Hs Ha. apply runs_iter; [apply retry_progresses |]. eapply runs_bind with (x := inr a); [| intros s' H'; by apply runs_ret].
  eapply runs_bind; [by apply runs_ask |]. intros s' H'. eapply runs_errno; [exact H' |]. intros e. rewrite (proj2 (Z.ltb_ge (a_ret a) 0)) by lia. by apply runs_ret.
Qed.

Lemma runs_retry_stop c s a rest : awaits s (a :: rest) -> 0 <= a_ret a -> runs (retry_unless_stopped c) s a rest.
Proof.
  intros Hs Ha. apply runs_iter; [apply retry_stop_progresses |]. eapply runs_bind with (x := inr a); [| intros s' H'; by apply runs_ret].
  eapply runs_bind; [by apply runs_ask |]. intros s' H'. eapply runs_errno; [exact H' |]. intros e. rewrite (proj2 (Z.ltb_ge (a_ret a) 0)) by lia.
  eapply runs_bind with (x := false); [eexists; split; [unfold get_stop; by destruct H' as (_ & _ & ->) | exact H'] |]. intros s'' H''. by apply runs_ret.
Qed.
