(* ===== verification/Clipboard.v ===== *)
(** * The clipboard helper

    [src/clipboard.c]. The command that copies a secret starts a detached worker
    before it asks for the password ([pv_clipboard_prepare]); the worker becomes
    the helper program, which starts the owner of the clipboard ([xclip]), tells
    that it is ready, and ends the owner after a time. The secret goes through a
    pipe from the command to the owner ([pv_clipboard_send]); the messages about it
    go through a socket.

    The experimental Wayland backend is not part of the program that is installed
    (the source refuses to compile it there) and is left out. [sigemptyset],
    [sigaddset], [sigdelset] and [sigismember] do not fail on valid arguments. *)

From S2P Require Import Prelude Status Util Posix Config Process.

Definition PV_CLIP_MAX_TTL_SECONDS : Z := 86400.
Definition PV_CLIP_SETUP_MAGIC : Z := 0x50435631.
Definition PV_CLIP_SETUP_TIMEOUT_MS : Z := 5000.
Definition PV_CLIP_OWNER_GRACE_MS : Z := 250.
Definition PV_CLIP_FALLBACK_POLL_MS : Z := 100.
Definition PV_CLIP_DATA_FD : Z := 3.
Definition PV_CLIP_CONTROL_FD : Z := 4.
Definition PV_CLIP_SETUP_FD : Z := 5.
Definition PV_XCLIP_PATH : list Z := cstr "/usr/bin/xclip".

Definition PV_CLIP_MSG_START_TEXT : Z := 1.
Definition PV_CLIP_MSG_READY : Z := 2.
Definition PV_CLIP_MSG_DONE : Z := 3.
Definition PV_CLIP_MSG_FAILED : Z := 4.
Definition PV_CLIP_MSG_ACCEPTED : Z := 5.
Definition PV_CLIP_MSG_START_BINARY : Z := 6.

Inductive pv_clip_backend := PV_CLIP_BACKEND_NONE | PV_CLIP_BACKEND_X11.

(** ** Calls *)

(** The new value of the variable. *)
Definition close_if_open (fd : Z) : K Z :=
  if 0 <=? fd then
    saved_errno ← get_errno;
    _ ← ask (C_close fd);
    _ ← set_errno saved_errno;
    mret (-1)
  else mret fd.

Definition set_cloexec (fd : Z) : K Z :=
  flags ← sys_ret (C_fcntl fd F_GETFD 0);
  if flags <? 0 then mret (-1) else sys_ret (C_fcntl fd F_SETFD (Z.lor flags FD_CLOEXEC)).

Definition set_nonblocking (fd : Z) : K Z :=
  flags ← sys_ret (C_fcntl fd F_GETFL 0);
  if flags <? 0 then mret (-1) else sys_ret (C_fcntl fd F_SETFL (Z.lor flags O_NONBLOCK)).

Definition clear_nonblocking (fd : Z) : K Z :=
  flags ← sys_ret (C_fcntl fd F_GETFL 0);
  if flags <? 0 then mret (-1) else sys_ret (C_fcntl fd F_SETFL (Z.land flags (Z.lnot O_NONBLOCK))).

Definition waitpid_nointr (pid options : Z) : K Z :=
  a ← retry (C_waitpid pid options);
  if INT_MAX <? a_ret a then _ ← set_errno EOVERFLOW; mret (-1) else mret (a_ret a).

(** Success. *)
Definition write_all (fd : Z) (buffer : list Z) : K bool :=
  iter (fun rest =>
    if zlen rest =? 0 then mret (inr true) else
    a ← ask (C_write fd rest);
    errno ← get_errno;
    if a_ret a <? 0 then mret (if errno =? EINTR then inl rest else inr false) else
    if a_ret a =? 0 then _ ← set_errno EIO; mret (inr false) else
    mret (inl (drop (Z.to_nat (a_ret a)) rest))) buffer.

(** The bytes read. *)
Definition read_all (fd length : Z) : K (option (list Z)) :=
  iter (fun got =>
    if length <=? zlen got then mret (inr (Some got)) else
    a ← ask (C_read fd (length - zlen got));
    errno ← get_errno;
    if a_ret a <? 0 then mret (if errno =? EINTR then inl got else inr None) else
    if a_ret a =? 0 then _ ← set_errno EPIPE; mret (inr None) else
    mret (inl (got ++ zsub (a_out a) 0 (a_ret a)))) [].

(** [RLIMIT_CORE], [PR_SET_DUMPABLE] and [umask(077)]. *)
Definition harden_clip_process : K unit :=
  _ ← ask C_setrlimit;
  _ ← ask (C_prctl 4 0);
  _ ← ask (C_umask 63);
  mret tt.

Fixpoint reset_signals (signals : list Z) : K bool :=
  match signals with
  | [] => mret true
  | n :: signals =>
      previous ← sigaction n A_default;
      match previous with None => mret false | Some _ => reset_signals signals end
  end.

Definition normalize_child_signal_state : K bool :=
  ok ← sys_ok (C_sigprocmask SIG_SETMASK []);
  if negb ok then mret false else reset_signals [SIGTERM; SIGINT; SIGHUP; SIGCHLD].

(** The previous disposition. *)
Definition set_sigchld_default : K (option (list Z)) := sigaction SIGCHLD A_default.

Definition install_stop_handlers : K bool :=
  a ← sigaction SIGTERM A_handler;
  match a with
  | None => mret false
  | Some _ =>
      b ← sigaction SIGINT A_handler;
      match b with
      | None => mret false
      | Some _ => c ← sigaction SIGHUP A_handler; mret match c with None => false | Some _ => true end
      end
  end.

Definition pidfd_open_local (pid : Z) : K Z := sys_ret (C_pidfd_open pid).
Definition pidfd_signal_local (pidfd signal_number : Z) : K Z := sys_ret (C_pidfd_send_signal pidfd signal_number).

(** ** Messages *)

(** Success; a broken connection is an error and not a signal. *)
Definition send_control (fd message : Z) : K bool :=
  blocked ← ask (C_sigprocmask SIG_BLOCK [SIGPIPE]);
  if negb (a_ret blocked =? 0) then mret false else
  let previous := a_out blocked in
  pending ← ask C_sigpending;
  if negb (a_ret pending =? 0) then
    saved_errno ← get_errno;
    _ ← ask (C_sigprocmask SIG_SETMASK previous);
    _ ← set_errno saved_errno;
    mret false
  else
  let pipe_was_pending := existsb (Z.eqb SIGPIPE) (a_out pending) in
  written ← retry (C_write fd [message]);
  errno ← get_errno;
  let saved_errno := if a_ret written =? 1 then 0 else if a_ret written <? 0 then errno else EIO in
  _ ← (if (saved_errno =? EPIPE) && negb pipe_was_pending
       then _ ← retry (C_sigtimedwait [SIGPIPE]); mret tt else mret tt);
  restored ← sys_ok (C_sigprocmask SIG_SETMASK previous);
  errno ← get_errno;
  let saved_errno := if negb restored && (saved_errno =? 0) then errno else saved_errno in
  if negb (saved_errno =? 0) then _ ← set_errno saved_errno; mret false else mret true.

(** The message. *)
Definition receive_control (fd : Z) : K (option Z) :=
  a ← retry_unless_stopped (C_recv fd);
  if a_ret a =? 0 then _ ← set_errno EPIPE; mret None else
  mret (if a_ret a =? 1 then Some (znth (a_out a) 0) else None).

Definition poll_one (fd events timeout_ms : Z) : K Z :=
  a ← retry_unless_stopped (C_poll [(fd, events)] timeout_ms);
  if a_ret a <=? 0 then mret (a_ret a) else
  let revents := znth (a_out a) 0 in
  if negb (Z.land revents (Z.lor POLLERR POLLNVAL) =? 0) then _ ← set_errno EIO; mret (-1) else
  mret (if negb (Z.land revents (Z.lor events POLLHUP) =? 0) then 1 else 0).

(** ** The environment *)

Definition not_empty (value : option (list Z)) : bool := match value with Some (_ :: _) => true | _ => false end.

Definition is_value (value : option (list Z)) (text : list Z) : bool :=
  match value with Some v => bytes_eqb v text | None => false end.

Definition choose_backend (environ : list (list Z)) : K pv_clip_backend :=
  let wayland_display := environ_get environ (cstr "WAYLAND_DISPLAY") in
  let session_type := environ_get environ (cstr "XDG_SESSION_TYPE") in
  let x11_display := environ_get environ (cstr "DISPLAY") in
  if not_empty wayland_display || is_value session_type (cstr "wayland") then mret PV_CLIP_BACKEND_NONE else
  if negb (is_value session_type (cstr "x11")) then mret PV_CLIP_BACKEND_NONE else
  if not_empty x11_display then
    ok ← sys_ok (C_access PV_XCLIP_PATH);
    mret (if ok : bool then PV_CLIP_BACKEND_X11 else PV_CLIP_BACKEND_NONE)
  else mret PV_CLIP_BACKEND_NONE.

Definition owner_keys : list (list Z) :=
  [cstr "DISPLAY="; cstr "XAUTHORITY="; cstr "HOME="; cstr "LANG="; cstr "LC_ALL="; cstr "LC_CTYPE="].

Definition env_key_is_allowed (entry : list Z) : bool :=
  existsb (fun key => bytes_eqb (zsub entry 0 (zlen key)) key) owner_keys.

Fixpoint owner_environment_loop (environ : list (list Z)) (capacity count : Z) : list (list Z) :=
  match environ with
  | [] => []
  | entry :: environ =>
      if count + 1 <? capacity then
        if env_key_is_allowed entry then entry :: owner_environment_loop environ capacity (count + 1)
        else owner_environment_loop environ capacity count
      else []
  end.

(** The entries stored. *)
Definition build_owner_environment (environ : list (list Z)) (capacity : Z) : list (list Z) :=
  if capacity =? 0 then [] else owner_environment_loop environ capacity 0.

(** ** Descriptors *)

Fixpoint close_each (fds : list Z) : K unit :=
  match fds with
  | [] => mret tt
  | fd :: fds => _ ← ask (C_close fd); close_each fds
  end.

Definition close_fds_from (first : Z) : K unit :=
  closed ← sys_ok (C_close_range first);
  if closed : bool then mret tt else
  limit ← ask C_getrlimit;
  let current := znth (a_out limit) 0 in
  let maximum := if (a_ret limit =? 0) && negb (current =? UINT64_MAX) then current else 65536 in
  close_each (seqZ first (maximum - first)).

(** Success of the [dup2] in turn. *)
Fixpoint dup2_each (fd : Z) (targets : list Z) : K bool :=
  match targets with
  | [] => mret true
  | target :: targets =>
      r ← sys_ret (C_dup2 fd target);
      if r <? 0 then mret false else dup2_each fd targets
  end.

(** The two functions differ in the descriptors they redirect to [/dev/null]. *)
Definition redirect_fds (targets : list Z) : K bool :=
  null_fd ← sys_ret (C_open (cstr "/dev/null"));
  if null_fd <? 0 then mret false else
  ok ← dup2_each null_fd targets;
  if negb ok then
    saved_errno ← get_errno;
    _ ← ask (C_close null_fd);
    _ ← set_errno saved_errno;
    mret false
  else
  _ ← (if 2 <? null_fd then _ ← ask (C_close null_fd); mret tt else mret tt);
  mret true.

Definition redirect_standard_fds : K bool := redirect_fds [0; 1; 2].
Definition redirect_output_fds : K bool := redirect_fds [1; 2].

Definition duplicate_to_known_fds (data_fd control_fd setup_fd : Z) : K bool :=
  duplicate_data ← sys_ret (C_fcntl data_fd F_DUPFD_CLOEXEC 10);
  duplicate_control ← sys_ret (C_fcntl control_fd F_DUPFD_CLOEXEC 10);
  duplicate_setup ← sys_ret (C_fcntl setup_fd F_DUPFD_CLOEXEC 10);
  ok ← (if (duplicate_data <? 0) || (duplicate_control <? 0) || (duplicate_setup <? 0) then mret false else
        a ← sys_ret (C_dup2 duplicate_data PV_CLIP_DATA_FD);
        if a <? 0 then mret false else
        b ← sys_ret (C_dup2 duplicate_control PV_CLIP_CONTROL_FD);
        if b <? 0 then mret false else
        c ← sys_ret (C_dup2 duplicate_setup PV_CLIP_SETUP_FD);
        mret (0 <=? c));
  _ ← close_if_open duplicate_data;
  _ ← close_if_open duplicate_control;
  _ ← close_if_open duplicate_setup;
  mret ok.

(** ** The setup message *)

(** The values of the enumeration. *)
Definition status_codes : list pv_status :=
  [PV_OK; PV_ERR_USAGE; PV_ERR_AUTH; PV_ERR_IO; PV_ERR_SECURE_MEMORY; PV_ERR_LOCKED; PV_ERR_EXTERNAL; PV_ERR_FORMAT; PV_ERR_LIMIT;
   PV_ERR_NOT_FOUND; PV_ERR_EXISTS; PV_ERR_STATE; PV_ERR_DURABILITY; PV_ERR_NOMEM; PV_ERR_UNSUPPORTED].

Definition status_code (status : pv_status) : Z :=
  match list_find (fun s => s = status) status_codes with Some (i, _) => Z.of_nat i | None => -1 end.

(** The bytes of [struct pv_clip_setup_result] and the structure they hold. *)
Definition setup_bytes (magic status worker_pid : Z) : list Z := le_put 4 magic ++ le_put 4 status ++ le_put 8 worker_pid.

Definition setup_fields (bytes : list Z) : Z * Z * Z :=
  (le_get (zsub bytes 0 4), i32 (le_get (zsub bytes 4 4)), i64 (le_get (zsub bytes 8 8))).

Definition report_preexec_failure (setup_fd : Z) (status : pv_status) : K unit :=
  pid ← sys_ret C_getpid;
  _ ← write_all setup_fd (setup_bytes PV_CLIP_SETUP_MAGIC (status_code status) pid);
  mret tt.

Definition wait_for_setup (fd : Z) : K (pv_status * Z) :=
  ready ← poll_one fd POLLIN PV_CLIP_SETUP_TIMEOUT_MS;
  if ready =? 0 then mret (PV_ERR_EXTERNAL, 0) else
  if ready <? 0 then mret (PV_ERR_IO, 0) else
  r ← read_all fd 16;
  mret match r with
       | None => (PV_ERR_IO, 0)
       | Some bytes =>
           let '(magic, status, worker_pid) := setup_fields bytes in
           if negb (magic =? PV_CLIP_SETUP_MAGIC) || (worker_pid <=? 1) || (INT_MAX <? worker_pid) then (PV_ERR_FORMAT, worker_pid) else
           if (status <? 0) || (status_code PV_ERR_UNSUPPORTED <? status) then (PV_ERR_FORMAT, worker_pid) else
           (default PV_ERR_FORMAT (status_codes !! Z.to_nat status), worker_pid)
       end.

(** ** Starting the worker *)

(** The index of the last [c] ([strrchr]). *)
Definition rfind_char (l : list Z) (c : Z) : option Z :=
  match find_char (rev l) c with Some i => Some (zlen l - 1 - i) | None => None end.

(** The status and the path. *)
Definition resolve_helper_path (capacity : Z) : K (pv_status * list Z) :=
  let helper_name := cstr "pvault-clip" in
  if capacity <? zlen helper_name + 1 then mret (PV_ERR_USAGE, []) else
  link ← ask (C_readlink (cstr "/proc/self/exe") (capacity - 1));
  let length := a_ret link in
  if (length <? 0) || (capacity - 1 <=? length) then mret (PV_ERR_EXTERNAL, []) else
  let path := zsub (a_out link) 0 length in
  match rfind_char path 47 with
  | None => mret (PV_ERR_EXTERNAL, path)
  | Some slash =>
      let directory_length := slash + 1 in
      if capacity - (zlen helper_name + 1) <? directory_length then mret (PV_ERR_LIMIT, path) else
      let path := zsub path 0 directory_length ++ helper_name in
      found ← sys_ok (C_access path);
      if found : bool then mret (PV_OK, path) else
      let path := cstr "/usr/bin/pvault-clip" in
      if capacity <? zlen path + 1 then mret (PV_ERR_LIMIT, path) else
      found ← sys_ok (C_access path);
      mret (if found : bool then PV_OK else PV_ERR_EXTERNAL, path)
  end.

Definition helper_arguments (ttl_seconds : Z) : list (list Z) :=
  [cstr "pvault-clip"; cstr "--worker"; cstr "3"; cstr "4"; cstr "5"; decimal ttl_seconds].

Definition launch_detached_helper (helper_path : list Z) (data_fd control_fd setup_fd ttl_seconds : Z) : K Z :=
  worker ← fork;
  if worker <? 0 then _ ← report_preexec_failure setup_fd PV_ERR_IO; mret (-1) else
  if 0 <? worker then mret 0 else
  session ← sys_ret C_setsid;
  if session <? 0 then _ ← report_preexec_failure setup_fd PV_ERR_IO; k_exit 126 else
  _ ← harden_clip_process;
  duplicated ← duplicate_to_known_fds data_fd control_fd setup_fd;
  if negb duplicated then _ ← report_preexec_failure setup_fd PV_ERR_IO; k_exit 126 else
  redirected ← redirect_standard_fds;
  if negb redirected then _ ← report_preexec_failure PV_CLIP_SETUP_FD PV_ERR_IO; k_exit 126 else
  _ ← close_fds_from 6;
  let ttl_buffer := decimal ttl_seconds in
  if (zlen ttl_buffer <? 1) || (16 <=? zlen ttl_buffer) then _ ← report_preexec_failure PV_CLIP_SETUP_FD PV_ERR_LIMIT; k_exit 126 else
  _ ← exec helper_path (helper_arguments ttl_seconds) None;
  _ ← report_preexec_failure PV_CLIP_SETUP_FD PV_ERR_EXTERNAL;
  k_exit 127.

(** The number. *)
Definition parse_fd_argument (text : list Z) : option Z :=
  let '(value, failed, rest) := strtoul text in
  if failed || (zlen rest =? zlen text) || negb (zlen rest =? 0) || (INT_MAX <? value) then None else Some value.

Definition parse_ttl_argument (text : list Z) : option Z :=
  let '(value, failed, rest) := strtoul text in
  if failed || (zlen rest =? zlen text) || negb (zlen rest =? 0) || (value =? 0) || (PV_CLIP_MAX_TTL_SECONDS <? value)
  then None else Some value.

(** ** The owner of the clipboard *)

(** [errno] to the parent, then the end of the child. *)
Definition owner_failed {A} (error_fd saved_errno code : Z) : K A :=
  _ ← write_all error_fd (le_put 4 saved_errno);
  k_exit code.

Definition xclip_arguments : list (list Z) :=
  [cstr "xclip"; cstr "-selection"; cstr "clipboard"; cstr "-in"; cstr "-quiet"].

Definition owner_exec (environ : list (list Z)) (data_fd error_fd expected_parent : Z) : K unit :=
  normal ← normalize_child_signal_state;
  if negb normal then errno ← get_errno; owner_failed error_fd errno 126 else
  _ ← harden_clip_process;
  guarded ← sys_ok (C_prctl 1 SIGTERM);
  if negb guarded then errno ← get_errno; owner_failed error_fd errno 126 else
  parent ← sys_ret C_getppid;
  if negb (parent =? expected_parent) then owner_failed error_fd ECHILD 126 else
  cleared ← clear_nonblocking data_fd;
  input ← (if negb (cleared =? 0) then mret (-1) else sys_ret (C_dup2 data_fd 0));
  if input <? 0 then errno ← get_errno; owner_failed error_fd errno 126 else
  redirected ← redirect_output_fds;
  if negb redirected then errno ← get_errno; owner_failed error_fd errno 126 else
  let environment := build_owner_environment environ 16 in
  moved ← (if negb (error_fd =? 6) then sys_ret (C_dup2 error_fd 6) else mret 6);
  if moved <? 0 then k_exit 126 else
  let error_fd := 6 in
  _ ← set_cloexec error_fd;
  _ ← close_fds_from 7;
  _ ← exec PV_XCLIP_PATH xclip_arguments (Some environment);
  errno ← get_errno;
  owner_failed error_fd errno 127.

(** The process identifier, or a negative number. *)
Definition spawn_owner (environ : list (list Z)) (data_fd : Z) : K Z :=
  expected_parent ← sys_ret C_getpid;
  pipe ← ask (C_pipe2 524288);
  if negb (a_ret pipe =? 0) then mret (-1) else
  let read_end := znth (a_out pipe) 0 in
  let write_end := znth (a_out pipe) 1 in
  owner ← fork;
  if owner <? 0 then
    _ ← close_if_open read_end;
    _ ← close_if_open write_end;
    mret (-1)
  else
  _ ← (if owner =? 0 then _ ← ask (C_close read_end); owner_exec environ data_fd write_end expected_parent else mret tt);
  _ ← close_if_open write_end;
  received ← retry (C_read read_end 4);
  _ ← close_if_open read_end;
  if a_ret received =? 0 then mret owner else
  _ ← waitpid_nointr owner 0;
  _ ← set_errno (if 0 <? a_ret received then i32 (le_get (zsub (a_out received) 0 4)) else EIO);
  mret (-1).

Definition owner_has_exited (owner : Z) : K bool :=
  result ← waitpid_nointr owner WNOHANG;
  errno ← get_errno;
  mret ((result =? owner) || ((result <? 0) && (errno =? ECHILD))).

(** [pidfd_send_signal] when there is a descriptor, [kill] otherwise or when that
    fails. *)
Definition signal_owner (owner owner_pidfd signal_number : Z) : K Z :=
  if 0 <=? owner_pidfd then
    sent ← pidfd_signal_local owner_pidfd signal_number;
    if negb (sent =? 0) then sys_ret (C_kill owner signal_number) else mret sent
  else sys_ret (C_kill owner signal_number).

Definition terminate_owner (owner owner_pidfd : Z) : K unit :=
  if owner <=? 0 then mret tt else
  exited ← owner_has_exited owner;
  if exited : bool then mret tt else
  _ ← signal_owner owner owner_pidfd SIGTERM;
  exited ← iter (fun elapsed_ms =>
    if elapsed_ms <? PV_CLIP_OWNER_GRACE_MS then
      exited ← owner_has_exited owner;
      if exited : bool then mret (inr true) else
      _ ← ask (C_nanosleep 10);
      mret (inl (elapsed_ms + 10))
    else mret (inr false)) 0;
  if exited : bool then mret tt else
  kill_result ← signal_owner owner owner_pidfd SIGKILL;
  if negb (kill_result =? 0) then mret tt else
  _ ← waitpid_nointr owner 0;
  mret tt.

(** ** Waiting *)

(** The descriptors waited for and the timeout. *)
Definition owner_items (fd events owner_pidfd : Z) : list (Z * Z) :=
  (fd, events) :: if 0 <=? owner_pidfd then [(owner_pidfd, POLLIN)] else [].

Definition has_events (revents mask : Z) : bool := negb (Z.land revents mask =? 0).

(** Whether the message [PV_CLIP_MSG_DONE] came. *)
Definition wait_for_done (control_fd owner owner_pidfd : Z) : K bool :=
  iter (fun _ : unit =>
    a ← retry_unless_stopped (C_poll (owner_items control_fd (Z.lor POLLIN POLLHUP) owner_pidfd)
                                (if 0 <=? owner_pidfd then -1 else PV_CLIP_FALLBACK_POLL_MS));
    stop ← get_stop;
    if stop || (a_ret a <? 0) then mret (inr false) else
    exited ← (if owner_pidfd <? 0 then owner_has_exited owner else mret false);
    if exited : bool then _ ← set_errno ECHILD; mret (inr false) else
    if a_ret a =? 0 then mret (inl tt) else
    if (0 <=? owner_pidfd) && has_events (znth (a_out a) 1) POLLIN then
      _ ← waitpid_nointr owner 0;
      _ ← set_errno ECHILD;
      mret (inr false)
    else if has_events (znth (a_out a) 0) POLLIN then
      message ← receive_control control_fd;
      match message with
      | Some m => if m =? PV_CLIP_MSG_DONE then mret (inr true) else _ ← set_errno EPROTO; mret (inr false)
      | None => _ ← set_errno EPROTO; mret (inr false)
      end
    else if has_events (znth (a_out a) 0) (Z.lor POLLHUP (Z.lor POLLERR POLLNVAL)) then
      _ ← set_errno EPIPE;
      mret (inr false)
    else mret (inl tt)) tt.

(** [1] when the time is over, [0] when the owner ended, [-1] on failure. *)
Definition wait_for_owner_or_timeout (owner owner_pidfd timer_fd : Z) : K Z :=
  iter (fun _ : unit =>
    a ← retry_unless_stopped (C_poll (owner_items timer_fd POLLIN owner_pidfd)
                                (if 0 <=? owner_pidfd then -1 else PV_CLIP_FALLBACK_POLL_MS));
    stop ← get_stop;
    if stop || (a_ret a <? 0) then mret (inr (-1)) else
    exited ← (if owner_pidfd <? 0 then owner_has_exited owner else mret false);
    if exited : bool then mret (inr 0) else
    if a_ret a =? 0 then mret (inl tt) else
    if (0 <=? owner_pidfd) && has_events (znth (a_out a) 1) POLLIN then
      _ ← waitpid_nointr owner 0;
      mret (inr 0)
    else if has_events (znth (a_out a) 0) POLLIN then
      received ← retry (C_read timer_fd 8);
      mret (inr (if a_ret received =? 8 then 1 else -1))
    else mret (inl tt)) tt.

(** ** The worker *)

(** The variables of [worker_loop] that its last part releases. *)
Record worker := mk_worker {
  wk_owner : Z;
  wk_owner_pidfd : Z;
  wk_timer_fd : Z;
  wk_control_fd : Z;
  wk_data_fd : Z
}.

(** Until the label [report_setup]. *)
Definition worker_setup (environ : list (list Z)) (data_fd control_fd setup_fd : Z) : K pv_status :=
  normal ← normalize_child_signal_state;
  if negb normal then mret PV_ERR_IO else
  _ ← harden_clip_process;
  a ← set_cloexec data_fd;
  if negb (a =? 0) then mret PV_ERR_IO else
  b ← set_cloexec control_fd;
  if negb (b =? 0) then mret PV_ERR_IO else
  c ← set_cloexec setup_fd;
  if negb (c =? 0) then mret PV_ERR_IO else
  installed ← install_stop_handlers;
  if negb installed then mret PV_ERR_IO else
  backend ← choose_backend environ;
  mret match backend with PV_CLIP_BACKEND_NONE => PV_ERR_EXTERNAL | PV_CLIP_BACKEND_X11 => PV_OK end.

(** From the message that starts the copy to the label [cleanup]. *)
Definition worker_serve (environ : list (list Z)) (data_fd control_fd ttl_seconds : Z) : K (pv_status * worker) :=
  let at_cleanup status owner owner_pidfd timer_fd control_fd data_fd : K (pv_status * worker) :=
    mret (status, mk_worker owner owner_pidfd timer_fd control_fd data_fd) in
  message ← receive_control control_fd;
  stop ← get_stop;
  let started := match message with
                 | Some m => (m =? PV_CLIP_MSG_START_TEXT) || (m =? PV_CLIP_MSG_START_BINARY)
                 | None => false
                 end in
  if negb started || stop then at_cleanup PV_ERR_STATE (-1) (-1) (-1) control_fd data_fd else
  owner ← spawn_owner environ data_fd;
  if owner <? 0 then
    _ ← send_control control_fd PV_CLIP_MSG_FAILED;
    at_cleanup PV_ERR_EXTERNAL owner (-1) (-1) control_fd data_fd
  else
  data_fd ← close_if_open data_fd;
  owner_pidfd ← pidfd_open_local owner;
  timer_fd ← sys_ret C_timerfd_create;
  if timer_fd <? 0 then
    _ ← send_control control_fd PV_CLIP_MSG_FAILED;
    at_cleanup PV_ERR_IO owner owner_pidfd timer_fd control_fd data_fd
  else
  ready ← send_control control_fd PV_CLIP_MSG_READY;
  if negb ready then at_cleanup PV_ERR_IO owner owner_pidfd timer_fd control_fd data_fd else
  done ← wait_for_done control_fd owner owner_pidfd;
  if negb done then
    _ ← send_control control_fd PV_CLIP_MSG_FAILED;
    at_cleanup PV_ERR_EXTERNAL owner owner_pidfd timer_fd control_fd data_fd
  else
  armed ← sys_ok (C_timerfd_settime timer_fd ttl_seconds);
  if negb armed then
    _ ← send_control control_fd PV_CLIP_MSG_FAILED;
    at_cleanup PV_ERR_IO owner owner_pidfd timer_fd control_fd data_fd
  else
  stop ← get_stop;
  exited ← (if stop : bool then mret true else owner_has_exited owner);
  if exited : bool then
    _ ← send_control control_fd PV_CLIP_MSG_FAILED;
    at_cleanup PV_ERR_EXTERNAL owner owner_pidfd timer_fd control_fd data_fd
  else
  accepted ← send_control control_fd PV_CLIP_MSG_ACCEPTED;
  if negb accepted then at_cleanup PV_ERR_IO owner owner_pidfd timer_fd control_fd data_fd else
  control_fd ← close_if_open control_fd;
  wait_result ← wait_for_owner_or_timeout owner owner_pidfd timer_fd;
  if wait_result <? 0 then at_cleanup PV_ERR_IO owner owner_pidfd timer_fd control_fd data_fd else
  _ ← (if 0 <? wait_result then terminate_owner owner owner_pidfd else mret tt);
  at_cleanup PV_OK (-1) owner_pidfd timer_fd control_fd data_fd.

Definition worker_loop (environ : list (list Z)) (data_fd control_fd setup_fd ttl_seconds : Z) : K pv_status :=
  _ ← set_stop false;
  status ← worker_setup environ data_fd control_fd setup_fd;
  pid ← sys_ret C_getpid;
  reported ← write_all setup_fd (setup_bytes PV_CLIP_SETUP_MAGIC (status_code status) pid);
  let status := if negb reported then PV_ERR_IO else status in
  setup_fd ← close_if_open setup_fd;
  r ← (if is_ok status then worker_serve environ data_fd control_fd ttl_seconds
       else mret (status, mk_worker (-1) (-1) (-1) control_fd data_fd));
  let '(status, w) := r in
  _ ← (if 0 <? wk_owner w then terminate_owner (wk_owner w) (wk_owner_pidfd w) else mret tt);
  _ ← close_if_open (wk_timer_fd w);
  _ ← close_if_open (wk_owner_pidfd w);
  _ ← close_if_open setup_fd;
  _ ← close_if_open (wk_control_fd w);
  _ ← close_if_open (wk_data_fd w);
  mret status.

(** The exit code; [argv] with the name of the program first. *)
Definition pv_clipboard_worker_main (environ : list (list Z)) (argv : list (list Z)) : K Z :=
  let usage : K Z := mret (pv_status_exit_code PV_ERR_USAGE) in
  match argv with
  | [_; worker; data; control; setup; ttl] =>
      if negb (bytes_eqb worker (cstr "--worker")) then usage else
      match parse_fd_argument data, parse_fd_argument control, parse_fd_argument setup, parse_ttl_argument ttl with
      | Some data_fd, Some control_fd, Some setup_fd, Some ttl_seconds =>
          status ← worker_loop environ data_fd control_fd setup_fd ttl_seconds;
          mret (pv_status_exit_code status)
      | _, _, _, _ => usage
      end
  | _ => usage
  end.

(** ** The command *)

Record pv_clipboard_job := mk_clip_job {
  job_write_fd : Z;
  job_control_fd : Z;
  job_supervisor_fd : Z;
  job_supervisor_pid : Z
}.

Definition no_job : pv_clipboard_job := mk_clip_job (-1) (-1) (-1) (-1).

(** A message awaited for [PV_CLIP_SETUP_TIMEOUT_MS]; the two functions differ in
    the message. *)
Definition wait_for_message (expected control_fd : Z) : K pv_status :=
  ready ← poll_one control_fd POLLIN PV_CLIP_SETUP_TIMEOUT_MS;
  if ready =? 0 then mret PV_ERR_EXTERNAL else
  if ready <? 0 then mret PV_ERR_IO else
  message ← receive_control control_fd;
  mret match message with
       | None => PV_ERR_IO
       | Some m => if m =? expected then PV_OK else PV_ERR_EXTERNAL
       end.

Definition wait_for_owner_ready (control_fd : Z) : K pv_status := wait_for_message PV_CLIP_MSG_READY control_fd.
Definition wait_for_owner_accepted (control_fd : Z) : K pv_status := wait_for_message PV_CLIP_MSG_ACCEPTED control_fd.

(** One turn of the loop that writes the secret. *)
Definition write_turn (data_fd control_fd : Z) (rest : list Z) : K (list Z + pv_status) :=
  if zlen rest =? 0 then mret (inr PV_OK) else
  a ← ask (C_write data_fd rest);
  errno ← get_errno;
  if 0 <? a_ret a then mret (inl (drop (Z.to_nat (a_ret a)) rest)) else
  if (a_ret a <? 0) && (errno =? EINTR) then mret (inl rest) else
  if (a_ret a <? 0) && (errno =? EAGAIN) then
    p ← retry (C_poll [(data_fd, POLLOUT); (control_fd, Z.lor POLLIN POLLHUP)] PV_CLIP_SETUP_TIMEOUT_MS);
    mret (if (a_ret p <=? 0) || has_events (znth (a_out p) 1) (Z.lor (Z.lor POLLIN POLLHUP) (Z.lor POLLERR POLLNVAL))
          then inr PV_ERR_EXTERNAL else inl rest)
  else mret (inr PV_ERR_EXTERNAL).

Definition write_secret (data_fd control_fd : Z) (secret : list Z) : K pv_status :=
  blocked ← ask (C_sigprocmask SIG_BLOCK [SIGPIPE]);
  if negb (a_ret blocked =? 0) then mret PV_ERR_IO else
  let previous := a_out blocked in
  pending ← ask C_sigpending;
  if negb (a_ret pending =? 0) then _ ← ask (C_sigprocmask SIG_SETMASK previous); mret PV_ERR_IO else
  let pipe_was_pending := existsb (Z.eqb SIGPIPE) (a_out pending) in
  status ← iter (write_turn data_fd control_fd) secret;
  errno ← get_errno;
  _ ← (if negb (is_ok status) && (errno =? EPIPE) && negb pipe_was_pending
       then _ ← retry (C_sigtimedwait [SIGPIPE]); mret tt else mret tt);
  restored ← sys_ok (C_sigprocmask SIG_SETMASK previous);
  mret (if negb restored && is_ok status then PV_ERR_IO else status).

(** The job afterwards. *)
Definition pv_clipboard_cancel (job : pv_clipboard_job) : K pv_clipboard_job :=
  write_fd ← close_if_open (job_write_fd job);
  control_fd ← close_if_open (job_control_fd job);
  _ ← (if (1 <? job_supervisor_pid job) && (0 <=? job_supervisor_fd job)
       then _ ← pidfd_signal_local (job_supervisor_fd job) SIGTERM; mret tt else mret tt);
  supervisor_fd ← close_if_open (job_supervisor_fd job);
  mret (mk_clip_job write_fd control_fd supervisor_fd (-1)).

(** The steps of [pv_clipboard_send] after its checks: the status and the job. *)
Definition send_steps (job : pv_clipboard_job) (secret : pv_view) : K (pv_status * pv_clipboard_job) :=
  let cancelled status job : K (pv_status * pv_clipboard_job) := job ← pv_clipboard_cancel job; mret (status, job) in
  let text := negb (existsb (Z.eqb 0) (v_bytes secret)) && pv_utf8_valid secret in
  sent ← send_control (job_control_fd job) (if text then PV_CLIP_MSG_START_TEXT else PV_CLIP_MSG_START_BINARY);
  if negb sent then cancelled PV_ERR_EXTERNAL job else
  status ← wait_for_owner_ready (job_control_fd job);
  if negb (is_ok status) then cancelled status job else
  status ← write_secret (job_write_fd job) (job_control_fd job) (v_bytes secret);
  write_fd ← close_if_open (job_write_fd job);
  let job := mk_clip_job write_fd (job_control_fd job) (job_supervisor_fd job) (job_supervisor_pid job) in
  if negb (is_ok status) then cancelled status job else
  sent ← send_control (job_control_fd job) PV_CLIP_MSG_DONE;
  if negb sent then cancelled PV_ERR_EXTERNAL job else
  status ← wait_for_owner_accepted (job_control_fd job);
  if negb (is_ok status) then cancelled status job else
  control_fd ← close_if_open (job_control_fd job);
  supervisor_fd ← close_if_open (job_supervisor_fd job);
  mret (PV_OK, mk_clip_job (job_write_fd job) control_fd supervisor_fd (-1)).

Definition pv_clipboard_send (job : pv_clipboard_job) (secret : pv_view) : K (pv_status * pv_clipboard_job) :=
  match v_data secret with
  | None => mret (PV_ERR_USAGE, job)
  | Some _ =>
      if (v_len secret =? 0) || (job_write_fd job <? 0) || (job_control_fd job <? 0) || (job_supervisor_pid job <=? 1)
      then mret (PV_ERR_USAGE, job) else
      if PV_MAX_PLAINTEXT <? v_len secret then mret (PV_ERR_LIMIT, job) else
      send_steps job secret
  end.

(** The descriptors of [pv_clipboard_prepare]: read and write ends, [-1] when not
    open, and the disposition to restore. *)
Record prep := mk_prep {
  pr_data : Z * Z;
  pr_control : Z * Z;
  pr_setup : Z * Z;
  pr_sigchld : option (list Z);
  pr_job : pv_clipboard_job
}.

Definition new_pair (a : answer) : Z * Z := (znth (a_out a) 0, znth (a_out a) 1).
Definition no_pair : Z * Z := (-1, -1).

(** The part of the parent after the [fork]. *)
Definition prepare_parent (launcher : Z) (previous : list Z) (data control setup : Z * Z) : K (pv_status * prep) :=
  data0 ← close_if_open (fst data);
  control1 ← close_if_open (snd control);
  setup1 ← close_if_open (snd setup);
  let held sigchld job := mk_prep (data0, snd data) (fst control, control1) (fst setup, setup1) sigchld job in
  wait_result ← waitpid_nointr launcher 0;
  restored ← sigaction SIGCHLD (A_saved previous);
  match restored with
  | None => mret (PV_ERR_IO, held None no_job)
  | Some _ =>
      if wait_result <? 0 then mret (PV_ERR_IO, held None no_job) else
      r ← wait_for_setup (fst setup);
      let '(status, worker_pid) := r in
      if negb (is_ok status) then mret (status, held None no_job) else
      supervisor_fd ← pidfd_open_local worker_pid;
      mret (PV_OK, mk_prep (data0, -1) (-1, control1) (fst setup, setup1) None
                     (mk_clip_job (snd data) (fst control) supervisor_fd worker_pid))
  end.

(** Until the label [cleanup]. *)
Definition prepare_steps (helper_path : list Z) (ttl_seconds : Z) : K (pv_status * prep) :=
  data ← ask (C_pipe2 524288);
  if negb (a_ret data =? 0) then mret (PV_ERR_IO, mk_prep no_pair no_pair no_pair None no_job) else
  let data_pipe := new_pair data in
  control ← ask (C_socketpair 5);
  if negb (a_ret control =? 0) then mret (PV_ERR_IO, mk_prep data_pipe no_pair no_pair None no_job) else
  let control_pair := new_pair control in
  setup ← ask (C_pipe2 524288);
  if negb (a_ret setup =? 0) then mret (PV_ERR_IO, mk_prep data_pipe control_pair no_pair None no_job) else
  let setup_pipe := new_pair setup in
  let held sigchld := mk_prep data_pipe control_pair setup_pipe sigchld no_job in
  flagged ← set_nonblocking (snd data_pipe);
  if negb (flagged =? 0) then mret (PV_ERR_IO, held None) else
  previous ← set_sigchld_default;
  match previous with
  | None => mret (PV_ERR_IO, held None)
  | Some previous =>
      launcher ← fork;
      if launcher <? 0 then mret (PV_ERR_IO, held (Some previous)) else
      if launcher =? 0 then
        _ ← ask (C_close (snd data_pipe));
        _ ← ask (C_close (fst control_pair));
        _ ← ask (C_close (fst setup_pipe));
        launch_result ← launch_detached_helper helper_path (fst data_pipe) (snd control_pair) (snd setup_pipe) ttl_seconds;
        k_exit (if launch_result =? 0 then 0 else 126)
      else prepare_parent launcher previous data_pipe control_pair setup_pipe
  end.

(** The status and the job. *)
Definition pv_clipboard_prepare (ttl_seconds : Z) : K (pv_status * pv_clipboard_job) :=
  let ttl_seconds := if ttl_seconds =? 0 then PV_DEFAULT_CLIPBOARD_TTL else ttl_seconds in
  if PV_CLIP_MAX_TTL_SECONDS <? ttl_seconds then mret (PV_ERR_LIMIT, no_job) else
  r ← resolve_helper_path PATH_MAX;
  let '(status, helper_path) := r in
  if negb (is_ok status) then mret (status, no_job) else
  r ← prepare_steps helper_path ttl_seconds;
  let '(status, p) := r in
  status ← match pr_sigchld p with
           | None => mret status
           | Some previous =>
               restored ← sigaction SIGCHLD (A_saved previous);
               mret match restored with None => if is_ok status then PV_ERR_IO else status | Some _ => status end
           end;
  _ ← close_if_open (fst (pr_data p));
  _ ← close_if_open (snd (pr_data p));
  _ ← close_if_open (fst (pr_control p));
  _ ← close_if_open (snd (pr_control p));
  _ ← close_if_open (fst (pr_setup p));
  _ ← close_if_open (snd (pr_setup p));
  if negb (is_ok status) && (1 <? job_supervisor_pid (pr_job p))
  then job ← pv_clipboard_cancel (pr_job p); mret (status, job)
  else mret (status, pr_job p).
