(* ===== verification/ClipboardFacts.v ===== *)
(** * What the processes of the clipboard do, seen through their traces

    The trace of a process is read as a log of what matters: messages on the
    control socket, bytes of the secret, the owner started, reaped or impossible to
    kill, the timer armed. Each function of [Clipboard] has a lemma that says what
    it adds to the log; most add nothing. *)

From S2P Require Import Prelude Status Util Posix Config Process ProcessFacts Clipboard.

Inductive log_entry :=
| Sent (message : Z)
| Got (message : Z)
| Data (bytes : list Z)
| Spawned (pid : Z)
| Armed (seconds : Z)
| Reaped (pid : Z)
| Unkillable (pid : Z).

(** A child is gone when [waitpid] reports it, or that there is no such child, or
    when a wait without time limit ends other than by a signal. *)
Definition reaps (pid options : Z) (a : answer) : bool :=
  (a_ret a =? pid) || ((a_ret a <? 0) && (Z.pos (a_errno a) =? ECHILD)) || ((options =? 0) && negb (interrupted a)).

Definition clip_watch (control data : Z) : Watch log_entry := fun e =>
  let a := snd e in
  match fst e with
  | C_write fd bytes =>
      if fd =? control then if a_ret a =? 1 then Some (Sent (znth bytes 0)) else None
      else if fd =? data then if 0 <? a_ret a then Some (Data (zsub bytes 0 (a_ret a))) else None
      else None
  | C_recv fd => if (fd =? control) && (a_ret a =? 1) then Some (Got (znth (a_out a) 0)) else None
  | C_fork => if 0 <? i32 (a_ret a) then Some (Spawned (i32 (a_ret a))) else None
  | C_timerfd_settime _ seconds => if a_ret a =? 0 then Some (Armed seconds) else None
  | C_waitpid pid options => if (0 <? pid) && reaps pid options a then Some (Reaped pid) else None
  | C_kill pid signal_number => if (signal_number =? SIGKILL) && negb (a_ret a =? 0) then Some (Unkillable pid) else None
  | _ => None
  end.

(** ** Functions that add nothing *)

Section functions.
Context (control data : Z).
#[local] Hint Extern 0 (Watch _) => exact (clip_watch control data) : typeclass_instances.

Lemma close_if_open_keeps fd : keeps (close_if_open fd).
Proof. unfold close_if_open. keep. Qed.

Lemma set_cloexec_keeps fd : keeps (set_cloexec fd).
Proof. unfold set_cloexec. keep. Qed.

Lemma harden_keeps : keeps harden_clip_process.
Proof. unfold harden_clip_process. keep. Qed.

Lemma reset_signals_keeps signals : keeps (reset_signals signals).
Proof. induction signals as [| n signals IH]; cbn [reset_signals]; keep. Qed.

Lemma poll_one_keeps fd events timeout : keeps (poll_one fd events timeout).
Proof. unfold poll_one. keep. Qed.

Lemma choose_backend_keeps environ : keeps (choose_backend environ).
Proof. unfold choose_backend. keep. Qed.

Lemma pidfd_open_keeps pid : keeps (pidfd_open_local pid).
Proof. unfold pidfd_open_local. keep. Qed.

Lemma pidfd_signal_keeps fd n : keeps (pidfd_signal_local fd n).
Proof. unfold pidfd_signal_local. keep. Qed.

Lemma install_handlers_keeps : keeps install_stop_handlers.
Proof. unfold install_stop_handlers. keep. Qed.

(** Writes on a descriptor that is neither of the two. *)
Lemma write_all_keeps fd bytes : fd <> control -> fd <> data -> keeps (write_all fd bytes).
Proof.
  intros Hc Hd. unfold write_all. apply keeps_iter. intros rest. destruct (zlen rest =? 0); [keep |]. apply keeps_bind; [| intros; keep].
  apply keeps_ask. intros a. cbn. by rewrite (proj2 (Z.eqb_neq fd control)), (proj2 (Z.eqb_neq fd data)).
Qed.

Lemma read_all_keeps fd n : keeps (read_all fd n).
Proof. unfold read_all. keep. Qed.

End functions.

#[export] Hint Resolve close_if_open_keeps set_cloexec_keeps harden_keeps reset_signals_keeps poll_one_keeps choose_backend_keeps
  pidfd_open_keeps pidfd_signal_keeps install_handlers_keeps read_all_keeps : clip.


(** ** Functions that add something *)

Section specs.
Context (control data : Z).
#[local] Hint Extern 0 (Watch _) => exact (clip_watch control data) : typeclass_instances.

(** *** Messages *)

Lemma entry_write m a : entry_of (C_write control [m]) a = if a_ret a =? 1 then [Sent m] else [].
Proof. unfold entry_of. cbn. rewrite Z.eqb_refl. by destruct (a_ret a =? 1). Qed.

Lemma send_control_log m s : kwp (send_control control m)
  (returns (fun ok s' => log s' = log s ++ [Sent m] \/ (ok = false /\ log s' = log s))) s.
Proof.
  unfold send_control. kstep blocked s1. destruct (a_ret blocked =? 0); cbn [negb]; [| kret]. cbv zeta.
  kstep pending s2. destruct (a_ret pending =? 0); cbn [negb]; [| kstep e s3; kstep b s4; kstep u s5; kret].
  eapply returns_bind; [apply returns_retry |].
  { intros a Ha%interrupted_neg. cbn. rewrite Z.eqb_refl. destruct (Z.eqb_spec (a_ret a) 1); [lia | done]. }
  intros w sw (_ & Hw & He). rewrite entry_write in Hw. 
  apply kwp_bind, kwp_get_errno. cbn [then_]. set (e := k_errno sw) in *. destruct (a_ret w =? 1) eqn:E.
  - rewrite <- Hw. kstep u s4. kstep r s5. kstep e' s6. split_if; [kstep u' s7 |]; kret.
  - rewrite app_nil_r in Hw. rewrite <- Hw. kstep u s4. kstep r s5. kstep e' s6.
    assert (Hn : (if a_ret w <? 0 then e else EIO) <> 0) by (destruct (Z.ltb_spec (a_ret w) 0); [rewrite He by done |]; done).
    rewrite (proj2 (Z.eqb_neq _ 0) Hn), andb_false_r, (proj2 (Z.eqb_neq _ 0) Hn). cbn [negb]. kstep u' s7. kret.
Qed.

Lemma entry_recv a : entry_of (C_recv control) a = if a_ret a =? 1 then [Got (znth (a_out a) 0)] else [].
Proof. unfold entry_of. cbn. rewrite Z.eqb_refl. by destruct (a_ret a =? 1). Qed.

Lemma receive_control_log s : kwp (receive_control control)
  (returns (fun m s' => log s' = log s ++ match m with Some m => [Got m] | None => [] end)) s.
Proof.
  unfold receive_control. eapply returns_bind; [apply returns_retry_stop |].
  { intros a Ha. cbn. rewrite Z.eqb_refl. cbn. destruct (Z.eqb_spec (a_ret a) 1); [lia | done]. }
  cbv beta. intros a s1 H1. rewrite entry_recv in H1. destruct (Z.eqb_spec (a_ret a) 0) as [E | E].
  - rewrite E in H1. change (0 =? 1) with false in H1. cbv iota in H1. rewrite app_nil_r in H1. rewrite <- H1. kstep u s2. kret. by rewrite app_nil_r.
  - kret. by destruct (a_ret a =? 1).
Qed.

(** *** Waiting for children *)

Lemma entry_waitpid pid options a : 0 < pid -> entry_of (C_waitpid pid options) a = if reaps pid options a then [Reaped pid] else [].
Proof. intros Hp. unfold entry_of. cbn. rewrite (proj2 (Z.ltb_lt 0 pid) Hp). by destruct (reaps pid options a). Qed.

Lemma reaps_interrupted pid options a : 0 < pid -> interrupted a = true -> reaps pid options a = false.
Proof.
  intros Hp Ha. pose proof (interrupted_neg a Ha). unfold reaps. rewrite Ha. cbn [negb]. rewrite andb_false_r, orb_false_r, (proj2 (Z.eqb_neq (a_ret a) pid)) by lia.
  cbn [orb]. unfold interrupted, EINTR, ECHILD in *. destruct (a_ret a <? 0); [| done]. cbn [andb] in *. lia.
Qed.

Lemma retry_waitpid pid options s : 0 < pid ->
  kwp (retry (C_waitpid pid options)) (returns (fun a s' => interrupted a = false /\
    log s' = log s ++ (if reaps pid options a then [Reaped pid] else []) /\ (a_ret a < 0 -> k_errno s' = Z.pos (a_errno a)))) s.
Proof.
  intros Hp. eapply returns_mono; [apply returns_retry |].
  - intros a Ha. cbn. rewrite (proj2 (Z.ltb_lt 0 pid) Hp), reaps_interrupted; done.
  - cbv beta. intros a s' (Ha & Hl & He). by rewrite entry_waitpid in Hl.
Qed.

Lemma waitpid_block_log pid s : 0 < pid -> kwp (waitpid_nointr pid 0) (returns (fun _ s' => log s' = log s ++ [Reaped pid])) s.
Proof.
  intros Hp. unfold waitpid_nointr. eapply returns_bind; [by apply retry_waitpid |]. cbv beta. intros a s1 (Ha & Hl & _).
  assert (Hr : reaps pid 0 a = true) by (unfold reaps; rewrite Ha; cbn; by rewrite orb_true_r). rewrite Hr in Hl. rewrite <- Hl.
  split_if; [kstep u s2 |]; kret.
Qed.

(** The result tells whether the owner is gone. *)
Lemma owner_has_exited_log pid s : 0 < pid <= INT_MAX ->
  kwp (owner_has_exited pid) (returns (fun (b : bool) s' => log s' = log s ++ if b then [Reaped pid] else [])) s.
Proof.
  intros Hp. unfold owner_has_exited, waitpid_nointr. eapply returns_bind with (P := fun (r : Z) (s' : kst) =>
    log s' = log s ++ if (r =? pid) || ((r <? 0) && (k_errno s' =? ECHILD)) then [Reaped pid] else []).
  - eapply returns_bind; [apply retry_waitpid; lia |]. cbv beta. intros a s1 (_ & Hl & He).
    unfold reaps, WNOHANG in Hl. cbn [Z.eqb andb] in Hl. rewrite orb_false_r in Hl. destruct (Z.ltb_spec INT_MAX (a_ret a)) as [Hbig | Hbig].
    + intros r s' [= <- <-]. cbn [returns k_errno]. rewrite (proj2 (Z.eqb_neq (a_ret a) pid)), (proj2 (Z.ltb_ge (a_ret a) 0)) in Hl by (unfold INT_MAX in *; lia).
      rewrite (proj2 (Z.eqb_neq (-1) pid)) by lia. exact Hl.
    + kret. rewrite Hl. destruct (Z.ltb_spec (a_ret a) 0) as [Hneg | Hneg]; [by rewrite He | done].
  - cbv beta. intros r s1 Hl. apply kwp_bind, kwp_get_errno. cbn [then_]. by kret.
Qed.

(** *** Ending the owner *)

Definition ended (pid : Z) (l : list log_entry) : Prop := Reaped pid ∈ l \/ Unkillable pid ∈ l.

(** What ending the owner may add. *)
Definition ends (pid : Z) (l : list log_entry) : Prop := Forall (fun e => e = Reaped pid \/ e = Unkillable pid) l.

Lemma ends_nil pid : ends pid [].
Proof. constructor. Qed.

Lemma ends_reaped pid : ends pid [Reaped pid].
Proof. repeat constructor. Qed.

Lemma ends_app pid l k : ends pid l -> ends pid k -> ends pid (l ++ k).
Proof. by apply Forall_app_2. Qed.

Lemma ended_app_r pid l k : ended pid k -> ended pid (l ++ k).
Proof. unfold ended. rewrite !elem_of_app. tauto. Qed.

Lemma ended_reaped pid : ended pid [Reaped pid].
Proof. left. by left. Qed.

Lemma signal_owner_log pid pidfd n s : kwp (signal_owner pid pidfd n)
  (returns (fun r s' => exists l, log s' = log s ++ l /\ ends pid l /\ (n = SIGKILL -> r <> 0 -> ended pid l))) s.
Proof.
  assert (Hkill : forall s1, kwp (sys_ret (C_kill pid n)) (returns (fun r s' => exists l, log s' = log s1 ++ l /\ ends pid l /\ (n = SIGKILL -> r <> 0 -> ended pid l))) s1).
  { intros s1. eapply returns_mono; [apply returns_ret_call |]. cbv beta. intros r s' (a & -> & Hl). eexists. split_and!; [exact Hl | |].
    - unfold entry_of. cbn. destruct (_ && _); [| constructor]. constructor; [by right | constructor].
    - intros -> Hr. unfold entry_of. cbn. rewrite (proj2 (Z.eqb_neq (a_ret a) 0) Hr). cbn. right. by left. }
  unfold signal_owner. destruct (0 <=? pidfd); [| done]. kstep sent s1. destruct (Z.eqb_spec sent 0) as [-> | Hs]; cbn [negb]; [| done].
  kret. exists []. rewrite app_nil_r. split_and!; [done | apply ends_nil | done].
Qed.

Lemma terminate_owner_log pid pidfd s : 0 < pid <= INT_MAX ->
  kwp (terminate_owner pid pidfd) (returns (fun _ s' => exists l, log s' = log s ++ l /\ ends pid l /\ ended pid l)) s.
Proof.
  intros Hp. unfold terminate_owner. rewrite (proj2 (Z.leb_gt pid 0)) by lia.
  eapply returns_bind; [by apply owner_has_exited_log |]. intros [] s1 H1; cbv beta in H1.
  { kret. exists [Reaped pid]. split_and!; [done | apply ends_reaped | apply ended_reaped]. }
  rewrite app_nil_r in H1. eapply returns_bind; [apply signal_owner_log |]. cbv beta. intros _ s2 (l2 & H2 & E2 & _). rewrite H1 in H2. clear H1.
  eapply returns_bind with (P := fun (b : bool) (s' : kst) => log s' = log s ++ l2 ++ if b then [Reaped pid] else []).
  { apply kwp_iter with (I := fun _ s' => log s' = log s ++ l2); [| done]. intros t s3 H3. split_if; [| apply kwp_ret; cbn; by rewrite app_nil_r].
    apply kwp_bind. eapply kwp_mono; [by apply owner_has_exited_log |]. intros [[] | |] s4 H4; cbn [then_ returns] in *; [| | done | done].
    - apply kwp_ret. cbn. by rewrite H4, H3, app_assoc.
    - rewrite app_nil_r in H4. apply kwp_bind, kwp_keeps ; [keep |].
      intros [x | |] s5 H5; cbn; [| done | done]. apply kwp_ret. cbn. congruence. }
  intros [] s3 H3; cbv beta in H3.
  { kret. exists (l2 ++ [Reaped pid]). split_and!; [done | apply ends_app; [done | apply ends_reaped] | apply ended_app_r, ended_reaped]. }
  rewrite app_nil_r in H3. eapply returns_bind; [apply signal_owner_log |]. cbv beta. intros r s4 (l4 & H4 & E4 & Hend). rewrite H3 in H4.
  destruct (Z.eqb_spec r 0) as [-> | Hr]; cbn [negb].
  - eapply returns_bind; [apply waitpid_block_log; lia |]. cbv beta. intros _ s5 H5. kret. exists (l2 ++ l4 ++ [Reaped pid]).
    rewrite H5, H4, <- !app_assoc. split_and!; [done | repeat apply ends_app; auto using ends_reaped | do 2 apply ended_app_r; apply ended_reaped].
  - kret. exists (l2 ++ l4). rewrite H4, <- app_assoc. split_and!; [done | by apply ends_app | apply ended_app_r; auto].
Qed.

(** *** Starting the owner *)

Lemma owner_failed_exits {A} fd e c s (Q : A -> kst -> Prop) : kwp (owner_failed fd e c) (returns Q) s.
Proof. unfold owner_failed. eapply returns_bind; [apply returns_true |]. intros. apply returns_exit. Qed.

(** The child becomes another program or exits. *)
Lemma owner_exec_exits environ data_fd error_fd parent s (Q : unit -> kst -> Prop) :
  kwp (owner_exec environ data_fd error_fd parent) (returns Q) s.
Proof.
  unfold owner_exec. repeat lazymatch goal with
    | |- kwp (_ ≫= _) _ _ => eapply returns_bind; [apply returns_true |]; intros ? ? _; cbv zeta
    | |- kwp (if ?b then _ else _) _ _ => destruct b
    | |- kwp (owner_failed _ _ _) _ _ => apply owner_failed_exits
    | |- kwp (k_exit _) _ _ => apply returns_exit
    end.
Qed.

Lemma entry_fork a : entry_of C_fork a = if 0 <? i32 (a_ret a) then [Spawned (i32 (a_ret a))] else [].
Proof. unfold entry_of. cbn. by destruct (0 <? i32 (a_ret a)). Qed.

Lemma fork_log s : kwp fork (returns (fun r s' => r <= INT_MAX /\ log s' = log s ++ if 0 <? r then [Spawned r] else [])) s.
Proof.
  unfold fork. apply kwp_bind, kwp_ask. intros a rest. cbn [then_]. kret. pose proof (i32_range (a_ret a)). split; [lia |].
  rewrite log_called. f_equal. apply entry_fork.
Qed.

Lemma spawn_owner_log environ data_fd s : kwp (spawn_owner environ data_fd)
  (returns (fun r s' => (r < 0 /\ (log s' = log s \/ exists p, log s' = log s ++ [Spawned p; Reaped p])) \/
                        (0 < r <= INT_MAX /\ log s' = log s ++ [Spawned r]))) s.
Proof.
  unfold spawn_owner. kstep parent s1. kstep pipe s2. split_if; [kret; left; by split; [lia | left] |].
  eapply returns_bind; [apply fork_log |]. cbv beta. intros r s3 [Hr H3]. destruct (Z.ltb_spec r 0) as [Hneg | Hneg].
  { rewrite (proj2 (Z.ltb_ge 0 r)), app_nil_r in H3 by lia. rewrite <- H3. kstep a s4. kstep b s5. kret. left. by split; [lia | left]. }
  destruct (Z.eqb_spec r 0) as [-> | Hz].
  { eapply returns_bind with (P := fun _ _ => False); [| done]. eapply returns_bind; [apply returns_true |]. intros. apply owner_exec_exits. }
  rewrite (proj2 (Z.ltb_lt 0 r)) in H3 by lia.
  eapply returns_bind with (P := fun _ s' => s' = s3); [by apply returns_ret |]. intros _ ? ->.
  kkeep w s4 H4. kkeep a s5 H5. kkeep c s6 H6. rewrite H5, H4, H3 in H6. split_if.
  - kret. right. split; [lia | done].
  - eapply returns_bind; [apply waitpid_block_log; lia |]. cbv beta. intros _ s7 H7. kkeep u s8 H8. kret. left. split; [lia |]. right. exists r.
    rewrite H8, H7, H6, <- app_assoc. done.
Qed.

(** *** Waiting in the worker *)

Lemma wait_for_done_log owner pidfd s : 0 < owner <= INT_MAX ->
  kwp (wait_for_done control owner pidfd) (returns (fun b s' => if b : bool then log s' = log s ++ [Got PV_CLIP_MSG_DONE]
    else log s' = log s \/ log s' = log s ++ [Reaped owner] \/ exists m, log s' = log s ++ [Got m])) s.
Proof.
  intros Hp. unfold wait_for_done. apply kwp_iter with (I := fun _ s' => log s' = log s); [| done]. intros _ s1 H1. rewrite <- H1. clear H1 s.
  set (Q := fun (r : unit + bool) s' => match r with
    | inl _ => log s' = log s1
    | inr b => if b : bool then log s' = log s1 ++ [Got PV_CLIP_MSG_DONE] else log s' = log s1 \/ log s' = log s1 ++ [Reaped owner] \/ exists m, log s' = log s1 ++ [Got m]
    end).
  apply kwp_mono with (Q := returns Q); [| intros [[[] | b] | c | p v e] s' H; cbn in *; exact H].
  unfold Q. clear Q. kstep a s2. kstep stop s3. split_if; [kret |].
  eapply returns_bind with (P := fun (b : bool) s' => log s' = log s3 ++ if b then [Reaped owner] else []).
  { split_if; [by apply owner_has_exited_log | kret]. by rewrite app_nil_r. }
  intros [] s4 H4; cbv beta in H4; [kkeep u s5 H5; kret; cbn; right; left; congruence |].
  rewrite app_nil_r in H4. rewrite <- H4. clear H4. split_if; [kret |]. split_if.
  { eapply returns_bind; [apply waitpid_block_log; lia |]. cbv beta. intros _ s5 H5. kkeep u s6 H6.
    kret. cbn. right. left. congruence. }
  split_if; [| split_if; [kstep u s5; kret | kret]].
  eapply returns_bind; [apply receive_control_log |]. cbv beta. intros [m |] s5 H5.
  - destruct (Z.eqb_spec m PV_CLIP_MSG_DONE) as [-> | Hm]; [kret |]. kkeep u s6 H6. kret. cbn. right. right. exists m. congruence.
  - rewrite app_nil_r in H5. rewrite <- H5. kstep u s6. kret.
Qed.

Lemma wait_for_owner_log owner pidfd timer s : 0 < owner <= INT_MAX ->
  kwp (wait_for_owner_or_timeout owner pidfd timer) (returns (fun r s' => (r = 0 /\ log s' = log s ++ [Reaped owner]) \/ (r <> 0 /\ log s' = log s))) s.
Proof.
  intros Hp. unfold wait_for_owner_or_timeout. apply kwp_iter with (I := fun _ s' => log s' = log s); [| done]. intros _ s1 H1. rewrite <- H1. clear H1 s.
  set (Q := fun (r : unit + Z) s' => match r with
    | inl _ => log s' = log s1
    | inr r => (r = 0 /\ log s' = log s1 ++ [Reaped owner]) \/ (r <> 0 /\ log s' = log s1)
    end).
  apply kwp_mono with (Q := returns Q); [| intros [[[] | b] | c | p v e] s' H; cbn in *; exact H].
  unfold Q. clear Q. kstep a s2. kstep stop s3. split_if; [kret |].
  eapply returns_bind with (P := fun (b : bool) s' => log s' = log s3 ++ if b then [Reaped owner] else []).
  { split_if; [by apply owner_has_exited_log | kret]. by rewrite app_nil_r. }
  intros [] s4 H4; cbv beta in H4; [kret |].
  rewrite app_nil_r in H4. rewrite <- H4. clear H4. split_if; [kret |]. split_if.
  { eapply returns_bind; [apply waitpid_block_log; lia |]. cbv beta. intros _ s5 H5. kret. }
  split_if; [| kret]. kstep r s5. kret. right. split; [by split_if | done].
Qed.

(** *** The worker *)

(** The log of a worker that accepted the secret. *)
Definition stages (start owner ttl : Z) : list log_entry :=
  [Got start; Spawned owner; Sent PV_CLIP_MSG_READY; Got PV_CLIP_MSG_DONE; Armed ttl; Sent PV_CLIP_MSG_ACCEPTED].

(** An entry that neither starts an owner nor accepts a secret. *)
Definition minor (e : log_entry) : bool :=
  match e with Sent m => negb (m =? PV_CLIP_MSG_ACCEPTED) | Spawned _ => false | _ => true end.

(** What a worker added to the log before it releases [owner]: every owner started
    is gone or is [owner]; if it accepted the secret it went through the stages, and
    it succeeds only then. *)
Record served (ttl : Z) (status : pv_status) (owner : Z) (l : list log_entry) : Prop := {
  sv_owner : owner <= INT_MAX;
  sv_ended : forall p, Spawned p ∈ l -> ended p l \/ 0 < p /\ owner = p;
  sv_accepted : Sent PV_CLIP_MSG_ACCEPTED ∈ l -> exists start p l', l = stages start p ttl ++ l' /\ ends p l' /\ (0 < owner -> owner = p);
  sv_ok : status = PV_OK -> Sent PV_CLIP_MSG_ACCEPTED ∈ l
}.

Lemma minor_not l e : forallb minor l = true -> minor e = false -> e ∉ l.
Proof. intros Hl He Hin. rewrite forallb_forall in Hl. apply list_elem_of_In in Hin. rewrite Hl in He; done. Qed.

Lemma served_none ttl status owner l : status <> PV_OK -> owner < 0 -> forallb minor l = true -> served ttl status owner l.
Proof.
  intros Hs Ho Hl. split; [unfold INT_MAX; lia | | | done].
  - intros p Hp. by eapply minor_not in Hp.
  - intros Hp. by eapply minor_not in Hp.
Qed.

(** A failure after the owner was started. *)
Lemma served_fail ttl status owner m l : status <> PV_OK -> 0 < owner <= INT_MAX -> forallb minor l = true ->
  served ttl status owner (Got m :: Spawned owner :: l).
Proof.
  intros Hs Ho Hl. split; [lia | | | done].
  - intros p. rewrite !elem_of_cons. intros [| [[= <-] | Hp]]; [done | right; lia | by eapply minor_not in Hp].
  - rewrite !elem_of_cons. intros [| [| Hp]]; [done | done | by eapply minor_not in Hp].
Qed.

(** The owner could not be started. *)
Lemma served_unspawned ttl status owner m p l : status <> PV_OK -> owner < 0 -> forallb minor l = true ->
  served ttl status owner (Got m :: Spawned p :: Reaped p :: l).
Proof.
  intros Hs Ho Hl. split; [unfold INT_MAX; lia | | | done].
  - intros q. rewrite !elem_of_cons. intros [| [[= ->] | [| Hp]]]; [done | | done | by eapply minor_not in Hp]. left. left. do 2 right. by left.
  - rewrite !elem_of_cons. intros [| [| [| Hp]]]; [done | done | done | by eapply minor_not in Hp].
Qed.

Lemma ends_not p l e : ends p l -> minor e = false -> e ∉ l.
Proof. intros Hl He Hin. eapply Forall_forall in Hl; [| by apply list_elem_of_In]. destruct Hl as [-> | ->]; done. Qed.

Lemma served_accepted ttl status owner start p l : owner <= INT_MAX -> 0 < p -> ends p l -> (ended p l /\ owner = -1 \/ owner = p) ->
  served ttl status owner (stages start p ttl ++ l).
Proof.
  intros Ho Hp Hl He. split; [done | | exists start, p, l; split_and!; [done | done | lia] |].
  - intros q. unfold stages. cbn [app]. rewrite !elem_of_cons. intros [| [[= ->] | [| [| [| [| Hq]]]]]]; try done; [| by eapply ends_not in Hq].
    destruct He as [[He _] | ->]; [left | by right]. by apply (ended_app_r p (stages start p ttl)).
  - intros _. apply elem_of_app. left. do 5 right. by left.
Qed.

Lemma send_failed_log s : kwp (send_control control PV_CLIP_MSG_FAILED)
  (returns (fun _ s' => exists l, log s' = log s ++ l /\ forallb minor l = true)) s.
Proof.
  eapply returns_mono; [apply send_control_log |]. cbv beta. intros ok s' [H | [_ H]]; [by exists [Sent PV_CLIP_MSG_FAILED] |].
  exists []. by rewrite app_nil_r.
Qed.

(** Tells the other side and gives up; [l0] is what was added before. *)
Lemma served_gave_up ttl status owner w l0 s0 s : status <> PV_OK -> log s = log s0 ++ l0 -> wk_owner w = owner ->
  (forall l, forallb minor l = true -> served ttl status owner (l0 ++ l)) ->
  kwp (_ ← send_control control PV_CLIP_MSG_FAILED; mret (status, w))
    (returns (fun r s' => exists l, log s' = log s0 ++ l /\ served ttl (fst r) (wk_owner (snd r)) l)) s.
Proof.
  intros Hs Hl Hw H. eapply returns_bind; [apply send_failed_log |]. cbv beta. intros _ s' (l & H' & Hm). kret. cbn [fst snd]. rewrite Hw.
  exists (l0 ++ l). split; [by rewrite H', Hl, <- app_assoc | by apply H].
Qed.

Lemma entry_settime fd ttl a : entry_of (C_timerfd_settime fd ttl) a = if a_ret a =? 0 then [Armed ttl] else [].
Proof. unfold entry_of. cbn. by destruct (a_ret a =? 0). Qed.

Lemma worker_serve_log environ data_fd ttl s : kwp (worker_serve environ data_fd control ttl)
  (returns (fun r s' => exists l, log s' = log s ++ l /\ served ttl (fst r) (wk_owner (snd r)) l)) s.
Proof.
  unfold worker_serve. cbv zeta. eapply returns_bind; [apply receive_control_log |]. cbv beta. intros message s1 H1. kkeep stop s2 H2. rewrite H1 in H2. clear H1.
  match goal with |- context [negb ?b || stop] => destruct (negb b || stop) eqn:Estart end.
  { kret. eexists. split; [exact H2 |]. apply served_none; [done | cbn; lia | by destruct message]. }
  destruct message as [start |]; [| discriminate]. clear Estart stop.
  eapply returns_bind; [apply spawn_owner_log |]. cbv beta. intros owner s3 [[Hneg H3] | [Hpos H3]].
  { rewrite (proj2 (Z.ltb_lt owner 0) Hneg). destruct H3 as [H3 | [p H3]]; rewrite H2 in H3.
    - eapply served_gave_up; [done | exact H3 | done |]. intros l Hl. by apply served_none.
    - rewrite <- app_assoc in H3. eapply served_gave_up; [done | exact H3 | done |]. intros l Hl. by apply served_unspawned. }
  rewrite (proj2 (Z.ltb_ge owner 0)) by lia. rewrite H2, <- app_assoc in H3. cbn [app] in H3. clear H2.
  kkeep data_fd' s4 H4. kkeep pidfd s5 H5. kkeep timer s6 H6. rewrite H5, H4, H3 in H6. clear H3 H4 H5. split_if.
  { eapply served_gave_up; [done | exact H6 | done |]. intros l Hl. by apply served_fail. }
  eapply returns_bind; [apply send_control_log |]. cbv beta. intros ready s7 H7. rewrite H6 in H7. destruct ready; cbn [negb].
  2: { kret. cbn [fst snd wk_owner]. destruct H7 as [H7 | [_ H7]]; rewrite <- ?app_assoc in H7; (eexists; split; [exact H7 | by apply served_fail]). }
  destruct H7 as [H7 | [? _]]; [| done]. rewrite <- app_assoc in H7. cbn [app] in H7. clear H6.
  eapply returns_bind; [by apply wait_for_done_log |]. cbv beta. intros finished s8 H8. rewrite H7 in H8. destruct finished; cbn [negb].
  2: { destruct H8 as [H8 | [H8 | [m H8]]]; rewrite <- ?app_assoc in H8; (eapply served_gave_up; [done | exact H8 | done |]); intros l Hl; by apply served_fail. }
  rewrite <- app_assoc in H8. cbn [app] in H8. clear H7.
  eapply returns_bind; [apply returns_ok_call |]. cbv beta. intros armed s9 (a & -> & H9). rewrite entry_settime in H9. rewrite H8 in H9.
  destruct (a_ret a =? 0); cbn [negb].
  2: { rewrite app_nil_r in H9. eapply served_gave_up; [done | exact H9 | done |]. intros l Hl. by apply served_fail. }
  rewrite <- app_assoc in H9. cbn [app] in H9. clear H8.
  kkeep stop s10 H10. rewrite H9 in H10. clear H9.
  eapply returns_bind with (P := fun (b : bool) s' => log s' = log s10 ++ if b then (if stop then [] else [Reaped owner]) else []).
  { destruct stop; [kret; by rewrite app_nil_r | by apply owner_has_exited_log]. }
  intros [] s11 H11; cbv beta in H11; rewrite H10, <- app_assoc in H11; cbn [app] in H11.
  { eapply served_gave_up; [done | exact H11 | done |]. intros l Hl. cbn [app]. apply served_fail; [done | done |]. destruct stop; exact Hl. }
  clear H10. eapply returns_bind; [apply send_control_log |]. cbv beta. intros accepted s12 H12. rewrite H11 in H12. destruct accepted; cbn [negb].
  2: { kret. cbn [fst snd wk_owner]. destruct H12 as [H12 | [_ H12]]; rewrite <- ?app_assoc in H12; (eexists; split; [exact H12 |]).
       - apply (served_accepted ttl _ owner start owner []); [lia | lia | apply ends_nil | by right].
       - by apply served_fail. }
  destruct H12 as [H12 | [? _]]; [| done]. rewrite <- app_assoc in H12. cbn [app] in H12. change [Got start; _; _; _; _; _] with (stages start owner ttl) in H12.
  kkeep c s13 H13. rewrite H12 in H13. eapply returns_bind; [by apply wait_for_owner_log |]. cbv beta. intros r s14 H14. rewrite H13 in H14.
  destruct H14 as [[-> H14] | [Hr H14]].
  { eapply returns_bind with (P := fun _ s' => s' = s14); [by apply returns_ret |]. intros _ ? ->. kret. eexists. rewrite <- app_assoc in H14. split; [exact H14 |].
    apply served_accepted; [cbn; unfold INT_MAX; lia | lia | apply ends_reaped | left; split; [apply ended_reaped | done]]. }
  destruct (Z.ltb_spec r 0) as [Hneg | Hnn].
  { kret. eexists. split; [exact H14 |]. cbn [fst snd wk_owner]. rewrite <- (app_nil_r (stages start owner ttl)). apply served_accepted; [lia | lia | apply ends_nil | by right]. }
  rewrite (proj2 (Z.ltb_lt 0 r)) by lia. eapply returns_bind; [by apply terminate_owner_log |]. cbv beta. intros _ s15 (l & H15 & He & Hend). kret. eexists.
  rewrite H14, <- app_assoc in H15. split; [exact H15 |]. apply served_accepted; [cbn; unfold INT_MAX; lia | lia | done | by left].
Qed.


Lemma worker_setup_keeps environ data_fd control_fd setup_fd : keeps (worker_setup environ data_fd control_fd setup_fd).
Proof. unfold worker_setup, normalize_child_signal_state. keep. Qed.

(** The whole worker: as [served], with no owner left. *)
Lemma worker_loop_log environ data_fd setup_fd ttl s : setup_fd <> control -> setup_fd <> data ->
  kwp (worker_loop environ data_fd control setup_fd ttl) (returns (fun status s' => exists l, log s' = log s ++ l /\
    (forall p, Spawned p ∈ l -> ended p l) /\
    (Sent PV_CLIP_MSG_ACCEPTED ∈ l -> exists start p l', l = stages start p ttl ++ l' /\ ends p l') /\
    (status = PV_OK -> Sent PV_CLIP_MSG_ACCEPTED ∈ l))) s.
Proof.
  intros Hc Hd. unfold worker_loop. kstep u s1. eapply returns_bind; [apply returns_keeps, worker_setup_keeps |]. intros status s2 H2. cbv beta in H2.
  kkeep pid s3 H3. eapply returns_bind; [apply returns_keeps; by apply write_all_keeps |]. intros reported s4 H4. cbv zeta. cbv beta in H4.
  kkeep fd s5 H5. rewrite H4, H3, H2 in H5. clear H2 H3 H4. rewrite <- H5. clear H5.
  eapply returns_bind with (P := fun r s' => exists l, log s' = log s5 ++ l /\ served ttl (fst r) (wk_owner (snd r)) l).
  { destruct (is_ok _) eqn:Est; [apply worker_serve_log |]. kret. exists []. split; [by rewrite app_nil_r |]. apply is_ok_false in Est. by apply served_none. }
  intros [st w] s6 (l & H6 & Hs). cbn [fst snd] in Hs. destruct Hs as [Ho He Ha Hok].
  eapply returns_bind with (P := fun _ s' => exists l2, log s' = log s5 ++ l ++ l2 /\ (l2 = [] /\ wk_owner w <= 0 \/ 0 < wk_owner w /\ ends (wk_owner w) l2 /\ ended (wk_owner w) l2)).
  { destruct (Z.ltb_spec 0 (wk_owner w)) as [Hw | Hw].
    - eapply returns_mono; [apply terminate_owner_log; lia |]. cbv beta. intros _ s7 (l2 & H7 & E2 & F2). exists l2. split; [by rewrite H7, H6, app_assoc | by right].
    - kret. exists []. rewrite app_nil_r. split; [done | left; split; [done | lia]]. }
  cbv beta. intros _ s7 (l2 & H7 & Hl2). kkeep a s8 H8. kkeep b s9 H9. kkeep c s10 H10. kkeep d s11 H11. kkeep e s12 H12. kret. exists (l ++ l2).
  split; [by rewrite H12, H11, H10, H9, H8, H7 |]. destruct Hl2 as [[-> Hw] | (Hw & E2 & F2)].
  - rewrite app_nil_r. split_and!; [| | done].
    + intros p Hp. destruct (He p Hp) as [? | [? E]]; [done | lia].
    + intros H. destruct (Ha H) as (start & p & l' & ? & ? & _). by exists start, p, l'.
  - split_and!.
    + intros p. rewrite elem_of_app. intros [Hp | Hp]; [| by eapply ends_not in Hp]. destruct (He p Hp) as [[? | ?] | [_ E]]; [| | rewrite <- E; by apply ended_app_r];
        unfold ended; rewrite !elem_of_app; auto.
    + rewrite elem_of_app. intros [H | H]; [| by eapply ends_not in H]. destruct (Ha H) as (start & p & l' & -> & El' & Hp). pose proof (Hp Hw) as <-.
      exists start, (wk_owner w), (l' ++ l2). split; [by rewrite <- app_assoc | by apply ends_app].
    + intros Hst. rewrite elem_of_app. auto.
Qed.

(** *** The command *)

Lemma wait_for_message_log m s : kwp (wait_for_message m control)
  (returns (fun st s' => (st = PV_OK /\ log s' = log s ++ [Got m]) \/ (st <> PV_OK /\ (log s' = log s \/ exists n, log s' = log s ++ [Got n])))) s.
Proof.
  unfold wait_for_message. kstep ready s1. split_if; [kret; by right; auto |]. split_if; [kret; by right; auto |].
  eapply returns_bind; [apply receive_control_log |]. cbv beta. intros [n |] s2 H2; kret.
  - destruct (Z.eqb_spec n m) as [-> | Hn]; [by left | right; split; [done | right; by exists n]].
  - right. split; [done |]. left. by rewrite app_nil_r in H2.
Qed.

Lemma entry_data bytes a : data <> control -> entry_of (C_write data bytes) a = if 0 <? a_ret a then [Data (zsub bytes 0 (a_ret a))] else [].
Proof. intros Hd. unfold entry_of. cbn. rewrite (proj2 (Z.eqb_neq data control) Hd), Z.eqb_refl. by destruct (0 <? a_ret a). Qed.

(** What the loop has written is the beginning of the secret. *)
Definition wrote (secret : list Z) (s : kst) (rest : list Z) (s' : kst) : Prop :=
  exists chunks, log s' = log s ++ map Data chunks /\ secret = concat chunks ++ rest.

Lemma write_loop_log secret s : data <> control -> kwp (iter (write_turn data control) secret)
  (returns (fun st s' => exists rest, wrote secret s rest s' /\ (st = PV_OK -> rest = []))) s.
Proof.
  intros Hd. apply kwp_iter with (I := wrote secret s); [| exists []; by rewrite app_nil_r]. intros rest s1 (chunks & H1 & Hsecret).
  set (Q := fun (r : list Z + pv_status) s' => match r with inl rest => wrote secret s rest s' | inr st => exists rest, wrote secret s rest s' /\ (st = PV_OK -> rest = []) end).
  apply kwp_mono with (Q := returns Q); [| intros [[r | st] | c | p v e] s' H; exact H]. unfold write_turn.
  destruct (Z.eqb_spec (zlen rest) 0) as [Hz | Hz].
  { kret. exists rest. split; [by exists chunks |]. intros _. destruct rest; [done |]. zlia. }
  assert (Hkeep : forall s', log s' = log s1 -> wrote secret s rest s') by (intros s' H; exists chunks; split; [congruence | done]).
  apply kwp_bind, kwp_ask. intros a sched. cbn [then_]. set (s2 := called s1 sched (C_write data rest) a).
  assert (H2 : log s2 = log s1 ++ entry_of (C_write data rest) a) by apply log_called. rewrite entry_data in H2 by done.
  kkeep errno s3 H3. rewrite H2 in H3. clear H2. destruct (Z.ltb_spec 0 (a_ret a)) as [Hpos | Hpos].
  { kret. exists (chunks ++ [zsub rest 0 (a_ret a)]). rewrite map_app, concat_app. split; [rewrite H3, H1, <- app_assoc; done |]. cbn. rewrite app_nil_r.
    rewrite Hsecret, <- app_assoc. f_equal. by rewrite zsub_0, take_drop. }
  rewrite app_nil_r in H3. split_if; [kret; by apply Hkeep |]. split_if; [| kret; exists rest; split; [by apply Hkeep | done]].
  kkeep p s4 H4. rewrite H3 in H4. kret. split_if; [exists rest; split; [by apply Hkeep | done] | by apply Hkeep].
Qed.

Lemma write_secret_log secret s : data <> control -> kwp (write_secret data control secret)
  (returns (fun st s' => exists rest, wrote secret s rest s' /\ (st = PV_OK -> rest = []))) s.
Proof.
  intros Hd. assert (Hnone : forall s', log s' = log s -> wrote secret s secret s') by (intros s' H; exists []; by rewrite app_nil_r).
  unfold write_secret. kkeep blocked s1 H1. split_if; [kret; exists secret; split; [by apply Hnone | done] |]. cbv zeta. kkeep pending s2 H2. split_if.
  { kkeep u s3 H3. kret. exists secret. split; [apply Hnone; congruence | done]. }
  eapply returns_bind; [by apply write_loop_log |]. cbv beta. intros st s3 (rest & (chunks & H3 & Hsec) & Hok). kkeep e s4 H4. kkeep u s5 H5. kkeep r s6 H6.
  kret. exists rest. split; [exists chunks; split; [congruence | done] |]. split_if; [done | exact Hok].
Qed.

End specs.
