(* ===== verification/ClipboardProps.v ===== *)
(** * Properties of the clipboard helper

    [src/clipboard.c]: what crosses the pipe and in which order, what the worker
    does with the owner it starts, which programs are run, and what is left open.
    The theorems hold for every answer of the kernel. *)

From S2P Require Import Prelude Status Util Posix Config ConfigProps Process ProcessFacts Clipboard ClipboardFacts.

(** The log of a process: the control socket and the pipe of the secret are known
    by their descriptors. *)
Definition clip_log (control data : Z) (s : kst) : list log_entry := @log _ (clip_watch control data) s.

(** ** Releasing a job *)

(** Every descriptor is closed and there is no worker any more. *)
Definition released (job : pv_clipboard_job) : Prop :=
  job_write_fd job < 0 /\ job_control_fd job < 0 /\ job_supervisor_fd job < 0 /\ job_supervisor_pid job = -1.

(** What [pv_clipboard_send] refuses before it does anything: no bytes to send, too
    many, or a job that no worker serves. *)
Definition refused (job : pv_clipboard_job) (secret : pv_view) : Prop :=
  v_data secret = None \/ v_len secret = 0 \/ job_write_fd job < 0 \/ job_control_fd job < 0 \/ job_supervisor_pid job <= 1 \/ PV_MAX_PLAINTEXT < v_len secret.

Lemma send_cases job secret : refused job secret /\ (exists status, (status = PV_ERR_USAGE \/ status = PV_ERR_LIMIT) /\ pv_clipboard_send job secret = mret (status, job)) \/
  ~ refused job secret /\ pv_clipboard_send job secret = send_steps job secret.
Proof.
  unfold pv_clipboard_send, refused. destruct (v_data secret); [| left; split; [by left |]; eexists; split; [by left | done]].
  destruct (_ || _) eqn:E.
  { left. rewrite !orb_true_iff, Z.eqb_eq, !Z.ltb_lt, Z.leb_le in E. split; [tauto |]. eexists. split; [by left | done]. }
  rewrite !orb_false_iff, Z.eqb_neq, !Z.ltb_ge, Z.leb_gt in E. destruct (Z.ltb_spec PV_MAX_PLAINTEXT (v_len secret)).
  - left. split; [tauto |]. eexists. split; [by right | done].
  - right. split; [| done]. intros [? | [? | [? | [? | [? | ?]]]]]; [done | lia..].
Qed.

Lemma send_not_refused job secret : ~ refused job secret -> pv_clipboard_send job secret = send_steps job secret.
Proof. intros H. by destruct (send_cases job secret) as [[? _] | [_ ?]]. Qed.

Section send.
Context (control data : Z).
#[local] Hint Extern 0 (Watch _) => exact (clip_watch control data) : typeclass_instances.

(** The log is kept and the value returned is known. *)
Lemma close_if_open_value fd s : kwp (close_if_open fd) (returns (fun fd' s' => log s' = log s /\ fd' < 0)) s.
Proof.
  unfold close_if_open. destruct (Z.leb_spec 0 fd); [| by kret]. kstep e s1. kstep a s2. kstep u s3. kret. split; [done | lia].
Qed.

Lemma cancel_releases job s : kwp (pv_clipboard_cancel job) (returns (fun job' s' => log s' = log s /\ released job')) s.
Proof.
  unfold pv_clipboard_cancel. eapply returns_bind; [apply close_if_open_value |]. cbv beta. intros w s1 [H1 Hw]. rewrite <- H1. clear H1.
  eapply returns_bind; [apply close_if_open_value |]. cbv beta. intros c s2 [H2 Hc]. rewrite <- H2. clear H2. kstep u s3.
  eapply returns_bind; [apply close_if_open_value |]. cbv beta. intros f s4 [H4 Hf]. rewrite <- H4. clear H4. kret. by split_and!.
Qed.

(** Entries that are not bytes of the secret. *)
Definition no_data (e : log_entry) : bool := match e with Data _ => false | _ => true end.

(** What crossed the pipe: bytes go only after the owner is ready, they are the
    beginning of the secret in order, and nothing follows them but messages. *)
Definition sent_in_order (secret : list Z) (l : list log_entry) : Prop :=
  forallb no_data l = true \/
  exists start chunks rest tail, l = Sent start :: Got PV_CLIP_MSG_READY :: map Data chunks ++ tail /\
    secret = concat chunks ++ rest /\ forallb no_data tail = true.

(** The whole exchange. *)
Definition sent_all (secret : list Z) (l : list log_entry) : Prop :=
  exists start chunks, l = Sent start :: Got PV_CLIP_MSG_READY :: map Data chunks ++ [Sent PV_CLIP_MSG_DONE; Got PV_CLIP_MSG_ACCEPTED] /\
    concat chunks = secret.

Definition send_result (secret : list Z) (s : kst) (r : pv_status * pv_clipboard_job) (s' : kst) : Prop :=
  exists l, log s' = log s ++ l /\ sent_in_order secret l /\ (fst r = PV_OK -> sent_all secret l) /\ released (snd r).

(** A failure: the job is cancelled. *)
Lemma cancelled_result secret status job s0 s l : status <> PV_OK -> log s = log s0 ++ l -> sent_in_order secret l ->
  kwp (job ← pv_clipboard_cancel job; mret (status, job)) (returns (send_result secret s0)) s.
Proof.
  intros Hst Hl Hs. eapply returns_bind; [apply cancel_releases |]. cbv beta. intros job' s1 [H1 Hrel]. kret. exists l. split_and!; [congruence | done | done | done].
Qed.

Lemma send_log job secret s : job_control_fd job = control -> job_write_fd job = data -> data <> control -> ~ refused job secret ->
  kwp (pv_clipboard_send job secret) (returns (send_result (v_bytes secret) s)) s.
Proof.
  intros Hc Hw Hd Hr. rewrite (send_not_refused job secret Hr). unfold send_steps. cbv zeta. rewrite Hc, Hw.
  match goal with |- context [send_control control ?m] => set (start := m) end.
  eapply returns_bind; [apply send_control_log |]. cbv beta. intros sent s1 H1. destruct sent; cbn [negb].
  2: { destruct H1 as [H1 | [_ H1]]; [eapply cancelled_result; [done | exact H1 | by left] |].
       eapply (cancelled_result _ _ _ _ _ []); [done | by rewrite app_nil_r | by left]. }
  destruct H1 as [H1 | [? _]]; [| done].
  eapply returns_bind; [apply wait_for_message_log |]. cbv beta. intros st s2 H2. rewrite H1 in H2. destruct H2 as [[-> H2] | [Hst H2]]; cbn [is_ok negb].
  2: { rewrite (proj2 (is_ok_false st) Hst). cbn [negb]. destruct H2 as [H2 | [n H2]]; [| rewrite <- app_assoc in H2];
       (eapply cancelled_result; [done | exact H2 | by left]). }
  rewrite <- app_assoc in H2. cbn [app] in H2. clear H1.
  eapply returns_bind; [by apply write_secret_log |]. cbv beta. intros st s3 (rest & (chunks & H3 & Hsec) & Hok). rewrite H2, <- app_assoc in H3. cbn [app] in H3. clear H2.
  eapply returns_bind; [apply close_if_open_value |]. cbv beta. intros w s4 [H4 Hwneg]. rewrite H3 in H4. clear H3. cbn [job_control_fd].
  destruct (is_ok st) eqn:Est; cbn [negb].
  2: { apply is_ok_false in Est. eapply cancelled_result; [done | exact H4 |]. right. exists start, chunks, rest, []. by rewrite app_nil_r. }
  apply is_ok_true in Est as ->. rewrite (Hok eq_refl), app_nil_r in Hsec. clear Hok.
  eapply returns_bind; [apply send_control_log |]. cbv beta. intros sent s5 H5. rewrite H4 in H5. destruct sent; cbn [negb].
  2: { destruct H5 as [H5 | [_ H5]].
       - rewrite <- app_assoc in H5. eapply cancelled_result; [done | exact H5 |]. right. exists start, chunks, [], [Sent PV_CLIP_MSG_DONE]. by rewrite app_nil_r.
       - eapply cancelled_result; [done | exact H5 |]. right. exists start, chunks, [], []. by rewrite !app_nil_r. }
  destruct H5 as [H5 | [? _]]; [| done]. rewrite <- app_assoc in H5. cbn [app] in H5. clear H4.
  eapply returns_bind; [apply wait_for_message_log |]. cbv beta. intros st s6 H6. rewrite H5 in H6. destruct H6 as [[-> H6] | [Hst H6]]; cbn [is_ok negb].
  2: { rewrite (proj2 (is_ok_false st) Hst). cbn [negb]. destruct H6 as [H6 | [n H6]].
       - eapply cancelled_result; [done | exact H6 |]. right. exists start, chunks, [], [Sent PV_CLIP_MSG_DONE]. by rewrite app_nil_r.
       - rewrite <- app_assoc in H6. cbn [app] in H6. rewrite <- app_assoc in H6. cbn [app] in H6.
         eapply cancelled_result; [done | exact H6 |]. right. exists start, chunks, [], [Sent PV_CLIP_MSG_DONE; Got n]. by rewrite app_nil_r. }
  rewrite <- app_assoc in H6. cbn [app] in H6. rewrite <- app_assoc in H6. cbn [app] in H6. clear H5.
  eapply returns_bind; [apply close_if_open_value |]. cbv beta. intros c s7 [H7 Hcneg]. eapply returns_bind; [apply close_if_open_value |]. cbv beta. intros f s8 [H8 Hfneg].
  rewrite H7, H6 in H8. kret. eexists. split_and!; [exact H8 | | | by split_and!].
  - right. exists start, chunks, [], [Sent PV_CLIP_MSG_DONE; Got PV_CLIP_MSG_ACCEPTED]. by rewrite app_nil_r.
  - intros _. by exists start, chunks.
Qed.

End send.

(** C14: the worker and the owner it starts. For every answer of the kernel, when the
    worker returns, every owner of the clipboard it started has been reaped or could
    not be killed; it tells that the secret was accepted only after it received the
    message that starts the copy, started one owner, told it is ready, received the
    message that the secret is complete and armed the timer with the time to live,
    in this order; and it succeeds only when it accepted the secret. *)
Theorem worker_ends_owner environ data_fd control_fd setup_fd ttl s status s' : setup_fd <> control_fd ->
  worker_loop environ data_fd control_fd setup_fd ttl s = Some (Returned status, s') ->
  exists l, clip_log control_fd control_fd s' = clip_log control_fd control_fd s ++ l /\
    (forall p, Spawned p ∈ l -> Reaped p ∈ l \/ Unkillable p ∈ l) /\
    (Sent PV_CLIP_MSG_ACCEPTED ∈ l -> exists start p l', l = stages start p ttl ++ l' /\ ends p l') /\
    (status = PV_OK -> Sent PV_CLIP_MSG_ACCEPTED ∈ l).
Proof. intros Hne E. exact (worker_loop_log control_fd control_fd environ data_fd setup_fd ttl s Hne Hne _ _ E). Qed.

(** ** The arguments of the helper *)

Lemma parse_ttl_decimal ttl : 1 <= ttl <= PV_CLIP_MAX_TTL_SECONDS -> parse_ttl_argument (decimal ttl) = Some ttl.
Proof.
  intros Ht. pose proof (parse_decimal ttl 1 PV_CLIP_MAX_TTL_SECONDS 0 ltac:(lia) Ht ltac:(done)) as H.
  unfold parse_unsigned, parse_ttl_argument in *. destruct (strtoul (decimal ttl)) as [[value failed] rest]. split_if_in H; [done |]. injection H as ->.
  split_if; [exfalso | done]. repeat (apply orb_false_iff in Heqb as [Heqb ?]). subst failed. lia.
Qed.

(** The worker reads back the arguments it is started with. *)
Lemma worker_main_arguments environ ttl : 1 <= ttl <= PV_CLIP_MAX_TTL_SECONDS ->
  pv_clipboard_worker_main environ (helper_arguments ttl) = (status ← worker_loop environ PV_CLIP_DATA_FD PV_CLIP_CONTROL_FD PV_CLIP_SETUP_FD ttl; mret (pv_status_exit_code status)).
Proof.
  intros Ht. unfold pv_clipboard_worker_main, helper_arguments. rewrite (parse_ttl_decimal ttl Ht). reflexivity.
Qed.

(** ** The programs that are run *)

(** A session that is X11 and not XWayland under a Wayland session. *)
Definition native_x11 (environ : list (list Z)) : Prop :=
  is_value (environ_get environ (cstr "XDG_SESSION_TYPE")) (cstr "x11") = true /\
  not_empty (environ_get environ (cstr "WAYLAND_DISPLAY")) = false /\ not_empty (environ_get environ (cstr "DISPLAY")) = true.

(** The variables of the environment the owner may see. *)
Definition owner_variable (entry : list Z) : Prop :=
  exists name value, name ∈ [cstr "DISPLAY"; cstr "XAUTHORITY"; cstr "HOME"; cstr "LANG"; cstr "LC_ALL"; cstr "LC_CTYPE"] /\ entry = name ++ [61] ++ value.

Lemma allowed_variable entry : env_key_is_allowed entry = true -> owner_variable entry.
Proof.
  unfold env_key_is_allowed, owner_variable. set (names := [cstr "DISPLAY"; _; _; _; _; _]). rewrite existsb_exists. intros (key & Hin & Hk). apply bytes_eqb_eq in Hk.
  change owner_keys with (map (fun name => name ++ [61]) names) in Hin. apply in_map_iff in Hin as (name & <- & Hname).
  exists name, (drop (length (name ++ [61])) entry). split; [by apply list_elem_of_In |]. rewrite app_assoc.
  unfold zsub, zlen in Hk. rewrite Nat2Z.id in Hk. rewrite <- Hk at 1. symmetry. apply take_drop.
Qed.

(** The owner of the clipboard: [xclip], with at most fifteen entries of the
    environment, all of them for those variables. *)
Definition owner_program (environ : list (list Z)) (path : list Z) (argv : list (list Z)) (envp : option (list (list Z))) : Prop :=
  path = PV_XCLIP_PATH /\ argv = xclip_arguments /\
  exists env, envp = Some env /\ sublist env environ /\ Forall owner_variable env /\ zlen env <= 15.

Lemma owner_environment_loop_ok environ capacity count : 0 <= count ->
  sublist (owner_environment_loop environ capacity count) environ /\
  Forall (fun e => env_key_is_allowed e = true) (owner_environment_loop environ capacity count) /\
  zlen (owner_environment_loop environ capacity count) <= Z.max 0 (capacity - 1 - count).
Proof.
  revert count. induction environ as [| entry environ IH]; intros count Hc; cbn [owner_environment_loop]; [split_and!; [constructor | constructor |]; rewrite zlen_nil; lia |].
  destruct (Z.ltb_spec (count + 1) capacity); [| split_and!; [apply sublist_nil_l | constructor |]; rewrite zlen_nil; lia].
  destruct (env_key_is_allowed entry) eqn:E.
  - destruct (IH (count + 1) ltac:(lia)) as (Hs & Ha & Hl). split_and!; [by constructor | by constructor |]. rewrite zlen_cons. lia.
  - destruct (IH count Hc) as (Hs & Ha & Hl). split_and!; [by constructor | done | done].
Qed.

Lemma owner_environment_ok environ : owner_program environ PV_XCLIP_PATH xclip_arguments (Some (build_owner_environment environ 16)).
Proof.
  split_and!; [done | done |]. eexists. split; [done |]. destruct (owner_environment_loop_ok environ 16 0) as (Hs & Ha & Hl); [lia |].
  split_and!; [done | | done]. exact (Forall_impl owner_variable allowed_variable Ha).
Qed.

Lemma spawn_owner_execs environ data_fd : execs (owner_program environ) (spawn_owner environ data_fd).
Proof.
  unfold spawn_owner, owner_exec, normalize_child_signal_state, redirect_output_fds, redirect_fds, close_fds_from.
  assert (H1 : forall l, execs (owner_program environ) (reset_signals l)) by (induction l; cbn [reset_signals]; no_exec; auto).
  assert (H2 : forall l, execs (owner_program environ) (close_each l)) by (induction l; cbn [close_each]; no_exec; auto).
  assert (H3 : forall fd l, execs (owner_program environ) (dup2_each fd l)) by (induction l; cbn [dup2_each]; no_exec; auto).
  no_exec; auto using owner_environment_ok.
Qed.

Lemma choose_backend_x11 environ s : kwp (choose_backend environ) (returns (fun b _ => b = PV_CLIP_BACKEND_X11 -> native_x11 environ)) s.
Proof.
  unfold choose_backend. cbv zeta. split_if; [by kret |]. apply orb_false_iff in Heqb as [Hw _]. split_if; [by kret |]. split_if; [| by kret].
  eapply returns_bind; [apply returns_true |]. intros ok s1 _. kret. intros _. apply negb_false_iff in Heqb. by split_and!.
Qed.

Lemma worker_setup_x11 environ data_fd control_fd setup_fd s : kwp (worker_setup environ data_fd control_fd setup_fd)
  (returns (fun st _ => st = PV_OK -> native_x11 environ)) s.
Proof.
  unfold worker_setup. eapply returns_bind; [apply returns_true |]. intros ? ? _. split_if; [by kret |].
  eapply returns_bind; [apply returns_true |]. intros ? ? _. do 4 (eapply returns_bind; [apply returns_true |]; intros ? ? _; split_if; [by kret |]).
  eapply returns_bind; [apply choose_backend_x11 |]. cbv beta. intros b sb H. kret. destruct b; auto. done.
Qed.

Lemma worker_serve_execs environ data_fd control_fd ttl : execs (owner_program environ) (worker_serve environ data_fd control_fd ttl).
Proof. pose proof (spawn_owner_execs environ). unfold worker_serve. no_exec. Qed.

(** C35: the clipboard fails closed. The only program the worker can become is
    [xclip] with the fixed arguments, and then the session is a native X11 session
    by its environment: [XDG_SESSION_TYPE] is [x11], [DISPLAY] is set and
    [WAYLAND_DISPLAY] is not; it gets at most fifteen entries of the environment, in
    their order, all of them of the six allowed variables. *)
Theorem worker_runs_xclip environ data_fd control_fd setup_fd ttl s path argv envp s' :
  worker_loop environ data_fd control_fd setup_fd ttl s = Some (Executed path argv envp, s') ->
  native_x11 environ /\ owner_program environ path argv envp.
Proof.
  intros E. cut (execs (fun p v e => native_x11 environ /\ owner_program environ p v e) (worker_loop environ data_fd control_fd setup_fd ttl)); [intros H; exact (H s _ _ E) |].
  assert (Hserve : native_x11 environ -> execs (fun p v e => native_x11 environ /\ owner_program environ p v e) (worker_serve environ data_fd control_fd ttl)).
  { intros Hx s1 r s2 Er. pose proof (worker_serve_execs environ data_fd control_fd ttl s1 r s2 Er) as H. by destruct r. }
  assert (Hreset : forall l, execs (fun p v e => native_x11 environ /\ owner_program environ p v e) (reset_signals l)) by (induction l; cbn [reset_signals]; no_exec; auto).
  unfold worker_loop. apply execs_bind; [no_exec | intros _].
  apply execs_bind_if with (R := fun st => st = PV_OK -> native_x11 environ); [no_exec | intros; apply worker_setup_x11 |]. intros status Hst.
  apply execs_bind; [no_exec | intros pid]. apply execs_bind; [no_exec | intros reported]. cbv zeta. apply execs_bind; [no_exec | intros fd].
  apply execs_bind; [| intros [st w]; no_exec]. destruct reported; cbn [negb]; [| apply execs_ret]. destruct (is_ok status) eqn:Eok; [| apply execs_ret]. by apply Hserve, Hst, is_ok_true.
Qed.

(** ** Starting the worker *)

Lemma rfind_char_Some l c i : rfind_char l c = Some i -> 0 <= i < zlen l /\ znth l i = c.
Proof.
  unfold rfind_char. destruct (find_char (rev l) c) as [j |] eqn:E; [| done]. intros [= <-]. apply find_char_Some in E as (Hj & Hn & _).
  unfold zlen, znth in *. rewrite length_rev in Hj. split; [lia |]. rewrite rev_nth in Hn by lia. rewrite <- Hn. f_equal. lia.
Qed.

Definition helper_path (path : list Z) : Prop := exists directory, path = directory ++ cstr "/pvault-clip".

Lemma resolve_helper_ok capacity s : kwp (resolve_helper_path capacity) (returns (fun r _ => fst r = PV_OK -> helper_path (snd r))) s.
Proof.
  unfold resolve_helper_path. cbv zeta. split_if; [by kret |]. eapply returns_bind; [apply returns_true |]. intros link s1 _. split_if; [by kret |].
  destruct (rfind_char _ 47) as [slash |] eqn:Er; [| by kret]. apply rfind_char_Some in Er as [Hi Hc]. split_if; [by kret |].
  eapply returns_bind; [apply returns_true |]. intros [] s2 _.
  - kret. intros _. cbn [snd]. set (path := zsub (a_out link) 0 (a_ret link)) in *. exists (zsub path 0 slash).
    rewrite <- (zsub_join path 0 slash 1) by lia. rewrite <- app_assoc. f_equal. change (cstr "/pvault-clip") with ([47] ++ cstr "pvault-clip"). f_equal.
    unfold zsub, znth, zlen in *. rewrite <- Hc. cbn [Z.add]. rewrite <- (take_drop (Z.to_nat slash) path) at 2. rewrite app_nth2; rewrite length_take; [| lia].
    replace (Z.to_nat slash - _)%nat with 0%nat by lia. rewrite Z.add_0_l. destruct (drop (Z.to_nat slash) path) eqn:Ed; [| done].
    apply (f_equal length) in Ed. rewrite length_drop in Ed. cbn in Ed. lia.
  - split_if; [by kret |]. eapply returns_bind; [apply returns_true |]. intros ok s3 _. kret. intros _. by exists (cstr "/usr/bin").
Qed.

(** What a process of [pv_clipboard_prepare] becomes: the helper as a worker. *)
Definition helper_program (ttl : Z) (path : list Z) (argv : list (list Z)) (envp : option (list (list Z))) : Prop :=
  helper_path path /\ argv = helper_arguments ttl /\ envp = None.

Lemma launch_execs path data_fd control_fd setup_fd ttl : helper_path path -> execs (helper_program ttl) (launch_detached_helper path data_fd control_fd setup_fd ttl).
Proof.
  intros Hp. assert (H2 : forall l, execs (helper_program ttl) (close_each l)) by (induction l; cbn [close_each]; no_exec; auto).
  assert (H3 : forall fd l, execs (helper_program ttl) (dup2_each fd l)) by (induction l; cbn [dup2_each]; no_exec; auto).
  unfold launch_detached_helper. no_exec. done.
Qed.

(** The process started to serve the clipboard is the helper of the program's own
    directory or of [/usr/bin], and reads its arguments back as the descriptors the
    pipes were moved to and the time to live: the one asked for, or the default for
    zero. *)
Theorem prepare_runs_worker ttl s path argv envp s' : 0 <= ttl ->
  pv_clipboard_prepare ttl s = Some (Executed path argv envp, s') ->
  let ttl' := if ttl =? 0 then PV_DEFAULT_CLIPBOARD_TTL else ttl in
  helper_path path /\ envp = None /\ 1 <= ttl' <= PV_CLIP_MAX_TTL_SECONDS /\
  forall environ, pv_clipboard_worker_main environ argv =
    (status ← worker_loop environ PV_CLIP_DATA_FD PV_CLIP_CONTROL_FD PV_CLIP_SETUP_FD ttl'; mret (pv_status_exit_code status)).
Proof.
  intros Ht E. cbv zeta. set (ttl' := if ttl =? 0 then PV_DEFAULT_CLIPBOARD_TTL else ttl).
  assert (Hrange : ttl' <= PV_CLIP_MAX_TTL_SECONDS \/ PV_CLIP_MAX_TTL_SECONDS < ttl') by lia. unfold pv_clipboard_prepare in E. cbv zeta in E. fold ttl' in E.
  destruct Hrange as [Hle | Hgt]; [| by rewrite (proj2 (Z.ltb_lt _ _) Hgt) in E]. rewrite (proj2 (Z.ltb_ge _ _) Hle) in E.
  assert (Hge : 1 <= ttl') by (unfold ttl', PV_DEFAULT_CLIPBOARD_TTL; destruct (Z.eqb_spec ttl 0); lia).
  match type of E with ?m s = _ => assert (Hx : execs (helper_program ttl') m) end.
  { apply execs_bind_if with (R := fun r => fst r = PV_OK -> helper_path (snd r)); [no_exec | intros; apply resolve_helper_ok |]. intros [st hp] Hhp.
    cbn [fst snd] in Hhp. split_if; [no_exec |]. assert (Hh : helper_path hp) by (apply Hhp, is_ok_true; by destruct (is_ok st)).
    pose proof (launch_execs hp) as Hl. no_exec. }
  destruct (Hx s _ _ E) as (Hp & -> & ->). split_and!; [done | done | done | done |]. intros environ. by apply worker_main_arguments.
Qed.

(** ** Descriptors *)

Inductive fd_event := Opened (fds : list Z) | Closed (fd : Z).

Definition fd_watch : Watch fd_event := fun e =>
  match fst e with
  | C_pipe2 _ | C_socketpair _ => if a_ret (snd e) =? 0 then Some (Opened [znth (a_out (snd e)) 0; znth (a_out (snd e)) 1]) else None
  | C_pidfd_open _ => Some (Opened [a_ret (snd e)])
  | C_close fd => Some (Closed fd)
  | _ => None
  end.

Section descriptors.
Context (fd : Z) (Hfd : 0 <= fd).
#[local] Hint Extern 0 (Watch _) => exact fd_watch : typeclass_instances.

Definition held (x : Z) : Z := if x =? fd then 1 else 0.

Definition weight (e : fd_event) : Z :=
  match e with Opened fds => foldr (fun x n => held x + n) 0 fds | Closed x => - held x end.

(** How often [fd] was returned by a call and not closed since. *)
Definition open_count (s : kst) : Z := foldr (fun e n => weight e + n) 0 (log s).

Lemma held_negative x : x < 0 -> held x = 0.
Proof. intros H. unfold held. destruct (Z.eqb_spec x fd); [lia | done]. Qed.

Lemma open_count_called s rest c a : open_count (called s rest c a) = open_count s + match fd_watch (c, a) with Some e => weight e | None => 0 end.
Proof.
  unfold open_count. rewrite log_called. change (notable (c, a)) with (fd_watch (c, a)). destruct (fd_watch (c, a)) as [e |]; [| rewrite app_nil_r; lia].
  induction (log s) as [| x l IH]; cbn [app foldr] in *; lia.
Qed.

Lemma count_keeps {A} (m : K A) s : keeps m -> kwp m (returns (fun _ s' => open_count s' = open_count s)) s.
Proof. intros Hk. eapply returns_mono; [by apply returns_keeps |]. cbv beta. intros x s' H. unfold open_count. by rewrite H. Qed.

Lemma count_ask c s : kwp (ask c) (returns (fun a s' => open_count s' = open_count s + match fd_watch (c, a) with Some e => weight e | None => 0 end)) s.
Proof. apply returns_ask. intros a rest. apply open_count_called. Qed.

(** Steps over a computation that neither opens nor closes. *)
Tactic Notation "cstep" simple_intropattern(x) simple_intropattern(s') :=
  eapply returns_bind; [apply count_keeps; solve [keep] |];
  let H := fresh "H" in intros x s' H; cbv beta in H; rewrite <- H; clear H.

Lemma close_count x s : kwp (close_if_open x) (returns (fun x' s' => x' < 0 /\ open_count s' = open_count s - held x)) s.
Proof.
  unfold close_if_open. destruct (Z.leb_spec 0 x) as [Hx | Hx]; [| kret; rewrite held_negative by done; split; [done | lia]].
  cstep e s1. eapply returns_bind; [apply count_ask |]. cbv beta. intros a s2 H2. cbn in H2. eapply returns_bind; [apply count_keeps; keep |]. cbv beta. intros u s3 H3.
  kret. split; [lia |]. rewrite H3, H2. lia.
Qed.

(** What a job holds. *)
Definition job_held (job : pv_clipboard_job) : Z := held (job_write_fd job) + held (job_control_fd job) + held (job_supervisor_fd job).

Lemma no_job_held : job_held no_job = 0.
Proof. unfold job_held, no_job. cbn. rewrite !held_negative; lia. Qed.

Lemma pidfd_signal_count x n : keeps (pidfd_signal_local x n).
Proof. unfold pidfd_signal_local. keep. Qed.

Lemma cancel_count job s : kwp (pv_clipboard_cancel job) (returns (fun job' s' => released job' /\ open_count s' = open_count s - job_held job)) s.
Proof.
  pose proof pidfd_signal_count. unfold pv_clipboard_cancel. eapply returns_bind; [apply close_count |]. cbv beta. intros w s1 [Hw H1].
  eapply returns_bind; [apply close_count |]. cbv beta. intros c s2 [Hc H2]. eapply returns_bind; [apply count_keeps; keep |]. cbv beta. intros u s3 H3.
  eapply returns_bind; [apply close_count |]. cbv beta. intros f s4 [Hf H4]. kret. split; [by split_and! |]. unfold job_held. lia.
Qed.

Lemma pipe_count c s : c = C_pipe2 524288 \/ c = C_socketpair 5 ->
  kwp (ask c) (returns (fun a s' => open_count s' = open_count s + if a_ret a =? 0 then held (fst (new_pair a)) + held (snd (new_pair a)) else 0)) s.
Proof.
  intros Hc. eapply returns_mono; [apply count_ask |]. cbv beta. intros a s' ->. unfold new_pair. cbn [fst snd].
  destruct Hc as [-> | ->]; cbn; destruct (a_ret a =? 0); cbn; lia.
Qed.

Lemma wait_for_setup_keeps x : keeps (wait_for_setup x).
Proof. unfold wait_for_setup, poll_one, read_all. keep. Qed.

(** The result of [wait_for_setup] is a status and the process identifier of the
    worker. *)
Lemma wait_for_setup_valid x s : kwp (wait_for_setup x) (returns (fun r _ => fst r = PV_OK -> 1 < snd r <= INT_MAX)) s.
Proof.
  unfold wait_for_setup. eapply returns_bind; [apply returns_true |]. intros ready s1 _. split_if; [by kret |]. split_if; [by kret |].
  eapply returns_bind; [apply returns_true |]. intros [bytes |] s2 _; [| by kret].
  kret. destruct (setup_fields bytes) as [[magic st] pid]. split_if; [done |]. split_if; [done |]. cbn [snd]. lia.
Qed.

Lemma wait_for_setup_pid x s : kwp (wait_for_setup x) (returns (fun r s' => open_count s' = open_count s /\ (fst r = PV_OK -> 1 < snd r <= INT_MAX))) s.
Proof.
  intros r s' E. pose proof (wait_for_setup_keeps x s r s' E) as Hk. pose proof (wait_for_setup_valid x s r s' E) as Hv. destruct r as [r | |]; [| done | done].
  cbn [returns] in *. split; [unfold open_count; by rewrite Hk | done].
Qed.

Lemma pidfd_open_count pid s : kwp (pidfd_open_local pid) (returns (fun f s' => open_count s' = open_count s + held f)) s.
Proof. unfold pidfd_open_local. eapply returns_bind; [apply count_ask |]. cbv beta. intros a s1 H1. cbn in H1. kret. lia. Qed.

(** The descriptors of the two ends of the pipes and of the job. *)
Definition prep_held (p : prep) : Z :=
  held (fst (pr_data p)) + held (snd (pr_data p)) + held (fst (pr_control p)) + held (snd (pr_control p)) +
  held (fst (pr_setup p)) + held (snd (pr_setup p)) + job_held (pr_job p).

Definition prepared (s : kst) (r : pv_status * prep) (s' : kst) : Prop :=
  open_count s' = open_count s + prep_held (snd r) /\ (fst r <> PV_OK -> pr_job (snd r) = no_job) /\
  (fst r = PV_OK -> 1 < job_supervisor_pid (pr_job (snd r)) <= INT_MAX /\ pr_sigchld (snd r) = None).

Lemma prepare_parent_count launcher previous data control setup s :
  kwp (prepare_parent launcher previous data control setup) (returns (fun r s' =>
    open_count s' = open_count s + prep_held (snd r) - (held (fst data) + held (snd data) + held (fst control) + held (snd control) + held (fst setup) + held (snd setup)) /\
    (fst r <> PV_OK -> pr_job (snd r) = no_job) /\ (fst r = PV_OK -> 1 < job_supervisor_pid (pr_job (snd r)) <= INT_MAX /\ pr_sigchld (snd r) = None))) s.
Proof.
  unfold prepare_parent, waitpid_nointr. eapply returns_bind; [apply close_count |]. cbv beta. intros d s1 [Hd H1]. eapply returns_bind; [apply close_count |]. cbv beta. intros c s2 [Hc H2].
  eapply returns_bind; [apply close_count |]. cbv beta. intros u s3 [Hu H3]. cbv zeta.
  eapply returns_bind; [apply count_keeps; keep |]. cbv beta. intros w s4 H4. eapply returns_bind; [apply count_keeps; keep |]. cbv beta. intros restored s5 H5.
  pose proof (held_negative d Hd) as N1. pose proof (held_negative c Hc) as N2. pose proof (held_negative u Hu) as N3. pose proof (held_negative (-1) ltac:(lia)) as N4. pose proof no_job_held as N5.
  destruct restored; [| kret; unfold prep_held; cbn; split_and!; [lia | done | done]]. split_if; [kret; unfold prep_held; cbn; split_and!; [lia | done | done] |].
  eapply returns_bind; [apply wait_for_setup_pid |]. intros [st pid] s6 [H6 Hpid]. cbn [fst snd] in Hpid.
  destruct (is_ok st) eqn:Est; cbn [negb]; [apply is_ok_true in Est as -> | apply is_ok_false in Est; kret; unfold prep_held; cbn; split_and!; [lia | done | done]].
  eapply returns_bind; [apply pidfd_open_count |]. cbv beta. intros f s7 H7. kret. unfold prep_held, job_held. cbn. split_and!; [lia | done |]. intros _. by split; [apply Hpid |].
Qed.

Lemma prepare_steps_count path ttl s : kwp (prepare_steps path ttl) (returns (prepared s)) s.
Proof.
  pose proof (held_negative (-1) ltac:(lia)) as N. pose proof no_job_held as N'.
  unfold prepare_steps, set_nonblocking, set_sigchld_default, fork, prepared. eapply returns_bind; [apply pipe_count; by left |]. cbv beta. intros a s1 H1.
  destruct (a_ret a =? 0); cbn [negb]; [| kret; unfold prep_held; cbn; split_and!; [lia | done | done]]. cbv zeta.
  eapply returns_bind; [apply pipe_count; by right |]. cbv beta. intros b s2 H2.
  destruct (a_ret b =? 0); cbn [negb]; [| kret; unfold prep_held; cbn; cbn in H1; split_and!; [lia | done | done]].
  eapply returns_bind; [apply pipe_count; by left |]. cbv beta. intros c s3 H3.
  destruct (a_ret c =? 0); cbn [negb]; [| kret; unfold prep_held; cbn; cbn in H1, H2; split_and!; [lia | done | done]].
  eapply returns_bind; [apply count_keeps; keep |]. cbv beta. intros flagged s4 H4. split_if; [kret; unfold prep_held; cbn; cbn in H1, H2, H3; split_and!; [lia | done | done] |].
  eapply returns_bind; [apply count_keeps; keep |]. cbv beta. intros [previous |] s5 H5; [| kret; unfold prep_held; cbn; cbn in H1, H2, H3; split_and!; [lia | done | done]].
  eapply returns_bind; [apply count_keeps; keep |]. cbv beta. intros launcher s6 H6. split_if; [kret; unfold prep_held; cbn; cbn in H1, H2, H3; split_and!; [lia | done | done] |].
  split_if; [repeat (eapply returns_bind; [apply returns_true |]; intros ? ? _); apply returns_exit |].
  eapply returns_mono; [apply prepare_parent_count |]. cbv beta. intros r s7 (H7 & Hbad & Hgood). split_and!; [lia | done | done].
Qed.

Lemma resolve_helper_keeps capacity : keeps (resolve_helper_path capacity).
Proof. unfold resolve_helper_path. keep. Qed.

Lemma prepare_count ttl s : kwp (pv_clipboard_prepare ttl) (returns (fun r s' =>
  open_count s' = open_count s + job_held (snd r) /\ (fst r <> PV_OK -> released (snd r)) /\ (fst r = PV_OK -> 1 < job_supervisor_pid (snd r) <= INT_MAX))) s.
Proof.
  assert (Hnone : released no_job) by by split_and!. pose proof no_job_held as N.
  unfold pv_clipboard_prepare. cbv zeta. split_if; [kret; cbn [fst snd]; split_and!; [lia | done | done] |].
  eapply returns_bind; [apply count_keeps, resolve_helper_keeps |]. cbv beta. intros [st path] s1 H1. destruct (is_ok st) eqn:Est; cbn [negb].
  2: { apply is_ok_false in Est. kret. cbn [fst snd]. split_and!; [lia | done | done]. }
  eapply returns_bind; [apply prepare_steps_count |]. intros [st2 p] s2 (H2 & Hbad & Hgood). cbn [fst snd] in *.
  eapply returns_bind with (P := fun st3 s' => open_count s' = open_count s2 /\ st3 = st2).
  { destruct (pr_sigchld p) eqn:Esig; [| by kret]. eapply returns_bind; [apply count_keeps; keep |]. cbv beta. intros r s3 H3. kret. split; [done |].
    destruct r; [done |]. destruct (is_ok st2) eqn:E2; [| done]. apply is_ok_true in E2. by destruct (Hgood E2). }
  cbv beta. intros st3 s3 [H3 ->]. do 6 (eapply returns_bind; [apply close_count |]; cbv beta; intros ? ? [_ ?]).
  destruct (is_ok st2) eqn:E2; cbn [negb andb].
  - apply is_ok_true in E2. kret. cbn [fst snd]. destruct (Hgood E2) as [Hpid _]. unfold prep_held in H2. split_and!; [lia | by rewrite E2 | by intros].
  - apply is_ok_false in E2. rewrite (Hbad E2). cbn [no_job job_supervisor_pid]. change (1 <? -1) with false. cbv iota. kret. cbn [fst snd].
    unfold prep_held in H2. rewrite (Hbad E2) in H2. split_and!; [lia | done | done].
Qed.

(** Sending closes every descriptor of the job, once. *)
Lemma send_control_same x m : keeps (send_control x m).
Proof. unfold send_control. keep. Qed.

Lemma wait_for_message_same m x : keeps (wait_for_message m x).
Proof. unfold wait_for_message, poll_one, receive_control. keep. Qed.

Lemma write_secret_same x y secret : keeps (write_secret x y secret).
Proof. unfold write_secret, write_turn. keep. Qed.

Lemma cancelled_count (status : pv_status) job s : kwp (job ← pv_clipboard_cancel job; mret (status, job))
  (returns (fun (r : pv_status * pv_clipboard_job) s' => released (snd r) /\ open_count s' = open_count s - job_held job)) s.
Proof. eapply returns_bind; [apply cancel_count |]. cbv beta. intros job' s1 H1. by kret. Qed.

Lemma send_count job secret s : ~ refused job secret -> kwp (pv_clipboard_send job secret) (returns (fun r s' =>
  released (snd r) /\ open_count s' = open_count s - job_held job)) s.
Proof.
  intros Hr. pose proof send_control_same as Hsame1. pose proof wait_for_message_same as Hsame2. pose proof write_secret_same as Hsame3.
  assert (Hcancel : forall (status : pv_status) job' s1, open_count s1 - job_held job' = open_count s - job_held job -> kwp (job ← pv_clipboard_cancel job'; mret (status, job))
    (returns (fun r s' => released (snd r) /\ open_count s' = open_count s - job_held job)) s1).
  { intros status job' s1 Hs. eapply returns_mono; [apply cancelled_count |]. cbv beta. intros r s' [Hrel Hc]. split; [done | lia]. }
  rewrite (send_not_refused job secret Hr). unfold send_steps, wait_for_owner_ready, wait_for_owner_accepted. cbv zeta.
  eapply returns_bind; [apply count_keeps; auto |]. cbv beta. intros sent s1 H1. split_if; [apply Hcancel; lia |].
  eapply returns_bind; [apply count_keeps; auto |]. cbv beta. intros st s2 H2. split_if; [apply Hcancel; lia |].
  eapply returns_bind; [apply count_keeps; auto |]. cbv beta. intros st' s3 H3. eapply returns_bind; [apply close_count |]. cbv beta. intros w s4 [Hw H4].
  pose proof (held_negative w Hw) as Hw0. set (job1 := mk_clip_job w (job_control_fd job) (job_supervisor_fd job) (job_supervisor_pid job)).
  assert (Hj : open_count s4 - job_held job1 = open_count s - job_held job) by (unfold job_held, job1; cbn; lia).
  split_if; [by apply Hcancel |]. eapply returns_bind; [apply count_keeps; auto |]. cbv beta. intros sent' s5 H5. split_if; [apply Hcancel; lia |].
  eapply returns_bind; [apply count_keeps; auto |]. cbv beta. intros st'' s6 H6. split_if; [apply Hcancel; lia |].
  eapply returns_bind; [apply close_count |]. cbv beta. intros c s7 [Hc H7]. eapply returns_bind; [apply close_count |]. cbv beta. intros f s8 [Hf H8].
  kret. split; [by split_and! |]. unfold job_held, job1 in *. cbn in *. lia.
Qed.

End descriptors.

(** C6: copying a secret follows the protocol. For every answer of the kernel: when
    the arguments are refused (no bytes, too many, or a job without a worker) the
    status is [PV_ERR_USAGE] or [PV_ERR_LIMIT], nothing is sent, nothing is closed and
    the job is as before. Otherwise bytes of the secret are written only after the message
    that the owner is ready was received, and what is written is a beginning of the
    secret, in order; the status is [PV_OK] only when the whole secret was written,
    the message that it is complete sent after it, and the message that it was
    accepted received after that; and, success or failure, [close] was called exactly
    once for each descriptor of the job, which afterwards names none. *)
Theorem clipboard_send_protocol job secret s status job' s' : job_write_fd job <> job_control_fd job ->
  pv_clipboard_send job secret s = Some (Returned (status, job'), s') ->
  exists l, clip_log (job_control_fd job) (job_write_fd job) s' = clip_log (job_control_fd job) (job_write_fd job) s ++ l /\
    (refused job secret /\ (status = PV_ERR_USAGE \/ status = PV_ERR_LIMIT) /\ job' = job /\ l = [] /\ (forall fd, 0 <= fd -> open_count fd s' = open_count fd s) \/
     ~ refused job secret /\ sent_in_order (v_bytes secret) l /\ (status = PV_OK -> sent_all (v_bytes secret) l) /\ released job' /\
     (forall fd, 0 <= fd -> open_count fd s' = open_count fd s - job_held fd job)).
Proof.
  intros Hne E. destruct (send_cases job secret) as [[Hr (st & Hst & Hsend)] | [Hr _]].
  - rewrite Hsend in E. injection E as <- <- <-. exists []. rewrite app_nil_r. split; [done |]. by left.
  - destruct (send_log (job_control_fd job) (job_write_fd job) job secret s eq_refl eq_refl Hne Hr _ _ E) as (l & Hl & Hs & Hok & Hrel).
    exists l. split; [exact Hl |]. right. split_and!; [done.. |]. intros fd Hfd. exact (proj2 (send_count fd Hfd job secret s Hr _ _ E)).
Qed.

(** C34: starting the clipboard worker leaks nothing. Whatever the kernel answers,
    when [pv_clipboard_prepare] returns in the command, the descriptors it opened
    and that are still open are exactly those of the job; on failure there are none,
    and on success the job names a worker. *)
Theorem prepare_no_leak ttl s status job s' fd : 0 <= fd ->
  pv_clipboard_prepare ttl s = Some (Returned (status, job), s') ->
  open_count fd s' = open_count fd s + (if decide (status = PV_OK) then job_held fd job else 0) /\
  (status <> PV_OK -> released job) /\ (status = PV_OK -> 1 < job_supervisor_pid job <= INT_MAX).
Proof.
  intros Hfd E. destruct (prepare_count fd Hfd ttl s _ _ E) as (Hc & Hbad & Hgood). cbn [fst snd] in *. split_and!; [| done | done].
  rewrite Hc. case_decide as Hst; [done |]. destruct (Hbad Hst) as (Hw & Hcf & Hs & _). unfold job_held. rewrite !held_negative by done. lia.
Qed.

(** ** A copy that succeeds *)

Definition ok_answer (ret : Z) (out : list Z) : answer := mk_answer ret 1 out 0.

(** The answers to the [write] of [n] bytes: interruptions, and parts that add up. *)
Fixpoint accepts (writes : list answer) (n : Z) : Prop :=
  match writes with
  | [] => n = 0
  | a :: writes => 0 < n /\ (interrupted a = true /\ accepts writes n \/ 0 < a_ret a <= n /\ accepts writes (n - a_ret a))
  end.

Definition control_answers : list answer := [ok_answer 0 []; ok_answer 0 []; ok_answer 1 []; ok_answer 0 []].
Definition message_answers (m : Z) : list answer := [ok_answer 1 [POLLIN]; ok_answer 1 [m]].

Definition send_answers (writes : list answer) (supervised : bool) : list answer :=
  control_answers ++ message_answers PV_CLIP_MSG_READY ++ [ok_answer 0 []; ok_answer 0 []] ++ writes ++ [ok_answer 0 []; ok_answer 0 []] ++
  control_answers ++ message_answers PV_CLIP_MSG_ACCEPTED ++ ok_answer 0 [] :: if supervised then [ok_answer 0 []] else [].

Lemma send_control_runs fd m s rest : awaits s (control_answers ++ rest) -> runs (send_control fd m) s true rest.
Proof.
  intros Hs. unfold control_answers in Hs. cbn [app] in Hs. unfold send_control. eapply runs_bind; [eapply runs_ask; eassumption |]. intros s1 H1. cbn -[retry sys_ok]. eapply runs_bind; [eapply runs_ask; eassumption |]. intros s2 H2. cbn -[retry sys_ok].
  eapply runs_bind; [by eapply runs_retry; [exact H2 |] |]. intros s3 H3. eapply runs_errno; [exact H3 |]. intros e. cbn -[retry sys_ok].
  eapply runs_bind; [apply runs_ret; eassumption |]. intros s4 H4. eapply runs_bind with (x := true); [eapply runs_bind; [eapply runs_ask; eassumption |]; intros s5 H5; apply runs_ret; eassumption |].
  intros s5 H5. eapply runs_errno; [exact H5 |]. intros e'. by apply runs_ret.
Qed.

Lemma wait_for_message_runs fd m s rest : awaits s (message_answers m ++ rest) -> runs (wait_for_message m fd) s PV_OK rest.
Proof.
  intros Hs. unfold message_answers in Hs. cbn [app] in Hs. unfold wait_for_message, poll_one, receive_control. eapply runs_bind with (x := 1).
  { eapply runs_bind; [by eapply runs_retry_stop; [exact Hs |] |]. intros s1 H1. cbn. by apply runs_ret. }
  intros s1 H1. cbn -[retry_unless_stopped]. eapply runs_bind with (x := Some m).
  { eapply runs_bind; [by eapply runs_retry_stop; [exact H1 |] |]. intros s2 H2. cbn. by apply runs_ret. }
  intros s2 H2. cbn. rewrite Z.eqb_refl. by apply runs_ret.
Qed.

Lemma close_runs fd s a rest : 0 <= fd -> awaits s (a :: rest) -> runs (close_if_open fd) s (-1) rest.
Proof.
  intros Hfd Hs. unfold close_if_open. rewrite (proj2 (Z.leb_le 0 fd) Hfd). eapply runs_errno; [exact Hs |]. intros e.
  eapply runs_bind; [eapply runs_ask; eassumption |]. intros s1 H1. eapply runs_bind; [by apply runs_set_errno |]. intros s2 H2. by apply runs_ret.
Qed.

Lemma write_turn_progresses data control : progresses (write_turn data control).
Proof.
  intros rest s rest' s' E. unfold write_turn in E. split_if_in E; [done |]. unfold mbind, K_bind, ask in E. destruct (k_answers s) as [| a answers]; [done |].
  cbn -[retry] in E. split_if_in E; [injection E as _ <-; cbn; lia |]. split_if_in E; [injection E as _ <-; cbn; lia |]. split_if_in E; [| done].
  match type of E with context [retry ?c ?st] => destruct (retry c st) as [[[p | c' | p' v e] s1] |] eqn:Er end; [| done | done | done]. apply shrinks_retry in Er. cbn in Er.
  injection E as _ <-. cbn. lia.
Qed.

Lemma write_turn_runs data control secret a s rest : zlen secret <> 0 -> awaits s (a :: rest) ->
  (0 < a_ret a -> runs (write_turn data control secret) s (inl (drop (Z.to_nat (a_ret a)) secret)) rest) /\
  (interrupted a = true -> runs (write_turn data control secret) s (inl secret) rest).
Proof.
  intros Hn Hs. unfold write_turn. rewrite (proj2 (Z.eqb_neq (zlen secret) 0) Hn). split; intros Ha.
  - eapply runs_bind; [eapply runs_ask; eassumption |]. intros s1 H1. eapply runs_errno; [exact H1 |]. intros e. rewrite (proj2 (Z.ltb_lt _ _) Ha). by apply runs_ret.
  - destruct Hs as (Es & Hh & Hst). unfold runs, mbind, K_bind, ask. rewrite Es. cbn -[retry]. pose proof (interrupted_neg a Ha) as Hneg.
    unfold interrupted in Ha. rewrite (proj2 (Z.ltb_ge 0 (a_ret a))), (proj2 (Z.ltb_lt (a_ret a) 0)) in * by lia. cbn [andb] in Ha |- *. rewrite Ha.
    eexists. split; [done |]. unfold awaits. cbn. rewrite Hh, Hst. done.
Qed.

Lemma write_loop_runs data control writes secret s rest : accepts writes (zlen secret) -> awaits s (writes ++ rest) ->
  runs (iter (write_turn data control) secret) s PV_OK rest.
Proof.
  revert secret s. induction writes as [| a writes IH]; intros secret s Hw Hs; (apply runs_iter; [apply write_turn_progresses |]); cbn [accepts app] in *.
  - eapply runs_bind; [unfold write_turn; rewrite Hw; apply runs_ret; eassumption |]. intros s1 H1. by apply runs_ret.
  - destruct Hw as [Hn Hw]. destruct (write_turn_runs data control secret a s (writes ++ rest) ltac:(lia) Hs) as [Hpos Hint]. destruct Hw as [[Hi Hw] | [Hp Hw]].
    + eapply runs_bind; [by apply Hint |]. intros s1 H1. by apply IH.
    + eapply runs_bind; [apply Hpos; lia |]. intros s1 H1. apply IH; [| done]. unfold zlen in *. rewrite length_drop. by replace (Z.of_nat (length secret - Z.to_nat (a_ret a))) with (Z.of_nat (length secret) - a_ret a) by lia.
Qed.

Lemma write_secret_runs data control writes secret s rest : accepts writes (zlen secret) ->
  awaits s ([ok_answer 0 []; ok_answer 0 []] ++ writes ++ ok_answer 0 [] :: rest) -> runs (write_secret data control secret) s PV_OK rest.
Proof.
  intros Hw Hs. cbn [app] in Hs. unfold write_secret. eapply runs_bind; [eapply runs_ask; eassumption |]. intros s1 H1. cbn -[iter retry sys_ok]. eapply runs_bind; [eapply runs_ask; eassumption |]. intros s2 H2. cbn -[iter retry sys_ok].
  eapply runs_bind; [eapply write_loop_runs; eassumption |]. intros s3 H3. eapply runs_errno; [exact H3 |]. intros e. cbn -[retry sys_ok].
  eapply runs_bind; [apply runs_ret; eassumption |]. intros s4 H4. eapply runs_bind with (x := true); [eapply runs_bind; [eapply runs_ask; eassumption |]; intros s5 H5; apply runs_ret; eassumption |].
  intros s5 H5. by apply runs_ret.
Qed.

(** A copy can succeed. With a worker that answers and a pipe that takes the
    secret, in however many parts and with whatever interruptions, sending any
    secret within the limit returns [PV_OK] and releases the job. *)
Theorem clipboard_send_succeeds job bytes writes s : 0 <= job_write_fd job -> 0 <= job_control_fd job -> 1 < job_supervisor_pid job ->
  0 < zlen bytes <= PV_MAX_PLAINTEXT -> accepts writes (zlen bytes) ->
  k_answers s = send_answers writes (0 <=? job_supervisor_fd job) -> k_handled s = [] -> k_stop s = false ->
  exists job' s', pv_clipboard_send job (view_of bytes) s = Some (Returned (PV_OK, job'), s') /\ released job'.
Proof.
  intros Hw Hc Hp Hn Hacc Ha Hh Hst. pose proof (v_bytes_view_of bytes) as Hb.
  cut (exists job', runs (pv_clipboard_send job (view_of bytes)) s (PV_OK, job') [] /\ released job'); [intros (job' & (s' & E & _) & Hr); by exists job', s' |].
  assert (Hs : awaits s (send_answers writes (0 <=? job_supervisor_fd job))) by by split_and!. unfold send_answers in Hs.
  exists (mk_clip_job (-1) (-1) (if 0 <=? job_supervisor_fd job then -1 else job_supervisor_fd job) (-1)). split; [| split_and!; cbn; try lia; destruct (Z.leb_spec 0 (job_supervisor_fd job)); lia].
  unfold pv_clipboard_send, send_steps. cbv zeta. rewrite Hb. cbn [view_of v_data v_len].
  rewrite (proj2 (Z.eqb_neq (zlen bytes) 0)), (proj2 (Z.ltb_ge (job_write_fd job) 0)), (proj2 (Z.ltb_ge (job_control_fd job) 0)), (proj2 (Z.leb_gt (job_supervisor_pid job) 1)), (proj2 (Z.ltb_ge PV_MAX_PLAINTEXT (zlen bytes))) by lia.
  cbn [orb]. eapply runs_bind; [apply send_control_runs; eassumption |]. intros s1 H1. cbn [negb]. eapply runs_bind; [apply wait_for_message_runs; eassumption |]. intros s2 H2. cbn [is_ok negb].
  eapply runs_bind; [eapply write_secret_runs; eassumption |]. intros s3 H3. eapply runs_bind; [eapply close_runs; [done | eassumption] |]. intros s4 H4. cbn [is_ok negb job_control_fd job_supervisor_fd job_write_fd].
  eapply runs_bind; [apply send_control_runs; eassumption |]. intros s5 H5. cbn [negb]. eapply runs_bind; [apply wait_for_message_runs; eassumption |]. intros s6 H6. cbn [is_ok negb].
  eapply runs_bind; [eapply close_runs; [done | eassumption] |]. intros s7 H7. destruct (Z.leb_spec 0 (job_supervisor_fd job)) as [Hsup | Hsup].
  - eapply runs_bind; [eapply close_runs; [done | eassumption] |]. intros s8 H8. by apply runs_ret.
  - eapply runs_bind; [unfold close_if_open; rewrite (proj2 (Z.leb_gt 0 (job_supervisor_fd job))) by done; apply runs_ret; eassumption |]. intros s8 H8. by apply runs_ret.
Qed.

(** ** Instances *)

Definition ok0 : answer := ok_answer 0 [].
Definition start_with (answers : list answer) : kst := mk_kst answers [] 0 [] false.

(** The state at the end of a run. *)
Definition end_of {A} (s : kst) (r : option (outcome A * kst)) : kst := match r with Some (_, s') => s' | None => s end.

(** A command that sends a secret of four bytes, in two parts and with an
    interruption. *)
Definition clip_example_job : pv_clipboard_job := mk_clip_job 7 8 9 100.
Definition clip_example_writes : list answer := [ok_answer 1 []; mk_answer (-1) 4 [] 0; ok_answer 3 []].
Definition clip_example_start : kst := start_with (send_answers clip_example_writes true).
Definition clip_example_sent : kst := end_of clip_example_start (pv_clipboard_send clip_example_job (view_of (cstr "pass")) clip_example_start).

Lemma clip_example_run : pv_clipboard_send clip_example_job (view_of (cstr "pass")) clip_example_start = Some (Returned (PV_OK, no_job), clip_example_sent).
Proof. by vm_compute. Qed.

Lemma clipboard_send_protocol_witness : exists l, clip_log 8 7 clip_example_sent = clip_log 8 7 clip_example_start ++ l /\
  sent_in_order (cstr "pass") l /\ (PV_OK = PV_OK -> sent_all (cstr "pass") l) /\ released no_job /\
  (forall fd, 0 <= fd -> open_count fd clip_example_sent = open_count fd clip_example_start - job_held fd clip_example_job).
Proof.
  destruct (clipboard_send_protocol clip_example_job (view_of (cstr "pass")) clip_example_start PV_OK no_job clip_example_sent) as (l & Hl & [(_ & [H | H] & _) | (_ & H)]);
    [done | exact clip_example_run | discriminate | discriminate | exists l; split; [exact Hl | exact H]].
Defined.

Lemma clipboard_send_succeeds_witness : exists job' s',
  pv_clipboard_send clip_example_job (view_of (cstr "pass")) clip_example_start = Some (Returned (PV_OK, job'), s') /\ released job'.
Proof.
  apply (clipboard_send_succeeds clip_example_job (cstr "pass") clip_example_writes clip_example_start); try done.
  change (zlen (cstr "pass")) with 4. cbn [accepts clip_example_writes ok_answer a_ret]. split; [lia |]. right. split; [lia |]. split; [lia |]. left. split; [done |].
  split; [lia |]. right. split; lia.
Defined.

(** A worker in an X11 session whose owner runs until the time is over. *)
Definition clip_example_environ : list (list Z) := [cstr "XDG_SESSION_TYPE=x11"; cstr "TOKEN=1"; cstr "DISPLAY=:0"].

Definition worker_example_setup : list answer :=
  replicate 5 ok0 ++ replicate 3 ok0 ++ replicate 6 ok0 ++ replicate 3 ok0 ++ [ok0; ok_answer 40 []; ok_answer 16 []; ok0; ok_answer 1 [PV_CLIP_MSG_START_TEXT]].

Definition worker_example_answers : list answer :=
  worker_example_setup ++
  [ok_answer 40 []; ok_answer 0 [10; 11]; ok_answer 50 []; ok0; ok0; ok0; ok0; ok_answer 12 []; ok_answer 13 []] ++ control_answers ++
  [ok_answer 1 [POLLIN; 0]; ok_answer 1 [PV_CLIP_MSG_DONE]; ok0; ok0] ++ control_answers ++
  [ok0; ok_answer 1 [POLLIN; 0]; ok_answer 8 []; ok0; ok0; ok_answer 50 []; ok0; ok0].

Definition worker_example_start : kst := start_with worker_example_answers.
Definition worker_example_end : kst := end_of worker_example_start (worker_loop clip_example_environ 3 4 5 30 worker_example_start).

Lemma worker_ends_owner_witness : exists l, clip_log 4 4 worker_example_end = clip_log 4 4 worker_example_start ++ l /\
  (forall p, Spawned p ∈ l -> Reaped p ∈ l \/ Unkillable p ∈ l) /\
  (Sent PV_CLIP_MSG_ACCEPTED ∈ l -> exists start p l', l = stages start p 30 ++ l' /\ ends p l') /\
  (PV_OK = PV_OK -> Sent PV_CLIP_MSG_ACCEPTED ∈ l).
Proof.
  apply (worker_ends_owner clip_example_environ 3 4 5 30 worker_example_start PV_OK worker_example_end); [done | by vm_compute].
Defined.

(** The process that becomes the owner. *)
Definition owner_example_start : kst := start_with (worker_example_setup ++
  [ok_answer 40 []; ok_answer 0 [10; 11]; ok0; ok0] ++ replicate 5 ok0 ++ replicate 3 ok0 ++ [ok0; ok_answer 40 []; ok0; ok0; ok0; ok_answer 14 []; ok0; ok0; ok0; ok0; ok0; ok0; ok0; ok0]).
Definition owner_example_end : kst := end_of owner_example_start (worker_loop clip_example_environ 3 4 5 30 owner_example_start).

Lemma worker_runs_xclip_witness : native_x11 clip_example_environ /\ owner_program clip_example_environ PV_XCLIP_PATH xclip_arguments (Some [cstr "DISPLAY=:0"]).
Proof.
  apply (worker_runs_xclip clip_example_environ 3 4 5 30 owner_example_start PV_XCLIP_PATH xclip_arguments (Some [cstr "DISPLAY=:0"]) owner_example_end). by vm_compute.
Defined.

(** The process that becomes the worker. *)
Definition prepare_example : list answer :=
  [ok_answer 15 (cstr "/usr/bin/pvault"); ok0; ok_answer 0 [20; 21]; ok_answer 0 [22; 23]; ok_answer 0 [24; 25]; ok0; ok0; ok0].
Definition helper_example_start : kst := start_with (prepare_example ++
  [ok0; ok0; ok0; ok0; ok0; ok0] ++ replicate 3 ok0 ++ [ok_answer 10 []; ok_answer 11 []; ok_answer 12 []] ++ replicate 6 ok0 ++ [ok_answer 13 []] ++ replicate 6 ok0).
Definition helper_example_end : kst := end_of helper_example_start (pv_clipboard_prepare 0 helper_example_start).

Lemma prepare_runs_worker_witness : helper_path (cstr "/usr/bin/pvault-clip") /\ @None (list (list Z)) = None /\ 1 <= 10 <= PV_CLIP_MAX_TTL_SECONDS /\
  forall environ, pv_clipboard_worker_main environ (helper_arguments 10) = (status ← worker_loop environ PV_CLIP_DATA_FD PV_CLIP_CONTROL_FD PV_CLIP_SETUP_FD 10; mret (pv_status_exit_code status)).
Proof.
  apply (prepare_runs_worker 0 helper_example_start (cstr "/usr/bin/pvault-clip") (helper_arguments 10) None helper_example_end); [lia | by vm_compute].
Defined.

(** The command that started it. *)
Definition parent_example_start : kst := start_with (prepare_example ++
  [ok_answer 60 []; ok0; ok0; ok0; ok_answer 60 []; ok0; ok_answer 1 [POLLIN]; ok_answer 16 (setup_bytes PV_CLIP_SETUP_MAGIC 0 61); ok_answer 26 []; ok0]).
Definition parent_example_end : kst := end_of parent_example_start (pv_clipboard_prepare 0 parent_example_start).

Lemma prepare_no_leak_witness : open_count 21 parent_example_end = 0 + 1 /\ 1 < 61 <= INT_MAX.
Proof.
  destruct (prepare_no_leak 0 parent_example_start PV_OK (mk_clip_job 21 22 26 61) parent_example_end 21) as (H & _ & Hp); [lia | by vm_compute |].
  split; [exact H | by apply Hp].
Defined.
