(* ===== verification/ClipboardOwner.v ===== *)
(** * The descriptors the owner of the clipboard starts with

    The trace of a process is read as operations on its table of descriptors, the
    way the kernel carries them out: a descriptor leads to something and is closed
    or kept when the process becomes another program. A trace in which the kernel
    returns a number that is in use, or duplicates one that is not open, is none the
    kernel makes. The owner of the clipboard, [xclip], reads the secret from its
    descriptor [0]: the theorem says that this is the pipe the worker was given, and
    that the owner keeps nothing else of the worker. *)

From stdpp Require Import gmap.
From S2P Require Import Prelude Status Util Posix Process ProcessFacts Clipboard ClipboardProps.

(** ** Tables of descriptors *)

(** What a descriptor leads to: something the process started with, a file it
    opened, or something new of the kernel's. *)
Inductive resource := R_given (n : Z) | R_file (path : list Z) | R_new.

(** What each open descriptor leads to, and whether it is closed by [exec]. *)
Abbreviation table := (gmap Z (resource * bool)).

(** The kernel returns a number that is not in use. *)
Definition new_fd (fd : Z) (x : resource * bool) (T : table) : option table :=
  match T !! fd with None => Some (<[fd := x]> T) | Some _ => None end.

Definition add_fd (a : answer) (x : resource * bool) (T : table) : option table := if a_ret a <? 0 then Some T else new_fd (a_ret a) x T.

(** What a call does to the table; every descriptor these programs open has
    [O_CLOEXEC], and [dup2] clears the mark unless both numbers are the same. *)
Definition fd_effect (e : event) (T : table) : option table :=
  let a := snd e in
  match fst e with
  | C_close fd => Some (delete fd T)
  | C_close_range first => Some (if a_ret a =? 0 then filter (fun p => p.1 < first) T else T)
  | C_open path => add_fd a (R_file path, true) T
  | C_pidfd_open _ | C_timerfd_create => add_fd a (R_new, true) T
  | C_pipe2 _ | C_socketpair _ =>
      if a_ret a =? 0 then new_fd (znth (a_out a) 0) (R_new, true) T ≫= new_fd (znth (a_out a) 1) (R_new, true) else Some T
  | C_dup2 from to =>
      if a_ret a <? 0 then Some T else
      match T !! from with None => None | Some (r, _) => Some (if from =? to then T else <[to := (r, false)]> T) end
  | C_fcntl fd cmd arg =>
      if cmd =? F_DUPFD_CLOEXEC then match T !! fd with None => None | Some (r, _) => add_fd a (r, true) T end
      else if (cmd =? F_SETFD) && (a_ret a =? 0) then
        match T !! fd with None => None | Some (r, _) => Some (<[fd := (r, Z.odd arg)]> T) end
      else Some T
  | _ => Some T
  end.

(** The table after the calls of a trace. *)
Definition table_after (T : table) (trace : list event) : option table := foldl (fun o e => o ≫= fd_effect e) (Some T) trace.

(** What descriptor [fd] of the program a process becomes leads to. *)
Definition after_exec (T : table) (fd : Z) : option resource := match T !! fd with Some (r, false) => Some r | _ => None end.

(** ** Traces and tables *)

(** The calls that may change the table. *)
Definition table_watch : Watch event := fun e =>
  match fst e with
  | C_close _ | C_close_range _ | C_open _ | C_pidfd_open _ | C_timerfd_create | C_pipe2 _ | C_socketpair _ | C_dup2 _ _ => Some e
  | C_fcntl _ cmd _ => if (cmd =? F_DUPFD_CLOEXEC) || (cmd =? F_SETFD) then Some e else None
  | _ => None
  end.

Section tables.
Context (T0 : table).
#[local] Hint Extern 0 (Watch _) => exact table_watch : typeclass_instances.

Lemma dull_effect e T : table_watch e = None -> fd_effect e T = Some T.
Proof. destruct e as [[] a]; try done. cbn. destruct (_ =? _); [done |]. cbn. by destruct (_ =? _). Qed.

Lemma watch_same e e' : table_watch e = Some e' -> e' = e.
Proof. destruct e as [[] a]; cbn; try congruence. destruct (_ || _); congruence. Qed.

Lemma table_after_log trace T : table_after T trace = table_after T (omap table_watch trace).
Proof.
  unfold table_after. generalize (Some T) as o. induction trace as [| e trace IH]; intros o; [done |]. cbn [foldl omap list_omap].
  destruct (table_watch e) as [e' |] eqn:E; [apply watch_same in E as ->; apply IH |].
  replace (o ≫= fd_effect e) with o; [apply IH |]. destruct o as [T' |]; [| done]. cbn. by rewrite dull_effect.
Qed.

(** [P] holds of the table of the process, if the kernel made such a trace. *)
Definition tab (P : table -> Prop) (s : kst) : Prop := forall T, table_after T0 (k_trace s) = Some T -> P T.

Lemma tab_mono (P Q : table -> Prop) s : tab P s -> (forall T, P T -> Q T) -> tab Q s.
Proof. intros HP HQ T E. by apply HQ, HP. Qed.

Lemma tab_log P s s' : log s' = log s -> tab P s -> tab P s'.
Proof. intros Hl HP T E. apply HP. rewrite table_after_log in *. unfold log, notable in Hl. by rewrite <- Hl. Qed.

Lemma tab_called (P Q : table -> Prop) s rest c a : tab P s -> (forall T T', P T -> fd_effect (c, a) T = Some T' -> Q T') -> tab Q (called s rest c a).
Proof.
  intros HP HQ T. unfold table_after, called. cbn [k_trace]. rewrite foldl_app. cbn [foldl].
  destruct (foldl _ (Some T0) (k_trace s)) as [T1 |] eqn:E1; [| done]. intros E. exact (HQ T1 T (HP T1 E1) E).
Qed.

Lemma tab_ask (P : table -> Prop) (Q : answer -> table -> Prop) c s : tab P s -> (forall a T T', P T -> fd_effect (c, a) T = Some T' -> Q a T') ->
  kwp (ask c) (returns (fun a => tab (Q a))) s.
Proof. intros HP HQ. apply returns_ask. intros a rest. eapply tab_called; [exact HP | apply HQ]. Qed.

Lemma tab_ret (P : table -> Prop) (Q : Z -> table -> Prop) c s : tab P s -> (forall a T T', P T -> fd_effect (c, a) T = Some T' -> Q (a_ret a) T') ->
  kwp (sys_ret c) (returns (fun r => tab (Q r))) s.
Proof. intros HP HQ. apply kwp_ret_call. intros a rest. eapply tab_called; [exact HP | apply HQ]. Qed.

Lemma tab_keeps {A} (m : K A) P s : keeps m -> tab P s -> kwp m (returns (fun _ => tab P)) s.
Proof. intros Hk HP. eapply returns_mono; [by apply returns_keeps |]. cbv beta. intros _ s' Hl. by eapply tab_log. Qed.

(** ** What holds when a process becomes another program *)

Definition finally {A} (P : table -> Prop) (r : outcome A) (s : kst) : Prop := match r with Executed _ _ _ => tab P s | _ => True end.

Definition stays {A} (m : K A) : Prop := execs (fun _ _ _ => False) m.

Lemma finally_stays {A} (m : K A) P s : stays m -> kwp m (finally P) s.
Proof. intros Hm. eapply kwp_mono; [apply Hm |]. by intros [] s' H. Qed.

Lemma finally_bind {A B} (m : K A) (f : A -> K B) (Q : A -> kst -> Prop) P s : stays m -> kwp m (returns Q) s ->
  (forall x s', Q x s' -> kwp (f x) (finally P) s') -> kwp (m ≫= f) (finally P) s.
Proof.
  intros Hm HQ Hf. apply kwp_bind. intros [x | c | p v e] s' E; cbn; [exact (Hf x s' (HQ _ _ E)) | done |]. destruct (Hm s _ _ E).
Qed.

Lemma finally_last {A B} (m : K A) (f : A -> K B) P s : kwp m (finally P) s -> (forall x, stays (f x)) -> kwp (m ≫= f) (finally P) s.
Proof.
  intros Hm Hf. apply kwp_bind. eapply kwp_mono; [exact Hm |]. intros [x | c | p v e] s' H; cbn in *; [by apply finally_stays | done | done].
Qed.

Lemma finally_exec p v e P s : tab P s -> kwp (exec p v e) (finally P) s.
Proof.
  intros HP r s' E. unfold exec, ask in E. destruct (k_answers s) as [| a rest]; [done |]. cbn in E. destruct (a_ret a <? 0); simplify_eq; [done |].
  cbn. eapply tab_called; [exact HP |]. intros T T' HT [= <-]. done.
Qed.

End tables.

(** ** The worker and the owner *)

Definition null_file : resource := R_file (cstr "/dev/null").

Section owner.
Context (T0 : table) (data : Z) (given : resource).
#[local] Hint Extern 0 (Watch _) => exact table_watch : typeclass_instances.
#[local] Abbreviation tab := (tab T0).
#[local] Abbreviation finally := (finally T0).

(** The descriptors above the standard ones that a program would be given are
    descriptors the process started with, none of them in [marked] and [6] aside. *)
Definition confined (marked : list Z) (T : table) : Prop :=
  forall fd x, 2 < fd -> fd <> 6 -> T !! fd = Some (x, false) -> T0 !! fd = Some (x, false) /\ fd ∉ marked.

(** The worker: the pipe of the secret is open, and so are the standard
    descriptors. *)
Definition working (marked : list Z) (T : table) : Prop :=
  fst <$> T !! data = Some given /\ (forall k, 0 <= k <= 2 -> is_Some (T !! k)) /\ confined marked T.

Lemma confined_insert marked fd x b T : confined marked T -> b = true \/ fd <= 2 \/ fd = 6 -> confined marked (<[fd := (x, b)]> T).
Proof.
  intros HT Hb k y Hk H6. rewrite lookup_insert_Some. intros [[-> [= -> ->]] | [_ H]]; [destruct Hb as [? | [? | ?]]; [done | lia | done] | by apply HT].
Qed.

Lemma confined_delete marked fd T : confined marked T -> confined marked (delete fd T).
Proof. intros HT k x Hk H6. rewrite lookup_delete_Some. intros [_ H]. by apply HT. Qed.

Lemma confined_mark marked fd x T : confined marked T -> confined (fd :: marked) (<[fd := (x, true)]> T).
Proof.
  intros HT k y Hk H6. rewrite lookup_insert_Some. intros [[_ [=]] | [Hne H]]. destruct (HT k y Hk H6 H) as [H0 Hm]. split; [done |]. rewrite elem_of_cons. intros [-> | ?]; done.
Qed.

Lemma working_insert marked fd x T : working marked T -> T !! fd = None -> working marked (<[fd := (x, true)]> T).
Proof.
  intros (Hd & Hs & Hc) Hfd. split_and!; [| | apply confined_insert; auto].
  - rewrite lookup_insert_ne; [done |]. intros ->. by rewrite Hfd in Hd.
  - intros k Hk. apply lookup_insert_is_Some'. auto.
Qed.

Lemma working_delete marked fd T : working marked T -> fd <> data -> ~ 0 <= fd <= 2 -> working marked (delete fd T).
Proof.
  intros (Hd & Hs & Hc) Hne Hk. split_and!; [by rewrite lookup_delete_ne | | by apply confined_delete].
  intros k Hk'. rewrite lookup_delete_ne by lia. auto.
Qed.

(** A number the kernel returns. *)
Lemma working_fresh marked fd T : working marked T -> T !! fd = None -> fd <> data /\ ~ 0 <= fd <= 2.
Proof.
  intros (Hd & Hs & _) Hfd. split; [intros ->; by rewrite Hfd in Hd |]. intros Hk. destruct (Hs fd Hk) as [x Hx]. congruence.
Qed.

Lemma lor_cloexec flags : Z.odd (Z.lor flags FD_CLOEXEC) = true.
Proof. rewrite <- Z.bit0_odd, Z.lor_spec. apply orb_true_r. Qed.

Lemma set_cloexec_working marked fd s : tab (working marked) s -> kwp (set_cloexec fd) (returns (fun r s' => r = 0 -> tab (working (fd :: marked)) s')) s.
Proof.
  intros HT. unfold set_cloexec. eapply returns_bind; [apply (tab_keeps T0 _ (working marked)); [keep | done] |]. cbv beta. intros flags s1 H1.
  split_if; [kret; discriminate |]. eapply returns_mono; [eapply (tab_ret T0 (working marked) (fun r T => r = 0 -> working (fd :: marked) T)); [exact H1 |] |].
  2: { cbv beta. intros r s' H Hr T E. exact (H T E Hr). }
  intros a T T' HW E Hr. unfold fd_effect in E. cbn [fst snd] in E. change (F_SETFD =? F_DUPFD_CLOEXEC) with false in E. rewrite Hr in E. change (F_SETFD =? F_SETFD) with true in E.
  cbn [andb Z.eqb] in E. destruct (T !! fd) as [[r b] |] eqn:Efd; [| done]. injection E as <-. rewrite lor_cloexec.
  destruct HW as (Hd & Hs & Hc). split_and!; [| | by apply confined_mark].
  - destruct (decide (fd = data)) as [-> | Hne]; [rewrite lookup_insert_eq; by rewrite Efd in Hd | by rewrite lookup_insert_ne].
  - intros k Hk. apply lookup_insert_is_Some'. auto.
Qed.

Lemma close_tab (P Q : table -> Prop) fd s : tab P s -> (forall T, P T -> Q (delete fd T)) -> kwp (ask (C_close fd)) (returns (fun _ => tab Q)) s.
Proof. intros HT Hdel. eapply (tab_ask T0 P (fun _ => Q)); [exact HT |]. intros a T T' HP [= <-]. auto. Qed.

Lemma close_if_open_tab (P Q : table -> Prop) fd s : tab P s -> (forall T, P T -> Q T) -> (forall T, P T -> Q (delete fd T)) -> kwp (close_if_open fd) (returns (fun _ => tab Q)) s.
Proof.
  intros HT Hsame Hdel. unfold close_if_open. split_if; [| kret; by eapply tab_mono]. eapply returns_bind; [apply (tab_keeps T0 _ P); [keep | exact HT] |]. cbv beta. intros e s1 H1.
  eapply returns_bind; [by apply (close_tab P Q) |]. cbv beta. intros a s2 H2. eapply returns_bind; [apply (tab_keeps T0 _ Q); [keep | done] |]. cbv beta. intros _ s3 H3. by kret.
Qed.

(** *** The owner before it becomes [xclip] *)

(** The standard descriptors are those of the owner. *)
Definition owning (marked : list Z) (T : table) : Prop :=
  T !! 0 = Some (given, false) /\ T !! 1 = Some (null_file, false) /\ T !! 2 = Some (null_file, false) /\ confined marked T.

Lemma owning_insert marked fd x b T : owning marked T -> 2 < fd -> b = true \/ fd = 6 -> owning marked (<[fd := (x, b)]> T).
Proof. intros (H0 & H1 & H2 & Hc) Hfd Hb. split_and!; [rewrite lookup_insert_ne by lia; done.. |]. apply confined_insert; [done | tauto]. Qed.

Lemma owning_delete marked fd T : owning marked T -> 2 < fd -> owning marked (delete fd T).
Proof. intros (H0 & H1 & H2 & Hc) Hfd. split_and!; [rewrite lookup_delete_ne by lia; done.. |]. by apply confined_delete. Qed.

Lemma close_each_owning marked fds s : Forall (Z.lt 2) fds -> tab (owning marked) s -> kwp (close_each fds) (returns (fun _ => tab (owning marked))) s.
Proof.
  revert s. induction fds as [| fd fds IH]; intros s Hfds HT; cbn [close_each]; [by kret |]. inv Hfds.
  eapply returns_bind; [apply (close_tab (owning marked) (owning marked)); [done | intros; by apply owning_delete] |]. cbv beta. intros _ s1 H1'. by apply IH.
Qed.

Lemma close_fds_owning marked first s : 2 < first -> tab (owning marked) s -> kwp (close_fds_from first) (returns (fun _ => tab (owning marked))) s.
Proof.
  intros Hf HT. unfold close_fds_from. apply returns_bind with (P := fun _ => tab (owning marked)).
  - apply returns_bind with (P := fun _ => tab (owning marked)); [| intros a s1 H1; by kret]. eapply (tab_ask T0 (owning marked) (fun _ => owning marked)); [exact HT |].
    intros a T T' (H0 & H1 & H2 & Hc) [= <-]. split_if; [| done]. split_and!; [apply map_lookup_filter_Some; (split; [done | cbn; lia]).. |].
    intros k x Hk H6. rewrite map_lookup_filter_Some. intros [H _]. by apply Hc.
  - cbv beta. intros closed s1 H1. split_if; [by kret |]. eapply returns_bind; [apply (tab_keeps T0 _ (owning marked)); [keep | done] |]. cbv beta. intros limit s2 H2.
    apply close_each_owning; [| done]. apply list.Forall_forall. intros fd Hfd. apply elem_of_seqZ in Hfd. lia.
Qed.

(** The owner while it redirects its output to the descriptor [n] of [/dev/null]. *)
Definition redirecting (marked : list Z) (n : Z) (upto : Z) (T : table) : Prop :=
  T !! 0 = Some (given, false) /\ (forall k, 1 <= k < upto -> T !! k = Some (null_file, false)) /\ T !! n = Some (null_file, true) /\ 2 < n /\ confined marked T.

Lemma dup2_null_redirects marked n k s : 1 <= k <= 2 -> tab (redirecting marked n k) s ->
  kwp (sys_ret (C_dup2 n k)) (returns (fun r s' => 0 <= r -> tab (redirecting marked n (k + 1)) s')) s.
Proof.
  intros Hk HT. eapply returns_mono; [eapply (tab_ret T0 _ (fun r T => 0 <= r -> redirecting marked n (k + 1) T)); [exact HT |] | cbv beta; intros r s' H Hr T E; exact (H T E Hr)].
  intros a T T' (H0 & Hb & Hn & Hlt & Hc) E Hr. unfold fd_effect in E. cbn [fst snd] in E. rewrite (proj2 (Z.ltb_ge _ _) Hr), Hn, (proj2 (Z.eqb_neq n k)) in E by lia.
  injection E as <-. split_and!; [by rewrite lookup_insert_ne by lia | | by rewrite lookup_insert_ne by lia | done | apply confined_insert; [done | lia]].
  intros j Hj. destruct (decide (j = k)) as [-> | Hne]; [by rewrite lookup_insert_eq | rewrite lookup_insert_ne by done; apply Hb; lia].
Qed.

Lemma redirect_output_owning marked s : tab (fun T => working marked T /\ T !! 0 = Some (given, false)) s ->
  kwp redirect_output_fds (returns (fun ok s' => ok = true -> tab (owning marked) s')) s.
Proof.
  intros HT. unfold redirect_output_fds, redirect_fds. eapply returns_bind.
  { eapply (tab_ret T0 _ (fun n T => 0 <= n -> redirecting marked n 1 T)); [exact HT |]. intros a T T' [HW H0] E Hr.
    unfold fd_effect, add_fd, new_fd in E. cbn [fst snd] in E. rewrite (proj2 (Z.ltb_ge _ _) Hr) in E. destruct (T !! a_ret a) eqn:Ea; [done |]. injection E as <-.
    destruct (working_fresh _ _ _ HW Ea) as [_ Hn]. destruct HW as (_ & _ & Hc).
    split_and!; [by rewrite lookup_insert_ne by lia | lia | by rewrite lookup_insert_eq | lia | apply confined_insert; auto]. }
  cbv beta. intros n s1 H1. destruct (Z.ltb_spec n 0) as [Hn | Hn]; [kret; discriminate |]. assert (H1' : tab (redirecting marked n 1) s1) by (intros T E; exact (H1 T E Hn)). clear H1.
  apply returns_bind with (P := fun ok s' => ok = true -> tab (redirecting marked n 3) s').
  { cbn [dup2_each]. eapply returns_bind; [apply dup2_null_redirects; [lia | exact H1'] |]. cbv beta. intros r s2 H2. destruct (Z.ltb_spec r 0); [kret; discriminate |].
    eapply returns_bind; [apply dup2_null_redirects; [| exact (H2 ltac:(done))]; lia |]. cbv beta. intros r' s3 H3. destruct (Z.ltb_spec r' 0); [kret; discriminate |]. kret. }
  cbv beta. intros ok s2 H2. destruct ok; cbn [negb]; [| eapply returns_bind; [apply returns_true |]; intros; eapply returns_bind; [apply returns_true |]; intros;
    eapply returns_bind; [apply returns_true |]; intros; kret; discriminate].
  apply returns_bind with (P := fun _ => tab (owning marked)); [| intros u s3 H3; kret].
  assert (Hown : forall T, redirecting marked n 3 T -> 2 < n /\ owning marked T) by (intros T (Hz & Hb & Hn' & Hlt & Hc); split; [done |]; split_and!; [done | apply Hb; lia | apply Hb; lia | done]).
  specialize (H2 eq_refl). split_if.
  - eapply returns_bind; [apply (close_tab _ (owning marked) _ _ H2) |]. { intros T HR. destruct (Hown T HR). by apply owning_delete. } cbv beta. intros a s3 H3. kret.
  - kret. intros T E. exact (proj2 (Hown T (H2 T E))).
Qed.

(** *** From the worker to the owner *)

Lemma set_cloexec_owning marked s : tab (owning marked) s -> kwp (set_cloexec 6) (returns (fun _ => tab (owning marked))) s.
Proof.
  intros HT. unfold set_cloexec. eapply returns_bind; [apply (tab_keeps T0 _ (owning marked)); [keep | done] |]. cbv beta. intros flags s1 H1. split_if; [by kret |].
  eapply (tab_ret T0 _ (fun _ => owning marked)); [exact H1 |]. intros a T T' HO E. unfold fd_effect in E. cbn [fst snd] in E. change (F_SETFD =? F_DUPFD_CLOEXEC) with false in E.
  cbv iota in E. destruct ((F_SETFD =? F_SETFD) && _); [| by injection E as <-]. destruct (T !! 6) as [[r b] |]; [| done]. injection E as <-. apply owning_insert; [done | lia | by right].
Qed.

Lemma move_error_owning marked error_fd s : tab (owning marked) s ->
  kwp (if negb (error_fd =? 6) then sys_ret (C_dup2 error_fd 6) else mret 6) (returns (fun _ => tab (owning marked))) s.
Proof.
  intros HT. split_if; [| by kret]. eapply (tab_ret T0 _ (fun _ => owning marked)); [exact HT |]. intros a T T' HO E. unfold fd_effect in E. cbn [fst snd] in E.
  destruct (a_ret a <? 0); [by injection E as <-|]. destruct (T !! error_fd) as [[r b] |]; [| done]. injection E as <-. split_if; [done |]. apply owning_insert; [done | lia | by right].
Qed.

Lemma take_input_tab marked s : 2 < data -> tab (working marked) s ->
  kwp (sys_ret (C_dup2 data 0)) (returns (fun r s' => 0 <= r -> tab (fun T => working marked T /\ T !! 0 = Some (given, false)) s')) s.
Proof.
  intros Hd HT. eapply returns_mono; [eapply (tab_ret T0 _ (fun r T => 0 <= r -> working marked T /\ T !! 0 = Some (given, false))); [exact HT |] | cbv beta; intros r s' H Hr T E; exact (H T E Hr)].
  intros a T T' (Hg & Hs & Hc) E Hr. unfold fd_effect in E. cbn [fst snd] in E. rewrite (proj2 (Z.ltb_ge _ _) Hr) in E. destruct (T !! data) as [[r b] |] eqn:Ed; [| done].
  injection Hg as ->. rewrite (proj2 (Z.eqb_neq data 0)) in E by lia. injection E as <-. split; [| by rewrite lookup_insert_eq].
  split_and!; [by rewrite lookup_insert_ne, Ed by lia | intros k Hk; apply lookup_insert_is_Some'; auto | apply confined_insert; [done | lia]].
Qed.

Lemma owner_failed_stays {A} fd e c : stays (@owner_failed A fd e c).
Proof. unfold stays. no_exec. Qed.

#[local] Tactic Notation "pass" simple_intropattern(x) simple_intropattern(s') simple_intropattern(H) :=
  eapply finally_bind;
  [unfold stays; no_exec
  | eapply tab_keeps; [solve [unfold normalize_child_signal_state, harden_clip_process, clear_nonblocking, write_all, receive_control; cbn [reset_signals]; keep] | eassumption]
  |]; cbv beta; intros x s' H.

Lemma close_each_stays fds : stays (close_each fds).
Proof. induction fds as [| fd fds IH]; cbn [close_each]; unfold stays in *; no_exec. Qed.

Lemma close_fds_stays first : stays (close_fds_from first).
Proof. pose proof close_each_stays as H. unfold stays in *. unfold close_fds_from. no_exec. Qed.

Lemma owner_exec_tab environ error_fd parent marked s : 2 < data -> tab (working marked) s -> kwp (owner_exec environ data error_fd parent) (finally (owning marked)) s.
Proof.
  intros Hd HT. pose proof (fun A => @owner_failed_stays A) as Hfail. unfold owner_exec.
  assert (Hout : forall (b : bool) code (m : K unit) s1, (b = false -> kwp m (finally (owning marked)) s1) ->
    kwp (if b then errno ← get_errno; owner_failed error_fd errno code else m) (finally (owning marked)) s1).
  { intros b code m s1 Hm. destruct b; [| auto]. apply finally_stays. unfold stays. no_exec. }
  pass normal s1 H1. apply Hout. intros _.
  pass hard s2 H2.
  pass guarded s3 H3. apply Hout. intros _.
  pass pp s4 H4. split_if; [apply finally_stays; apply Hfail |].
  pass cleared s5 H5.
  eapply (finally_bind T0 _ _ (fun r s' => 0 <= r -> tab (fun T => working marked T /\ T !! 0 = Some (given, false)) s'));
    [unfold stays; no_exec | split_if; [kret; lia | by apply take_input_tab] |]. intros input s6 H6. apply Hout. intros Hi. specialize (H6 (proj1 (Z.ltb_ge _ _) Hi)).
  eapply finally_bind; [unfold stays; no_exec | by apply redirect_output_owning |]. cbv beta. intros ok s7 H7. apply Hout. intros Hok. apply negb_false_iff in Hok. specialize (H7 Hok). cbv zeta.
  eapply finally_bind; [unfold stays; no_exec | by apply move_error_owning |]. cbv beta. intros moved s8 H8. split_if; [apply finally_stays; unfold stays; no_exec |].
  eapply finally_bind; [unfold stays; no_exec | by apply set_cloexec_owning |]. cbv beta. intros flagged s9 H9.
  eapply finally_bind; [apply close_fds_stays | apply close_fds_owning; [| exact H9]; lia |]. cbv beta. intros swept s10 H10.
  apply finally_last; [by apply finally_exec |]. intros _. unfold stays. no_exec.
Qed.

(** The number of an end of a pipe that was just opened is none of the worker's. *)
Definition apart (marked : list Z) (fd : Z) (T : table) : Prop := working marked T /\ fd <> data /\ ~ 0 <= fd <= 2.

Lemma pipe_apart marked flags s : tab (working marked) s ->
  kwp (ask (C_pipe2 flags)) (returns (fun a s' => a_ret a = 0 -> tab (apart marked (znth (a_out a) 0)) s')) s.
Proof.
  intros HT. eapply returns_mono; [eapply (tab_ask T0 _ (fun a T => a_ret a = 0 -> apart marked (znth (a_out a) 0) T)); [exact HT |] | cbv beta; intros a s' H Hr T E; exact (H T E Hr)].
  intros a T T' HW E Hr. unfold fd_effect, new_fd in E. cbn [fst snd] in E. rewrite Hr in E. cbn [Z.eqb] in E. destruct (T !! znth (a_out a) 0) eqn:E0; [done |]. cbn in E.
  match type of E with match ?l with _ => _ end = _ => destruct l eqn:E1; [done |] end. injection E as <-. split; [| by apply (working_fresh marked _ T)].
  apply working_insert; [| done]. by apply working_insert.
Qed.

Lemma spawn_owner_tab environ marked s : 2 < data -> tab (working marked) s -> kwp (spawn_owner environ data) (finally (owning marked)) s.
Proof.
  intros Hd HT. unfold spawn_owner. pass parent s1 H1. eapply finally_bind; [unfold stays; no_exec | by apply (pipe_apart marked) |]. cbv beta. intros pipe s2 H2.
  destruct (Z.eqb_spec (a_ret pipe) 0) as [Hp | Hp]; cbn [negb]; [| apply finally_stays; unfold stays; no_exec]. specialize (H2 Hp). cbv zeta.
  unfold fork. pass owner s3 H3. split_if; [apply finally_stays; unfold stays; no_exec |]. apply finally_last; [| intros; unfold stays; no_exec].
  split_if; [| apply finally_stays; unfold stays; no_exec]. eapply finally_bind; [unfold stays; no_exec | apply (close_tab _ (working marked) _ _ H3) |].
  - intros T (HW & Hne & Hk). by apply working_delete.
  - cbv beta. intros a s4 H4. by apply owner_exec_tab.
Qed.

Lemma worker_setup_tab environ control setup s : tab (working []) s ->
  kwp (worker_setup environ data control setup) (returns (fun st s' => st = PV_OK -> tab (working [setup; control; data]) s')) s.
Proof.
  intros HT. unfold worker_setup.
  assert (Hq : forall A (m : K A) l s1, keeps m -> tab (working l) s1 -> kwp m (returns (fun _ => tab (working l))) s1) by (intros; by apply tab_keeps).
  eapply returns_bind; [apply (Hq _ _ []); [unfold normalize_child_signal_state; cbn [reset_signals]; keep | done] |]. cbv beta. intros normal s1 H1. split_if; [kret; discriminate |].
  eapply returns_bind; [apply (Hq _ _ []); [unfold harden_clip_process; keep | done] |]. cbv beta. intros hard s2 H2.
  eapply returns_bind; [apply (set_cloexec_working []); exact H2 |]. cbv beta. intros a s3 H3. destruct (Z.eqb_spec a 0) as [Ha | Ha]; cbn [negb]; [| kret; discriminate].
  eapply returns_bind; [apply (set_cloexec_working [data]); exact (H3 Ha) |]. cbv beta. intros b s4 H4. destruct (Z.eqb_spec b 0) as [Hb | Hb]; cbn [negb]; [| kret; discriminate].
  eapply returns_bind; [apply (set_cloexec_working [control; data]); exact (H4 Hb) |]. cbv beta. intros c s5 H5. destruct (Z.eqb_spec c 0) as [Hc | Hc]; cbn [negb]; [| kret; discriminate].
  eapply returns_bind; [apply (Hq _ _ [setup; control; data]); [unfold install_stop_handlers; keep | exact (H5 Hc)] |]. cbv beta. intros i s6 H6. split_if; [kret; discriminate |].
  eapply returns_bind; [apply (Hq _ _ [setup; control; data]); [unfold choose_backend; keep | exact H6] |]. cbv beta. intros backend s7 H7. kret.
Qed.

Lemma worker_serve_tab environ control marked ttl s : 2 < data -> tab (working marked) s -> kwp (worker_serve environ data control ttl) (finally (owning marked)) s.
Proof.
  intros Hd HT. unfold worker_serve. cbv zeta. pass message s1 H1. pass stop s2 H2. split_if; [apply finally_stays; unfold stays; no_exec |].
  apply finally_last; [by apply spawn_owner_tab |]. intros owner. unfold stays. no_exec.
Qed.

Lemma worker_loop_tab environ control setup ttl s : 2 < data -> 2 < setup -> data <> setup -> tab (working []) s ->
  kwp (worker_loop environ data control setup ttl) (finally (owning [setup; control; data])) s.
Proof.
  intros Hd Hs Hne HT. unfold worker_loop. pass u s1 H1. eapply finally_bind; [unfold stays; no_exec | by apply worker_setup_tab |]. cbv beta. intros st s2 H2.
  assert (H2' : tab (fun T => st = PV_OK -> working [setup; control; data] T) s2) by (intros T E Hst; exact (H2 Hst T E)). clear H2.
  pass pid s3 H3. pass reported s4 H4. cbv zeta. eapply finally_bind; [unfold stays; no_exec | apply (close_if_open_tab _ (fun T => st = PV_OK -> working [setup; control; data] T) _ _ H4) |].
  - auto.
  - intros T HW Hst. apply working_delete; [auto | congruence | lia].
  - cbv beta. intros setup' s5 H5. apply finally_last; [| intros [st' w]; unfold stays; no_exec]. split_if; [| apply finally_stays; unfold stays; no_exec].
    assert (Hst : st = PV_OK) by (apply is_ok_true; by destruct reported). apply worker_serve_tab; [done |]. eapply tab_mono; [exact H5 | auto].
Qed.

End owner.


(** A worker as [launch_detached_helper] starts it: the owner is left with the pipe,
    [/dev/null] twice, and the descriptor that
    would report a failed [exec] marked to be closed. *)
Definition worker_example_table : table :=
  {[ 0 := (null_file, false); 1 := (null_file, false); 2 := (null_file, false); 3 := (R_given 3, false); 4 := (R_given 4, false); 5 := (R_given 5, false) ]}.
Definition owner_example_table : table := default ∅ (table_after worker_example_table (k_trace owner_example_end)).

