(* ===== verification/Rofi.v ===== *)
(** * The external selector and direct input/output of the commands

    The part of [src/cli.c] that talks to the kernel itself: reading and writing
    whole buffers, and the selector [rofi]. The selector is started before the
    vault is open, gets one line per live record with a random token, and answers
    with the line chosen; only a token that was sent selects a record. *)

From S2P Require Import Prelude Status Util Sys Arena Model Posix Config Secure Process Clipboard.

(** ** Whole buffers *)

(** The bytes; a failure or an early end is [PV_ERR_IO]. *)
Definition read_exact (fd length : Z) : K (pv_status * list Z) :=
  iter (fun got =>
    if length <=? zlen got then mret (inr (PV_OK, got)) else
    a ← ask (C_read fd (length - zlen got));
    errno ← get_errno;
    if (a_ret a <? 0) && (errno =? EINTR) then mret (inl got) else
    if a_ret a <=? 0 then mret (inr (PV_ERR_IO, got)) else
    mret (inl (got ++ zsub (a_out a) 0 (a_ret a)))) [].

Definition cli_waitpid_nointr (pid options : Z) : K Z :=
  a ← retry (C_waitpid pid options);
  mret (a_ret a).

(** The loop: [0], or the error that ended it. *)
Definition write_until (fd : Z) (input : list Z) : K Z :=
  iter (fun rest =>
    if zlen rest =? 0 then mret (inr 0) else
    a ← ask (C_write fd rest);
    errno ← get_errno;
    if (a_ret a <? 0) && (errno =? EINTR) then mret (inl rest) else
    if a_ret a <=? 0 then mret (inr (if a_ret a <? 0 then errno else Process.EIO)) else
    mret (inl (drop (Z.to_nat (a_ret a)) rest))) input.

Definition fd_write_all_no_sigpipe (fd : Z) (input : list Z) : K bool :=
  blocked ← ask (C_sigprocmask SIG_BLOCK [SIGPIPE]);
  if negb (a_ret blocked =? 0) then mret false else
  let previous := a_out blocked in
  pending ← ask C_sigpending;
  if negb (a_ret pending =? 0) then
    saved_errno ← get_errno;
    _ ← ask (C_sigprocmask SIG_SETMASK previous);
    _ ← set_errno saved_errno;
    mret false
  else
  let pipe_was_pending := existsb (Z.eqb SIGPIPE) (a_out pending) in
  saved_errno ← write_until fd input;
  _ ← (if (saved_errno =? EPIPE) && negb pipe_was_pending
       then _ ← retry (C_sigtimedwait [SIGPIPE]); mret tt else mret tt);
  restored ← sys_ok (C_sigprocmask SIG_SETMASK previous);
  errno ← get_errno;
  let saved_errno := if negb restored && (saved_errno =? 0) then errno else saved_errno in
  _ ← (if negb (saved_errno =? 0) then set_errno saved_errno else mret tt);
  mret (saved_errno =? 0).

Definition tty_write_all (fd : Z) (data : list Z) : K pv_status :=
  iter (fun rest =>
    if zlen rest =? 0 then mret (inr PV_OK) else
    a ← ask (C_write fd rest);
    errno ← get_errno;
    if (a_ret a <? 0) && (errno =? EINTR) then mret (inl rest) else
    if a_ret a <=? 0 then mret (inr PV_ERR_IO) else
    mret (inl (drop (Z.to_nat (a_ret a)) rest))) data.

(** [dprintf] of a text that is known; whether it succeeds. *)
Definition dprintf (fd : Z) (text : list Z) : K bool :=
  r ← sys_ret (C_write fd text);
  mret (0 <=? r).

(** The status; the title goes to the terminal sanitised. *)
Definition tty_print_selected_title (record : pv_record pv_view) : K pv_status :=
  match pv_text_sanitize (r_title record) false PV_MAX_TITLE with
  | None => mret PV_ERR_STATE
  | Some sanitized =>
      fd ← sys_ret (C_open (cstr "/dev/tty"));
      status ← (if fd <? 0 then mret PV_ERR_IO else
                ok ← dprintf fd (cstr "Selected for deletion: ");
                mret (if ok : bool then PV_OK else PV_ERR_IO));
      status ← (if is_ok status then tty_write_all fd sanitized else mret status);
      status ← (if is_ok status then ok ← dprintf fd [10]; mret (if ok : bool then PV_OK else PV_ERR_IO) else mret status);
      _ ← (if 0 <=? fd then _ ← ask (C_close fd); mret tt else mret tt);
      mret status
  end.

(** The list of the names of the custom fields, from the number [index] on. *)
Fixpoint list_fields (fd : Z) (index : Z) (fields : list (pv_custom_field pv_view)) : K pv_status :=
  match fields with
  | [] => mret PV_OK
  | field :: fields =>
      ok ← dprintf fd (cstr "  " ++ decimal (index + 1) ++ cstr ". ");
      if negb ok then mret PV_ERR_IO else
      match pv_text_sanitize (f_name field) false PV_MAX_FIELD_NAME with
      | None => mret PV_ERR_IO
      | Some sanitized =>
          status ← tty_write_all fd sanitized;
          status ← (if is_ok status then ok ← dprintf fd [10]; mret (if ok : bool then PV_OK else PV_ERR_IO) else mret status);
          if is_ok status then list_fields fd (index + 1) fields else mret status
      end
  end.

(** The first part of [select_custom_field_view]. *)
Definition show_custom_fields (fields : list (pv_custom_field pv_view)) : K pv_status :=
  fd ← sys_ret (C_open (cstr "/dev/tty"));
  status ← (if fd <? 0 then mret PV_ERR_IO else
            ok ← dprintf fd (cstr "Custom fields:" ++ [10]);
            mret (if ok : bool then PV_OK else PV_ERR_IO));
  status ← (if is_ok status then list_fields fd 0 fields else mret status);
  _ ← (if 0 <=? fd then _ ← ask (C_close fd); mret tt else mret tt);
  mret status.

(** ** The selector *)

Definition PVAULT_ROFI_EXECUTABLE : list Z := cstr "/usr/bin/rofi".

Record rofi_job := mk_rofi_job { rj_input_fd : Z; rj_output_fd : Z; rj_pid : Z }.

Definition no_rofi : rofi_job := mk_rofi_job (-1) (-1) (-1).

(** A token and the record it stands for. *)
Record rofi_entry := mk_rofi_entry { re_token : list Z; re_record : nat }.

(** The first entry of the environment for [name], whole. *)
Definition rofi_environment_entry (environ : list (list Z)) (name : list Z) : option (list Z) :=
  head (filter (fun e => bytes_eqb (zsub e 0 (zlen name)) name && (znth e (zlen name) =? 61) = true) environ).

Definition rofi_close_inherited_fds : K unit :=
  closed ← sys_ok (C_close_range 3);
  if closed : bool then mret tt else
  maximum ← sys_ret C_sysconf;
  let bad n := (n <? 0) || (INT_MAX <? n) in
  maximum ← (if bad maximum then
               limit ← ask C_getrlimit;
               let current := znth (a_out limit) 0 in
               mret (if (a_ret limit =? 0) && (current <=? INT_MAX) then current else maximum)
             else mret maximum);
  let maximum := if bad maximum then 65536 else maximum in
  close_each (seqZ 3 (maximum - 3)).

(** [SIGINT], [SIGTERM], [SIGHUP], [SIGQUIT], [SIGTSTP], [SIGPIPE], [SIGCHLD]. *)
Definition rofi_signals : list Z := [2; 15; 1; 3; 20; 13; 17].

Definition rofi_reset_signal_state : K bool :=
  blocked ← sys_ok (C_sigprocmask SIG_BLOCK rofi_signals);
  if negb blocked then mret false else
  reset ← reset_signals rofi_signals;
  if negb reset then mret false else sys_ok (C_sigprocmask SIG_SETMASK []).

Fixpoint rofi_wait_deadline (pid : Z) (attempts : nat) : K bool :=
  match attempts with
  | O => mret false
  | S attempts =>
      result ← cli_waitpid_nointr pid WNOHANG;
      errno ← get_errno;
      if (result =? pid) || ((result <? 0) && (errno =? ECHILD)) then mret true else
      if result <? 0 then mret false else
      _ ← ask (C_nanosleep 10);
      rofi_wait_deadline pid attempts
  end.

Definition rofi_terminate_and_reap (pid : Z) : K unit :=
  if pid <=? 0 then mret tt else
  gone ← rofi_wait_deadline pid 1;
  if gone : bool then mret tt else
  _ ← ask (C_kill pid SIGTERM);
  gone ← rofi_wait_deadline pid 50;
  if gone : bool then mret tt else
  _ ← ask (C_kill pid SIGKILL);
  _ ← cli_waitpid_nointr pid 0;
  mret tt.

Definition rofi_names : list (list Z) :=
  [cstr "DISPLAY"; cstr "WAYLAND_DISPLAY"; cstr "XDG_RUNTIME_DIR"; cstr "HOME"; cstr "XAUTHORITY"; cstr "XDG_CONFIG_HOME";
   cstr "LANG"; cstr "LC_ALL"; cstr "LC_CTYPE"].

Definition rofi_arguments : list (list Z) := [cstr "rofi"; cstr "-dmenu"; cstr "-i"; cstr "-p"; cstr "PVault"].

Definition rofi_environment (environ : list (list Z)) : list (list Z) :=
  cstr "PATH=/usr/bin:/bin" :: omap (rofi_environment_entry environ) rofi_names.

(** [close] when the descriptor is open. *)
Definition close_open (fd : Z) : K unit := if 0 <=? fd then _ ← ask (C_close fd); mret tt else mret tt.

Definition rofi_prepare (environ : list (list Z)) : K (pv_status * rofi_job) :=
  let fail (input output : Z * Z) : K (pv_status * rofi_job) :=
    _ ← close_open (fst input);
    _ ← close_open (snd input);
    _ ← close_open (fst output);
    _ ← close_open (snd output);
    mret (PV_ERR_EXTERNAL, no_rofi) in
  input ← ask (C_socketpair 1);
  if negb (a_ret input =? 0) then fail no_pair no_pair else
  let input_socket := new_pair input in
  output ← ask (C_pipe2 524288);
  if negb (a_ret output =? 0) then fail input_socket no_pair else
  let output_pipe := new_pair output in
  pid ← fork;
  if pid <? 0 then fail input_socket output_pipe else
  if pid =? 0 then
    a ← sys_ret (C_dup2 (fst input_socket) 0);
    b ← (if a <? 0 then mret (-1) else sys_ret (C_dup2 (snd output_pipe) 1));
    if b <? 0 then k_exit 126 else
    _ ← close_each [fst input_socket; snd input_socket; fst output_pipe; snd output_pipe];
    reset ← rofi_reset_signal_state;
    if negb reset then k_exit 126 else
    _ ← rofi_close_inherited_fds;
    _ ← exec PVAULT_ROFI_EXECUTABLE rofi_arguments (Some (rofi_environment environ));
    k_exit 127
  else
    _ ← ask (C_close (fst input_socket));
    _ ← ask (C_close (snd output_pipe));
    mret (PV_OK, mk_rofi_job (snd input_socket) (fst output_pipe) pid).

Definition rofi_cancel (job : rofi_job) : K rofi_job :=
  _ ← close_open (rj_input_fd job);
  _ ← close_open (rj_output_fd job);
  _ ← (if 0 <? rj_pid job then rofi_terminate_and_reap (rj_pid job) else mret tt);
  mret no_rofi.

Definition rofi_token_unique (entries : list rofi_entry) (token : list Z) : bool :=
  forallb (fun e => negb (bytes_eqb (re_token e) token)) entries.

(** The bytes a call of [randombytes_buf] stores. *)
Definition random_out (n : Z) (a : answer) : list Z := map (fun i => u8 (znth (a_out a) i)) (seqZ 0 n).

Definition rofi_draw_token (entries : list rofi_entry) : K (list Z) :=
  iter (fun _ : unit =>
    a ← ask (C_randombytes 8);
    let token := random_out 8 a in
    mret (if rofi_token_unique entries token then inr token else inl tt)) tt.

(** The lines sent: whether all of them were, and the entries. *)
Fixpoint rofi_send_loop (input_fd : Z) (vault : pv_vault) (i : nat) (records : list (pv_record pv_slice)) (entries : list rofi_entry)
  : K (bool * list rofi_entry) :=
  match records with
  | [] => mret (true, entries)
  | record :: records =>
      if is_deleted record then rofi_send_loop input_fd vault (S i) records entries else
      token ← rofi_draw_token entries;
      let token_hex := default [] (pv_hex_encode (Some token) 17) in
      let suffix := [9] ++ token_hex ++ [10] in
      title_sent ← match pv_text_sanitize (r_title (record_view vault record)) false PV_MAX_TITLE with
                   | None => mret false
                   | Some safe_title => fd_write_all_no_sigpipe input_fd safe_title
                   end;
      sent ← (if title_sent : bool then fd_write_all_no_sigpipe input_fd suffix else mret false);
      if negb sent then mret (false, entries) else
      rofi_send_loop input_fd vault (S i) records (entries ++ [mk_rofi_entry token i])
  end.

Definition ROFI_RESPONSE_SIZE : Z := PV_MAX_TITLE + 64.

(** The answer, until its end or until the buffer is full. *)
Definition rofi_read_response (output_fd : Z) : K (list Z) :=
  iter (fun response =>
    if zlen response + 1 <? ROFI_RESPONSE_SIZE then
      a ← ask (C_read output_fd (ROFI_RESPONSE_SIZE - zlen response - 1));
      errno ← get_errno;
      if (a_ret a <? 0) && (errno =? EINTR) then mret (inl response) else
      if a_ret a <=? 0 then mret (inr response) else
      mret (inl (response ++ zsub (a_out a) 0 (a_ret a)))
    else mret (inr response)) [].

Definition chop (l : list Z) : list Z := zsub l 0 (zlen l - 1).
Definition last_char (l : list Z) : Z := znth l (zlen l - 1).

(** The record of the token in the answer. *)
Definition rofi_parse (entries : list rofi_entry) (response : list Z) : option nat :=
  if (1 <? zlen response) && (last_char response =? 10) then
    let tab := find_char (c_string response) 9 in
    let response := chop response in
    let response := if (0 <? zlen response) && (last_char response =? 13) then chop response else response in
    match tab with
    | None => None
    | Some tab =>
        let after := c_string (drop (Z.to_nat (tab + 1)) response) in
        if existsb (Z.eqb 9) after || existsb (fun c => (c =? 13) || (c =? 10)) (c_string response) then None else
        let token_length := zlen response - (tab + 1) in
        if negb (token_length =? 16) then None else
        match pv_hex_decode after 8 with
        | None => None
        | Some token => re_record <$> head (filter (fun e => bytes_eqb (re_token e) token = true) entries)
        end
    end
  else None.

(** The status, the record and the job. *)
Definition rofi_select (job : rofi_job) (vault : pv_vault) : K (pv_status * option nat * rofi_job) :=
  allocated ← sys_ok C_calloc;
  if negb allocated && negb (v_record_count vault =? 0)
  then job ← rofi_cancel job; mret (PV_ERR_NOMEM, None, job) else
  r ← rofi_send_loop (rj_input_fd job) vault 0 (v_records vault) [];
  let '(sent, entries) := r in
  if negb sent then job ← rofi_cancel job; mret (PV_ERR_EXTERNAL, None, job) else
  _ ← ask (C_close (rj_input_fd job));
  response ← rofi_read_response (rj_output_fd job);
  _ ← ask (C_close (rj_output_fd job));
  gone ← rofi_wait_deadline (rj_pid job) 50;
  _ ← (if negb gone then rofi_terminate_and_reap (rj_pid job) else mret tt);
  mret match rofi_parse entries response with
       | Some i => (PV_OK, Some i, no_rofi)
       | None => (PV_ERR_NOT_FOUND, None, no_rofi)
       end.
