(* ===== verification/Cli.v ===== *)
(** * The command line: state, terminal dialogue and forms

    [src/cli.c], first part. A command works on a state: the world of the store,
    the terminal, the process with its system calls, what was printed, and the
    scripts of the dialogues still to come (one per secret, per line, per use of
    the picker, per recovery file). [None] is a command without a result: it waits
    for an answer, or the process is a child that ended or became another program.

    A vault that goes out of scope is remembered ([c_left]): as it was when it was
    last used, as it was at the end of its scope, and the blocks that were given to
    [sodium_free] in between, so that theorems can speak of what a command leaves in
    memory. Recovery files are a
    map of their own from paths to contents: they are not files of the store. *)

From stdpp Require Import gmap.
From S2P Require Import Prelude Status Util Sys Arena Model Cbor Crypto Posix Recovery Config Secure Fs Store StoreOps.
From S2P Require Import Ui Process Clipboard Rofi.

(** A vault that went out of scope. *)
Record departed := mk_departed {
  d_before : pv_vault;                (** when it was last used *)
  d_after : pv_vault;                 (** at the end of its scope *)
  d_freed : list guarded_block        (** what was given back in between *)
}.

Record cli := mk_cli {
  c_world : world;
  c_terminal : terminal;
  c_secrets : list script;            (** one for each secret that is read *)
  c_lines : list tty_io;              (** one for each line that is read *)
  c_ui : ui_process;
  c_picks : list ui_script;           (** one for each use of the picker *)
  c_screens : list screen;            (** the screens of the picker, latest first *)
  c_process : kst;                    (** the other system calls *)
  c_writes : list write_file_io;      (** one for each recovery file written *)
  c_reads : list read_file_io;        (** one for each recovery file read *)
  c_files : gmap (list Z) (list Z);   (** the recovery files *)
  c_configs : list config_io;         (** one for each time the configuration is read *)
  c_out : list Z;                     (** standard output *)
  c_err : list Z;                     (** standard error *)
  c_left : list departed              (** the vaults that went out of scope *)
}.

Definition set_c_world (c : cli) (w : world) : cli :=
  mk_cli w (c_terminal c) (c_secrets c) (c_lines c) (c_ui c) (c_picks c) (c_screens c) (c_process c) (c_writes c) (c_reads c) (c_files c) (c_configs c) (c_out c) (c_err c) (c_left c).
Definition set_c_secret (c : cli) (t : terminal) (l : list script) : cli :=
  mk_cli (c_world c) t l (c_lines c) (c_ui c) (c_picks c) (c_screens c) (c_process c) (c_writes c) (c_reads c) (c_files c) (c_configs c) (c_out c) (c_err c) (c_left c).
Definition set_c_lines (c : cli) (l : list tty_io) : cli :=
  mk_cli (c_world c) (c_terminal c) (c_secrets c) l (c_ui c) (c_picks c) (c_screens c) (c_process c) (c_writes c) (c_reads c) (c_files c) (c_configs c) (c_out c) (c_err c) (c_left c).
Definition set_c_pick (c : cli) (u : ui_process) (l : list ui_script) (scr : list screen) : cli :=
  mk_cli (c_world c) (c_terminal c) (c_secrets c) (c_lines c) u l scr (c_process c) (c_writes c) (c_reads c) (c_files c) (c_configs c) (c_out c) (c_err c) (c_left c).
Definition set_c_process (c : cli) (k : kst) : cli :=
  mk_cli (c_world c) (c_terminal c) (c_secrets c) (c_lines c) (c_ui c) (c_picks c) (c_screens c) k (c_writes c) (c_reads c) (c_files c) (c_configs c) (c_out c) (c_err c) (c_left c).
Definition set_c_files (c : cli) (ws : list write_file_io) (rs : list read_file_io) (files : gmap (list Z) (list Z)) : cli :=
  mk_cli (c_world c) (c_terminal c) (c_secrets c) (c_lines c) (c_ui c) (c_picks c) (c_screens c) (c_process c) ws rs files (c_configs c) (c_out c) (c_err c) (c_left c).
Definition set_c_configs (c : cli) (l : list config_io) : cli :=
  mk_cli (c_world c) (c_terminal c) (c_secrets c) (c_lines c) (c_ui c) (c_picks c) (c_screens c) (c_process c) (c_writes c) (c_reads c) (c_files c) l (c_out c) (c_err c) (c_left c).
Definition set_c_output (c : cli) (out err : list Z) : cli :=
  mk_cli (c_world c) (c_terminal c) (c_secrets c) (c_lines c) (c_ui c) (c_picks c) (c_screens c) (c_process c) (c_writes c) (c_reads c) (c_files c) (c_configs c) out err (c_left c).
Definition set_c_left (c : cli) (l : list departed) : cli :=
  mk_cli (c_world c) (c_terminal c) (c_secrets c) (c_lines c) (c_ui c) (c_picks c) (c_screens c) (c_process c) (c_writes c) (c_reads c) (c_files c) (c_configs c) (c_out c) (c_err c) l.

(** ** The monad *)

Definition C (A : Type) : Type := cli -> option (A * cli).

#[global] Instance C_ret : MRet C := fun A x c => Some (x, c).
#[global] Instance C_bind : MBind C := fun A B f m c => match m c with Some (x, c') => f x c' | None => None end.

(** The platform, the store, the system calls. *)
Definition on_sys {A} (m : M (option A)) : C A := fun c =>
  let '(r, s) := m (w_sys (c_world c)) in
  let w := c_world c in
  match r with
  | Some x => Some (x, set_c_world c (mk_world s (w_kernel w) (w_fs w) (w_next w) (w_hist w)))
  | None => None
  end.

Definition total {A} (m : M A) : M (option A) := x ← m; mret (Some x).

Definition on_store {A} (m : W A) : C A := fun c => let '(x, w) := m (c_world c) in Some (x, set_c_world c w).

Definition on_process {A} (m : K A) : C A := fun c =>
  match m (c_process c) with
  | Some (Returned x, k) => Some (x, set_c_process c k)
  | _ => None
  end.

Definition say (text : list Z) : C unit := fun c => Some (tt, set_c_output c (c_out c ++ text) (c_err c)).
Definition complain (text : list Z) : C unit := fun c => Some (tt, set_c_output c (c_out c) (c_err c ++ text)).

(** Lines of text. *)
Definition text_lines (lines : list (list Z)) : list Z := concat (map (fun l => l ++ [10]) lines).

(** ** Dialogue *)

Definition read_secret (confirm : bool) : C (pv_status * pv_buffer) := fun c =>
  match c_secrets c with
  | [] => None
  | s :: rest =>
      match on_sys (pv_secure_read_secret s (c_terminal c) confirm) c with
      | Some (status, secret, t, c) => Some ((status, secret), set_c_secret c t rest)
      | None => None
      end
  end.

Definition next_line : C tty_io := fun c =>
  match c_lines c with
  | [] => None
  | io :: rest => Some (io, set_c_lines c rest)
  end.

Definition read_line (maximum : Z) (allow_empty : bool) : C (pv_status * pv_buffer) :=
  io ← next_line;
  on_sys (pv_tty_read_line io maximum allow_empty buffer_zero).

Definition confirm : C (pv_status * bool) :=
  io ← next_line;
  on_sys (pv_tty_confirm io).

Definition read_unsigned (maximum default_value value : Z) : C (pv_status * Z) :=
  io ← next_line;
  on_sys (pv_tty_read_unsigned io maximum default_value value).

(** The picker. *)
Definition pick (vault : pv_vault) : C (pv_status * option nat) := fun c =>
  match c_picks c with
  | [] => None
  | s :: rest =>
      match on_sys (pv_ui_pick_internal s (c_ui c) vault) c with
      | Some (status, selected, u, screens, c) => Some ((status, selected), set_c_pick c u rest (screens ++ c_screens c))
      | None => None
      end
  end.

(** Recovery files. *)
Definition write_recovery `{Host} (path encoded vault_id : list Z) : C pv_status := fun c =>
  match c_writes c with
  | [] => None
  | io :: rest =>
      match on_sys (pv_recovery_write_file geteuid io path encoded vault_id (c_files c !! path)) c with
      | Some (status, file, c) =>
          let files := match file with Some content => <[path := content]> (c_files c) | None => delete path (c_files c) end in
          Some (status, set_c_files c rest (c_reads c) files)
      | None => None
      end
  end.

(** The status and the text of the key. *)
Definition read_recovery `{Host} (encoded_len : Z) : C (pv_status * list Z) := fun c =>
  match c_reads c with
  | [] => None
  | io :: rest =>
      match on_sys (pv_recovery_read_file geteuid io encoded_len) c with
      | Some (status, encoded, c) => Some ((status, default [] encoded), set_c_files c (c_writes c) rest (c_files c))
      | None => None
      end
  end.

Definition forget_recovery (path : list Z) : C unit := fun c => Some (tt, set_c_files c (c_writes c) (c_reads c) (delete path (c_files c))).

(** [unlink] of a recovery file. *)
Definition remove_recovery (path : list Z) : C unit :=
  removed ← on_process (sys_ok (C_unlink path));
  if removed : bool then forget_recovery path else mret tt.

(** The end of a scope. *)
Definition depart (d : departed) : C unit := fun c => Some (tt, set_c_left c (d :: c_left c)).

(** A vault goes out of scope as it is. *)
Definition leave (vault : pv_vault) : C unit := depart (mk_departed vault vault []).

(** The blocks given to [sodium_free] until now. *)
Definition freed_blocks : C (list guarded_block) := fun c => Some (s_freed (w_sys (c_world c)), c).

(** [pv_model_destroy], then the end of the scope. *)
Definition destroy (vault : pv_vault) : C unit :=
  freed_before ← freed_blocks;
  after ← on_sys (total (pv_model_destroy vault));
  freed ← freed_blocks;
  depart (mk_departed vault after (drop (length freed_before) freed)).

(** [if (vault.arena.base != NULL) pv_model_destroy(&vault)]. *)
Definition destroy_if_open (vault : pv_vault) : C unit := if a_base (v_arena vault) then destroy vault else leave vault.

(** ** Small functions *)

Definition status_committed (status : pv_status) : bool := is_ok status || bool_decide (status = PV_ERR_DURABILITY).

(** The bytes of a secret buffer. *)
Definition secret_bytes (b : pv_buffer) : option (list Z) := match b_data b with Some data => Some (zsub data 0 (b_len b)) | None => None end.

Definition validate_new_master_password (password : pv_buffer) : C pv_status :=
  if pv_master_password_is_acceptable (secret_bytes password) then mret PV_OK else
  _ ← complain (text_lines [cstr "pvault: master password must be at least 16 bytes and not a common value, full sequence, or periodic repetition; prefer a randomly generated 5-6 word passphrase"]);
  mret PV_ERR_USAGE.

Section commands.
Context `{Host} `{Sodium} `{Libcbor}.
(** Is standard output a terminal, and standard input. *)
Context (stdout_tty : bool).

Definition require_private_output (allow_redirect : bool) : C pv_status :=
  if stdout_tty || allow_redirect then mret PV_OK else
  _ ← complain (text_lines [cstr "pvault: refusing to emit decrypted record metadata to non-terminal stdout; repeat with --allow-redirect only for an intentional private destination"]);
  mret PV_ERR_USAGE.

(** The status, the vault and the header; both are zero before. *)
Definition open_password_vault (vault_path : list Z) : C (pv_status * pv_vault * pv_file_header) :=
  r ← read_secret false;
  let '(status, password) := r in
  if negb (is_ok status) then mret (status, vault_zero, header_zero) else
  r ← on_store (pv_store_open_password_consume vault_path password vault_zero header_zero);
  let '(status, _, vault, header) := r in
  mret (status, vault, header).

(** ** Printing records *)

Definition print_slice (slice : pv_view) : C unit := say (pv_text_fprint slice).

Definition hex_text (bytes : list Z) : list Z := default [] (pv_hex_encode (Some bytes) (2 * zlen bytes + 1)).

Definition print_record_line (record : pv_record pv_view) : C unit :=
  let id := hex_text (r_id record) in
  _ ← say (zsub id 0 8 ++ cstr "  " ++ [if negb (Z.land (r_flags record) PV_RECORD_FAVORITE =? 0) then 42 else 32] ++ cstr " ");
  _ ← print_slice (r_title record);
  _ ← (if 0 <? v_len (r_username record) then
         _ ← say (cstr "  [");
         _ ← print_slice (r_username record);
         say (cstr "]")
       else mret tt);
  say [10].

Fixpoint print_urls (urls : list pv_view) : C unit :=
  match urls with
  | [] => mret tt
  | url :: urls =>
      _ ← say (cstr "  - ");
      _ ← print_slice url;
      _ ← say [10];
      print_urls urls
  end.

(** [first] tells the first turn of the loop. *)
Fixpoint print_tags (first : bool) (tags : list pv_view) : C unit :=
  match tags with
  | [] => mret tt
  | tag :: tags =>
      _ ← (if first then mret tt else say (cstr ", "));
      _ ← print_slice tag;
      print_tags false tags
  end.

Fixpoint print_fields (fields : list (pv_custom_field pv_view)) : C unit :=
  match fields with
  | [] => mret tt
  | field :: fields =>
      _ ← say (cstr "  ");
      _ ← print_slice (f_name field);
      _ ← say (cstr ": ");
      _ ← (if negb (Z.land (f_flags field) PV_FIELD_SECRET =? 0) then say (cstr "<secret>") else print_slice (f_value field));
      _ ← say [10];
      print_fields fields
  end.

Definition show_record (record : pv_record pv_view) : C unit :=
  _ ← say (cstr "ID: " ++ hex_text (r_id record) ++ [10] ++ cstr "Title: ");
  _ ← print_slice (r_title record);
  _ ← say ([10] ++ cstr "Username: ");
  _ ← print_slice (r_username record);
  _ ← say ([10] ++ cstr "Password: <secret>" ++ [10] ++ cstr "URLs:" ++ [10]);
  _ ← print_urls (r_urls record);
  _ ← say (cstr "Notes: ");
  _ ← print_slice (r_notes record);
  _ ← say ([10] ++ cstr "Tags: ");
  _ ← print_tags true (r_tags record);
  _ ← say ([10] ++ cstr "Custom fields:" ++ [10]);
  print_fields (r_fields record).

(** ** Selecting *)

Definition select_record_private (vault : pv_vault) : C (pv_status * option nat) :=
  r ← pick vault;
  let '(status, record) := r in
  _ ← (if bool_decide (status = PV_ERR_NOT_FOUND) then complain (text_lines [cstr "pvault: no record selected"]) else mret tt);
  mret (status, record).

Definition reject_positional_selector : C pv_status :=
  _ ← complain (text_lines [cstr "pvault: positional record selectors are disabled because process arguments are public; use the interactive picker"]);
  mret PV_ERR_USAGE.

Inductive copy_field_kind := COPY_FIELD_PASSWORD | COPY_FIELD_USERNAME | COPY_FIELD_URL | COPY_FIELD_CUSTOM.

(** The status and [*view], [None] when it is not set. *)
Definition record_field_view (record : pv_record pv_view) (field : copy_field_kind) : pv_status * option pv_view :=
  let view := match field, r_urls record with
              | COPY_FIELD_PASSWORD, _ => Some (r_password record)
              | COPY_FIELD_USERNAME, _ => Some (r_username record)
              | COPY_FIELD_URL, url :: _ => Some url
              | _, _ => None
              end in
  match view with
  | None => (PV_ERR_NOT_FOUND, None)
  | Some v => (if v_len v =? 0 then PV_ERR_NOT_FOUND else PV_OK, Some v)
  end.

Definition select_custom_field_view (record : pv_record pv_view) : C (pv_status * option pv_view) :=
  let field_count := zlen (r_fields record) in
  if (field_count =? 0) || (UINT32_MAX <? field_count) then mret (PV_ERR_NOT_FOUND, None) else
  status ← on_process (show_custom_fields (r_fields record));
  r ← (if is_ok status then read_unsigned field_count 0 0 else mret (status, 0));
  let '(status, selection) := r in
  let status := if is_ok status && (selection =? 0) then PV_ERR_USAGE else status in
  if negb (is_ok status) then mret (status, None) else
  match r_fields record !! Z.to_nat (selection - 1) with
  | None => mret (PV_ERR_STATE, None)
  | Some field =>
      let view := f_value field in
      mret (if v_len view =? 0 then PV_ERR_NOT_FOUND else PV_OK, Some view)
  end.

(** ** Generated passwords *)

Definition lower : list Z := cstr "abcdefghijkmnopqrstuvwxyz".
Definition upper : list Z := cstr "ABCDEFGHJKLMNPQRSTUVWXYZ".
Definition digits : list Z := cstr "23456789".
Definition symbols : list Z := cstr "!#$%&()*+,-./:;<=>?@[]^_{|}~".
Definition all : list Z := cstr "abcdefghijkmnopqrstuvwxyzABCDEFGHJKLMNPQRSTUVWXYZ23456789!#$%&()*+,-./:;<=>?@[]^_{|}~".

(** A uniform value below [n]; the stream is arbitrary, so any value may come. *)
Definition randombytes_uniform (n : Z) : M Z := fun s =>
  (if n <? 2 then 0 else s_rand s 0%nat mod n,
   mk_sys (s_malloc s) (s_mlock s) (s_mprotect s) (skip 1 (s_rand s)) (s_clock s) (s_freed s)).

Definition random_char (alphabet : list Z) : M Z :=
  i ← randombytes_uniform (zlen alphabet);
  mret (znth alphabet i).

Fixpoint random_chars (alphabet : list Z) (n : nat) : M (list Z) :=
  match n with
  | O => mret []
  | S n => c ← random_char alphabet; rest ← random_chars alphabet n; mret (c :: rest)
  end.

(** The exchange of two elements. *)
Definition exchange (l : list Z) (i j : nat) : list Z := <[j := nth i l 0]> (<[i := nth j l 0]> l).

(** The loop from index [i] down to [1]. *)
Fixpoint shuffle_loop (i : nat) (l : list Z) : M (list Z) :=
  match i with
  | O => mret l
  | S i' =>
      j ← randombytes_uniform (Z.of_nat i + 1);
      shuffle_loop i' (exchange l i (Z.to_nat j))
  end.

(** The status and the buffer; [password] is the buffer before. *)
Definition generate_password (length : Z) (password : pv_buffer) : M (pv_status * pv_buffer) :=
  if (length <? 12) || (256 <? length) then mret (PV_ERR_USAGE, password) else
  allocated ← sodium_malloc;
  locked ← (if (allocated : bool) then sodium_mlock else mret false);
  if negb locked then mret (PV_ERR_SECURE_MEMORY, mk_buffer None 0 true) else
  a ← random_char lower;
  b ← random_char upper;
  c ← random_char digits;
  d ← random_char symbols;
  rest ← random_chars all (Z.to_nat (length - 4));
  data ← shuffle_loop (Z.to_nat (length - 1)) ([a; b; c; d] ++ rest);
  mret (PV_OK, mk_buffer (Some (data ++ [0])) length true).

(** ** Forms *)

Definition is_blank (c : Z) : bool := (c =? 32) || (c =? 9).

Fixpoint skip_separators (l : list Z) : list Z :=
  match l with
  | c :: l' => if is_blank c || (c =? 44) then skip_separators l' else l
  | [] => []
  end.

(** The characters before the next comma, and from it on. *)
Fixpoint until_comma (l : list Z) : list Z * list Z :=
  match l with
  | c :: l' => if c =? 44 then ([], l) else let '(word, rest) := until_comma l' in (c :: word, rest)
  | [] => ([], [])
  end.

Fixpoint strip_blanks_rev (l : list Z) : list Z :=
  match l with
  | c :: l' => if is_blank c then strip_blanks_rev l' else l
  | [] => []
  end.

Definition strip_blanks (l : list Z) : list Z := rev (strip_blanks_rev (rev l)).

(** The status and the items; every turn takes a character. *)
Fixpoint split_csv_loop (fuel : nat) (max_len : Z) (cursor : list Z) (items : list (list Z)) : pv_status * list (list Z) :=
  match fuel, cursor with
  | O, _ | _, [] => (PV_OK, items)
  | S fuel, _ =>
      let '(word, cursor) := until_comma (skip_separators cursor) in
      let item := strip_blanks word in
      if 0 <? zlen item then
        if (PV_MAX_COLLECTION_ITEMS <=? zlen items) || (max_len <? zlen item) then (PV_ERR_LIMIT, items)
        else split_csv_loop fuel max_len (drop 1 cursor) (items ++ [item])
      else split_csv_loop fuel max_len (drop 1 cursor) items
  end.

Definition split_csv (source : list Z) (max_len : Z) : pv_status * list (list Z) :=
  split_csv_loop (length source) max_len source [].

Definition buffer_view (b : pv_buffer) : pv_view := mk_view (b_data b) (b_len b).
Definition buffer_bytes (b : pv_buffer) : list Z := v_bytes (buffer_view b).

Record record_form := mk_form {
  fm_title : pv_buffer;
  fm_username : pv_buffer;
  fm_password : pv_buffer;
  fm_urls : list (list Z);
  fm_notes : pv_buffer;
  fm_tags : list (list Z);
  fm_fields : list (pv_custom_field pv_view)
}.

(** The loop of [collect_custom_fields]: the status and the fields. *)
Fixpoint collect_fields_loop (count : nat) (fields : list (pv_custom_field pv_view)) : C (pv_status * list (pv_custom_field pv_view)) :=
  match count with
  | O => mret (PV_OK, fields)
  | S count =>
      r ← read_line PV_MAX_FIELD_NAME false;
      let '(status, name) := r in
      if negb (is_ok status) then mret (status, fields) else
      r ← confirm;
      let '(status, secret) := r in
      if negb (is_ok status) then mret (status, fields) else
      r ← (if secret : bool then read_secret false else read_line PV_MAX_FIELD_VALUE true);
      let '(status, value) := r in
      if negb (is_ok status) then mret (status, fields) else
      collect_fields_loop count (fields ++ [mk_field (buffer_view name) (buffer_view value) (if secret : bool then PV_FIELD_SECRET else 0)])
  end.

Definition collect_custom_fields : C (pv_status * list (pv_custom_field pv_view)) :=
  r ← read_unsigned PV_MAX_COLLECTION_ITEMS 0 0;
  let '(status, count) := r in
  if negb (is_ok status) then mret (status, []) else
  collect_fields_loop (Z.to_nat count) [].

(** The password of a form: generated, or entered when the answer to the question
    does not begin with [g]. *)
Definition collect_password : C (pv_status * pv_buffer) :=
  r ← read_line 8 true;
  let '(status, mode) := r in
  if negb (is_ok status) then mret (status, buffer_zero) else
  let first := znth (default [] (b_data mode)) 0 in
  if (b_len mode =? 0) || (first =? 103) || (first =? 71)
  then on_sys (total (generate_password 24 buffer_zero))
  else read_secret false.

(** The record of a form. *)
Definition form_record (form : record_form) : pv_record pv_view :=
  mk_record (zeros PV_RECORD_ID_BYTES) 0 0 0 0 (buffer_view (fm_title form)) (buffer_view (fm_username form)) (buffer_view (fm_password form))
    (buffer_view (fm_notes form)) (map view_of (fm_urls form)) (map view_of (fm_tags form)) (fm_fields form).

Definition empty_record : pv_record pv_view :=
  mk_record (zeros PV_RECORD_ID_BYTES) 0 0 0 0 (mk_view None 0) (mk_view None 0) (mk_view None 0) (mk_view None 0) [] [] [].

(** The status and the record; the buffers of the form live until the command
    ends. *)
Definition collect_record : C (pv_status * pv_record pv_view) :=
  let failed (status : pv_status) : C (pv_status * pv_record pv_view) := mret (status, empty_record) in
  r ← read_line PV_MAX_TITLE false;
  let '(status, title) := r in
  if negb (is_ok status) then failed status else
  r ← read_line PV_MAX_USERNAME true;
  let '(status, username) := r in
  if negb (is_ok status) then failed status else
  r ← collect_password;
  let '(status, password) := r in
  if negb (is_ok status) then failed status else
  r ← read_line (PV_MAX_URL * 4) true;
  let '(status, urls_text) := r in
  if negb (is_ok status) then failed status else
  let '(status, urls) := split_csv (buffer_bytes urls_text) PV_MAX_URL in
  if negb (is_ok status) then failed status else
  r ← read_line PV_MAX_NOTES true;
  let '(status, notes) := r in
  if negb (is_ok status) then failed status else
  r ← read_line (PV_MAX_TAG * 8) true;
  let '(status, tags_text) := r in
  if negb (is_ok status) then failed status else
  let '(status, tags) := split_csv (buffer_bytes tags_text) PV_MAX_TAG in
  if negb (is_ok status) then failed status else
  r ← collect_custom_fields;
  let '(status, fields) := r in
  if negb (is_ok status) then failed status else
  mret (PV_OK, form_record (mk_form title username password urls notes tags fields)).

End commands.
