(* ===== verification/Shell.v ===== *)
(** * The interactive shell

    [src/shell.c]. Standard input is a list of bytes and then its end; [fgets] takes
    from it what the C function takes. The waits for input are system calls. A turn
    of the loop ends the session or takes a line, so the number of bytes left bounds
    the turns ([ShellProps.shell_loop_ends]). *)

From stdpp Require Import gmap.
From S2P Require Import Prelude Status Util Sys Arena Model Cbor Crypto Posix Recovery Config Secure Fs Store StoreOps.
From S2P Require Import Ui Process Clipboard Rofi Cli.

(** ** Lines of standard input *)

(** At most [n] bytes, up to a line feed; whether the end was met; what is left. *)
Fixpoint fgets_loop (n : nat) (input : list Z) : list Z * bool * list Z :=
  match n, input with
  | O, _ => ([], false, input)
  | S _, [] => ([], true, [])
  | S n, c :: input =>
      if c =? 10 then ([c], false, input)
      else let '(line, feof, rest) := fgets_loop n input in (c :: line, feof, rest)
  end.

Definition fgets (size : nat) (input : list Z) : option (list Z * bool * list Z) :=
  match input with
  | [] => None
  | _ => Some (fgets_loop (size - 1) input)
  end.

(** [fgetc] up to and with the next line feed. *)
Fixpoint discard_line (input : list Z) : list Z :=
  match input with
  | [] => []
  | c :: input => if c =? 10 then input else discard_line input
  end.

(** [strcspn(line, "\r\n")] bytes. *)
Fixpoint until_line_end (line : list Z) : list Z :=
  match line with
  | [] => []
  | c :: line => if (c =? 13) || (c =? 10) then [] else c :: until_line_end line
  end.

Fixpoint skip_blanks (line : list Z) : list Z :=
  match line with
  | c :: line' => if is_blank c then skip_blanks line' else line
  | [] => []
  end.

(** The characters before the first blank, and from it on. *)
Fixpoint until_blank (line : list Z) : list Z * list Z :=
  match line with
  | [] => ([], [])
  | c :: line' => if is_blank c then ([], line) else let '(word, rest) := until_blank line' in (c :: word, rest)
  end.

(** The command and its argument. *)
Definition shell_words (line : list Z) : list Z * list Z :=
  let '(command, rest) := until_blank (skip_blanks (until_line_end line)) in
  (command, skip_blanks rest).

(** ** Output *)

Definition shell_print_slice (slice : pv_view) : C unit := say (pv_text_fprint slice).

Fixpoint shell_list (vault : pv_vault) (records : list (pv_record pv_slice)) : C unit :=
  match records with
  | [] => mret tt
  | record :: records =>
      if is_deleted record then shell_list vault records else
      _ ← say (zsub (hex_text (r_id record)) 0 8 ++ cstr "  ");
      _ ← shell_print_slice (r_title (record_view vault record));
      _ ← say [10];
      shell_list vault records
  end.

Definition shell_find (vault : pv_vault) (query : list Z) : option nat :=
  let '(record, matches) := pv_model_find vault (Some query) in
  if matches =? 1 then record else None.

Definition shell_show (record : pv_record pv_view) : C unit :=
  _ ← say (cstr "Title: ");
  _ ← shell_print_slice (r_title record);
  _ ← say ([10] ++ cstr "Username: ");
  _ ← shell_print_slice (r_username record);
  _ ← say ([10] ++ cstr "Password: <secret>" ++ [10] ++ cstr "URLs:" ++ [10]);
  print_urls (r_urls record).

(** [strcmp(a, b) == 0]. *)
Definition streq (a b : list Z) : bool := bytes_eqb a b.
Arguments streq a b : simpl never.

Section shell.
Context `{Host} `{Sodium} `{Libcbor}.
Context (stdin_tty stdout_tty : bool).

(** What a turn of the loop does: go on, or end with the status and whether the
    clipboard job is still to be cancelled. *)
Definition turn : Type := unit + pv_status * bool.

(** A command of the session. *)
Definition shell_command (vault : pv_vault) (clipboard : pv_clipboard_job) (clipboard_ready : bool) (command argument : list Z) : C turn :=
  let go_on (text : list Z) : C turn := _ ← say text; mret (inl tt) in
  if streq command (cstr "quit") || streq command (cstr "lock") then mret (inr (PV_OK, clipboard_ready)) else
  if streq command (cstr "help") then go_on (text_lines [cstr "Commands: list, show QUERY, copy QUERY, lock, quit"]) else
  if streq command (cstr "list") then _ ← shell_list vault (v_records vault); mret (inl tt) else
  if streq command (cstr "show") && negb (zlen argument =? 0) then
    match shell_find vault argument with
    | None => go_on (text_lines [cstr "No unique match."])
    | Some i =>
        match v_records vault !! i with
        | None => mret (inr (PV_ERR_STATE, clipboard_ready))
        | Some record => _ ← shell_show (record_view vault record); mret (inl tt)
        end
    end
  else if streq command (cstr "copy") && negb (zlen argument =? 0) then
    if negb clipboard_ready then go_on (text_lines [cstr "Clipboard backend unavailable for this session."]) else
    match shell_find vault argument with
    | None => go_on (text_lines [cstr "No unique match or no password."])
    | Some i =>
        match v_records vault !! i with
        | None => mret (inr (PV_ERR_STATE, clipboard_ready))
        | Some record =>
            let password := r_password (record_view vault record) in
            if v_len password =? 0 then go_on (text_lines [cstr "No unique match or no password."]) else
            r ← on_process (pv_clipboard_send clipboard password);
            let '(status, _) := r in
            _ ← (if is_ok status then say (text_lines [cstr "Password queued to the clipboard owner; session locks now."]) else mret tt);
            mret (inr (status, false))
        end
    end
  else if negb (zlen command =? 0) then go_on (text_lines [cstr "Unknown command. Type help."])
  else mret (inl tt).

(** A turn, and what standard input holds after it. *)
Definition shell_turn (config : pv_config) (vault : pv_vault) (clipboard : pv_clipboard_job) (clipboard_ready : bool) (input : list Z)
  : C (turn * list Z) :=
  _ ← say (cstr "pvault> ");
  polled ← on_process (retry (C_poll [(0, POLLIN)] (i32 (session_ttl config) * 1000)));
  let ready := a_ret polled in
  if ready =? 0 then
    _ ← say ([10] ++ cstr "Session locked after inactivity." ++ [10]);
    mret (inr (PV_OK, clipboard_ready), input)
  else if ready <? 0 then mret (inr (PV_ERR_IO, clipboard_ready), input) else
  match fgets 512 input with
  | None => mret (inr (PV_OK, clipboard_ready), input)
  | Some (line, feof, rest) =>
      let line := c_string line in
      if is_null (find_char line 10) && negb feof then
        _ ← say (text_lines [cstr "Input line is too long; command discarded."]);
        mret (inl tt, discard_line rest)
      else
        let '(command, argument) := shell_words line in
        r ← shell_command vault clipboard clipboard_ready command argument;
        mret (r, rest)
  end.

Fixpoint shell_loop (fuel : nat) (config : pv_config) (vault : pv_vault) (clipboard : pv_clipboard_job) (clipboard_ready : bool) (input : list Z)
  : C (pv_status * bool) :=
  match fuel with
  | O => fun _ => None
  | S fuel =>
      r ← shell_turn config vault clipboard clipboard_ready input;
      let '(result, input) := r in
      match result with
      | inl _ => shell_loop fuel config vault clipboard clipboard_ready input
      | inr result => mret result
      end
  end.

(** [input] is what standard input holds. *)
Definition pv_shell_run (config : pv_config) (input : list Z) : C pv_status :=
  if negb stdin_tty || negb stdout_tty then
    _ ← complain (text_lines [cstr "pvault: shell requires terminal input and output; redirected metadata is refused"]);
    mret PV_ERR_USAGE
  else
  r ← on_process (pv_clipboard_prepare (clipboard_ttl config));
  let '(prepared, clipboard) := r in
  let clipboard_ready := is_ok prepared in
  r ← open_password_vault (vault_path config);
  let '(status, vault, _) := r in
  if negb (is_ok status) then
    _ ← (if clipboard_ready then _ ← on_process (pv_clipboard_cancel clipboard); mret tt else mret tt);
    _ ← leave vault;
    mret status
  else
  _ ← say (cstr "PVault session open; idle timeout " ++ decimal (session_ttl config) ++ cstr " seconds. Type help." ++ [10]);
  r ← shell_loop (S (length input)) config vault clipboard clipboard_ready input;
  let '(status, clipboard_ready) := r in
  _ ← (if clipboard_ready : bool then _ ← on_process (pv_clipboard_cancel clipboard); mret tt else mret tt);
  _ ← destroy vault;
  mret status.

End shell.
