(* ===== verification/Commands.v ===== *)
(** * The commands

    [src/cli.c], second part: one definition for each command, and the dispatch on
    the arguments. *)

From stdpp Require Import gmap.
From S2P Require Import Prelude Status Util Sys Arena Model Cbor Crypto Posix Recovery Config Secure Fs Store StoreOps.
From S2P Require Import Ui Process Clipboard Rofi Cli Shell.

(** ** Usage *)

Definition usage_lines : list (list Z) :=
  [cstr "Usage: pvault [--vault PATH] COMMAND [OPTIONS]";
   cstr "Commands:";
   cstr "  init --recovery-out PATH   Create a new vault";
   cstr "  add                         Add a credential";
   cstr "  edit                        Select and edit a credential";
   cstr "  remove                      Select and delete a credential";
   cstr "  list [--allow-redirect]     List credentials";
   cstr "  show [--allow-redirect]     Select and show redacted record metadata";
   cstr "  copy [--field FIELD]        Select and copy a field";
   cstr "  pick [--copy] [--rofi]      Keyboard-driven picker";
   cstr "  generate [--length N]       Generate and copy a password";
   cstr "  passwd [--recovery FILE]    Change the master password";
   cstr "  recovery rotate --out PATH Rotate the recovery key";
   cstr "  backup --output PATH        Create an encrypted backup";
   cstr "  restore BACKUP              Authenticate and restore a backup";
   cstr "  rescue inspect SNAPSHOT     Inspect unauthenticated metadata";
   cstr "  rescue verify SNAPSHOT      Authenticate a snapshot read-only";
   cstr "  rescue recover SNAPSHOT --output PATH";
   cstr "                              Create an authenticated recovery copy";
   cstr "  rollback SNAPSHOT --output PATH";
   cstr "                              Create a separate rollback copy";
   cstr "  config check                Validate configuration and permissions";
   cstr "  doctor                      Validate structure and authentication";
   cstr "  shell                       Open a five-minute session"].

Definition print_usage : list Z := text_lines usage_lines.

(** The usage of each command, and of the topics of two of them. *)
Definition usage_table : list (list Z * option (list Z) * list (list Z)) :=
  [(cstr "init", None, [cstr "Usage: pvault [--vault PATH] init --recovery-out PATH"]);
   (cstr "add", None, [cstr "Usage: pvault [--vault PATH] add"]);
   (cstr "edit", None, [cstr "Usage: pvault [--vault PATH] edit"]);
   (cstr "remove", None, [cstr "Usage: pvault [--vault PATH] remove"]);
   (cstr "list", None, [cstr "Usage: pvault [--vault PATH] list [--allow-redirect]"]);
   (cstr "show", None, [cstr "Usage: pvault [--vault PATH] show [--allow-redirect]"]);
   (cstr "copy", None, [cstr "Usage: pvault [--vault PATH] copy [--field password|username|url|custom] [--ttl SECONDS]"]);
   (cstr "pick", None, [cstr "Usage: pvault [--vault PATH] pick [--copy] [--rofi] [--allow-redirect]"]);
   (cstr "generate", None, [cstr "Usage: pvault generate [--length N]"]);
   (cstr "passwd", None, [cstr "Usage: pvault [--vault PATH] passwd [--recovery FILE]"]);
   (cstr "recovery", None, [cstr "Usage: pvault [--vault PATH] recovery rotate --out PATH"]);
   (cstr "recovery", Some (cstr "rotate"), [cstr "Usage: pvault [--vault PATH] recovery rotate --out PATH"]);
   (cstr "backup", None, [cstr "Usage: pvault [--vault PATH] backup --output PATH"]);
   (cstr "restore", None, [cstr "Usage: pvault [--vault PATH] restore BACKUP"]);
   (cstr "doctor", None, [cstr "Usage: pvault [--vault PATH] doctor"]);
   (cstr "shell", None, [cstr "Usage: pvault [--vault PATH] shell"]);
   (cstr "rescue", None, [cstr "Usage: pvault rescue inspect SNAPSHOT";
                          cstr "       pvault rescue verify SNAPSHOT [--recovery FILE] [--allow-redirect]";
                          cstr "       pvault rescue recover SNAPSHOT --output PATH [--recovery FILE]"]);
   (cstr "rescue", Some (cstr "inspect"), [cstr "Usage: pvault rescue inspect SNAPSHOT"]);
   (cstr "rescue", Some (cstr "verify"), [cstr "Usage: pvault rescue verify SNAPSHOT [--recovery FILE] [--allow-redirect]"]);
   (cstr "rescue", Some (cstr "recover"), [cstr "Usage: pvault rescue recover SNAPSHOT --output PATH [--recovery FILE]"]);
   (cstr "rollback", None, [cstr "Usage: pvault rollback SNAPSHOT --output PATH [--recovery FILE]"]);
   (cstr "config", None, [cstr "Usage: pvault config check"])].

Definition same_topic (a b : option (list Z)) : bool :=
  match a, b with
  | None, None => true
  | Some x, Some y => streq x y
  | _, _ => false
  end.

Fixpoint find_usage (table : list (list Z * option (list Z) * list (list Z))) (command : list Z) (topic : option (list Z)) : option (list (list Z)) :=
  match table with
  | [] => None
  | (c, t, usage) :: table => if streq command c && same_topic topic t then Some usage else find_usage table command topic
  end.

(** Whether there is such a usage; it is printed. *)
Definition print_command_usage (command : list Z) (topic : option (list Z)) : C bool :=
  match find_usage usage_table command topic with
  | None => mret false
  | Some usage => _ ← say (text_lines usage); mret true
  end.

Section commands.
Context `{Host} `{Sodium} `{Libcbor}.
(** Are standard input and output terminals. *)
Context (stdin_tty stdout_tty : bool).
(** The environment, what standard input holds, and how many identifiers are drawn
    for a new record. *)
Context (environ : list (list Z)) (input : list Z) (draws : nat).

Definition the_record (vault : pv_vault) (i : option nat) : option (nat * pv_record pv_slice) :=
  match i with
  | Some i => match v_records vault !! i with Some r => Some (i, r) | None => None end
  | None => None
  end.

(** ** Creating a vault *)

(** The options: the recovery path and the vault path; [None] is [PV_ERR_USAGE]. *)
Fixpoint init_options (argv : list (list Z)) (path : list Z) (recovery_out : option (list Z)) : option (list Z * option (list Z)) :=
  match argv with
  | [] => Some (path, recovery_out)
  | option :: rest =>
      match rest with
      | value :: rest' =>
          if streq option (cstr "--recovery-out") then init_options rest' path (Some value)
          else if streq option (cstr "--vault") then
            if (PATH_MAX <=? zlen value) || negb (znth value 0 =? 47) then None else init_options rest' value recovery_out
          else None
      | [] => None
      end
  end.

Definition command_init (config : pv_config) (argv : list (list Z)) : C pv_status :=
  match init_options argv (vault_path config) None with
  | None => mret PV_ERR_USAGE
  | Some (_, None) =>
      _ ← complain (text_lines [cstr "pvault: init requires --recovery-out PATH"]);
      mret PV_ERR_USAGE
  | Some (path, Some recovery_out) =>
      r ← on_sys (total (pv_secure_buffer_alloc buffer_zero PV_RECOVERY_KEY_BYTES));
      let '(status, recovery_key) := r in
      status ← (if is_ok status then r ← on_sys (total (pv_secure_buffer_alloc buffer_zero PV_RECOVERY_TEXT_MAX)); mret (fst r) else mret status);
      r ← (if is_ok status then read_secret true else mret (status, buffer_zero));
      let '(status, password) := r in
      status ← (if is_ok status then validate_new_master_password password else mret status);
      r ← (if is_ok status then
             key ← on_sys (total (randombytes_buf PV_RECOVERY_KEY_BYTES));
             r ← on_store (pv_store_create_consume path password key vault_zero);
             let '(status, _, vault) := r in
             mret (status, vault, key)
           else mret (status, vault_zero, []));
      let '(status, vault, key) := r in
      let commit_status := if bool_decide (status = PV_ERR_DURABILITY) then PV_ERR_DURABILITY else PV_OK in
      let status := if bool_decide (status = PV_ERR_DURABILITY) then PV_OK else status in
      r ← (if is_ok status then on_sys (total (pv_recovery_encode (v_vault_id vault) key PV_RECOVERY_TEXT_MAX)) else mret (status, None));
      let '(status, text) := r in
      status ← (if is_ok status then
                  status ← write_recovery recovery_out (default [] text) (v_vault_id vault);
                  _ ← (if is_ok status then mret tt else
                       complain (text_lines [cstr "pvault: vault creation committed, but the recovery file was not created";
                                             cstr "pvault: keep the master password and run 'pvault recovery rotate --out PATH'"]));
                  mret status
                else mret status);
      status ← (if is_ok status then
                  _ ← say (text_lines [cstr "Vault created at the requested vault path.";
                                       cstr "Recovery key written to the requested recovery output path."]);
                  mret commit_status
                else mret status);
      _ ← destroy vault;
      mret status
  end.

(** ** Records *)

Definition command_add (config : pv_config) : C pv_status :=
  r ← open_password_vault (vault_path config);
  let '(status, vault, header) := r in
  r ← (if is_ok status then collect_record else mret (status, empty_record));
  let '(status, source) := r in
  r ← (if is_ok status then on_sys (pv_model_add_record draws vault source) else mret (status, vault));
  let '(status, vault) := r in
  let created := is_ok status in
  r ← (if is_ok status then on_store (pv_store_save vault header (backup_retention config)) else mret (status, vault, header));
  let '(status, vault, _) := r in
  _ ← (if status_committed status && created then say (text_lines [cstr "Record added"]) else mret tt);
  _ ← destroy_if_open vault;
  mret status.

(** Clears slices of the arena. *)
Definition wipe (vault : pv_vault) (slices : list pv_slice) : pv_vault :=
  let a := v_arena vault in
  set_arena vault (mk_arena (a_base a) (a_capacity a) (a_used a) (a_readonly a) (wipe_slices (a_mem a) slices)).

(** The status, the new slice and the vault. *)
Definition replace_slice (vault : pv_vault) (destination : pv_slice) (value : pv_buffer) (maximum : Z) : pv_status * pv_slice * pv_vault :=
  let '(status, replacement, arena) := pv_arena_copy (v_arena vault) (mk_slice None 0) (b_data value) (b_len value) maximum in
  let vault := set_arena vault arena in
  if is_ok status then (status, replacement, wipe vault [destination]) else (status, destination, vault).

(** The copies of the items of a list in the arena. *)
Definition copy_items (arena : pv_arena) (parsed : list (list Z)) (max_len : Z) : pv_status * list pv_slice * pv_arena :=
  if zlen parsed =? 0 then (PV_OK, [], arena) else
  match pv_arena_alloc arena (zlen parsed * sizeof_pv_slice) alignof_ptr with
  | (None, arena) => (PV_ERR_LIMIT, [], arena)
  | (Some _, arena) => copy_slices_loop arena (map view_of parsed) max_len
  end.

Definition with_flags (r : pv_record pv_slice) (flags : Z) : pv_record pv_slice :=
  mk_record (r_id r) (r_revision r) (r_created_ms r) (r_updated_ms r) flags (r_title r) (r_username r) (r_password r) (r_notes r) (r_urls r) (r_tags r) (r_fields r).
Definition with_title (r : pv_record pv_slice) (s : pv_slice) : pv_record pv_slice :=
  mk_record (r_id r) (r_revision r) (r_created_ms r) (r_updated_ms r) (r_flags r) s (r_username r) (r_password r) (r_notes r) (r_urls r) (r_tags r) (r_fields r).
Definition with_username (r : pv_record pv_slice) (s : pv_slice) : pv_record pv_slice :=
  mk_record (r_id r) (r_revision r) (r_created_ms r) (r_updated_ms r) (r_flags r) (r_title r) s (r_password r) (r_notes r) (r_urls r) (r_tags r) (r_fields r).
Definition with_password (r : pv_record pv_slice) (s : pv_slice) : pv_record pv_slice :=
  mk_record (r_id r) (r_revision r) (r_created_ms r) (r_updated_ms r) (r_flags r) (r_title r) (r_username r) s (r_notes r) (r_urls r) (r_tags r) (r_fields r).
Definition with_notes (r : pv_record pv_slice) (s : pv_slice) : pv_record pv_slice :=
  mk_record (r_id r) (r_revision r) (r_created_ms r) (r_updated_ms r) (r_flags r) (r_title r) (r_username r) (r_password r) s (r_urls r) (r_tags r) (r_fields r).
Definition with_urls (r : pv_record pv_slice) (l : list pv_slice) : pv_record pv_slice :=
  mk_record (r_id r) (r_revision r) (r_created_ms r) (r_updated_ms r) (r_flags r) (r_title r) (r_username r) (r_password r) (r_notes r) l (r_tags r) (r_fields r).
Definition with_tags (r : pv_record pv_slice) (l : list pv_slice) : pv_record pv_slice :=
  mk_record (r_id r) (r_revision r) (r_created_ms r) (r_updated_ms r) (r_flags r) (r_title r) (r_username r) (r_password r) (r_notes r) (r_urls r) l (r_fields r).
Definition with_update (r : pv_record pv_slice) (now : Z) : pv_record pv_slice :=
  mk_record (r_id r) (r_revision r + 1) (r_created_ms r) now (r_flags r) (r_title r) (r_username r) (r_password r) (r_notes r) (r_urls r) (r_tags r) (r_fields r).

Definition put_record (vault : pv_vault) (i : nat) (r : pv_record pv_slice) : pv_vault :=
  set_records vault (<[i := r]> (v_records vault)) (v_record_capacity vault).

(** A text of the record, from the value that was read. *)
Definition edit_text (vault : pv_vault) (i : nat) (r : pv_record pv_slice) (old : pv_slice) (put : pv_record pv_slice -> pv_slice -> pv_record pv_slice)
    (maximum : Z) (read : pv_status * pv_buffer) : pv_status * pv_vault :=
  let '(status, value) := read in
  if negb (is_ok status) then (status, vault) else
  let '(status, slice, vault) := replace_slice vault old value maximum in
  (status, if is_ok status then put_record vault i (put r slice) else vault).

(** A list of the record. *)
Definition edit_list (vault : pv_vault) (i : nat) (r : pv_record pv_slice) (old : list pv_slice) (put : pv_record pv_slice -> list pv_slice -> pv_record pv_slice)
    (max_len : Z) (read : pv_status * pv_buffer) : pv_status * pv_vault :=
  let '(status, value) := read in
  if negb (is_ok status) then (status, vault) else
  let '(status, parsed) := split_csv (buffer_bytes value) max_len in
  if negb (is_ok status) then (status, vault) else
  let '(status, copies, arena) := copy_items (v_arena vault) parsed max_len in
  let vault := set_arena vault arena in
  if is_ok status then (status, put_record (wipe vault old) i (put r copies)) else (status, vault).

(** The change of the field that was named: the status and the vault. *)
Definition edit_field (vault : pv_vault) (i : nat) (r : pv_record pv_slice) (field : list Z) : C (pv_status * pv_vault) :=
  if streq field (cstr "favorite") then mret (PV_OK, put_record vault i (with_flags r (Z.lxor (r_flags r) PV_RECORD_FAVORITE))) else
  if streq field (cstr "password") then v ← read_secret false; mret (edit_text vault i r (r_password r) with_password PV_MAX_PASSWORD v) else
  if streq field (cstr "title") then v ← read_line PV_MAX_TITLE false; mret (edit_text vault i r (r_title r) with_title PV_MAX_TITLE v) else
  if streq field (cstr "username") then v ← read_line PV_MAX_USERNAME true; mret (edit_text vault i r (r_username r) with_username PV_MAX_USERNAME v) else
  if streq field (cstr "notes") then v ← read_line PV_MAX_NOTES true; mret (edit_text vault i r (r_notes r) with_notes PV_MAX_NOTES v) else
  if streq field (cstr "urls") then v ← read_line (PV_MAX_URL * 4) true; mret (edit_list vault i r (r_urls r) with_urls PV_MAX_URL v) else
  if streq field (cstr "tags") then v ← read_line (PV_MAX_TAG * 8) true; mret (edit_list vault i r (r_tags r) with_tags PV_MAX_TAG v) else
  mret (PV_ERR_USAGE, vault).

(** The selected record after the change, which keeps its index. *)
Definition command_edit (config : pv_config) : C pv_status :=
  r ← open_password_vault (vault_path config);
  let '(status, vault, header) := r in
  if negb (is_ok status) then _ ← leave vault; mret status else
  r ← select_record_private vault;
  let '(status, selected) := r in
  let finish (status : pv_status) (vault : pv_vault) : C pv_status :=
    _ ← (if status_committed status then say (text_lines [cstr "Record updated"]) else mret tt);
    _ ← destroy vault;
    mret status in
  if negb (is_ok status) then finish status vault else
  match the_record vault selected with
  | None => finish PV_ERR_STATE vault
  | Some (i, record) =>
      if r_revision record =? UINT64_MAX then finish PV_ERR_LIMIT vault else
      r ← read_line 32 false;
      let '(status, field) := r in
      if negb (is_ok status) then finish status vault else
      r ← on_sys (total (pv_arena_set_readwrite (v_arena vault)));
      let '(status, arena) := r in
      let vault := set_arena vault arena in
      if negb (is_ok status) then finish status vault else
      r ← edit_field vault i record (c_string (default [] (b_data field)));
      let '(status, vault) := r in
      if negb (is_ok status) then finish status vault else
      now ← on_sys (total now_ms);
      let vault := match v_records vault !! i with
                   | Some record => set_dirty (put_record vault i (with_update record now)) now true
                   | None => vault
                   end in
      r ← on_store (pv_store_save vault header (backup_retention config));
      let '(status, vault, _) := r in
      finish status vault
  end.

Definition command_remove (config : pv_config) : C pv_status :=
  r ← open_password_vault (vault_path config);
  let '(status, vault, header) := r in
  r ← (if is_ok status then select_record_private vault else mret (status, None));
  let '(status, selected) := r in
  let record := the_record vault selected in
  status ← (match record with
            | Some (_, r) => if is_ok status then on_process (tty_print_selected_title (record_view vault r)) else mret status
            | None => mret (if is_ok status then PV_ERR_STATE else status)
            end);
  r ← (if is_ok status then confirm else mret (status, false));
  let '(status, confirmed) := r in
  let cancelled := is_ok status && negb confirmed in
  _ ← (if cancelled then say (text_lines [cstr "Deletion cancelled"]) else mret tt);
  r ← (if is_ok status && negb cancelled then on_sys (total (pv_model_delete vault selected)) else mret (status, vault));
  let '(status, vault) := r in
  r ← (if is_ok status && negb cancelled then on_store (pv_store_save vault header (backup_retention config)) else mret (status, vault, header));
  let '(status, vault, _) := r in
  _ ← (if negb cancelled && status_committed status then say (text_lines [cstr "Record removed"]) else mret tt);
  _ ← destroy_if_open vault;
  mret status.

Fixpoint list_records (vault : pv_vault) (records : list (pv_record pv_slice)) (shown : Z) : C Z :=
  match records with
  | [] => mret shown
  | record :: records =>
      if is_deleted record then list_records vault records shown else
      _ ← print_record_line (record_view vault record);
      list_records vault records (shown + 1)
  end.

Definition command_list (config : pv_config) (allow_redirect : bool) : C pv_status :=
  status ← require_private_output stdout_tty allow_redirect;
  r ← (if is_ok status then open_password_vault (vault_path config) else mret (status, vault_zero, header_zero));
  let '(status, vault, _) := r in
  if negb (is_ok status) then _ ← leave vault; mret status else
  shown ← list_records vault (v_records vault) 0;
  _ ← say (decimal shown ++ cstr (if shown =? 1 then " record" else " records") ++ [10]);
  _ ← destroy vault;
  mret PV_OK.

Definition command_show (config : pv_config) (allow_redirect : bool) : C pv_status :=
  status ← require_private_output stdout_tty allow_redirect;
  r ← (if is_ok status then open_password_vault (vault_path config) else mret (status, vault_zero, header_zero));
  let '(status, vault, _) := r in
  r ← (if is_ok status then select_record_private vault else mret (status, None));
  let '(status, selected) := r in
  status ← (if is_ok status then
              match the_record vault selected with
              | Some (_, record) => _ ← show_record (record_view vault record); mret status
              | None => mret PV_ERR_STATE
              end
            else mret status);
  _ ← destroy_if_open vault;
  mret status.

(** ** The clipboard *)

Definition queued_line (ttl : Z) : list Z :=
  cstr "Requested field queued to the clipboard owner; owner lifetime is at most " ++ decimal ttl ++ cstr " seconds" ++ [10].

Definition command_copy (config : pv_config) (field : copy_field_kind) (ttl : Z) : C pv_status :=
  r ← on_process (pv_clipboard_prepare ttl);
  let '(status, job) := r in
  if negb (is_ok status) then mret status else
  r ← open_password_vault (vault_path config);
  let '(status, vault, _) := r in
  r ← (if is_ok status then select_record_private vault else mret (status, None));
  let '(status, selected) := r in
  r ← (if is_ok status then
         match the_record vault selected with
         | Some (_, record) =>
             match field with
             | COPY_FIELD_CUSTOM => select_custom_field_view (record_view vault record)
             | _ => mret (record_field_view (record_view vault record) field)
             end
         | None => mret (PV_ERR_STATE, None)
         end
       else mret (status, None));
  let '(status, view) := r in
  status ← (if is_ok status
            then r ← on_process (pv_clipboard_send job (default (mk_view None 0) view)); mret (fst r)
            else _ ← on_process (pv_clipboard_cancel job); mret status);
  _ ← destroy_if_open vault;
  _ ← (if is_ok status then say (queued_line ttl) else mret tt);
  mret status.

Definition command_pick (config : pv_config) (copy rofi allow_redirect : bool) : C pv_status :=
  status ← (if copy then mret PV_OK else require_private_output stdout_tty allow_redirect);
  if negb (is_ok status) then mret status else
  r ← (if copy then on_process (pv_clipboard_prepare (clipboard_ttl config)) else mret (PV_OK, no_job));
  let '(status, clip_job) := r in
  if negb (is_ok status) then mret status else
  r ← (if rofi then on_process (rofi_prepare environ) else mret (PV_OK, no_rofi));
  let '(status, rofi_process) := r in
  if negb (is_ok status) then
    _ ← (if copy then _ ← on_process (pv_clipboard_cancel clip_job); mret tt else mret tt);
    mret status
  else
  r ← open_password_vault (vault_path config);
  let '(status, vault, _) := r in
  let opened := is_ok status in
  r ← (if opened then
         if rofi then r ← on_process (rofi_select rofi_process vault); let '(status, selected, _) := r in mret (status, selected)
         else pick vault
       else mret (status, None));
  let '(status, selected) := r in
  let selected_ok := is_ok status in
  status ← (if selected_ok then
              match the_record vault selected with
              | None => mret PV_ERR_STATE
              | Some (_, record) =>
                  let view := record_view vault record in
                  if copy then
                    if v_len (r_password view) =? 0 then mret PV_ERR_NOT_FOUND
                    else r ← on_process (pv_clipboard_send clip_job (r_password view)); mret (fst r)
                  else _ ← show_record view; mret status
              end
            else mret status);
  (** [clip_ready] is cleared when a record was selected for copying. *)
  _ ← (if copy && negb selected_ok then _ ← on_process (pv_clipboard_cancel clip_job); mret tt else mret tt);
  _ ← (if rofi && negb opened then _ ← on_process (rofi_cancel rofi_process); mret tt else mret tt);
  _ ← destroy_if_open vault;
  mret status.

Definition generated_line (length ttl : Z) : list Z :=
  cstr "Generated " ++ decimal length ++ cstr "-character password and queued it to the clipboard owner; owner lifetime is at most " ++
  decimal ttl ++ cstr " seconds" ++ [10].

Definition command_generate (length ttl : Z) : C pv_status :=
  r ← on_process (pv_clipboard_prepare ttl);
  let '(status, job) := r in
  r ← (if is_ok status then on_sys (total (generate_password length buffer_zero)) else mret (status, buffer_zero));
  let '(status, password) := r in
  status ← (if is_ok status
            then r ← on_process (pv_clipboard_send job (buffer_view password)); mret (fst r)
            else _ ← on_process (pv_clipboard_cancel job); mret status);
  _ ← (if is_ok status then say (generated_line length ttl) else mret tt);
  mret status.

(** ** Credentials *)

(** The recovery key of a file, for the vault with identifier [vault_id]: the
    status and the buffer. *)
Definition recovery_key_of (status : pv_status) (encoded vault_id : list Z) (recovery_key : pv_buffer) : C (pv_status * pv_buffer) :=
  if negb (is_ok status) then mret (status, recovery_key) else
  r ← on_sys (total (pv_recovery_decode encoded vault_id));
  let '(status, key) := r in
  mret (status, mk_buffer (Some key) (b_len recovery_key) (b_secure recovery_key)).

(** The two buffers and the text of the recovery file. *)
Definition read_recovery_text : C (pv_status * list Z * pv_buffer) :=
  r ← on_sys (total (pv_secure_buffer_alloc buffer_zero PV_RECOVERY_TEXT_MAX));
  let '(status, _) := r in
  r ← (if is_ok status then on_sys (total (pv_secure_buffer_alloc buffer_zero PV_RECOVERY_KEY_BYTES)) else mret (status, buffer_zero));
  let '(status, recovery_key) := r in
  r ← (if is_ok status then read_recovery PV_RECOVERY_TEXT_MAX else mret (status, []));
  let '(status, encoded) := r in
  mret (status, encoded, recovery_key).

(** Opening with the key of a recovery file. *)
Definition open_recovery_vault (path : list Z) : C (pv_status * pv_vault * pv_file_header) :=
  r ← read_recovery_text;
  let '(status, encoded, recovery_key) := r in
  fd ← on_process (sys_ret (C_open path));
  r ← (if is_ok status then
         if fd <? 0 then mret (PV_ERR_IO, []) else on_process (read_exact fd PV_FILE_HEADER_LEN)
       else mret (status, []));
  let '(status, header_bytes) := r in
  _ ← on_process (close_open fd);
  let '(status, header) := if is_ok status then pv_header_decode header_bytes else (status, header_zero) in
  r ← recovery_key_of status encoded (h_vault_id header) recovery_key;
  let '(status, recovery_key) := r in
  if negb (is_ok status) then mret (status, vault_zero, header) else
  r ← on_store (pv_store_open_recovery_consume path recovery_key vault_zero header);
  let '(status, _, vault, header) := r in
  mret (status, vault, header).

Definition set_vault_dirty (vault : pv_vault) : pv_vault := set_dirty vault (v_updated_ms vault) true.

Definition command_passwd (config : pv_config) (recovery_file : option (list Z)) : C pv_status :=
  r ← (match recovery_file with
       | None => open_password_vault (vault_path config)
       | Some _ => open_recovery_vault (vault_path config)
       end);
  let '(status, vault, header) := r in
  r ← (if is_ok status then read_secret true else mret (status, buffer_zero));
  let '(status, new_password) := r in
  status ← (if is_ok status then validate_new_master_password new_password else mret status);
  r ← (if is_ok status
       then on_sys (total (pv_crypto_rewrap_password header (default [] (secret_bytes new_password)) (vmk_bytes vault)))
       else mret (status, header));
  let '(status, header) := r in
  r ← (if is_ok status then on_store (pv_store_save (set_vault_dirty vault) header (backup_retention config)) else mret (status, vault, header));
  let '(status, vault, _) := r in
  _ ← (if is_ok status then say (text_lines [cstr "Master password updated"])
       else if bool_decide (status = PV_ERR_DURABILITY)
       then say (text_lines [cstr "Password update reached the vault; verify both old and new passwords"])
       else mret tt);
  _ ← destroy_if_open vault;
  mret status.

Definition command_recovery_rotate (config : pv_config) (output : list Z) : C pv_status :=
  r ← on_sys (total (pv_secure_buffer_alloc buffer_zero PV_RECOVERY_KEY_BYTES));
  let '(status, _) := r in
  status ← (if is_ok status then r ← on_sys (total (pv_secure_buffer_alloc buffer_zero PV_RECOVERY_TEXT_MAX)); mret (fst r) else mret status);
  r ← (if is_ok status then open_password_vault (vault_path config) else mret (status, vault_zero, header_zero));
  let '(status, vault, header) := r in
  r ← (if is_ok status then
         key ← on_sys (total (randombytes_buf PV_RECOVERY_KEY_BYTES));
         r ← on_sys (total (pv_recovery_encode (v_vault_id vault) key PV_RECOVERY_TEXT_MAX));
         mret (fst r, key, default [] (snd r))
       else mret (status, [], []));
  let '(status, key, encoded) := r in
  status ← (if is_ok status then write_recovery output encoded (v_vault_id vault) else mret status);
  let output_created := is_ok status in
  r ← (if is_ok status then on_sys (total (pv_crypto_rewrap_recovery header key (vmk_bytes vault))) else mret (status, header));
  let '(status, header) := r in
  r ← (if is_ok status then on_store (pv_store_save (set_vault_dirty vault) header (backup_retention config)) else mret (status, vault, header));
  let '(status, vault, _) := r in
  _ ← (if negb (is_ok status) && negb (bool_decide (status = PV_ERR_DURABILITY)) && output_created then remove_recovery output else mret tt);
  _ ← (if output_created && status_committed status then
         if is_ok status
         then say (text_lines [cstr "Recovery key rotated; new key written to the requested output path.";
                               cstr "Move it to separate offline storage. The previous key is now invalid."])
         else say (text_lines [cstr "Recovery update reached the vault; new key written to the requested output path.";
                               cstr "Keep both old and new recovery keys until both paths are verified."])
       else mret tt);
  _ ← destroy_if_open vault;
  mret status.

(** ** Copies of the vault *)

Definition command_backup (config : pv_config) (output : list Z) : C pv_status :=
  r ← open_password_vault (vault_path config);
  let '(status, vault, _) := r in
  status ← (if is_ok status then on_store (pv_store_backup (vault_path config) output (Some (v_source_hash vault))) else mret status);
  _ ← (if is_ok status then say (text_lines [cstr "Encrypted backup written to the requested output path."]) else mret tt);
  _ ← destroy_if_open vault;
  mret status.

Definition command_restore (config : pv_config) (backup : list Z) : C pv_status :=
  r ← open_password_vault backup;
  let '(status, verification, _) := r in
  r ← (if is_ok status then
         _ ← say (text_lines [cstr "Warning: restore rolls back records, the master-password slot, and the recovery-key slot.";
                              cstr "Keep current and historical credentials until the restored vault is verified."]);
         confirm
       else mret (status, false));
  let '(status, confirmed) := r in
  let cancelled := is_ok status && negb confirmed in
  _ ← (if cancelled then say (text_lines [cstr "Restore cancelled"]) else mret tt);
  status ← (if is_ok status && negb cancelled
            then on_store (pv_store_restore (vault_path config) backup (v_source_hash verification)) else mret status);
  _ ← (if negb cancelled && status_committed status then say (text_lines [cstr "Vault restored from the authenticated backup."]) else mret tt);
  _ ← destroy_if_open verification;
  mret status.

Definition print_snapshot_identity (header : pv_file_header) (vault : pv_vault) : C unit :=
  say (text_lines [cstr "Authenticated snapshot";
                   cstr "Format: " ++ decimal (h_major header) ++ cstr "." ++ decimal (h_minor header);
                   cstr "Vault ID: " ++ hex_text (h_vault_id header);
                   cstr "Generation: " ++ decimal (v_generation vault);
                   cstr "Record count: " ++ decimal (v_record_count vault);
                   cstr "Snapshot hash (BLAKE2b-256): " ++ hex_text (v_source_hash vault)]).

Definition command_rescue_inspect (snapshot : list Z) : C pv_status :=
  r ← on_store (pv_store_inspect snapshot);
  let '(status, header, ciphertext_len) := r in
  _ ← (if is_ok status then
         say (text_lines [cstr "UNAUTHENTICATED snapshot metadata";
                          cstr "Do not use these values for recovery decisions until the snapshot is verified.";
                          cstr "Format (UNAUTHENTICATED): " ++ decimal (h_major header) ++ cstr "." ++ decimal (h_minor header);
                          cstr "Vault ID (UNAUTHENTICATED): " ++ hex_text (h_vault_id header);
                          cstr "Ciphertext bytes (UNAUTHENTICATED): " ++ decimal ciphertext_len])
       else mret tt);
  mret status.

Definition open_authenticated_snapshot (snapshot : list Z) (recovery_file : option (list Z)) : C (pv_status * pv_vault * pv_file_header) :=
  r ← on_store (pv_store_inspect snapshot);
  let '(status, inspected_header, _) := r in
  if negb (is_ok status) then mret (status, vault_zero, header_zero) else
  match recovery_file with
  | None => open_password_vault snapshot
  | Some _ =>
      r ← read_recovery_text;
      let '(status, encoded, recovery_key) := r in
      r ← recovery_key_of status encoded (h_vault_id inspected_header) recovery_key;
      let '(status, recovery_key) := r in
      if negb (is_ok status) then mret (status, vault_zero, header_zero) else
      r ← on_store (pv_store_open_recovery_consume snapshot recovery_key vault_zero header_zero);
      let '(status, _, vault, header) := r in
      mret (status, vault, header)
  end.

Definition command_rescue_verify (snapshot : list Z) (recovery_file : option (list Z)) (allow_redirect : bool) : C pv_status :=
  status ← require_private_output stdout_tty allow_redirect;
  r ← (if is_ok status then open_authenticated_snapshot snapshot recovery_file else mret (status, vault_zero, header_zero));
  let '(status, vault, header) := r in
  _ ← (if is_ok status then print_snapshot_identity header vault else mret tt);
  _ ← destroy_if_open vault;
  mret status.

Definition copied_lines (rollback : bool) : list (list Z) :=
  [if rollback then cstr "Authenticated rollback copy written in mode 0400." else cstr "Authenticated recovery copy written in mode 0400.";
   cstr "The requested output path contains the byte-exact encrypted copy.";
   cstr "The active vault and source snapshot were left unchanged."].

Definition unsure_lines (rollback : bool) : list (list Z) :=
  [(if rollback then cstr "Rollback" else cstr "Recovery") ++ cstr " copy publication may have occurred, but the requested output is not verified.";
   cstr "The active vault and source snapshot were left unchanged.";
   cstr "Verify the requested output path with rescue verify before using this copy."].

Definition command_rescue_copy (snapshot output : list Z) (recovery_file : option (list Z)) (rollback : bool) : C pv_status :=
  r ← open_authenticated_snapshot snapshot recovery_file;
  let '(status, vault, _) := r in
  status ← (if is_ok status then on_store (pv_store_recover_authenticated snapshot output (v_source_hash vault)) else mret status);
  _ ← (if is_ok status then say (text_lines (copied_lines rollback))
       else if bool_decide (status = PV_ERR_DURABILITY) then complain (text_lines (unsure_lines rollback)) else mret tt);
  _ ← destroy_if_open vault;
  mret status.

(** Both options at most once, each with a value; [None] is [PV_ERR_USAGE]. *)
Fixpoint copy_options (argv : list (list Z)) (output recovery_file : option (list Z)) : option (option (list Z) * option (list Z)) :=
  match argv with
  | [] => Some (output, recovery_file)
  | option :: rest =>
      match rest with
      | value :: rest' =>
          if streq option (cstr "--output") && is_null output then copy_options rest' (Some value) recovery_file
          else if streq option (cstr "--recovery") && is_null recovery_file then copy_options rest' output (Some value)
          else None
      | [] => None
      end
  end.

Fixpoint verify_options (argv : list (list Z)) (recovery_file : option (list Z)) (allow_redirect : bool) : option (option (list Z) * bool) :=
  match argv with
  | [] => Some (recovery_file, allow_redirect)
  | option :: rest =>
      let redirect := if streq option (cstr "--allow-redirect") && negb allow_redirect then verify_options rest recovery_file true else None in
      match rest with
      | value :: rest' =>
          if streq option (cstr "--recovery") && is_null recovery_file then verify_options rest' (Some value) allow_redirect else redirect
      | [] => redirect
      end
  end.

Definition rescue_copy_with (snapshot : list Z) (options : option (option (list Z) * option (list Z))) (rollback : bool) : C pv_status :=
  match options with
  | Some (Some output, recovery_file) => command_rescue_copy snapshot output recovery_file rollback
  | _ => mret PV_ERR_USAGE
  end.

Definition parse_rescue_command (argv : list (list Z)) : C pv_status :=
  match argv with
  | action :: snapshot :: options =>
      if streq action (cstr "inspect") && (zlen options =? 0) then command_rescue_inspect snapshot else
      if streq action (cstr "verify") then
        match verify_options options None false with
        | None => mret PV_ERR_USAGE
        | Some (recovery_file, allow_redirect) => command_rescue_verify snapshot recovery_file allow_redirect
        end
      else if streq action (cstr "recover") then rescue_copy_with snapshot (copy_options options None None) false
      else mret PV_ERR_USAGE
  | _ => mret PV_ERR_USAGE
  end.

Definition parse_rollback_command (argv : list (list Z)) : C pv_status :=
  match argv with
  | [] => mret PV_ERR_USAGE
  | snapshot :: options => rescue_copy_with snapshot (copy_options options None None) true
  end.

(** ** Checks *)

Definition command_doctor (config : pv_config) : C pv_status :=
  r ← on_store (pv_store_doctor (vault_path config) 256);
  let '(status, message) := r in
  _ ← say (default [] message ++ [10]);
  r ← (if is_ok status then open_password_vault (vault_path config) else mret (status, vault_zero, header_zero));
  let '(status, vault, _) := r in
  _ ← (if is_ok status then say (text_lines [cstr "authentication and payload validation OK"]) else mret tt);
  _ ← destroy_if_open vault;
  mret status.

(** [pv_config_load] with the next configuration file. *)
Definition load_config (config : pv_config) : C (pv_status * pv_config) := fun c =>
  match c_configs c with
  | [] => None
  | io :: rest => on_sys (pv_config_load (environ_get environ) geteuid io config) (set_c_configs c rest)
  end.

Definition command_config_check : C pv_status :=
  r ← load_config config_zero;
  let '(status, _) := r in
  _ ← (if is_ok status then say (text_lines [cstr "Configuration check passed (private file or built-in defaults)."]) else mret tt);
  mret status.

(** ** The dispatch *)

(** [strtoul] of a whole argument, between two bounds. *)
Definition parse_bounded (text : list Z) (minimum maximum : Z) : option Z :=
  let '(value, _, rest) := strtoul text in
  if (zlen rest =? zlen text) || negb (znth rest 0 =? 0) || (value <? minimum) || (maximum <? value) then None else Some value.

Definition copy_field_of (value : list Z) : option copy_field_kind :=
  if streq value (cstr "password") then Some COPY_FIELD_PASSWORD else
  if streq value (cstr "username") then Some COPY_FIELD_USERNAME else
  if streq value (cstr "url") then Some COPY_FIELD_URL else
  if streq value (cstr "custom") then Some COPY_FIELD_CUSTOM else None.

(** What the options of a command ask for: to run it, to refuse a positional
    selector, or [PV_ERR_USAGE]. *)
Inductive parsed (A : Type) := Run (x : A) | Selector | Usage.
Arguments Run {A}. Arguments Selector {A}. Arguments Usage {A}.

Definition copy_other (option : list Z) : parsed (copy_field_kind * Z) := if znth option 0 =? 45 then Usage else Selector.

Fixpoint copy_command_options (argv : list (list Z)) (field : copy_field_kind) (ttl : Z) : parsed (copy_field_kind * Z) :=
  match argv with
  | [] => Run (field, ttl)
  | option :: rest =>
      match rest with
      | value :: rest' =>
          if streq option (cstr "--field") then
            match copy_field_of value with
            | Some field => copy_command_options rest' field ttl
            | None => Usage
            end
          else if streq option (cstr "--ttl") then
            match parse_bounded value 1 300 with
            | Some ttl => copy_command_options rest' field ttl
            | None => Usage
            end
          else copy_other option
      | [] => copy_other option
      end
  end.

(** [copy], [rofi] and [allow_redirect]; [None] is [PV_ERR_USAGE]. *)
Fixpoint pick_options (argv : list (list Z)) (copy rofi allow_redirect : bool) : option (bool * bool * bool) :=
  match argv with
  | [] => if copy && allow_redirect then None else Some (copy, rofi, allow_redirect)
  | option :: rest =>
      if streq option (cstr "--copy") then pick_options rest true rofi allow_redirect
      else if streq option (cstr "--rofi") then pick_options rest copy true allow_redirect
      else if streq option (cstr "--allow-redirect") then pick_options rest copy rofi true
      else None
  end.

(** The length; [None] is [PV_ERR_USAGE]. *)
Fixpoint generate_options (argv : list (list Z)) (length : Z) : option Z :=
  match argv with
  | [] => Some length
  | option :: rest =>
      let other := if streq option (cstr "--copy") then generate_options rest length else None in
      match rest with
      | value :: rest' =>
          if streq option (cstr "--length") then
            match parse_bounded value 12 256 with
            | Some length => generate_options rest' length
            | None => None
            end
          else other
      | [] => other
      end
  end.

Definition version_line : list Z := cstr "pvault 0.1.0-pre-alpha" ++ [10].

Definition usage_of (command : list Z) (topic : option (list Z)) : C pv_status :=
  found ← print_command_usage command topic;
  mret (if found : bool then PV_OK else PV_ERR_USAGE).

Definition is_help (arg : list Z) : bool := streq arg (cstr "--help").

(** The options of [list] and [show]. *)
Definition redirect_option (argv : list (list Z)) (run : bool -> C pv_status) : C pv_status :=
  match argv with
  | [] => run false
  | [option] => if streq option (cstr "--allow-redirect") then run true else reject_positional_selector
  | _ => reject_positional_selector
  end.

(** The commands whose arguments come after the word, once help was dealt with. *)
Definition run_command (config : pv_config) (command : list Z) (argv : list (list Z)) : C pv_status :=
  let argc := zlen argv in
  let arg (i : nat) : list Z := nth i argv [] in
  let unknown : C pv_status := _ ← complain print_usage; mret PV_ERR_USAGE in
  if streq command (cstr "init") then command_init config argv else
  if streq command (cstr "config") && (argc =? 1) && streq (arg 0%nat) (cstr "check") then command_config_check else
  if streq command (cstr "add") && (argc =? 0) then command_add config else
  if streq command (cstr "edit") then (if argc =? 0 then command_edit config else reject_positional_selector) else
  if streq command (cstr "remove") then (if argc =? 0 then command_remove config else reject_positional_selector) else
  if streq command (cstr "list") then redirect_option argv (command_list config) else
  if streq command (cstr "show") then redirect_option argv (command_show config) else
  if streq command (cstr "shell") && (argc =? 0) then pv_shell_run stdin_tty stdout_tty config input else
  if streq command (cstr "doctor") && (argc =? 0) then command_doctor config else
  if streq command (cstr "copy") then
    match copy_command_options argv COPY_FIELD_PASSWORD (clipboard_ttl config) with
    | Run (field, ttl) => command_copy config field ttl
    | Selector => reject_positional_selector
    | Usage => mret PV_ERR_USAGE
    end
  else if streq command (cstr "pick") then
    match pick_options argv false (picker_rofi config) false with
    | Some (copy, rofi, allow_redirect) => command_pick config copy rofi allow_redirect
    | None => mret PV_ERR_USAGE
    end
  else if streq command (cstr "generate") then
    match generate_options argv 24 with
    | Some length => command_generate length (clipboard_ttl config)
    | None => mret PV_ERR_USAGE
    end
  else if streq command (cstr "passwd") then
    if (argc =? 2) && streq (arg 0%nat) (cstr "--recovery") then command_passwd config (Some (arg 1%nat))
    else if argc =? 0 then command_passwd config None else mret PV_ERR_USAGE
  else if streq command (cstr "recovery") && (argc =? 3) && streq (arg 0%nat) (cstr "rotate") && streq (arg 1%nat) (cstr "--out")
  then command_recovery_rotate config (arg 2%nat)
  else if streq command (cstr "backup") && (argc =? 2) && streq (arg 0%nat) (cstr "--output") then command_backup config (arg 1%nat)
  else if streq command (cstr "restore") && (argc =? 1) then command_restore config (arg 0%nat)
  else if streq command (cstr "rescue") then parse_rescue_command argv
  else if streq command (cstr "rollback") then parse_rollback_command argv
  else unknown.

(** A command word and what follows it. *)
Definition run_word (config : pv_config) (command : list Z) (argv : list (list Z)) : C pv_status :=
  let usage : C pv_status := _ ← say print_usage; mret PV_OK in
  if streq command (cstr "-h") || streq command (cstr "--help") then (if zlen argv =? 0 then usage else mret PV_ERR_USAGE) else
  if streq command (cstr "help") then
    match argv with
    | [] => usage
    | [topic] => usage_of topic None
    | [topic; subtopic] => usage_of topic (Some subtopic)
    | _ => mret PV_ERR_USAGE
    end
  else if streq command (cstr "--version") then
    if zlen argv =? 0 then _ ← say version_line; mret PV_OK else mret PV_ERR_USAGE
  else if (zlen argv =? 1) && is_help (nth 0 argv []) then usage_of command None
  else if (streq command (cstr "rescue") || streq command (cstr "recovery")) && (zlen argv =? 2) && is_help (nth 1 argv [])
  then usage_of command (Some (nth 0 argv []))
  else run_command config command argv.

Definition pv_cli_run (config : pv_config) (argv : list (list Z)) : C pv_status :=
  match argv with
  | _ :: option :: path :: rest =>
      if streq option (cstr "--vault") then
        if negb (znth path 0 =? 47) || (PATH_MAX <=? zlen path) then mret PV_ERR_USAGE else
        match rest with
        | [] => mret PV_ERR_USAGE
        | command :: argv => run_word (set_vault_path config path) command argv
        end
      else run_word config option (path :: rest)
  | [_; command] => run_word config command []
  | _ => _ ← complain print_usage; mret PV_ERR_USAGE
  end.

End commands.
