(* ===== verification/Main.v ===== *)
(** * The program

    [src/main.c]: what it reads of the arguments before the command line does, how
    it reports an error, and the whole program from the arguments to the exit
    code. *)

From stdpp Require Import gmap.
From S2P Require Import Prelude Status Util Sys Arena Model Cbor Crypto Posix Recovery Config Secure Fs Store StoreOps.
From S2P Require Import Ui Process Clipboard Rofi Cli Shell Commands.

(** The arguments from the command word on: after the name of the program and
    [--vault PATH]. *)
Definition from_command (argv : list (list Z)) : list (list Z) :=
  match argv with
  | _ :: option :: path :: rest => if streq option (cstr "--vault") then rest else option :: path :: rest
  | _ :: rest => rest
  | [] => []
  end.

Definition command_requests_clipboard (argv : list (list Z)) : bool :=
  match from_command argv with
  | [] => false
  | command :: rest =>
      if streq command (cstr "copy") || streq command (cstr "generate") then true else
      if negb (streq command (cstr "pick")) then false else existsb (fun a => streq a (cstr "--copy")) rest
  end.

Definition command_ignores_config (argv : list (list Z)) : bool :=
  match from_command argv with
  | [] => false
  | command :: rest =>
      if (zlen rest =? 1) && is_help (nth 0 rest []) then true else
      if (streq command (cstr "rescue") || streq command (cstr "recovery")) && (zlen rest =? 2) && is_help (nth 1 rest []) then true else
      streq command (cstr "help") || streq command (cstr "-h") || streq command (cstr "--help") || streq command (cstr "--version") ||
      streq command (cstr "config") || streq command (cstr "rescue") || streq command (cstr "rollback")
  end.

Definition command_is_config_check (argv : list (list Z)) : bool :=
  match from_command argv with
  | [command; action] => streq command (cstr "config") && streq action (cstr "check")
  | _ => false
  end.

Definition report_configuration_error (status : pv_status) : C unit :=
  match status with
  | PV_ERR_IO =>
      complain (text_lines [cstr "pvault: configuration: inaccessible or unsafe metadata; require a regular current-user file with one link, mode 0400 or 0600, and a safe parent"])
  | PV_ERR_FORMAT => complain (text_lines [cstr "pvault: configuration: invalid syntax, duplicate key, NUL byte, or value"])
  | PV_ERR_LIMIT => complain (text_lines [cstr "pvault: configuration: file, line, path, or value limit exceeded"])
  | _ => complain (text_lines [cstr "pvault: configuration: " ++ cstr (pv_status_string status)])
  end.

Section program.
Context `{Host} `{Sodium} `{Libcbor}.
Context (stdin_tty stdout_tty : bool) (environ : list (list Z)) (input : list Z) (draws : nat).

(** The configuration: the status, the configuration and whether it is the cause. *)
Definition main_config (argv : list (list Z)) : C (pv_status * pv_config * bool) :=
  if command_ignores_config argv then
    let '(status, config) := pv_config_defaults (environ_get environ) in
    mret (PV_OK, if is_ok status then config else config_zero, false)
  else
    r ← load_config environ config_zero;
    let '(status, config) := r in
    mret (status, config, negb (is_ok status)).

Definition report_error (argv : list (list Z)) (status : pv_status) (configuration_error : bool) : C unit :=
  if is_ok status then mret tt else
  if configuration_error || command_is_config_check argv then report_configuration_error status else
  if bool_decide (status = PV_ERR_EXTERNAL) && command_requests_clipboard argv
  then complain (text_lines [cstr "pvault: clipboard unavailable: require xclip, empty WAYLAND_DISPLAY, XDG_SESSION_TYPE=x11, and non-empty DISPLAY; Wayland and XWayland are refused"])
  else complain (text_lines [cstr "pvault: " ++ cstr (pv_status_string status)]).

(** The exit code; [initialized] is what [pv_global_init] returned. *)
Definition main (initialized : pv_status) (argv : list (list Z)) : C Z :=
  if negb (is_ok initialized) then
    _ ← complain (text_lines [cstr "pvault: initialization: " ++ cstr (pv_status_string initialized)]);
    mret (pv_status_exit_code initialized)
  else
  r ← main_config argv;
  let '(status, config, configuration_error) := r in
  status ← (if is_ok status then pv_cli_run stdin_tty stdout_tty environ input draws config argv else mret status);
  _ ← report_error argv status configuration_error;
  mret (pv_status_exit_code status).

End program.
