(* ===== verification/VaultKept.v ===== *)
(** * The memory of a vault

    Which operations give back, or erase, the memory of a vault: a vault whose arena
    is gone has no key and no records. The operations on an open vault keep it
    open; the functions that open one return an open vault or an erased one. *)

From stdpp Require Import gmap.
From S2P Require Import Prelude Status Util Sys Arena Model ModelFacts Cbor Crypto Posix Config Secure Fs FsFacts Store StoreOps.
From S2P Require Import Ui Process Clipboard Rofi Cli.

(** No memory, no key, no records. *)
Definition erased (v : pv_vault) : Prop := a_base (v_arena v) = false /\ v_vmk v = None /\ v_records v = [].

(** A vault that went out of scope: what is left of it is erased, and every block
    it held was given to [sodium_free]. *)
Definition given_back (d : departed) : Prop := erased (d_after d) /\ d_freed d = vault_blocks (d_before d).

Lemma erased_blocks v : erased v -> vault_blocks v = [].
Proof. intros (Ha & Hk & _). unfold vault_blocks. by rewrite Ha, Hk. Qed.

Definition has_memory (v : pv_vault) : Prop := a_base (v_arena v) = true.

(** Open, or erased. *)
Definition held (v : pv_vault) : Prop := has_memory v \/ erased v.

Lemma erased_zero : erased vault_zero.
Proof. done. Qed.

(** ** The arena *)

Lemma alloc_base a size alignment : a_base (snd (pv_arena_alloc a size alignment)) = a_base a.
Proof. unfold pv_arena_alloc. destruct (_ || _); [done |]. destruct (pv_size_add _ _); [| done]. destruct (pv_size_add _ _); [| done]. by destruct (_ <? _). Qed.

Lemma copy_base a out data len max_len : a_base (snd (pv_arena_copy a out data len max_len)) = a_base a.
Proof.
  unfold pv_arena_copy. destruct (_ || _); [done |]. destruct (len =? 0); [done |]. pose proof (alloc_base a (u64 (len + 1)) 1) as Hb.
  by destruct (pv_arena_alloc a _ 1) as [[d |] a'].
Qed.

Lemma protect_base a s : a_base (snd (fst (pv_arena_set_readonly a s))) = a_base a /\ a_base (snd (fst (pv_arena_set_readwrite a s))) = a_base a.
Proof.
  unfold pv_arena_set_readonly, pv_arena_set_readwrite. destruct (a_base a) eqn:E; [| by cbn]. cbn [negb]. rewrite !bind_run. unfold sodium_mprotect.
  by destruct (s_mprotect s 0%nat).
Qed.

Lemma copy_slices_loop_base a source max_len : a_base (snd (copy_slices_loop a source max_len)) = a_base a.
Proof.
  revert a. induction source as [| v source IH]; intros a; [done |]. cbn [copy_slices_loop]. pose proof (copy_base a (mk_slice None 0) (v_data v) (v_len v) max_len) as Hb.
  destruct (pv_arena_copy _ _ _ _ _) as [[st item] a1]. cbn in Hb. specialize (IH a1). destruct st; cbn; try congruence.
  destruct (copy_slices_loop a1 source max_len) as [[st' items] a2]. cbn in *. congruence.
Qed.

Lemma copy_slices_base a source max_len : a_base (snd (copy_slices a source max_len)) = a_base a.
Proof.
  unfold copy_slices. destruct (_ =? 0); [done |]. destruct (_ <? _); [done |]. pose proof (alloc_base a (zlen source * sizeof_pv_slice) alignof_ptr) as Hb.
  destruct (pv_arena_alloc a _ _) as [[d |] a1]; cbn in *; [| done]. rewrite copy_slices_loop_base. done.
Qed.

Lemma copy_fields_loop_base a source : a_base (snd (copy_fields_loop a source)) = a_base a.
Proof.
  revert a. induction source as [| f source IH]; intros a; [done |]. cbn [copy_fields_loop].
  pose proof (copy_base a (mk_slice None 0) (v_data (f_name f)) (v_len (f_name f)) PV_MAX_FIELD_NAME) as Hb.
  destruct (pv_arena_copy a _ _ _ _) as [[st name] a1]. cbn in Hb. destruct st; cbn; try congruence.
  pose proof (copy_base a1 (mk_slice None 0) (v_data (f_value f)) (v_len (f_value f)) PV_MAX_FIELD_VALUE) as Hb1.
  destruct (pv_arena_copy a1 _ _ _ _) as [[st1 value] a2]. cbn in Hb1. specialize (IH a2). destruct st1; cbn; try congruence.
  destruct (copy_fields_loop a2 source) as [[st2 items] a3]. cbn in *. congruence.
Qed.

Lemma copy_fields_base a source : a_base (snd (copy_fields a source)) = a_base a.
Proof.
  unfold copy_fields. destruct (_ =? 0); [done |]. destruct (_ <? _); [done |]. pose proof (alloc_base a (zlen source * sizeof_pv_custom_field) alignof_ptr) as Hb.
  destruct (pv_arena_alloc a _ _) as [[d |] a1]; cbn in *; [| done]. rewrite copy_fields_loop_base. done.
Qed.

Lemma copy_then_base {X Y} a (copied : pv_status * X * pv_arena) (rest : X -> pv_arena -> pv_status * option Y * pv_arena) :
  a_base (snd copied) = a_base a -> (forall x a', a_base a' = a_base a -> a_base (snd (rest x a')) = a_base a) -> a_base (snd (copy_then copied rest)) = a_base a.
Proof. intros Hc Hr. destruct copied as [[st x] a']. unfold copy_then. destruct (negb (is_ok st)); [done |]. by apply Hr. Qed.

Lemma copy_record_base a id now source : a_base (snd (copy_record a id now source)) = a_base a.
Proof.
  unfold copy_record, copy_text_to. apply copy_then_base; [apply copy_base |]. intros title a1 H1. destruct (s_len title =? 0); [done |].
  repeat (apply copy_then_base; [first [rewrite copy_base | rewrite copy_slices_base | rewrite copy_fields_base]; done | intros ? ? ?]). done.
Qed.

(** ** The vault *)

Lemma capacity_base v : a_base (v_arena (snd (ensure_record_capacity v))) = a_base (v_arena v).
Proof.
  unfold ensure_record_capacity. destruct (_ <? _); [done |]. destruct (_ <=? _); [done |]. destruct (pv_size_mul _ _) as [bytes |]; [| done].
  pose proof (alloc_base (v_arena v) bytes alignof_ptr) as Hb. by destruct (pv_arena_alloc _ _ _) as [[d |] a].
Qed.

Lemma add_record_base fuel v source s st v' s' : pv_model_add_record fuel v source s = (Some (st, v'), s') -> a_base (v_arena v') = a_base (v_arena v).
Proof.
  unfold pv_model_add_record. rewrite bind_run. destruct (now_ms s) as [now s1]. cbv zeta. split_if; [by intros [= _ <- _] |]. split_if; [by intros [= _ <- _] |].
  rewrite bind_run. set (m := if a_readonly (v_arena v) then _ else _). assert (Hrw : a_base (snd (fst (m s1))) = a_base (v_arena v)).
  { subst m. destruct (a_readonly _); [apply protect_base | done]. }
  destruct (m s1) as [rw s2]. cbn [fst] in Hrw. split_if; [by intros [= _ <- _] |].
  pose proof (capacity_base (set_arena v (snd rw))) as Hcap. destruct (ensure_record_capacity _) as [st1 v1]. cbn [snd set_arena v_arena] in Hcap. split_if; [intros [= _ <- _]; congruence |].
  rewrite bind_run. match goal with |- (let '(_, _) := ?m ?t in _) = _ -> _ => destruct (m t) as [[id |] s3] end; [| done]. split_if; [intros [= _ <- _]; congruence |].
  pose proof (copy_record_base (v_arena v1) id now source) as Hr. destruct (copy_record _ _ _ _) as [[st2 [rec |]] a]; intros [= _ <- _]; cbn in *; congruence.
Qed.

Lemma delete_base v i s : a_base (v_arena (snd (fst (pv_model_delete v i s)))) = a_base (v_arena v).
Proof.
  unfold pv_model_delete. destruct i as [i |]; [| done]. destruct (_ !! i) as [r |]; [| done]. destruct (is_deleted r); [done |]. destruct (_ =? _); [done |].
  rewrite bind_run. set (m := if a_readonly (v_arena v) then _ else _). assert (Hrw : a_base (snd (fst (m s))) = a_base (v_arena v)).
  { subst m. destruct (a_readonly _); [apply protect_base | done]. }
  destruct (m s) as [rw s1]. cbn [fst] in Hrw. cbv zeta. by destruct (negb _).
Qed.

Lemma init_held path s : let '((st, v), _) := pv_model_init vault_zero path s in if is_ok st then has_memory v else erased v.
Proof.
  unfold pv_model_init. destruct (_ <=? _); [done |]. rewrite bind_run. unfold pv_arena_init. destruct (_ || _); [done |]. rewrite bind_run.
  destruct (sodium_malloc s) as [[] s1]; [| done]. cbn [negb]. rewrite bind_run. destruct (sodium_mlock s1) as [[] s2]; [| done]. cbn [negb fst snd is_ok mret M_ret].
  rewrite bind_run. destruct (sodium_malloc s2) as [[] s3]; [cbn [negb] | done]. rewrite bind_run. destruct (sodium_mlock s3) as [[] s4]; [cbn [negb] | done].
  pose proof (alloc_base (mk_arena true PV_ARENA_CAPACITY 0 false []) (PV_INITIAL_RECORD_CAPACITY * sizeof_pv_record) alignof_ptr) as Hb.
  change (v_arena (set_arena vault_zero (mk_arena true PV_ARENA_CAPACITY 0 false []))) with (mk_arena true PV_ARENA_CAPACITY 0 false []).
  destruct (pv_arena_alloc _ _ _) as [[d |] a]; [exact Hb |]. rewrite bind_run. match goal with |- context [pv_model_destroy ?v s4] => by destruct (model_destroy_run v s4) as (s5 & -> & _) end.
Qed.

(** ** Reading a body *)

(** The vault that a reader returns has the memory it was given. *)
Definition same_memory (v : pv_vault) (m : M (option (pv_status * pv_vault))) : Prop :=
  forall s st v' s', m s = (Some (st, v'), s') -> a_base (v_arena v') = a_base (v_arena v).

Lemma same_memory_ret v st v' : a_base (v_arena v') = a_base (v_arena v) -> same_memory v (mret (Some (st, v'))).
Proof. intros Hb s st1 v1 s' E. injection E as _ <- _. done. Qed.

Lemma same_memory_read {A} (p : RD A) reader v0 v k : a_base (v_arena v) = a_base (v_arena v0) ->
  (forall x r, same_memory v0 (k x r)) -> same_memory v0 (read_or_return p reader v k).
Proof. intros Hb Hk. unfold read_or_return. destruct (p reader) as [[x |] r]; [apply Hk | by apply same_memory_ret]. Qed.

Lemma decode_records_memory fuel count reader v s b r v' s' :
  decode_records fuel count reader v s = (Some (b, r, v'), s') -> a_base (v_arena v') = a_base (v_arena v).
Proof.
  revert reader v s. induction count as [| count IH]; intros reader v s; cbn [decode_records]; [by intros [= _ _ <- _] |]. rewrite bind_run.
  destruct (decode_record fuel reader v s) as [[[[b1 r1] v1] |] s1] eqn:E; [| done].
  assert (H1 : a_base (v_arena v1) = a_base (v_arena v)).
  { unfold decode_record in E. destruct (decode_temporary reader) as [[t |] r2]; [| by injection E as _ _ <- _]. rewrite bind_run in E.
    destruct (pv_model_add_record fuel v t s) as [[[st v2] |] s2] eqn:Ea; [| done]. apply add_record_base in Ea. destruct st; by injection E as _ _ <- _. }
  destruct b1; [intros E1%IH; congruence | intros [= _ _ <- _]; done].
Qed.

Lemma decode_memory `{Libcbor} fuel input v : same_memory v (pv_cbor_decode fuel input v).
Proof.
  unfold pv_cbor_decode.
  repeat first [progress cbv zeta | apply same_memory_ret; done | apply same_memory_read; [done | intros] | match goal with |- same_memory _ (if ?b then _ else _) => destruct b end].
  intros s st v' s' E. unfold decode_body in E. rewrite bind_run in E. destruct (decode_records _ _ _ _ s) as [[[[b rest] v1] |] s1] eqn:Ed; [| done].
  apply decode_records_memory in Ed. destruct b; [| injection E as _ <- _; done]. split_if_in E; [injection E as _ <- _; done |]. cbv zeta in E.
  rewrite bind_run in E. match type of E with context [pv_arena_set_readonly ?a s1] => pose proof (protect_base a s1) as [Hp _]; destruct (pv_arena_set_readonly a s1) as [[st1 a1] s2] end.
  injection E as _ <- _. cbn in *. congruence.
Qed.

Section store.
Context `{Host} `{Sodium} `{Libcbor}.

Lemma build_held path disk vmk plaintext s : let '((st, v), _) := build_vault path disk vmk plaintext s in if is_ok st then has_memory v else held v.
Proof.
  unfold build_vault. rewrite bind_run. pose proof (init_held path s) as Hi. destruct (pv_model_init vault_zero path s) as [[st v] s1].
  destruct (is_ok st) eqn:Est; cbn [negb]; [| unfold mret, M_ret; rewrite Est; by right]. unfold store_cbor_decode. rewrite !bind_run. set (v1 := set_source_hash _ _).
  pose proof (decode_memory 0 plaintext v1 s1) as Hd. destruct (pv_cbor_decode 0 plaintext v1 s1) as [[[st2 v2] |] s2]; cbn.
  - specialize (Hd _ _ _ eq_refl). assert (has_memory v2) as Hm by (unfold has_memory; rewrite Hd; exact Hi). match goal with |- if ?b then _ else _ => destruct b end; [exact Hm | left; exact Hm].
  - by left.
Qed.

(** What opening returns. *)
Definition opened_or_erased (r : pv_status * pv_vault) : Prop := if is_ok (fst r) then has_memory (snd r) else erased (snd r).

Lemma open_common_held path credential recovery consumed header w :
  let '((st, _, v, _), _) := open_common path credential recovery consumed header w in opened_or_erased (st, v).
Proof.
  unfold open_common, mbind, W_bind. destruct (read_disk_file path w) as [[st disk] w1]. destruct (is_ok st) eqn:Est; cbn [negb]; [| unfold mret, W_ret, opened_or_erased; cbn; by rewrite Est].
  destruct (lift vmk_alloc w1) as [[] w2]; cbn [negb]; [| done]. destruct (lift (unlock_credential _ _ _) w2) as [[st1 vmk] w3].
  match goal with |- context [let '(_, _) := (if is_ok st1 then ?m else ?n) w3 in _] => destruct ((if is_ok st1 then m else n) w3) as [[st2 plain] w4] end. destruct (is_ok st2) eqn:E2.
  - pose proof (build_held path disk vmk (default [] plain) (w_sys w4)) as Hb. unfold lift at 1. destruct (build_vault _ _ _ _ (w_sys w4)) as [[st3 v] s5].
    destruct (is_ok st3) eqn:E3; cbn [negb andb]; [unfold mret, W_ret, opened_or_erased; cbn; by rewrite E3 |].
    destruct (a_base (v_arena v)) eqn:Ev.
    + unfold lift. match goal with |- context [pv_model_destroy ?v ?s] => destruct (model_destroy_run v s) as (s6 & -> & _) end. unfold mret, M_ret, W_ret, opened_or_erased. cbn. by rewrite E3.
    + destruct Hb as [Hb | Hb]; [by rewrite Hb in Ev |]. unfold mret, W_ret, opened_or_erased. cbn. by rewrite E3.
  - unfold mret, W_ret, opened_or_erased. cbn. rewrite E2. cbn. by rewrite E2.
Qed.

Lemma open_password_held path password header w :
  let '((st, _, v, _), _) := pv_store_open_password_consume path password vault_zero header w in opened_or_erased (st, v).
Proof. unfold pv_store_open_password_consume. destruct (b_data password); [| done]. destruct (_ || _); [done |]. apply open_common_held. Qed.

Lemma open_recovery_held path key header w :
  let '((st, _, v, _), _) := pv_store_open_recovery_consume path key vault_zero header w in opened_or_erased (st, v).
Proof. unfold pv_store_open_recovery_consume. destruct (b_data key); [| done]. destruct (_ || _); [done |]. apply open_common_held. Qed.

(** ** Saving *)

Lemma finish_base v verified warning backups previous retention w :
  a_base (v_arena (fst (finish_save v verified warning backups previous retention w))) = a_base (v_arena v).
Proof.
  unfold finish_save. destruct verified; [| done]. cbn [negb]. unfold mbind, W_bind, lift. cbv zeta.
  pose proof (protect_base (v_arena (set_dirty v (v_updated_ms v) false)) (w_sys w)) as [Hp _]. destruct (pv_arena_set_readonly _ _) as [[st a] s1]. cbn in Hp.
  match goal with |- context [let '(_, _) := ?m ?w1 in _] => destruct (m w1) as [st2 w2] end. done.
Qed.

Lemma save_locked_base location v header retention create_only w :
  a_base (v_arena (snd (fst (fst (save_locked location v header retention create_only w))))) = a_base (v_arena v).
Proof.
  unfold save_locked, mbind, W_bind. destruct (load_current _ _ _ w) as [[st | current] w1]; [done |]. cbv zeta. destruct (lift now_ms w1) as [now w2].
  destruct (lift (seal_vault _ _) w2) as [[[[st h] hb] ct] w3]. destruct (commit_save _ _ _ _ _ _ _ _ w3) as [[st1 backups] w4]. destruct (_ || _).
  - unfold read_back, mbind, W_bind. destruct (read_disk_file_at _ _ w4) as [[st2 written] w5]. cbv zeta. destruct (revalidate_store_location _ _ w5) as [valid w6].
    unfold mret at 1, W_ret at 1. match goal with |- context [finish_save ?v ?b ?c ?d ?e ?f ?w] => pose proof (finish_base v b c d e f w) as Hf; destruct (finish_save v b c d e f w) as [v2 w7] end.
    match goal with |- context [let '(_, _) := ?m w7 in _] => destruct (m w7) as [u w8] end. unfold mret, W_ret. cbn in *. rewrite Hf. by destruct (_ && _).
  - match goal with |- context [let '(_, _) := ?m w4 in _] => destruct (m w4) as [u w5] end. done.
Qed.

Lemma save_base v header retention w : a_base (v_arena (snd (fst (fst (pv_store_save v header retention w))))) = a_base (v_arena v).
Proof.
  unfold pv_store_save. destruct (negb _); [done |]. destruct (_ =? _); [done |]. unfold mbind, W_bind. destruct (lock_vault _ w) as [[st [location |]] w1]; [| done].
  pose proof (save_locked_base location v header retention false w1) as Hs. destruct (save_locked _ _ _ _ _ w1) as [[[st1 v1] h1] w2].
  destruct (unlock_vault w2) as [u w3]. done.
Qed.

End store.
