(* ===== verification/CliFacts.v ===== *)
(** * Reasoning about commands

    A [Frame] is a reflexive and transitive relation between states that the
    dialogue, the platform, the system calls and the output respect: what holds of
    a command beyond that is only about the store, the recovery files and the vaults
    that go out of scope. [does R m P] says that [m] moves along [R] and that its
    result satisfies [P]. *)

From stdpp Require Import gmap.
From S2P Require Import Prelude Status Util Sys Arena Model Cbor Crypto Posix Recovery Config Secure Fs FsFacts Store StoreOps.
From S2P Require Import Ui Process Clipboard Rofi Cli Shell Commands Main.

Class Frame (R : cli -> cli -> Prop) : Prop := {
  frame_order :: PreOrder R;
  frame_sys c s : R c (set_c_world c (with_sys (c_world c) s));
  frame_secret c t l : R c (set_c_secret c t l);
  frame_lines c l : R c (set_c_lines c l);
  frame_pick c u l scr : R c (set_c_pick c u l scr);
  frame_process c k : R c (set_c_process c k);
  frame_reads c rs : R c (set_c_files c (c_writes c) rs (c_files c));
  frame_configs c l : R c (set_c_configs c l);
  frame_output c out err : R c (set_c_output c out err)
}.

Definition does (R : cli -> cli -> Prop) {A} (m : C A) (P : A -> Prop) : Prop :=
  forall c x c', m c = Some (x, c') -> R c c' /\ P x.

Definition moves (R : cli -> cli -> Prop) {A} (m : C A) : Prop := does R m (fun _ => True).

Create HintDb cli.
#[export] Hint Extern 1 (Frame _) => typeclasses eauto : cli.
#[export] Hint Extern 1 (PreOrder _) => typeclasses eauto : cli.

Section order.
Context (R : cli -> cli -> Prop) `{!PreOrder R}.

Lemma does_ret {A} (x : A) (P : A -> Prop) : P x -> does R (mret x) P.
Proof. intros HP c y c' [= <- <-]. split; [reflexivity | done]. Qed.

Lemma does_bind {A B} (m : C A) (f : A -> C B) (P : A -> Prop) (Q : B -> Prop) :
  does R m P -> (forall x, P x -> does R (f x) Q) -> does R (m ≫= f) Q.
Proof.
  intros Hm Hf c y c' E. unfold mbind, C_bind in E. destruct (m c) as [[x c1] |] eqn:Em; [| done].
  destruct (Hm _ _ _ Em) as [HR HP]. destruct (Hf x HP _ _ _ E). split; [by etrans | done].
Qed.

Lemma does_mono {A} (m : C A) (P Q : A -> Prop) : does R m P -> (forall x, P x -> Q x) -> does R m Q.
Proof. intros Hm HQ c x c' E. destruct (Hm _ _ _ E). auto. Qed.

Lemma moves_ret {A} (x : A) : moves R (mret x).
Proof. by apply does_ret. Qed.

Lemma moves_bind {A B} (m : C A) (f : A -> C B) : moves R m -> (forall x, moves R (f x)) -> moves R (m ≫= f).
Proof. intros Hm Hf. eapply does_bind; [exact Hm |]. intros x _. apply Hf. Qed.

(** A command after a step with no result of interest. *)
Lemma does_then {A B} (m : C A) (f : A -> C B) (Q : B -> Prop) : moves R m -> (forall x, does R (f x) Q) -> does R (m ≫= f) Q.
Proof. intros Hm Hf. eapply does_bind; [exact Hm |]. auto. Qed.

End order.

Section frame.
Context (R : cli -> cli -> Prop) `{!Frame R}.

Lemma does_sys {A} (m : M (option A)) (P : A -> Prop) : (forall s x s', m s = (Some x, s') -> P x) -> does R (on_sys m) P.
Proof.
  intros HP c x c' E. unfold on_sys in E. destruct (m (w_sys (c_world c))) as [[y |] s] eqn:Em; [| done].
  injection E as <- <-. split; [apply (frame_sys c s) | by eapply HP].
Qed.

Lemma moves_sys {A} (m : M (option A)) : moves R (on_sys m).
Proof. by apply does_sys. Qed.

Lemma moves_process {A} (m : K A) : moves R (on_process m).
Proof. intros c x c' E. unfold on_process in E. destruct (m _) as [[[y | |] k] |]; [| done ..]. injection E as <- <-. split; [apply frame_process | done]. Qed.

Lemma moves_freed : moves R freed_blocks.
Proof. intros c x c' [= <- <-]. split; [reflexivity | done]. Qed.

Lemma moves_say text : moves R (say text).
Proof. intros c x c' [= <- <-]. split; [apply frame_output | done]. Qed.

Lemma moves_complain text : moves R (complain text).
Proof. intros c x c' [= <- <-]. split; [apply frame_output | done]. Qed.

Lemma moves_read_secret confirm : moves R (read_secret confirm).
Proof.
  intros c x c' E. unfold read_secret in E. destruct (c_secrets c) as [| s rest]; [done |].
  destruct (on_sys _ c) as [[[[st b] t] c1] |] eqn:Es; [| done]. injection E as <- <-. split; [| done].
  etrans; [by apply (moves_sys _ _ _ _ Es) | apply frame_secret].
Qed.

Lemma moves_next_line : moves R next_line.
Proof. intros c x c' E. unfold next_line in E. destruct (c_lines c); [done |]. injection E as <- <-. split; [apply frame_lines | done]. Qed.

Lemma moves_pick vault : moves R (pick vault).
Proof.
  intros c x c' E. unfold pick in E. destruct (c_picks c) as [| s rest]; [done |].
  destruct (on_sys _ c) as [[[[[st sel] u] scr] c1] |] eqn:Es; [| done]. injection E as <- <-. split; [| done].
  etrans; [by apply (moves_sys _ _ _ _ Es) | apply frame_pick].
Qed.

Lemma moves_read_recovery `{Host} n : moves R (read_recovery n).
Proof.
  intros c x c' E. unfold read_recovery in E. destruct (c_reads c) as [| io rest]; [done |].
  destruct (on_sys _ c) as [[[st enc] c1] |] eqn:Es; [| done]. injection E as <- <-. split; [| done].
  etrans; [by apply (moves_sys _ _ _ _ Es) | apply frame_reads].
Qed.

Lemma moves_load_config `{Host} environ config : moves R (load_config environ config).
Proof.
  intros c x c' E. unfold load_config in E. destruct (c_configs c) as [| io rest]; [done |].
  split; [| done]. etrans; [apply frame_configs | by apply (moves_sys _ _ _ _ E)].
Qed.

End frame.

#[export] Hint Resolve moves_ret moves_sys moves_process moves_freed moves_say moves_complain moves_read_secret moves_next_line moves_pick moves_read_recovery moves_load_config : cli.

(** Steps through a computation whose parts all move along the relation. *)
Ltac solve_moves :=
  repeat first
    [ progress cbv zeta | match goal with |- does ?R ?m (fun _ => True) => change (moves R m) end | solve [auto with cli] | refine (moves_bind _ _ _ _ _); [| intros ?]
    | match goal with
      | |- moves _ (if ?x then _ else _) => destruct x
      | |- moves _ (match ?x with _ => _ end) => destruct x
      | |- moves _ (let '(_, _) := ?x in _) => destruct x
      end ].

(** The end of a computation, and a step whose result does not matter. *)
Ltac cret := refine (does_ret _ _ _ _).
Tactic Notation "cthen" "as" simple_intropattern(p) :=
  first [refine (moves_bind _ _ _ _ _) | refine (does_then _ _ _ _ _ _)]; [solve_moves | intros p].

Section dialogue.
Context (R : cli -> cli -> Prop) `{!Frame R}.

Lemma moves_read_line maximum empty : moves R (read_line maximum empty).
Proof. unfold read_line. solve_moves. Qed.

Lemma moves_confirm : moves R confirm.
Proof. unfold confirm. solve_moves. Qed.

Lemma moves_read_unsigned maximum d v : moves R (read_unsigned maximum d v).
Proof. unfold read_unsigned. solve_moves. Qed.

Lemma moves_validate password : moves R (validate_new_master_password password).
Proof. unfold validate_new_master_password. solve_moves. Qed.

Lemma moves_private_output tty redirect : moves R (require_private_output tty redirect).
Proof. unfold require_private_output. solve_moves. Qed.

Lemma moves_print_slice slice : moves R (print_slice slice).
Proof. unfold print_slice. solve_moves. Qed.
#[local] Hint Resolve moves_read_line moves_confirm moves_read_unsigned moves_print_slice : cli.

Lemma moves_print_record_line record : moves R (print_record_line record).
Proof. unfold print_record_line. solve_moves. Qed.

Lemma moves_print_urls urls : moves R (print_urls urls).
Proof. induction urls; cbn [print_urls]; solve_moves. Qed.

Lemma moves_print_tags first tags : moves R (print_tags first tags).
Proof. revert first. induction tags; intros; cbn [print_tags]; solve_moves. Qed.

Lemma moves_print_fields fields : moves R (print_fields fields).
Proof. induction fields; cbn [print_fields]; solve_moves. Qed.
#[local] Hint Resolve moves_print_record_line moves_print_urls moves_print_tags moves_print_fields : cli.

Lemma moves_show_record record : moves R (show_record record).
Proof. unfold show_record. solve_moves. Qed.

Lemma moves_select vault : moves R (select_record_private vault).
Proof. unfold select_record_private. solve_moves. Qed.

Lemma moves_select_custom record : moves R (select_custom_field_view record).
Proof. unfold select_custom_field_view. solve_moves. Qed.

Lemma moves_reject : moves R reject_positional_selector.
Proof. unfold reject_positional_selector. solve_moves. Qed.

Lemma moves_collect_fields count fields : moves R (collect_fields_loop count fields).
Proof. revert fields. induction count; intros; cbn [collect_fields_loop]; solve_moves. Qed.
#[local] Hint Resolve moves_collect_fields : cli.

Lemma moves_collect_record : moves R collect_record.
Proof. unfold collect_record, collect_password, collect_custom_fields. solve_moves. Qed.

Lemma moves_list_records vault records shown : moves R (list_records vault records shown).
Proof. revert shown. induction records; intros; cbn [list_records]; solve_moves. Qed.

Lemma moves_shell_list vault records : moves R (shell_list vault records).
Proof. induction records; cbn [shell_list]; unfold shell_print_slice; solve_moves. Qed.

Lemma moves_shell_show record : moves R (shell_show record).
Proof. unfold shell_show, shell_print_slice. solve_moves. Qed.

Lemma moves_command_usage command topic : moves R (print_command_usage command topic).
Proof. unfold print_command_usage. solve_moves. Qed.

Lemma moves_report argv status configuration_error : moves R (report_error argv status configuration_error).
Proof. unfold report_error, report_configuration_error. solve_moves. Qed.

Lemma moves_edit_field vault i r field : moves R (edit_field vault i r field).
Proof. unfold edit_field. solve_moves. Qed.

Lemma moves_read_recovery_text `{Host} : moves R read_recovery_text.
Proof. unfold read_recovery_text. solve_moves. Qed.

Lemma moves_recovery_key `{Sodium} status encoded vault_id key : moves R (recovery_key_of status encoded vault_id key).
Proof. unfold recovery_key_of. solve_moves. Qed.

End dialogue.

#[export] Hint Resolve moves_read_line moves_confirm moves_read_unsigned moves_validate moves_private_output moves_print_record_line moves_print_urls : cli.
#[export] Hint Resolve moves_show_record moves_select moves_select_custom moves_reject moves_collect_record moves_list_records moves_shell_list moves_shell_show : cli.
#[export] Hint Resolve moves_command_usage moves_report moves_edit_field moves_read_recovery_text moves_recovery_key : cli.
