(* ===== verification/CliExample.v ===== *)
(** * A concrete run of the program

    The concrete file system of [StoreExample], a terminal at which a password is
    typed, and the scripts of the dialogue: the inputs at which the properties of
    the commands are instantiated. *)

From stdpp Require Import gmap.
From S2P Require Import Prelude Status Util Sys ReferenceSodium Arena Model ModelProps Cbor CborProps Crypto CryptoProps Posix Recovery Config Secure SecureProps.
From S2P Require Import Fs Store StoreOps StoreReopen StoreExample Ui UiProps Process Clipboard Rofi Cli Shell Commands Main.

(** A line typed at the terminal, without interruptions. *)
Definition line_script (line : list Z) : tty_io := mk_tty_io true true (map R_byte line ++ [R_byte 10]).

(** A secret typed at the terminal. *)
Definition secret_script (secret : list Z) : script :=
  mk_script true true (fun _ => true) [A_done; A_done] 0 [true] (replicate (S (length secret)) (0, P_ready)) (map (fun b => (0, R_byte b)) (secret ++ [10])) 0.

Definition idle_process : kst := mk_kst [] [] 0 [] false.

(** A state with the dialogue to come. *)
Definition cli_with (w : world) (secrets : list (list Z)) (lines : list (list Z)) (answers : list answer) : cli :=
  mk_cli w example_terminal (map secret_script secrets) (map line_script lines) ui_example_process [] [] (mk_kst answers [] 0 [] false) [] [] ∅ [] [] [] [].

Definition example_environ : list (list Z) := [cstr "HOME=/home"; cstr "XDG_DATA_HOME=/home"].

(** [pvault rescue verify /home/none --allow-redirect]: there is no such file. *)
Definition verify_argv : list (list Z) := [cstr "pvault"; cstr "rescue"; cstr "verify"; cstr "/home/none"; cstr "--allow-redirect"].
Definition verify_start : cli := cli_with example_world [cstr "pw"] [] [].
Definition verify_run : option (Z * cli) := main false false example_environ [] 0 PV_OK verify_argv verify_start.
Definition verify_end : cli := match verify_run with Some (_, c) => c | None => verify_start end.
