(* ===== verification/CliProps.v ===== *)
(** * Properties of the dialogue

    What the first part of [src/cli.c] guarantees: what is printed of a record, the
    passwords that are generated, and how lists are read. *)

From stdpp Require Import gmap.
From S2P Require Import Prelude Status Util Sys Arena Model ModelFacts ModelInv ModelProps Cbor Crypto Posix Recovery Config Secure Fs Store StoreOps.
From S2P Require Import Ui Process Clipboard Rofi Cli Shell CliExample.

(** ** Text on a terminal *)

(** Line feeds and characters that are safe to display, in UTF-8. *)
Definition displayed (text : list Z) : Prop := exists cps, Forall (fun c => c = 10 \/ displayable c) cps /\ text = utf8_text cps.

Lemma displayed_app a b : displayed a -> displayed b -> displayed (a ++ b).
Proof. intros (x & Hx & ->) (y & Hy & ->). exists (x ++ y). split; [by apply Forall_app |]. unfold utf8_text. by rewrite map_app, concat_app. Qed.

Lemma displayed_nil : displayed [].
Proof. by exists []. Qed.

Definition plain (c : Z) : bool := (c =? 10) || ((32 <=? c) && (c <=? 126)).

Lemma displayed_plain text : forallb plain text = true -> displayed text.
Proof.
  intros H. exists text. rewrite forallb_forall in H. split.
  - apply Forall_forall. intros c Hc. apply H in Hc. unfold plain in Hc. destruct (Z.eqb_spec c 10) as [E | Hne]; [by left | right].
    cbn [orb] in Hc. unfold displayable, scalar, display_codepoint_unsafe. split; lia.
  - unfold utf8_text. induction text as [| c text IH]; [done |]. cbn [map concat]. rewrite <- IH by (intros x Hx; apply H; by right).
    pose proof (H c (or_introl eq_refl)) as Hc. unfold plain in Hc. unfold utf8_encode. replace (c <? 128) with true by lia. done.
Qed.

Lemma displayed_fprint v : is_bytes (v_bytes v) -> displayed (pv_text_fprint v).
Proof.
  intros Hb. unfold pv_text_fprint. destruct (v_data v); [| apply displayed_nil]. rewrite fprint_loop_sanitize.
  destruct (sanitize_loop_displayable (length (v_bytes v)) (v_bytes v) Hb) as (cps & Hd & ->). exists cps. split; [| done].
  eapply Forall_impl; [| exact Hd]. by right.
Qed.

Lemma hex_digits_plain b : is_byte b -> forallb plain (hex_digits b) = true.
Proof.
  intros Hb. assert (Hd : forall n, (n < 16)%nat -> plain (nth n hex_alphabet 0) = true).
  { intros n Hn. do 16 (destruct n as [| n]; [done |]). lia. }
  unfold hex_digits, znth. cbn [forallb]. unfold is_byte in Hb.
  rewrite !Hd; [done | |].
  - pose proof (Z.land_ones b 4 ltac:(lia)) as E. change (Z.ones 4) with 15 in E. rewrite E. pose proof (Z.mod_pos_bound b (2 ^ 4)). lia.
  - rewrite Z.shiftr_div_pow2 by lia. pose proof (Z.div_lt_upper_bound b (2 ^ 4) 16). pose proof (Z.div_pos b (2 ^ 4)). lia.
Qed.

Lemma hex_text_plain l : is_bytes l -> forallb plain (hex_text l) = true.
Proof.
  intros Hid. unfold hex_text, pv_hex_encode. destruct (_ =? 0); [done |]. destruct (_ <? _); [done |]. cbn [default from_option id].
  induction Hid as [| b l' Hb _ IH]; [done |]. cbn [map concat]. by rewrite forallb_app, hex_digits_plain, IH.
Qed.

(** ** What is printed of a record *)

Definition prints (m : C unit) (text : list Z) : Prop := forall c, m c = Some (tt, set_c_output c (c_out c ++ text) (c_err c)).

Lemma prints_say text : prints (say text) text.
Proof. by intros c. Qed.

Lemma prints_bind (m : C unit) (f : unit -> C unit) a b : prints m a -> prints (f tt) b -> prints (m ≫= f) (a ++ b).
Proof. intros Hm Hf c. unfold mbind, C_bind. rewrite Hm, Hf. cbn [set_c_output c_out c_err]. by rewrite app_assoc. Qed.

Lemma prints_ret : prints (mret tt) [].
Proof. intros []. unfold mret, C_ret, set_c_output. cbn. by rewrite app_nil_r. Qed.

(** [m] prints a safe text, and [m'] the same. *)
Definition alike (m m' : C unit) : Prop := exists text, displayed text /\ prints m text /\ prints m' text.

Lemma alike_bind (m m' : C unit) (f f' : unit -> C unit) : alike m m' -> alike (f tt) (f' tt) -> alike (m ≫= f) (m' ≫= f').
Proof. intros (a & Ha & Hm & Hm') (b & Hb & Hf & Hf'). exists (a ++ b). auto using displayed_app, prints_bind. Qed.

Lemma alike_say text : displayed text -> alike (say text) (say text).
Proof. intros H. exists text. auto using prints_say. Qed.

Lemma alike_plain text : forallb plain text = true -> alike (say text) (say text).
Proof. intros H. by apply alike_say, displayed_plain. Qed.

Lemma alike_ret : alike (mret tt) (mret tt).
Proof. exists []. auto using displayed_nil, prints_ret. Qed.

Lemma alike_slice v : is_bytes (v_bytes v) -> alike (print_slice v) (print_slice v).
Proof. intros H. by apply alike_say, displayed_fprint. Qed.

(** The record without its password and its secret fields. *)
Definition redact_field (f : pv_custom_field pv_view) : pv_custom_field pv_view :=
  if negb (Z.land (f_flags f) PV_FIELD_SECRET =? 0) then mk_field (f_name f) (mk_view None 0) (f_flags f) else f.

Definition redact (r : pv_record pv_view) : pv_record pv_view :=
  mk_record (r_id r) (r_revision r) (r_created_ms r) (r_updated_ms r) (r_flags r) (r_title r) (r_username r) (mk_view None 0) (r_notes r)
    (r_urls r) (r_tags r) (map redact_field (r_fields r)).

(** The texts of the record are bytes. *)
Record readable (r : pv_record pv_view) : Prop := {
  re_id : is_bytes (r_id r);
  re_title : is_bytes (v_bytes (r_title r));
  re_username : is_bytes (v_bytes (r_username r));
  re_notes : is_bytes (v_bytes (r_notes r));
  re_urls : Forall (fun v => is_bytes (v_bytes v)) (r_urls r);
  re_tags : Forall (fun v => is_bytes (v_bytes v)) (r_tags r);
  re_fields : Forall (fun f => is_bytes (v_bytes (f_name f)) /\ is_bytes (v_bytes (f_value f))) (r_fields r)
}.

Lemma vault_readable v r : vault_wf v -> r ∈ v_records v -> readable (record_view v r).
Proof.
  intros Hv Hr. rewrite list_elem_of_In in Hr. pose proof (vw_valid _ Hv) as Hc. unfold contents in Hc. rewrite Forall_map, Forall_forall in Hc.
  specialize (Hc r Hr) as [[_ Hid _ _ _] Hb _]. unfold record_slices, wiped_slices, record_contents in Hb. cbn in Hb. rewrite !Forall_cons_iff, !Forall_app, !Forall_map in Hb.
  destruct Hb as (Ht & Hu & _ & Hn & Hurls & Htags & Hf). split; try done; cbn.
  - by rewrite Forall_map.
  - by rewrite Forall_map.
  - rewrite Forall_map. rewrite Forall_concat, !Forall_map in Hf. eapply Forall_impl; [| exact Hf]. intros f Hff. cbn in Hff |- *. rewrite !Forall_cons_iff in Hff. tauto.
Qed.

Create HintDb shows.
#[local] Hint Resolve alike_bind alike_say alike_ret alike_slice displayed_fprint re_title re_username re_notes : shows.
#[local] Hint Extern 5 (alike (say _) (say _)) => apply alike_plain; reflexivity : shows.

Ltac solve_alike := repeat first [solve [auto with shows] | apply alike_bind | match goal with |- alike (if ?b then _ else _) _ => destruct b end].

Lemma alike_urls urls : Forall (fun v => is_bytes (v_bytes v)) urls -> alike (print_urls urls) (print_urls urls).
Proof. induction 1; cbn [print_urls]; solve_alike. Qed.

Lemma alike_tags first tags : Forall (fun v => is_bytes (v_bytes v)) tags -> alike (print_tags first tags) (print_tags first tags).
Proof. intros H. revert first. induction H; intros first; cbn [print_tags]; solve_alike. Qed.

Lemma alike_fields fields fields' : map redact_field fields = map redact_field fields' ->
  Forall (fun f => is_bytes (v_bytes (f_name f)) /\ is_bytes (v_bytes (f_value f))) fields -> alike (print_fields fields) (print_fields fields').
Proof.
  intros E H. revert fields' E. induction H as [| f fields [Hn Hv] _ IH]; intros [| f' fields'] E; [solve_alike | done | done |]. cbn [map] in E. injection E as Ef E.
  specialize (IH _ E). unfold redact_field in Ef. cbn [print_fields].
  assert (f_name f' = f_name f /\ f_flags f' = f_flags f /\ (Z.land (f_flags f) PV_FIELD_SECRET = 0 -> f_value f' = f_value f)) as (-> & -> & Hval).
  { destruct f as [n v fl], f' as [n' v' fl']. cbn in *.
    destruct (Z.eqb_spec (Z.land fl PV_FIELD_SECRET) 0), (Z.eqb_spec (Z.land fl' PV_FIELD_SECRET) 0); cbn in Ef; injection Ef; intros; subst; done. }
  destruct (Z.eqb_spec (Z.land (f_flags f) PV_FIELD_SECRET) 0) as [E0 |]; cbn [negb]; [rewrite (Hval E0) |]; solve_alike.
Qed.
#[local] Hint Resolve alike_urls alike_tags re_urls re_tags : shows.

Lemma alike_show r r' : redact r' = redact r -> readable r -> alike (show_record r) (show_record r').
Proof.
  intros E Hr. unfold show_record. assert (Ef : map redact_field (r_fields r) = map redact_field (r_fields r')) by (by apply (f_equal r_fields) in E).
  pose proof (f_equal r_id E) as E1. pose proof (f_equal r_title E) as E2. pose proof (f_equal r_username E) as E3. pose proof (f_equal r_notes E) as E4.
  pose proof (f_equal r_urls E) as E5. pose proof (f_equal r_tags E) as E6. cbn in E1, E2, E3, E4, E5, E6. rewrite E1, E2, E3, E4, E5, E6.
  pose proof (alike_fields _ _ Ef (re_fields _ Hr)). apply alike_bind; [| solve_alike]. apply alike_plain. rewrite !forallb_app, hex_text_plain by apply Hr. done.
Qed.

Lemma alike_line r r' : redact r' = redact r -> readable r -> alike (print_record_line r) (print_record_line r').
Proof.
  intros E Hr. unfold print_record_line. pose proof (f_equal r_id E) as E1. pose proof (f_equal r_title E) as E2. pose proof (f_equal r_username E) as E3.
  pose proof (f_equal r_flags E) as E4. cbn in E1, E2, E3, E4. rewrite E1, E2, E3, E4. cbv zeta. apply alike_bind; [| solve_alike].
  apply alike_plain. rewrite !forallb_app. assert (Hid : forallb plain (zsub (hex_text (r_id r)) 0 8) = true).
  { pose proof (hex_text_plain _ (re_id _ Hr)) as Hp. unfold zsub. rewrite drop_0. rewrite <- (take_drop (Z.to_nat 8) (hex_text (r_id r))), forallb_app in Hp.
    by apply andb_true_iff in Hp as [? _]. }
  rewrite Hid. by destruct (negb _).
Qed.

Lemma alike_shell_show r r' : redact r' = redact r -> readable r -> alike (shell_show r) (shell_show r').
Proof.
  intros E Hr. unfold shell_show, shell_print_slice. fold (print_slice (r_title r)) (print_slice (r_title r')). pose proof (f_equal r_title E) as E2.
  pose proof (f_equal r_username E) as E3. pose proof (f_equal r_urls E) as E5. cbn in E2, E3, E5. rewrite E2, E3, E5. solve_alike.
Qed.

(** C21: what is printed of a record never depends on its secrets and is safe to
    print: [show], the line of [list] and [show] of the shell print the same text
    for two records that differ only in the password and the values of secret
    fields, and for a record of a vault this text is UTF-8 without control,
    bidirectional or invisible characters apart from line feeds. *)
Theorem record_output_safe (vault : pv_vault) (record : pv_record pv_slice) (other : pv_record pv_view)
    (Hwf : vault_wf vault) (Hin : record ∈ v_records vault) (Hsame : redact other = redact (record_view vault record)) :
  alike (show_record (record_view vault record)) (show_record other) /\
  alike (print_record_line (record_view vault record)) (print_record_line other) /\
  alike (shell_show (record_view vault record)) (shell_show other).
Proof. pose proof (vault_readable _ _ Hwf Hin). split_and!; [by apply alike_show | by apply alike_line | by apply alike_shell_show]. Qed.

(** ** Generated passwords *)

Lemma uniform_range n s : 0 < n -> 0 <= fst (randombytes_uniform n s) < n.
Proof. intros Hn. unfold randombytes_uniform. cbn [fst]. destruct (Z.ltb_spec n 2); [lia |]. apply Z.mod_pos_bound. lia. Qed.

Lemma random_char_in alphabet s : alphabet <> [] -> fst (random_char alphabet s) ∈ alphabet.
Proof.
  intros Hne. unfold random_char. rewrite bind_run. pose proof (uniform_range (zlen alphabet) s) as Hr. destruct (randombytes_uniform _ s) as [i s1]. cbn [fst] in *.
  assert (0 < zlen alphabet) as Hp by (unfold zlen; destruct alphabet; [done | cbn; lia]). specialize (Hr Hp). unfold znth.
  rewrite list_elem_of_In. apply nth_In. unfold zlen in Hr. lia.
Qed.

Lemma random_chars_in alphabet n s : alphabet <> [] -> length (fst (random_chars alphabet n s)) = n /\ Forall (fun c => c ∈ alphabet) (fst (random_chars alphabet n s)).
Proof.
  intros Hne. revert s. induction n as [| n IH]; intros s; [by split |]. cbn [random_chars]. rewrite bind_run. pose proof (random_char_in alphabet s Hne) as Hc.
  destruct (random_char alphabet s) as [c s1]. rewrite bind_run. destruct (IH s1) as [Hl Hf]. destruct (random_chars alphabet n s1) as [rest s2]. cbn in *.
  split; [by rewrite Hl | by constructor].
Qed.

Lemma exchange_permutation l i j : (i < length l)%nat -> (j < length l)%nat -> Permutation l (exchange l i j).
Proof.
  intros Hi Hj. unfold exchange. destruct (lookup_lt_is_Some_2 l i Hi) as [x Ex], (lookup_lt_is_Some_2 l j Hj) as [y Ey]. rewrite !nth_lookup, Ex, Ey. cbn [default from_option id].
  symmetry. by apply Permutation_insert_swap.
Qed.

Lemma shuffle_permutation i l s : (i < length l)%nat -> Permutation l (fst (shuffle_loop i l s)).
Proof.
  revert l s. induction i as [| i IH]; intros l s Hi; [done |]. cbn [shuffle_loop]. rewrite bind_run.
  pose proof (uniform_range (Z.of_nat (S i) + 1) s ltac:(lia)) as Hr. destruct (randombytes_uniform _ s) as [j s1]. cbn [fst] in Hr.
  etrans; [apply (exchange_permutation l (S i) (Z.to_nat j)); lia |]. apply IH. unfold exchange. rewrite !length_insert. lia.
Qed.

Lemma part_of_all c alphabet : In alphabet [lower; upper; digits; symbols; all] -> c ∈ alphabet -> c ∈ all.
Proof.
  intros Ha Hc. assert (Hall : forallb (fun l => forallb (fun x => existsb (Z.eqb x) all) l) [lower; upper; digits; symbols; all] = true) by done.
  rewrite forallb_forall in Hall. apply list_elem_of_In in Hc. rewrite list_elem_of_In. specialize (Hall _ Ha). rewrite forallb_forall in Hall. specialize (Hall _ Hc).
  apply existsb_exists in Hall as (x & Hx & ->%Z.eqb_eq). done.
Qed.

Lemma generate_run length s : 12 <= length <= 256 -> s_malloc s 0%nat = true -> s_mlock s 0%nat = true ->
  exists text s', generate_password length buffer_zero s = ((PV_OK, mk_buffer (Some (text ++ [0])) length true), s') /\ zlen text = length /\
    Forall (fun c => c ∈ all) text /\ Exists (fun c => c ∈ lower) text /\ Exists (fun c => c ∈ upper) text /\
    Exists (fun c => c ∈ digits) text /\ Exists (fun c => c ∈ symbols) text.
Proof.
  intros Hlength Hmalloc Hmlock. unfold generate_password.
  replace ((length <? 12) || (256 <? length)) with false by lia. rewrite bind_run. unfold sodium_malloc. rewrite Hmalloc, bind_run. unfold sodium_mlock. cbn [s_mlock]. rewrite Hmlock. cbn [negb].
  rewrite bind_run. match goal with |- context [random_char lower ?t] => generalize t end. clear s Hmalloc Hmlock. intros s.
  pose proof (random_char_in lower s ltac:(done)) as Ha. destruct (random_char lower s) as [a s1].
  rewrite bind_run. pose proof (random_char_in upper s1 ltac:(done)) as Hb. destruct (random_char upper s1) as [b s2].
  rewrite bind_run. pose proof (random_char_in digits s2 ltac:(done)) as Hc. destruct (random_char digits s2) as [c s3].
  rewrite bind_run. pose proof (random_char_in symbols s3 ltac:(done)) as Hd. destruct (random_char symbols s3) as [d s4].
  rewrite bind_run. destruct (random_chars_in all (Z.to_nat (length - 4)) s4 ltac:(done)) as [Hl Hf]. destruct (random_chars all _ s4) as [rest s5].
  rewrite bind_run. cbn [fst] in *. assert (Hlen : List.length ([a; b; c; d] ++ rest) = Z.to_nat length) by (cbn; lia).
  pose proof (shuffle_permutation (Z.to_nat (length - 1)) ([a; b; c; d] ++ rest) s5 ltac:(lia)) as Hp. destruct (shuffle_loop _ _ s5) as [text s6]. cbn [fst] in Hp.
  exists text, s6. split_and!; [done | | | ..].
  - unfold zlen. rewrite <- (Permutation_length Hp), Hlen. lia.
  - rewrite <- Hp. constructor; [apply (part_of_all a lower); [by left | done] |]. constructor; [apply (part_of_all b upper); [by right; left | done] |].
    constructor; [apply (part_of_all c digits); [by do 2 right; left | done] |]. constructor; [apply (part_of_all d symbols); [by do 3 right; left | done] | done].
  - rewrite <- Hp. by constructor.
  - rewrite <- Hp. by apply Exists_cons_tl; constructor.
  - rewrite <- Hp. by do 2 apply Exists_cons_tl; constructor.
  - rewrite <- Hp. by do 3 apply Exists_cons_tl; constructor.
Qed.

(** C28: a generated password is as documented, whatever the random source yields:
    for a length from 12 to 256, and when memory can be locked, it has exactly that
    many characters, all of them from the alphabet without look-alikes, at least
    one lower case letter, one upper case letter, one digit and one symbol, and it
    is a secure buffer ended by NUL; other lengths are refused. *)
Theorem generated_password (length : Z) (s : sys) (Hmalloc : s_malloc s 0%nat = true) (Hmlock : s_mlock s 0%nat = true) :
  let '((status, password), _) := generate_password length buffer_zero s in
  if (12 <=? length) && (length <=? 256) then
    exists text, status = PV_OK /\ password = mk_buffer (Some (text ++ [0])) length true /\ zlen text = length /\
      Forall (fun c => c ∈ all) text /\ Exists (fun c => c ∈ lower) text /\ Exists (fun c => c ∈ upper) text /\
      Exists (fun c => c ∈ digits) text /\ Exists (fun c => c ∈ symbols) text
  else status = PV_ERR_USAGE /\ password = buffer_zero.
Proof.
  destruct (Z.leb_spec 12 length) as [Hlo | ?], (Z.leb_spec length 256) as [Hhi | ?]; cbn [andb].
  - destruct (generate_run length s (conj Hlo Hhi) Hmalloc Hmlock) as (text & s' & -> & Ht). by exists text.
  - unfold generate_password. replace ((length <? 12) || (256 <? length)) with true by lia. done.
  - unfold generate_password. replace ((length <? 12) || (256 <? length)) with true by lia. done.
  - unfold generate_password. replace ((length <? 12) || (256 <? length)) with true by lia. done.
Qed.

Lemma generated_password_witness :
  let s := sys_good (fun i => Z.of_nat i * 7919) (fun _ => None) in
  let '((status, password), _) := generate_password 24 buffer_zero s in
  if (12 <=? 24) && (24 <=? 256) then
    exists text, status = PV_OK /\ password = mk_buffer (Some (text ++ [0])) 24 true /\ zlen text = 24 /\
      Forall (fun c => c ∈ all) text /\ Exists (fun c => c ∈ lower) text /\ Exists (fun c => c ∈ upper) text /\
      Exists (fun c => c ∈ digits) text /\ Exists (fun c => c ∈ symbols) text
  else status = PV_ERR_USAGE /\ password = buffer_zero.
Proof. apply (generated_password 24 (sys_good (fun i => Z.of_nat i * 7919) (fun _ => None))); reflexivity. Defined.

(** ** Lists *)

(** The pieces between the commas. *)
Fixpoint pieces (l : list Z) : list (list Z) :=
  match l with
  | [] => [[]]
  | c :: l => if c =? 44 then [] :: pieces l else match pieces l with p :: ps => (c :: p) :: ps | [] => [[c]] end
  end.

(** Without the blanks at both ends. *)
Definition trim_blanks (l : list Z) : list Z := strip_blanks (skip_blanks l).

Definition is_item (l : list Z) : bool := negb (zlen l =? 0).

(** The items of a list: its pieces, trimmed, that are not empty. *)
Definition list_items (l : list Z) : list (list Z) := List.filter is_item (map trim_blanks (pieces l)).

(** The items are taken one by one while they are within the limits. *)
Fixpoint take_items (max_len : Z) (items new : list (list Z)) : pv_status * list (list Z) :=
  match new with
  | [] => (PV_OK, items)
  | item :: new => if (PV_MAX_COLLECTION_ITEMS <=? zlen items) || (max_len <? zlen item) then (PV_ERR_LIMIT, items) else take_items max_len (items ++ [item]) new
  end.

Lemma pieces_cons l : exists p ps, pieces l = p :: ps.
Proof. destruct l as [| c l]; [by eexists _, _ |]. cbn. destruct (c =? 44); [by eexists _, _ |]. destruct (pieces l); by eexists _, _. Qed.

Lemma pieces_word word rest : Forall (fun c => (c =? 44) = false) word -> (rest = [] -> pieces (word ++ rest) = [word]) /\ (forall r, rest = 44 :: r -> pieces (word ++ rest) = word :: pieces r).
Proof.
  intros Hw. induction Hw as [| c word Hc _ [IH1 IH2]]; [split; [by intros -> | by intros r ->] |]. cbn [app pieces]. rewrite Hc.
  split; [intros Hr; by rewrite (IH1 Hr) | intros r Hr; by rewrite (IH2 r Hr)].
Qed.

Lemma until_comma_split l : let '(word, rest) := until_comma l in
  l = word ++ rest /\ Forall (fun c => (c =? 44) = false) word /\ (rest = [] \/ exists r, rest = 44 :: r).
Proof.
  induction l as [| c l IH]; [by split_and!; [| | left] |]. cbn [until_comma]. destruct (Z.eqb_spec c 44) as [-> | Hc].
  - split_and!; [done | done | right; by eexists].
  - destruct (until_comma l) as [word rest]. destruct IH as (-> & Hw & Hr). split_and!; [done | | done]. constructor; [by apply Z.eqb_neq | done].
Qed.

Lemma skip_separators_items l : list_items (skip_separators l) = list_items l /\ (length (skip_separators l) <= length l)%nat.
Proof.
  induction l as [| c l [IH1 IH2]]; [done |]. cbn [skip_separators]. destruct (is_blank c) eqn:Eb; cbn [orb].
  - split; [| cbn; lia]. rewrite IH1. unfold list_items. cbn [pieces]. assert ((c =? 44) = false) as -> by (unfold is_blank in Eb; lia).
    destruct (pieces_cons l) as (p & ps & ->). cbn [map]. unfold trim_blanks at 3. cbn [skip_blanks]. by rewrite Eb.
  - destruct (Z.eqb_spec c 44) as [-> | Hc]; [| done]. split; [| cbn; lia]. rewrite IH1. done.
Qed.

Lemma skip_separators_head l : match skip_separators l with c :: _ => is_blank c = false /\ (c =? 44) = false | [] => True end.
Proof. induction l as [| c l IH]; [done |]. cbn [skip_separators]. destruct (is_blank c) eqn:Eb; [done |]. by destruct (c =? 44) eqn:Ec. Qed.

Lemma trim_word word : match word with c :: _ => is_blank c = false | [] => True end -> trim_blanks word = strip_blanks word.
Proof. intros H. unfold trim_blanks. destruct word as [| c word]; [done |]. cbn [skip_blanks]. by rewrite H. Qed.

Lemma split_loop_items fuel max_len cursor items : (length cursor <= fuel)%nat ->
  split_csv_loop fuel max_len cursor items = take_items max_len items (list_items cursor).
Proof.
  revert cursor items. induction fuel as [| fuel IH]; intros cursor items Hf; [by destruct cursor; [| cbn in Hf; lia] |].
  destruct cursor as [| c0 cursor0]; [done |]. cbn [split_csv_loop]. set (cursor := c0 :: cursor0) in *. destruct (skip_separators_items cursor) as [<- Hl].
  pose proof (skip_separators_head cursor) as Hh. set (l := skip_separators cursor) in *. clearbody l. pose proof (until_comma_split l) as Hu.
  destruct (until_comma l) as [word rest]. destruct Hu as (-> & Hw & Hr). destruct (pieces_word word rest Hw) as [H1 H2].
  assert (Hword : trim_blanks word = strip_blanks word).
  { apply trim_word. destruct word as [| c word]; [done |]. by destruct Hh. }
  assert (Hitems : list_items (word ++ rest) = (if 0 <? zlen (strip_blanks word) then [strip_blanks word] else []) ++ list_items (drop 1 rest)).
  { unfold list_items. pose proof (zlen_nonneg (strip_blanks word)) as Hz. destruct Hr as [-> | [r ->]].
    - rewrite (H1 eq_refl). cbn [map List.filter drop pieces]. rewrite Hword. unfold is_item at 1. destruct (Z.ltb_spec 0 (zlen (strip_blanks word))).
      + by replace (zlen (strip_blanks word) =? 0) with false by lia.
      + by replace (zlen (strip_blanks word) =? 0) with true by lia.
    - rewrite (H2 r eq_refl). cbn [map List.filter drop]. rewrite Hword. unfold is_item at 1. destruct (Z.ltb_spec 0 (zlen (strip_blanks word))).
      + by replace (zlen (strip_blanks word) =? 0) with false by lia.
      + by replace (zlen (strip_blanks word) =? 0) with true by lia. }
  assert (Hdrop : (length (drop 1 rest) <= fuel)%nat).
  { rewrite length_app in Hl. rewrite length_drop. destruct Hr as [-> | [r ->]]; cbn [length] in *; lia. }
  rewrite Hitems. cbv zeta. destruct (0 <? zlen (strip_blanks word)); cbn [app take_items]; [| by apply IH].
  destruct (_ || _); [done |]. by apply IH.
Qed.

(** Within the limits all items are taken, otherwise the status tells. *)
Lemma take_items_spec max_len items new :
  take_items max_len items new =
  if forallb (fun i => zlen i <=? max_len) new && (zlen items + zlen new <=? PV_MAX_COLLECTION_ITEMS) then (PV_OK, items ++ new)
  else match new with [] => (PV_OK, items) | _ => (PV_ERR_LIMIT, snd (take_items max_len items new)) end.
Proof.
  revert items. induction new as [| item new IH]; intros items; [cbn; rewrite app_nil_r; by destruct (_ <=? _) |]. cbn [take_items forallb].
  assert (Hz : zlen (item :: new) = zlen new + 1) by (unfold zlen; cbn; lia). pose proof (zlen_nonneg new). rewrite Hz.
  destruct (Z.leb_spec PV_MAX_COLLECTION_ITEMS (zlen items)); cbn [orb]; [replace (zlen items + (zlen new + 1) <=? PV_MAX_COLLECTION_ITEMS) with false by lia; by rewrite andb_false_r |].
  destruct (Z.ltb_spec max_len (zlen item)); [by replace (zlen item <=? max_len) with false by lia |]. replace (zlen item <=? max_len) with true by lia. cbn [andb].
  rewrite IH. assert (zlen (items ++ [item]) = zlen items + 1) as -> by (unfold zlen; rewrite length_app; cbn; lia).
  replace (zlen items + 1 + zlen new) with (zlen items + (zlen new + 1)) by lia. rewrite <- app_assoc. destruct (_ && _) eqn:E; [done |].
  destruct new as [| i new]; [| done]. cbn [forallb andb] in E. exfalso. change (zlen (@nil (list Z))) with 0 in *. apply Z.leb_gt in E. lia.
Qed.

(** [split_csv] reads a list as documented: its items are the pieces between
    commas, without blanks at their ends, that are not empty, in order; it accepts
    exactly when there are at most [PV_MAX_COLLECTION_ITEMS] of them and none is
    longer than [max_len], and otherwise returns [PV_ERR_LIMIT]. *)
Theorem split_csv_exact (source : list Z) (max_len : Z) :
  let items := list_items source in
  if forallb (fun i => zlen i <=? max_len) items && (zlen items <=? PV_MAX_COLLECTION_ITEMS) then split_csv source max_len = (PV_OK, items)
  else fst (split_csv source max_len) = PV_ERR_LIMIT.
Proof.
  cbv zeta. unfold split_csv. rewrite split_loop_items by lia. rewrite take_items_spec. change (zlen (@nil (list Z))) with 0. rewrite Z.add_0_l.
  destruct (_ && _) eqn:E; [done |]. destruct (list_items source); [done | done].
Qed.

(** ** Instances *)

(** The record of the example vault with another password. *)
Definition other_view (r : pv_record pv_view) : pv_record pv_view :=
  mk_record (r_id r) (r_revision r) (r_created_ms r) (r_updated_ms r) (r_flags r) (r_title r) (r_username r) (view_of (cstr "another")) (r_notes r)
    (r_urls r) (r_tags r) (r_fields r).

Definition first_record : pv_record pv_slice := nth 0 (v_records example_vault) (mk_record [] 0 0 0 0 (mk_slice None 0) (mk_slice None 0) (mk_slice None 0) (mk_slice None 0) [] [] []).

Lemma record_output_safe_witness :
  let r := record_view example_vault first_record in
  alike (show_record r) (show_record (other_view r)) /\ alike (print_record_line r) (print_record_line (other_view r)) /\
  alike (shell_show r) (shell_show (other_view r)).
Proof.
  apply (record_output_safe example_vault first_record (other_view (record_view example_vault first_record)));
    [exact (vault_reachable_inv _ example_reachable) | apply list_elem_of_In; vm_compute; left; reflexivity | generalize (record_view example_vault first_record); reflexivity].
Defined.
