(* ===== verification/MainProps.v ===== *)
(** * Properties of the whole program

    What holds of every run, whatever the arguments and the answers of the kernel:
    the commands that only read change no file, output that is not a terminal is
    refused, a configuration that is not read has no effect, failures are reported. *)

From stdpp Require Import gmap.
From S2P Require Import Prelude Status Util Sys Arena Model Cbor Crypto CryptoFacts Posix Recovery Config Secure Fs FsFacts Store StoreOps.
From S2P Require Import StoreFacts StoreReads StoreSave StoreCommit StoreSession StoreReopen.
From S2P Require Import Ui Process Clipboard Rofi Cli Shell Commands Main CliFacts.
From S2P Require Import ReferenceSodium StoreExample CliExample.

(** ** Commands that only read *)

(** The files, those on the disk and the recovery files are as before. *)
Definition still (c c' : cli) : Prop :=
  w_fs (c_world c') = w_fs (c_world c) /\ w_hist (c_world c') = w_hist (c_world c) /\ c_files c' = c_files c.

#[global] Instance still_frame : Frame still.
Proof. split; try (by intros; split_and!). split; [by intros c | intros c1 c2 c3 (? & ? & ?) (? & ? & ?); split_and!; congruence]. Qed.

(** The words of the commands that write, apart from [rescue recover]. *)
Definition writing_words : list (list Z) :=
  [cstr "init"; cstr "add"; cstr "edit"; cstr "remove"; cstr "passwd"; cstr "recovery"; cstr "backup"; cstr "restore"; cstr "rollback"].

Definition word_writes (command : list Z) (argv : list (list Z)) : bool :=
  existsb (streq command) writing_words ||
  (streq command (cstr "rescue") && match argv with action :: _ => streq action (cstr "recover") | [] => false end).

Definition may_write (argv : list (list Z)) : bool :=
  match from_command argv with
  | [] => false
  | command :: rest => word_writes command rest
  end.

Section reading.
Context `{Host} `{Sodium} `{Libcbor}.

Lemma quiet_read_disk_file path : quiet (read_disk_file path).
Proof. unfold read_disk_file. solve_quiet. Qed.
#[local] Hint Resolve quiet_read_disk_file : pv.

Lemma quiet_open_common path credential recovery consumed header : quiet (open_common path credential recovery consumed header).
Proof.
  unfold open_common. pose proof (fun p d v pl => quiet_lift _ (tame_build p d v pl)).
  assert (quiet (lift vmk_alloc)) by (apply quiet_lift; unfold vmk_alloc; solve_tame). solve_quiet.
Qed.
#[local] Hint Resolve quiet_open_common : pv.

Lemma quiet_open_password path password vault header : quiet (pv_store_open_password_consume path password vault header).
Proof. unfold pv_store_open_password_consume. solve_quiet. Qed.

Lemma quiet_open_recovery path key vault header : quiet (pv_store_open_recovery_consume path key vault header).
Proof. unfold pv_store_open_recovery_consume. solve_quiet. Qed.

Lemma quiet_inspect path : quiet (pv_store_inspect path).
Proof. unfold pv_store_inspect. solve_quiet. Qed.

Lemma quiet_doctor path n : quiet (pv_store_doctor path n).
Proof. unfold pv_store_doctor, validate_parent_security, lock_file_unsafe. solve_quiet. Qed.

Lemma still_store {A} (m : W A) : quiet m -> moves still (on_store m).
Proof.
  intros Hm c x c' E. unfold on_store in E. specialize (Hm (c_world c)). destruct (m (c_world c)) as [y w]. injection E as <- <-.
  destruct Hm. by split_and!.
Qed.

Lemma still_depart d : moves still (depart d).
Proof. intros c x c' [= <- <-]. done. Qed.

Lemma still_leave vault : moves still (leave vault).
Proof. apply still_depart. Qed.
#[local] Hint Resolve still_store still_depart still_leave quiet_open_password quiet_open_recovery quiet_inspect quiet_doctor : cli.

Lemma still_destroy vault : moves still (destroy vault).
Proof. unfold destroy. solve_moves. Qed.
#[local] Hint Resolve still_destroy : cli.

Lemma still_destroy_open vault : moves still (destroy_if_open vault).
Proof. unfold destroy_if_open. solve_moves. Qed.

Lemma still_open path : moves still (open_password_vault path).
Proof. unfold open_password_vault. solve_moves. Qed.
#[local] Hint Resolve still_destroy_open still_open : cli.

Lemma still_snapshot snapshot recovery_file : moves still (open_authenticated_snapshot snapshot recovery_file).
Proof. unfold open_authenticated_snapshot. solve_moves. Qed.
#[local] Hint Resolve still_snapshot : cli.

Lemma still_shell_command vault job ready command argument : moves still (shell_command vault job ready command argument).
Proof. unfold shell_command. solve_moves. Qed.
#[local] Hint Resolve still_shell_command : cli.

Lemma still_shell_loop fuel config vault job ready text : moves still (shell_loop fuel config vault job ready text).
Proof.
  revert text. induction fuel as [| fuel IH]; intros text; [by intros c x c' E |]. cbn [shell_loop]. unfold shell_turn. solve_moves.
Qed.
#[local] Hint Resolve still_shell_loop : cli.

Lemma still_shell stdin_tty stdout_tty config text : moves still (pv_shell_run stdin_tty stdout_tty config text).
Proof. unfold pv_shell_run. solve_moves. Qed.

Context (stdin_tty stdout_tty : bool) (environ : list (list Z)) (input : list Z) (draws : nat).

Lemma still_list config redirect : moves still (command_list stdout_tty config redirect).
Proof. unfold command_list. solve_moves. Qed.

Lemma still_show config redirect : moves still (command_show stdout_tty config redirect).
Proof. unfold command_show. solve_moves. Qed.

Lemma still_copy config field ttl : moves still (command_copy config field ttl).
Proof. unfold command_copy. solve_moves. Qed.

Lemma still_pick config copy rofi redirect : moves still (command_pick stdout_tty environ config copy rofi redirect).
Proof. unfold command_pick. solve_moves. Qed.

Lemma still_generate length ttl : moves still (command_generate length ttl).
Proof. unfold command_generate. solve_moves. Qed.

Lemma still_doctor config : moves still (command_doctor config).
Proof. unfold command_doctor. solve_moves. Qed.

Lemma still_config_check : moves still (command_config_check environ).
Proof. unfold command_config_check. solve_moves. Qed.

Lemma still_inspect snapshot : moves still (command_rescue_inspect snapshot).
Proof. unfold command_rescue_inspect. solve_moves. Qed.

Lemma still_verify snapshot recovery_file redirect : moves still (command_rescue_verify stdout_tty snapshot recovery_file redirect).
Proof. unfold command_rescue_verify, print_snapshot_identity. solve_moves. Qed.
#[local] Hint Resolve still_shell still_list still_show still_copy still_pick still_generate still_doctor still_config_check still_inspect still_verify : cli.

Lemma still_rescue argv : match argv with action :: _ => streq action (cstr "recover") | [] => false end = false ->
  moves still (parse_rescue_command stdout_tty argv).
Proof. intros E. unfold parse_rescue_command. destruct argv as [| action [| snapshot options]]; [solve_moves .. |]. rewrite E. solve_moves. Qed.

Lemma still_run_command config command argv : word_writes command argv = false ->
  moves still (run_command stdin_tty stdout_tty environ input draws config command argv).
Proof.
  unfold word_writes. cbn [writing_words existsb]. intros E. rewrite !orb_false_iff in E.
  destruct E as [(Einit & Eadd & Eedit & Eremove & Epasswd & Erecovery & Ebackup & Erestore & Erollback & _) Erescue].
  unfold run_command. rewrite Einit, Eadd, Eedit, Eremove, Epasswd, Erecovery, Ebackup, Erestore, Erollback.
  unfold redirect_option. cbn [andb]. destruct (streq command (cstr "rescue")); [pose proof (still_rescue argv Erescue) |]; solve_moves.
Qed.
#[local] Hint Resolve still_run_command : cli.

Lemma still_run_word config command argv : word_writes command argv = false ->
  moves still (run_word stdin_tty stdout_tty environ input draws config command argv).
Proof. intros E. unfold run_word, usage_of. solve_moves. Qed.
#[local] Hint Resolve still_run_word : cli.

Lemma still_cli_run config argv : may_write argv = false ->
  moves still (pv_cli_run stdin_tty stdout_tty environ input draws config argv).
Proof.
  unfold may_write, from_command, pv_cli_run. intros E. destruct argv as [| a0 [| a1 [| a2 rest]]]; [solve_moves .. |].
  destruct (streq a1 (cstr "--vault")); solve_moves.
Qed.

Lemma still_main initialized argv : may_write argv = false -> moves still (main stdin_tty stdout_tty environ input draws initialized argv).
Proof. intros E. pose proof (fun config => still_cli_run config argv E). unfold main, main_config. solve_moves. Qed.

End reading.

(** ** Words *)

Lemma streq_eq a b : streq a b = true -> a = b.
Proof. unfold streq. by intros ->%bytes_eqb_eq. Qed.

(** Decides the comparisons between literals. *)
Ltac decide_words :=
  repeat match goal with
  | |- context [streq (cstr ?a) (cstr ?b)] =>
      let v := eval vm_compute in (streq (cstr a) (cstr b)) in change (streq (cstr a) (cstr b)) with v; cbn [orb andb negb]
  end.

Section dispatch.
Context `{Host} `{Sodium} `{Libcbor}.
Context (stdin_tty stdout_tty : bool) (environ : list (list Z)) (input : list Z) (draws : nat).

(** ** The configuration *)

Lemma word_ignores_config config config' command argv :
  ((zlen argv =? 1) && is_help (nth 0 argv []) = true \/
   (streq command (cstr "rescue") || streq command (cstr "recovery")) && (zlen argv =? 2) && is_help (nth 1 argv []) = true \/
   existsb (streq command) [cstr "help"; cstr "-h"; cstr "--help"; cstr "--version"; cstr "config"; cstr "rescue"; cstr "rollback"] = true) ->
  run_word stdin_tty stdout_tty environ input draws config command argv = run_word stdin_tty stdout_tty environ input draws config' command argv.
Proof.
  intros Hh. unfold run_word. destruct Hh as [-> | [-> | Hw]]; [done .. |]. apply existsb_exists in Hw as (word & Hin & ->%streq_eq).
  destruct Hin as [<- | [<- | [<- | [<- | [<- | [<- | [<- | []]]]]]]]; decide_words; [reflexivity | reflexivity | reflexivity | reflexivity | ..].
  - destruct (_ && _); [done |]. unfold run_command. decide_words. done.
  - destruct (_ && _); [done |]. destruct (_ && _); [done |]. unfold run_command. decide_words. done.
  - destruct (_ && _); [done |]. unfold run_command. decide_words. done.
Qed.

(** ** Output that is not a terminal *)

(** The commands that show records or what a snapshot holds. *)
Definition shows_records (command : list Z) (argv : list (list Z)) : bool :=
  existsb (streq command) [cstr "list"; cstr "show"; cstr "shell"] ||
  (streq command (cstr "pick") && negb (existsb (fun a => streq a (cstr "--copy")) argv)) ||
  (streq command (cstr "rescue") && match argv with action :: _ => streq action (cstr "verify") | [] => false end).

Lemma pick_options_plain argv rofi r : existsb (fun a => streq a (cstr "--copy")) argv = false -> cstr "--allow-redirect" ∉ argv ->
  pick_options argv false rofi false = Some r -> exists rofi', r = (false, rofi', false).
Proof.
  revert rofi. induction argv as [| a argv IH]; intros rofi Hc Hr; cbn [pick_options]; [intros [= <-]; by exists rofi |].
  cbn [existsb] in Hc. apply orb_false_iff in Hc as [-> Hc]. apply not_elem_of_cons in Hr as [Ha Hr].
  destruct (streq a (cstr "--rofi")); [by apply IH |]. destruct (streq a (cstr "--allow-redirect")) eqn:E; [| done]. by apply streq_eq in E.
Qed.

Lemma verify_options_plain argv recovery_file r : cstr "--allow-redirect" ∉ argv -> verify_options argv recovery_file false = Some r -> snd r = false.
Proof.
  remember (length argv) as n eqn:Hn. revert argv Hn recovery_file. induction n as [n IH] using lt_wf_ind. intros argv -> recovery_file Hr.
  destruct argv as [| a [| b argv]]; cbn [verify_options]; [by intros [= <-] |..]; apply not_elem_of_cons in Hr as [Ha Hr].
  - destruct (streq a (cstr "--allow-redirect")) eqn:E; [by apply streq_eq in E | done].
  - destruct (streq a (cstr "--allow-redirect")) eqn:E; [by apply streq_eq in E |]. cbn [andb]. destruct (_ && _); [| done].
    apply not_elem_of_cons in Hr as [_ Hr]. by apply (IH (length argv)); [cbn; lia | |].
Qed.

(** Nothing but a complaint: no output, no secret read, no file looked at. *)
Definition only_complains (m : C pv_status) : Prop := forall c st c', m c = Some (st, c') ->
  st = PV_ERR_USAGE /\ c_out c' = c_out c /\ c_secrets c' = c_secrets c /\ c_world c' = c_world c.

Lemma complains_usage : only_complains (mret PV_ERR_USAGE).
Proof. intros c st c' E. by injection E as <- <-. Qed.

Lemma complains_text text : only_complains (_ ← complain text; mret PV_ERR_USAGE).
Proof. intros c st c' E. by injection E as <- <-. Qed.

Lemma complains_list config argv : cstr "--allow-redirect" ∉ argv ->
  only_complains (redirect_option argv (command_list false config)) /\ only_complains (redirect_option argv (command_show false config)).
Proof.
  intros Hr. destruct argv as [| a [| b argv]]; cbn [redirect_option]; [| | split; apply complains_text].
  - split; intros c st c' E; by injection E as <- <-.
  - apply not_elem_of_cons in Hr as [Ha _]. destruct (streq a (cstr "--allow-redirect")) eqn:E; [by apply streq_eq in E |]. split; apply complains_text.
Qed.

Lemma complains_pick config argv : existsb (fun a => streq a (cstr "--copy")) argv = false -> cstr "--allow-redirect" ∉ argv ->
  only_complains (match pick_options argv false (picker_rofi config) false with
                  | Some (copy, rofi, allow_redirect) => command_pick false environ config copy rofi allow_redirect
                  | None => mret PV_ERR_USAGE
                  end).
Proof.
  intros Hc Hr. destruct (pick_options _ _ _ _) as [r |] eqn:E; [| apply complains_usage]. destruct (pick_options_plain _ _ _ Hc Hr E) as [rofi ->].
  intros c st c' Ec. by injection Ec as <- <-.
Qed.

Lemma complains_verify argv : match argv with action :: _ => streq action (cstr "verify") | [] => false end = true -> cstr "--allow-redirect" ∉ argv ->
  only_complains (parse_rescue_command false argv).
Proof.
  intros Hv Hr. destruct argv as [| action [| snapshot options]]; [apply complains_usage .. |]. apply streq_eq in Hv as ->. unfold parse_rescue_command. decide_words.
  destruct (verify_options options None false) as [[file redirect] |] eqn:E; [| apply complains_usage].
  apply verify_options_plain in E; [| by apply not_elem_of_cons in Hr as [_ [_ ?]%not_elem_of_cons]]. cbn [snd] in E. subst redirect.
  intros c st c' Ec. by injection Ec as <- <-.
Qed.

Lemma complains_shell config : only_complains (pv_shell_run stdin_tty false config input).
Proof. unfold pv_shell_run. rewrite orb_true_r. apply complains_text. Qed.

(** C20: when standard output is not a terminal and the arguments do not allow it,
    every command that shows records refuses before it asks for a secret or looks
    at a file: [list], [show], [shell], [pick] without [--copy] and [rescue verify]
    return [PV_ERR_USAGE] and print nothing on standard output. *)
Theorem redirect_refused (config : pv_config) (command : list Z) (argv : list (list Z)) (c c' : cli) (status : pv_status)
    (Hshows : shows_records command argv = true) (Hredirect : cstr "--allow-redirect" ∉ argv)
    (Hrun : run_command stdin_tty false environ input draws config command argv c = Some (status, c')) :
  status = PV_ERR_USAGE /\ c_out c' = c_out c /\ c_secrets c' = c_secrets c /\ c_world c' = c_world c.
Proof.
  enough (only_complains (run_command stdin_tty false environ input draws config command argv)) as Hc by exact (Hc _ _ _ Hrun).
  clear Hrun. unfold shows_records in Hshows. cbn [existsb] in Hshows. rewrite orb_false_r in Hshows. rewrite !orb_true_iff in Hshows. unfold run_command.
  destruct Hshows as [[[->%streq_eq | [->%streq_eq | ->%streq_eq]] | [->%streq_eq Hcopy]%andb_true_iff] | [->%streq_eq Hverify]%andb_true_iff]; decide_words.
  - by apply complains_list.
  - by apply complains_list.
  - destruct (zlen argv =? 0); [apply complains_shell | apply complains_text].
  - apply complains_pick; [by apply negb_true_iff | done].
  - by apply complains_verify.
Qed.

(** A command for which the configuration is not read does not depend on it:
    whenever [command_ignores_config] holds, the command line does the same with
    any two configurations, so that skipping the file is sound. *)
Theorem config_ignored (config config' : pv_config) (argv : list (list Z)) (c : cli) (Hignores : command_ignores_config argv = true) :
  pv_cli_run stdin_tty stdout_tty environ input draws config argv c = pv_cli_run stdin_tty stdout_tty environ input draws config' argv c.
Proof.
  unfold command_ignores_config in Hignores. destruct (from_command argv) as [| command rest] eqn:Ef; [discriminate Hignores |].
  assert (Hword : forall config config', run_word stdin_tty stdout_tty environ input draws config command rest = run_word stdin_tty stdout_tty environ input draws config' command rest).
  { intros. apply word_ignores_config. destruct ((zlen rest =? 1) && _); [by left |]. destruct (_ && (zlen rest =? 2) && _); [by right; left |]. right; right.
    cbn [existsb]. by rewrite orb_false_r, !orb_assoc in *. }
  unfold from_command in Ef. unfold pv_cli_run. destruct argv as [| a0 [| a1 [| a2 args]]]; [discriminate Ef | discriminate Ef | injection Ef as -> ->; by rewrite (Hword config config') |].
  destruct (streq a1 (cstr "--vault")).
  - subst args. rewrite (Hword (set_vault_path config a2) (set_vault_path config' a2)). reflexivity.
  - injection Ef as -> ->. by rewrite (Hword config config').
Qed.

(** C13: a run whose arguments do not name a writing command changes nothing on
    the disk: unless the command is [init], [add], [edit], [remove], [passwd],
    [recovery], [backup], [restore], [rollback] or [rescue recover], no file is
    created, written, renamed or removed, not even for a moment, whatever the
    answers of the kernel, the terminal and the other programs. *)
Theorem main_reads_only (initialized : pv_status) (argv : list (list Z)) (code : Z) (c c' : cli)
    (Hargs : may_write argv = false) (Hrun : main stdin_tty stdout_tty environ input draws initialized argv c = Some (code, c')) :
  w_fs (c_world c') = w_fs (c_world c) /\ w_hist (c_world c') = w_hist (c_world c) /\ c_files c' = c_files c.
Proof. destruct (still_main stdin_tty stdout_tty environ input draws initialized argv Hargs _ _ _ Hrun) as [Hs _]. exact Hs. Qed.

(** ** Errors *)

Lemma exit_code_range st : 0 <= pv_status_exit_code st <= 7 /\ (pv_status_exit_code st = 0 <-> st = PV_OK).
Proof. by destruct st. Qed.

(** The text that ends the standard error of a run that failed. *)
Lemma report_said argv status configuration_error c x c' : report_error argv status configuration_error c = Some (x, c') -> status <> PV_OK ->
  exists text, c_err c' = c_err c ++ cstr "pvault: " ++ text ++ [10].
Proof.
  unfold report_error. destruct (is_ok status) eqn:E; [by destruct status |]. intros Hr _.
  destruct (_ || _).
  - unfold report_configuration_error in Hr. destruct status; injection Hr as _ <-; cbn [set_c_output c_err]; unfold text_lines; cbn [map concat]; rewrite app_nil_r;
      first [by eexists (cstr "configuration: " ++ _) | by eexists].
  - destruct (_ && _); injection Hr as _ <-; cbn [set_c_output c_err]; unfold text_lines; cbn [map concat]; rewrite app_nil_r; by eexists.
Qed.

(** A failure is always reported: the exit code is between 0 and 7, and unless it
    is 0 the last thing written to standard error is a line that begins with
    [pvault: ]. *)
Theorem main_reports (initialized : pv_status) (argv : list (list Z)) (code : Z) (c c' : cli)
    (Hrun : main stdin_tty stdout_tty environ input draws initialized argv c = Some (code, c')) :
  0 <= code <= 7 /\ (code <> 0 -> exists before text, c_err c' = before ++ cstr "pvault: " ++ text ++ [10]).
Proof.
  unfold main in Hrun. destruct (is_ok initialized) eqn:Ei; cbn [negb] in Hrun.
  - unfold mbind, C_bind in Hrun. destruct (main_config environ argv c) as [[[[st config] wrong] c1] |]; [| done].
    match type of Hrun with match ?m with _ => _ end = _ => destruct m as [[st1 c2] |]; [| done] end.
    destruct (report_error argv st1 wrong c2) as [[x c3] |] eqn:Er; [| done]. injection Hrun as <- <-. split; [apply exit_code_range |].
    intros Hne. assert (st1 <> PV_OK) as Hst by (intros ->; done). destruct (report_said _ _ _ _ _ _ Er Hst) as [text Ht]. by exists (c_err c2), text.
  - injection Hrun as <- <-. split; [apply exit_code_range |]. intros _. eexists (c_err c), _. cbn [set_c_output c_err]. unfold text_lines. cbn [map concat]. by rewrite app_nil_r.
Qed.

End dispatch.

(** ** Instances *)

Lemma verify_ends : main false false example_environ [] 0 PV_OK verify_argv verify_start = Some (4, verify_end).
Proof. vm_compute. reflexivity. Qed.

(** [pvault show] with its output redirected. *)
Lemma redirect_refused_witness :
  let c' := match run_command true false example_environ [] 0 config_zero (cstr "show") [] verify_start with Some (_, c) => c | None => verify_start end in
  PV_ERR_USAGE = PV_ERR_USAGE /\ c_out c' = [] /\ c_secrets c' = c_secrets verify_start /\ c_world c' = example_world.
Proof.
  apply (redirect_refused true example_environ [] 0 config_zero (cstr "show") [] verify_start _ PV_ERR_USAGE); [reflexivity | apply not_elem_of_nil | reflexivity].
Defined.

Lemma config_ignored_witness :
  pv_cli_run false false example_environ [] 0 config_zero verify_argv verify_start = pv_cli_run false false example_environ [] 0 (mk_config example_path 5 6 7 true) verify_argv verify_start.
Proof. apply (config_ignored false false example_environ [] 0 config_zero (mk_config example_path 5 6 7 true) verify_argv verify_start). reflexivity. Defined.

Lemma main_reads_only_witness : w_fs (c_world verify_end) = example_fs /\ w_hist (c_world verify_end) = [] /\ c_files verify_end = ∅.
Proof.
  apply (main_reads_only false false example_environ [] 0 PV_OK verify_argv 4 verify_start verify_end); [reflexivity | exact verify_ends].
Defined.

Lemma main_reports_witness : 0 <= 4 <= 7 /\ (4 <> 0 -> exists before text, c_err verify_end = before ++ cstr "pvault: " ++ text ++ [10]).
Proof. apply (main_reports false false example_environ [] 0 PV_OK verify_argv 4 verify_start verify_end). exact verify_ends. Defined.
