(* ===== verification/Dialogue.v ===== *)
(** * What a dialogue yields

    When what is typed at the terminal are bytes, a form returns a record of
    readable texts, and a dialogue changes nothing of the store: it only draws from
    the platform. *)

From stdpp Require Import gmap.
From S2P Require Import Prelude Status Util Sys Arena Model ModelFacts ModelInv Cbor Crypto Posix Recovery RecoveryProps Config Secure SecureProps Fs FsFacts Store StoreOps.
From S2P Require Import StoreFacts StoreSave Ui Process Clipboard Rofi Cli Shell Commands Main CliFacts CliProps.

(** The answers of the terminal are bytes. *)
Definition typed_byte (a : read_answer) : Prop := match a with R_byte b => is_byte b | _ => True end.

Definition typed_input (c : cli) : Prop :=
  Forall (fun s => is_bytes (typed (i_read s))) (c_secrets c) /\ Forall (fun io => Forall typed_byte (y_read io)) (c_lines c).

Definition gives {A} (m : C A) (P : A -> Prop) : Prop :=
  forall c x c', typed_input c -> m c = Some (x, c') -> typed_input c' /\ same (c_world c) (c_world c') /\ P x.

Lemma gives_ret {A} (x : A) (P : A -> Prop) : P x -> gives (mret x) P.
Proof. intros HP c y c' Hc E. injection E as <- <-. split_and!; [done | reflexivity | done]. Qed.

Lemma gives_bind {A B} (m : C A) (f : A -> C B) (P : A -> Prop) (Q : B -> Prop) : gives m P -> (forall x, P x -> gives (f x) Q) -> gives (m ≫= f) Q.
Proof.
  intros Hm Hf c y c' Hc E. unfold mbind, C_bind in E. destruct (m c) as [[x c1] |] eqn:Em; [| done]. destruct (Hm _ _ _ Hc Em) as (Hc1 & S1 & HP).
  destruct (Hf x HP _ _ _ Hc1 E) as (Hc' & S2 & HQ). split_and!; [done | by etrans | done].
Qed.

Lemma gives_mono {A} (m : C A) (P Q : A -> Prop) : gives m P -> (forall x, P x -> Q x) -> gives m Q.
Proof. intros Hm HQ c x c' Hc E. destruct (Hm _ _ _ Hc E) as (? & ? & ?). auto. Qed.

Lemma gives_sys {A} (m : M (option A)) (P : A -> Prop) : tame m -> (forall s x s', m s = (Some x, s') -> P x) -> gives (on_sys m) P.
Proof.
  intros Ht HP c x c' Hc E. unfold on_sys in E. specialize (Ht (w_sys (c_world c))). destruct (m _) as [[y |] s] eqn:Em; [| done]. injection E as <- <-.
  cbn [snd] in Ht. split_and!; [done | | by eapply HP]. split; try done. intros [H1 H2 H3 H4]. split; [| done]. split; try done. by eapply sys_calm_later.
Qed.

(** ** The platform *)

Lemma tame_uniform n : tame (randombytes_uniform n).
Proof. intros s. split; cbn; auto with pv. Qed.
#[local] Hint Resolve tame_uniform : pv.

Lemma tame_random_chars alphabet n : tame (random_chars alphabet n).
Proof. induction n as [| n IH]; cbn [random_chars]; unfold random_char; solve_tame. Qed.

Lemma tame_shuffle i l : tame (shuffle_loop i l).
Proof. revert l. induction i as [| i IH]; intros l; cbn [shuffle_loop]; solve_tame. Qed.
#[local] Hint Resolve tame_random_chars tame_shuffle : pv.

Lemma tame_generate length b : tame (generate_password length b).
Proof. unfold generate_password, random_char. solve_tame. Qed.

Lemma tame_buffer b n : tame (pv_secure_buffer_alloc b n).
Proof. unfold pv_secure_buffer_alloc. solve_tame. Qed.
#[local] Hint Resolve tame_generate tame_buffer : pv.

Lemma tame_read_secret script t confirm : tame (pv_secure_read_secret script t confirm).
Proof. unfold pv_secure_read_secret, read_secrets, read_one_secret, allocate_secret. solve_tame. Qed.

Lemma tame_read_line io maximum empty b : tame (pv_tty_read_line io maximum empty b).
Proof. unfold pv_tty_read_line. solve_tame. Qed.
#[local] Hint Resolve tame_read_secret tame_read_line : pv.

Lemma tame_confirm io : tame (pv_tty_confirm io).
Proof. unfold pv_tty_confirm. solve_tame. Qed.

Lemma tame_read_unsigned io maximum d v : tame (pv_tty_read_unsigned io maximum d v).
Proof. unfold pv_tty_read_unsigned. solve_tame. Qed.

Lemma tame_total {A} (m : M A) : tame m -> tame (total m).
Proof. intros Hm. unfold total. solve_tame. Qed.
#[export] Hint Resolve tame_confirm tame_read_unsigned tame_total tame_generate tame_read_secret tame_read_line : pv.

(** ** Recovery keys *)

Lemma tame_recovery_encode `{Sodium} vault_id key len : tame (pv_recovery_encode vault_id key len).
Proof. unfold pv_recovery_encode, recovery_checksum, recovery_secure_alloc. solve_tame. Qed.

Lemma tame_recovery_decode `{Sodium} encoded vault_id : tame (pv_recovery_decode encoded vault_id).
Proof. unfold pv_recovery_decode, recovery_checksum, recovery_secure_alloc. solve_tame. Qed.

Lemma calm_allocs n s : sys_calm s -> allocs_ok n s.
Proof. intros [Hs _] i Hi. split; apply Hs. Qed.

(** ** Buffers *)

Lemma bytes_nul l : is_bytes l -> is_bytes (l ++ [0]).
Proof. intros Hl. apply Forall_app. split; [done |]. constructor; [done | constructor]. Qed.

Lemma all_bytes c : c ∈ all -> is_byte c.
Proof. assert (Ha : Forall is_byte all) by (repeat constructor; done). intros Hc. rewrite Forall_forall in Ha. apply Ha. by apply list_elem_of_In. Qed.

(** The text of a buffer after [status]. *)
Definition good_buffer (r : pv_status * pv_buffer) : Prop := fst r = PV_OK -> view_ok (buffer_view (snd r)).

Lemma tty_loop_typed maximum reads data overflow ok data' overflow' : Forall typed_byte reads -> is_bytes data ->
  tty_loop maximum reads data overflow = Some (ok, data', overflow') -> is_bytes data'.
Proof.
  intros Hr. revert data overflow. induction Hr as [| a reads Ha _ IH]; intros data overflow Hd; cbn [tty_loop]; [done |].
  destruct a as [b | | |]; [| by intros [= _ <- _] | by apply IH | by intros [= _ <- _]]. split_if; [by intros [= _ <- _] |]. split_if; [| by apply IH].
  apply IH. apply Forall_app. split; [done |]. constructor; [exact Ha | constructor].
Qed.

Lemma gives_read_line maximum empty : gives (read_line maximum empty) good_buffer.
Proof.
  intros c [st b] c' [Hs Hl] E. unfold read_line, mbind, C_bind, next_line in E. destruct (c_lines c) as [| io rest] eqn:El; [done |].
  apply Forall_cons_iff in Hl as [Hio Hl].
  assert (Hg : gives (on_sys (pv_tty_read_line io maximum empty buffer_zero)) good_buffer).
  { apply gives_sys; [auto with pv |]. intros s [st1 b1] s' Er. unfold good_buffer. cbn [fst snd]. intros ->. unfold pv_tty_read_line in Er. split_if_in Er; [done |].
    rewrite bind_run in Er. destruct (sodium_malloc s) as [m s1]. rewrite bind_run in Er. match type of Er with (let '(_, _) := ?m ?t in _) = _ => destruct (m t) as [k s2] end.
    do 3 (split_if_in Er; [done |]). destruct (tty_loop _ _ _ _) as [[[[] data] overflow] |] eqn:Et; [| done | done]. split_if_in Er; [done |]. split_if_in Er; [done |].
    injection Er as <- _. pose proof (tty_loop_typed _ _ _ _ _ _ _ Hio ltac:(constructor) Et) as Hb. split; cbn; [apply zlen_nonneg |]. intros l [= <-].
    split; [by apply bytes_nul | rewrite zlen_app; unfold zlen; cbn; lia]. }
  destruct (Hg (set_c_lines c rest) _ _ (conj Hs Hl) E) as (Hc' & S & HP). done.
Qed.

Lemma gives_read_secret confirm : gives (read_secret confirm) good_buffer.
Proof.
  intros c [st b] c' [Hs Hl] E. unfold read_secret in E. destruct (c_secrets c) as [| script rest] eqn:El; [done |]. apply Forall_cons_iff in Hs as [Hscript Hs].
  destruct (on_sys _ c) as [[[[st1 b1] t] c1] |] eqn:Er; [| done]. injection E as <- <- <-.
  assert (Hg : gives (on_sys (pv_secure_read_secret script (c_terminal c) confirm)) (fun r => good_buffer (fst r))).
  { apply gives_sys; [auto with pv |]. intros s [[st2 b2] t2] s' Ec. unfold good_buffer. cbn [fst snd]. intros ->.
    destruct (secret_is_typed_line _ _ _ _ _ _ _ Ec) as (line & e & more & -> & _ & Ht & _). rewrite Ht in Hscript. apply Forall_app in Hscript as [Hline _].
    split; cbn; [apply zlen_nonneg |]. intros l [= <-]. split; [apply Forall_app; split; [done | apply is_bytes_zeros] | unfold zlen; rewrite length_app; lia]. }
  assert (Hc : typed_input c) by (split; [rewrite El; by constructor | done]). destruct (Hg _ _ _ Hc Er) as ((_ & Hl1) & S & HP). split_and!; [| done | done].
  split; [done |]. exact Hl1.
Qed.

Lemma gives_confirm : gives confirm (fun _ => True).
Proof.
  intros c x c' [Hs Hl] E. unfold confirm, mbind, C_bind, next_line in E. destruct (c_lines c) as [| io rest] eqn:El; [done |]. apply Forall_cons_iff in Hl as [_ Hl].
  exact (gives_sys (pv_tty_confirm io) (fun _ => True) ltac:(auto with pv) ltac:(done) (set_c_lines c rest) _ _ (conj Hs Hl) E).
Qed.

Lemma gives_read_unsigned maximum d v : gives (read_unsigned maximum d v) (fun _ => True).
Proof.
  intros c x c' [Hs Hl] E. unfold read_unsigned, mbind, C_bind, next_line in E. destruct (c_lines c) as [| io rest] eqn:El; [done |]. apply Forall_cons_iff in Hl as [_ Hl].
  exact (gives_sys (pv_tty_read_unsigned io maximum d v) (fun _ => True) ltac:(auto with pv) ltac:(done) (set_c_lines c rest) _ _ (conj Hs Hl) E).
Qed.

Lemma gives_generate length : gives (on_sys (total (generate_password length buffer_zero))) good_buffer.
Proof.
  apply gives_sys; [auto with pv |]. intros s [st b] s' E. unfold good_buffer. cbn [fst snd]. intros ->. unfold total in E. rewrite bind_run in E.
  destruct (generate_password length buffer_zero s) as [[st1 b1] s1] eqn:Eg. injection E as -> -> _.
  destruct (Z.ltb_spec length 12) as [Hlo | Hlo]; [unfold generate_password in Eg; by replace (length <? 12) with true in Eg by lia |].
  destruct (Z.ltb_spec 256 length) as [Hhi | Hhi]; [unfold generate_password in Eg; by replace ((length <? 12) || (256 <? length)) with true in Eg by lia |].
  destruct (s_malloc s 0%nat && s_mlock s 0%nat) eqn:Ea.
  - apply andb_true_iff in Ea as [Em Ek]. destruct (generate_run length s (conj Hlo Hhi) Em Ek) as (text & s2 & Er & Hl & Hall & _). rewrite Er in Eg. injection Eg as <- _.
    assert (Hb : is_bytes text) by (eapply Forall_impl; [| exact Hall]; apply all_bytes).
    split; cbn; [lia |]. intros l [= <-]. split; [by apply bytes_nul | rewrite zlen_app; unfold zlen in *; cbn; lia].
  - unfold generate_password in Eg. split_if_in Eg; [done |]. rewrite bind_run in Eg. unfold sodium_malloc in Eg. rewrite bind_run in Eg.
    destruct (s_malloc s 0%nat); [| done]. unfold sodium_mlock in Eg. cbn [s_mlock andb] in *. rewrite Ea in Eg. done.
Qed.

(** ** Forms *)

Lemma items_bytes source max_len : is_bytes source -> Forall is_bytes (snd (split_csv source max_len)).
Proof.
  intros Hs. unfold split_csv. rewrite split_loop_items by lia.
  assert (Hp : Forall is_bytes (pieces source)).
  { clear max_len. induction Hs as [| c l Hc _ IH]; [by repeat constructor |]. cbn [pieces]. destruct (c =? 44); [by constructor; [constructor |] |].
    destruct (pieces l) as [| p ps]; [constructor; [constructor; [exact Hc | constructor] | constructor] |]. apply Forall_cons_iff in IH as [Hpp Hps]. constructor; [by constructor | done]. }
  assert (Hskip : forall l, is_bytes l -> is_bytes (skip_blanks l)).
  { intros l. induction 1 as [| c l Hc Hl IH]; [constructor |]. cbn [skip_blanks]. destruct (is_blank c); [done | by constructor]. }
  assert (Hstrip : forall l, is_bytes l -> is_bytes (strip_blanks_rev l)).
  { intros l. induction 1 as [| c l Hc Hl IH]; [constructor |]. cbn [strip_blanks_rev]. destruct (is_blank c); [done | by constructor]. }
  assert (Hi : Forall is_bytes (list_items source)).
  { unfold list_items. apply Forall_forall. intros x Hx. apply filter_In in Hx as [Hx _]. apply in_map_iff in Hx as (p & <- & Hx). rewrite Forall_forall in Hp.
    unfold trim_blanks, strip_blanks. apply Forall_rev, Hstrip, Forall_rev, Hskip, Hp, Hx. }
  assert (Hnil : Forall is_bytes (@nil (list Z))) by constructor. revert Hnil. generalize (@nil (list Z)) as items. induction Hi as [| x new Hx _ IH]; intros items Hitems; [done |].
  cbn [take_items]. destruct (_ || _); [done |]. apply IH, Forall_app. split; [done |]. constructor; [exact Hx | constructor].
Qed.

Definition good_fields (r : pv_status * list (pv_custom_field pv_view)) : Prop :=
  Forall (fun f => view_ok (f_name f) /\ view_ok (f_value f)) (snd r).

Lemma gives_collect_fields count fields : Forall (fun f => view_ok (f_name f) /\ view_ok (f_value f)) fields ->
  gives (collect_fields_loop count fields) good_fields.
Proof.
  revert fields. induction count as [| count IH]; intros fields Hf; cbn [collect_fields_loop]; [by apply gives_ret |].
  eapply gives_bind; [apply gives_read_line |]. intros [st name] Hname. destruct (is_ok st) eqn:E1; cbn [negb]; [apply is_ok_iff in E1 as -> | by apply gives_ret].
  eapply gives_bind; [apply gives_confirm |]. intros [st1 secret] _. destruct (negb (is_ok st1)); [by apply gives_ret |].
  eapply gives_bind; [destruct secret; [apply gives_read_secret | apply gives_read_line] |]. intros [st2 value] Hvalue.
  destruct (is_ok st2) eqn:E2; cbn [negb]; [apply is_ok_iff in E2 as -> | by apply gives_ret]. apply IH, Forall_app. split; [done |]. constructor; [| constructor].
  split; [by apply Hname | by apply Hvalue].
Qed.

Lemma gives_collect_custom_fields : gives collect_custom_fields good_fields.
Proof.
  unfold collect_custom_fields. eapply gives_bind; [apply gives_read_unsigned |]. intros [st count] _. destruct (negb _); [by apply gives_ret; constructor |].
  apply gives_collect_fields. constructor.
Qed.

Lemma gives_collect_password : gives collect_password good_buffer.
Proof.
  unfold collect_password. eapply gives_bind; [apply gives_read_line |]. intros [st mode] _. destruct (is_ok st) eqn:E; cbn [negb].
  - cbv zeta. destruct (_ || _); [apply gives_generate | apply gives_read_secret].
  - apply gives_ret. intros Hst. cbn [fst] in Hst. by rewrite Hst in E.
Qed.

(** A record that a form returns. *)
Definition good_record (r : pv_status * pv_record pv_view) : Prop := fst r = PV_OK -> record_ok (snd r) /\ record_typed (snd r) /\ r_id (snd r) = zeros PV_RECORD_ID_BYTES.

Lemma view_of_bytes_ok l : is_bytes l -> view_ok (view_of l).
Proof. intros Hl. split; cbn; [apply zlen_nonneg |]. intros l' [= <-]. split; [done | lia]. Qed.

Lemma view_bytes_ok v : view_ok v -> is_bytes (v_bytes v).
Proof. intros [_ Hv]. unfold v_bytes. destruct (v_data v) as [l |]; [| constructor]. destruct (Hv l eq_refl) as [Hl _]. by apply Forall_take. Qed.

(** The texts of a form. *)
Lemma form_ok title username password urls notes tags fields :
  view_ok (buffer_view title) -> view_ok (buffer_view username) -> view_ok (buffer_view password) -> Forall is_bytes urls -> view_ok (buffer_view notes) -> Forall is_bytes tags ->
  Forall (fun f => view_ok (f_name f) /\ view_ok (f_value f)) fields ->
  good_record (PV_OK, form_record (mk_form title username password urls notes tags fields)).
Proof.
  intros Ht Hu Hp Hurls Hn Htags Hf _. split_and!; [| | done].
  - unfold record_ok, record_slices, wiped_slices, form_record. cbn -[buffer_view view_of]. rewrite !Forall_cons_iff, !Forall_app, !Forall_map, Forall_fields. split_and!; try done.
    + eapply Forall_impl; [| exact Hurls]. apply view_of_bytes_ok.
    + eapply Forall_impl; [| exact Htags]. apply view_of_bytes_ok.
  - split; cbn; try done. apply is_bytes_zeros.
Qed.

Lemma gives_failed (st : pv_status) : is_ok st = false -> gives (mret (st, empty_record)) good_record.
Proof. intros E. apply gives_ret. intros Hst. cbn [fst] in Hst. by rewrite Hst in E. Qed.

Ltac form_step Hb :=
  eapply gives_bind; [first [apply gives_read_line | apply gives_collect_password] |]; intros [? ?] Hb;
  match goal with |- context [is_ok ?st] => destruct (is_ok st) eqn:?; cbn [negb]; [| by apply gives_failed] end;
  match goal with E : is_ok ?st = true |- _ => apply is_ok_iff in E as -> end; specialize (Hb eq_refl); cbn [snd] in Hb.

Lemma gives_collect_record : gives collect_record good_record.
Proof.
  unfold collect_record. cbv zeta. form_step Ht. form_step Hu. form_step Hp. form_step Hurls.
  pose proof (items_bytes _ PV_MAX_URL (view_bytes_ok _ Hurls)) as Hui. unfold buffer_bytes. destruct (split_csv _ PV_MAX_URL) as [st5 urls]. cbn [snd] in Hui.
  destruct (is_ok st5) eqn:E5; cbn [negb]; [| by apply gives_failed]. form_step Hn. form_step Htags.
  pose proof (items_bytes _ PV_MAX_TAG (view_bytes_ok _ Htags)) as Hti. destruct (split_csv _ PV_MAX_TAG) as [st6 tags]. cbn [snd] in Hti.
  destruct (is_ok st6) eqn:E6; cbn [negb]; [| by apply gives_failed]. eapply gives_bind; [apply gives_collect_custom_fields |]. intros [st7 fields] Hf.
  destruct (is_ok st7) eqn:E7; cbn [negb]; [| by apply gives_failed]. apply gives_ret. by apply form_ok.
Qed.
