(* ===== verification/CommandProps.v ===== *)
(** * Commands that change the vault, end to end

    From the keys typed at the terminal to the file and back: after [add] or [passwd]
    the file opens, with the right password, to the right records, whether the
    command succeeded or not. The kernel and the platform are calm here: that
    nothing worse than an old or new version is ever seen when they are not is
    [StoreProps.save_atomic]. *)

From stdpp Require Import gmap.
From S2P Require Import Prelude Status Util Sys ReferenceSodium Arena Model ModelFacts ModelInv ModelProps Cbor CborFacts CborProps Crypto CryptoFacts CryptoProps.
From S2P Require Import Posix Recovery Config Secure SecureProps Fs FsFacts Store StoreOps StoreFacts StoreReads StoreSave StoreNames StoreCommit StoreSession StoreReopen.
From S2P Require Import StoreExample Ui Process Clipboard Rofi Cli Shell Commands Main CliFacts CliExample CliProps Dialogue.

(** ** A vault in a file *)

(** The name leads to a private file [disk] that holds the vault [v1], and the
    directory lets it be replaced. *)
Record vault_file `{Host} `{Sodium} (w : world) (path : list Z) (d : Z) (name old : list Z) (disk : pv_disk_file) (v1 : pv_vault)
    (vmk password recovery_key : list Z) : Prop := mk_vault_file {
  vf_ok : world_ok w;
  vf_calm : calm w;
  vf_settled : settled (w_fs w) d name (Some old);
  vf_leads : leads_to w path d name;
  vf_disk : exists i n, disk_of (w_fs w) d name i n disk /\ access_bits (i_mode n) = 384;
  vf_life : lifecycle vmk (disk_header disk) password recovery_key;
  vf_vmk_len : zlen vmk = PV_WRAP_KEY_BYTES;
  vf_vmk_bytes : is_bytes vmk;
  vf_wf : vault_wf v1;
  vf_meta : meta_ok v1;
  vf_body s : sys_calm s -> fst (pv_crypto_decrypt_body (disk_header disk) vmk (disk_ciphertext disk) s) = (PV_OK, Some (encoding v1));
  vf_generation : v_generation v1 <> UINT64_MAX;
  vf_lock : can_lock (w_fs w) d name;
  vf_free : temporaries_free (w_fs w) d name;
  vf_private : inode_private created_inode = true;
  vf_backup : can_backup (w_fs w) d (h_vault_id (disk_header disk)) (v_generation v1)
}.

Section end_to_end.
Context `{Host} {S : Sodium} {Laws : SodiumLaws S} {Total : SodiumTotal S} {L : Libcbor} {CborLaws : LibcborLaws L}.
Context (path : list Z) (d : Z) (name old : list Z) (disk : pv_disk_file) (v1 : pv_vault) (vmk password recovery_key : list Z).

Definition on_file (w : world) : Prop := vault_file w path d name old disk v1 vmk password recovery_key.

Lemma file_same w w' : same w w' -> on_file w -> on_file w'.
Proof.
  intros S1 [F1 F2 F3 F4 F5 F6 F7 F8 F9 F10 F11 F12 F13 F14 F15 F16]. pose proof (same_fs _ _ S1) as Ef.
  split; rewrite ?Ef; try done; [by eapply world_ok_same | by eauto with calm | by eapply leads_to_same].
Qed.

(** The vault that was opened from the file. *)
Definition from_file (v : pv_vault) (h : pv_file_header) : Prop := opened_as v1 disk vmk path v /\ h = disk_header disk.

Lemma file_opens w header0 : on_file w -> let '((st, v, h), w') := pv_store_open_password path password header0 w in same w w' /\ st = PV_OK /\ from_file v h.
Proof.
  intros [F1 F2 F3 F4 (i & n & D & _) F6 F7 F8 F9 F10 F11 _ _ _ _ _].
  pose proof (wp_open_password (fun _ => True) path password recovery_key vmk header0 d name i n disk v1 w F2 F4 D F6 F7 F8 F9 F10 F11) as Hwp.
  destruct (pv_store_open_password path password header0 w) as [[[st v] h] w'] eqn:E. destruct (wp_run _ _ _ _ _ _ Hwp E) as (_ & _ & Hs & Hst & Hh & Ho). by split_and!.
Qed.

(** Opening with a buffer that is consumed. *)
Lemma open_common_consumed p credential recovery consumed h w :
  open_common p credential recovery consumed h w =
  let '((st, _, v, h'), w') := open_common p credential recovery None h w in ((st, pv_buffer_secure_free consumed, v, h'), w').
Proof.
  unfold open_common, mbind, W_bind. destruct (read_disk_file p w) as [[st dk] w1]. destruct (negb (is_ok st)); [done |].
  destruct (lift vmk_alloc w1) as [allocated w2]. destruct (negb allocated); [done |]. destruct (lift (unlock_credential _ _ _) w2) as [[st1 key] w3].
  match goal with |- context [let '(_, _) := ?m w3 in _] => destruct (m w3) as [[st2 plain] w4] end.
  match goal with |- context [let '(_, _) := ?m w4 in _] => destruct (m w4) as [[st3 v] w5] end.
  match goal with |- context [let '(_, _) := ?m w5 in _] => destruct (m w5) as [v' w6] end. done.
Qed.

Lemma holding_bytes line : zsub (line ++ zeros (PV_SECRET_INPUT_MAX + 1 - zlen line)) 0 (zlen line) = line.
Proof. unfold zsub, zlen. rewrite drop_0, Nat2Z.id. by rewrite take_app_length. Qed.

Lemma open_holding w header0 : 0 < zlen password -> let '((st, _, v, h), w') := pv_store_open_password_consume path (holding password) vault_zero header0 w in
  pv_store_open_password path password header0 w = ((st, v, h), w').
Proof.
  intros Hp. unfold pv_store_open_password_consume, holding. cbn [b_data b_len b_secure]. replace (zlen password =? 0) with false by lia. cbn [orb negb].
  rewrite holding_bytes, open_common_consumed. unfold pv_store_open_password, mbind, W_bind.
  destruct (open_common path password false None header0 w) as [[[[st c0] v] h] w']. done.
Qed.

(** ** Saving a session of the file *)

(** A vault of this file, changed. *)
Definition changed (v : pv_vault) (h : pv_file_header) (new_password : list Z) : Prop :=
  (exists rk, session_ok v h vmk new_password rk) /\ v_dirty v = true /\ v_path v = path /\ v_vault_id v = h_vault_id (disk_header disk) /\
  v_generation v = v_generation v1 /\ v_source_hash v = disk_hash disk.

Lemma changed_saved v h new_password retention w : on_file w -> changed v h new_password -> 1 <= retention ->
  let '((st, _, _), w') := pv_store_save v h retention w in
  st = PV_OK /\ forall w2 header0, same w' w2 -> let '((st2, opened, _), _) := pv_store_open_password path new_password header0 w2 in
    st2 = PV_OK /\ contents opened = contents v /\ v_generation opened = u64 (v_generation v1 + 1).
Proof.
  intros [F1 F2 F3 F4 (i & n & D & Hmode) F6 F7 F8 F9 F10 F11 F12 F13 F14 F15 F16] ((rk & Hss) & Hdirty & Hpath & Hid & Hgen & Hhash) Hret.
  assert (Hcan : can_save w d name v h false).
  { split_and!; [split; [by rewrite Hgen | exists disk, i, n; split_and!; try done; by symmetry] | by rewrite Hpath | done | done | by eapply session_sealable | intros _; by rewrite Hid, Hgen]. }
  pose proof (fun header0 => save_reopens v h header0 vmk new_password rk retention name old d w Hss Hdirty Hret F1 F2 F3 F13 Hcan) as Hr.
  destruct (pv_store_save v h retention w) as [[[st v'] h'] w']. split; [apply (Hr header_zero) |]. intros w2 header0 S2. destruct (Hr header0) as [_ Hr2]. specialize (Hr2 w2 S2).
  rewrite Hpath in Hr2. destruct (pv_store_open_password path new_password header0 w2) as [[[st2 opened] h2] w3]. rewrite Hgen in Hr2. tauto.
Qed.

(** ** Commands *)

Lemma cbind_run {A B} (m : C A) (f : A -> C B) c y c' : (m ≫= f) c = Some (y, c') -> exists x c1, m c = Some (x, c1) /\ f x c1 = Some (y, c').
Proof. unfold mbind, C_bind. destruct (m c) as [[x c1] |]; [| done]. by exists x, c1. Qed.

Lemma cbind_none {A B} (m : C A) (f : A -> C B) c : (m ≫= f) c = None -> m c = None \/ exists x c1, m c = Some (x, c1) /\ f x c1 = None.
Proof. unfold mbind, C_bind. destruct (m c) as [[x c1] |]; [| by left]. right. by exists x, c1. Qed.

(** A step that waits for nothing. *)
Lemma sys_total_some {A} (m : M A) c : on_sys (total m) c <> None.
Proof. unfold on_sys, total. rewrite bind_run. destruct (m _) as [x s]. done. Qed.

Lemma store_some {A} (m : W A) c : on_store m c <> None.
Proof. unfold on_store. by destruct (m _). Qed.

Lemma destroy_open_some v c : destroy_if_open v c <> None.
Proof.
  unfold destroy_if_open. destruct (a_base _); [| done]. unfold destroy. intros [E | (x & c1 & _ & [E | (y & c2 & _ & E)]%cbind_none)]%cbind_none; [done | by apply sys_total_some in E | done].
Qed.

Lemma end_some {A} (m : C unit) v (x : A) c : (forall c, m c <> None) -> (_ ← m; _ ← destroy_if_open v; mret x) c <> None.
Proof. intros Hm [E | (? & c1 & _ & [E | (? & ? & _ & E)]%cbind_none)]%cbind_none; [by apply Hm in E | by apply destroy_open_some in E | done]. Qed.

Lemma open_waits p c : open_password_vault p c = None -> read_secret false c = None.
Proof.
  unfold open_password_vault. intros [E | ([st b] & c1 & _ & E)]%cbind_none; [done |]. destruct (negb (is_ok st)); [done |].
  apply cbind_none in E as [E | ([[[st2 b2] v] h] & c2 & _ & E)]; [by apply store_some in E | done].
Qed.

(** Saving, if there is something to save, and the end of a command wait for nothing. *)
Lemma save_end_some (b : bool) v h st h0 retention (g : pv_status -> C unit) c : (forall st c, g st c <> None) ->
  (r ← (if b then on_store (pv_store_save v h retention) else mret (st, v, h0));
   let '(status, vault, _) := r in _ ← g status; _ ← destroy_if_open vault; mret status) c <> None.
Proof.
  intros Hg [E | ([[st1 v1'] h1] & c1 & _ & E)]%cbind_none; [destruct b; [by apply store_some in E | done] |]. by apply end_some in E.
Qed.

Lemma add_waits draws config c : command_add draws config c = None ->
  read_secret false c = None \/ exists v h c1, open_password_vault (vault_path config) c = Some ((PV_OK, v, h), c1) /\
    (collect_record c1 = None \/ exists source c2, collect_record c1 = Some ((PV_OK, source), c2) /\ on_sys (pv_model_add_record draws v source) c2 = None).
Proof.
  unfold command_add. intros [E | ([[st v] h] & c1 & E1 & E)]%cbind_none; [left; by eapply open_waits |]. right. exists v, h, c1.
  apply cbind_none in E as [E | ([st2 source] & c2 & E2 & E)]; [destruct (is_ok st) eqn:Est; [apply is_ok_iff in Est as ->; auto | done] |].
  apply cbind_none in E as [E | ([st3 v3] & c3 & _ & E)]; [| exfalso; revert E; apply (save_end_some (is_ok st3) v3 h st3 h _ (fun status => if status_committed status && is_ok st3 then _ else mret tt)); by intros ? ?; split_if].
  destruct (is_ok st2) eqn:Est2; [apply is_ok_iff in Est2 as -> | done]. destruct (is_ok st) eqn:Est; [apply is_ok_iff in Est as -> | by injection E2 as -> _ _].
  split; [done |]. right. by exists source, c2.
Qed.

Lemma passwd_waits config c : command_passwd config None c = None ->
  read_secret false c = None \/ exists v h c1, open_password_vault (vault_path config) c = Some ((PV_OK, v, h), c1) /\ read_secret true c1 = None.
Proof.
  unfold command_passwd. intros [E | ([[st v] h] & c1 & E1 & E)]%cbind_none; [left; by eapply open_waits |]. right. exists v, h, c1.
  apply cbind_none in E as [E | ([st2 b] & c2 & E2 & E)]; [destruct (is_ok st) eqn:Est; [apply is_ok_iff in Est as ->; auto | done] |]. exfalso.
  apply cbind_none in E as [E | (st3 & c3 & _ & E)]; [destruct (is_ok st2); [| done]; unfold validate_new_master_password in E; by destruct (pv_master_password_is_acceptable _) |].
  apply cbind_none in E as [E | ([st4 h4] & c4 & _ & E)]; [destruct (is_ok st3); [by apply sys_total_some in E | done] |].
  apply cbind_none in E as [E | ([[st5 v5] h5] & c5 & _ & E)]; [destruct (is_ok st4); [by apply store_some in E | done] |]. apply end_some in E; [done |].
  intros c6. by repeat split_if.
Qed.

Lemma gives_say text : gives (say text) (fun _ => True).
Proof. intros c x c' Hc E. injection E as <- <-. split_and!; [done | reflexivity | done]. Qed.

Lemma gives_said (b : bool) text (m : C unit) : gives m (fun _ => True) -> gives (if b then say text else m) (fun _ => True).
Proof. intros Hm. destruct b; [apply gives_say | done]. Qed.

Lemma gives_complain text : gives (complain text) (fun _ => True).
Proof. intros c x c' Hc E. injection E as <- <-. split_and!; [done | reflexivity | done]. Qed.

Lemma gives_depart gone : gives (depart gone) (fun _ => True).
Proof. intros c x c' Hc E. injection E as <- <-. split_and!; [done | reflexivity | done]. Qed.

Lemma gives_leave v : gives (leave v) (fun _ => True).
Proof. apply gives_depart. Qed.

Lemma gives_freed : gives freed_blocks (fun _ => True).
Proof. intros c x c' Hc E. injection E as <- <-. split_and!; [done | reflexivity | done]. Qed.

Lemma gives_destroy_open v : gives (destroy_if_open v) (fun _ => True).
Proof.
  unfold destroy_if_open. destruct (a_base _); [| apply gives_leave]. unfold destroy. eapply gives_bind; [apply gives_freed | intros l _].
  eapply gives_bind; [apply (gives_sys _ (fun _ => True)); [auto with pv | done] | intros v' _]. eapply gives_bind; [apply gives_freed | intros l' _; apply gives_depart].
Qed.

(** The end of a command: a message, then the vault is destroyed. *)
Lemma gives_end {A} (m : C unit) v (x : A) : gives m (fun _ => True) -> gives (_ ← m; _ ← destroy_if_open v; mret x) (fun y => y = x).
Proof. intros Hm. eapply gives_bind; [exact Hm |]. intros _ _. eapply gives_bind; [apply gives_destroy_open |]. intros _ _. by apply gives_ret. Qed.

(** The next secret is the password. *)
Definition types_password (c : cli) : Prop := forall b c1, read_secret false c = Some ((PV_OK, b), c1) -> b = holding password.

Lemma secret_positive confirm c b c1 : read_secret confirm c = Some ((PV_OK, b), c1) -> exists line, b = holding line /\ 0 < zlen line.
Proof.
  unfold read_secret. destruct (c_secrets c) as [| script rest]; [done |]. unfold on_sys. destruct (pv_secure_read_secret _ _ _ _) as [[[[st b1] t] |] s] eqn:E; [| done].
  intros [= -> -> _]. destruct (secret_is_typed_line _ _ _ _ _ _ _ E) as (line & _ & _ & -> & [_ Hl] & _). exists line. split; [done |]. lia.
Qed.

(** Opening the vault of the file. *)
Lemma open_from_file c st v h c' : typed_input c -> on_file (c_world c) -> types_password c -> open_password_vault path c = Some ((st, v, h), c') ->
  typed_input c' /\ same (c_world c) (c_world c') /\ (st = PV_OK -> from_file v h).
Proof.
  intros Hc Hf Hpw E. unfold open_password_vault in E. apply cbind_run in E as ([st1 b] & c1 & E1 & E). destruct (gives_read_secret _ _ _ _ Hc E1) as (Hc1 & S1 & _).
  destruct (is_ok st1) eqn:Est; cbn [negb] in E; [| injection E as <- <- <- <-; split_and!; [done | done |]; intros Hst; by rewrite Hst in Est].
  apply is_ok_iff in Est as ->. destruct (secret_positive _ _ _ _ E1) as (line & Eb & Hpos). rewrite (Hpw _ _ E1) in *.
  assert (line = password) as ->. { injection Eb as Ed El. unfold zlen in El. apply (f_equal (take (length password))) in Ed. rewrite take_app_length in Ed.
    assert (length line = length password) as Hl by lia. rewrite <- Hl, take_app_length in Ed. by symmetry. }
  apply cbind_run in E as ([[[st2 b2] v2] h2] & c2 & E2 & E). injection E as -> -> -> ->. unfold on_store in E2.
  pose proof (open_holding (c_world c1) header_zero Hpos) as Ho. destruct (pv_store_open_password_consume _ _ _ _ _) as [[[[st3 b3] v3] h3] w3]. injection E2 as -> -> -> -> <-.
  pose proof (file_opens (c_world c1) header_zero (file_same _ _ S1 Hf)) as Hfile. rewrite Ho in Hfile. destruct Hfile as (S2 & _ & Hff). split_and!; [done | | done]. etrans; [exact S1 | exact S2].
Qed.

(** What a vault file opens to. *)
Definition opens_to (w : world) (with_password : list Z) (records : list (pv_record (list Z))) (generation : Z) : Prop :=
  forall header0, let '((st, v, _), _) := pv_store_open_password path with_password header0 w in
  st = PV_OK /\ contents v = records /\ v_generation v = generation.

Lemma unchanged_opens w w' : on_file w -> same w w' -> opens_to w' password (contents v1) (v_generation v1).
Proof.
  intros Hf Hs header0. pose proof (file_opens w' header0 (file_same _ _ Hs Hf)) as Ho. destruct (pv_store_open_password _ _ _ _) as [[[st v] h] w2].
  destruct Ho as (_ & -> & [[_ Hcon Hgen _ _ _ _ _] _]). done.
Qed.

(** Saving a changed vault, then ending the command. *)
Lemma save_and_end {A} v h new_password retention c st v' h' c1 (m : C unit) (x y : A) c' :
  typed_input c -> on_file (c_world c) -> changed v h new_password -> 1 <= retention ->
  on_store (pv_store_save v h retention) c = Some ((st, v', h'), c1) -> gives m (fun _ => True) ->
  (_ ← m; _ ← destroy_if_open v'; mret x) c1 = Some (y, c') ->
  st = PV_OK /\ y = x /\ opens_to (c_world c') new_password (contents v) (u64 (v_generation v1 + 1)).
Proof.
  intros Hc Hf Hch Hret E Hm Em. unfold on_store in E. pose proof (changed_saved v h new_password retention _ Hf Hch Hret) as Hs.
  destruct (pv_store_save v h retention (c_world c)) as [[[st1 v2] h2] w1]. injection E as -> -> -> <-. destruct Hs as [-> Hs].
  destruct (gives_end m v' x Hm (set_c_world c w1) _ _ Hc Em) as (_ & S1 & ->). split_and!; [done | done |]. intros header0. apply (Hs _ header0 S1).
Qed.

(** Adding a record to the vault of the file. *)
Lemma added_changed w v h st source s v' s' draws : on_file w -> from_file v h -> sys_calm s -> record_ok source -> record_typed source ->
  pv_model_add_record draws v source s = (Some (st, v'), s') -> st = PV_OK ->
  changed v' h password /\ exists id now, contents v' = contents v1 ++ [stamped id now (record_map v_bytes source)].
Proof.
  intros Hf [[O1 O2 O3 O4 [O5 O6] (O7 & O8 & O9) O10 [O11 O12]] ->] Hs Hok Hty E ->.
  destruct (add_record_outcome _ _ _ _ _ _ _ O1 Hok Hty (proj2 Hs) E) as [[Hwf (M1 & M2 & M3 & M4 & M5 & M6 & M7) Hyes _] _].
  destruct (Hyes eq_refl) as (id & Hcon & _ & Hup & Hdirty). rewrite O2 in Hcon. split; [| by eexists id, _].
  assert (Hmeta : meta_ok v').
  { destruct (vf_meta _ _ _ _ _ _ _ _ _ _ Hf) as [G1 G2 G3 G4 G5 G6]. split; rewrite ?M3, ?M4, ?M2, ?O3, ?O5, ?O4; try done. rewrite Hup. apply (proj2 Hs). }
  split_and!; [| done | congruence | congruence | congruence | congruence]. exists recovery_key.
  split; [done | done | congruence | apply Hf | apply Hf | apply Hf | congruence].
Qed.

(** C2: adding a record is all or nothing, from the keyboard to the disk and back, on a
    calm system: no call to the file system fails during the run ([on_file] says so; with
    failures a save can end in [PV_ERR_DURABILITY] with the new file in place, which is
    what the properties of [StoreProps] are about). With a vault file that the typed
    password opens, every run of [add] that ends leaves a file that this password opens;
    it holds the records there were, followed, exactly when the run succeeded, by the
    record of the form that was filled in, one generation later. A run has no result in
    three cases only: it waits for the password, it waits for a field of the form, or the
    random identifiers drawn, [draws] of them, are all in use. *)
Theorem add_all_or_nothing (config : pv_config) (draws : nat) (c : cli)
    (Hpath : vault_path config = path) (Hret : 1 <= backup_retention config)
    (Hfile : on_file (c_world c)) (Htyped : typed_input c) (Hpw : types_password c) :
  match command_add draws config c with
  | None =>
      read_secret false c = None \/ exists v h c1, open_password_vault path c = Some ((PV_OK, v, h), c1) /\
        (collect_record c1 = None \/ exists source c2, collect_record c1 = Some ((PV_OK, source), c2) /\ on_sys (pv_model_add_record draws v source) c2 = None)
  | Some (st, c') =>
      if is_ok st then
        exists v h c1 c2 source id now, open_password_vault path c = Some ((PV_OK, v, h), c1) /\ collect_record c1 = Some ((PV_OK, source), c2) /\
          opens_to (c_world c') password (contents v1 ++ [stamped id now (record_map v_bytes source)]) (u64 (v_generation v1 + 1))
      else opens_to (c_world c') password (contents v1) (v_generation v1)
  end.
Proof.
  destruct (command_add draws config c) as [[st c'] |] eqn:E; [| rewrite <- Hpath; by apply add_waits]. unfold command_add in E. rewrite Hpath in E.
  apply cbind_run in E as ([[st1 v] h] & c1 & E1 & E). destruct (open_from_file _ _ _ _ _ Htyped Hfile Hpw E1) as (T1 & S1 & Hff).
  apply cbind_run in E as ([st2 source] & c2 & E2 & E).
  assert (Hform : typed_input c2 /\ same (c_world c1) (c_world c2) /\
    (st2 = PV_OK -> from_file v h /\ good_record (st2, source) /\ open_password_vault path c = Some ((PV_OK, v, h), c1) /\ collect_record c1 = Some ((PV_OK, source), c2))).
  { destruct (is_ok st1) eqn:Est1.
    - apply is_ok_iff in Est1 as ->. destruct (gives_collect_record _ _ _ T1 E2) as (T2 & S2 & Hg). split_and!; [done | done |]. intros ->. auto.
    - injection E2 as <- <- <-. split_and!; [done | reflexivity |]. intros ->. done. }
  destruct Hform as (T2 & S2 & Hform). assert (S12 : same (c_world c) (c_world c2)) by (by etrans).
  apply cbind_run in E as ([st3 v3] & c3 & E3 & E). destruct (is_ok st2) eqn:Est2.
  - apply is_ok_iff in Est2 as ->. destruct (Hform eq_refl) as (Hff' & Hg & Hopen & Hcollect). destruct (Hg eq_refl) as (Hok & Hty & _). clear Hform Hff.
    destruct (gives_sys _ (fun _ => True) (tame_add_record draws v source) ltac:(done) _ _ _ T2 E3) as (T3 & S3 & _). unfold on_sys in E3.
    destruct (pv_model_add_record draws v source (w_sys (c_world c2))) as [[r |] s3] eqn:Ea; [| done]. injection E3 as -> _.
    assert (F2 : on_file (c_world c2)) by (by eapply file_same). assert (F3 : on_file (c_world c3)) by (by eapply file_same).
    apply cbind_run in E as ([[st4 v4] h4] & c4 & E4 & E). destruct (is_ok st3) eqn:Est3.
    + apply is_ok_iff in Est3. destruct (added_changed _ _ _ _ _ _ _ _ _ F2 Hff' (calm_sys _ (vf_calm _ _ _ _ _ _ _ _ _ _ F2)) Hok Hty Ea Est3) as (Hch & id & now & Hcon).
      destruct (save_and_end _ _ _ _ _ _ _ _ _ _ _ _ _ T3 F3 Hch Hret E4 (gives_said _ _ _ (gives_ret tt _ I)) E) as (-> & -> & Ho). cbn [is_ok].
      rewrite Hcon in Ho. by exists v, h, c1, c2, source, id, now.
    + injection E4 as <- <- <- <-. destruct (gives_end _ _ _ (gives_said _ _ _ (gives_ret tt _ I)) _ _ _ T3 E) as (_ & S4 & ->). rewrite Est3.
      apply (unchanged_opens (c_world c)); [done |]. etrans; [exact S12 |]. by etrans.
  - injection E3 as <- <- <-. rewrite Est2 in E. apply cbind_run in E as ([[st4 v4] h4] & c4 & E4 & E). injection E4 as <- <- <- <-.
    destruct (gives_end _ _ _ (gives_said _ _ _ (gives_ret tt _ I)) _ _ _ T2 E) as (_ & S4 & ->). rewrite Est2.
    apply (unchanged_opens (c_world c)); [done |]. by etrans.
Qed.

(** A new password for the vault of the file. *)
Lemma rewrapped_changed w v h new s h' s' : on_file w -> from_file v h -> pv_crypto_rewrap_password h new (vmk_bytes v) s = ((PV_OK, h'), s') ->
  changed (set_vault_dirty v) h' new.
Proof.
  intros Hf [[O1 O2 O3 O4 [O5 O6] (O7 & O8 & O9) O10 [O11 O12]] ->] E. assert (vmk_bytes v = vmk) as Hvmk by (unfold vmk_bytes; by rewrite O8). rewrite Hvmk in E.
  pose proof (life_password vmk _ _ _ _ _ _ _ (vf_life _ _ _ _ _ _ _ _ _ _ Hf) E) as Hlife.
  destruct (lifecycle_inv _ _ _ _ (vf_vmk_bytes _ _ _ _ _ _ _ _ _ _ Hf) (vf_life _ _ _ _ _ _ _ _ _ _ Hf)) as (Hi & _).
  assert (Hid : h_vault_id h' = h_vault_id (disk_header disk)).
  { apply rewrap_password_ok in E as (p & -> & _); [done | apply Hi | exact (vf_vmk_bytes _ _ _ _ _ _ _ _ _ _ Hf)]. }
  destruct (vf_meta _ _ _ _ _ _ _ _ _ _ Hf) as [G1 G2 G3 G4 G5 G6].
  split_and!; try done. exists recovery_key. split; [by apply vault_wf_dirty | | done | apply Hf | apply Hf | done | cbn; congruence].
  split; cbn; rewrite ?O3, ?O4, ?O5, ?O6; done.
Qed.

Lemma tame_rewrap h new key : tame (pv_crypto_rewrap_password h new key).
Proof. unfold pv_crypto_rewrap_password. pose proof tame_key_alloc. solve_tame. Qed.

Lemma validate_run b c st c' : validate_new_master_password b c = Some (st, c') ->
  c_world c' = c_world c /\ (typed_input c -> typed_input c') /\ (st = PV_OK -> pv_master_password_is_acceptable (secret_bytes b) = true).
Proof. unfold validate_new_master_password. destruct (pv_master_password_is_acceptable _); intros E; injection E as <- <-; done. Qed.

(** C11: changing the master password is all or nothing on a calm system: no call to the
    file system fails during the run ([on_file] says so; with failures a save can end in
    [PV_ERR_DURABILITY] with the new file, and so the new password, in place). With a vault
    file that the typed password opens, every run of [passwd] that ends with success typed
    a new password twice that the policy accepts, and the file now opens with it to the
    records there were, one generation later; after any other run that ends the file opens
    with the old password as before. A run has no result only while it waits for one of
    the passwords. *)
Theorem passwd_all_or_nothing (config : pv_config) (c : cli)
    (Hpath : vault_path config = path) (Hret : 1 <= backup_retention config)
    (Hfile : on_file (c_world c)) (Htyped : typed_input c) (Hpw : types_password c) :
  match command_passwd config None c with
  | None => read_secret false c = None \/ exists v h c1, open_password_vault path c = Some ((PV_OK, v, h), c1) /\ read_secret true c1 = None
  | Some (st, c') =>
      if is_ok st then
        exists v h c1 c2 new, open_password_vault path c = Some ((PV_OK, v, h), c1) /\ read_secret true c1 = Some ((PV_OK, holding new), c2) /\
          pv_master_password_is_acceptable (Some new) = true /\ opens_to (c_world c') new (contents v1) (u64 (v_generation v1 + 1))
      else opens_to (c_world c') password (contents v1) (v_generation v1)
  end.
Proof.
  destruct (command_passwd config None c) as [[st c'] |] eqn:E; [| rewrite <- Hpath; by apply passwd_waits]. unfold command_passwd in E. rewrite Hpath in E.
  apply cbind_run in E as ([[st1 v] h] & c1 & E1 & E). destruct (open_from_file _ _ _ _ _ Htyped Hfile Hpw E1) as (T1 & S1 & Hff).
  apply cbind_run in E as ([st2 b] & c2 & E2 & E).
  assert (Hread : typed_input c2 /\ same (c_world c1) (c_world c2) /\ (st2 = PV_OK -> from_file v h /\ open_password_vault path c = Some ((PV_OK, v, h), c1) /\ read_secret true c1 = Some ((PV_OK, b), c2))).
  { destruct (is_ok st1) eqn:Est1.
    - apply is_ok_iff in Est1 as ->. destruct (gives_read_secret _ _ _ _ T1 E2) as (T2 & S2 & _). split_and!; [done | done |]. intros ->. auto.
    - injection E2 as <- <- <-. split_and!; [done | reflexivity |]. intros ->. done. }
  destruct Hread as (T2 & S2 & Hread). clear Hff E1 E2 T1. assert (S02 : same (c_world c) (c_world c2)) by (by etrans). clear S1 S2.
  apply cbind_run in E as (st3 & c3 & E3 & E).
  assert (Hvalid : typed_input c3 /\ same (c_world c) (c_world c3) /\
    (st3 = PV_OK -> from_file v h /\ open_password_vault path c = Some ((PV_OK, v, h), c1) /\ read_secret true c1 = Some ((PV_OK, b), c2) /\ pv_master_password_is_acceptable (secret_bytes b) = true)).
  { destruct (is_ok st2) eqn:Est2.
    - apply is_ok_iff in Est2 as ->. destruct (Hread eq_refl) as (? & ? & ?). destruct (validate_run _ _ _ _ E3) as (Ew & Ht & Hv). rewrite Ew. split_and!; auto.
    - injection E3 as <- <-. split_and!; [done | done |]. intros ->. done. }
  destruct Hvalid as (T3 & S3 & Hvalid). clear Hread E3 T2 S02. apply cbind_run in E as ([st4 h4] & c4 & E4 & E).
  assert (Hwrap : typed_input c4 /\ same (c_world c) (c_world c4) /\ (st4 = PV_OK -> exists new, open_password_vault path c = Some ((PV_OK, v, h), c1) /\ read_secret true c1 = Some ((PV_OK, holding new), c2) /\
    pv_master_password_is_acceptable (Some new) = true /\ changed (set_vault_dirty v) h4 new /\ contents v = contents v1)).
  { destruct (is_ok st3) eqn:Est3.
    - apply is_ok_iff in Est3. destruct (Hvalid Est3) as (Hff & Hopen & Hsecret & Hacc). destruct (secret_positive _ _ _ _ Hsecret) as (new & -> & _).
      destruct (gives_sys _ (fun _ => True) (tame_total _ (tame_rewrap h (default [] (secret_bytes (holding new))) (vmk_bytes v))) ltac:(done) _ _ _ T3 E4) as (T4 & S4 & _).
      assert (Eb : secret_bytes (holding new) = Some new) by (unfold secret_bytes, holding; cbn [b_data b_len]; by rewrite holding_bytes). rewrite Eb in *. cbn [default from_option id] in E4.
      split_and!; [done | by etrans |]. intros ->. exists new. do 3 (split; [done |]). unfold on_sys, total in E4. rewrite bind_run in E4.
      destruct (pv_crypto_rewrap_password h new (vmk_bytes v) (w_sys (c_world c3))) as [[st5 h5] s5] eqn:Er. injection E4 as -> -> _.
      split; [exact (rewrapped_changed _ _ _ _ _ _ _ Hfile Hff Er) | apply Hff].
    - injection E4 as <- <- <-. split_and!; [done | done |]. intros ->. done. }
  destruct Hwrap as (T4 & S4 & Hwrap). clear Hvalid E4 T3 S3. apply cbind_run in E as ([[st5 v5] h5] & c5 & E5 & E).
  assert (F4 : on_file (c_world c4)) by (by eapply file_same). destruct (is_ok st4) eqn:Est4.
  - apply is_ok_iff in Est4. destruct (Hwrap Est4) as (new & Hopen & Hsecret & Hacc & Hch & Hcon).
    destruct (save_and_end _ _ _ _ _ _ _ _ _ _ _ _ _ T4 F4 Hch Hret E5 (gives_said _ _ _ (gives_said _ _ _ (gives_ret tt _ I))) E) as (-> & -> & Ho). cbn [is_ok].
    exists v, h, c1, c2, new. split_and!; [done | done | done |]. change (contents (set_vault_dirty v)) with (contents v) in Ho. by rewrite Hcon in Ho.
  - injection E5 as <- <- <- <-. destruct (gives_end _ _ _ (gives_said _ _ _ (gives_said _ _ _ (gives_ret tt _ I))) _ _ _ T4 E) as (_ & S5 & ->). rewrite Est4.
    apply (unchanged_opens (c_world c)); [done |]. by etrans.
Qed.

(** ** A change that succeeds *)

(** At this terminal the line is typed, twice if asked, and no call fails. *)
Record enters (script : script) (confirm : bool) (line : list Z) : Prop := {
  en_open : i_open script = true;
  en_getattr : i_getattr script = true;
  en_sigaction n : i_sigaction script n = true;
  en_setattr : A_error ∉ i_setattr script;
  en_prompt i : prompt_printed script i = true;
  en_signal : i_signal script = 0;
  en_late : i_late script = 0;
  en_polls : quiet_polls (i_poll script);
  en_reads : quiet_reads (i_read script);
  en_line : acceptable_line line;
  en_typed : exists e rest, ends_line e = true /\ typed (i_read script) = line ++ e :: (if confirm then line ++ e :: rest else rest);
  en_ready : (if confirm then 2 else 1) * (zlen line + 1) <= ready (i_poll script)
}.

Lemma enters_secret c script scripts confirm line : sys_calm (w_sys (c_world c)) -> c_secrets c = script :: scripts -> enters script confirm line ->
  exists c1, read_secret confirm c = Some ((PV_OK, holding line), c1) /\ c_secrets c1 = scripts.
Proof.
  intros Hs Ec [E1 E2 E3 E4 E5 E6 E7 E8 E9 E10 (e & rest & E11 & E12) E13]. unfold read_secret. rewrite Ec. unfold on_sys.
  destruct (secret_can_be_entered script (c_terminal c) confirm line rest e (w_sys (c_world c)) Hs E1 E2 E3 E4 E5 E6 E7 E8 E9 E10 E11 E12 E13) as (t & s1 & -> & _). by eexists.
Qed.

Lemma line_hashable line : acceptable_line line -> 0 < zlen line <= crypto_pwhash_PASSWD_MAX.
Proof. intros [_ Hl]. unfold PV_SECRET_INPUT_MAX, crypto_pwhash_PASSWD_MAX in *. lia. Qed.

Lemma cbind_eq {A B} (m : C A) (f : A -> C B) c x c1 : m c = Some (x, c1) -> (m ≫= f) c = f x c1.
Proof. intros E. unfold mbind, C_bind. by rewrite E. Qed.

(** The password is typed and the vault opens. *)
Lemma opens_typed c script scripts : typed_input c -> on_file (c_world c) -> c_secrets c = script :: scripts -> enters script false password ->
  exists v h c1, open_password_vault path c = Some ((PV_OK, v, h), c1) /\ typed_input c1 /\ same (c_world c) (c_world c1) /\ from_file v h /\ c_secrets c1 = scripts.
Proof.
  intros Hc Hf Es He. destruct (enters_secret c script scripts false password (calm_sys _ (vf_calm _ _ _ _ _ _ _ _ _ _ Hf)) Es He) as (c1 & E1 & Es1).
  destruct (gives_read_secret _ _ _ _ Hc E1) as (Hc1 & S1 & _). unfold open_password_vault. rewrite (cbind_eq _ _ _ _ _ E1). cbn [is_ok negb].
  pose proof (open_holding (c_world c1) header_zero (proj1 (line_hashable _ (en_line _ _ _ He)))) as Ho. unfold mbind, C_bind, on_store.
  destruct (pv_store_open_password_consume _ _ _ _ _) as [[[[st b] v] h] w]. pose proof (file_opens (c_world c1) header_zero (file_same _ _ S1 Hf)) as Hopen.
  rewrite Ho in Hopen. destruct Hopen as (S2 & -> & Hff). exists v, h, (set_c_world c1 w). split_and!; [done | exact Hc1 | by etrans | done | done].
Qed.

(** C4: the master password can be changed: on a calm system, with memory for the
    password hash, when the right password is typed and then twice a new one that
    the policy accepts, however slowly, [passwd] returns [PV_OK] and the file opens
    with the new password to the records there were. *)
Theorem passwd_succeeds (config : pv_config) (c : cli) (new : list Z) (first second : script) (more : list script)
    (Hpath : vault_path config = path) (Hret : 1 <= backup_retention config)
    (Hfile : on_file (c_world c)) (Htyped : typed_input c) (Hscripts : c_secrets c = first :: second :: more)
    (Hfirst : enters first false password) (Hsecond : enters second true new)
    (Hpolicy : pv_master_password_is_acceptable (Some new) = true)
    (Hmemory : forall salt, is_Some (crypto_pwhash new salt PV_V1_PASSWORD_OPSLIMIT PV_V1_PASSWORD_MEMLIMIT)) :
  exists c', command_passwd config None c = Some (PV_OK, c') /\ opens_to (c_world c') new (contents v1) (u64 (v_generation v1 + 1)).
Proof.
  assert (Hcalm : forall w, on_file w -> sys_calm (w_sys w)) by (intros w Hw; exact (calm_sys _ (vf_calm _ _ _ _ _ _ _ _ _ _ Hw))).
  destruct (opens_typed c first (second :: more) Htyped Hfile Hscripts Hfirst) as (v & h & c1 & E1 & T1 & S1 & Hff & Hs1).
  pose proof (file_same _ _ S1 Hfile) as F1. destruct (enters_secret c1 second more true new (Hcalm _ F1) Hs1 Hsecond) as (c2 & E2 & _).
  destruct (gives_read_secret _ _ _ _ T1 E2) as (T2 & S2 & _). pose proof (file_same _ _ S2 F1) as F2.
  assert (Hb : secret_bytes (holding new) = Some new) by (unfold secret_bytes, holding; cbn [b_data b_len]; by rewrite holding_bytes).
  assert (Hkey : zlen (vmk_bytes v) = PV_WRAP_KEY_BYTES).
  { destruct Hff as [[_ _ _ _ _ (_ & O8 & _) _ _] _]. unfold vmk_bytes. rewrite O8. exact (vf_vmk_len _ _ _ _ _ _ _ _ _ _ F2). }
  destruct (rewrap_calm h new (vmk_bytes v) (w_sys (c_world c2)) (Hcalm _ F2) Hkey (line_hashable _ (en_line _ _ _ Hsecond)) Hmemory) as (h4 & s4 & E4 & _).
  assert (E4' : on_sys (total (pv_crypto_rewrap_password h new (vmk_bytes v))) c2 = Some ((PV_OK, h4), set_c_world c2 (with_sys (c_world c2) s4)))
    by (unfold on_sys, total; rewrite bind_run, E4; done).
  destruct (gives_sys _ (fun _ => True) (tame_total _ (tame_rewrap h new (vmk_bytes v))) ltac:(done) _ _ _ T2 E4') as (T4 & S4 & _).
  pose proof (file_same _ _ S4 F2) as F4. pose proof (rewrapped_changed _ _ _ _ _ _ _ F2 Hff E4) as Hch.
  unfold command_passwd. rewrite Hpath. rewrite (cbind_eq _ _ _ _ _ E1). cbn [is_ok]. rewrite (cbind_eq _ _ _ _ _ E2). cbn [is_ok]. unfold validate_new_master_password. rewrite Hb, Hpolicy.
  rewrite (cbind_eq _ _ c2 PV_OK c2 eq_refl). cbn [is_ok default from_option id]. rewrite (cbind_eq _ _ _ _ _ E4'). cbn [is_ok].
  match goal with |- exists c', ?m ?c0 = _ /\ _ => destruct (m c0) as [[st c'] |] eqn:E end.
  - apply cbind_run in E as ([[st5 v5] h5] & c5 & E5 & E).
    destruct (save_and_end _ _ _ _ _ _ _ _ _ _ _ _ _ T4 F4 Hch Hret E5 (gives_said _ _ _ (gives_said _ _ _ (gives_ret tt _ I))) E) as (-> & -> & Ho).
    exists c'. split; [done |]. change (contents (set_vault_dirty v)) with (contents v) in Ho. destruct Hff as [[_ Hcon _ _ _ _ _ _] _]. by rewrite Hcon in Ho.
  - exfalso. apply cbind_none in E as [E | ([[st5 v5] h5] & c5 & _ & E)]; [by apply store_some in E |]. apply end_some in E; [done |]. intros c6. by repeat split_if.
Qed.

End end_to_end.

(** ** Instances *)

(** [/home/v.pv] with the given contents. *)
Definition file_inode (bytes : list Z) : inode := mk_inode (32768 + 384) 1000 1 bytes true.
Definition file_fs (bytes : list Z) : fs := mk_fs {[ 1 := example_home; 2 := file_inode bytes ]} {[ 1 := example_entries ]} {[ 1 := example_entries ]}.
Definition file_world (bytes : list Z) : world := mk_world example_calm_sys example_kernel (file_fs bytes) 3 [].

(** The vault of the example, saved once more. *)
Definition filed_vault : pv_vault := set_generation_time example_open (u64 (v_generation example_open + 1)) 5.

Lemma file_world_ok bytes : world_ok (file_world bytes).
Proof.
  split; cbn [file_world w_fs w_next].
  - intros i n E. unfold file_fs in E. cbn [f_inodes] in E. apply lookup_insert_Some in E as [[<- _] | [_ E]]; [lia |]. apply lookup_singleton_Some in E as [<- _]. lia.
  - intros dd nm i (-> & -> & ->)%(example_entry dd nm i). lia.
  - intros dd nm i (-> & -> & ->)%(example_entry dd nm i). lia.
Qed.

Lemma filed_vault_sealed : exists header hb ct, file_image hb ct header /\ lifecycle example_vmk header [112; 119] (replicate 32 5) /\
  backup_id (h_vault_id header) 2 /\
  forall s, sys_calm s -> fst (pv_crypto_decrypt_body header example_vmk ct s) = (PV_OK, Some (encoding filed_vault)).
Proof.
  assert (Hnow : 0 <= 5 <= INT64_MAX) by done.
  destruct (session_sealable _ _ _ _ _ example_session 5 example_calm_sys Hnow example_calm) as (header & hb & ct & Eseal & _).
  destruct (seal_vault _ _ example_calm_sys) as [r s'] eqn:E. cbn [fst] in Eseal. subst r.
  pose proof (fun s0 Hs0 => sealed_opens _ _ _ _ _ _ _ _ _ _ _ s0 example_session Hnow Hs0 E) as Hopen. cbv zeta in Hopen. clear E.
  destruct (Hopen _ example_calm) as (Himage & Hlife & Hid & _). exists header, hb, ct. split; [exact Himage |]. split; [exact Hlife |].
  split; [destruct example_vault_id as (Hb & Hl & _); rewrite Hid; split_and!; [exact Hb | exact Hl | lia | unfold UINT64_MAX; lia] |].
  intros s Hs. exact (proj2 (proj2 (proj2 (Hopen s Hs)))).
Qed.

Lemma example_file : exists bytes disk, vault_file (file_world bytes) example_path 1 example_name bytes disk filed_vault example_vmk [112; 119] (replicate 32 5).
Proof.
  assert (Hnow : 0 <= 5 <= INT64_MAX) by done. destruct filed_vault_sealed as (header & hb & ct & Himage & Hlife & Hid & Hopen).
  destruct (image_disk (file_fs (hb ++ ct)) 1 example_name 2 (file_inode (hb ++ ct)) hb ct header ltac:(done) ltac:(done) ltac:(done) ltac:(done) Himage) as (disk & D & Dhb & Dct & Dh & _).
  destruct (next_vault_ok _ _ _ _ _ 5 example_session Hnow) as (Hwf & Hmeta & _). exists (hb ++ ct), disk. split.
  - apply file_world_ok.
  - split; [done | | done | exact example_calm]. intros n. repeat constructor; done.
  - split; reflexivity.
  - exists (cstr "/home"). split_and!; [done | done |]. exists example_home. by split_and!.
  - exists 2, (file_inode (hb ++ ct)). done.
  - by rewrite Dh.
  - done.
  - by apply Forall_replicate.
  - exact Hwf.
  - exact Hmeta.
  - intros s Hs. rewrite Dh, Dct. exact (Hopen s Hs).
  - done.
  - split; [done |]. intros i E1. exfalso. apply (example_entry 1 (lock_name example_name) i) in E1 as (_ & E1 & _). by apply eq_sym, lock_not_name in E1.
  - split; [done |]. intros v. destruct (entry _ 1 (temporary_name example_name v)) as [i |] eqn:E1; [| done]. apply (example_entry 1 (temporary_name example_name v) i) in E1 as (_ & E1 & _).
    by apply temporary_name_ne in E1.
  - done.
  - rewrite Dh. assert (Hb : forall b, entry (file_fs (hb ++ ct)) 1 (cstr "backups") <> Some b) by (intros b E1; apply (example_entry 1 (cstr "backups") b) in E1 as (_ & E1 & _); done).
    split_and!; [intros i E1; by apply Hb in E1 | done |]. exists (backup_name (h_vault_id header) 2). split; [exact (format_spec _ _ Hid) | intros b E1; by apply Hb in E1].
Qed.

(** The password is typed, then a form: a title and nothing else. *)
Definition add_start (bytes : list Z) : cli := cli_with (file_world bytes) [cstr "pw"] [cstr "mail"; []; cstr "g"; []; []; []; cstr "0"] [].
(** The password, then a new one twice. *)
Definition new_password : list Z := cstr "tidal lantern orchid gravel sphinx".
Definition passwd_start (bytes : list Z) : cli := cli_with (file_world bytes) [cstr "pw"; new_password ++ [10] ++ new_password] [] [].

Lemma bytes_check l : forallb (fun b => (0 <=? b) && (b <? 256)) l = true -> is_bytes l.
Proof. rewrite forallb_forall. intros Hl. apply Forall_forall. intros b Hb%Hl. unfold is_byte. lia. Qed.

Lemma passwd_typed bytes : typed_input (passwd_start bytes).
Proof.
  split; [| constructor]. unfold passwd_start, cli_with. cbn [c_secrets map]. constructor; [apply bytes_check; reflexivity |]. constructor; [apply bytes_check; reflexivity | constructor].
Qed.

Lemma pw_typed bytes secrets lines answers : types_password [112; 119] (cli_with (file_world bytes) (cstr "pw" :: secrets) lines answers).
Proof.
  intros b c1. unfold read_secret. cbn [cli_with c_secrets map]. unfold on_sys. destruct (pv_secure_read_secret _ _ _ _) as [[[[st b1] t] |] s] eqn:E; [| done].
  intros [= -> -> _]. destruct (secret_is_typed_line _ _ _ _ _ _ _ E) as (line & e & rest & -> & [Hline Hlen] & Ht & He & _). change (typed _) with [112; 119; 10] in Ht.
  destruct line as [| a [| b [| x line]]]; cbn [app] in Ht.
  - change (zlen []) with 0 in Hlen. lia.
  - injection Ht as _ <- _. discriminate He.
  - by injection Ht as <- <- _.
  - injection Ht as _ _ <- _. apply Forall_cons_iff in Hline as [_ Hline]. apply Forall_cons_iff in Hline as [_ Hline]. apply Forall_cons_iff in Hline as [Hline _]. discriminate Hline.
Qed.

Definition example_config : pv_config := mk_config example_path 10 300 20 false.

Lemma add_all_or_nothing_witness : exists bytes,
  match command_add 1 example_config (add_start bytes) with
  | None =>
      read_secret false (add_start bytes) = None \/ exists v h c1, open_password_vault example_path (add_start bytes) = Some ((PV_OK, v, h), c1) /\
        (collect_record c1 = None \/ exists source c2, collect_record c1 = Some ((PV_OK, source), c2) /\ on_sys (pv_model_add_record 1 v source) c2 = None)
  | Some (st, c') =>
      if is_ok st then
        exists v h c1 c2 source id now, open_password_vault example_path (add_start bytes) = Some ((PV_OK, v, h), c1) /\ collect_record c1 = Some ((PV_OK, source), c2) /\
          opens_to example_path (c_world c') [112; 119] (contents filed_vault ++ [stamped id now (record_map v_bytes source)]) (u64 (v_generation filed_vault + 1))
      else opens_to example_path (c_world c') [112; 119] (contents filed_vault) (v_generation filed_vault)
  end.
Proof.
  destruct example_file as (bytes & disk & Hfile). exists bytes.
  apply (add_all_or_nothing example_path 1 example_name bytes disk filed_vault example_vmk [112; 119] (replicate 32 5) example_config 1 (add_start bytes));
    [reflexivity | cbn; lia | exact Hfile | split; repeat constructor; done | apply pw_typed].
Defined.

Lemma passwd_all_or_nothing_witness : exists bytes,
  match command_passwd example_config None (passwd_start bytes) with
  | None => read_secret false (passwd_start bytes) = None \/ exists v h c1, open_password_vault example_path (passwd_start bytes) = Some ((PV_OK, v, h), c1) /\ read_secret true c1 = None
  | Some (st, c') =>
      if is_ok st then
        exists v h c1 c2 new, open_password_vault example_path (passwd_start bytes) = Some ((PV_OK, v, h), c1) /\ read_secret true c1 = Some ((PV_OK, holding new), c2) /\
          pv_master_password_is_acceptable (Some new) = true /\ opens_to example_path (c_world c') new (contents filed_vault) (u64 (v_generation filed_vault + 1))
      else opens_to example_path (c_world c') [112; 119] (contents filed_vault) (v_generation filed_vault)
  end.
Proof.
  destruct example_file as (bytes & disk & Hfile). exists bytes.
  apply (passwd_all_or_nothing example_path 1 example_name bytes disk filed_vault example_vmk [112; 119] (replicate 32 5) example_config (passwd_start bytes));
    [reflexivity | cbn; lia | exact Hfile | apply passwd_typed | apply pw_typed].
Defined.

Lemma secret_script_enters (confirm : bool) secret line : secret ++ [10] = line ++ 10 :: (if confirm then line ++ [10] else []) -> acceptable_line line -> enters (secret_script secret) confirm line.
Proof.
  intros E Hl. assert (Ht : typed (i_read (secret_script secret)) = secret ++ [10]).
  { unfold secret_script. cbn [i_read]. clear E. induction (secret ++ [10]) as [| b l IH]; [done |]. cbn [map]. unfold typed in *. cbn. by rewrite IH. }
  assert (Hr : ready (i_poll (secret_script secret)) = zlen secret + 1).
  { assert (Hall : forall n, filter (fun p : Z * poll_answer => snd p = P_ready) (replicate n (0, P_ready)) = replicate n (0, P_ready)).
    { induction n as [| n IH]; [done |]. cbn [replicate]. rewrite filter_cons_True by done. by f_equal. }
    unfold secret_script, ready, zlen. cbn [i_poll]. rewrite Hall, length_replicate. lia. }
  split; try done.
  - intros Hin. repeat (apply elem_of_cons in Hin as [Hin | Hin]; [done |]). by apply not_elem_of_nil in Hin.
  - intros i. unfold prompt_printed. cbn. by destruct i as [| [| i]].
  - unfold quiet_polls, secret_script. cbn [i_poll]. by apply Forall_replicate.
  - unfold quiet_reads, secret_script. cbn [i_read]. apply Forall_map, Forall_forall. by intros.
  - exists 10, []. split; [done |]. rewrite Ht, E. by destruct confirm.
  - rewrite Hr. apply (f_equal zlen) in E. destruct confirm; rewrite ?zlen_app, ?zlen_cons, ?zlen_app, ?zlen_cons, ?zlen_nil in E; lia.
Qed.

Lemma passwd_succeeds_witness : exists bytes c', command_passwd example_config None (passwd_start bytes) = Some (PV_OK, c') /\
  opens_to example_path (c_world c') new_password (contents filed_vault) (u64 (v_generation filed_vault + 1)).
Proof.
  destruct example_file as (bytes & disk & Hfile). exists bytes.
  apply (passwd_succeeds example_path 1 example_name bytes disk filed_vault example_vmk [112; 119] (replicate 32 5) example_config (passwd_start bytes) new_password
    (secret_script (cstr "pw")) (secret_script (new_password ++ [10] ++ new_password)) []).
  - reflexivity.
  - cbn. lia.
  - exact Hfile.
  - apply passwd_typed.
  - reflexivity.
  - apply secret_script_enters; [reflexivity |]. split; [repeat constructor | split; vm_compute; [reflexivity | discriminate]].
  - apply secret_script_enters; [reflexivity |]. split; [repeat constructor | split; vm_compute; [reflexivity | discriminate]].
  - vm_compute. reflexivity.
  - intros salt. eexists. reflexivity.
Defined.
