(* ===== verification/MemoryProps.v ===== *)
(** * The memory of vaults, over all commands

    Whatever the command and its outcome, every vault that goes out of scope was
    destroyed: what is left of it is erased, and its guarded blocks were given to
    [sodium_free]. *)

From stdpp Require Import gmap.
From S2P Require Import Prelude Status Util Sys Arena Model ModelFacts Cbor Crypto CryptoFacts Posix Recovery Config Secure Fs FsFacts Store StoreOps.
From S2P Require Import StoreFacts StoreReads StoreSave StoreCommit StoreSession StoreReopen.
From S2P Require Import VaultKept Ui Process Clipboard Rofi Cli Shell Commands Main CliFacts.
From S2P Require Import ReferenceSodium CborGrammar CborFacts CborProps CryptoProps StoreExample SecureProps CliExample CliProps Dialogue CommandProps.

(** ** Vaults that go out of scope *)

(** The vaults that went out of scope had given back their memory. *)
Definition cleans (c c' : cli) : Prop := exists vaults, c_left c' = vaults ++ c_left c /\ Forall given_back vaults.

#[global] Instance cleans_frame : Frame cleans.
Proof.
  split; try (by intros; exists []). split; [by intros c; exists [] |]. intros c1 c2 c3 (l & E & Hl) (l' & E' & Hl'). exists (l' ++ l).
  rewrite E', E, <- app_assoc, Forall_app. done.
Qed.

Section erasing.
Context `{Host} `{Sodium} `{Libcbor}.

Lemma cleans_store_with {A} (m : W A) (P : A -> Prop) : (forall w, P (fst (m w))) -> does cleans (on_store m) P.
Proof.
  intros HP c x c' E. unfold on_store in E. specialize (HP (c_world c)). destruct (m (c_world c)) as [y w]. injection E as <- <-.
  split; [by exists [] | done].
Qed.

Lemma cleans_store {A} (m : W A) : moves cleans (on_store m).
Proof. by apply cleans_store_with. Qed.

Lemma cleans_write_recovery path encoded vault_id : moves cleans (write_recovery path encoded vault_id).
Proof.
  intros c x c' E. unfold write_recovery in E. destruct (c_writes c); [done |]. destruct (on_sys _ c) as [[[st file] c1] |] eqn:Es; [| done].
  injection E as <- <-. split; [| done]. destruct (moves_sys cleans _ _ _ _ Es) as [Hc _]. exact Hc.
Qed.

Lemma cleans_remove_recovery path : moves cleans (remove_recovery path).
Proof.
  unfold remove_recovery. refine (moves_bind _ _ _ _ _); [auto with cli |]. intros []; [| auto with cli]. intros c x c' E. injection E as <- <-.
  split; [by exists [] | done].
Qed.

Lemma cleans_leave vault : erased vault -> moves cleans (leave vault).
Proof.
  intros Hv c x c' E. injection E as <- <-. split; [| done]. exists [mk_departed vault vault []]. split; [done |]. constructor; [| constructor].
  split; [done |]. symmetry. by apply erased_blocks.
Qed.

Lemma cleans_destroy vault : moves cleans (destroy vault).
Proof.
  intros c x c' E. unfold destroy, freed_blocks, depart, mbind, C_bind, on_sys, total in E. rewrite bind_run in E.
  destruct (model_destroy_run vault (w_sys (c_world c))) as (s1 & Er & Hf). rewrite Er in E. injection E as <- <-. split; [| done].
  eexists [_]. split; [reflexivity |]. constructor; [| constructor]. split; [apply erased_zero |]. cbn [d_freed d_before]. cbn. by rewrite Hf, drop_app_length.
Qed.

Lemma cleans_destroy_open vault : held vault -> moves cleans (destroy_if_open vault).
Proof.
  intros Hv. unfold destroy_if_open. destruct (a_base (v_arena vault)) eqn:E; [apply cleans_destroy |]. destruct Hv as [Hv | Hv]; [by rewrite Hv in E |].
  by apply cleans_leave.
Qed.
#[local] Hint Resolve cleans_store cleans_write_recovery cleans_remove_recovery cleans_leave cleans_destroy cleans_destroy_open : cli.

Definition opens (r : pv_status * pv_vault * pv_file_header) : Prop := opened_or_erased (fst r).

Lemma opens_held r : opens r -> held (snd (fst r)).
Proof. destruct r as [[st v] h]. unfold opens, opened_or_erased, held. cbn [fst snd]. destruct (is_ok st); auto. Qed.

Lemma opens_erased st v h : opens (st, v, h) -> is_ok st = false -> erased v.
Proof. unfold opens, opened_or_erased. cbn [fst snd]. intros Hv E. by rewrite E in Hv. Qed.

Lemma opens_zero st h : is_ok st = false -> opens (st, vault_zero, h).
Proof. intros E. unfold opens, opened_or_erased. cbn [fst snd]. by rewrite E. Qed.

(** The rest of a command after opening a vault. *)
Lemma does_open path : does cleans (open_password_vault path) opens.
Proof.
  unfold open_password_vault. cthen as [st password]. destruct (is_ok st) eqn:E; cbn [negb].
  - refine (does_bind _ _ _ _ _ _ _); [apply (cleans_store_with _ (fun r => opened_or_erased (fst (fst (fst r)), snd (fst r)))) |].
    + intros w. pose proof (open_password_held path password header_zero w) as Ho. by destruct (pv_store_open_password_consume _ _ _ _ w) as [[[[st1 b] v] h] w1].
    + intros [[[st1 b] v] h] Ho. by cret.
  - cret; by apply opens_zero.
Qed.

Lemma does_open_recovery path : does cleans (open_recovery_vault path) opens.
Proof.
  unfold open_recovery_vault. cthen as [[st encoded] key]. cthen as fd.
  cthen as [st1 hb]. cthen as [].
  destruct (if is_ok st1 then _ else _) as [st2 header]. cthen as [st3 key3].
  destruct (is_ok st3) eqn:E3; cbn [negb]; [| cret; by apply opens_zero].
  refine (does_bind _ _ _ _ _ _ _); [apply (cleans_store_with _ (fun r => opened_or_erased (fst (fst (fst r)), snd (fst r)))) |].
  - intros w. pose proof (open_recovery_held path key3 header w) as Ho. by destruct (pv_store_open_recovery_consume _ _ _ _ w) as [[[[st4 b] v] h] w1].
  - intros [[[st4 b] v] h] Ho. by cret.
Qed.

Lemma does_snapshot snapshot recovery_file : does cleans (open_authenticated_snapshot snapshot recovery_file) opens.
Proof.
  unfold open_authenticated_snapshot. cthen as [[st inspected] n].
  destruct (is_ok st) eqn:Est; cbn [negb]; [| cret; by apply opens_zero]. destruct recovery_file as [f |]; [| apply does_open].
  cthen as [[st1 encoded] key]. cthen as [st2 key2].
  destruct (is_ok st2) eqn:E2; cbn [negb]; [| cret; by apply opens_zero].
  refine (does_bind _ _ _ _ _ _ _); [apply (cleans_store_with _ (fun r => opened_or_erased (fst (fst (fst r)), snd (fst r)))) |].
  - intros w. pose proof (open_recovery_held snapshot key2 header_zero w) as Ho. by destruct (pv_store_open_recovery_consume _ _ _ _ w) as [[[[st4 b] v] h] w1].
  - intros [[[st4 b] v] h] Ho. by cret.
Qed.

(** The vault is open as long as nothing failed. *)
Definition gated (v : pv_vault) (st : pv_status) : Prop := held v /\ (is_ok st = true -> has_memory v).

Lemma opens_gated st v h : opens (st, v, h) -> gated v st.
Proof. unfold opens, opened_or_erased, gated, held. cbn [fst snd]. destruct (is_ok st); [by auto |]. intros Hv. split; [by right | done]. Qed.

Lemma does_either {A} (b : bool) (m : C A) (x : A) (P : A -> Prop) : (b = true -> does cleans m P) -> (b = false -> P x) -> does cleans (if b then m else mret x) P.
Proof. intros Hm Hx. destruct b; [by apply Hm |]. cret; by apply Hx. Qed.

(** A step taken only when nothing failed, with [st] among its results. *)
Lemma does_gated {A} (v : pv_vault) (st : pv_status) (m : C A) (x : A) (status : A -> pv_status) :
  gated v st -> moves cleans m -> status x = st -> does cleans (if is_ok st then m else mret x) (fun r => gated v (status r)).
Proof.
  intros [Hv Hst] Hm Hx. apply does_either.
  - intros E. refine (does_mono _ _ _ _ Hm _). intros y _. split; [done |]. intros _. by apply Hst.
  - intros E. rewrite Hx. by split.
Qed.

Tactic Notation "cgate" constr(v) constr(st) uconstr(status) constr(Hv) :=
  refine (does_bind _ _ _ _ _ (does_gated v st _ _ status Hv _ _) _); [solve_moves | reflexivity |].

(** Steps on the vault itself. *)
Lemma does_add fuel v st source : gated v st ->
  does cleans (if is_ok st then on_sys (pv_model_add_record fuel v source) else mret (st, v)) (fun r => gated (snd r) (fst r)).
Proof.
  intros [Hv Hst]. apply does_either; [| by split]. intros E. apply (does_sys cleans). intros s [st' v'] s' Ea%add_record_base.
  assert (has_memory v') by (unfold has_memory; rewrite Ea; by apply Hst). split; [by left | done].
Qed.

Lemma does_delete v st (more : bool) i : gated v st ->
  does cleans (if is_ok st && more then on_sys (total (pv_model_delete v i)) else mret (st, v)) (fun r => gated (snd r) (fst r)).
Proof.
  intros [Hv Hst]. apply does_either; [| by split]. intros E. apply andb_true_iff in E as [E _]. apply (does_sys cleans). intros s [st' v'] s' Ed.
  unfold total in Ed. rewrite bind_run in Ed. pose proof (delete_base v i s) as Hb. destruct (pv_model_delete v i s) as [[st1 v1] s1]. injection Ed as <- <- _.
  assert (has_memory v1) by (unfold has_memory; cbn in Hb; rewrite Hb; by apply Hst). split; [by left | done].
Qed.

Definition saves (r : pv_status * pv_vault * pv_file_header) : Prop := held (snd (fst r)).

Lemma does_save v v0 st (b : bool) h h0 retention : gated v0 st -> a_base (v_arena v) = a_base (v_arena v0) -> (b = true -> is_ok st = true) ->
  does cleans (if b then on_store (pv_store_save v h retention) else mret (st, v0, h0)) saves.
Proof.
  intros [Hv Hst] Hb Hok. apply does_either; [| done]. intros E. apply cleans_store_with. intros w. left. unfold has_memory. rewrite save_base, Hb. by apply Hst, Hok.
Qed.

Lemma moves_then_open {B} (m : C (pv_status * pv_vault * pv_file_header)) (f : pv_status * pv_vault * pv_file_header -> C B) :
  does cleans m opens -> (forall st v h, opens (st, v, h) -> moves cleans (f (st, v, h))) -> moves cleans (m ≫= f).
Proof. intros Hm Hf. refine (does_bind _ _ _ _ _ Hm _). intros [[st v] h]. apply Hf. Qed.

Lemma does_open_if st path h : does cleans (if is_ok st then open_password_vault path else mret (st, vault_zero, h)) opens.
Proof. apply does_either; [intros _; apply does_open | apply opens_zero]. Qed.

Context (stdin_tty stdout_tty : bool) (environ : list (list Z)) (input : list Z) (draws : nat).

Lemma cleans_init config argv : moves cleans (command_init config argv).
Proof. unfold command_init. solve_moves. Qed.

Lemma cleans_add config : moves cleans (command_add draws config).
Proof.
  unfold command_add. refine (moves_then_open _ _ (does_open _) _). intros st v h Ho%opens_gated.
  cgate v st fst Ho. intros [st1 source] H1'.
  refine (does_bind _ _ _ _ _ (does_add draws v st1 source H1') _). intros [st2 v2] H2.
  refine (does_bind _ _ _ _ _ (does_save v2 v2 st2 _ h h _ H2 eq_refl id) _). intros [[st3 v3] h3] H3. cbv zeta. cthen as []. cthen as []. by cret.
Qed.

Lemma cleans_remove config : moves cleans (command_remove config).
Proof.
  unfold command_remove. refine (moves_then_open _ _ (does_open _) _). intros st v h Ho%opens_gated.
  cgate v st fst Ho. intros [st1 selected] H1'. cbn [fst] in H1'. cbv zeta.
  refine (does_bind _ _ _ (gated v) _ _ _).
  { destruct (the_record v selected) as [[i r] |]; [refine (does_gated v st1 _ _ (fun st => st) H1' _ _); [auto with cli | done] |]. cret. destruct H1' as [Hv Hst].
    split; [done |]. destruct (is_ok st1) eqn:E1; [done | by rewrite E1]. }
  intros st2 H2. cgate v st2 fst H2. intros [st3 confirmed] H3. cthen as [].
  refine (does_bind _ _ _ _ _ (does_delete v st3 _ selected H3) _). intros [st4 v4] H4. cbn [fst snd] in H4.
  refine (does_bind _ _ _ _ _ (does_save v4 v4 st4 _ h h _ H4 eq_refl _) _); [by intros [? _]%andb_true_iff |]. intros [[st5 v5] h5] H5. unfold saves in H5. cbn [fst snd] in H5. solve_moves.
Qed.

Lemma cleans_edit config : moves cleans (command_edit config).
Proof.
  unfold command_edit. refine (moves_then_open _ _ (does_open _) _). intros st v h Ho. destruct (is_ok st) eqn:E; cbn [negb]; [solve_moves |].
  pose proof (opens_erased _ _ _ Ho E). solve_moves.
Qed.

Lemma cleans_list config redirect : moves cleans (command_list stdout_tty config redirect).
Proof.
  unfold command_list. cthen as st0. refine (moves_then_open _ _ (does_open_if _ _ _) _). intros st v h Ho. destruct (is_ok st) eqn:E; cbn [negb]; [solve_moves |].
  pose proof (opens_erased _ _ _ Ho E). solve_moves.
Qed.

Lemma cleans_show config redirect : moves cleans (command_show stdout_tty config redirect).
Proof. unfold command_show. cthen as st0. refine (moves_then_open _ _ (does_open_if _ _ _) _). intros st v h Ho%opens_held. cbn [fst snd] in Ho. solve_moves. Qed.

Lemma cleans_copy config field ttl : moves cleans (command_copy config field ttl).
Proof.
  unfold command_copy. cthen as [st0 job]. destruct (negb _); [solve_moves |]. refine (moves_then_open _ _ (does_open _) _). intros st v h Ho%opens_held.
  cbn [fst snd] in Ho. solve_moves.
Qed.

Lemma cleans_pick config copy rofi redirect : moves cleans (command_pick stdout_tty environ config copy rofi redirect).
Proof.
  unfold command_pick. cthen as st0. destruct (negb _); [solve_moves |]. cthen as [st1 job]. destruct (negb _); [solve_moves |]. cthen as [st2 selector].
  destruct (negb _); [solve_moves |]. refine (moves_then_open _ _ (does_open _) _). intros st v h Ho%opens_held. cbn [fst snd] in Ho. solve_moves.
Qed.

Lemma cleans_generate length ttl : moves cleans (command_generate length ttl).
Proof. unfold command_generate. solve_moves. Qed.

Lemma cleans_passwd config recovery_file : moves cleans (command_passwd config recovery_file).
Proof.
  unfold command_passwd. refine (moves_then_open _ _ _ _); [destruct recovery_file; [apply does_open_recovery | apply does_open] |]. intros st v h Ho%opens_gated.
  cgate v st fst Ho. intros [st1 password] H1'. cbn [fst] in H1'.
  cgate v st1 (fun st => st) H1'. intros st2 H2.
  cgate v st2 fst H2. intros [st3 h3] H3. cbn [fst] in H3.
  refine (does_bind _ _ _ _ _ (does_save (set_vault_dirty v) v st3 _ h3 h3 _ H3 eq_refl id) _). intros [[st4 v4] h4] H4. unfold saves in H4. cbn [fst snd] in H4. solve_moves.
Qed.

Lemma cleans_rotate config output : moves cleans (command_recovery_rotate config output).
Proof.
  unfold command_recovery_rotate. cthen as [st0 k]. cthen as st1. refine (moves_then_open _ _ (does_open_if _ _ _) _). intros st v h Ho%opens_gated.
  cgate v st (fun r => fst (fst r)) Ho. intros [[st2 key] encoded] H2. cbn [fst] in H2.
  cgate v st2 (fun st => st) H2. intros st3 H3. cbv zeta.
  cgate v st3 fst H3. intros [st4 h4] H4. cbn [fst] in H4.
  refine (does_bind _ _ _ _ _ (does_save (set_vault_dirty v) v st4 _ h4 h4 _ H4 eq_refl id) _). intros [[st5 v5] h5] H5. unfold saves in H5. cbn [fst snd] in H5. solve_moves.
Qed.

Lemma cleans_backup config output : moves cleans (command_backup config output).
Proof. unfold command_backup. refine (moves_then_open _ _ (does_open _) _). intros st v h Ho%opens_held. cbn [fst snd] in Ho. solve_moves. Qed.

Lemma cleans_restore config backup : moves cleans (command_restore config backup).
Proof. unfold command_restore. refine (moves_then_open _ _ (does_open _) _). intros st v h Ho%opens_held. cbn [fst snd] in Ho. solve_moves. Qed.

Lemma cleans_rescue_verify snapshot recovery_file redirect : moves cleans (command_rescue_verify stdout_tty snapshot recovery_file redirect).
Proof.
  unfold command_rescue_verify, print_snapshot_identity. cthen as st0. refine (moves_then_open _ _ _ _).
  { apply does_either; [intros _; apply does_snapshot | apply opens_zero]. }
  intros st v h Ho%opens_held. cbn [fst snd] in Ho. solve_moves.
Qed.

Lemma cleans_rescue_copy snapshot output recovery_file rollback : moves cleans (command_rescue_copy snapshot output recovery_file rollback).
Proof. unfold command_rescue_copy. refine (moves_then_open _ _ (does_snapshot _ _) _). intros st v h Ho%opens_held. cbn [fst snd] in Ho. solve_moves. Qed.

Lemma cleans_doctor config : moves cleans (command_doctor config).
Proof. unfold command_doctor. cthen as [st0 m]. cthen as []. refine (moves_then_open _ _ (does_open_if _ _ _) _). intros st v h Ho%opens_held. cbn [fst snd] in Ho. solve_moves. Qed.

Lemma cleans_shell_command vault job ready command argument : moves cleans (shell_command vault job ready command argument).
Proof. unfold shell_command. solve_moves. Qed.
#[local] Hint Resolve cleans_shell_command : cli.

Lemma cleans_shell_loop fuel config vault job ready text : moves cleans (shell_loop fuel config vault job ready text).
Proof. revert text. induction fuel as [| fuel IH]; intros text; [by intros c x c' E |]. cbn [shell_loop]. unfold shell_turn. solve_moves. Qed.
#[local] Hint Resolve cleans_shell_loop : cli.

Lemma cleans_shell config : moves cleans (pv_shell_run stdin_tty stdout_tty config input).
Proof.
  unfold pv_shell_run. destruct (_ || _); [solve_moves |]. cthen as [st0 job]. cbv zeta. refine (moves_then_open _ _ (does_open _) _). intros st v h Ho.
  destruct (is_ok st) eqn:E; cbn [negb]; [solve_moves |]. pose proof (opens_erased _ _ _ Ho E). solve_moves.
Qed.

#[local] Hint Resolve cleans_init cleans_add cleans_remove cleans_edit cleans_list cleans_show cleans_copy cleans_pick cleans_generate cleans_passwd : cli.
#[local] Hint Resolve cleans_rotate cleans_backup cleans_restore cleans_rescue_verify cleans_rescue_copy cleans_doctor cleans_shell : cli.

Lemma cleans_main initialized argv : moves cleans (main stdin_tty stdout_tty environ input draws initialized argv).
Proof.
  assert (Hrun : forall config command argv, moves cleans (run_command stdin_tty stdout_tty environ input draws config command argv)).
  { intros. unfold run_command, redirect_option, parse_rescue_command, parse_rollback_command, rescue_copy_with, command_rescue_inspect, command_config_check. solve_moves. }
  assert (Hword : forall config command argv, moves cleans (run_word stdin_tty stdout_tty environ input draws config command argv)).
  { intros. unfold run_word, usage_of. solve_moves. }
  unfold main, main_config, pv_cli_run. solve_moves.
Qed.

End erasing.

Section main.
Context `{Host} `{Sodium} `{Libcbor}.
Context (stdin_tty stdout_tty : bool) (environ : list (list Z)) (input : list Z) (draws : nat).


End main.

(** ** A run that opens a vault *)

(** No vault went out of scope. *)
Definition nothing_left (c c' : cli) : Prop := c_left c' = c_left c.

#[global] Instance nothing_left_frame : Frame nothing_left.
Proof. split; try done. split; [done |]. intros c1 c2 c3 E1 E2. unfold nothing_left in *. congruence. Qed.

Section verified.
Context `{Host} {S : Sodium} {Laws : SodiumLaws S} {Total : SodiumTotal S} {L : Libcbor} {CborLaws : LibcborLaws L}.
Context (path : list Z) (d : Z) (name old : list Z) (disk : pv_disk_file) (v1 : pv_vault) (vmk password recovery_key : list Z).
#[local] Abbreviation at_file := (on_file path d name old disk v1 vmk password recovery_key).

Lemma inspect_file w : at_file w -> exists h n w1, pv_store_inspect path w = ((PV_OK, h, n), w1) /\ same w w1.
Proof.
  intros [_ F2 _ F4 (i & n & D & _) _ _ _ _ _ _ _ _ _ _ _].
  assert (Hread : wp (fun _ => True) (read_disk_file path) (fun r w1 => same w w1 /\ fst r = PV_OK) w).
  { apply wp_read_disk_file; [| by intros]. intros st w1 _ _ _ Hno. by destruct (Hno F2 _ _ _ _ _ F4 D). }
  unfold pv_store_inspect, mbind, W_bind. destruct (read_disk_file path w) as [[st dk] w1] eqn:E. destruct (wp_run _ _ _ _ _ _ Hread E) as (_ & _ & S1 & Hst).
  cbn [fst] in Hst. subst st. cbn [is_ok negb]. by eexists _, _, _.
Qed.

(** A snapshot that is verified with its password: the vault was open, with its
    key, and is destroyed at the end. *)
Lemma verify_run c script scripts : typed_input c -> at_file (c_world c) -> c_secrets c = script :: scripts -> enters script false password ->
  exists v freed c', command_rescue_verify true path None false c = Some (PV_OK, c') /\ v_vmk v = Some vmk /\ has_memory v /\
    c_left c' = mk_departed v vault_zero freed :: c_left c.
Proof.
  intros Hc Hf Hs He. destruct (inspect_file _ Hf) as (h0 & n & w1 & E1 & S1). set (c1 := set_c_world c w1).
  assert (Hc1 : typed_input c1) by exact Hc. assert (Hf1 : at_file (c_world c1)) by by eapply file_same.
  destruct (opens_typed path d name old disk v1 vmk password recovery_key c1 script scripts Hc1 Hf1 Hs He) as (v & h & c2 & E2 & _ & _ & [Ho _] & _).
  assert (Hleft : c_left c2 = c_left c).
  { assert (Hm : moves nothing_left (open_password_vault path)); [| by destruct (Hm _ _ _ E2)].
    unfold open_password_vault. assert (forall A (m : W A), moves nothing_left (on_store m)); [| solve_moves].
    intros A m c3 x c4 E. unfold on_store in E. destruct (m _). injection E as _ <-. done. }
  destruct (does_open path _ _ _ E2) as [_ Hopen]. unfold opens, opened_or_erased in Hopen. cbn [fst snd is_ok] in Hopen.
  destruct Ho as [_ _ _ _ _ (_ & Hkey & _) _ _]. destruct (model_destroy_run v (w_sys (c_world c2))) as (s3 & E3 & _).
  exists v. eexists _, _. split_and!; [| done | done |].
  - unfold command_rescue_verify, require_private_output, open_authenticated_snapshot, print_snapshot_identity. cbn [orb is_ok]. unfold mbind at 1, C_bind at 1. cbn [mret C_ret is_ok].
    erewrite cbind_eq. 2: { unfold mbind, C_bind, on_store. rewrite E1. cbn [is_ok negb]. exact E2. }
    cbn [is_ok]. erewrite cbind_eq; [| reflexivity]. unfold destroy_if_open. rewrite Hopen. unfold destroy, freed_blocks, depart, mbind, C_bind, on_sys, total. rewrite bind_run.
    cbn [set_c_output c_world]. rewrite E3. reflexivity.
  - cbn. by rewrite Hleft.
Qed.

End verified.

(** [pvault rescue verify /home/v.pv], with the right password. *)
Definition opening_argv : list (list Z) := [cstr "pvault"; cstr "rescue"; cstr "verify"; example_path].

Lemma opening_is_verify c : main true true example_environ [] 0 PV_OK opening_argv c =
  (status ← command_rescue_verify true example_path None false; _ ← report_error opening_argv status false; mret (pv_status_exit_code status)) c.
Proof. reflexivity. Qed.

