(* ===== verification/InitProps.v ===== *)
(** * Creating a vault, end to end

    [pv_store_create] gives up no file whatever happens, and on a calm system
    [init] leads from the password typed twice to a vault file that opens with it
    and to a recovery file whose text opens it too. *)

From stdpp Require Import gmap.
From S2P Require Import Prelude Status Util Sys ReferenceSodium Arena Model ModelFacts ModelInv ModelProps Cbor CborFacts CborProps Crypto CryptoFacts CryptoProps.
From S2P Require Import Posix Recovery RecoveryFacts RecoveryProps Config Secure SecureProps Fs FsFacts Store StoreOps StoreFacts StoreReads StoreSave StoreNames.
From S2P Require Import StoreCommit StoreSession StoreReopen StoreCreate StoreExample StoreProps Ui UiProps Process Clipboard Rofi Cli Shell Commands CliFacts CliExample CliProps.
From S2P Require Import Dialogue CommandProps.

(** ** Whatever fails *)

(** C9: creating a vault gives up nothing: whatever call fails and wherever the
    machine stops, every file there was, under whatever name, is what readers of
    the name and the disk after a crash show at every moment of
    [pv_store_create], and it is there unchanged at the end. *)
Theorem create_gives_up_nothing `{Host} `{Sodium} `{Libcbor} (path password recovery_key : list Z) (vault : pv_vault) (w : world)
    (d : Z) (name bytes : list Z) (Hok : world_ok w) (Hfile : settled (w_fs w) d name (Some bytes)) :
  let '((st, vault'), w') := pv_store_create path password recovery_key vault w in
  world_ok w' /\ atomic_between w w' d name (Some bytes) (Some bytes) /\ settled (w_fs w') d name (Some bytes).
Proof.
  unfold pv_store_create, mbind, W_bind. pose proof (growing_create path password recovery_key None vault w Hok) as Hwp.
  destruct (create_common path password recovery_key None vault w) as [r w'] eqn:E. destruct (wp_run _ _ _ _ _ _ Hwp E) as (T & _ & [Hok' _ Hx]). cbn [fst snd].
  assert (Hkept : forall g, extends none (w_fs w) g -> settled g d name (Some bytes)) by (intros g Hg; eapply settled_extends; [exact Hg | by intros [] | done]).
  split_and!; [done | | by apply Hkept]. apply through_atomic. eapply through_mono; [| exact T]. intros g Hg. by apply settled_between_l, Hkept.
Qed.

(** ** On a calm system *)

(** The random generator does not give sixteen zeros in a row. *)
Definition diverse (s : sys) : Prop := forall i, exists j, (j < 16)%nat /\ u8 (s_rand s (i + j)) <> 0.

Lemma diverse_later s s' : later s s' -> diverse s -> diverse s'.
Proof. intros [_ _ _ _ [k Hk]] Hs i. destruct (Hs (k + i)%nat) as (j & Hj & Hne). exists j. split; [done |]. rewrite Hk. by rewrite Nat.add_assoc. Qed.

Lemma diverse_fresh s : diverse s -> fresh_identifiers s.
Proof. intros Hs. split; [destruct (Hs 0%nat) as (j & ?) | destruct (Hs 16%nat) as (j & ?)]; by exists j. Qed.

(** The recovery file can be written: the directory is the user's, and no call
    fails. *)
Definition accepts_file (euid : Z) (io : write_file_io) (path : list Z) : Prop :=
  fsync_parent_path euid path (wf_parent_before io) = PV_OK /\ wf_open io = true /\ benign (wf_sched io) /\ wf_fsync io = true /\
  wf_close io = true /\ fsync_parent_path euid path (wf_parent_after io) = PV_OK.

Lemma hex_length l : zlen (concat (map hex_digits l)) = 2 * zlen l.
Proof. induction l as [| b l IH]; [done |]. cbn [map concat]. rewrite zlen_app, IH, zlen_cons. change (zlen (hex_digits b)) with 2. lia. Qed.

Lemma write_file_accepted euid io path encoded vault_id s : accepts_file euid io path -> allocs_ok 1 s -> zlen vault_id = PV_VAULT_ID_BYTES -> zlen encoded = 76 ->
  exists s', pv_recovery_write_file euid io path encoded vault_id None s = (Some (PV_OK, Some (recovery_file_content (concat (map hex_digits vault_id)) encoded)), s') /\ later s s'.
Proof.
  intros (A1 & A2 & A3 & A4 & A5 & A6) Hs Hl He. unfold pv_recovery_write_file. cbv zeta. rewrite A1. cbn [is_ok negb]. destruct (secure_alloc_ok _ _ Hs) as (s1 & E1 & _).
  assert (later s s1) as Hlater by (assert (Ht : tame recovery_secure_alloc) by (unfold recovery_secure_alloc; solve_tame); specialize (Ht s); by rewrite E1 in Ht).
  rewrite bind_run, E1, A2. cbn [negb]. unfold pv_hex_encode. change (PV_VAULT_ID_BYTES * 2 + 1) with 33. rewrite Hl. change (33 =? 0) with false. change ((33 - 1) / 2 <? PV_VAULT_ID_BYTES) with false.
  cbn [default from_option id]. set (content := recovery_file_content _ encoded). exists s1.
  assert (zlen content < 512) as Hlen.
  { unfold content, recovery_file_content. rewrite !zlen_app, hex_length, Hl, He. by vm_compute. }
  replace (512 <=? zlen content) with false by lia. destruct (write_all_spec (mk_wfd [] (wf_sched io)) content) as (st & fd & a & rest & -> & Hw & Hd & Hst).
  destruct Hst as [[-> ->] | [_ Hb]]; [| by destruct Hb]. rewrite app_nil_r in Hw. subst a. cbn [w_data app] in Hd. rewrite Hd, A4, A5, A6. done.
Qed.

Lemma run_total {A} (m : M A) c x s : m (w_sys (c_world c)) = (x, s) -> on_sys (total m) c = Some (x, set_c_world c (with_sys (c_world c) s)).
Proof. intros E. unfold on_sys, total. by rewrite bind_run, E. Qed.

Lemma buffer_calm n s : sys_calm s -> 0 < n <= PV_MAX_PLAINTEXT ->
  exists s', pv_secure_buffer_alloc buffer_zero n s = ((PV_OK, mk_buffer (Some (zeros n)) n true), s') /\ later s s'.
Proof.
  intros Hs Hn. pose proof (tame_malloc s) as T1. unfold pv_secure_buffer_alloc. replace (n =? 0) with false by lia. replace (PV_MAX_PLAINTEXT <? n) with false by lia. cbn [orb].
  rewrite bind_run. destruct (sys_calm_malloc _ Hs) as (s1 & E1 & Hs1). rewrite E1 in *. cbn [negb snd] in *. rewrite bind_run. pose proof (tame_mlock s1) as T2.
  destruct (sys_calm_mlock _ Hs1) as (s2 & E2 & _). rewrite E2 in *. cbn [negb snd] in *. exists s2. split; [done | by etrans].
Qed.

Section init.
Context `{Host} {S : Sodium} {Laws : SodiumLaws S} {Total : SodiumTotal S} {L : Libcbor} {CborLaws : LibcborLaws L}.

Lemma types_secret c script scripts confirm line : sys_calm (w_sys (c_world c)) -> c_secrets c = script :: scripts -> enters script confirm line ->
  exists t s, read_secret confirm c = Some ((PV_OK, holding line), set_c_secret (set_c_world c (with_sys (c_world c) s)) t scripts) /\ later (w_sys (c_world c)) s.
Proof.
  intros Hs Ec [E1 E2 E3 E4 E5 E6 E7 E8 E9 E10 (e & rest & E11 & E12) E13]. unfold read_secret. rewrite Ec. unfold on_sys.
  pose proof (tame_read_secret script (c_terminal c) confirm (w_sys (c_world c))) as Ht.
  destruct (secret_can_be_entered script (c_terminal c) confirm line rest e (w_sys (c_world c)) Hs E1 E2 E3 E4 E5 E6 E7 E8 E9 E10 E11 E12 E13) as (t & s1 & Er & _). rewrite Er in *. by exists t, s1.
Qed.

Lemma with_sys_create w s path d name : can_create w path d name -> can_create (with_sys w s) path d name.
Proof. intros []. by split. Qed.

Lemma with_sys_calm w s : calm w -> sys_calm s -> calm (with_sys w s).
Proof. intros [C1 C2 C3 C4] Hs. by split. Qed.

(** The vault at the path opens with the credential, empty. *)
Definition opens_new (r : pv_status * pv_vault * pv_file_header) (vault_id : list Z) : Prop :=
  let '(st, v, _) := r in st = PV_OK /\ contents v = [] /\ v_generation v = 1 /\ v_vault_id v = vault_id /\ vault_wf v.

(** The store creates a vault that opens with both credentials. *)
Lemma create_opens path password recovery_key d name w :
  world_ok w -> calm w -> can_create w path d name -> fresh_identifiers (w_sys w) -> 0 < zlen password <= PV_SECRET_INPUT_MAX ->
  (forall salt, is_Some (crypto_pwhash password salt PV_V1_PASSWORD_OPSLIMIT PV_V1_PASSWORD_MEMLIMIT)) -> zlen recovery_key = PV_RECOVERY_KEY_BYTES ->
  exists vault w', pv_store_create_consume path (holding password) recovery_key vault_zero w = ((PV_OK, Some buffer_zero, vault), w') /\ calm w' /\
    zlen (v_vault_id vault) = PV_VAULT_ID_BYTES /\ is_bytes (v_vault_id vault) /\
    forall w2 header0, same w' w2 -> opens_new (fst (pv_store_open_password path password header0 w2)) (v_vault_id vault) /\
      opens_new (fst (pv_store_open_recovery path recovery_key header0 w2)) (v_vault_id vault).
Proof.
  intros Hok Hc Hcan Hfresh Hpw Hhash Hrk.
  destruct (create_calm path password recovery_key (Some (holding password)) vault_zero d name w Hok Hc Hcan Hfresh) as
    (v & h & vmk & w1 & new & v' & h' & w' & Hss & Hcon & Hpath & Hgen & Hc1 & Hout & Hl & Hc' & E); [unfold PV_SECRET_INPUT_MAX, crypto_pwhash_PASSWD_MAX in *; lia | done |].
  exists v', w'. assert (Hsaved : vault_saved v v' new) by (by apply (so_saved _ _ _ _ _ _ _ _ _ _ _ Hout)). destruct Hsaved as [_ _ _ _ (I1 & _) _].
  destruct (lifecycle_inv _ _ _ _ (ss_vmk_bytes _ _ _ _ _ Hss) (ss_life _ _ _ _ _ Hss)) as (Hi & _). destruct (ht_vault_id _ (io_typed _ Hi)) as [Hidl Hidb].
  rewrite (ss_identity _ _ _ _ _ Hss) in Hidl, Hidb. rewrite I1. split_and!; try done.
  - unfold pv_store_create_consume, holding. cbn [b_data b_len b_secure]. replace (zlen password =? 0) with false by lia. cbn [orb negb]. rewrite holding_bytes. exact E.
  - intros w2 header0 S2. rewrite <- Hpath in Hl |- *.
    destruct (saved_opens w1 d name v h header0 h' v' true PV_DEFAULT_BACKUP_RETENTION None new w' vmk password recovery_key w2 Hss Hout Hc1 Hc' Hl S2) as [Ho Hr]. specialize (Hr Hrk).
    unfold opens_as, opens_new in *. rewrite Hcon, Hgen in Ho, Hr.
    destruct (fst (pv_store_open_password _ _ _ _)) as [[st1 o1] h1]. destruct (fst (pv_store_open_recovery _ _ _ _)) as [[st2 o2] h2].
    destruct Ho as (-> & _ & A1 & A2 & A3 & _ & _ & _ & _ & _ & A4). destruct Hr as (-> & _ & B1 & B2 & B3 & _ & _ & _ & _ & _ & B4). done.
Qed.

(** The recovery key is printed and its file written. *)
Lemma recovery_written c vault_id key recovery_out io ios :
  calm (c_world c) -> zlen vault_id = PV_VAULT_ID_BYTES -> is_bytes key -> zlen key = PV_RECOVERY_KEY_BYTES ->
  c_writes c = io :: ios -> accepts_file geteuid io recovery_out -> c_files c !! recovery_out = None ->
  exists text c1 c2 s, on_sys (total (pv_recovery_encode vault_id key PV_RECOVERY_TEXT_MAX)) c = Some ((PV_OK, Some text), c1) /\
    write_recovery recovery_out text vault_id c1 = Some (PV_OK, c2) /\ c_world c2 = with_sys (c_world c) s /\ sys_calm s /\
    c_files c2 !! recovery_out = Some (recovery_file_content (concat (map hex_digits vault_id)) text) /\
    forall s0, sys_calm s0 -> fst (pv_recovery_decode text vault_id s0) = (PV_OK, key).
Proof.
  intros Hc Hidl Hkb Hkl Hwrites Hio Hfree. destruct (generichash_total (vault_id ++ key)) as [digest Hdigest].
  destruct (recovery_encode_run vault_id key digest PV_RECOVERY_TEXT_MAX (w_sys (c_world c)) (calm_allocs 3 _ (calm_sys _ Hc)) Hkb Hkl ltac:(by vm_compute) Hdigest) as [E1 _].
  set (text := cstr "PV1R-" ++ _) in E1. pose proof (tame_recovery_encode vault_id key PV_RECOVERY_TEXT_MAX (w_sys (c_world c))) as L1.
  destruct (pv_recovery_encode vault_id key PV_RECOVERY_TEXT_MAX (w_sys (c_world c))) as [r s1] eqn:Er. cbn [fst snd] in E1, L1. subst r.
  pose proof (sys_calm_later _ _ L1 (calm_sys _ Hc)) as Hs1. destruct (encode_inv _ _ _ _ _ _ Hkb Hkl Er) as (Hspells & Hprint & Hlen & _).
  set (c1 := set_c_world c (with_sys (c_world c) s1)). destruct (write_file_accepted geteuid io recovery_out text vault_id s1 Hio (calm_allocs 1 _ Hs1) Hidl Hlen) as (s2 & E2 & L2).
  set (content := recovery_file_content _ text) in E2. exists text, c1, (set_c_files (set_c_world c1 (with_sys (c_world c1) s2)) ios (c_reads c1) (<[recovery_out := content]> (c_files c1))), s2.
  split_and!; [exact (run_total _ c _ _ Er) | | done | by eapply sys_calm_later | cbn; by rewrite lookup_insert_eq |].
  - unfold write_recovery. change (c_writes c1) with (c_writes c). rewrite Hwrites. change (c_files c1 !! recovery_out) with (c_files c !! recovery_out). rewrite Hfree.
    unfold on_sys. change (w_sys (c_world c1)) with s1. rewrite E2. reflexivity.
  - intros s Hs. apply spells_decode; [by apply calm_allocs | | done]. eapply Forall_impl; [| exact Hprint]. by intros b [? _].
Qed.

(** C3: a vault can be made, end to end: on a calm system whose random generator
    works, where the path leads to a free name in a directory of the user and the
    recovery file can be written, when a password that the policy accepts is typed
    twice, [init] returns [PV_OK]; the vault file then opens with that password to
    an empty vault, the recovery file holds a text that [pv_recovery_decode] turns
    into a key for this vault, and the vault file opens with that key too. *)
Theorem init_succeeds (config : pv_config) (argv : list (list Z)) (c : cli) (path recovery_out password name : list Z) (d : Z)
    (script : script) (more : list Secure.script) (io : write_file_io) (ios : list write_file_io)
    (Hargs : init_options argv (vault_path config) None = Some (path, Some recovery_out))
    (Hok : world_ok (c_world c)) (Hcalm : calm (c_world c)) (Hcan : can_create (c_world c) path d name) (Hrandom : diverse (w_sys (c_world c)))
    (Hscripts : c_secrets c = script :: more) (Henters : enters script true password)
    (Hpolicy : pv_master_password_is_acceptable (Some password) = true)
    (Hmemory : forall salt, is_Some (crypto_pwhash password salt PV_V1_PASSWORD_OPSLIMIT PV_V1_PASSWORD_MEMLIMIT))
    (Hwrites : c_writes c = io :: ios) (Hio : accepts_file geteuid io recovery_out) (Hfree : c_files c !! recovery_out = None) :
  exists c' vault_id text key, command_init config argv c = Some (PV_OK, c') /\
    (forall header0, opens_new (fst (pv_store_open_password path password header0 (c_world c'))) vault_id) /\
    c_files c' !! recovery_out = Some (recovery_file_content (concat (map hex_digits vault_id)) text) /\
    (forall s, sys_calm s -> fst (pv_recovery_decode text vault_id s) = (PV_OK, key)) /\
    (forall header0, opens_new (fst (pv_store_open_recovery path key header0 (c_world c'))) vault_id).
Proof.
  unfold command_init. rewrite Hargs.
  destruct (buffer_calm PV_RECOVERY_KEY_BYTES (w_sys (c_world c)) (calm_sys _ Hcalm) ltac:(by vm_compute)) as (s1 & E1 & L1). rewrite (cbind_eq _ _ _ _ _ (run_total _ _ _ _ E1)). cbn [is_ok].
  pose proof (sys_calm_later _ _ L1 (calm_sys _ Hcalm)) as Hs1. set (c1 := set_c_world c (with_sys (c_world c) s1)).
  destruct (buffer_calm PV_RECOVERY_TEXT_MAX (w_sys (c_world c1)) Hs1 ltac:(by vm_compute)) as (s2 & E2 & L2). pose proof (sys_calm_later _ _ L2 Hs1) as Hs2.
  erewrite cbind_eq; [| erewrite cbind_eq; [| exact (run_total _ _ _ _ E2)]; reflexivity]. cbn [fst is_ok]. set (c2 := set_c_world c1 (with_sys (c_world c1) s2)).
  destruct (types_secret c2 script more true password Hs2 Hscripts Henters) as (t & s3 & E3 & L3). pose proof (sys_calm_later _ _ L3 Hs2) as Hs3.
  rewrite (cbind_eq _ _ _ _ _ E3). cbn [is_ok]. set (c3 := set_c_secret _ _ _).
  assert (Hb : secret_bytes (holding password) = Some password) by (unfold secret_bytes, holding; cbn [b_data b_len]; by rewrite holding_bytes).
  unfold validate_new_master_password. rewrite Hb, Hpolicy. rewrite (cbind_eq _ _ c3 PV_OK c3 eq_refl). cbn [is_ok].
  destruct (randombytes_buf PV_RECOVERY_KEY_BYTES s3) as [key s4] eqn:E4. pose proof (tame_randombytes PV_RECOVERY_KEY_BYTES s3) as L4. rewrite E4 in L4. cbn [snd] in L4.
  destruct (randombytes_typed PV_RECOVERY_KEY_BYTES s3 key s4 ltac:(by vm_compute) E4) as [Hkl Hkb]. pose proof (sys_calm_later _ _ L4 Hs3) as Hs4.
  set (w4 := with_sys (c_world c) s4). assert (later (w_sys (c_world c)) s4) as Lall by (etrans; [exact L1 |]; etrans; [exact L2 |]; etrans; [exact L3 | exact L4]).
  destruct (create_opens path password key d name w4) as (vault & w5 & E5 & Hc5 & Hidl & Hidb & Hopen);
    [exact Hok | by apply with_sys_calm | by apply with_sys_create | apply diverse_fresh; by eapply diverse_later | apply (en_line _ _ _ Henters) | done | done |].
  set (c5 := set_c_world (set_c_world c3 (with_sys (c_world c3) s4)) w5).
  erewrite (cbind_eq _ _ c3 (PV_OK, vault, key) c5).
  2: { unfold mbind, C_bind. rewrite (run_total (randombytes_buf PV_RECOVERY_KEY_BYTES) c3 key s4 E4). unfold on_store. change (c_world (set_c_world c3 _)) with w4. rewrite E5. reflexivity. }
  rewrite !bool_decide_eq_false_2 by done. cbn [is_ok].
  destruct (recovery_written c5 (v_vault_id vault) key recovery_out io ios Hc5 Hidl Hkb Hkl Hwrites Hio Hfree) as (text & c6 & c7 & s7 & E6 & E7 & W7 & Hs7 & Hfile & Hdecode).
  rewrite (cbind_eq _ _ _ _ _ E6). cbn [is_ok default from_option id].
  destruct (pv_model_destroy vault s7) as [v8 s8] eqn:E8. pose proof (tame_model_destroy vault s7) as L8. rewrite E8 in L8. cbn [snd] in L8.
  pose proof (fun header0 => Hopen (with_sys w5 s8) header0 (with_sys_same w5 s8 (sys_calm_later _ _ L8 Hs7))) as Hend.
  set (c8 := set_c_output c7 (c_out c7 ++ text_lines [cstr "Vault created at the requested vault path."; cstr "Recovery key written to the requested recovery output path."]) (c_err c7)).
  assert (E9 : on_sys (total (pv_model_destroy vault)) c8 = Some (v8, set_c_world c8 (with_sys w5 s8))).
  { rewrite (run_total (pv_model_destroy vault) c8 v8 s8); unfold c8; cbn [set_c_output c_world]; rewrite W7; done. }
  eexists _, (v_vault_id vault), text, key. split.
  { unfold mbind, C_bind. rewrite E7. cbn [is_ok]. unfold destroy, freed_blocks, say, mret, C_ret, mbind, C_bind. cbn [is_ok]. cbv beta iota. fold c8. rewrite E9. reflexivity. }
  cbn [c_world c_files set_c_left set_c_world set_c_output c8]. split_and!; [intros header0; apply Hend | exact Hfile | exact Hdecode | intros header0; apply Hend].
Qed.

End init.

(** ** Instances *)

(** [/home/v.pv] is there, [/home/w.pv] is not. *)
Definition new_entries : gmap Z (gmap (list Z) Z) := {[ 0 := {[ cstr "home" := 1 ]}; 1 := example_entries ]}.
Definition new_fs : fs :=
  mk_fs {[ 0 := mk_inode (16384 + 493) 0 3 [] true; 1 := example_home; 2 := example_inode ]} new_entries new_entries.
Definition new_kernel : kernel :=
  mk_kernel (fun _ => None) (fun _ => [E_intr; E_upto 99]) (fun _ _ => Some 1) (fun _ _ => Some (0, cstr "home")).
Definition new_world : world := mk_world example_calm_sys new_kernel new_fs 3 [].

Lemma new_entry d name i : entry new_fs d name = Some i -> d = 0 /\ name = cstr "home" /\ i = 1 \/ d = 1 /\ name = example_name /\ i = 2.
Proof.
  unfold entry, entries, new_fs, new_entries. cbn [f_dirs]. intros E.
  destruct (decide (d = 0)) as [-> | H0]; [left | right].
  - rewrite lookup_insert_eq in E. cbn in E. by apply lookup_singleton_Some in E as [<- <-].
  - rewrite lookup_insert_ne in E by done. destruct (decide (d = 1)) as [-> | H1].
    + rewrite lookup_singleton_eq in E. cbn in E. by apply lookup_singleton_Some in E as [<- <-].
    + by rewrite lookup_singleton_ne in E.
Qed.

Lemma new_world_ok : world_ok new_world.
Proof.
  split; cbn [new_world w_fs w_next].
  - intros i n E. unfold new_fs in E. cbn [f_inodes] in E. do 2 (apply lookup_insert_Some in E as [[<- _] | [_ E]]; [lia |]). apply lookup_singleton_Some in E as [<- _]. lia.
  - intros d name i [(-> & -> & ->) | (-> & -> & ->)]%new_entry; lia.
  - intros d name i [(-> & -> & ->) | (-> & -> & ->)]%(new_entry d name i); lia.
Qed.

Lemma new_world_calm : calm new_world.
Proof. split; [done | | done | exact example_calm]. intros n. repeat constructor; done. Qed.

Lemma new_free name : name <> example_name -> entry new_fs 1 name = None.
Proof. intros Hne. destruct (entry new_fs 1 name) as [i |] eqn:E; [| done]. by apply new_entry in E as [(? & _) | (_ & ? & _)]. Qed.

Lemma new_can_create : can_create new_world (cstr "/home/w.pv") 1 (cstr "w.pv").
Proof.
  split.
  - done.
  - exists (cstr "/home"). split_and!; [done | done |]. exists example_home. by split_and!.
  - constructor; [| constructor]. split; [done |]. exists 0, (cstr "home"), 1, example_home. eexists. split_and!; done.
  - split; [| change (durable_entry (w_fs new_world) 1) with (entry new_fs 1)]; by rewrite new_free.
  - split; [done |]. intros i. by rewrite new_free.
  - split; [done |]. intros v. apply new_free. intros E. apply (f_equal length) in E. unfold temporary_name, hex8 in E. rewrite !length_app in E. cbn in E. lia.
  - done.
Qed.

Lemma create_gives_up_nothing_witness :
  let '((st, vault'), w') := pv_store_create (cstr "/home/w.pv") [112; 119] (replicate 32 5) vault_zero new_world in
  world_ok w' /\ atomic_between new_world w' 1 example_name (Some example_bytes) (Some example_bytes) /\ settled (w_fs w') 1 example_name (Some example_bytes).
Proof.
  apply (create_gives_up_nothing (cstr "/home/w.pv") [112; 119] (replicate 32 5) vault_zero new_world 1 example_name example_bytes); [exact new_world_ok |].
  split; reflexivity.
Defined.

(** A password typed twice; the recovery key goes to [/media/key]. *)
Definition init_argv : list (list Z) := [cstr "--vault"; cstr "/home/w.pv"; cstr "--recovery-out"; cstr "/media/key"].
Definition init_secret : list Z := new_password ++ [10] ++ new_password.
Definition init_start : cli :=
  mk_cli new_world example_terminal [secret_script init_secret] [] ui_example_process [] [] idle_process [example_wio] [] ∅ [] [] [] [].

Lemma init_succeeds_witness :
  exists c' vault_id text key, command_init example_config init_argv init_start = Some (PV_OK, c') /\
    (forall header0, opens_new (fst (pv_store_open_password (cstr "/home/w.pv") new_password header0 (c_world c'))) vault_id) /\
    c_files c' !! cstr "/media/key" = Some (recovery_file_content (concat (map hex_digits vault_id)) text) /\
    (forall s, sys_calm s -> fst (pv_recovery_decode text vault_id s) = (PV_OK, key)) /\
    (forall header0, opens_new (fst (pv_store_open_recovery (cstr "/home/w.pv") key header0 (c_world c'))) vault_id).
Proof.
  apply (init_succeeds example_config init_argv init_start (cstr "/home/w.pv") (cstr "/media/key") new_password (cstr "w.pv") 1 (secret_script init_secret) [] example_wio []).
  - reflexivity.
  - exact new_world_ok.
  - exact new_world_calm.
  - exact new_can_create.
  - intros i. exists (if decide (u8 (Z.of_nat i) = 0) then 1%nat else 0%nat). unfold init_start, new_world. cbn [c_world w_sys example_calm_sys sys_good s_rand].
    destruct (decide _) as [E | E]; [split; [lia |] | split; [lia | by rewrite Nat.add_0_r]]. unfold u8 in *. intros E1. rewrite Nat2Z.inj_add in E1.
    rewrite Z.add_mod in E1 by done. rewrite E in E1. by vm_compute in E1.
  - reflexivity.
  - apply secret_script_enters; [reflexivity |]. split; [repeat constructor | split; vm_compute; [reflexivity | discriminate]].
  - vm_compute. reflexivity.
  - intros salt. eexists. reflexivity.
  - reflexivity.
  - split_and!; try reflexivity. repeat constructor; done.
  - reflexivity.
Defined.
