(* ===== verification/RofiProps.v ===== *)
(** * Properties of the external selector

    What [rofi_select] sends to the selector and what it takes for an answer. *)

From stdpp Require Import gmap.
From S2P Require Import Prelude Status Util Sys Arena Model ModelFacts ModelInv ModelProps Posix Config Secure Process ProcessFacts Clipboard Rofi Cli CliProps.

(** ** The bytes that cross two pipes *)

(** What is written to one descriptor, and read from another. *)
Definition pipe_watch (fd out : Z) : Watch (list Z + list Z) := fun e =>
  let a := snd e in
  match fst e with
  | C_write f bytes => if (f =? fd) && (0 <? a_ret a) then Some (inl (zsub bytes 0 (a_ret a))) else None
  | C_read f _ => if (f =? out) && (0 <? a_ret a) then Some (inr (zsub (a_out a) 0 (a_ret a))) else None
  | _ => None
  end.

Definition written (e : list Z + list Z) : option (list Z) := match e with inl b => Some b | inr _ => None end.
Definition gotten (e : list Z + list Z) : option (list Z) := match e with inl _ => None | inr b => Some b end.

Section sending.
Context (fd out : Z).
#[local] Hint Extern 0 (Watch _) => exact (pipe_watch fd out) : typeclass_instances.

(** Everything that was sent, and received, in order. *)
Definition sent_to (s : kst) : list Z := concat (omap written (log s)).
Definition received (s : kst) : list Z := concat (omap gotten (log s)).

Lemma sent_same s s' : log s' = log s -> sent_to s' = sent_to s /\ received s' = received s.
Proof. unfold sent_to, received. by intros ->. Qed.

(** A beginning of [input] was written, all but [rest]. *)
Definition wrote (input : list Z) (s : kst) (rest : list Z) (s' : kst) : Prop := exists text, sent_to s' = sent_to s ++ text /\ received s' = received s /\ input = text ++ rest.

Lemma wrote_nothing input s s' : log s' = log s -> wrote input s input s'.
Proof. intros [E1 E2]%sent_same. exists []. by rewrite app_nil_r. Qed.

Lemma wrote_same input s rest s1 s2 : log s2 = log s1 -> wrote input s rest s1 -> wrote input s rest s2.
Proof. intros [E1 E2]%sent_same (text & H1 & H2 & H3). exists text. by rewrite E1, E2. Qed.

Lemma wrote_after a s s0 rest s' : log s0 = log s -> wrote a s0 rest s' -> wrote a s rest s'.
Proof. intros [E1 E2]%sent_same (x & H1 & H2 & H3). exists x. by rewrite H1, H2, E1, E2. Qed.

Lemma write_until_sends input s : kwp (write_until fd input) (returns (fun e s' => exists rest, wrote input s rest s' /\ (e = 0 -> rest = []))) s.
Proof.
  apply kwp_iter with (I := wrote input s); [| by apply wrote_nothing]. intros rest s1 H1.
  set (Q := fun (r : list Z + Z) s' => match r with inl rest => wrote input s rest s' | inr e => exists rest, wrote input s rest s' /\ (e = 0 -> rest = []) end).
  apply kwp_mono with (Q := returns Q); [| intros [[r | e] | c | p v e] s' H; exact H]. destruct (Z.eqb_spec (zlen rest) 0) as [Hz | Hz].
  { kret. exists rest. split; [done |]. intros _. destruct rest; [done |]. zlia. }
  apply kwp_bind, kwp_ask. intros a sched. cbn [then_]. set (s2 := called s1 sched (C_write fd rest) a).
  assert (H2 : sent_to s2 = sent_to s1 ++ (if 0 <? a_ret a then zsub rest 0 (a_ret a) else []) /\ received s2 = received s1).
  { unfold sent_to, received, s2. rewrite log_called, !omap_app, !concat_app. unfold notable, pipe_watch. cbn [fst snd]. rewrite Z.eqb_refl. cbn [andb].
    destruct (0 <? a_ret a); cbn; by rewrite ?app_nil_r. }
  destruct H2 as [H2 R2]. assert (Hstay : a_ret a <= 0 -> wrote input s rest s2).
  { intros Ha. destruct H1 as (text & H1 & R1 & Hin). exists text. replace (0 <? a_ret a) with false in H2 by lia. by rewrite H2, R2, app_nil_r. }
  apply kwp_bind, kwp_get_errno. cbn [then_]. change (k_errno s2) with (if a_ret a <? 0 then Z.pos (a_errno a) else k_errno s1).
  destruct (Z.ltb_spec (a_ret a) 0) as [Hneg | Hneg]; cbn [andb].
  { split_if; [kret; apply Hstay; lia |]. replace (a_ret a <=? 0) with true by lia. kret. exists rest. split; [apply Hstay; lia | done]. }
  destruct (Z.leb_spec (a_ret a) 0) as [Hz0 | Hpos]; [kret; exists rest; split; [apply Hstay; lia | done] |]. kret. cbn [returns Q].
  destruct H1 as (text & H1 & R1 & Hin). exists (text ++ zsub rest 0 (a_ret a)). replace (0 <? a_ret a) with true in H2 by lia.
  rewrite H2, H1, R2, R1, <- app_assoc. do 2 (split; [done |]). rewrite Hin, <- app_assoc. f_equal. by rewrite zsub_0, take_drop.
Qed.

Lemma write_all_sends input s : kwp (fd_write_all_no_sigpipe fd input) (returns (fun ok s' => exists rest, wrote input s rest s' /\ (ok = true -> rest = []))) s.
Proof.
  unfold fd_write_all_no_sigpipe. kkeep blocked s1 H1. destruct (negb _); [kret; exists input; split; [by apply wrote_nothing | done] |]. cbv zeta.
  kkeep pending s2 H2. assert (H12 : log s2 = log s) by congruence. destruct (negb _).
  { kkeep e s3 H3. kkeep m s4 H4. kkeep u s5 H5. kret. exists input. split; [apply wrote_nothing; congruence | done]. }
  eapply returns_bind; [apply write_until_sends |]. cbv beta. intros saved s3 (rest & Hw & Hok). kkeep u s4 H4. kkeep restored s5 H5. kkeep errno s6 H6. kkeep u' s7 H7. kret. cbn [returns].
  exists rest. split.
  - apply (wrote_same input s rest s3); [congruence |]. by apply (wrote_after input s s2).
  - intros Hz. apply Hok. destruct (negb restored) eqn:Er; cbn [andb] in Hz; [| lia]. destruct (Z.eqb_spec saved 0); [done | lia].
Qed.

(** ** The menu *)

(** The positions of the records that are not deleted. *)
Fixpoint live_from (i : nat) (records : list (pv_record pv_slice)) : list nat :=
  match records with
  | [] => []
  | record :: records => if is_deleted record then live_from (S i) records else i :: live_from (S i) records
  end.

Context (vault : pv_vault).

Definition safe_title (i : nat) : option (list Z) :=
  record ← v_records vault !! i; pv_text_sanitize (r_title (record_view vault record)) false PV_MAX_TITLE.

(** A line: the title as it may be displayed, and the token. *)
Definition menu_line (e : rofi_entry) : list Z := default [] (safe_title (re_record e)) ++ [9] ++ default [] (pv_hex_encode (Some (re_token e)) 17) ++ [10].

Definition tokens_ok (entries : list rofi_entry) : Prop := Forall (fun e => is_bytes (re_token e) /\ zlen (re_token e) = 8) entries /\ NoDup (map re_token entries).

Lemma draw_token entries s : kwp (rofi_draw_token entries)
  (returns (fun token s' => log s' = log s /\ rofi_token_unique entries token = true /\ is_bytes token /\ zlen token = 8)) s.
Proof.
  apply kwp_iter with (I := fun _ s' => log s' = log s); [| done]. intros _ s1 H1. apply kwp_bind, kwp_ask. intros a rest. cbn [then_]. apply kwp_ret. cbn [then_].
  assert (Hlog : log (called s1 rest (C_randombytes 8) a) = log s) by (rewrite log_called; cbn; by rewrite app_nil_r). destruct (rofi_token_unique entries _) eqn:Eu; [| done].
  cbn [returns]. split_and!; [done | done | |].
  - unfold random_out. apply Forall_map, Forall_forall. intros i _. apply u8_byte.
  - done.
Qed.

Lemma token_fresh entries token i : is_bytes token -> zlen token = 8 -> rofi_token_unique entries token = true -> tokens_ok entries -> tokens_ok (entries ++ [mk_rofi_entry token i]).
Proof.
  intros Hb Hl Hu [Ht Hn]. split; [apply Forall_app; split; [done | by constructor] |]. rewrite map_app. apply list.NoDup_app. split_and!; [done | | apply NoDup_singleton].
  intros t Hin Ht'. cbn in Ht'. apply list_elem_of_singleton in Ht' as ->. apply list_elem_of_In, in_map_iff in Hin as (e & <- & He). unfold rofi_token_unique in Hu. rewrite forallb_forall in Hu.
  apply Hu in He. by rewrite bytes_eqb_refl in He.
Qed.

(** What the loop sends: lines of records that are not deleted, the last one maybe
    in part, and all of them when it succeeds. *)
Definition lines_sent (entries : list rofi_entry) (lives : list nat) (s : kst) (r : bool * list rofi_entry) (s' : kst) : Prop :=
  exists more, tokens_ok (entries ++ more) /\ map re_record more `prefix_of` lives /\
    exists rest, wrote (concat (map menu_line more)) s rest s' /\ (fst r = true -> rest = [] /\ snd r = entries ++ more /\ map re_record more = lives).

Lemma sent_nothing entries lives b s s' : tokens_ok entries -> log s' = log s -> lines_sent entries lives s (false, b) s'.
Proof.
  intros Ht E. exists []. rewrite app_nil_r. split_and!; [done | apply prefix_nil |]. exists []. by split; [apply wrote_nothing |].
Qed.

Lemma wrote_then a b s s1 s2 rest : wrote a s [] s1 -> wrote b s1 rest s2 -> wrote (a ++ b) s rest s2.
Proof. intros (x & H1 & R1 & ->) (y & H2 & R2 & ->). exists (x ++ y). rewrite app_nil_r in *. by rewrite H2, H1, R2, R1, !app_assoc. Qed.

Lemma wrote_part a b s rest s1 : wrote a s rest s1 -> wrote (a ++ b) s (rest ++ b) s1.
Proof. intros (x & H1 & R1 & ->). exists x. by rewrite H1, R1, app_assoc. Qed.

Lemma kwp_assoc {A B D} (m : K A) (f : A -> K B) (g : B -> K D) Q s : kwp ((m ≫= f) ≫= g) Q s -> kwp (m ≫= fun x => f x ≫= g) Q s.
Proof. intros Hk r s' E. apply Hk. revert E. unfold mbind, K_bind. by destruct (m s) as [[[x | c | p v e] s1] |]. Qed.

(** A line is sent in two writes. *)
Lemma send_line e title s : safe_title (re_record e) = Some title ->
  kwp (sent ← fd_write_all_no_sigpipe fd title; if sent : bool then fd_write_all_no_sigpipe fd ([9] ++ default [] (pv_hex_encode (Some (re_token e)) 17) ++ [10]) else mret false)
    (returns (fun ok s' => exists rest, wrote (menu_line e) s rest s' /\ (ok = true -> rest = []))) s.
Proof.
  intros Ht. unfold menu_line. rewrite Ht. cbn [default from_option id]. eapply returns_bind; [apply write_all_sends |]. cbv beta. intros sent s1 (rest & Hw & Hok). destruct sent.
  - rewrite (Hok eq_refl) in Hw. eapply returns_mono; [apply write_all_sends |]. cbv beta. intros ok s2 (rest2 & Hw2 & Hok2). exists rest2. split; [by eapply wrote_then | done].
  - kret. eexists. split; [by apply wrote_part | done].
Qed.

Lemma send_loop_lines records pre entries s : v_records vault = pre ++ records -> tokens_ok entries ->
  kwp (rofi_send_loop fd vault (length pre) records entries) (returns (lines_sent entries (live_from (length pre) records) s)) s.
Proof.
  revert pre entries s. induction records as [| record records IH]; intros pre entries s Ev Ht; cbn [rofi_send_loop live_from].
  { kret. exists []. rewrite app_nil_r. split_and!; [done | done |]. exists []. split; [by apply wrote_nothing | done]. }
  assert (Ev' : v_records vault = (pre ++ [record]) ++ records) by by rewrite <- app_assoc.
  assert (Hlen : length (pre ++ [record]) = S (length pre)) by (rewrite length_app; cbn; lia).
  destruct (is_deleted record). { rewrite <- Hlen. by apply IH. }
  eapply returns_bind; [apply draw_token |]. cbv beta. intros token s1 (H1 & Hu & Hb & Hl). cbv zeta. set (e := mk_rofi_entry token (length pre)).
  pose proof (token_fresh entries token (length pre) Hb Hl Hu Ht) as Ht'. fold e in Ht'.
  assert (Htitle : safe_title (re_record e) = pv_text_sanitize (r_title (record_view vault record)) false PV_MAX_TITLE).
  { unfold safe_title, e. cbn [re_record]. by rewrite Ev, list_lookup_middle by done. }
  destruct (pv_text_sanitize _ false PV_MAX_TITLE) as [title |]; [| do 2 (apply (returns_bind _ _ (fun ok s' => ok = false /\ s' = s1)); [by kret |]; intros ? ? [-> ->]; cbn [negb]); kret; by apply sent_nothing].
  apply kwp_assoc. eapply returns_bind; [by apply (send_line e title) |]. cbv beta. intros sent s2 (rest & Hw & Hok). apply (wrote_after _ s) in Hw; [| done]. destruct sent; cbn [negb].
  - rewrite (Hok eq_refl) in Hw. specialize (IH (pre ++ [record]) (entries ++ [e]) s2 Ev' Ht'). rewrite Hlen in IH. eapply returns_mono; [exact IH |]. cbv beta.
    intros r s3 (more & Hto & Hpre & rest' & Hw' & Hall). exists (e :: more). rewrite <- app_assoc in Hto, Hall. split_and!; [done | by apply prefix_cons |]. exists rest'.
    split; [cbn [map concat]; by eapply wrote_then |]. intros Hr. destruct (Hall Hr) as (-> & -> & <-). done.
  - kret. exists [e]. split_and!; [done | apply prefix_cons, prefix_nil |]. exists (rest ++ []). split; [by apply wrote_part | done].
Qed.

(** ** Answers *)

Definition printing (b : Z) : Prop := 32 <= b.

Lemma displayable_printing cps : Forall displayable cps -> Forall printing (utf8_text cps).
Proof.
  intros Hc. unfold utf8_text. apply Forall_concat, Forall_map. eapply Forall_impl; [| exact Hc]. intros c [Hs Hu]. unfold scalar in Hs. unfold display_codepoint_unsafe in Hu.
  assert (32 <= c) by lia. unfold printing, utf8_encode. repeat split_if; repeat constructor; Z.div_mod_to_equations; lia.
Qed.

Lemma hex_printing token : is_bytes token -> Forall printing (concat (map hex_digits token)).
Proof.
  intros Hb. apply Forall_concat, Forall_map. eapply Forall_impl; [| exact Hb]. intros b Hbyte. destruct (hex_digits_decode b Hbyte) as (c0 & c1 & -> & H0 & H1 & _).
  assert (Hv : forall c, 0 <= hex_value c -> printing c) by (intros c; unfold hex_value, printing; repeat split_if; lia). repeat constructor; by apply Hv.
Qed.

Lemma printing_c_string l : Forall (fun b => b <> 0) l -> c_string l = l.
Proof. intros Hl. unfold c_string. by rewrite (proj2 (find_char_None l 0) Hl). Qed.

Lemma printing_ne l c : c < 32 -> Forall printing l -> Forall (fun b => b <> c) l.
Proof. intros Hc. apply Forall_impl. unfold printing. intros b Hb. lia. Qed.

Lemma last_char_app l c : last_char (l ++ [c]) = c.
Proof. unfold last_char. rewrite zlen_app. change (zlen [c]) with 1. replace (zlen l + 1 - 1) with (zlen l) by lia. unfold znth, zlen. rewrite Nat2Z.id, app_nth2 by lia. by rewrite Nat.sub_diag. Qed.

Lemma chop_app l c : chop (l ++ [c]) = l.
Proof. unfold chop. rewrite zlen_app. change (zlen [c]) with 1. replace (zlen l + 1 - 1) with (zlen l) by lia. rewrite zsub_0. unfold zlen. by rewrite Nat2Z.id, take_app_length. Qed.

Lemma existsb_printing (f : Z -> bool) l : (forall b, 32 <= b -> f b = false) -> Forall printing l -> existsb f l = false.
Proof. intros Hf. induction 1 as [| b l Hb _ IH]; [done |]. cbn [existsb]. by rewrite Hf, IH. Qed.

(** The entry of a token. *)
Lemma entry_of_token entries e : tokens_ok entries -> e ∈ entries -> head (filter (fun e' => bytes_eqb (re_token e') (re_token e) = true) entries) = Some e.
Proof.
  intros [_ Hn]. induction entries as [| x entries IH]; intros He; [by apply not_elem_of_nil in He |]. cbn [map] in Hn. apply list.NoDup_cons in Hn as [Hx Hn].
  destruct (bytes_eqb (re_token x) (re_token e)) eqn:Eb.
  - rewrite filter_cons_True by done. cbn. apply bytes_eqb_eq in Eb. apply elem_of_cons in He as [-> | He]; [done |]. exfalso. apply Hx. rewrite Eb. by apply list_elem_of_In, in_map, list_elem_of_In.
  - rewrite filter_cons_False by (by rewrite Eb). apply elem_of_cons in He as [-> | He]; [by rewrite bytes_eqb_refl in Eb | by apply IH].
Qed.

(** The line of an entry as the answer selects its record. *)
Lemma line_selects entries e title : tokens_ok entries -> e ∈ entries -> Forall printing title ->
  rofi_parse entries (title ++ [9] ++ default [] (pv_hex_encode (Some (re_token e)) 17) ++ [10]) = Some (re_record e).
Proof.
  intros Hok He Ht. pose proof (proj1 Hok) as Hb. rewrite Forall_forall in Hb. apply list_elem_of_In in He as He'. destruct (Hb _ He') as [Htok Hlen].
  set (hex := concat (map hex_digits (re_token e))). assert (Hhex : pv_hex_encode (Some (re_token e)) 17 = Some hex) by (unfold pv_hex_encode; cbn -[hex_digits]; rewrite Hlen; done).
  rewrite Hhex. cbn [default from_option id]. assert (Hhl : zlen hex = 16) by (unfold hex; rewrite hex_concat_len; lia). assert (Hp : Forall printing hex) by by apply hex_printing.
  assert (Hdec : pv_hex_decode hex 8 = Some (re_token e)).
  { unfold pv_hex_decode. rewrite Hhl. cbn [Z.eqb negb Z.mul]. change (Z.to_nat 8) with 8%nat. replace 8%nat with (length (re_token e)) by (unfold zlen in Hlen; lia). by apply hex_decode_loop_encode. }
  clearbody hex. unfold rofi_parse. rewrite !app_assoc. pose proof (zlen_nonneg title). rewrite last_char_app, chop_app, !zlen_app, Hhl. change (zlen [9]) with 1. change (zlen [10]) with 1.
  replace (1 <? zlen title + 1 + 16 + 1) with true by lia. cbn [andb Z.eqb Pos.eqb].
  rewrite printing_c_string. 2: { repeat apply Forall_app_2; try (by apply printing_ne); by repeat constructor. }
  rewrite <- !app_assoc. cbn [app]. rewrite find_char_app_r by (by apply printing_ne).
  assert (Hlast : last_char (title ++ 9 :: hex) <> 13).
  { destruct hex as [| h0 hex] using rev_ind; [done |]. change (9 :: hex ++ [h0]) with ((9 :: hex) ++ [h0]). rewrite app_assoc, last_char_app. apply Forall_app in Hp as [_ Hp].
    apply Forall_cons_iff in Hp as [Hp _]. unfold printing in Hp. lia. }
  rewrite (proj2 (Z.eqb_neq _ _) Hlast), andb_false_r. replace (Z.to_nat (zlen title + 1)) with (length (title ++ [9])) by (rewrite length_app; unfold zlen; cbn; lia).
  change (title ++ 9 :: hex) with (title ++ [9] ++ hex). rewrite app_assoc, drop_app_length, !printing_c_string.
  - rewrite (existsb_printing (Z.eqb 9) hex) by (done || intros; lia). rewrite !existsb_app, (existsb_printing _ title), (existsb_printing _ hex) by (done || intros; lia). cbn [existsb orb Z.eqb Pos.eqb].
    rewrite !zlen_app, Hhl. change (zlen [9]) with 1. replace (zlen title + 1 + 16 - (zlen title + 1) =? 16) with true by lia. cbn [negb]. rewrite Hdec. by rewrite entry_of_token.
  - repeat apply Forall_app_2; try (by apply printing_ne); by repeat constructor.
  - by apply printing_ne.
Qed.

Lemma parse_known entries response i : rofi_parse entries response = Some i -> i ∈ map re_record entries.
Proof.
  unfold rofi_parse. split_if; [| done]. cbv zeta. destruct (find_char _ 9) as [tab |]; [| done]. split_if; [done |]. split_if; [done |]. destruct (pv_hex_decode _ 8) as [token |]; [| done].
  destruct (filter _ entries) as [| e l] eqn:Ef; [done |]. intros [= <-]. assert (He : e ∈ filter (fun e' => bytes_eqb (re_token e') token = true) entries) by (rewrite Ef; left).
  apply list_elem_of_filter in He as [_ He]. by apply list_elem_of_In, in_map, list_elem_of_In.
Qed.

(** ** The answer of the selector *)

Lemma response_received s : kwp (rofi_read_response out) (returns (fun response s' => sent_to s' = sent_to s /\ received s' = received s ++ response)) s.
Proof.
  apply kwp_iter with (I := fun response s' => sent_to s' = sent_to s /\ received s' = received s ++ response); [| by rewrite app_nil_r].
  intros response s1 [H1 R1]. destruct (_ <? ROFI_RESPONSE_SIZE); [| by apply kwp_ret].
  apply kwp_bind, kwp_ask. intros a rest. cbn [then_]. match goal with |- context [called s1 rest ?c a] => set (s2 := called s1 rest c a) end.
  assert (H2 : sent_to s2 = sent_to s1 /\ received s2 = received s1 ++ (if 0 <? a_ret a then zsub (a_out a) 0 (a_ret a) else [])).
  { unfold sent_to, received, s2. rewrite log_called, !omap_app, !concat_app. unfold notable, pipe_watch. cbn [fst snd]. rewrite Z.eqb_refl. cbn [andb].
    destruct (0 <? a_ret a); cbn; by rewrite ?app_nil_r. }
  destruct H2 as [H2 R2]. apply kwp_bind, kwp_get_errno. cbn [then_]. rewrite R1 in R2. destruct (Z.ltb_spec 0 (a_ret a)) as [Hpos | Hneg].
  - replace (a_ret a <? 0) with false by lia. replace (a_ret a <=? 0) with false by lia. cbn [andb]. apply kwp_ret. cbn [then_]. rewrite R2, <- app_assoc. split; [congruence | done].
  - rewrite app_nil_r in R2. split_if; [apply kwp_ret; cbn [then_]; split; [congruence | done] |]. replace (a_ret a <=? 0) with true by lia. apply kwp_ret. cbn [then_]. split; [congruence | done].
Qed.

Lemma keeps_wait pid n : keeps (rofi_wait_deadline pid n).
Proof. induction n; cbn [rofi_wait_deadline]; unfold cli_waitpid_nointr; keep. Qed.

Lemma keeps_reap pid : keeps (rofi_terminate_and_reap pid).
Proof. pose proof (keeps_wait pid). unfold rofi_terminate_and_reap, cli_waitpid_nointr. keep; auto. Qed.

Lemma keeps_cancel job : keeps (rofi_cancel job).
Proof. pose proof (keeps_reap (rj_pid job)). unfold rofi_cancel, close_open. keep; auto. Qed.

Lemma title_printing i title : vault_wf vault -> safe_title i = Some title -> Forall printing title.
Proof.
  intros Hwf. unfold safe_title. destruct (v_records vault !! i) as [record |] eqn:Er; [| done]. cbn [mbind option_bind].
  pose proof (re_title _ (vault_readable _ _ Hwf (list_elem_of_lookup_2 _ _ _ Er))) as Hb. generalize dependent (r_title (record_view vault record)). intros v Hb.
  unfold pv_text_sanitize. split_if; [done |]. intros [= <-]. destruct (sanitize_loop_displayable (length (v_bytes v)) _ Hb) as (cps & Hd & ->). by apply displayable_printing.
Qed.

End sending.

(** What a selection means, [s] being the state before it: lines were sent, maybe the
    last one in part; the line of a record, sent back, selects it; and with [PV_OK]
    all lines were sent and the record is the one of the answer received. *)
Definition selection_sound (fd out : Z) (vault : pv_vault) (s : kst) (r : pv_status * option nat * rofi_job) (s' : kst) : Prop :=
  let '(status, selected, job) := r in
  job = no_rofi /\
  exists entries rest, tokens_ok entries /\ map re_record entries `prefix_of` live_from 0 (v_records vault) /\
    sent_to fd out s ++ concat (map (menu_line vault) entries) = sent_to fd out s' ++ rest /\
    (forall e, e ∈ entries -> rofi_parse entries (menu_line vault e) = Some (re_record e)) /\
    (status = PV_OK -> rest = [] /\ map re_record entries = live_from 0 (v_records vault) /\
       exists response i, received fd out s' = received fd out s ++ response /\ rofi_parse entries response = Some i /\ selected = Some i /\ i ∈ live_from 0 (v_records vault)).

Section selecting.
Context (job : rofi_job) (vault : pv_vault) (Hwf : vault_wf vault).
#[local] Hint Extern 0 (Watch _) => exact (pipe_watch (rj_input_fd job) (rj_output_fd job)) : typeclass_instances.

Lemma lines_select entries e : tokens_ok entries -> e ∈ entries -> rofi_parse entries (menu_line vault e) = Some (re_record e).
Proof.
  intros Ht He. unfold menu_line. apply line_selects; [done | done |]. destruct (safe_title vault (re_record e)) as [title |] eqn:E; [by eapply title_printing | constructor].
Qed.

(** A selection that fails, after some of the lines. *)
Lemma failed_sound status s s1 s2 more rest : status <> PV_OK -> tokens_ok more -> map re_record more `prefix_of` live_from 0 (v_records vault) ->
  wrote (rj_input_fd job) (rj_output_fd job) (concat (map (menu_line vault) more)) s rest s1 -> log s2 = log s1 ->
  selection_sound (rj_input_fd job) (rj_output_fd job) vault s (status, None, no_rofi) s2.
Proof.
  intros Hst Ht Hp (text & H1 & _ & Hin) [E _]%sent_same. split; [done |]. exists more, rest. split_and!; [done | done | | by intros; apply lines_select | done].
  by rewrite E, H1, Hin, app_assoc.
Qed.

Lemma cancelled_sound status s s1 more rest : status <> PV_OK -> tokens_ok more -> map re_record more `prefix_of` live_from 0 (v_records vault) ->
  wrote (rj_input_fd job) (rj_output_fd job) (concat (map (menu_line vault) more)) s rest s1 ->
  kwp (job ← rofi_cancel job; mret (status, None, job)) (returns (selection_sound (rj_input_fd job) (rj_output_fd job) vault s)) s1.
Proof.
  intros Hst Ht Hp Hw. eapply (returns_bind _ _ (fun j s2 => j = no_rofi /\ log s2 = log s1)).
  - pose proof (keeps_cancel (rj_input_fd job) (rj_output_fd job) job s1) as Hk. intros r s2 E. specialize (Hk _ _ E). destruct r as [j | |]; [| done | done]. split; [| exact Hk].
    revert E. unfold rofi_cancel, mbind, K_bind. repeat match goal with |- context [match ?m ?t with _ => _ end] => destruct (m t) as [[[] ?] |]; [| done | done | done] end. by intros [= <- _].
  - intros j s2 [-> H2]. kret. by eapply failed_sound.
Qed.

Lemma select_sound s : kwp (rofi_select job vault) (returns (selection_sound (rj_input_fd job) (rj_output_fd job) vault s)) s.
Proof.
  assert (Hnil : tokens_ok []) by (split; constructor). assert (Hpre : [] `prefix_of` live_from 0 (v_records vault)) by apply prefix_nil.
  unfold rofi_select. kkeep allocated s1 H1. destruct (_ && _).
  { apply (cancelled_sound _ s s1 [] []); [done | done | exact Hpre |]. by apply (wrote_nothing _ _ []). }
  pose proof (send_loop_lines (rj_input_fd job) (rj_output_fd job) vault (v_records vault) [] [] s1 eq_refl Hnil) as Hsend.
  eapply returns_bind; [exact Hsend |]. cbv beta. intros [sent entries] s2 (more & Ht & Hp & rest & Hw & Hall). cbn [app fst snd length] in *. apply (wrote_after _ _ _ s) in Hw; [| done].
  destruct sent; cbn [negb]. 2: { by apply (cancelled_sound _ s s2 more rest). }
  destruct (Hall eq_refl) as (-> & -> & Hlive). kkeep closed s3 H3. eapply returns_bind; [apply (response_received (rj_input_fd job))|]. cbv beta. intros response s4 [H4 R4].
  kkeep closed' s5 H5. pose proof (keeps_wait (rj_input_fd job) (rj_output_fd job)) as Kw. pose proof (keeps_reap (rj_input_fd job) (rj_output_fd job)) as Kr.
  eapply returns_bind; [apply returns_keeps, Kw |]. cbv beta. intros gone s6 H6. eapply returns_bind; [apply returns_keeps; destruct (negb gone); [apply Kr | apply keeps_ret] |]. cbv beta. intros u s7 H7.
  assert (H57 : log s7 = log s4) by congruence. destruct Hw as (text & W1 & W2 & Win). rewrite app_nil_r in Win. subst text.
  apply sent_same in H3 as [H3 R3]. pose proof (sent_same _ _ _ _ H57) as [H7' R7']. assert (Hsent : sent_to (rj_input_fd job) (rj_output_fd job) s ++ concat (map (menu_line vault) more) = sent_to (rj_input_fd job) (rj_output_fd job) s7 ++ []) by (rewrite app_nil_r; congruence).
  kret. cbn [returns]. destruct (rofi_parse more response) as [i |] eqn:Ep.
  - split; [done |]. exists more, []. split_and!; [done | done | done | by intros; apply lines_select |]. intros _. split_and!; [done | done |]. exists response, i. split_and!; [congruence | done | done |].
    apply parse_known in Ep. by rewrite Hlive in Ep.
  - split; [done |]. exists more, []. split_and!; [done | done | done | by intros; apply lines_select | done].
Qed.

End selecting.

(** C15: the external selector is told only what may be displayed, and only its
    choice counts. Whatever the kernel and the selector answer, [rofi_select] sends
    nothing but lines of records that are not deleted, in order, each the sanitised
    title and a token of its own (the last line in part when sending fails); a record
    is returned only after all of them were sent, it is the one that [rofi_parse]
    finds for the bytes the selector then sent back, and it is not deleted; and
    answering with the line of a record selects that record. *)
Theorem rofi_selects_its_choice (job : rofi_job) (vault : pv_vault) (s s' : kst) (status : pv_status) (selected : option nat) (job' : rofi_job)
    (Hwf : vault_wf vault) (Hrun : rofi_select job vault s = Some (Returned (status, selected, job'), s')) :
  selection_sound (rj_input_fd job) (rj_output_fd job) vault s (status, selected, job') s'.
Proof. exact (select_sound job vault Hwf s _ _ Hrun). Qed.

(** ** Instances *)

Definition done_with (ret : Z) (out : list Z) : answer := mk_answer ret 1 out 0.

(** A buffer written in two parts, after an interruption. *)
Definition write_answers (n : Z) : list answer := [done_with 0 []; done_with 0 []; mk_answer (-1) 4 [] 0; done_with 1 []; done_with (n - 1) []; done_with 0 []].

(** The menu is sent; its line comes back. *)
Definition menu_job : rofi_job := mk_rofi_job 5 6 77.
Definition menu_token : list Z := [1; 2; 3; 4; 5; 6; 7; 8].
Definition menu_title : list Z := default [] (safe_title example_vault 0).
Definition menu_answers : list answer :=
  [done_with 0 []; done_with 0 menu_token] ++ write_answers (zlen menu_title) ++ write_answers 18 ++
  [done_with 0 []; done_with (zlen (menu_line example_vault (mk_rofi_entry menu_token 0))) (menu_line example_vault (mk_rofi_entry menu_token 0)); done_with 0 []; done_with 0 []; done_with 77 []].
Definition menu_start : kst := mk_kst menu_answers [] 0 [] false.
Definition menu_end : kst := match rofi_select menu_job example_vault menu_start with Some (_, s) => s | None => menu_start end.

Lemma rofi_selects_its_choice_witness : selection_sound 5 6 example_vault menu_start (PV_OK, Some 0%nat, no_rofi) menu_end.
Proof.
  apply (rofi_selects_its_choice menu_job example_vault menu_start menu_end PV_OK (Some 0%nat) no_rofi); [exact (vault_reachable_inv _ example_reachable) |].
  vm_compute. reflexivity.
Defined.
