(* ===== verification/ShellProps.v ===== *)
(** * The session of the shell ends

    The loop of [pv_shell_run] as a step relation between what is left of standard
    input and the state. Every turn that goes on takes at least a byte, so the fuel
    of [shell_loop] is never what ends it. *)

From stdpp Require Import gmap.
From S2P Require Import Prelude Status Util Sys Arena Model Cbor Crypto Posix Recovery Config Secure Fs Store StoreOps.
From S2P Require Import Ui Process Clipboard Rofi Cli Shell.

(** ** Lines *)

Lemma fgets_shrinks size input line feof rest : (1 < size)%nat -> fgets size input = Some (line, feof, rest) -> (length rest < length input)%nat.
Proof.
  assert (Hle : forall n input line feof rest, fgets_loop n input = (line, feof, rest) -> (length rest <= length input)%nat).
  { induction n as [| n IH]; intros l ln f r E; [by injection E as _ _ <- |]. destruct l as [| c l]; cbn [fgets_loop] in E; [by injection E as _ _ <- |].
    destruct (c =? 10); [injection E as _ _ <-; cbn; lia |]. destruct (fgets_loop n l) as [[ln' f'] r'] eqn:El. injection E as _ _ <-. apply IH in El. cbn. lia. }
  intros Hs E. unfold fgets in E. destruct input as [| c input]; [done |]. injection E as E. destruct size as [| [| n]]; [lia | lia |]. cbn [Nat.sub fgets_loop] in E.
  destruct (c =? 10); [injection E as _ _ <-; cbn; lia |]. replace (n - 0)%nat with n in E by lia.
  destruct (fgets_loop n input) as [[ln' f'] r'] eqn:El. injection E as _ _ <-. apply Hle in El. cbn. lia.
Qed.

Lemma discard_shrinks input : (length (discard_line input) <= length input)%nat.
Proof. induction input as [| c input IH]; cbn [discard_line]; [done |]. destruct (c =? 10); cbn; lia. Qed.

Section shell_session.
Context `{Host} {S : Sodium} {L : Libcbor}.
Context (config : pv_config) (vault : pv_vault) (clipboard : pv_clipboard_job) (ready : bool).

Lemma turn_shrinks input c x rest c' : shell_turn config vault clipboard ready input c = Some ((inl x, rest), c') -> (length rest < length input)%nat.
Proof.
  unfold shell_turn. unfold mbind at 1, C_bind at 1. cbn [say]. unfold mbind at 1, C_bind at 1. destruct (on_process _ _) as [[a c1] |]; [| done].
  cbv zeta. destruct (a_ret a =? 0); [done |]. destruct (a_ret a <? 0); [done |]. destruct (fgets 512 input) as [[[line feof] rest'] |] eqn:Ef; [| done].
  apply fgets_shrinks in Ef; [| lia]. destruct (_ && _).
  - intros [= _ <- _]. pose proof (discard_shrinks rest'). lia.
  - destruct (shell_words _) as [command argument]. unfold mbind, C_bind. destruct (shell_command _ _ _ _ _ _) as [[r c2] |]; [| done]. by intros [= _ <- _].
Qed.

(** A turn that does not end the session: the input that is left and the state. *)
Definition goes_on (a b : list Z * cli) : Prop := shell_turn config vault clipboard ready (fst a) (snd a) = Some ((inl tt, fst b), snd b).

(** The turn after which there is no other. *)
Definition ends_at (a : list Z * cli) (result : pv_status * bool) (c : cli) : Prop :=
  exists rest, shell_turn config vault clipboard ready (fst a) (snd a) = Some ((inr result, rest), c).

Definition waits_at (a : list Z * cli) : Prop := shell_turn config vault clipboard ready (fst a) (snd a) = None.

Lemma loop_turns fuel input c : (length input < fuel)%nat ->
  exists last, rtc goes_on (input, c) last /\
    match shell_loop fuel config vault clipboard ready input c with Some (result, c') => ends_at last result c' | None => waits_at last end.
Proof.
  revert input c. induction fuel as [| fuel IH]; intros input c Hf; [lia |]. cbn [shell_loop]. unfold mbind, C_bind.
  destruct (shell_turn config vault clipboard ready input c) as [[[[[] | r] rest] c1] |] eqn:E.
  - pose proof (turn_shrinks _ _ _ _ _ E). destruct (IH rest c1 ltac:(lia)) as (last & Hr & Hl). exists last. split; [| done]. by apply rtc_l with (rest, c1).
  - exists (input, c). split; [constructor |]. by exists rest.
  - by exists (input, c).
Qed.

Lemma turns_meet a b b' : rtc goes_on a b -> rtc goes_on a b' -> (forall x, ~ goes_on b x) -> (forall x, ~ goes_on b' x) -> b = b'.
Proof.
  intros Hab. revert b'. induction Hab as [a | a x b Hax Hxb IH]; intros b' Hab' Hb Hb'.
  - destruct Hab' as [a | a y b' Hay _]; [done |]. by apply Hb in Hay.
  - destruct Hab' as [a | a y b' Hay Hyb]; [by apply Hb' in Hax |]. assert (x = y) as ->; [| by apply IH].
    destruct x, y. unfold goes_on in *. cbn [fst snd] in *. congruence.
Qed.

(** C27: a session of the shell is its turns, and always comes to an end. The loop,
    with the fuel that [pv_shell_run] gives it, returns a result exactly when some
    number of turns that go on leads to a turn that ends the session with that
    result; and it has none exactly when such turns lead to one that waits for the
    terminal or the clipboard. It never runs out of turns, whatever is typed. *)
Theorem shell_loop_ends (input : list Z) (c : cli) :
  (forall result c', shell_loop (Datatypes.S (length input)) config vault clipboard ready input c = Some (result, c') <->
     exists last, rtc goes_on (input, c) last /\ ends_at last result c') /\
  (shell_loop (Datatypes.S (length input)) config vault clipboard ready input c = None <-> exists last, rtc goes_on (input, c) last /\ waits_at last).
Proof.
  destruct (loop_turns (Datatypes.S (length input)) input c ltac:(lia)) as (last & Hr & Hl).
  assert (Hend : forall b r c', ends_at b r c' -> forall x, ~ goes_on b x) by (intros b r c' (rest & E) x Hx; unfold goes_on in Hx; congruence).
  assert (Hwait : forall b, waits_at b -> forall x, ~ goes_on b x) by (intros b Hb x Hx; unfold goes_on, waits_at in *; congruence).
  destruct (shell_loop _ _ _ _ _ _ _) as [[r c1] |] eqn:E; split.
  - intros r' c'. split; [intros [= <- <-]; by exists last |]. intros (last' & Hr' & He'). destruct (turns_meet _ _ _ Hr Hr'); [by eauto | by eauto |].
    destruct Hl as (rest & E1), He' as (rest' & E2). congruence.
  - split; [done |]. intros (last' & Hr' & Hw'). destruct (turns_meet _ _ _ Hr Hr'); [by eauto | by eauto |]. destruct Hl as (rest & E1). unfold waits_at in Hw'. congruence.
  - intros r' c'. split; [done |]. intros (last' & Hr' & He'). destruct (turns_meet _ _ _ Hr Hr'); [by eauto | by eauto |]. destruct He' as (rest & E1). unfold waits_at in Hl. congruence.
  - split; [by exists last | done].
Qed.

End shell_session.
