(* ===== verification/Fuzz.v ===== *)
(** * The fuzz targets

    [src/fuzz/fuzz_header.c], [src/fuzz/fuzz_cbor.c] and
    [src/fuzz/fuzz_recovery.c]: each hands a decoder the fuzzer's bytes, and
    then a seed of its own into which pairs of the fuzzer's bytes were mixed.
    An entry point returns [0] whatever happens; the definitions also return
    what the decoders answered, which the targets discard, so that theorems can
    speak of it. The local buffers the code does not initialise have the
    contents [uninit]. *)

From S2P Require Import Prelude Status Util Sys Arena Model Cbor Crypto Posix Recovery Secure.

(** The static [state] after the call, and the result; [init] is what
    [sodium_init] answers when it is called. The three targets have the same
    function. *)
Definition fuzz_initialized (init state : Z) : bool * Z :=
  let state := if state =? 0 then (if 0 <=? init then 1 else -1) else state in
  (0 <? state, state).

(** The loop over pairs of bytes of [data]: a position, modulo [positions], and
    what is mixed into the byte there. *)
Fixpoint mix_pairs (positions : Z) (data structured : list Z) : list Z :=
  match data with
  | position :: value :: data' =>
      let position := position mod positions in
      mix_pairs positions data' (zwrite structured position [Z.lxor (znth structured position) value])
  | _ => structured
  end.

(** ** The header *)

Section header.
(** [crypto_pwhash_OPSLIMIT_MIN] and [crypto_pwhash_MEMLIMIT_MIN] of libsodium. *)
Variables opslimit_min memlimit_min : Z.

(** What an accepted header encodes to. *)
Definition fuzz_decode_header (uninit input : list Z) : option (list Z) :=
  let '(status, header) := pv_header_decode input in
  if is_ok status then Some (pv_header_encode header uninit) else None.

Definition make_valid_header (output : list Z) : list Z :=
  let header := header_zero in
  let header :=
    mk_header pv_magic PV_FILE_MAJOR PV_FILE_MINOR PV_FILE_HEADER_LEN (h_flags header)
      (zwrite (h_vault_id header) 0 [1]) PV_KDF_ARGON2ID13 PV_AEAD_XCHACHA20POLY1305
      PV_AEAD_XCHACHA20POLY1305 2
      (mk_pslot opslimit_min memlimit_min (ps_salt (h_password_slot header))
         (ps_nonce (h_password_slot header)) (ps_wrapped_vmk (h_password_slot header)))
      (h_recovery_slot header) (h_body_nonce header) (4096 + PV_BODY_TAG_BYTES) in
  pv_header_encode header output.

(** The static [state], the value returned, and what [fuzz_decode_header] did
    with the fuzzer's bytes and with the mixed seed. *)
Definition header_target (uninit : list Z) (init state : Z) (data : list Z)
  : Z * Z * list (option (list Z)) :=
  let '(initialized, state) := fuzz_initialized init state in
  if negb initialized then (state, 0, []) else
  let copy_len := if zlen data <? PV_FILE_HEADER_LEN then zlen data else PV_FILE_HEADER_LEN in
  let raw := zeros PV_FILE_HEADER_LEN in
  let raw := if 0 <? copy_len then zwrite raw 0 (zsub data 0 copy_len) else raw in
  let first := fuzz_decode_header uninit raw in
  let structured := mix_pairs PV_FILE_HEADER_LEN data (make_valid_header uninit) in
  let second := fuzz_decode_header uninit structured in
  (state, 0, [first; second]).

End header.

(** ** The plaintext *)

(** The status of [pv_cbor_decode], and what an accepted vault encodes to;
    [None] inside when the decoder was not reached, [None] outside when the
    identifiers drawn for new records never ended. *)
Section cbor.
Context `{Libcbor}.

Definition fuzz_decode_cbor (fuel : nat) (data : list Z)
  : M (option (option (pv_status * option (pv_status * option (list Z))))) :=
  if (zlen data =? 0) || (PV_MAX_PLAINTEXT <? zlen data) then mret (Some None) else
  r ← pv_model_init vault_zero (cstr "fuzz.pvlt");
  let '(status, vault) := r in
  if negb (is_ok status) then mret (Some None) else
  r ← pv_cbor_decode fuel data vault;
  match r with
  | None => mret None
  | Some (status, vault) =>
      encoded ← (if is_ok status then e ← pv_cbor_encode vault; mret (Some e) else mret None);
      _ ← pv_model_destroy vault;
      mret (Some (Some (status, encoded)))
  end.

Definition valid_empty_vault : list Z :=
  [0xa6;
   0x00; 0x01;
   0x01; 0x00;
   0x02; 0x50;
   0x01; 0x00; 0x00; 0x00; 0x00; 0x00; 0x00; 0x00;
   0x00; 0x00; 0x00; 0x00; 0x00; 0x00; 0x00; 0x00;
   0x03; 0x00;
   0x04; 0x00;
   0x05; 0x80].

Definition cbor_target (fuel : nat) (init state : Z) (data : list Z)
  : M (option (Z * Z * list (option (pv_status * option (pv_status * option (list Z)))))) :=
  let '(initialized, state) := fuzz_initialized init state in
  if negb initialized then mret (Some (state, 0, [])) else
  first ← fuzz_decode_cbor fuel data;
  match first with
  | None => mret None
  | Some first =>
      let structured := mix_pairs (zlen valid_empty_vault) data valid_empty_vault in
      second ← fuzz_decode_cbor fuel structured;
      match second with
      | None => mret None
      | Some second => mret (Some (state, 0, [first; second]))
      end
  end.

End cbor.

(** ** The recovery key *)

Section recovery.
Context `{Sodium}.

(** The status and the key before it is wiped. *)
Definition fuzz_decode_recovery (encoded vault_id : list Z) : M (pv_status * list Z) :=
  pv_recovery_decode encoded vault_id.

Definition fuzz_vault_id : list Z :=
  [0x10; 0x11; 0x12; 0x13; 0x14; 0x15; 0x16; 0x17;
   0x18; 0x19; 0x1a; 0x1b; 0x1c; 0x1d; 0x1e; 0x1f].

(** With the terminator, which is part of the array. *)
Definition valid_recovery : list Z :=
  cstr "PV1R-000G4-0R40M-30E20-9185G-R38E1-W8124-GK2GA-HC5RR-34D1P-70X3R-FZBZV-DB15G" ++ [0].

(** [uninit] is the local array [encoded]; both arrays are read as C strings. *)
Definition recovery_target (uninit : list Z) (init state : Z) (data : list Z)
  : M (Z * Z * list (pv_status * list Z)) :=
  let '(initialized, state) := fuzz_initialized init state in
  if negb initialized then mret (state, 0, []) else
  let copy_len :=
    if zlen data <? PV_RECOVERY_TEXT_MAX - 1 then zlen data else PV_RECOVERY_TEXT_MAX - 1 in
  let encoded := if 0 <? copy_len then zwrite uninit 0 (zsub data 0 copy_len) else uninit in
  let encoded := zwrite encoded copy_len [0] in
  first ← fuzz_decode_recovery (c_string encoded) fuzz_vault_id;
  let structured := mix_pairs (zlen valid_recovery - 1) data valid_recovery in
  second ← fuzz_decode_recovery (c_string structured) fuzz_vault_id;
  mret (state, 0, [first; second]).

End recovery.
