(* ===== verification/FuzzProps.v ===== *)
(** * Properties of the fuzz targets

    What the targets exercise. A decoder that accepts its bytes is followed by
    the encoder, which gives the same bytes back, for the header and for the
    plaintext, whatever the fuzzer sends. The seed of the plaintext target is a
    vault the decoder accepts, the seed of the recovery target is accepted when
    BLAKE2b has the checksum it ends with, and the seed of the header target is
    not accepted: its KDF limits are libsodium's smallest ones and not the
    smallest ones of the format. *)

From S2P Require Import Prelude Status Util Sys Arena Model ModelFacts ModelInv ModelProps Cbor CborGrammar CborFacts CborProps Crypto.
From S2P Require Import CryptoFacts Posix Recovery RecoveryFacts RecoveryProps Secure FsFacts StoreFacts StoreReads StoreSave StoreReopen Dialogue Fuzz.

(** ** Lemmas: mixing pairs of bytes into a seed *)

Lemma mix_pairs_ind (P : list Z -> Prop) positions :
  0 < positions ->
  (forall l p v, positions <= zlen l -> P l -> is_byte v -> 0 <= p < positions -> P (zwrite l p [Z.lxor (znth l p) v])) ->
  forall data l, is_bytes data -> positions <= zlen l -> P l ->
  P (mix_pairs positions data l) /\ zlen (mix_pairs positions data l) = zlen l.
Proof.
  intros Hpos Hstep. fix IH 1. intros [| p [| v data]] l Hd Hl HP; [done | done |].
  apply Forall_cons_1 in Hd as [_ [Hv Hd]%Forall_cons_1]. cbn [mix_pairs]. cbv zeta.
  pose proof (Z.mod_pos_bound p positions Hpos) as Hp.
  assert (Hlen : zlen (zwrite l (p mod positions) [Z.lxor (znth l (p mod positions)) v]) = zlen l) by (apply zlen_zwrite; rewrite ?zlen_cons, ?zlen_nil; lia).
  destruct (IH data (zwrite l (p mod positions) [Z.lxor (znth l (p mod positions)) v])) as [H1 H2]; [done | lia | by apply Hstep |].
  split; [done | lia].
Qed.

Lemma lxor_byte a b : is_byte a -> is_byte b -> is_byte (Z.lxor a b).
Proof.
  unfold is_byte. intros Ha Hb. assert (0 <= Z.lxor a b) by (apply Z.lxor_nonneg; lia). split; [done |].
  destruct (Z.eq_dec (Z.lxor a b) 0) as [-> |]; [lia |]. apply Z.log2_lt_pow2 with (b := 8); [lia |].
  pose proof (Z.log2_lxor a b ltac:(lia) ltac:(lia)) as Hl.
  assert (forall x, 0 <= x < 256 -> Z.log2 x < 8).
  { intros x Hx. destruct (Z.eq_dec x 0) as [-> |]; [done |]. apply Z.log2_lt_pow2; lia. }
  pose proof (H0 a Ha). pose proof (H0 b Hb). lia.
Qed.

Lemma znth_byte l i : is_bytes l -> is_byte (znth l i).
Proof.
  intros Hl. unfold znth. destruct (decide (Z.to_nat i < length l)%nat).
  - unfold is_bytes in Hl. rewrite List.Forall_forall in Hl. by apply Hl, nth_In.
  - rewrite nth_overflow by lia. apply is_byte_0.
Qed.

Lemma mix_pairs_bytes positions data l : 0 < positions <= zlen l -> is_bytes data -> is_bytes l ->
  is_bytes (mix_pairs positions data l) /\ zlen (mix_pairs positions data l) = zlen l.
Proof.
  intros Hp Hd Hl. apply (mix_pairs_ind is_bytes); auto; try lia. intros k p v _ Hk Hv _.
  apply is_bytes_zwrite; [done |]. constructor; [| constructor]. apply lxor_byte; [by apply znth_byte | done].
Qed.

(** Fewer than two pairs change at most one byte. *)
Lemma mix_short positions data l : 0 < positions -> zlen data < 4 ->
  mix_pairs positions data l = l \/
  exists p b, 0 <= p < positions /\ mix_pairs positions data l = zwrite l p [b].
Proof.
  intros Hpos Hn. destruct data as [| p [| v [| x [| y data]]]]; try (by left).
  - right. eexists _, _. split; [by apply Z.mod_pos_bound | reflexivity].
  - right. eexists _, _. split; [by apply Z.mod_pos_bound | reflexivity].
  - exfalso. repeat rewrite zlen_cons in Hn. pose proof (zlen_nonneg data). lia.
Qed.

Lemma mix_none positions data l : zlen data < 2 -> mix_pairs positions data l = l.
Proof. destruct data as [| p [| v data]]; try done. rewrite !zlen_cons. pose proof (zlen_nonneg data). lia. Qed.

(** ** The header *)

Lemma decode_header_reencodes uninit input e :
  zlen uninit = PV_FILE_HEADER_LEN -> zlen input = PV_FILE_HEADER_LEN -> is_bytes input ->
  fuzz_decode_header uninit input = Some e -> e = input.
Proof.
  intros Hu Hl Hb. unfold fuzz_decode_header. destruct (pv_header_decode input) as [st h] eqn:E.
  destruct (is_ok st) eqn:Hst; [| done]. apply is_ok_true in Hst as ->. intros [= <-].
  apply header_decode_ok in E as [-> Hv]; [| done | done]. rewrite header_encode_eq by (auto; apply Hv). by apply header_bytes_read.
Qed.

(** The header the target builds. *)
Definition seed_header (ops mem : Z) : pv_file_header :=
  mk_header pv_magic PV_FILE_MAJOR PV_FILE_MINOR PV_FILE_HEADER_LEN 0 (1 :: zeros 15) PV_KDF_ARGON2ID13
    PV_AEAD_XCHACHA20POLY1305 PV_AEAD_XCHACHA20POLY1305 2
    (mk_pslot ops mem (zeros PV_SALT_BYTES) (zeros PV_WRAP_NONCE_BYTES) (zeros PV_WRAPPED_VMK_BYTES))
    (mk_rslot (zeros PV_WRAP_NONCE_BYTES) (zeros PV_WRAPPED_VMK_BYTES)) (zeros PV_WRAP_NONCE_BYTES) (4096 + PV_BODY_TAG_BYTES).

Lemma seed_typed ops mem : 0 <= ops <= UINT64_MAX -> 0 <= mem <= UINT64_MAX -> header_typed (seed_header ops mem).
Proof.
  intros. assert (forall n, is_bytes (zeros n)) by apply is_bytes_zeros.
  constructor; try done; try (split; by vm_compute); (split; [by vm_compute | cbn [seed_header h_magic h_vault_id h_password_slot
    h_recovery_slot h_body_nonce ps_salt ps_nonce ps_wrapped_vmk rs_nonce rs_wrapped_vmk]; try done]).
  - by repeat constructor.
  - apply is_bytes_cons; [by unfold is_byte | done].
Qed.

Lemma make_valid_eq ops mem out : 0 <= ops <= UINT64_MAX -> 0 <= mem <= UINT64_MAX -> zlen out = PV_FILE_HEADER_LEN ->
  make_valid_header ops mem out = header_bytes (seed_header ops mem).
Proof. intros Ho Hm Hl. etrans; [| apply (header_encode_eq _ out (seed_typed ops mem Ho Hm) Hl)]. reflexivity. Qed.

(** The limits an input of the decoder must have. *)
Lemma decoded_limits input h : zlen input = PV_FILE_HEADER_LEN -> is_bytes input -> pv_header_decode input = (PV_OK, h) ->
  PV_V1_PASSWORD_OPSLIMIT_MIN <= get_u64_le (zsub input 44 8) /\ PV_V1_PASSWORD_MEMLIMIT_MIN <= get_u64_le (zsub input 52 8).
Proof.
  intros Hl Hb E. apply header_decode_ok in E as [-> [[] _]]; [| done | done]. cbn [header_read h_password_slot ps_opslimit ps_memlimit] in *. lia.
Qed.

Lemma seed_limits ops mem : 0 <= ops <= UINT64_MAX -> 0 <= mem <= UINT64_MAX ->
  get_u64_le (zsub (header_bytes (seed_header ops mem)) 44 8) = ops /\ get_u64_le (zsub (header_bytes (seed_header ops mem)) 52 8) = mem.
Proof.
  intros Ho Hm. pose proof (header_read_bytes _ (seed_typed ops mem Ho Hm)) as E.
  split; [apply (f_equal (fun h => ps_opslimit (h_password_slot h))) in E | apply (f_equal (fun h => ps_memlimit (h_password_slot h))) in E]; exact E.
Qed.

Lemma seed_refused uninit data : zlen uninit = PV_FILE_HEADER_LEN -> is_bytes data -> zlen data < 4 ->
  fuzz_decode_header uninit (mix_pairs PV_FILE_HEADER_LEN data (make_valid_header 1 8192 uninit)) = None.
Proof.
  intros Hu Hb Hshort. assert (0 <= 1 <= UINT64_MAX) as H1 by by vm_compute. assert (0 <= 8192 <= UINT64_MAX) as H2 by by vm_compute.
  rewrite make_valid_eq by done. destruct (seed_limits 1 8192 H1 H2) as [Lo Lm].
  pose proof (header_len _ (seed_typed 1 8192 H1 H2)) as Hl. pose proof (header_bytes_bytes _ (seed_typed 1 8192 H1 H2)) as Hs.
  set (seed := header_bytes (seed_header 1 8192)) in *. clearbody seed. destruct (mix_pairs_bytes PV_FILE_HEADER_LEN data seed) as [Mb Ml]; [unfold PV_FILE_HEADER_LEN; lia | done | done |].
  unfold fuzz_decode_header. destruct (pv_header_decode _) as [st h] eqn:E. destruct (is_ok st) eqn:Hst; [| done]. exfalso.
  apply is_ok_true in Hst as ->. apply decoded_limits in E as [Eo Em]; [| by rewrite Ml, Hl | done].
  unfold PV_V1_PASSWORD_OPSLIMIT_MIN, PV_V1_PASSWORD_MEMLIMIT_MIN, PV_V1_PASSWORD_OPSLIMIT, PV_V1_PASSWORD_MEMLIMIT in *.
  destruct (mix_short PV_FILE_HEADER_LEN data seed) as [Ep | (p & b & Hp & Ep)]; [done | done | |]; rewrite Ep in Eo, Em; [lia |].
  unfold PV_FILE_HEADER_LEN in Hp. destruct (decide (p < 52)).
  - rewrite zsub_zwrite_above in Em by (rewrite ?zlen_cons, ?zlen_nil; lia). lia.
  - rewrite zsub_zwrite_below in Eo by lia. lia.
Qed.

(** C38: the "valid" header of the header target is not one. With the limits that
    libsodium documents as the smallest ([crypto_pwhash_OPSLIMIT_MIN] is 1 and
    [crypto_pwhash_MEMLIMIT_MIN] is 8192) [pv_header_decode] refuses the seed
    with [PV_ERR_FORMAT], and it refuses the mixed seed of every input of fewer
    than four bytes: two pairs at least are needed to repair both limits. *)
Theorem header_fuzz_seed_rejected (opslimit_min memlimit_min : Z) (uninit data : list Z)
    (Hops : opslimit_min = 1) (Hmem : memlimit_min = 8192)
    (Hu : zlen uninit = PV_FILE_HEADER_LEN) (Hb : is_bytes data) (Hshort : zlen data < 4) :
  pv_header_decode (make_valid_header opslimit_min memlimit_min uninit) = (PV_ERR_FORMAT, header_zero) /\
  forall init state e, snd (header_target opslimit_min memlimit_min uninit init state data) !! 1%nat <> Some (Some e).
Proof.
  subst. assert (0 <= 1 <= UINT64_MAX) as H1 by by vm_compute. assert (0 <= 8192 <= UINT64_MAX) as H2 by by vm_compute.
  split; [rewrite make_valid_eq by done; by vm_compute |]. intros init state e. unfold header_target.
  destruct (fuzz_initialized init state) as [[] state']; [| done]. cbn [negb]. cbv zeta. by rewrite seed_refused.
Qed.

Lemma header_fuzz_seed_rejected_witness :
  pv_header_decode (make_valid_header 1 8192 (zeros 252)) = (PV_ERR_FORMAT, header_zero) /\
  forall init state e, snd (header_target 1 8192 (zeros 252) init state [44; 2]) !! 1%nat <> Some (Some e).
Proof.
  apply (header_fuzz_seed_rejected 1 8192 (zeros 252) [44; 2]); [done | done | by vm_compute | by repeat constructor | done].
Defined.

(** ** The plaintext *)

(** The answer of [fuzz_decode_cbor] gives the input back when it is accepted
    and there is memory for the encoding. *)
Definition reencodes (input : list Z) (r : option (pv_status * option (pv_status * option (list Z)))) : Prop :=
  match r with
  | Some (PV_OK, encoded) => encoded = Some (PV_OK, Some input) \/ encoded = Some (PV_ERR_SECURE_MEMORY, None)
  | Some (_, encoded) => encoded = None
  | None => True
  end.

Lemma clock_ok_later s s' : later s s' -> clock_ok s -> clock_ok s'.
Proof. intros [_ _ _ [n Hn] _] Hs i. rewrite Hn. apply Hs. Qed.

Section cbor.
Context `{L : Libcbor}.

Lemma tame_decode_cbor fuel data : tame (fuzz_decode_cbor fuel data).
Proof. unfold fuzz_decode_cbor. pose proof tame_cbor_decode. solve_tame. Qed.

Lemma decode_cbor_reencodes fuel data s : is_bytes data -> clock_ok s ->
  exists r s', fuzz_decode_cbor fuel data s = (Some r, s') /\ clock_ok s' /\ reencodes data r.
Proof.
  intros Hb Hclk. pose proof (tame_decode_cbor fuel data s) as Ht. apply clock_ok_later in Ht; [| done]. revert Ht.
  unfold fuzz_decode_cbor. split_if; [by eexists _, _ |]. rewrite bind_run.
  destruct (pv_model_init vault_zero (cstr "fuzz.pvlt") s) as [[st v] s1] eqn:Ei.
  destruct (is_ok st) eqn:Hst; cbn [negb]; [| by eexists _, _]. apply is_ok_true in Hst as ->.
  apply model_init_ok in Ei as (-> & _ & Hc1). rewrite bind_run.
  pose proof (decode_needs_no_fuel fuel data (fresh_vault (cstr "fuzz.pvlt")) s1) as Hn.
  destruct (pv_cbor_decode fuel data (fresh_vault (cstr "fuzz.pvlt")) s1) as [[[st v] |] s2] eqn:Ed; [| done].
  apply decode_inv in Ed as [Hwf Hok]; [| done | apply fresh_rebuilt | intros i; rewrite Hc1; apply Hclk].
  rewrite bind_run. destruct (is_ok st) eqn:Hst; rewrite ?bind_run.
  - apply is_ok_true in Hst as ->. destruct (Hok eq_refl) as (-> & Hm & _). pose proof (encode_run v s2 Hwf Hm) as He.
    destruct (pv_cbor_encode v s2) as [e s3]. cbn [fst] in He. subst e. unfold mret, M_ret. cbv beta iota. rewrite bind_run.
    destruct (pv_model_destroy v s3) as [v' s4]. cbn [fst snd]. intros Hs4. eexists _, _. split; [reflexivity |]. split; [done |].
    destruct (s_malloc s2 0%nat && s_mlock s2 0%nat); [by left | by right].
  - unfold mret, M_ret. cbv beta iota. rewrite ?bind_run. destruct (pv_model_destroy v s2) as [v' s4]. cbn [fst snd]. intros Hs4.
    eexists _, _. split; [reflexivity |]. split; [done |]. by destruct st.
Qed.

(** The plaintext target returns [0] on every input, without drawing record
    identifiers, and what the decoder accepts, of the fuzzer's bytes and of the
    mixed seed, the encoder writes back byte for byte, or refuses only for want
    of memory. *)
Theorem cbor_target_canonical (fuel : nat) (init state : Z) (data : list Z) (s : sys) (Hb : is_bytes data) (Hclk : clock_ok s) :
  exists results s', cbor_target fuel init state data s = (Some (snd (fuzz_initialized init state), 0, results), s') /\
    (results = [] \/ exists first second, results = [first; second] /\ reencodes data first /\
       reencodes (mix_pairs (zlen valid_empty_vault) data valid_empty_vault) second).
Proof.
  unfold cbor_target. destruct (fuzz_initialized init state) as [[] state']; cbn [negb snd]; [| eexists _, _; split; [done | by left]].
  rewrite bind_run. destruct (decode_cbor_reencodes fuel data s Hb Hclk) as (first & s1 & -> & Hclk1 & H1).
  assert (is_bytes valid_empty_vault) as Hv by (repeat (apply is_bytes_cons; [by unfold is_byte |]); apply is_bytes_nil).
  destruct (mix_pairs_bytes (zlen valid_empty_vault) data valid_empty_vault) as [Mb _]; [by vm_compute | done | done |].
  cbv zeta. rewrite bind_run. destruct (decode_cbor_reencodes fuel _ s1 Mb Hclk1) as (second & s2 & -> & _ & H2).
  eexists _, _. split; [reflexivity |]. right. by eexists _, _.
Qed.

End cbor.

(** The seed is the encoding of a vault without records, and on a platform on
    which nothing fails it is decoded and written back. *)
Lemma cbor_seed_accepted `{L : Libcbor} {Laws : LibcborLaws L} fuel s : sys_calm s ->
  exists s', fuzz_decode_cbor fuel valid_empty_vault s = (Some (Some (PV_OK, Some (PV_OK, Some valid_empty_vault))), s').
Proof.
  intros Hs. unfold fuzz_decode_cbor. change ((zlen valid_empty_vault =? 0) || (PV_MAX_PLAINTEXT <? zlen valid_empty_vault)) with false. cbn iota.
  assert (is_bytes valid_empty_vault) as Hv by (repeat (apply is_bytes_cons; [by unfold is_byte |]); apply is_bytes_nil).
  rewrite bind_run. destruct (model_init_calm vault_zero (cstr "fuzz.pvlt") s Hs) as (s1 & -> & Hs1); [by vm_compute |]. cbn [is_ok negb].
  assert (valid_empty_vault = enc_vault 0 0 0 (1 :: zeros 15) []) as E by by vm_compute.
  destruct (decode_run fuel 0 0 0 (1 :: zeros 15) [] (fresh_vault (cstr "fuzz.pvlt")) s1) as (v & s2 & Hd & Hwf & Hc & Hg & Hi & H1 & H2 & _);
    [by vm_compute | by vm_compute | by vm_compute | apply is_bytes_cons; [by unfold is_byte | apply is_bytes_zeros] | by vm_compute | by vm_compute
    | apply List.Forall_nil | apply NoDup_nil_2 | by vm_compute | by rewrite <- E | by rewrite <- E | apply fresh_rebuilt | exact (proj2 Hs1) |].
  - rewrite bind_run, E, Hd. pose proof (tame_cbor_decode fuel (enc_vault 0 0 0 (1 :: zeros 15) []) (fresh_vault (cstr "fuzz.pvlt")) s1) as Ht.
    rewrite Hd in Ht. cbn [snd] in Ht. pose proof (sys_calm_later _ _ Ht Hs1) as Hs2. destruct (proj1 Hs1 0%nat) as (_ & _ & ->). cbn [is_ok].
    assert (meta_ok v) as Hm.
    { constructor; rewrite ?Hg, ?Hi, ?H1, ?H2; try (by vm_compute). apply is_bytes_cons; [by unfold is_byte | apply is_bytes_zeros]. }
    rewrite bind_run, bind_run. pose proof (encode_run v s2 Hwf Hm) as He. destruct (proj1 Hs2 0%nat) as (-> & -> & _) in He. cbn [andb] in He.
    destruct (pv_cbor_encode v s2) as [e s3]. cbn [fst] in He. subst e. unfold mret, M_ret. cbv beta iota. rewrite bind_run.
    destruct (pv_model_destroy v s3) as [v' s4]. exists s4. do 6 f_equal. unfold encoding. by rewrite Hg, Hi, H1, H2, Hc.
Qed.

(** ** The recovery key *)

(** The key the seed spells, and the checksum it ends with. *)
Definition seed_key : list Z := seqZ 0 32.
Definition seed_checksum : list Z := [0xf5; 0xff; 0x6d; 0x58; 0x4b].

Lemma seed_payload :
  recovery_payload (c_string valid_recovery) = Some (cstr "000G40R40M30E209185GR38E1W8124GK2GAHC5RR34D1P70X3RFZBZVDB15G").
Proof. by vm_compute. Qed.

Section recovery.
Context `{S : Sodium}.

(** On a platform on which nothing fails the seed is accepted exactly when
    BLAKE2b of the identifier and the key starts with the seed's last five
    bytes, and it is read as the bytes 0 to 31. *)
Theorem recovery_seed_accepted (uninit data : list Z) (init : Z) (s : sys) (Hs : sys_calm s) (Hi : 0 <= init) (Hshort : zlen data < 2) :
  exists first, snd (fst (recovery_target uninit init 0 data s)) = [first;
    match crypto_generichash (fuzz_vault_id ++ seed_key) with
    | Some digest => if bytes_eqb (zsub digest 0 5) seed_checksum then (PV_OK, seed_key) else (PV_ERR_AUTH, zeros PV_RECOVERY_KEY_BYTES)
    | None => (PV_ERR_AUTH, zeros PV_RECOVERY_KEY_BYTES)
    end].
Proof.
  unfold recovery_target, fuzz_initialized. cbn [Z.eqb]. replace (0 <=? init) with true by lia. cbn [Z.ltb Z.compare negb]. cbv zeta.
  rewrite bind_run. set (encoded := c_string _). pose proof (tame_recovery_decode encoded fuzz_vault_id s) as Ht. unfold fuzz_decode_recovery.
  destruct (pv_recovery_decode encoded fuzz_vault_id s) as [first s1]. cbn [snd] in Ht. exists first. rewrite bind_run, mix_none by done.
  pose proof (recovery_decode_run (c_string valid_recovery) fuzz_vault_id s1 (calm_allocs 3 s1 (sys_calm_later _ _ Ht Hs))) as Hr.
  destruct (pv_recovery_decode (c_string valid_recovery) fuzz_vault_id s1) as [second s2]. cbn [fst] in Hr. subst second. cbn [mret M_ret fst snd].
  rewrite seed_payload. cbv zeta.
  by replace (base32_decode _ 37) with (Some (seed_key ++ seed_checksum)) by by vm_compute.
Qed.

End recovery.

(** The array keeps its terminator, so the mixed seed is read as a string
    inside it. *)
Lemma recovery_mix_terminated data : is_bytes data ->
  zsub (mix_pairs (zlen valid_recovery - 1) data valid_recovery) (zlen valid_recovery - 1) 1 = [0].
Proof.
  intros Hb. assert (Hlen : 0 < zlen valid_recovery - 1) by by vm_compute.
  apply (mix_pairs_ind (fun l => zsub l (zlen valid_recovery - 1) 1 = [0])); [done | | done | lia | by vm_compute].
  intros l p v Hl Hz _ Hp. rewrite <- Hz. apply zsub_zwrite_above; rewrite ?zlen_cons, ?zlen_nil; lia.
Qed.
